(* ===== verification/_CoqProject ===== *)
-Q . S2P
Prelude.v
Uint128.v
Uint128Facts.v
Strings.v
StringsFacts.v
OrdMap.v
PbftData.v
Pbft.v
PbftChecks.v
PbftInv.v
PbftHandlers.v
PbftTotal.v
PbftFacts.v
AtomMap.v
AtomMapFacts.v
Account.v
AccountFacts.v
Chain.v
TxFrame.v
Operation.v
Transaction.v
Ledger.v
EnvFacts.v
LedgerSpec.v
OperationFacts.v
CoinFacts.v
TransactionFacts.v
LedgerFacts.v
BlockSpec.v
RoundFacts.v
RewardFacts.v
BlockFacts.v
Trie.v
TrieLoc.v
TrieInv.v
TrieRep.v
TrieOps.v
TrieHash.v
TrieRun.v
TrieSys.v
TrieFacts.v
Base58.v
Base58Facts.v
Sm3.v
Sm3Facts.v
Keys.v
KeysFacts.v
TxQueue.v
TxQueueInv.v
TxQueueFacts.v
LedgerUpgrade.v
LedgerUpgradeFacts.v
Glue.v
GlueFacts.v
LedgerContext.v
LedgerManager.v
LedgerManagerInv.v
LedgerChain.v
LedgerSync.v
LedgerCatchUp.v
LedgerManagerFacts.v
LedgerCommit.v
LedgerCommitFacts.v
Broadcast.v
Gossip.v
GossipFacts.v
PeerTable.v
PeerTableFacts.v
Network.v
NetworkFacts.v
PeerNet.v
PeerNetFacts.v
V8.v
ContractCalls.v
ContractEngine.v
ContractInv.v
ContractTx.v
ContractReads.v
ContractFacts.v
ContractBlock.v
