(* ===== verification/Prelude.v ===== *)
(** * openSesame: a verification of its consensus, ledger, network and utilities

    openSesame is a blockchain node written in C++. A node collects transactions,
    agrees with the other validators on the next block with PBFT, applies the
    block to the account tree and stores the result. This library models the parts
    that decide what the chain contains and proves what makes them correct.

    ** The program's parts and the files that model them

    - Machine arithmetic: [uint128_t] and the checked int64 helpers of
      src/utils/base_int.h and base_int.cpp. Model: Uint128.v (Module [U128], one
      definition per operator); theorems: Uint128Facts.v.
    - Strings: src/utils/strings.h (numbers, trimming, splitting, hexadecimal and
      decimal texts). Model: Strings.v (Module [Strings]); theorems: StringsFacts.v.
    - PBFT consensus: src/consensus/bft.cpp, bft_instance.cpp and the validator
      bookkeeping of consensus.cpp. OrdMap.v holds the ordered maps ([std::map])
      the node state is made of, PbftData.v the protocol messages, instances and
      view-change instances, Pbft.v the node: message checks, the handlers of
      PrePrepare, Prepare, Commit, ViewChange and NewView, the retry loop of an
      instance, execution in order, timers, validator updates, and the check of a
      commit proof. PbftChecks.v (checks and quorums), PbftInv.v (the invariant),
      PbftHandlers.v (every handler keeps it), PbftTotal.v (termination) and
      PbftFacts.v (the theorems) reason about it.
    - Transactional maps: src/utils/atom_map.h. Model: AtomMap.v (a heap of
      shared objects and the stack of maps of nested AtomMaps); theorems:
      AtomMapFacts.v.
    - Ledger: src/ledger/account.cpp (Account.v), environment.cpp and the chain
      messages (Chain.v), fee_calculate.cpp and the frame part of
      transaction_frm.cpp (TxFrame.v), operation_frm.cpp (Operation.v), the rest of
      transaction_frm.cpp and [LedgerManager::DoTransaction] (Transaction.v),
      ledger_frm.cpp (Ledger.v). EnvFacts.v has the reasoning rules for
      accounts behind pointers, LedgerSpec.v the abstract ledger, OperationFacts.v
      and TransactionFacts.v the refinement, CoinFacts.v the conservation of
      coins, LedgerFacts.v the theorems about operations; BlockSpec.v is the
      abstract block, RoundFacts.v one transaction of a block, RewardFacts.v the
      reward, BlockFacts.v the theorems about blocks; AccountFacts.v the account caches.
    - Merkle tries: src/ledger/trie.cpp and kv_trie.cpp over the key-value store and the
      shared write batch. Model: Trie.v (nodes, locations, every operation of [Trie] and
      [KVTrie]). TrieLoc.v relates packed locations to paths of nibbles, TrieInv.v says
      when a store holds a map ([Stored]) and TrieRep.v when a node in memory does ([Rep]);
      TrieOps.v (set and delete), TrieHash.v (hashing) and TrieRun.v (reading, loading,
      freeing, scanning) show what the operations do to the map; TrieSys.v
      is the life of a trie as a step relation, TrieFacts.v has the theorems.
    - Transaction pool: src/glue/transaction_queue.h and .cpp. Model: TxQueue.v (the four
      indexes with iterators as names of nodes); TxQueueInv.v (the invariant, and
      that inserting, erasing and importing keep it), TxQueueFacts.v (theorems).
    - Upgrade votes: src/glue/ledger_upgrade.cpp. Model: LedgerUpgrade.v; theorems:
      LedgerUpgradeFacts.v.
    - Glue manager: src/glue/glue_manager.cpp and transaction_set.cpp. Model: Glue.v
      (checking values, making proposals, the pool's events); theorems: GlueFacts.v.
    - Ledger manager: src/ledger/ledger_manager.cpp, ledgercontext_manager.cpp, the settings of
      environment.cpp and the storing part of ledger_frm.cpp. Models: LedgerContext.v (the
      interface [Executor] of executing a value with its laws, settings, contexts that hold
      executions in advance) and LedgerManager.v (closing, storing and exchanging ledgers,
      starting, genesis and hard forks, over the contents of the two databases).
      LedgerManagerInv.v has the keys and batches, LedgerChain.v the abstract chain ([replay])
      and what it means that a node implements it ([chain_of]), LedgerSync.v the operations
      and the life of a node as a step relation, LedgerCatchUp.v the rounds of
      synchronisation, LedgerManagerFacts.v the theorems.
    - Keys and addresses: src/common/private_key.cpp (Keys.v), Base58 of src/utils/crypto.cpp
      (Base58.v) and src/utils/sm3.cpp (Sm3.v). Base58Facts.v relates the digit loops to the
      numbers they compute, Sm3Facts.v compares SM3 with the definition of its standard,
      KeysFacts.v has the theorems about keys and addresses.
    - The account tree after a block: [LedgerFrm::Commit] and [Environment::AccountFromDB],
      which index accounts by decoded address. Model: LedgerCommit.v; theorems:
      LedgerCommitFacts.v.
    - Broadcasting: src/overlay/broadcast.cpp (Broadcast.v), the handlers that relay messages
      and a network of nodes that run them (Gossip.v); theorems: GossipFacts.v.
    - Network: [Connection] and [Network] of src/common/network.cpp (Network.v: connection objects
      in a store, maps of pointers to them, the events of the network thread, and the class
      [NetHooks] of what a derived class overrides), [Peer] and [PeerNetwork] of src/overlay
      (PeerNet.v: the handshake, the message handlers, connecting to known peers, as an instance
      of [NetHooks]) and the table of known peers (PeerTable.v). NetworkFacts.v proves the network
      safe for every derived class that keeps the laws of [NetLaws]; PeerNetFacts.v discharges them;
      PeerTableFacts.v is about the table.

    - Contract engine: src/contract. Models: V8.v (JavaScript values, the interface [V8] of the
      JavaScript engine as a machine that calls functions of the node, the tables of functions, the
      contract object, the source check), ContractCalls.v (every function contracts may call) and
      ContractEngine.v ([V8Contract] and [ContractManager]; [contract_ledger] is the ledger whose
      contracts run on it). ContractInv.v has the weakest precondition, the state between two steps
      and the operations, ContractTx.v the transactions sent by contracts, ContractReads.v the
      functions that read and the class [EngineOk] of what the engine promises to the functions,
      ContractFacts.v the functions that write, the engine, and the theorems about it,
      ContractBlock.v the theorem about blocks.

    ** How they interact

    The glue manager takes transactions into the pool, proposes blocks of them to the
    PBFT node and checks the proposals of others; Glue.v uses the pool of TxQueue.v, the
    votes of LedgerUpgrade.v and the proof check of Pbft.v.
    A decided value goes to the ledger manager, which has it checked by the glue manager
    (LedgerManager.v uses [CheckValueAndProof] of Glue.v and with it the proof check of
    Pbft.v), executes it and writes the two databases; nodes that are behind get values from
    their peers. LedgerManager.v executes through the interface [Executor]: its laws are
    what BlockFacts.v shows of ApplyPropose, ApplyCheck and ApplyFollow for blocks that run
    no contract, and the root hash of the account tree is a function of its contents
    as TrieFacts.v shows.
    Messages of PBFT, transactions and ledgers travel over the peer network: PeerNet.v runs the
    broadcast records of Broadcast.v on the connections of Network.v and records what it
    hands to the other components.
    A PBFT node delivers a decided value to the ledger; the ledger runs each
    transaction of the value over an environment (an AtomMap of accounts whose
    changes are buffered, then committed or dropped), with fees computed by the
    checked arithmetic; texts in operations are read by the string functions.
    Code that is not modelled is a parameter: signature verification and hashing
    for PBFT (class of PbftData.v), address checks (LedgerCommitFacts.v uses the real one of Keys.v), the clock and the running of contracts
    for the ledger (class [LedgerParams] of Chain.v, of which ContractEngine.v has the real one, where the tries of an account are
    given by their contents: TrieFacts.v is what justifies it), and the hash and the
    serialization of nodes for the tries (class [TrieParams] of Trie.v).

    ** Conventions

    This file: the outcome type (C++ exceptions, failed assertions and hardware traps
    as values), machine integers as [Z] with explicit wrap-around, doubles, characters and
    strings as lists of [ascii], and the handler monad [hm] (state, outcome and the
    list of external calls made) with Hoare triples and inversion and composition
    lemmas; [hinv] inverts a run.

    ** What the theorems show

    - Uint128Facts: ring, shift, division and printing are exact modulo 2^128; the
      checked int64 operations succeed exactly when the result is representable.
    - StringsFacts: the checked conversions, hexadecimal and decimal conversions
      and trimming are exact; where a helper is not, the exception is stated.
    - PbftFacts: agreement of committed values for at most (n-1)/3 faulty
      replicas, certificates behind every commit and execution, execution in
      order, acceptance of commit proofs, totality of message handling; and
      the executions that violate what the protocol promises.
    - AtomMapFacts: commit and rollback refine a plain map; what a nested map sees.
    - LedgerFacts, BlockFacts and AccountFacts: operations and blocks implement an
      abstract ledger, coins are conserved, signatures are counted by weight, the
      tries receive what the caches show.
    - ContractFacts: transactions with contracts end, keep the stacks, the accounts and the range of
      the balances, and cannot hide a failure of what they trigger; queries change nothing; nested
      contracts can create coins. ContractBlock: checking and proposing any block returns.
    - TrieFacts: a trie is a finite map that survives hashing, flushing, reloading and
      freeing; its root hash is a function of the contents and determines them; scans
      list the right values; and where a scan or a node query goes wrong.
    - TxQueueFacts: the indexes of the pool stay together and within their limits, imports,
      removals and timeouts do what they should, blocks take consecutive nonces; and how the
      priority order is lost.
    - LedgerUpgradeFacts: upgrades have a quorum of authentic votes; votes can be replayed.
    - GlueFacts: an honest proposal passes the checks of the replicas, a block that is taken
      over is certified, and when making a proposal ends.
    - LedgerManagerFacts: a node holds a certified chain whose replay is its state, restarts to
      it, catches up with a peer, follows a hard fork; the hash of a ledger determines the
      chain; what a crash between two writes does, and when a value escapes its check.
    - KeysFacts and Sm3Facts: keys and addresses survive their texts, which texts are addresses,
      and that an address has several texts; SM3 is the hash of its standard.
    - LedgerCommitFacts: what a block leaves in the account tree when every address has one text,
      and how two texts of one address mint coins.
    - GossipFacts: a broadcast reaches every node that can be reached and ends; how long records live.
    - PeerTableFacts: the table of peers has no address twice, stays within its bound and yields
      the peers with the fewest failures.
    - PeerNetFacts: no deleted object and no null pointer is touched while the network thread is not
      held up, and no two active connections lead to the same node.

    ** Bounds and fuel

    Loops over data are structural. Fuel appears in [divmod_loop] and [bits_loop]
    (128 rounds, one per bit), in the retry loop of a PBFT instance ([go_loop],
    bounded by the buffered messages, shown sufficient in PbftTotal.v), in
    [try_execute] (bounded by the instances), in [digits] (20 decimal digits hold a
    64-bit number), in [Replace] (shown to end within length + 1 rounds, or never), and
    in the descents of a trie ([depth_of], two per byte of a location and two more; shown
    to be enough by [trie_operations_return] and [trie_get]). The loops of the pool have the
    length of the queue as fuel, shown sufficient; [propose_loop] may not end and takes the
    fuel as an argument. [blocks] of SM3 runs once per 64 bytes. The sizes of the Base58 buffers,
    which the code computes with a factor and in floating point, are checked by computation for
    inputs of up to 256 bytes and texts shorter than 355 characters; keys and addresses are far
    shorter. The network model has no loops that are not over its data. [engine] uses one fuel for the
    calls of a script and the nesting of contracts: six more than the number of calls is enough for
    scripts that end, since the depth is limited to four ([contract_transaction_ends]).

    ** What is not modelled

    V8 itself and the texts of its exceptions, cancelling a contract, the websocket library and TLS, the failures of the ledger's
    databases, JSON and logging, the console and web
    server, the signature schemes and SHA-256, and the libraries under libdevcore, libp2p and their
    siblings. An execution of a block is one step of the ledger manager, and an event of the network
    one step of the network; threads are not interleaved inside them. *)
From Stdlib Require Export ZArith Lia Ascii.
From Stdlib Require Import SpecFloat.
From stdpp Require Export numbers list gmap strings.

Open Scope Z_scope.
Declare Scope sesame_scope.
Delimit Scope sesame_scope with sesame.
Open Scope sesame_scope.

(** ** Outcomes: C++ exceptions, failed assertions and hardware traps *)

Inductive exn :=
| RuntimeError      (* std::runtime_error *)
| OverflowError     (* std::overflow_error *)
| InvalidArgument   (* std::invalid_argument *)
| RangeError        (* std::range_error / std::out_of_range *)
| AssertFailed      (* assert() *)
| Trap              (* SIGFPE: signed division overflow or division by zero *)
| OutOfFuel.        (* the bound of a modelled loop was reached *)

#[export] Instance exn_eq_dec : EqDecision exn.
Proof. solve_decision. Defined.

Inductive outcome (A : Type) :=
| Returns (a : A)
| Throws (e : exn).
Arguments Returns {A} _.
Arguments Throws {A} _.

#[export] Instance outcome_eq_dec {A} `{EqDecision A} : EqDecision (outcome A).
Proof. solve_decision. Defined.

Definition obind {A B} (m : outcome A) (k : A -> outcome B) : outcome B :=
  match m with
  | Returns a => k a
  | Throws e => Throws e
  end.

Notation "'let*' x := m 'in' k" := (obind m (fun x => k))
  (at level 10, x pattern, m at level 100, k at level 200) : sesame_scope.

(** ** Machine integers *)

(** [wrap w z] is the conversion of [z] to an unsigned [w]-bit integer,
    [swrap w z] the conversion to a signed (two's complement) one. *)
Definition wrap (w z : Z) : Z := z mod 2 ^ w.
Definition swrap (w z : Z) : Z := (z + 2 ^ (w - 1)) mod 2 ^ w - 2 ^ (w - 1).

Abbreviation W64 := 18446744073709551616 (only parsing).
Abbreviation W32 := 4294967296 (only parsing).
Definition int64_max : Z := 9223372036854775807.
Definition int64_min : Z := -9223372036854775808.
Definition uint64_max : Z := 18446744073709551615.

Definition u64 (z : Z) : Z := z mod W64.
Definition u32 (z : Z) : Z := z mod W32.
Definition u8 (z : Z) : Z := z mod 256.
Definition s64 (z : Z) : Z := (z + 9223372036854775808) mod W64 - 9223372036854775808.
Definition s32 (z : Z) : Z := (z + 2147483648) mod W32 - 2147483648.

Definition is_u64 (z : Z) : Prop := 0 <= z < W64.
Definition is_s64 (z : Z) : Prop := int64_min <= z <= int64_max.

(** The integer types a template parameter [T] ranges over. *)
Record int_type := IntType { it_width : Z; it_signed : bool }.
Definition cast (t : int_type) (z : Z) : Z :=
  if it_signed t then swrap (it_width t) z else wrap (it_width t) z.

Definition T_u8 := IntType 8 false.
Definition T_u16 := IntType 16 false.
Definition T_u32 := IntType 32 false.
Definition T_u64 := IntType 64 false.
Definition T_char := IntType 8 true.
Definition T_int := IntType 32 true.
Definition T_i64 := IntType 64 true.

Ltac mod_lia := Z.div_mod_to_equations; lia.

Lemma u64_range z : is_u64 (u64 z).
Proof. unfold is_u64, u64. mod_lia. Qed.

Lemma u64_id z : is_u64 z -> u64 z = z.
Proof. unfold is_u64, u64. intros. mod_lia. Qed.

Lemma s64_range z : is_s64 (s64 z).
Proof. unfold is_s64, s64, int64_min, int64_max. mod_lia. Qed.

Lemma s64_id z : is_s64 z -> s64 z = z.
Proof. unfold is_s64, s64, int64_min, int64_max. intros. mod_lia. Qed.

(** ** Bit operations *)

Lemma lor_add x y k : 0 <= k -> 0 <= y < 2 ^ k -> x mod 2 ^ k = 0 -> Z.lor x y = x + y.
Proof.
  intros Hk Hy Hx. symmetry. apply Z.add_nocarry_lor.
  apply Z.bits_inj'. intros n Hn. rewrite Z.land_spec, Z.bits_0.
  destruct (Z.lt_ge_cases n k) as [Hlt|Hge].
  - rewrite <- (Z.mod_pow2_bits_low x k n) by lia. by rewrite Hx, Z.bits_0.
  - rewrite <- (Z.mod_small y (2 ^ k)) by done.
    rewrite (Z.mod_pow2_bits_high y k n) by lia. by rewrite andb_false_r.
Qed.

Lemma lor_range k x y : 0 <= k -> 0 <= x < 2 ^ k -> 0 <= y < 2 ^ k -> 0 <= Z.lor x y < 2 ^ k.
Proof.
  intros Hk Hx Hy.
  assert (E : Z.lor x y = Z.lor x y mod 2 ^ k).
  { rewrite <- Z.land_ones, Z.land_lor_distr_l, !Z.land_ones by done.
    by rewrite !Z.mod_small. }
  rewrite E. apply Z.mod_pos_bound, Z.pow_pos_nonneg; lia.
Qed.

(** ** Sublists *)

Lemma sublist_nodup {A} (l' l : list A) : sublist l' l -> NoDup l -> NoDup l'.
Proof.
  induction 1 as [|x l' l Hs IH|x l' l Hs IH]; intros HN; [done| |]; apply NoDup_cons in HN as [Hx HN].
  - apply NoDup_cons. split; [|auto]. intros Hin. apply Hx. by eapply elem_of_submseteq, sublist_submseteq.
  - auto.
Qed.

Lemma sublist_map {A B} (f : A -> B) (l' l : list A) : sublist l' l -> sublist (map f l') (map f l).
Proof. induction 1; cbn; by constructor. Qed.

(** ** C++ strings: lists of [char] *)

Definition lit (s : string) : list ascii := String.list_ascii_of_string s.

(** The unsigned value of a [char], its value as a signed [char] (the plain
    [char] of x86-64), and the [char] an integer is truncated to. *)
Definition code (c : ascii) : Z := Z.of_N (N_of_ascii c).
Definition schar (c : ascii) : Z := let n := code c in if n <? 128 then n else n - 256.
Definition chr (z : Z) : ascii := ascii_of_N (Z.to_N (z mod 256)).

Lemma code_range c : 0 <= code c < 256.
Proof. unfold code. pose proof (N_ascii_bounded c). lia. Qed.

Lemma chr_code c : chr (code c) = c.
Proof.
  unfold chr. rewrite Z.mod_small by apply code_range.
  unfold code. rewrite N2Z.id. apply ascii_N_embedding.
Qed.

Lemma code_chr z : code (chr z) = z mod 256.
Proof.
  unfold code, chr. rewrite N_ascii_embedding; mod_lia.
Qed.

Lemma code_inj c d : code c = code d -> c = d.
Proof. intros H. by rewrite <- (chr_code c), H, chr_code. Qed.

(** A boolean property of characters holds when it holds of the 256 codes:
    [by_all_chars] proves it by computation. *)
Definition all_chars : list ascii := map (fun n => chr (Z.of_nat n)) (seq 0 256).

Lemma all_chars_complete c : c ∈ all_chars.
Proof.
  unfold all_chars. apply list_elem_of_In, in_map_iff.
  exists (Z.to_nat (code c)). pose proof (code_range c).
  split; [by rewrite Z2Nat.id, chr_code by lia | apply in_seq; lia].
Qed.

Lemma forall_char (P : ascii -> bool) :
  forallb P all_chars = true -> forall c, P c = true.
Proof.
  intros H c. rewrite forallb_forall in H. apply H, list_elem_of_In, all_chars_complete.
Qed.

(** The same for the first [n] integers. *)
Lemma forall_range (n : nat) (P : Z -> bool) :
  forallb P (map Z.of_nat (seq 0 n)) = true -> forall z, 0 <= z < Z.of_nat n -> P z = true.
Proof.
  intros H z Hz. rewrite forallb_forall in H. apply H, in_map_iff.
  exists (Z.to_nat z). split; [lia|apply in_seq; lia].
Qed.

(** ** The handler monad

    A C++ member function that updates its object, calls back into other
    components and may abort is a function from the object's state to an
    outcome with the result, the new state and the calls made, in order. *)

Definition hm (S E A : Type) : Type := S -> outcome (A * S * list E).

Section HandlerMonad.
Context {S E : Type}.

#[export] Instance hm_ret : MRet (hm S E) := fun A a s => Returns (a, s, []).
#[export] Instance hm_bind : MBind (hm S E) := fun A B k m s =>
  match m s with
  | Returns (a, s1, es1) =>
      match k a s1 with
      | Returns (b, s2, es2) => Returns (b, s2, es1 ++ es2)
      | Throws e => Throws e
      end
  | Throws e => Throws e
  end.

Definition hget : hm S E S := fun s => Returns (s, s, []).
Definition hmod (f : S -> S) : hm S E unit := fun s => Returns (tt, f s, []).
Definition hemit (e : E) : hm S E unit := fun s => Returns (tt, s, [e]).
Definition hthrow {A} (e : exn) : hm S E A := fun _ => Throws e.

(** Hoare triples over the monad: from a state satisfying [P], a run that does
    not abort ends in [Q] of its result, final state and emitted calls. *)
Definition triple {A} (P : S -> Prop) (m : hm S E A) (Q : A -> S -> list E -> Prop) : Prop :=
  forall s, P s -> forall a s' es, m s = Returns (a, s', es) -> Q a s' es.

Lemma triple_ret {A} (a : A) (P : S -> Prop) Q :
  (forall s, P s -> Q a s []) -> triple P (mret a) Q.
Proof. intros HQ s Hs b s' es E1. cbv in E1. simplify_eq. auto. Qed.

Lemma triple_bind {A B} P (m : hm S E A) (k : A -> hm S E B) R Q :
  triple P m R ->
  (forall a es, triple (fun s => R a s es) (k a) (fun b s' es' => Q b s' (es ++ es'))) ->
  triple P (m ≫= k) Q.
Proof.
  intros Hm Hk s Hs b s' es E1. unfold mbind, hm_bind in E1.
  destruct (m s) as [[[a s1] es1]|] eqn:Em; [|done].
  destruct (k a s1) as [[[b2 s2] es2]|] eqn:Ek; simplify_eq.
  eapply (Hk a es1); [|exact Ek]. by eapply Hm.
Qed.

Lemma triple_get (P : S -> Prop) (Q : S -> S -> list E -> Prop) :
  (forall s, P s -> Q s s []) -> triple P hget Q.
Proof. intros HQ s Hs b s' es E1. cbv in E1. simplify_eq. auto. Qed.

Lemma triple_mod (f : S -> S) (P : S -> Prop) (Q : unit -> S -> list E -> Prop) :
  (forall s, P s -> Q tt (f s) []) -> triple P (hmod f) Q.
Proof. intros HQ s Hs b s' es E1. cbv in E1. simplify_eq. auto. Qed.

Lemma triple_emit e (P : S -> Prop) (Q : unit -> S -> list E -> Prop) :
  (forall s, P s -> Q tt s [e]) -> triple P (hemit e) Q.
Proof. intros HQ s Hs b s' es E1. cbv in E1. simplify_eq. auto. Qed.

Lemma triple_throw {A} e P (Q : A -> S -> list E -> Prop) : triple P (hthrow e) Q.
Proof. by intros s Hs b s' es E1. Qed.

Lemma triple_conseq {A} (P P' : S -> Prop) (m : hm S E A) Q Q' :
  triple P' m Q' -> (forall s, P s -> P' s) ->
  (forall a s es, Q' a s es -> Q a s es) -> triple P m Q.
Proof. intros Hm HP HQ s Hs b s' es E1. eapply HQ, Hm; eauto. Qed.

(** Inversion of a run that returned. *)
Lemma hbind_inv {A B} (m : hm S E A) (k : A -> hm S E B) s b s' es :
  (m ≫= k) s = Returns (b, s', es) ->
  exists a s1 es1 es2, m s = Returns (a, s1, es1) /\ k a s1 = Returns (b, s', es2)
    /\ es = es1 ++ es2.
Proof.
  unfold mbind, hm_bind. destruct (m s) as [[[a s1] es1]|]; [|done].
  destruct (k a s1) as [[[b2 s2] es2]|] eqn:Ek; [|done]. intros [= -> -> <-].
  eauto 10.
Qed.

Lemma hret_inv {A} (a : A) s b s' es :
  (mret a : hm S E A) s = Returns (b, s', es) -> b = a /\ s' = s /\ es = [].
Proof. cbv. intros. by simplify_eq. Qed.

Lemma hget_inv s b s' es : hget s = Returns (b, s', es) -> b = s /\ s' = s /\ es = [].
Proof. cbv. intros. by simplify_eq. Qed.

Lemma hmod_inv f s b s' es : hmod f s = Returns (b, s', es) -> s' = f s /\ es = [].
Proof. cbv. intros. by simplify_eq. Qed.

Lemma hemit_inv e s b s' es : hemit e s = Returns (b, s', es) -> s' = s /\ es = [e].
Proof. cbv. intros. by simplify_eq. Qed.

(** Composition of runs that return. *)
Lemma hbind_returns {A B} (m : hm S E A) (k : A -> hm S E B) s a s1 es1 b s2 es2 :
  m s = Returns (a, s1, es1) -> k a s1 = Returns (b, s2, es2) ->
  (m ≫= k) s = Returns (b, s2, es1 ++ es2).
Proof. intros E1 E2. unfold mbind, hm_bind. by rewrite E1, E2. Qed.

(** A first step without calls disappears. *)
Lemma hbind_nil {A B} (m : hm S E A) (k : A -> hm S E B) s a s1 :
  m s = Returns (a, s1, []) -> (m ≫= k) s = k a s1.
Proof. intros E1. unfold mbind, hm_bind. rewrite E1. by destruct (k a s1) as [[[b s2] es2]|]. Qed.

Lemma hbind_assoc {A B C} (m : hm S E A) (k : A -> hm S E B) (h : B -> hm S E C) s :
  ((m ≫= k) ≫= h) s = (m ≫= fun a => k a ≫= h) s.
Proof.
  unfold mbind, hm_bind. destruct (m s) as [[[a s1] es1]|]; [|done].
  destruct (k a s1) as [[[b s2] es2]|]; [|done]. destruct (h b s2) as [[[c s3] es3]|]; [|done]. by rewrite app_assoc.
Qed.
End HandlerMonad.

(** Inverts [H : m s = Returns (a, s', es)] along the binds, guards and
    primitives of [m]. *)
Ltac hinv H :=
  cbn beta zeta in H;
  lazymatch type of H with
  | mbind _ _ _ = Returns _ =>
      let H1 := fresh "Hrun" in let H2 := fresh "Hrun" in
      apply hbind_inv in H as (? & ? & ? & ? & H1 & H2 & ->); hinv H1; hinv H2
  | mret _ _ = Returns _ => apply hret_inv in H as (? & ? & ?); subst
  | hget _ = Returns _ => apply hget_inv in H as (? & ? & ?); subst
  | hmod _ _ = Returns _ => apply hmod_inv in H as (? & ?); subst
  | hemit _ _ = Returns _ => apply hemit_inv in H as (? & ?); subst
  | hthrow _ _ = Returns _ => discriminate H
  | (if ?b then _ else _) _ = Returns _ =>
      let E := fresh "Hif" in destruct b eqn:E; hinv H
  | (match ?x with _ => _ end) _ = Returns _ =>
      let E := fresh "Hcase" in destruct x eqn:E; hinv H
  | _ => idtac
  end.

(** ** Doubles

    The double-precision arithmetic of the expressions the node computes in floating
    point, on the IEEE 754 numbers of the standard library. *)
Abbreviation double := spec_float.

(** The conversion of an integer, rounded to the nearest double. *)
Definition of_int (z : Z) : double := binary_normalize 53 1024 z 0 false.
Definition dmul : double -> double -> double := SFmul 53 1024.
Definition dadd : double -> double -> double := SFadd 53 1024.
Definition dle : double -> double -> bool := SFleb.

(** The conversion to int64, toward zero, of a number in its range. *)
Definition truncate (d : double) : Z :=
  match d with
  | S754_finite s m e =>
      let a := if 0 <=? e then Z.pos m * 2 ^ e else Z.pos m / 2 ^ (- e) in if s then - a else a
  | _ => 0
  end.

(** The literals 0.1, 0.5 and 0.7. *)
Definition d0_1 : double := S754_finite false 7205759403792794 (-56).
Definition d0_5 : double := S754_finite false 4503599627370496 (-53).
Definition d0_7 : double := S754_finite false 6305039478318694 (-53).

(** Division, the literals 2.0 and 8.0, and [log2(58.0)], rounded to nearest. *)
Definition ddiv : double -> double -> double := SFdiv 53 1024.
Definition d2 : double := S754_finite false 4503599627370496 (-51).
Definition d8 : double := S754_finite false 4503599627370496 (-49).
Definition log2_58 : double := S754_finite false 6595500256699995 (-50).
