(* ===== verification/Uint128.v ===== *)
(** * 128-bit unsigned arithmetic and overflow-checked 64-bit arithmetic

    Models [uint128_t] (src/utils/base_int.h, src/utils/base_int.cpp), the
    [bigDivide] family and the [SafeInt*] templates that guard every balance
    computation of the ledger. *)
From S2P Require Import Prelude.

Module U128.

(** ** Representation *)

Record uint128 := mk128 { UPPER : Z; LOWER : Z }.

#[export] Instance uint128_eq_dec : EqDecision uint128.
Proof. solve_decision. Defined.

(** [uint128_t()] *)
Definition ctor_default : uint128 := mk128 0 0.
(** [uint128_t(const uint128_t & rhs)] and [operator=(const uint128_t &)] *)
Definition ctor_copy (rhs : uint128) : uint128 := mk128 (UPPER rhs) (LOWER rhs).
(** [template <typename T> explicit uint128_t(const T & rhs)]; the value of an
    integer [rhs] of any width up to 64 bits is a [Z]. *)
Definition ctor_T (rhs : Z) : uint128 := mk128 0 (u64 rhs).
(** [template <typename S, typename T> uint128_t(const S &, const T &)] *)
Definition ctor_ST (upper_rhs lower_rhs : Z) : uint128 :=
  mk128 (u64 upper_rhs) (u64 lower_rhs).
(** [template <typename T> uint128_t operator=(const T & rhs)] *)
Definition assign_T (this : uint128) (rhs : Z) : uint128 := mk128 0 (u64 rhs).

Definition uint128_0 : uint128 := ctor_T 0.
Definition uint128_1 : uint128 := ctor_T 1.
Definition uint128_64 : uint128 := ctor_T 64.
Definition uint128_128 : uint128 := ctor_T 128.

(** ** Typecast operators *)

Definition to_bool (a : uint128) : bool := negb (Z.lor (UPPER a) (LOWER a) =? 0).
Definition to_char (a : uint128) : Z := cast T_char (LOWER a).
Definition to_int (a : uint128) : Z := cast T_int (LOWER a).
Definition to_uint8 (a : uint128) : Z := cast T_u8 (LOWER a).
Definition to_uint16 (a : uint128) : Z := cast T_u16 (LOWER a).
Definition to_uint32 (a : uint128) : Z := cast T_u32 (LOWER a).
Definition to_uint64 (a : uint128) : Z := cast T_u64 (LOWER a).

(** ** Bitwise operators *)

Definition op_and (a rhs : uint128) : uint128 :=
  ctor_ST (Z.land (UPPER a) (UPPER rhs)) (Z.land (LOWER a) (LOWER rhs)).
Definition op_or (a rhs : uint128) : uint128 :=
  ctor_ST (Z.lor (UPPER a) (UPPER rhs)) (Z.lor (LOWER a) (LOWER rhs)).
Definition op_xor (a rhs : uint128) : uint128 :=
  ctor_ST (Z.lxor (UPPER a) (UPPER rhs)) (Z.lxor (LOWER a) (LOWER rhs)).
Definition op_and_assign (a rhs : uint128) : uint128 :=
  mk128 (Z.land (UPPER a) (UPPER rhs)) (Z.land (LOWER a) (LOWER rhs)).
Definition op_or_assign (a rhs : uint128) : uint128 :=
  mk128 (Z.lor (UPPER a) (UPPER rhs)) (Z.lor (LOWER a) (LOWER rhs)).
Definition op_xor_assign (a rhs : uint128) : uint128 :=
  mk128 (Z.lxor (UPPER a) (UPPER rhs)) (Z.lxor (LOWER a) (LOWER rhs)).
Definition op_not (a : uint128) : uint128 :=
  ctor_ST (Z.lnot (UPPER a)) (Z.lnot (LOWER a)).

(** Templates with an integer right-hand side. *)
Definition and_T (a : uint128) (rhs : Z) : uint128 :=
  ctor_ST 0 (Z.land (LOWER a) (u64 rhs)).
Definition or_T (a : uint128) (rhs : Z) : uint128 :=
  ctor_ST (UPPER a) (Z.lor (LOWER a) (u64 rhs)).
Definition xor_T (a : uint128) (rhs : Z) : uint128 :=
  ctor_ST (UPPER a) (Z.lxor (LOWER a) (u64 rhs)).
Definition and_assign_T (a : uint128) (rhs : Z) : uint128 :=
  mk128 0 (Z.land (LOWER a) (u64 rhs)).
Definition or_assign_T (a : uint128) (rhs : Z) : uint128 :=
  mk128 (UPPER a) (Z.lor (LOWER a) (u64 rhs)).
Definition xor_assign_T (a : uint128) (rhs : Z) : uint128 :=
  mk128 (UPPER a) (Z.lxor (LOWER a) (u64 rhs)).

(** ** Shifts *)

Definition op_shl (a rhs : uint128) : uint128 :=
  let shift := LOWER rhs in
  if negb (UPPER rhs =? 0) || (128 <=? shift) then uint128_0
  else if shift =? 64 then ctor_ST (LOWER a) 0
  else if shift =? 0 then a
  else if shift <? 64 then
    ctor_ST (u64 (Z.shiftl (UPPER a) shift) + Z.shiftr (LOWER a) (64 - shift))
            (u64 (Z.shiftl (LOWER a) shift))
  else if (shift <? 128) && (64 <? shift) then
    ctor_ST (u64 (Z.shiftl (LOWER a) (shift - 64))) 0
  else uint128_0.

Definition op_shr (a rhs : uint128) : uint128 :=
  let shift := LOWER rhs in
  if negb (UPPER rhs =? 0) || (128 <=? shift) then uint128_0
  else if shift =? 64 then ctor_ST 0 (UPPER a)
  else if shift =? 0 then a
  else if shift <? 64 then
    ctor_ST (Z.shiftr (UPPER a) shift)
            (u64 (Z.shiftl (UPPER a) (64 - shift)) + Z.shiftr (LOWER a) shift)
  else if (shift <? 128) && (64 <? shift) then
    ctor_ST 0 (Z.shiftr (UPPER a) (shift - 64))
  else uint128_0.

Definition op_shl_assign (a rhs : uint128) : uint128 := op_shl a rhs.
Definition op_shr_assign (a rhs : uint128) : uint128 := op_shr a rhs.
Definition shl_T (a : uint128) (rhs : Z) : uint128 := op_shl a (ctor_T rhs).
Definition shr_T (a : uint128) (rhs : Z) : uint128 := op_shr a (ctor_T rhs).
Definition shl_assign_T (a : uint128) (rhs : Z) : uint128 := op_shl a (ctor_T rhs).
Definition shr_assign_T (a : uint128) (rhs : Z) : uint128 := op_shr a (ctor_T rhs).

(** ** Logical and comparison operators *)

Definition op_lnot (a : uint128) : bool := Z.lor (UPPER a) (LOWER a) =? 0.
Definition op_land (a rhs : uint128) : bool := to_bool a && to_bool rhs.
Definition op_lor (a rhs : uint128) : bool := to_bool a || to_bool rhs.
Definition land_T (a : uint128) (rhs : Z) : bool := to_bool a && negb (rhs =? 0).
Definition lor_T (a : uint128) (rhs : Z) : bool := to_bool a || negb (rhs =? 0).

Definition op_eq (a rhs : uint128) : bool :=
  (UPPER a =? UPPER rhs) && (LOWER a =? LOWER rhs).
Definition op_ne (a rhs : uint128) : bool :=
  negb (UPPER a =? UPPER rhs) || negb (LOWER a =? LOWER rhs).
Definition op_gt (a rhs : uint128) : bool :=
  if UPPER a =? UPPER rhs then LOWER rhs <? LOWER a else UPPER rhs <? UPPER a.
Definition op_lt (a rhs : uint128) : bool :=
  if UPPER a =? UPPER rhs then LOWER a <? LOWER rhs else UPPER a <? UPPER rhs.
Definition op_ge (a rhs : uint128) : bool := op_gt a rhs || op_eq a rhs.
Definition op_le (a rhs : uint128) : bool := op_lt a rhs || op_eq a rhs.

Definition eq_T (a : uint128) (rhs : Z) : bool :=
  (UPPER a =? 0) && (LOWER a =? u64 rhs).
Definition ne_T (a : uint128) (rhs : Z) : bool :=
  negb (Z.lor (UPPER a) (Z.b2z (negb (LOWER a =? u64 rhs))) =? 0).
Definition gt_T (a : uint128) (rhs : Z) : bool :=
  negb (UPPER a =? 0) || (u64 rhs <? LOWER a).
Definition lt_T (a : uint128) (rhs : Z) : bool :=
  if UPPER a =? 0 then LOWER a <? u64 rhs else false.
Definition ge_T (a : uint128) (rhs : Z) : bool := gt_T a rhs || eq_T a rhs.
Definition le_T (a : uint128) (rhs : Z) : bool := lt_T a rhs || eq_T a rhs.

(** ** Addition, subtraction, multiplication *)

Definition op_add (a rhs : uint128) : uint128 :=
  ctor_ST (UPPER a + UPPER rhs + Z.b2z (u64 (LOWER a + LOWER rhs) <? LOWER a))
          (u64 (LOWER a + LOWER rhs)).
Definition op_add_assign (a rhs : uint128) : uint128 :=
  mk128 (u64 (UPPER rhs + UPPER a + Z.b2z (u64 (LOWER a + LOWER rhs) <? LOWER a)))
        (u64 (LOWER a + LOWER rhs)).
Definition op_sub (a rhs : uint128) : uint128 :=
  ctor_ST (UPPER a - UPPER rhs - Z.b2z (LOWER a <? u64 (LOWER a - LOWER rhs)))
          (u64 (LOWER a - LOWER rhs)).
Definition op_sub_assign (a rhs : uint128) : uint128 := op_sub a rhs.

Definition add_T (a : uint128) (rhs : Z) : uint128 :=
  ctor_ST (UPPER a + Z.b2z (u64 (LOWER a + u64 rhs) <? LOWER a))
          (u64 (LOWER a + u64 rhs)).
Definition add_assign_T (a : uint128) (rhs : Z) : uint128 :=
  mk128 (u64 (UPPER a + Z.b2z (u64 (LOWER a + u64 rhs) <? LOWER a)))
        (u64 (LOWER a + u64 rhs)).
Definition sub_T (a : uint128) (rhs : Z) : uint128 :=
  ctor_ST (u64 (UPPER a - Z.b2z (LOWER a <? u64 (LOWER a - u64 rhs))))
          (u64 (LOWER a - u64 rhs)).
Definition sub_assign_T (a : uint128) (rhs : Z) : uint128 := sub_T a rhs.

Definition lo32 (x : Z) : Z := Z.land x 4294967295.
Definition hi32 (x : Z) : Z := Z.shiftr x 32.

Definition op_mul (a rhs : uint128) : uint128 :=
  let top := (hi32 (UPPER a), lo32 (UPPER a), hi32 (LOWER a), lo32 (LOWER a)) in
  let bottom := (hi32 (UPPER rhs), lo32 (UPPER rhs), hi32 (LOWER rhs), lo32 (LOWER rhs)) in
  let '(t0, t1, t2, t3) := top in
  let '(b0, b1, b2, b3) := bottom in
  (* products[3 - x][y] = top[x] * bottom[y] *)
  let p00 := u64 (t3 * b0) in let p01 := u64 (t3 * b1) in
  let p02 := u64 (t3 * b2) in let p03 := u64 (t3 * b3) in
  let p11 := u64 (t2 * b1) in let p12 := u64 (t2 * b2) in
  let p13 := u64 (t2 * b3) in
  let p22 := u64 (t1 * b2) in let p23 := u64 (t1 * b3) in
  let p33 := u64 (t0 * b3) in
  (* Initial row *)
  let fourth32 := lo32 p03 in
  let third32 := u64 (lo32 p02 + hi32 p03) in
  let second32 := u64 (lo32 p01 + hi32 p02) in
  let first32 := u64 (lo32 p00 + hi32 p01) in
  (* Second row *)
  let third32 := u64 (third32 + lo32 p13) in
  let second32 := u64 (second32 + u64 (lo32 p12 + hi32 p13)) in
  let first32 := u64 (first32 + u64 (lo32 p11 + hi32 p12)) in
  (* Third row *)
  let second32 := u64 (second32 + lo32 p23) in
  let first32 := u64 (first32 + u64 (lo32 p22 + hi32 p23)) in
  (* Fourth row *)
  let first32 := u64 (first32 + lo32 p33) in
  (* Combines the values, taking care of carry over *)
  op_add (op_add (op_add (ctor_ST (u64 (Z.shiftl first32 32)) 0)
                         (ctor_ST (hi32 third32) (u64 (Z.shiftl third32 32))))
                 (ctor_ST second32 0))
         (ctor_T fourth32).
Definition op_mul_assign (a rhs : uint128) : uint128 := op_mul a rhs.
Definition mul_T (a : uint128) (rhs : Z) : uint128 := op_mul a (ctor_T rhs).
Definition mul_assign_T (a : uint128) (rhs : Z) : uint128 := op_mul a (ctor_T rhs).

(** ** Bit length, division *)

(** The loops [while (up){ up >>= 1; out++; }] of [bits()]: a 64-bit value is
    exhausted after at most 64 steps. *)
Fixpoint bits_loop (fuel : nat) (up out : Z) : Z :=
  match fuel with
  | O => out
  | S n => if up =? 0 then out else bits_loop n (Z.shiftr up 1) (u8 (out + 1))
  end.

Definition bits (a : uint128) : Z :=
  if negb (UPPER a =? 0) then bits_loop 64 (UPPER a) 64
  else bits_loop 64 (LOWER a) 0.

Fixpoint divmod_loop (fuel : nat) (rhs q r copyd adder : uint128)
  : outcome (uint128 * uint128) :=
  if op_ge r rhs then
    match fuel with
    | O => Throws OutOfFuel
    | S n =>
        let '(q, r) :=
          if op_ge r copyd then (op_or_assign q adder, op_sub_assign r copyd)
          else (q, r) in
        divmod_loop n rhs q r (op_shr_assign copyd uint128_1)
                    (op_shr_assign adder uint128_1)
    end
  else Returns (q, r).

Definition divmod (lhs rhs : uint128) : outcome (uint128 * uint128) :=
  if op_eq rhs uint128_0 then Throws RuntimeError
  else if op_eq rhs uint128_1 then Returns (lhs, uint128_0)
  else if op_eq lhs rhs then Returns (uint128_1, uint128_0)
  else if op_eq lhs uint128_0 || op_lt lhs rhs then Returns (uint128_0, lhs)
  else
    let copyd := shl_T rhs (bits lhs - bits rhs) in
    let adder := shl_T uint128_1 (bits lhs - bits rhs) in
    let '(copyd, adder) :=
      if op_gt copyd lhs
      then (op_shr_assign copyd uint128_1, op_shr_assign adder uint128_1)
      else (copyd, adder) in
    divmod_loop 128 rhs uint128_0 lhs copyd adder.

Definition op_div (a rhs : uint128) : outcome uint128 :=
  let* qr := divmod a rhs in Returns (fst qr).
Definition op_div_assign (a rhs : uint128) : outcome uint128 := op_div a rhs.
Definition op_mod (a rhs : uint128) : outcome uint128 :=
  let* q := op_div a rhs in Returns (op_sub a (op_mul rhs q)).
Definition op_mod_assign (a rhs : uint128) : outcome uint128 := op_mod a rhs.
Definition div_T (a : uint128) (rhs : Z) : outcome uint128 := op_div a (ctor_T rhs).
Definition div_assign_T (a : uint128) (rhs : Z) : outcome uint128 := op_div a (ctor_T rhs).
Definition mod_assign_T (a : uint128) (rhs : Z) : outcome uint128 := op_mod a (ctor_T rhs).

Definition op_preinc (a : uint128) : uint128 := op_add_assign a uint128_1.
(** Post-increment and post-decrement return the old value beside the new one. *)
Definition op_postinc (a : uint128) : uint128 * uint128 := (a, op_preinc a).
Definition op_predec (a : uint128) : uint128 := op_sub_assign a uint128_1.
Definition op_postdec (a : uint128) : uint128 * uint128 := (a, op_predec a).
Definition upper (a : uint128) : Z := UPPER a.
Definition lower (a : uint128) : Z := LOWER a.

(** ** Operators with an integer left-hand side

    [template <typename T> T operator&(const T & lhs, const uint128_t & rhs)]
    and the others; the result is cast back to [T]. *)

Definition l_and (t : int_type) (lhs : Z) (rhs : uint128) : Z :=
  cast t (Z.land lhs (cast t (lower rhs))).
Definition l_or (t : int_type) (lhs : Z) (rhs : uint128) : Z :=
  cast t (Z.lor lhs (cast t (lower rhs))).
Definition l_xor (t : int_type) (lhs : Z) (rhs : uint128) : Z :=
  cast t (Z.lxor lhs (cast t (lower rhs))).
(** The assigning forms [lhs op= rhs] store and return the same value. *)
Definition l_and_assign := l_and.
Definition l_or_assign := l_or.
Definition l_xor_assign := l_xor.

Definition l_eq (lhs : Z) (rhs : uint128) : bool :=
  (upper rhs =? 0) && (u64 lhs =? lower rhs).
Definition l_ne (lhs : Z) (rhs : uint128) : bool :=
  negb (Z.lor (upper rhs) (Z.b2z (negb (u64 lhs =? lower rhs))) =? 0).
Definition l_gt (lhs : Z) (rhs : uint128) : bool :=
  (upper rhs =? 0) && (lower rhs <? u64 lhs).
Definition l_lt (lhs : Z) (rhs : uint128) : bool :=
  if negb (upper rhs =? 0) then true else u64 lhs <? lower rhs.
Definition l_ge (lhs : Z) (rhs : uint128) : bool :=
  if negb (upper rhs =? 0) then false else lower rhs <=? u64 lhs.
Definition l_le (lhs : Z) (rhs : uint128) : bool :=
  if negb (upper rhs =? 0) then true else u64 lhs <=? lower rhs.

Definition l_add (t : int_type) (lhs : Z) (rhs : uint128) : Z :=
  cast t (LOWER (add_T rhs lhs)).
Definition l_sub (t : int_type) (lhs : Z) (rhs : uint128) : Z :=
  cast t (LOWER (op_sub (ctor_T lhs) rhs)).
Definition l_mul (t : int_type) (lhs : Z) (rhs : uint128) : Z :=
  cast t (lhs * cast t (lower rhs)).
Definition l_div (t : int_type) (lhs : Z) (rhs : uint128) : outcome Z :=
  let* q := op_div (ctor_T lhs) rhs in Returns (cast t (LOWER q)).
Definition l_mod (t : int_type) (lhs : Z) (rhs : uint128) : outcome Z :=
  let* r := op_mod (ctor_T lhs) rhs in Returns (cast t (LOWER r)).
Definition l_add_assign := l_add.
Definition l_sub_assign := l_sub.
Definition l_mul_assign := l_mul.
Definition l_div_assign := l_div.
Definition l_mod_assign := l_mod.

(** [template <typename T> uint128_t operator%(const T & rhs) const]: the
    inner product of [rhs] and the quotient is the operator above, of type [T]. *)
Definition mod_T (t : int_type) (a : uint128) (rhs : Z) : outcome uint128 :=
  let* q := div_T a rhs in Returns (sub_T a (l_mul t rhs q)).

(** ** Printing *)

Definition digit_table : list ascii := lit "0123456789abcdef".

(** The [do { ... } while (qr.first)] loop of [str]; at most 128 digits. *)
Fixpoint str_loop (fuel : nat) (base : Z) (q : uint128) (out : list ascii)
  : outcome (list ascii) :=
  match fuel with
  | O => Throws OutOfFuel
  | S n =>
      let* qr := divmod q (ctor_T base) in
      let out := default "0"%char (digit_table !! Z.to_nat (to_uint8 (snd qr))) :: out in
      if to_bool (fst qr) then str_loop n base (fst qr) out else Returns out
  end.

Definition str (a : uint128) (base len : Z) : outcome (list ascii) :=
  if (base <? 2) || (16 <? base) then Throws InvalidArgument
  else
    let* out := if op_lnot a then Returns ["0"%char] else str_loop 128 base a [] in
    Returns (if Z.of_nat (length out) <? len
             then replicate (Z.to_nat (len - Z.of_nat (length out))) "0"%char ++ out
             else out).

(** [operator<<(std::ostream &, const uint128_t &)]: the stream's base flags
    select the base, octal first. *)
Record stream_flags := StreamFlags { f_oct : bool; f_dec : bool; f_hex : bool }.
Definition stream_insert (f : stream_flags) (buf : list ascii) (rhs : uint128)
  : outcome (list ascii) :=
  if f_oct f then let* s := str rhs 8 0 in Returns (buf ++ s)
  else if f_dec f then let* s := str rhs 10 0 in Returns (buf ++ s)
  else if f_hex f then let* s := str rhs 16 0 in Returns (buf ++ s)
  else Returns buf.

(** ** [bigDivide] *)

(** [bool bigDivide(uint64_t& result, uint64_t A, uint64_t B, uint64_t C)] *)
Definition bigDivide_u (A B C : Z) : outcome (bool * Z) :=
  let a := ctor_T A in
  let b := ctor_T B in
  let c := ctor_T C in
  let* x := op_div (op_mul a b) c in
  Returns (le_T x uint64_max, to_uint64 x).

(** [bool bigDivide(int64_t& result, int64_t A, int64_t B, int64_t C)]; the
    in-out [result] is the second component. *)
Definition bigDivide_s (result A B C : Z) : outcome (bool * Z) :=
  if (0 <=? A) && (0 <=? B) && (0 <? C) then
    let* r := bigDivide_u (u64 A) (u64 B) (u64 C) in
    let '(res, r2) := r in
    Returns (if res then (r2 <=? int64_max, s64 r2) else (res, result))
  else Throws AssertFailed.

(** [int64_t bigDivide(int64_t A, int64_t B, int64_t C)] *)
Definition bigDivide (A B C : Z) : outcome Z :=
  let* r := bigDivide_s 0 A B C in
  let '(res, v) := r in
  if res then Returns v else Throws OverflowError.

(** ** Overflow-checked signed arithmetic

    The templates at [T = int64_t], the type of every amount, fee and balance
    they are called with. [volatile] forces the machine's two's-complement
    result; the division traps on [INT64_MIN / -1]. *)

Definition quot64 (x y : Z) : outcome Z :=
  if y =? 0 then Throws Trap
  else if (x =? int64_min) && (y =? -1) then Throws Trap
  else Returns (Z.quot x y).

Definition SafeIntMul (x y r : Z) : outcome (bool * Z) :=
  let mul := s64 (x * y) in
  let* safe := if x =? 0 then Returns true
               else let* d := quot64 mul x in Returns (d =? y) in
  Returns (safe, if (safe : bool) then mul else r).

Definition SafeIntAdd (x y r : Z) : bool * Z :=
  let sum := s64 (x + y) in
  let negOver := (x <? 0) && (y <? 0) && (0 <=? sum) in
  let posOver := (0 <=? x) && (0 <=? y) && (sum <? 0) in
  let safe := negb negOver && negb posOver in
  (safe, if safe then sum else r).

Definition SafeIntSub (x y r : Z) : bool * Z :=
  let dif := s64 (x - y) in
  let negOver := (x <? 0) && (0 <=? y) && (0 <=? dif) in
  let posOver := (0 <=? x) && (y <? 0) && (dif <=? 0) in
  let safe := negb negOver && negb posOver in
  (safe, if safe then dif else r).

Definition hex_to_decimal (a : ascii) : Z :=
  let c := Z.of_N (N_of_ascii a) in
  if (c <=? 57) && (48 <=? c) then c - 48
  else if (c <=? 102) && (97 <=? c) then c - 97 + 10
  else if (c <=? 70) && (65 <=? c) then c - 65 + 10
  else 0.
End U128.
