(* ===== verification/Uint128Facts.v ===== *)
(** * Correctness of the 128-bit arithmetic and of the checked operations

    Every operator of [Uint128.v] is related to the integer [val] it denotes. *)
From S2P Require Import Prelude Uint128.
Import U128.

Abbreviation W128 := 340282366920938463463374607431768211456 (only parsing).

(** The integer a [uint128] denotes, and the invariant of its two words. *)
Definition val (a : uint128) : Z := UPPER a * W64 + LOWER a.
Definition wf128 (a : uint128) : Prop := is_u64 (UPPER a) /\ is_u64 (LOWER a).

Create HintDb u128.

Ltac u128_unfold :=
  unfold wf128, val, is_u64, ctor_ST, ctor_T, uint128_0, uint128_1, u64 in *;
  cbn [UPPER LOWER fst snd] in *.

Ltac u64_solve := first [apply u64_range | assumption | unfold is_u64; lia].

Lemma val_range a : wf128 a -> 0 <= val a < W128.
Proof. u128_unfold. lia. Qed.

Lemma val_inj a b : wf128 a -> wf128 b -> val a = val b -> a = b.
Proof. destruct a, b. u128_unfold. intros. f_equal; lia. Qed.

Lemma wf_ctor_ST x y : wf128 (ctor_ST x y).
Proof. split; apply u64_range. Qed.

Lemma wf_ctor_T x : wf128 (ctor_T x).
Proof. split; [u128_unfold; lia | apply u64_range]. Qed.

Lemma wf_0 : wf128 uint128_0.
Proof. apply wf_ctor_T. Qed.

Lemma wf_1 : wf128 uint128_1.
Proof. apply wf_ctor_T. Qed.
#[export] Hint Resolve wf_ctor_ST wf_ctor_T wf_0 wf_1 : u128.

Lemma val_ctor_ST x y : is_u64 x -> is_u64 y -> val (ctor_ST x y) = x * W64 + y.
Proof. intros. unfold val, ctor_ST. cbn. by rewrite !u64_id. Qed.

Lemma val_ctor_T x : is_u64 x -> val (ctor_T x) = x.
Proof. intros. unfold val, ctor_T. cbn. by rewrite u64_id. Qed.

(** ** Comparisons *)

Lemma op_eq_spec a b : wf128 a -> wf128 b -> op_eq a b = (val a =? val b).
Proof. unfold op_eq. u128_unfold. lia. Qed.

Lemma op_lt_spec a b : wf128 a -> wf128 b -> op_lt a b = (val a <? val b).
Proof. unfold op_lt. u128_unfold. destruct (UPPER a =? UPPER b) eqn:E; lia. Qed.

Lemma op_gt_spec a b : wf128 a -> wf128 b -> op_gt a b = (val b <? val a).
Proof. unfold op_gt. u128_unfold. destruct (UPPER a =? UPPER b) eqn:E; lia. Qed.

Lemma op_ge_spec a b : wf128 a -> wf128 b -> op_ge a b = (val b <=? val a).
Proof. intros. unfold op_ge. rewrite op_gt_spec, op_eq_spec by done. lia. Qed.

Lemma op_le_spec a b : wf128 a -> wf128 b -> op_le a b = (val a <=? val b).
Proof. intros. unfold op_le. rewrite op_lt_spec, op_eq_spec by done. lia. Qed.

Lemma le_T_spec a x : wf128 a -> is_u64 x -> le_T a x = (val a <=? x).
Proof.
  intros. unfold le_T, lt_T, eq_T. rewrite !u64_id by done. u128_unfold.
  destruct (UPPER a =? 0) eqn:E; lia.
Qed.

Lemma lor_eq_0 x y : (Z.lor x y =? 0) = (x =? 0) && (y =? 0).
Proof.
  apply eq_bool_prop_intro. rewrite andb_True, !Is_true_true, !Z.eqb_eq.
  apply Z.lor_eq_0_iff.
Qed.

Lemma to_bool_spec a : wf128 a -> to_bool a = negb (val a =? 0).
Proof. unfold to_bool. rewrite lor_eq_0. u128_unfold. lia. Qed.

Lemma op_lnot_spec a : wf128 a -> op_lnot a = (val a =? 0).
Proof. unfold op_lnot. rewrite lor_eq_0. u128_unfold. lia. Qed.

(** ** Addition and subtraction *)

Lemma op_add_spec a b : wf128 a -> wf128 b ->
  wf128 (op_add a b) /\ val (op_add a b) = (val a + val b) mod W128.
Proof.
  intros Ha Hb. split; [apply wf_ctor_ST|].
  unfold op_add. u128_unfold. rewrite Z.mod_mod by lia.
  destruct ((LOWER a + LOWER b) mod W64 <? LOWER a) eqn:E; cbn [Z.b2z]; mod_lia.
Qed.

Lemma op_sub_spec a b : wf128 a -> wf128 b ->
  wf128 (op_sub a b) /\ val (op_sub a b) = (val a - val b) mod W128.
Proof.
  intros Ha Hb. split; [apply wf_ctor_ST|].
  unfold op_sub. u128_unfold. rewrite Z.mod_mod by lia.
  destruct (LOWER a <? (LOWER a - LOWER b) mod W64) eqn:E; cbn [Z.b2z]; mod_lia.
Qed.

Lemma val_op_add a b : wf128 a -> wf128 b -> val (op_add a b) = (val a + val b) mod W128.
Proof. apply op_add_spec. Qed.

Lemma val_op_sub a b : wf128 a -> wf128 b -> val (op_sub a b) = (val a - val b) mod W128.
Proof. apply op_sub_spec. Qed.

Lemma op_add_wf a b : wf128 a -> wf128 b -> wf128 (op_add a b).
Proof. apply op_add_spec. Qed.

Lemma op_sub_wf a b : wf128 a -> wf128 b -> wf128 (op_sub a b).
Proof. apply op_sub_spec. Qed.
#[export] Hint Resolve op_add_wf op_sub_wf : u128.

(** ** Multiplication *)

Lemma lo32_mod x : lo32 x = x mod W32.
Proof. unfold lo32. change 4294967295 with (Z.ones 32). by rewrite Z.land_ones. Qed.

Lemma hi32_div x : hi32 x = x / W32.
Proof. unfold hi32. by rewrite Z.shiftr_div_pow2. Qed.

(** The schoolbook sum on 32-bit digits, as the code arranges it. *)
Lemma mul_rows t0 t1 t2 t3 b0 b1 b2 b3 p00 p01 p02 p03 p11 p12 p13 p22 p23 p33 :
  p00 = t3 * b0 -> p01 = t3 * b1 -> p02 = t3 * b2 -> p03 = t3 * b3 ->
  p11 = t2 * b1 -> p12 = t2 * b2 -> p13 = t2 * b3 ->
  p22 = t1 * b2 -> p23 = t1 * b3 -> p33 = t0 * b3 ->
  ((t0 * W32 + t1) * W64 + (t2 * W32 + t3)) * ((b0 * W32 + b1) * W64 + (b2 * W32 + b3))
  = p03 + (p02 + p13) * W32 + (p01 + p12 + p23) * W64
    + (p00 + p11 + p22 + p33) * 79228162514264337593543950336
    + (t2 * b0 + t1 * b1 + t0 * b2 + (t1 * b0 + t0 * b1) * W32 + t0 * b0 * W64) * W128.
Proof. intros. subst. ring. Qed.

Lemma mul32_range x y : 0 <= x < W32 -> 0 <= y < W32 -> 0 <= x * y <= 18446744065119617025.
Proof. intros. nia. Qed.

(** The final three additions of [op_mul] recombine the four digit sums. *)
Lemma mul_combine first third second fourth :
  0 <= first < W64 -> 0 <= third < W64 -> is_u64 second -> is_u64 fourth ->
  let r := op_add (op_add (op_add (ctor_ST (u64 (Z.shiftl first 32)) 0)
                                  (ctor_ST (hi32 third) (u64 (Z.shiftl third 32))))
                          (ctor_ST second 0))
                  (ctor_T fourth) in
  wf128 r /\
  val r = (fourth + third * W32 + second * W64
           + first * 79228162514264337593543950336) mod W128.
Proof.
  intros Hf Ht Hs Hfo r. subst r.
  split; [auto with u128|].
  rewrite !val_op_add by auto with u128.
  rewrite hi32_div, !Z.shiftl_mul_pow2 by lia.
  change (2 ^ 32) with W32.
  assert (is_u64 (third / W32)) by (unfold is_u64; mod_lia).
  assert (is_u64 0) by (unfold is_u64; lia).
  rewrite !val_ctor_ST, val_ctor_T by u64_solve.
  rewrite Z.add_mod_idemp_l, <- Z.add_assoc, Z.add_mod_idemp_l by lia.
  unfold u64.
  replace (third / W32 * W64 + (third * W32) mod W64) with (third * W32) by mod_lia.
  replace ((first * W32) mod W64 * W64) with
    (first * 79228162514264337593543950336 - (first * W32 / W64) * W128) by mod_lia.
  rewrite <- (Z.mod_add _ (first * W32 / W64)) by lia.
  f_equal. lia.
Qed.

(** A product of two 32-bit digits, split into its two halves. *)
Lemma mul32_split x y : 0 <= x < W32 -> 0 <= y < W32 ->
  exists h l, x * y = h * W32 + l /\ 0 <= h < 4294967295 /\ 0 <= l < W32.
Proof.
  intros Hx Hy. exists (x * y / W32), ((x * y) mod W32).
  pose proof (mul32_range x y Hx Hy). mod_lia.
Qed.

Lemma u64_split h l : 0 <= h < 4294967295 -> 0 <= l < W32 -> u64 (h * W32 + l) = h * W32 + l.
Proof. intros. apply u64_id. unfold is_u64. lia. Qed.

Lemma hi32_split h l : 0 <= l < W32 -> hi32 (h * W32 + l) = h.
Proof. intros. rewrite hi32_div. mod_lia. Qed.

Lemma lo32_split h l : 0 <= l < W32 -> lo32 (h * W32 + l) = l.
Proof. intros. rewrite lo32_mod. mod_lia. Qed.

Ltac split_product t b :=
  let h := fresh "h" in let l := fresh "l" in let E := fresh "E" in
  destruct (mul32_split t b ltac:(assumption) ltac:(assumption)) as (h & l & E & ? & ?);
  rewrite ?E, ?(u64_split h l), ?(hi32_split h l), ?(lo32_split h l) by assumption.

Ltac drop_u64 :=
  repeat match goal with
  | |- context [u64 (?x + ?y)] =>
      lazymatch x with context [u64] => fail | _ =>
      lazymatch y with context [u64] => fail | _ =>
      rewrite (u64_id (x + y)) by (unfold is_u64; lia) end end
  end.

Lemma op_mul_spec a b : wf128 a -> wf128 b ->
  wf128 (op_mul a b) /\ val (op_mul a b) = (val a * val b) mod W128.
Proof.
  intros [Ha1 Ha2] [Hb1 Hb2]. unfold is_u64 in *.
  assert (Hva : val a = (UPPER a / W32 * W32 + UPPER a mod W32) * W64
                        + (LOWER a / W32 * W32 + LOWER a mod W32)) by (unfold val; mod_lia).
  assert (Hvb : val b = (UPPER b / W32 * W32 + UPPER b mod W32) * W64
                        + (LOWER b / W32 * W32 + LOWER b mod W32)) by (unfold val; mod_lia).
  rewrite Hva, Hvb. clear Hva Hvb.
  unfold op_mul. rewrite !hi32_div, !lo32_mod.
  assert (0 <= UPPER a / W32 < W32) by mod_lia. assert (0 <= UPPER a mod W32 < W32) by mod_lia.
  assert (0 <= LOWER a / W32 < W32) by mod_lia. assert (0 <= LOWER a mod W32 < W32) by mod_lia.
  assert (0 <= UPPER b / W32 < W32) by mod_lia. assert (0 <= UPPER b mod W32 < W32) by mod_lia.
  assert (0 <= LOWER b / W32 < W32) by mod_lia. assert (0 <= LOWER b mod W32 < W32) by mod_lia.
  generalize dependent (UPPER a / W32). generalize dependent (UPPER a mod W32).
  generalize dependent (LOWER a / W32). generalize dependent (LOWER a mod W32).
  generalize dependent (UPPER b / W32). generalize dependent (UPPER b mod W32).
  generalize dependent (LOWER b / W32). generalize dependent (LOWER b mod W32).
  intros b3 ? b2 ? b1 ? b0 ? t3 ? t2 ? t1 ? t0 ?. clear Ha1 Ha2 Hb1 Hb2.
  erewrite mul_rows by reflexivity. rewrite Z.mod_add by lia.
  cbv zeta. rewrite <- !hi32_div, <- !lo32_mod.
  split_product t3 b0. split_product t3 b1. split_product t3 b2. split_product t3 b3.
  split_product t2 b1. split_product t2 b2. split_product t2 b3.
  split_product t1 b2. split_product t1 b3. split_product t0 b3.
  drop_u64.
  lazymatch goal with
  | |- wf128 (op_add (op_add (op_add (ctor_ST (u64 (Z.shiftl ?f 32)) 0)
                                  (ctor_ST (hi32 ?t) _)) (ctor_ST ?s 0)) (ctor_T ?fo)) /\ _ =>
    destruct (mul_combine f t s fo) as [Hwf ->]; try (unfold is_u64; lia)
  end.
  split; [assumption|].
  rewrite <- (Z.mod_add _ (h + h3 + h6 + h8)) by lia. f_equal. lia.
Qed.

(** ** Shifts *)

Lemma pow_split s : 0 <= s <= 64 -> 2 ^ s * 2 ^ (64 - s) = W64.
Proof. intros. rewrite <- Z.pow_add_r by lia. by replace (s + (64 - s)) with 64 by lia. Qed.

Lemma shl_small U L m n : 0 < m -> 0 < n -> m * n = W64 -> 0 <= U < W64 -> 0 <= L < W64 ->
  is_u64 ((U * m) mod W64 + L / n) /\
  ((U * m) mod W64 + L / n) * W64 + (L * m) mod W64 = ((U * W64 + L) * m) mod W128.
Proof.
  intros Hm Hn Hmn HU HL.
  pose proof (Z.div_mod L n ltac:(lia)) as HLd.
  pose proof (Z.mod_pos_bound L n Hn) as HLr.
  pose proof (Z.div_mod U n ltac:(lia)) as HUd.
  pose proof (Z.mod_pos_bound U n Hn) as HUr.
  set (q := L / n) in *. set (r := L mod n) in *.
  set (qu := U / n) in *. set (ru := U mod n) in *.
  assert (Hq : 0 <= q < m) by nia.
  assert (Hqu : 0 <= qu < m) by nia.
  assert (E1 : (L * m) mod W64 = r * m).
  { symmetry. apply Z.mod_unique with q; [nia|]. rewrite HLd. nia. }
  assert (E2 : (U * m) mod W64 = ru * m).
  { symmetry. apply Z.mod_unique with qu; [nia|]. rewrite HUd. nia. }
  rewrite E1, E2. split; [unfold is_u64; nia|].
  apply Z.mod_unique with qu; [nia|]. rewrite HUd, HLd.
  replace W128 with (W64 * (m * n)) by (rewrite Hmn; reflexivity).
  replace W64 with (m * n) by done. ring.
Qed.

Lemma op_shl_spec a b : wf128 a -> wf128 b ->
  wf128 (op_shl a b) /\ val (op_shl a b) = (val a * 2 ^ val b) mod W128.
Proof.
  intros Ha Hb. pose proof (val_range a Ha). pose proof (val_range b Hb).
  unfold op_shl. destruct (negb _ || _) eqn:E1; [|destruct (LOWER b =? 64) eqn:E2;
    [|destruct (LOWER b =? 0) eqn:E3; [|destruct (LOWER b <? 64) eqn:E4]]].
  - split; [auto with u128|]. change (val uint128_0) with 0.
    assert (128 <= val b) by (u128_unfold; lia).
    replace (val b) with (128 + (val b - 128)) by lia.
    rewrite Z.pow_add_r by lia. change (2 ^ 128) with W128.
    rewrite (Z.mul_comm W128), Z.mul_assoc. apply eq_sym, Z.mod_mul. lia.
  - split; [auto with u128|].
    assert (val b = 64) as -> by (u128_unfold; lia). change (2 ^ 64) with W64.
    u128_unfold. mod_lia.
  - split; [done|]. assert (val b = 0) as -> by (u128_unfold; lia).
    change (2 ^ 0) with 1. rewrite Z.mul_1_r, Z.mod_small; done.
  - split; [auto with u128|].
    assert (Hvb : val b = LOWER b) by (u128_unfold; lia).
    assert (0 < LOWER b < 64) by (u128_unfold; lia).
    rewrite Z.shiftl_mul_pow2, Z.shiftr_div_pow2, Z.shiftl_mul_pow2 by lia.
    rewrite Hvb. unfold val at 2. destruct Ha as [HU HL]. unfold is_u64 in HU, HL.
    destruct (shl_small (UPPER a) (LOWER a) (2 ^ LOWER b) (2 ^ (64 - LOWER b)))
      as [Hr <-]; try done; try (apply Z.pow_pos_nonneg; lia).
    { apply pow_split. lia. }
    apply val_ctor_ST; [done|apply u64_range].
  - assert (Hvb : val b = LOWER b) by (u128_unfold; lia).
    assert (64 < LOWER b < 128) by (u128_unfold; lia).
    replace (_ && _) with true by lia. split; [auto with u128|].
    rewrite val_ctor_ST by u64_solve.
    rewrite Z.shiftl_mul_pow2 by lia. rewrite Hvb.
    replace (2 ^ LOWER b) with (2 ^ (LOWER b - 64) * W64).
    2:{ change W64 with (2 ^ 64). rewrite <- Z.pow_add_r by lia. f_equal. lia. }
    unfold u64, val. generalize (2 ^ (LOWER b - 64)). intros k.
    replace W128 with (W64 * W64) by lia. rewrite Z.mul_assoc, Zmult_mod_distr_r, Z.add_0_r.
    f_equal. replace ((UPPER a * W64 + LOWER a) * k) with (LOWER a * k + (UPPER a * k) * W64) by ring.
    symmetry. apply Z.mod_add. lia.
Qed.

Lemma shr_small U L m n : 0 < m -> 0 < n -> m * n = W64 -> 0 <= U < W64 -> 0 <= L < W64 ->
  is_u64 (U / m) /\ is_u64 ((U * n) mod W64 + L / m) /\
  U / m * W64 + ((U * n) mod W64 + L / m) = (U * W64 + L) / m.
Proof.
  intros Hm Hn Hmn HU HL.
  pose proof (Z.div_mod L m ltac:(lia)) as HLd.
  pose proof (Z.mod_pos_bound L m Hm) as HLr.
  pose proof (Z.div_mod U m ltac:(lia)) as HUd.
  pose proof (Z.mod_pos_bound U m Hm) as HUr.
  set (q := L / m) in *. set (r := L mod m) in *.
  set (qu := U / m) in *. set (ru := U mod m) in *.
  assert (Hq : 0 <= q < n) by nia.
  assert (Hqu : 0 <= qu < n) by nia.
  assert (E2 : (U * n) mod W64 = ru * n).
  { symmetry. apply Z.mod_unique with qu; [nia|]. rewrite HUd. nia. }
  rewrite E2. unfold is_u64. split_and!; try nia.
  apply Z.div_unique with r; [lia|]. rewrite HUd, HLd.
  replace W64 with (m * n) by done. ring.
Qed.

Lemma op_shr_spec a b : wf128 a -> wf128 b ->
  wf128 (op_shr a b) /\ val (op_shr a b) = val a / 2 ^ val b.
Proof.
  intros Ha Hb. pose proof (val_range a Ha). pose proof (val_range b Hb).
  unfold op_shr. destruct (negb _ || _) eqn:E1; [|destruct (LOWER b =? 64) eqn:E2;
    [|destruct (LOWER b =? 0) eqn:E3; [|destruct (LOWER b <? 64) eqn:E4]]].
  - split; [auto with u128|]. change (val uint128_0) with 0.
    assert (128 <= val b) by (u128_unfold; lia).
    rewrite Z.div_small; [done|]. split; [lia|].
    eapply Z.lt_le_trans; [apply H|]. change W128 with (2 ^ 128).
    apply Z.pow_le_mono_r; lia.
  - split; [auto with u128|].
    assert (val b = 64) as -> by (u128_unfold; lia). change (2 ^ 64) with W64.
    u128_unfold. mod_lia.
  - split; [done|]. assert (val b = 0) as -> by (u128_unfold; lia).
    change (2 ^ 0) with 1. by rewrite Z.div_1_r.
  - split; [auto with u128|].
    assert (Hvb : val b = LOWER b) by (u128_unfold; lia).
    assert (0 < LOWER b < 64) by (u128_unfold; lia).
    rewrite Z.shiftl_mul_pow2, !Z.shiftr_div_pow2 by lia.
    rewrite Hvb. unfold val at 2. destruct Ha as [HU HL]. unfold is_u64 in HU, HL.
    destruct (shr_small (UPPER a) (LOWER a) (2 ^ LOWER b) (2 ^ (64 - LOWER b)))
      as (? & ? & <-); try done; try (apply Z.pow_pos_nonneg; lia).
    { apply pow_split. lia. }
    by apply val_ctor_ST.
  - assert (Hvb : val b = LOWER b) by (u128_unfold; lia).
    assert (64 < LOWER b < 128) by (u128_unfold; lia).
    replace (_ && _) with true by lia. split; [auto with u128|].
    rewrite Z.shiftr_div_pow2, Hvb by lia.
    replace (2 ^ LOWER b) with (W64 * 2 ^ (LOWER b - 64)).
    2:{ change W64 with (2 ^ 64). rewrite <- Z.pow_add_r by lia. f_equal. lia. }
    assert (0 < 2 ^ (LOWER b - 64)) by (apply Z.pow_pos_nonneg; lia).
    rewrite <- Z.div_div by lia. destruct Ha as [HU HL]. unfold is_u64 in *.
    assert (0 <= UPPER a / 2 ^ (LOWER b - 64) < W64).
    { split; [apply Z.div_pos; lia|]. apply Z.div_lt_upper_bound; nia. }
    rewrite val_ctor_ST by (unfold is_u64; lia). rewrite Z.mul_0_l, Z.add_0_l.
    f_equal. unfold val. mod_lia.
Qed.

(** ** Bit length *)

Lemma bits_loop_spec fuel : forall x out,
  0 <= x < 2 ^ Z.of_nat fuel -> 0 <= out -> out + Z.of_nat fuel < 256 ->
  bits_loop fuel x out = out + (if x =? 0 then 0 else Z.log2 x + 1).
Proof.
  induction fuel as [|n IH]; intros x out Hx Ho Hf; cbn [bits_loop].
  - change (2 ^ Z.of_nat 0) with 1 in Hx. replace (x =? 0) with true by lia. lia.
  - destruct (x =? 0) eqn:E; [lia|].
    rewrite Nat2Z.inj_succ, Z.pow_succ_r in Hx by lia.
    assert (0 <= Z.shiftr x 1 < 2 ^ Z.of_nat n).
    { rewrite Z.shiftr_div_pow2 by lia. change (2 ^ 1) with 2. mod_lia. }
    unfold u8. rewrite (Z.mod_small (out + 1)) by lia. rewrite IH by lia.
    destruct (Z.shiftr x 1 =? 0) eqn:E1.
    + rewrite Z.shiftr_div_pow2 in E1 by lia. change (2 ^ 1) with 2 in E1.
      assert (x = 1) as -> by mod_lia. change (Z.log2 1) with 0. lia.
    + assert (2 <= x).
      { rewrite Z.shiftr_div_pow2 in E1 by lia. change (2 ^ 1) with 2 in E1. mod_lia. }
      rewrite Z.log2_shiftr by lia. pose proof (Z.log2_le_mono 2 x ltac:(lia)).
      change (Z.log2 2) with 1 in *. lia.
Qed.

Lemma bits_spec a : wf128 a ->
  bits a = if val a =? 0 then 0 else Z.log2 (val a) + 1.
Proof.
  intros [HU HL]. unfold is_u64 in *. unfold bits, val. destruct (UPPER a =? 0) eqn:E; cbn [negb].
  - rewrite bits_loop_spec by (cbn; lia). replace (UPPER a) with 0 by lia.
    by rewrite Z.mul_0_l, !Z.add_0_l.
  - rewrite bits_loop_spec by (cbn; lia). rewrite E.
    replace (_ =? 0) with false by lia.
    assert (Hlog : Z.log2 (UPPER a * W64 + LOWER a) = 64 + Z.log2 (UPPER a)).
    { pose proof (Z.log2_spec (UPPER a) ltac:(lia)) as [Hl Hu].
      apply Z.log2_unique; [pose proof (Z.log2_nonneg (UPPER a)); lia|].
      rewrite <- Z.add_succ_r, !Z.pow_add_r by (pose proof (Z.log2_nonneg (UPPER a)); lia).
      change (2 ^ 64) with W64. lia. }
    rewrite Hlog. lia.
Qed.

(** The number of bits brackets the value. *)
Lemma bits_bracket a : wf128 a -> val a <> 0 ->
  1 <= bits a <= 128 /\ 2 ^ (bits a - 1) <= val a < 2 ^ bits a.
Proof.
  intros Ha Hz. pose proof (val_range a Ha). rewrite bits_spec by done.
  replace (val a =? 0) with false by lia.
  pose proof (Z.log2_spec (val a) ltac:(lia)) as [Hl Hu].
  pose proof (Z.log2_nonneg (val a)).
  assert (Z.log2 (val a) < 128).
  { apply Z.log2_lt_pow2; [lia|]. change (2 ^ 128) with W128. lia. }
  replace (Z.log2 (val a) + 1 - 1) with (Z.log2 (val a)) by lia.
  rewrite Z.add_1_r. lia.
Qed.

(** ** Division *)

Lemma val_op_or a b : wf128 a -> wf128 b -> val (op_or_assign a b) = Z.lor (val a) (val b).
Proof.
  intros [? HLa] [? HLb]. unfold val, op_or_assign. cbn [UPPER LOWER].
  assert (Hs : forall u l, is_u64 l -> u * W64 + l = Z.lor (Z.shiftl u 64) l).
  { intros u l Hl. rewrite Z.shiftl_mul_pow2 by lia. change (2 ^ 64) with W64.
    symmetry. apply lor_add with 64; [lia|exact Hl|]. change (2 ^ 64) with W64.
    by apply Z.mod_mul. }
  assert (is_u64 (Z.lor (LOWER a) (LOWER b))).
  { apply (lor_range 64); [lia|done|done]. }
  rewrite !Hs by done. rewrite Z.shiftl_lor.
  rewrite !Z.lor_assoc. f_equal. rewrite <- !Z.lor_assoc. f_equal. apply Z.lor_comm.
Qed.

Lemma op_or_wf a b : wf128 a -> wf128 b -> wf128 (op_or_assign a b).
Proof. intros [] []. split; apply (lor_range 64); (lia || done). Qed.

Lemma divmod_loop_exit fuel b q r c d : wf128 b -> wf128 r -> val r < val b ->
  divmod_loop fuel b q r c d = Returns (q, r).
Proof.
  intros Hb Hr Hlt. destruct fuel; cbn [divmod_loop]; rewrite op_ge_spec by done;
    by replace (val b <=? val r) with false by lia.
Qed.

Lemma val_shr_1 a : wf128 a -> val (op_shr_assign a uint128_1) = val a / 2.
Proof. intros. apply op_shr_spec; auto with u128. Qed.

Lemma op_shr_wf a b : wf128 a -> wf128 b -> wf128 (op_shr_assign a b).
Proof. apply op_shr_spec. Qed.
#[export] Hint Resolve op_or_wf op_shr_wf : u128.

(** One round of the loop body, on the values. *)
Lemma divmod_round b q r copyd adder k :
  wf128 b -> wf128 q -> wf128 r -> wf128 copyd -> wf128 adder -> 0 <= k ->
  val copyd = val b * 2 ^ k -> val adder = 2 ^ k ->
  val q mod 2 ^ (k + 1) = 0 -> val r < val b * 2 ^ (k + 1) ->
  let qr := if op_ge r copyd then (op_or_assign q adder, op_sub_assign r copyd) else (q, r) in
  wf128 (fst qr) /\ wf128 (snd qr) /\ val (fst qr) mod 2 ^ k = 0 /\
  val (fst qr) * val b + val (snd qr) = val q * val b + val r /\
  val (snd qr) < val b * 2 ^ k.
Proof.
  intros Hb Hq Hr Hc Ha Hk Ec Ea Hm Hlt. rewrite op_ge_spec by done.
  assert (Hp : 2 ^ (k + 1) = 2 * 2 ^ k) by (rewrite Z.add_1_r; by apply Z.pow_succ_r).
  assert (Hpos : 0 < 2 ^ k) by (apply Z.pow_pos_nonneg; lia).
  rewrite Hp in *. apply Z.mod_divide in Hm as [c Hm]; [|lia].
  pose proof (val_range r Hr). pose proof (val_range copyd Hc).
  destruct (val copyd <=? val r) eqn:E; cbn [fst snd]; split_and!; auto with u128.
  - rewrite val_op_or, (lor_add _ _ (k + 1)) by (done || lia || (rewrite Hp; lia) ||
      (rewrite Hp; apply Z.mod_divide; [lia|by exists c])).
    apply Z.mod_divide; [lia|]. exists (2 * c + 1). lia.
  - rewrite val_op_or, (lor_add _ _ (k + 1)) by (done || lia || (rewrite Hp; lia) ||
      (rewrite Hp; apply Z.mod_divide; [lia|by exists c])).
    unfold op_sub_assign. rewrite val_op_sub, Z.mod_small by (done || lia). lia.
  - unfold op_sub_assign. rewrite val_op_sub, Z.mod_small by (done || lia). lia.
  - apply Z.mod_divide; [lia|]. exists (2 * c). lia.
  - lia.
Qed.

(** The loop of [divmod]: with [copyd] and [adder] the divisor and 1 shifted
    left by [k], and the quotient so far a multiple of [2 ^ (k + 1)], [k + 1]
    rounds finish the division. *)
Lemma divmod_loop_spec A b : wf128 b ->
  forall fuel k q r copyd adder, wf128 q -> wf128 r -> wf128 copyd -> wf128 adder ->
  0 <= k -> (Z.to_nat k < fuel)%nat ->
  val copyd = val b * 2 ^ k -> val adder = 2 ^ k ->
  val q mod 2 ^ (k + 1) = 0 -> A = val q * val b + val r -> val r < val b * 2 ^ (k + 1) ->
  exists q' r', divmod_loop fuel b q r copyd adder = Returns (q', r') /\
    wf128 q' /\ wf128 r' /\ A = val q' * val b + val r' /\ val r' < val b.
Proof.
  intros Hb. induction fuel as [|n IH]; intros k q r copyd adder Hq Hr Hc Ha Hk Hf Ec Ea Hm EA Hlt;
    [lia|].
  destruct (Z.lt_ge_cases (val r) (val b)) as [Hex|Hgo].
  { exists q, r. rewrite divmod_loop_exit by done. done. }
  cbn [divmod_loop]. rewrite op_ge_spec by done.
  replace (val b <=? val r) with true by lia.
  pose proof (divmod_round b q r copyd adder k Hb Hq Hr Hc Ha Hk Ec Ea Hm Hlt) as Hround.
  cbv zeta in Hround. destruct (if op_ge r copyd then _ else _) as [q1 r1]. cbn [fst snd] in Hround.
  destruct Hround as (Hq1 & Hr1 & Hm1 & EA1 & Hlt1).
  destruct (Z.eq_dec k 0) as [->|].
  - change (2 ^ 0) with 1 in Hlt1. exists q1, r1. rewrite divmod_loop_exit by (done || lia).
    split_and!; done || lia.
  - assert (Hp : 2 ^ k = 2 * 2 ^ (k - 1)) by (rewrite <- Z.pow_succ_r by lia; f_equal; lia).
    apply (IH (k - 1)); auto with u128; try lia.
    + rewrite val_shr_1, Ec, Hp by done.
      replace (val b * (2 * 2 ^ (k - 1))) with (val b * 2 ^ (k - 1) * 2) by ring.
      apply Z.div_mul. lia.
    + rewrite val_shr_1, Ea, Hp by done. rewrite Z.mul_comm. apply Z.div_mul. lia.
    + by replace (k - 1 + 1) with k by lia.
    + by replace (k - 1 + 1) with k by lia.
Qed.

(** Euclidean division is determined by its equation. *)
Lemma divmod_unique A B q r : 0 <= r < B -> A = q * B + r -> q = A / B /\ r = A mod B.
Proof.
  intros. split; [apply Z.div_unique with r | apply Z.mod_unique with q]; lia.
Qed.

(** The start of the long division: the divisor aligned with the dividend. *)
Lemma divmod_aligned a b : wf128 a -> wf128 b -> 1 < val b < val a ->
  let d := bits a - bits b in
  0 <= d < 128 /\ wf128 (shl_T b d) /\ val (shl_T b d) = val b * 2 ^ d /\
  wf128 (shl_T uint128_1 d) /\ val (shl_T uint128_1 d) = 2 ^ d /\
  val a < val b * 2 ^ (d + 1).
Proof.
  intros Ha Hb Hlt d.
  destruct (bits_bracket a Ha ltac:(lia)) as (Hba & Hla & Hua).
  destruct (bits_bracket b Hb ltac:(lia)) as (Hbb & Hlb & Hub).
  assert (Hd : 0 <= d < 128).
  { subst d. split; [|lia]. destruct (Z.lt_ge_cases (bits a) (bits b)); [|lia].
    pose proof (Z.pow_le_mono_r 2 (bits a) (bits b - 1) ltac:(lia) ltac:(lia)). lia. }
  assert (Hpd : 0 < 2 ^ d) by (apply Z.pow_pos_nonneg; lia).
  assert (Hmul : val b * 2 ^ d < W128).
  { pose proof (Z.pow_le_mono_r 2 (bits a) 128 ltac:(lia) ltac:(lia)).
    change (2 ^ 128) with W128 in *.
    replace (bits a) with (bits b + d) in * by lia. rewrite Z.pow_add_r in * by lia. nia. }
  assert (Hvd : val (ctor_T d) = d) by (apply val_ctor_T; unfold is_u64; lia).
  unfold shl_T.
  destruct (op_shl_spec b (ctor_T d)) as [? Ev]; [done|auto with u128|].
  destruct (op_shl_spec uint128_1 (ctor_T d)) as [? Ev1]; [auto with u128..|].
  change (val uint128_1) with 1 in Ev1. rewrite Hvd in Ev, Ev1.
  pose proof (val_range b Hb).
  split_and!; try done; try lia.
  - rewrite Ev. apply Z.mod_small. nia.
  - rewrite Ev1, Z.mul_1_l. apply Z.mod_small. nia.
  - replace (bits a) with (bits b - 1 + (d + 1)) in Hua by lia.
    rewrite Z.pow_add_r in Hua by lia.
    assert (0 < 2 ^ (d + 1)) by (apply Z.pow_pos_nonneg; lia). nia.
Qed.

Lemma divmod_spec a b : wf128 a -> wf128 b -> val b <> 0 ->
  exists q r, divmod a b = Returns (q, r) /\ wf128 q /\ wf128 r /\
    val q = val a / val b /\ val r = val a mod val b.
Proof.
  intros Ha Hb Hz. pose proof (val_range a Ha). pose proof (val_range b Hb).
  enough (exists q r, divmod a b = Returns (q, r) /\ wf128 q /\ wf128 r /\
    val a = val q * val b + val r /\ val r < val b) as (q & r & ? & ? & ? & Eq & ?).
  { exists q, r. split_and!; try done; apply (divmod_unique (val a) (val b) (val q) (val r));
      pose proof (val_range r ltac:(done)); lia. }
  unfold divmod. rewrite !op_eq_spec, op_lt_spec by auto with u128.
  change (val uint128_0) with 0. change (val uint128_1) with 1.
  replace (val b =? 0) with false by lia.
  destruct (val b =? 1) eqn:E1.
  { exists a, uint128_0. change (val uint128_0) with 0. split_and!; auto with u128; lia. }
  destruct (val a =? val b) eqn:E2.
  { exists uint128_1, uint128_0. change (val uint128_0) with 0. change (val uint128_1) with 1.
    split_and!; auto with u128; lia. }
  destruct (_ || _) eqn:E3.
  { exists uint128_0, a. change (val uint128_0) with 0. split_and!; auto with u128; lia. }
  destruct (divmod_aligned a b Ha Hb ltac:(lia)) as (Hd & Hc & Ec & Had & Ead & Hlt).
  set (d := bits a - bits b) in *. rewrite op_gt_spec by done.
  destruct (val a <? val (shl_T b d)) eqn:E4.
  - assert (d <> 0) by (intros Hd0; rewrite Ec, Hd0 in E4; change (2 ^ 0) with 1 in E4; lia).
    assert (Hp : 2 ^ d = 2 * 2 ^ (d - 1)) by (rewrite <- Z.pow_succ_r by lia; f_equal; lia).
    apply (divmod_loop_spec (val a) b Hb 128 (d - 1)); auto with u128; try lia.
    + rewrite val_shr_1, Ec, Hp by done.
      replace (val b * (2 * 2 ^ (d - 1))) with (val b * 2 ^ (d - 1) * 2) by ring.
      apply Z.div_mul. lia.
    + rewrite val_shr_1, Ead, Hp by done. rewrite Z.mul_comm. apply Z.div_mul. lia.
    + replace (d - 1 + 1) with d by lia. lia.
  - apply (divmod_loop_spec (val a) b Hb 128 d); auto with u128; lia.
Qed.

Lemma op_div_spec a b : wf128 a -> wf128 b -> val b <> 0 ->
  exists q, op_div a b = Returns q /\ wf128 q /\ val q = val a / val b.
Proof.
  intros Ha Hb Hz. destruct (divmod_spec a b Ha Hb Hz) as (q & r & E & ? & ? & ? & ?).
  exists q. unfold op_div. by rewrite E.
Qed.

Lemma op_mul_wf a b : wf128 a -> wf128 b -> wf128 (op_mul a b).
Proof. apply op_mul_spec. Qed.
#[export] Hint Resolve op_mul_wf : u128.

Lemma op_mod_spec a b : wf128 a -> wf128 b -> val b <> 0 ->
  exists r, op_mod a b = Returns r /\ wf128 r /\ val r = val a mod val b.
Proof.
  intros Ha Hb Hz. destruct (op_div_spec a b Ha Hb Hz) as (q & E & Hq & Eq).
  pose proof (val_range a Ha). pose proof (val_range b Hb).
  unfold op_mod. rewrite E. cbn [obind]. eexists. split; [done|].
  split; [auto with u128|]. rewrite val_op_sub by auto with u128.
  rewrite (proj2 (op_mul_spec b q Hb Hq)), Eq.
  pose proof (Z.div_mod (val a) (val b) Hz). pose proof (Z.mod_pos_bound (val a) (val b) ltac:(lia)).
  pose proof (Z.mod_le (val a) (val b) ltac:(lia) ltac:(lia)).
  rewrite (Z.mod_small (val b * _)) by lia. rewrite Z.mod_small; lia.
Qed.

(** ** Printing *)

(** The number a digit string denotes in a base. *)
Definition digits_val (base : Z) (s : list ascii) : Z :=
  fold_left (fun acc c => acc * base + hex_to_decimal c) s 0.

Lemma digits_val_snoc base s c :
  digits_val base (s ++ [c]) = digits_val base s * base + hex_to_decimal c.
Proof. unfold digits_val. by rewrite fold_left_app. Qed.

Lemma digits_val_zeros base n s : digits_val base (replicate n "0"%char ++ s) = digits_val base s.
Proof.
  unfold digits_val. rewrite fold_left_app. f_equal.
  induction n as [|n IH]; [done|]. cbn. rewrite Z.mul_0_l. exact IH.
Qed.

Lemma digit_table_val d : 0 <= d < 16 ->
  hex_to_decimal (default "0"%char (digit_table !! Z.to_nat d)) = d.
Proof.
  intros Hd. apply Z.eqb_eq. revert d Hd. by apply (forall_range 16).
Qed.

Lemma str_loop_spec base : 2 <= base <= 16 -> forall fuel q out, wf128 q ->
  val q < base ^ Z.of_nat (S fuel) ->
  exists s, str_loop (S fuel) base q out = Returns (s ++ out) /\ digits_val base s = val q /\ s <> [].
Proof.
  intros Hb. induction fuel as [|n IH]; intros q out Hq Hlt; cbn [str_loop];
    destruct (divmod_spec q (ctor_T base)) as (q1 & r1 & E & Hq1 & Hr1 & Eq & Er);
    try (rewrite ?val_ctor_T by u64_solve; auto with u128 || lia);
    rewrite E; cbn [obind fst snd]; rewrite val_ctor_T in Eq, Er by u64_solve;
    rewrite to_bool_spec by done;
    pose proof (Z.mod_pos_bound (val q) base ltac:(lia));
    assert (Hr8 : to_uint8 r1 = val r1)
      by (unfold to_uint8, cast, T_u8, wrap; cbn [it_signed it_width]; change (2 ^ 8) with 256;
          unfold val in *; destruct Hr1; unfold is_u64 in *; rewrite Z.mod_small; lia);
    set (c := default _ _);
    assert (Hc : hex_to_decimal c = val q mod base)
      by (subst c; rewrite Hr8, Er; apply digit_table_val; lia).
  - change (base ^ Z.of_nat 1) with (base ^ 1) in Hlt. rewrite Z.pow_1_r in Hlt.
    pose proof (val_range q Hq). rewrite Z.div_small in Eq by lia.
    rewrite Eq. cbn [Z.eqb negb]. exists [c]. split_and!; [done| |done].
    cbn. rewrite Hc. rewrite Z.mod_small; lia.
  - destruct (val q1 =? 0) eqn:E0; cbn [negb].
    + exists [c]. split_and!; [done| |done]. cbn. rewrite Hc.
      pose proof (Z.div_mod (val q) base ltac:(lia)). lia.
    + destruct (IH q1 (c :: out)) as (s & Es & Hs & _); [done| |].
      { rewrite Eq. apply Z.div_lt_upper_bound; [lia|].
        rewrite (Nat2Z.inj_succ (S n)), Z.pow_succ_r in Hlt by lia. lia. }
      exists (s ++ [c]). rewrite <- app_assoc. split_and!; [done| |by destruct s].
      rewrite digits_val_snoc, Hs, Hc, Eq.
      pose proof (Z.div_mod (val q) base ltac:(lia)). lia.
Qed.

(** ** The checked 64-bit operations *)

Definition in_s64 (z : Z) : bool := (int64_min <=? z) && (z <=? int64_max).

Lemma SafeIntAdd_spec x y r : is_s64 x -> is_s64 y ->
  SafeIntAdd x y r = (in_s64 (x + y), if in_s64 (x + y) then x + y else r).
Proof.
  unfold SafeIntAdd, in_s64, is_s64, s64, int64_min, int64_max. intros Hx Hy.
  set (sum := (x + y + _) mod _ - _).
  assert (Hs : sum = x + y /\ -9223372036854775808 <= sum <= 9223372036854775807 \/ (sum = x + y + W64 /\ x + y < -9223372036854775808)
               \/ (sum = x + y - W64 /\ 9223372036854775807 < x + y)) by (subst sum; mod_lia).
  clearbody sum.
  set (b := negb _ && negb _). set (c := (_ <=? _) && (_ <=? _)).
  assert (Hbc : b = c) by (subst b c; lia). rewrite Hbc.
  assert (Hv : c = true -> sum = x + y) by (subst c; lia).
  clearbody c. destruct c; [by rewrite Hv|done].
Qed.

Lemma SafeIntSub_spec x y r : is_s64 x -> is_s64 y ->
  SafeIntSub x y r = (in_s64 (x - y), if in_s64 (x - y) then x - y else r).
Proof.
  unfold SafeIntSub, in_s64, is_s64, s64, int64_min, int64_max. intros Hx Hy.
  set (dif := (x - y + _) mod _ - _).
  assert (Hs : dif = x - y /\ -9223372036854775808 <= dif <= 9223372036854775807 \/ (dif = x - y + W64 /\ x - y < -9223372036854775808)
               \/ (dif = x - y - W64 /\ 9223372036854775807 < x - y)) by (subst dif; mod_lia).
  clearbody dif.
  set (b := negb _ && negb _). set (c := (_ <=? _) && (_ <=? _)).
  assert (Hbc : b = c) by (subst b c; lia). rewrite Hbc.
  assert (Hv : c = true -> dif = x - y) by (subst c; lia).
  clearbody c. destruct c; [by rewrite Hv|done].
Qed.

(** A wrapped product divides back to [y] only when it did not wrap. *)
Lemma wrapped_quot x y m : x <> 0 -> is_s64 x -> is_s64 m ->
  (exists k, m = x * y + k * W64) -> Z.quot m x = y -> m = x * y.
Proof.
  intros Hx Hsx Hm [k Hk] Hq. unfold is_s64, int64_min, int64_max in *.
  pose proof (Z.quot_rem' m x). rewrite Hq in *.
  pose proof (Z.rem_bound_abs m x Hx). assert (Z.rem m x = k * W64) by lia.
  assert (Z.abs x <= 9223372036854775808) by lia.
  assert (k = 0) by lia. lia.
Qed.

Lemma SafeIntMul_spec x y r : is_s64 x -> is_s64 y -> ~ (x = -1 /\ y = int64_min) ->
  SafeIntMul x y r = Returns (in_s64 (x * y), if in_s64 (x * y) then x * y else r).
Proof.
  intros Hx Hy Hne. pose proof (s64_range (x * y)) as Hr.
  assert (Hk : exists k, s64 (x * y) = x * y + k * W64).
  { unfold s64. exists (- ((x * y + 9223372036854775808) / W64)). mod_lia. }
  unfold SafeIntMul. destruct (x =? 0) eqn:E0.
  { cbn [obind]. replace x with 0 by lia. done. }
  assert (Hok : in_s64 (x * y) = true -> s64 (x * y) = x * y).
  { intros Hin. apply s64_id. unfold in_s64, is_s64 in *. lia. }
  assert (Hnt : (s64 (x * y) =? int64_min) && (x =? -1) = false).
  { destruct Hk as [k Hk]. apply andb_false_iff. unfold is_s64, int64_min, int64_max in *.
    destruct (x =? -1) eqn:E1; [left|by right]. replace x with (-1) in * by lia. lia. }
  unfold quot64. rewrite E0, Hnt. cbn [obind]. f_equal.
  assert (Heq : (Z.quot (s64 (x * y)) x =? y) = in_s64 (x * y)).
  { destruct (in_s64 (x * y)) eqn:E.
    - rewrite Hok by done. rewrite Z.mul_comm, Z.quot_mul; lia.
    - apply Z.eqb_neq. intros Hq. pose proof (wrapped_quot x y _ ltac:(lia) Hx Hr Hk Hq) as Hm.
      unfold is_s64, in_s64 in *. lia. }
  rewrite Heq. destruct (in_s64 (x * y)); [by rewrite Hok|done].
Qed.

Lemma bigDivide_u_spec A B C : is_u64 A -> is_u64 B -> is_u64 C -> C <> 0 ->
  bigDivide_u A B C =
    Returns (A * B / C <=? uint64_max, (A * B / C) mod W64).
Proof.
  intros HA HB HC Hz. unfold bigDivide_u.
  assert (HAB : 0 <= A * B < W128) by (unfold is_u64 in *; nia).
  assert (Em : val (op_mul (ctor_T A) (ctor_T B)) = A * B).
  { rewrite (proj2 (op_mul_spec _ _ (wf_ctor_T A) (wf_ctor_T B))), !val_ctor_T by done.
    by apply Z.mod_small. }
  destruct (op_div_spec (op_mul (ctor_T A) (ctor_T B)) (ctor_T C)) as (q & E & Hq & Eq);
    [auto with u128..|by rewrite val_ctor_T|].
  rewrite E. cbn [obind]. rewrite le_T_spec by (done || (unfold is_u64, uint64_max; lia)).
  rewrite Em, val_ctor_T in Eq by done. rewrite Eq. do 2 f_equal.
  rewrite <- Eq. unfold to_uint64, cast, T_u64, wrap, val. cbn [it_signed it_width].
  change (2 ^ 64) with W64. destruct Hq as [HU HL]. unfold is_u64 in *. mod_lia.
Qed.

Lemma str_spec a base len : wf128 a -> 2 <= base <= 16 -> 0 <= len ->
  exists s, str a base len = Returns s /\ digits_val base s = val a /\ len <= Z.of_nat (length s).
Proof.
  intros Ha Hb Hl. unfold str. replace ((base <? 2) || (16 <? base)) with false by lia.
  assert (exists s, (if op_lnot a then Returns ["0"%char] else str_loop 128 base a [])
                    = Returns s /\ digits_val base s = val a) as (s & -> & Hs).
  { rewrite op_lnot_spec by done. destruct (val a =? 0) eqn:E0.
    - exists ["0"%char]. split; [done|]. change (digits_val base _) with (0 * base + 0). lia.
    - destruct (str_loop_spec base Hb 127 a []) as (s & Es & Hs & _); [done| |].
      + pose proof (val_range a Ha). change (Z.of_nat 128) with 128.
        pose proof (Z.pow_le_mono_l 2 base 128 ltac:(lia)). change (2 ^ 128) with W128 in *. lia.
      + exists s. by rewrite Es, app_nil_r. }
  cbn [obind]. eexists. split; [done|].
  destruct (Z.of_nat (length s) <? len) eqn:E.
  - rewrite digits_val_zeros, length_app, length_replicate. split; [done|]. lia.
  - split; [done|lia].
Qed.

(** ** The properties *)

(** addition, subtraction and multiplication of [uint128_t] are the ring
    operations modulo [2 ^ 128] and keep both words in 64 bits. *)
Theorem uint128_ring a b : wf128 a -> wf128 b ->
  (wf128 (op_add a b) /\ val (op_add a b) = (val a + val b) mod 2 ^ 128) /\
  (wf128 (op_sub a b) /\ val (op_sub a b) = (val a - val b) mod 2 ^ 128) /\
  (wf128 (op_mul a b) /\ val (op_mul a b) = (val a * val b) mod 2 ^ 128).
Proof.
  intros. split; [by apply op_add_spec|]. split; [by apply op_sub_spec|by apply op_mul_spec].
Qed.

Lemma uint128_ring_witness :
  val (op_mul (mk128 1 5) (mk128 0 uint64_max)) = (val (mk128 1 5) * uint64_max) mod 2 ^ 128.
Proof.
  apply (uint128_ring (mk128 1 5) (mk128 0 uint64_max)); vm_compute; intuition discriminate.
Defined.

(** [operator<<] multiplies by a power of two modulo [2 ^ 128] and
    [operator>>] divides by it, for every shift amount, 0 and 128 and more included. *)
Theorem uint128_shift a b : wf128 a -> wf128 b ->
  (wf128 (op_shl a b) /\ val (op_shl a b) = (val a * 2 ^ val b) mod 2 ^ 128) /\
  (wf128 (op_shr a b) /\ val (op_shr a b) = val a / 2 ^ val b).
Proof. intros. split; [by apply op_shl_spec | by apply op_shr_spec]. Qed.

Lemma uint128_shift_witness : val (op_shr (mk128 1 5) (mk128 0 3)) = val (mk128 1 5) / 2 ^ 3.
Proof.
  apply (uint128_shift (mk128 1 5) (mk128 0 3)); vm_compute; intuition discriminate.
Defined.

(** the long division [divmod] terminates within its bound and returns the
    Euclidean quotient and remainder; [operator%] agrees; a zero divisor throws. *)
Theorem uint128_divmod a b : wf128 a -> wf128 b ->
  (val b = 0 -> divmod a b = Throws RuntimeError) /\
  (val b <> 0 ->
     (exists q r, divmod a b = Returns (q, r) /\ wf128 q /\ wf128 r /\
        val q = val a / val b /\ val r = val a mod val b) /\
     (exists r, op_mod a b = Returns r /\ val r = val a mod val b)).
Proof.
  intros Ha Hb. split.
  - intros Hz. unfold divmod. rewrite op_eq_spec by auto with u128. by rewrite Hz.
  - intros Hz. split; [by apply divmod_spec|].
    destruct (op_mod_spec a b Ha Hb Hz) as (r & ? & ? & ?). by exists r.
Qed.

Lemma uint128_divmod_witness :
  exists q r, divmod (mk128 5 7) (mk128 0 10) = Returns (q, r) /\ wf128 q /\ wf128 r /\
    val q = val (mk128 5 7) / 10 /\ val r = val (mk128 5 7) mod 10.
Proof.
  apply (uint128_divmod (mk128 5 7) (mk128 0 10)); vm_compute; intuition discriminate.
Defined.

(** [str] prints a numeral of the value in every base from 2 to 16, padded
    to at least the requested length, and rejects any other base. *)
Theorem uint128_str_value a base len : wf128 a -> 0 <= len ->
  (2 <= base <= 16 -> exists s, str a base len = Returns s /\
     digits_val base s = val a /\ len <= Z.of_nat (length s)) /\
  (base < 2 \/ 16 < base -> str a base len = Throws InvalidArgument).
Proof.
  intros Ha Hl. split; intros Hb.
  - by apply str_spec.
  - unfold str. by replace ((base <? 2) || (16 <? base)) with true by lia.
Qed.

Lemma uint128_str_value_witness :
  exists s, str (mk128 5 7) 10 0 = Returns s /\
     digits_val 10 s = val (mk128 5 7) /\ 0 <= Z.of_nat (length s).
Proof.
  apply (uint128_str_value (mk128 5 7) 10 0); try lia. vm_compute; intuition discriminate.
Defined.

(** on nonnegative arguments and a positive divisor, [bigDivide] returns
    exactly [A * B / C], computed without intermediate overflow, and throws
    precisely when that quotient does not fit in an [int64_t]. *)
Theorem bigDivide_exact A B C : is_s64 A -> is_s64 B -> is_s64 C -> 0 <= A -> 0 <= B -> 0 < C ->
  bigDivide A B C =
    if A * B / C <=? int64_max then Returns (A * B / C) else Throws OverflowError.
Proof.
  intros HA HB HC ? ? ?. unfold bigDivide, bigDivide_s.
  replace ((0 <=? A) && (0 <=? B) && (0 <? C)) with true by lia.
  unfold is_s64, int64_max, int64_min in *.
  rewrite !u64_id by u64_solve. rewrite bigDivide_u_spec by (u64_solve || lia).
  assert (0 <= A * B / C) by (apply Z.div_pos; lia). unfold uint64_max, int64_max.
  cbn [obind]. destruct (A * B / C <=? 18446744073709551615) eqn:E.
  - rewrite Z.mod_small by lia. cbn [obind].
    destruct (A * B / C <=? 9223372036854775807) eqn:E1; [|done].
    f_equal. apply s64_id. unfold is_s64, int64_min, int64_max. lia.
  - cbn [obind]. by replace (A * B / C <=? 9223372036854775807) with false by lia.
Qed.

Lemma bigDivide_exact_witness : bigDivide 9223372036854775807 1000 70000 = Returns 131762457669353940.
Proof. rewrite (bigDivide_exact 9223372036854775807 1000 70000); done. Defined.

(** C37: the overflow-checked operations on [int64_t] succeed exactly when the
    mathematical result is representable, store that result, and otherwise leave
    the output untouched; multiplication has the single excluded input
    [-1 * INT64_MIN]. *)
Theorem SafeInt_exact x y r : is_s64 x -> is_s64 y ->
  SafeIntAdd x y r = (in_s64 (x + y), if in_s64 (x + y) then x + y else r) /\
  SafeIntSub x y r = (in_s64 (x - y), if in_s64 (x - y) then x - y else r) /\
  (~ (x = -1 /\ y = int64_min) ->
   SafeIntMul x y r = Returns (in_s64 (x * y), if in_s64 (x * y) then x * y else r)).
Proof.
  intros. split_and!; [by apply SafeIntAdd_spec|by apply SafeIntSub_spec|by apply SafeIntMul_spec].
Qed.

Lemma SafeInt_exact_witness :
  SafeIntAdd int64_max 1 42 = (false, 42) /\
  SafeIntSub int64_min 1 42 = (false, 42) /\
  (~ (int64_max = -1 /\ 1 = int64_min) -> SafeIntMul int64_max 1 42 = Returns (true, int64_max)).
Proof.
  split; [|split].
  - apply (SafeInt_exact int64_max 1 42); vm_compute; intuition discriminate.
  - apply (SafeInt_exact int64_min 1 42); vm_compute; intuition discriminate.
  - apply (SafeInt_exact int64_max 1 42); vm_compute; intuition discriminate.
Defined.

(** two arithmetic helpers do not do what their names say: the template
    [operator%(const T &)] truncates its inner product to [T] and so returns a
    wrong remainder once the dividend exceeds [T], and [SafeIntMul(-1, INT64_MIN)]
    divides [INT64_MIN] by [-1] instead of reporting the overflow. *)
Theorem arithmetic_helpers_defects :
  (exists a r, wf128 a /\ mod_T T_u64 a 10 = Returns r /\ val r <> val a mod 10) /\
  (forall r, SafeIntMul (-1) int64_min r = Throws Trap).
Proof.
  split; [|done]. exists (mk128 1 5), (mk128 1 1). vm_compute. intuition discriminate.
Qed.
