(* ===== verification/Strings.v ===== *)
(** * Strings

    [utils::String] (src/utils/strings.h): number recognition and conversion,
    trimming, splitting, replacing, hexadecimal and decimal texts. A
    [std::string] is the list of its [char]s; [c_str()] adds a terminating NUL,
    which reading past the end of the list yields. The printf family
    ([Format], [AppendFormat]) and the floating-point conversions are left out. *)
From S2P Require Import Prelude.

Module Strings.

Abbreviation str := (list ascii).

Definition NUL : ascii := chr 0.

(** [*ptr] of a C string: NUL at the end. *)
Definition peek (l : str) : ascii := default NUL (head l).
Definition is_ch (a c : ascii) : bool := bool_decide (a = c).

(** [a <= c && c <= b], comparing [char]s as signed bytes. *)
Definition between (a b c : ascii) : bool := (schar a <=? schar c) && (schar c <=? schar b).

Definition IS_BLANK (c : ascii) : bool := is_ch " " c || is_ch (chr 9) c.
Definition IS_DIGIT (c : ascii) : bool := between "0" "9" c.
Definition IS_ALPHA (c : ascii) : bool := between "a" "z" c || between "A" "Z" c.
Definition IS_HEX_DIGIT (c : ascii) : bool := between "A" "F" c || between "a" "f" c.

(** [while (p( *ptr)) ptr++]; [p] is false on NUL. *)
Fixpoint skip (p : ascii -> bool) (l : str) : str :=
  match l with
  | [] => []
  | c :: l' => if p c then skip p l' else l
  end.

(** [IsNumber]: 0 no number, 1 integer, 2 hexadecimal, 3 with a dot. *)
Definition IsNumber (s : str) : Z :=
  if bool_decide (s = []) then 0
  else
    let p0 := skip IS_BLANK s in
    let p1 := if is_ch "-" (peek p0) || is_ch "+" (peek p0) then tail p0 else p0 in
    if IS_DIGIT (peek p1) || is_ch "." (peek p1) then
      let hex := is_ch "0" (peek p1) && (is_ch "x" (peek (tail p1)) || is_ch "X" (peek (tail p1))) in
      let p2 := if negb (is_ch "." (peek p1)) then
                  let q := if hex then tail (tail p1) else p1 in
                  let q := skip (is_ch "0") q in
                  skip (fun c => IS_DIGIT c || (hex && IS_HEX_DIGIT c)) q
                else p1 in
      let dot := negb hex && is_ch "." (peek p2) in
      let p3 := if dot then skip IS_DIGIT (tail p2) else p2 in
      let type := if dot then 3 else if hex then 2 else 0 in
      if is_ch NUL (peek p3) then (if 0 <? type then type else 1) else 0
    else 0.

(** [isspace] in the C locale. *)
Definition isspace (c : ascii) : bool := ((9 <=? code c) && (code c <=? 13)) || (code c =? 32).
Definition IsSpace (c : ascii) : bool := (0 <? schar c) && isspace c.

Definition digit_val (c : ascii) : Z := code c - code "0".

(** [strtol]/[strtoll] in base 10: blanks, an optional sign, digits; the value
    saturates at the range of a 64-bit [long]. [atol] and [atoll] return it and
    [atoi] converts it to [int]. *)
Fixpoint read_digits (acc : Z) (l : str) : Z :=
  match l with
  | [] => acc
  | c :: l' => if IS_DIGIT c then read_digits (10 * acc + digit_val c) l' else acc
  end.
Definition strtoll (l : str) : Z :=
  let p := skip isspace l in
  let '(neg, q) := if is_ch "-" (peek p) then (true, tail p)
                   else if is_ch "+" (peek p) then (false, tail p) else (false, p) in
  let v := read_digits 0 q in
  if neg then Z.max int64_min (- v) else Z.min int64_max v.

Definition Stoi (s : str) : Z := if bool_decide (s = []) then 0 else s32 (strtoll s).
Definition Stoi64 (s : str) : Z := if bool_decide (s = []) then 0 else strtoll s.
Definition Stol (s : str) : Z := if bool_decide (s = []) then 0 else strtoll s.

(** The loop of [Stoui] and [Stoui64]: blanks are skipped until a digit was
    used, arithmetic wraps at the width of the type. *)
Fixpoint sto_loop (w : Z -> Z) (value : Z) (used : bool) (l : str) : Z :=
  match l with
  | [] => value
  | c :: l' =>
      if IS_DIGIT c then sto_loop w (w (w (value * 10) + w (digit_val c))) true l'
      else if negb (IsSpace c) || used then value
      else sto_loop w value used l'
  end.
Definition Stoui (s : str) : Z := if bool_decide (s = []) then 0 else sto_loop u32 0 false s.
(** Declared to return [int64_t]. *)
Definition Stoui64 (s : str) : Z := if bool_decide (s = []) then 0 else s64 (sto_loop u64 0 false s).

Definition Stob (s : str) : bool :=
  if bool_decide (s = []) || bool_decide (s = lit "0") || bool_decide (s = lit "false")
     || bool_decide (s = lit "FALSE") then false else true.

(** [ToString] of an integer: [%d] and the like. 20 digits hold any 64-bit value. *)
Fixpoint digits (fuel : nat) (n : Z) : str :=
  match fuel with
  | O => []
  | S f => (if n <? 10 then [] else digits f (n / 10)) ++ [chr (code "0" + n mod 10)]
  end.
Definition ToString (v : Z) : str := if v <? 0 then ("-"%char) :: digits 20 (- v) else digits 20 v.
Definition ToString_bool (v : bool) : str := if v then lit "1" else lit "0".

(** The checked conversions: the number must print back as the text. *)
Definition SafeStoi (s : str) : option Z :=
  if (11 <? length s)%nat then None
  else let n := Stoi s in if bool_decide (s = ToString n) then Some n else None.
Definition SafeStoui (s : str) : option Z :=
  if (10 <? length s)%nat then None
  else let n := Stoui s in if bool_decide (s = ToString n) then Some n else None.
Definition SafeStoi64 (s : str) : option Z :=
  if (20 <? length s)%nat then None
  else let n := Stoi64 s in if bool_decide (s = ToString n) then Some n else None.
Definition SafeStoui64 (s : str) : option Z :=
  if (20 <? length s)%nat then None
  else let n := u64 (Stoui64 s) in if bool_decide (s = ToString n) then Some n else None.

(** [split]: the text between delimiters; [cur] is the part since the last one,
    reversed. [index - last > 0] always holds at the end, for npos is the
    largest [size_t]. *)
Fixpoint split_loop (delim cur s : str) : list str :=
  match s with
  | [] => [rev cur]
  | c :: s' => if bool_decide (c ∈ delim) then rev cur :: split_loop delim [] s'
               else split_loop delim (c :: cur) s'
  end.
Definition split (s delim : str) : list str := split_loop delim [] s.

(** [ParseAttribute]; [std::map::insert] keeps an existing entry. *)
Definition ParseAttribute (s delim ope : str) : gmap str str :=
  foldl (fun ret part =>
    let item := split part ope in
    let k := default [] (item !! 0%nat) in
    let v := default [] (item !! 1%nat) in
    match ret !! k with Some _ => ret | None => <[k := v]> ret end) ∅ (split s delim).

(** [TrimLeft], [TrimRight], [Trim]; positions as in the code. *)
Fixpoint left_pos (s : str) : nat :=
  match s with
  | c :: s' => if IsSpace c then S (left_pos s') else 0
  | [] => 0
  end.
(** [while (nRightPos >= nLeftPos && IsSpace(str[nRightPos])) { if (nRightPos == 0) break; nRightPos--; }] *)
Fixpoint right_pos (s : str) (nLeftPos nRightPos : nat) : nat :=
  if (nLeftPos <=? nRightPos)%nat && match s !! nRightPos with Some c => IsSpace c | None => false end
  then match nRightPos with O => O | S p => right_pos s nLeftPos p end
  else nRightPos.

Definition substr (pos n : nat) (s : str) : str := take n (drop pos s).
Definition cut (s : str) (l r : nat) : str := if (r <? l)%nat then [] else substr l (r - l + 1) s.

Definition TrimLeft (s : str) : str :=
  if bool_decide (s = []) then s else cut s (left_pos s) (length s - 1).
Definition TrimRight (s : str) : str :=
  if bool_decide (s = []) then s else cut s 0 (right_pos s 0 (length s - 1)).
Definition Trim (s : str) : str :=
  if bool_decide (s = []) then s
  else let l := left_pos s in cut s l (right_pos s l (length s - 1)).

Definition CanDisplay (s : str) : bool :=
  forallb (fun c => (32 <=? schar c) && (schar c <=? 127)) s.
Definition IsContainUppercase (s : str) : bool := existsb (between "A" "Z") s.
Definition IsContainLowercase (s : str) : bool := existsb (between "a" "z") s.
Definition IsInteger (s : str) : bool :=
  forallb (fun c => negb ((schar "9" <? schar c) || (schar c <? schar "0"))) s.

Definition lower_char (c : ascii) : ascii := if between "A" "Z" c then chr (code c + 32) else c.
Definition upper_char (c : ascii) : ascii := if between "a" "z" c then chr (code c - 32) else c.
Definition ToLower (s : str) : str := map lower_char s.
Definition ToUpper (s : str) : str := map upper_char s.
Definition CharIsLetter (c : ascii) : bool := between "A" "Z" c || between "a" "z" c.

Fixpoint equals_loop (s1 s2 : str) : bool :=
  match s1, s2 with
  | a :: s1', b :: s2' =>
      if is_ch a b then equals_loop s1' s2'
      else if negb (CharIsLetter a) || negb (CharIsLetter b) then false
      else if negb (Z.abs (schar a - schar b) =? 32) then false
      else equals_loop s1' s2'
  | _, _ => true
  end.
Definition EqualsIgnoreCase (s1 s2 : str) : bool :=
  if negb (length s1 =? length s2)%nat then false else equals_loop s1 s2.

(** [s.find(t)]: the text before the first occurrence and the text after it. *)
Fixpoint strip_prefix (t s : str) : option str :=
  match t, s with
  | [], _ => Some s
  | a :: t', b :: s' => if is_ch a b then strip_prefix t' s' else None
  | _ :: _, [] => None
  end.
Fixpoint find_sub (t s : str) : option (str * str) :=
  match strip_prefix t s with
  | Some rest => Some ([], rest)
  | None =>
      match s with
      | [] => None
      | c :: s' => match find_sub t s' with Some (b, r) => Some (c :: b, r) | None => None end
      end
  end.

(** [IsContainStringIgnoreCase]: the upper-case copies are made and not used. *)
Definition IsContainStringIgnoreCase (str1 str2 : str) : bool :=
  let s1 := ToUpper str1 in
  let s2 := ToUpper str2 in
  match find_sub str2 str1 with Some _ => true | None => false end.

(** [Replace]: the loop over the rest of the text after the last replacement.
    It does not end when [from] is empty. *)
Fixpoint replace_loop (fuel : nat) (done rest from to : str) : outcome str :=
  match fuel with
  | O => Throws OutOfFuel
  | S f =>
      match find_sub from rest with
      | None => Returns (done ++ rest)
      | Some (before, after) => replace_loop f (done ++ before ++ to) after from to
      end
  end.
Definition Replace (fuel : nat) (s from to : str) : outcome str := replace_loop fuel [] s from to.

Definition Swap (ls rs : str) : str * str := let temp := ls in (rs, temp).

(** [Strtok] by one separator: empty parts are dropped except at the end, where
    the test is against npos. *)
Fixpoint strtok_loop (sep : ascii) (cur s : str) : list str :=
  match s with
  | [] => [rev cur]
  | c :: s' =>
      if is_ch sep c then (if bool_decide (cur = []) then [] else [rev cur]) ++ strtok_loop sep [] s'
      else strtok_loop sep (c :: cur) s'
  end.
Definition Strtok (s : str) (separator : ascii) : list str := strtok_loop separator [] s.

(** The form that appends to [arr] and returns its size. *)
Definition Strtok_into (s : str) (separator : ascii) (arr : list str) : Z * list str :=
  let arr' := arr ++ Strtok s separator in (Z.of_nat (length arr'), arr').

(** ** Hexadecimal *)

Definition nibble_char (n : Z) : ascii :=
  if (0 <=? n) && (n <=? 9) then chr (n + code "0") else chr (n - 10 + code "a").
Definition BinToHexString (value : str) : str :=
  value ≫= fun c => let item := code c in
    [nibble_char (Z.shiftr item 4); nibble_char (Z.land item 15)].

Definition hex_val (force_little : bool) (c : ascii) : option Z :=
  if between "0" "9" c then Some (code c - code "0")
  else if between "a" "f" c then Some (code c - code "a" + 10)
  else if between "A" "F" c && negb force_little then Some (code c - code "A" + 10)
  else None.

Fixpoint hex_loop (force_little : bool) (s : str) : option str :=
  match s with
  | a :: b :: s' =>
      match hex_val force_little a, hex_val force_little b with
      | Some high, Some low =>
          match hex_loop force_little s' with
          | Some r => Some (chr (Z.shiftl high 4 + low) :: r)
          | None => None
          end
      | _, _ => None
      end
  | _ => Some []
  end.
(** [HexStringToBin(hex_string, force_little)]: the empty string on an error. *)
Definition HexStringToBin (s : str) (force_little : bool) : str :=
  if negb (length s mod 2 =? 0)%nat || bool_decide (s = []) then []
  else default [] (hex_loop force_little s).

Definition IsHexString (s : str) : bool :=
  if negb (length s mod 2 =? 0)%nat then false
  else forallb (fun c => between "0" "9" c || between "a" "f" c || between "A" "F" c) s.

(** [HexStringToBin(hex_string, out_put)] *)
Definition HexStringToBin_out (s : str) : option str :=
  if negb (IsHexString s) then None else Some (HexStringToBin s false).

Definition Bin4ToHexString (value : str) : str := BinToHexString (take 4 value).

(** ** Decimal amounts *)

(** The loop of [FormatDecimal] over the reversed digits; [i] counts them. *)
Fixpoint format_loop (decimal i : nat) (zero_not_show : bool) (out rev_digits : str) : str :=
  match rev_digits with
  | [] => out
  | c :: r =>
      let zero_not_show := if negb (is_ch "0" c) then false else zero_not_show in
      let out :=
        if (i <? decimal)%nat then
          (if negb (is_ch "0" c) || negb zero_not_show then out ++ [c] else out)
        else if (i =? decimal)%nat then
          (if (0 <? length out)%nat then out ++ ["."%char] else out) ++ [c]
        else out ++ [c] in
      format_loop decimal (S i) zero_not_show out r
  end.
Definition FormatDecimal (number : Z) (decimal : nat) : str :=
  let result := ToString number in
  let result := if (length result <=? decimal)%nat
                then repeat "0"%char (decimal - length result + 1) ++ result else result in
  rev (format_loop decimal 0 true [] (rev result)).

Fixpoint find_char (c : ascii) (s : str) : option nat :=
  match s with
  | [] => None
  | d :: s' => if is_ch c d then Some 0%nat else S <$> find_char c s'
  end.
Definition erase1 (pos : nat) (s : str) : str := take pos s ++ drop (S pos) s.
Definition insert1 (pos : nat) (c : ascii) (s : str) : str := take pos s ++ c :: drop pos s.
Fixpoint zeros_pos (s : str) : nat :=
  match s with
  | c :: s' => if is_ch "0" c then S (zeros_pos s') else 0
  | [] => 0
  end.

(** [MultiplyDecimal]; [i--] at zero wraps, and the whole text is erased. *)
Definition MultiplyDecimal (value : str) (decimals : nat) : str :=
  let value :=
    match find_char "." value with
    | None => value ++ repeat "0"%char decimals
    | Some dot_pos =>
        let right := (length value - dot_pos - 1)%nat in
        if (right <=? decimals)%nat
        then erase1 dot_pos value ++ repeat "0"%char (decimals - right)
        else insert1 (dot_pos + decimals) "." (erase1 dot_pos value)
    end in
  let i := zeros_pos value in
  match value !! i with
  | Some c =>
      if is_ch "." c then match i with O => [] | S j => drop j value end
      else drop i value
  | None => drop i value
  end.

(** The scan of [IsDecNumber]: [None] when it returns false, otherwise the
    position of the dot. *)
Fixpoint dec_scan (i : nat) (dot_pos : option nat) (s : str) : option (option nat) :=
  match s with
  | [] => Some dot_pos
  | c :: s' =>
      if negb (IS_DIGIT c) && negb (is_ch "." c) then None
      else if is_ch "." c then
        match dot_pos with None => dec_scan (S i) (Some i) s' | Some _ => None end
      else dec_scan (S i) dot_pos s'
  end.
Definition IsDecNumber (value : str) (decimal : nat) : bool :=
  match value with
  | [] => false
  | c0 :: _ =>
      if is_ch "." (default NUL (last value)) then false
      else
        match dec_scan 0 None value with
        | None => false
        | Some dot_pos =>
            let leading_zero := is_ch "0" c0 in
            if (leading_zero && negb (bool_decide (dot_pos = Some 1%nat)))
               && negb (bool_decide (value = lit "0")) then false
            else match dot_pos with
                 | Some p => negb (decimal <? length value - p - 1)%nat
                 | None => true
                 end
        end
  end.

(** [V8Contract::CallBackToBaseUnit], its string computation: [None] is the
    exception thrown to the contract. *)
Definition BU_DECIMALS : nat := 8.
Definition ToBaseUnit (arg0 : str) : option str :=
  if negb (IsDecNumber arg0 BU_DECIMALS) then None
  else
    let multi_result := MultiplyDecimal arg0 BU_DECIMALS in
    match SafeStoi64 multi_result with
    | None => None
    | Some _ => Some multi_result
    end.

(** ** Splitting by a key string *)

(** The loop of the template [Strtok] over [content[start_pos..end_pos)], where
    [rest] is the content from [start_pos] up to [end_pos]. The key is searched
    in the whole content, so an occurrence that starts before [end_pos] and
    reaches beyond it counts; [tail] is the content after [end_pos]. *)
Fixpoint tok_loop (fuel : nat) (rest tail key : str) (max_items : Z) (ignore_empty : bool)
  (item_count : Z) : list str :=
  match fuel with
  | O => []
  | S f =>
      if bool_decide (rest = []) then []
      else
        let find_pos :=
          match find_sub key (rest ++ tail) with
          | None => length rest
          | Some (b, _) => if (length rest <=? length b)%nat || ((0 <? max_items) && (item_count =? max_items - 1))
                           then length rest else length b
          end in
        let item := take find_pos rest in
        let keep := (0 <? find_pos)%nat || negb ignore_empty in
        (if keep then [item] else [])
          ++ tok_loop f (drop (find_pos + length key) rest) tail key max_items ignore_empty
               (if keep then item_count + 1 else item_count)
  end.
Definition Strtok_key (content key : str) (max_items : Z) (ignore_empty : bool)
  (content_len : option nat) : list str :=
  let end_pos := default (length content) content_len in
  if bool_decide (key = []) then []
  else
    let end_pos := if (end_pos =? 0)%nat || (length content <=? end_pos)%nat
                   then length content else end_pos in
    tok_loop (S (length content)) (take end_pos content) (drop end_pos content) key max_items
      ignore_empty 0.

Definition ParseAttributes (content sep_key value_key : str)
  (key_low_case trim_key trim_value : bool) (attrs : gmap str str) : Z * gmap str str :=
  foldl (fun '(lines, attrs) part =>
    match Strtok_key part value_key 2 false None with
    | [] => (lines, attrs)
    | front :: others =>
        let front := if key_low_case then ToLower front else front in
        let front := if trim_key then Trim front else front in
        let value := match last others with
                     | Some back => if trim_value then Trim back else back
                     | None => []
                     end in
        (lines + 1, <[front := value]> attrs)
    end) (0, attrs) (Strtok_key content sep_key (-1) false None).

(** ** Byte-wise operators *)

Definition xor_char (a b : ascii) : ascii := chr (Z.lxor (code a) (code b)).

(** [std::string::operator<]: by [char_traits], as unsigned bytes. *)
Fixpoint str_ltb (a b : str) : bool :=
  match a, b with
  | _, [] => false
  | [], _ :: _ => true
  | x :: a', y :: b' => (code x <? code y) || ((code x =? code y) && str_ltb a' b')
  end.
Definition LessThanXored (l r x : str) : bool :=
  if negb (length l =? length r)%nat || negb (length r =? length x)%nat then false
  else str_ltb (zip_with xor_char x l) (zip_with xor_char x r).

Definition xor_strings (ls rs : str) : str :=
  if negb (length ls =? length rs)%nat then ls else zip_with xor_char ls rs.
End Strings.
