(* ===== verification/StringsFacts.v ===== *)
(** * Strings: correctness of the conversions and of trimming *)
From S2P Require Import Prelude Strings.
Import Strings.

Implicit Types (s t l : list ascii) (c : ascii) (n v : Z).

(** ** Hexadecimal *)

Lemma nibble_val b n : 0 <= n < 16 -> hex_val b (nibble_char n) = Some n.
Proof.
  intros Hn.
  enough (H : (bool_decide (hex_val true (nibble_char n) = Some n)
               && bool_decide (hex_val false (nibble_char n) = Some n)) = true).
  { apply andb_prop in H as [H1%bool_decide_eq_true H2%bool_decide_eq_true]. by destruct b. }
  revert n Hn. by apply (forall_range 16).
Qed.

Lemma code_nibbles c : 0 <= Z.shiftr (code c) 4 < 16 /\ 0 <= Z.land (code c) 15 < 16
  /\ Z.shiftl (Z.shiftr (code c) 4) 4 + Z.land (code c) 15 = code c.
Proof.
  pose proof (code_range c). rewrite Z.shiftl_mul_pow2, Z.shiftr_div_pow2 by lia.
  change 15 with (Z.ones 4). rewrite Z.land_ones by lia. change (2 ^ 4) with 16. mod_lia.
Qed.

Lemma hex_loop_BinToHex b s : hex_loop b (BinToHexString s) = Some s.
Proof.
  induction s as [|c s IH]; [done|]. destruct (code_nibbles c) as (H1 & H2 & H3).
  change (BinToHexString (c :: s))
    with (nibble_char (Z.shiftr (code c) 4) :: nibble_char (Z.land (code c) 15) :: BinToHexString s).
  cbn [hex_loop]. by rewrite !nibble_val, IH, H3, chr_code.
Qed.

Lemma length_BinToHex s : length (BinToHexString s) = (2 * length s)%nat.
Proof. induction s as [|c s IH]; [done|]. cbn -[BinToHexString] in *. unfold BinToHexString in *. cbn. lia. Qed.

Definition is_hex c : bool := between "0" "9" c || between "a" "f" c || between "A" "F" c.

(** A hexadecimal character is the lower-case digit of its value. *)
Lemma hex_val_char c : is_hex c = true ->
  exists n, hex_val false c = Some n /\ 0 <= n < 16 /\ nibble_char n = lower_char c.
Proof.
  intros Hc.
  assert (H : implb (is_hex c) (match hex_val false c with
    | Some n => (0 <=? n) && (n <? 16) && bool_decide (nibble_char n = lower_char c) | None => false end) = true).
  { revert c Hc. intros c _. revert c. by apply forall_char. }
  rewrite Hc in H. cbn [implb] in H. destruct (hex_val false c) as [n|]; [|done].
  exists n. rewrite !andb_true_iff, bool_decide_eq_true in H. lia || (split; [done|split; [lia|tauto]]).
Qed.

Lemma even_ind (P : list ascii -> Prop) : P [] -> (forall a b l, P l -> P (a :: b :: l)) ->
  forall l, (length l mod 2 = 0)%nat -> P l.
Proof.
  intros H0 H2. fix IH 1. intros [|a [|b l]] Hl; [done|done|].
  apply H2, IH. cbn [length] in Hl. replace (S (S (length l))) with (length l + 1 * 2)%nat in Hl by lia.
  by rewrite Nat.Div0.mod_add in Hl.
Qed.

Lemma hex_loop_spec s : (length s mod 2 = 0)%nat -> forallb is_hex s = true ->
  exists r, hex_loop false s = Some r /\ BinToHexString r = ToLower s.
Proof.
  intros Hl. revert s Hl. apply (even_ind (fun s => forallb is_hex s = true -> _)).
  - intros _. by exists [].
  - intros a b l IH Hh. cbn [forallb] in Hh. rewrite !andb_true_iff in Hh. destruct Hh as (Ha & Hb & Hl).
    destruct (IH Hl) as (r & Hr & Hlow). destruct (hex_val_char a Ha) as (x & Hx & Rx & Ex).
    destruct (hex_val_char b Hb) as (y & Hy & Ry & Ey).
    cbn [hex_loop]. rewrite Hx, Hy, Hr. eexists. split; [done|].
    change (BinToHexString (chr (Z.shiftl x 4 + y) :: r))
      with (nibble_char (Z.shiftr (code (chr (Z.shiftl x 4 + y))) 4)
         :: nibble_char (Z.land (code (chr (Z.shiftl x 4 + y))) 15) :: BinToHexString r).
    rewrite Hlow, code_chr, Z.shiftl_mul_pow2, Z.shiftr_div_pow2 by lia.
    change 15 with (Z.ones 4). rewrite Z.land_ones by lia. change (2 ^ 4) with 16.
    replace ((x * 16 + y) mod 256) with (x * 16 + y) by mod_lia.
    replace ((x * 16 + y) / 16) with x by mod_lia. replace ((x * 16 + y) mod 16) with y by mod_lia.
    cbn. by rewrite Ex, Ey.
Qed.

Lemma BinToHex_is_hex s : forallb is_hex (BinToHexString s) = true.
Proof.
  induction s as [|c s IH]; [done|]. destruct (code_nibbles c) as (H1 & H2 & _).
  change (BinToHexString (c :: s))
    with (nibble_char (Z.shiftr (code c) 4) :: nibble_char (Z.land (code c) 15) :: BinToHexString s).
  cbn [forallb]. rewrite IH.
  assert (Hn : forall n, 0 <= n < 16 -> is_hex (nibble_char n) = true) by by apply (forall_range 16).
  by rewrite !Hn.
Qed.

(** ** Decimal numerals *)

#[local] Arguments digit_val : simpl never.
#[local] Arguments code : simpl never.
#[local] Arguments chr : simpl never.
#[local] Arguments digits : simpl never.

(** The number a list of digits denotes, after [acc]. *)
Definition num acc l : Z := foldl (fun a c => 10 * a + digit_val c) acc l.
Definition all_digits l : Prop := Forall (fun c => IS_DIGIT c = true) l.

Lemma digit_range c : IS_DIGIT c = true -> 0 <= digit_val c < 10.
Proof.
  intros Hc. assert (H : implb (IS_DIGIT c) ((0 <=? digit_val c) && (digit_val c <? 10)) = true).
  { clear Hc. revert c. by apply forall_char. }
  rewrite Hc in H. cbn in H. lia.
Qed.

Definition digit n : ascii := chr (code "0" + n).

Lemma digit_spec n : 0 <= n < 10 ->
  IS_DIGIT (digit n) = true /\ digit_val (digit n) = n /\ (is_ch "0" (digit n) = true <-> n = 0).
Proof.
  intros Hn.
  assert (H : IS_DIGIT (digit n) && (digit_val (digit n) =? n) && Bool.eqb (is_ch "0" (digit n)) (n =? 0) = true)
    by (revert n Hn; by apply (forall_range 10)).
  rewrite !andb_true_iff, Bool.eqb_true_iff in H. destruct H as [[H1 H2] H3]. split_and!; [done|lia|].
  rewrite H3. lia.
Qed.

Lemma digit_of c : IS_DIGIT c = true -> digit (digit_val c) = c.
Proof.
  intros Hc. assert (H : implb (IS_DIGIT c) (bool_decide (digit (digit_val c) = c)) = true).
  { clear Hc. revert c. by apply forall_char. }
  rewrite Hc in H. by apply bool_decide_eq_true in H.
Qed.

Lemma num_shift l acc : num acc l = acc * 10 ^ Z.of_nat (length l) + num 0 l.
Proof.
  revert acc. induction l as [|c l IH]; intros acc; [cbn; lia|].
  change (num (10 * acc + digit_val c) l = acc * 10 ^ Z.of_nat (S (length l)) + num (10 * 0 + digit_val c) l).
  rewrite (IH (10 * acc + _)), (IH (10 * 0 + _)), Nat2Z.inj_succ, Z.pow_succ_r by lia. ring.
Qed.

Lemma num_app l1 l2 : num 0 (l1 ++ l2) = num 0 l1 * 10 ^ Z.of_nat (length l2) + num 0 l2.
Proof. unfold num at 1. rewrite foldl_app. apply num_shift. Qed.

Lemma num_range l : all_digits l -> 0 <= num 0 l < 10 ^ Z.of_nat (length l).
Proof.
  induction 1 as [|c l Hc _ IH]; [cbn; lia|].
  change (num 0 (c :: l)) with (num (10 * 0 + digit_val c) l). rewrite num_shift.
  apply digit_range in Hc. cbn [length]. rewrite Nat2Z.inj_succ, Z.pow_succ_r by lia.
  assert (0 < 10 ^ Z.of_nat (length l)) by (apply Z.pow_pos_nonneg; lia). nia.
Qed.

Lemma read_digits_num l acc : all_digits l -> read_digits acc l = num acc l.
Proof.
  intros H. revert acc. induction H as [|c l Hc _ IH]; intros acc; [done|]. cbn. by rewrite Hc, IH.
Qed.

(** [digits] prints the canonical numeral. *)
Lemma digits_spec f n : 0 <= n < 10 ^ Z.of_nat (S f) ->
  all_digits (digits (S f) n) /\ num 0 (digits (S f) n) = n /\ (length (digits (S f) n) <= S f)%nat
  /\ digits (S f) n <> [] /\ (is_ch "0" (peek (digits (S f) n)) = true <-> n = 0).
Proof.
  revert n. induction f as [|f IH]; intros n Hn.
  - change (digits 1 n) with ((if n <? 10 then [] else digits 0 (n / 10)) ++ [digit (n mod 10)]).
    change (10 ^ Z.of_nat 1) with 10 in Hn.
    assert (Hlt : (n <? 10) = true) by lia. rewrite Hlt. rewrite Z.mod_small by lia.
    destruct (digit_spec n Hn) as (H1 & H2 & H3). cbn [app].
    split_and!; [by constructor|cbn; rewrite H2; lia|cbn; lia|done|done].
  - assert (Hm : 0 <= n mod 10 < 10) by mod_lia.
    destruct (digit_spec _ Hm) as (H1 & H2 & H3).
    change (digits (S (S f)) n) with ((if n <? 10 then [] else digits (S f) (n / 10)) ++ [digit (n mod 10)]).
    destruct (Z.ltb_spec n 10) as [Hlt|Hge].
    + cbn [app]. rewrite Z.mod_small in * by lia.
      split_and!; [by constructor|cbn; lia|cbn; lia|done|done].
    + destruct (IH (n / 10)) as (G1 & G2 & G3 & G4 & G5).
      { rewrite Nat2Z.inj_succ, Z.pow_succ_r in Hn by lia. split; [mod_lia|].
        apply Z.div_lt_upper_bound; lia. }
      split_and!.
      * apply Forall_app. split; [done|by constructor].
      * rewrite num_app, G2. change (num 0 [digit (n mod 10)]) with (10 * 0 + digit_val (digit (n mod 10))).
        rewrite H2. cbn [length]. change (10 ^ Z.of_nat 1) with 10. mod_lia.
      * rewrite length_app. cbn [length]. lia.
      * by destruct (digits (S f) (n / 10)).
      * destruct (digits (S f) (n / 10)) as [|c0 r] eqn:E; [done|]. cbn [app] in *. unfold peek in *. cbn [head default] in *.
        rewrite G5. split; intros; mod_lia.
Qed.

(** A numeral without a leading zero is the one [digits] prints. *)
Lemma digits_num f l : all_digits l -> l <> [] -> (length l <= S f)%nat ->
  (is_ch "0" (peek l) = true -> length l = 1%nat) -> digits (S f) (num 0 l) = l.
Proof.
  revert l. induction f as [|f IH]; intros l Hd Hne Hlen Hz.
  - destruct l as [|c [|c' l]]; [done| |cbn in Hlen; lia].
    inversion Hd as [|? ? Hc _]; subst. pose proof (digit_range c Hc).
    replace (num 0 [c]) with (digit_val c) by (cbn -[digit_val]; lia). set (n := digit_val c) in *.
    change (digits 1 n) with ((if n <? 10 then [] else digits 0 (n / 10)) ++ [digit (n mod 10)]).
    assert (E : (n <? 10) = true) by lia. rewrite E, Z.mod_small by lia.
    cbn [app]. f_equal. by apply digit_of.
  - destruct l as [|c l _] using rev_ind; [done|].
    apply Forall_app in Hd as [Hd Hc]. inversion Hc as [|? ? Hc' _]; subst.
    rewrite num_app. cbn [length num foldl]. change (10 ^ Z.of_nat 1) with 10.
    pose proof (digit_range c Hc'). pose proof (num_range l Hd).
    set (n := num 0 l * 10 + (10 * 0 + digit_val c)).
    change (digits (S (S f)) n) with ((if n <? 10 then [] else digits (S f) (n / 10)) ++ [digit (n mod 10)]).
    replace (n mod 10) with (digit_val c) by (unfold n; mod_lia). rewrite (digit_of c) by done.
    replace (n / 10) with (num 0 l) by (unfold n; mod_lia). f_equal.
    destruct l as [|c0 l].
    + cbn in n. destruct (Z.ltb_spec n 10) as [|Hx]; [done|subst n; lia].
    + rewrite length_app in Hlen, Hz. cbn [length] in Hlen, Hz. cbn [app] in Hz.
      change (peek (c0 :: (l ++ [c]))) with c0 in Hz.
      assert (Hz0 : is_ch "0" c0 = false).
      { destruct (is_ch "0" c0) eqn:E; [|done]. specialize (Hz eq_refl). lia. }
      assert (Hpos : 0 < num 0 (c0 :: l)).
      { change (num 0 (c0 :: l)) with (num (10 * 0 + digit_val c0) l). rewrite num_shift.
        inversion Hd as [|? ? Hd0 Hdl]; subst. pose proof (digit_range c0 Hd0) as Hr.
        assert (digit_val c0 <> 0).
        { intros E. rewrite <- (digit_of c0 Hd0), E in Hz0. done. }
        pose proof (num_range l Hdl). assert (0 < 10 ^ Z.of_nat (length l)) by (apply Z.pow_pos_nonneg; lia). nia. }
      destruct (Z.ltb_spec n 10) as [Hlt|Hge]; [unfold n in Hlt; lia|].
      apply IH; [done|done|cbn; lia|]. change (peek (c0 :: l)) with c0. congruence.
Qed.

Lemma digits_fuel f g n : (g <= f)%nat -> 0 <= n < 10 ^ Z.of_nat (S g) -> digits (S f) n = digits (S g) n.
Proof.
  intros Hgf Hn. destruct (digits_spec g n Hn) as (H1 & H2 & H3 & H4 & H5).
  rewrite <- H2 at 1. apply digits_num; [done|done|lia|].
  intros ->%H5. done.
Qed.

Lemma digits_length f g n : (g <= f)%nat -> 0 <= n < 10 ^ Z.of_nat (S g) -> (length (digits (S f) n) <= S g)%nat.
Proof. intros Hgf Hn. rewrite (digits_fuel f g) by done. by apply digits_spec. Qed.

Lemma digit_not c : IS_DIGIT c = true ->
  isspace c = false /\ is_ch "-" c = false /\ is_ch "+" c = false /\ is_ch "." c = false /\ is_ch NUL c = false.
Proof.
  intros Hc.
  assert (H : implb (IS_DIGIT c) (negb (isspace c) && negb (is_ch "-" c) && negb (is_ch "+" c)
    && negb (is_ch "." c) && negb (is_ch NUL c)) = true).
  { clear Hc. revert c. by apply forall_char. }
  rewrite Hc in H. cbn [implb] in H. rewrite !andb_true_iff, !negb_true_iff in H. tauto.
Qed.

Lemma strtoll_digits l : all_digits l -> l <> [] -> strtoll l = Z.min int64_max (num 0 l).
Proof.
  intros Hd Hne. destruct l as [|c l]; [done|]. inversion Hd as [|? ? Hc _]; subst.
  destruct (digit_not c Hc) as (H1 & H2 & H3 & _).
  unfold strtoll. cbn [skip]. rewrite H1. change (peek (c :: l)) with c. rewrite H2, H3.
  by rewrite read_digits_num.
Qed.

Lemma strtoll_minus l : all_digits l -> strtoll ("-"%char :: l) = Z.max int64_min (- num 0 l).
Proof.
  intros Hd. unfold strtoll. change (skip isspace ("-"%char :: l)) with ("-"%char :: l).
  change (is_ch "-" (peek ("-"%char :: l))) with true. cbn iota beta. cbn [tail].
  by rewrite read_digits_num.
Qed.

Lemma strtoll_range l : is_s64 (strtoll l).
Proof.
  unfold strtoll, is_s64. set (p := skip isspace l).
  assert (Hr : forall acc m, 0 <= acc -> 0 <= read_digits acc m).
  { intros acc m. revert acc. induction m as [|c m IH]; intros acc Ha; [done|]. cbn.
    destruct (IS_DIGIT c) eqn:E; [|done]. apply IH. apply digit_range in E. lia. }
  destruct (is_ch "-" (peek p)); [|destruct (is_ch "+" (peek p))];
    match goal with |- context [read_digits 0 ?q] => pose proof (Hr 0 q ltac:(lia)) end;
    unfold int64_min, int64_max in *; lia.
Qed.

(** Printing and reading back. *)
Lemma Stoi64_ToString n : is_s64 n -> Stoi64 (ToString n) = n.
Proof.
  unfold is_s64, Stoi64, ToString. intros Hn.
  destruct (Z.ltb_spec n 0) as [Hneg|Hpos].
  - destruct (digits_spec 19 (- n)) as (H1 & H2 & _); [unfold int64_min, int64_max in *; lia|].
    rewrite bool_decide_false, strtoll_minus, H2 by done. unfold int64_min, int64_max in *. lia.
  - destruct (digits_spec 19 n) as (H1 & H2 & _ & H4 & _); [unfold int64_min, int64_max in *; lia|].
    rewrite bool_decide_false, strtoll_digits, H2 by done. unfold int64_min, int64_max in *. lia.
Qed.

Lemma sto_loop_digits m l : 0 < m -> all_digits l -> forall v used, 0 <= v < m ->
  sto_loop (fun z => z mod m) v used l = num v l mod m.
Proof.
  intros Hm. induction 1 as [|c l Hc _ IH]; intros v used Hv; [cbn; by rewrite Z.mod_small|].
  cbn [sto_loop]. rewrite Hc. rewrite IH by (apply Z.mod_pos_bound; lia).
  change (num v (c :: l)) with (num (10 * v + digit_val c) l).
  rewrite num_shift, (num_shift l (10 * v + digit_val c)).
  rewrite <- Zplus_mod, <- (Zplus_mod_idemp_l (_ mod m * _)), Zmult_mod_idemp_l, Zplus_mod_idemp_l.
  by rewrite (Z.mul_comm v 10).
Qed.

Lemma Sto_u_ToString m n : 0 < m <= 2 ^ 64 -> 0 <= n < m ->
  sto_loop (fun z => z mod m) 0 false (ToString n) = n.
Proof.
  intros Hm Hn. unfold ToString. destruct (Z.ltb_spec n 0); [lia|].
  destruct (digits_spec 19 n) as (H1 & H2 & _); [change (2 ^ 64) with W64 in *; lia|].
  rewrite sto_loop_digits, H2, Z.mod_small by (done || lia). done.
Qed.

Lemma ToString_ne n : ToString n <> [].
Proof.
  unfold ToString. destruct (n <? 0); [done|].
  change (digits 20 n) with ((if n <? 10 then [] else digits 19 (n / 10)) ++ [digit (n mod 10)]).
  by intros [_ ?]%app_eq_nil.
Qed.

Lemma ToString_length k n : (k <= 19)%nat -> - 10 ^ Z.of_nat (S k) < n < 10 ^ Z.of_nat (S k) ->
  (length (ToString n) <= if (n <? 0)%Z then S (S k) else S k)%nat.
Proof.
  intros Hk Hn. unfold ToString. destruct (Z.ltb_spec n 0); cbn [length];
    pose proof (digits_length 19 k (Z.abs n)); [rewrite Z.abs_neq in *|rewrite Z.abs_eq in *]; lia.
Qed.

Lemma sto_range m l v used : 0 < m -> 0 <= v < m -> 0 <= sto_loop (fun z => z mod m) v used l < m.
Proof.
  intros Hm. revert v used. induction l as [|c l IH]; intros v used Hv; [done|]. cbn.
  destruct (IS_DIGIT c); [apply IH, Z.mod_pos_bound; lia|]. by destruct (negb (IsSpace c) || used); [|apply IH].
Qed.

Lemma u64_s64 n : is_u64 n -> u64 (s64 n) = n.
Proof. unfold is_u64, u64, s64. intros. mod_lia. Qed.

(** The shape of the four checked conversions. *)
Lemma safe_sto_shape (limit : nat) (sto : list ascii -> Z) (P : Z -> Prop) s n :
  (forall t, P (sto t)) -> (forall m, P m -> sto (ToString m) = m /\ (length (ToString m) <= limit)%nat) ->
  (if (limit <? length s)%nat then None
   else let k := sto s in if bool_decide (s = ToString k) then Some k else None) = Some n
  <-> s = ToString n /\ P n.
Proof.
  intros HP Hsto. split.
  - destruct (limit <? length s)%nat; [done|]. cbv zeta. case_bool_decide as Hs; [|done].
    intros [= <-]. auto.
  - intros [-> Hn]. destruct (Hsto n Hn) as [E L].
    destruct (Nat.ltb_spec limit (length (ToString n))); [lia|]. cbv zeta. rewrite E.
    by rewrite bool_decide_true.
Qed.

(** [SafeStoi64] by that shape. *)
Lemma SafeSto_shape64 s n : SafeStoi64 s = Some n <-> s = ToString n /\ is_s64 n.
Proof.
  apply (safe_sto_shape 20 Stoi64 is_s64).
  - intros t. unfold Stoi64. case_bool_decide; [unfold is_s64, int64_min, int64_max; lia|apply strtoll_range].
  - intros m Hm. split; [by apply Stoi64_ToString|]. unfold is_s64, int64_min, int64_max in Hm.
    pose proof (ToString_length 18 m). destruct (m <? 0); lia.
Qed.

(** The checked conversions are exact: SafeStoi, SafeStoui, SafeStoi64 and SafeStoui64
    accept a text exactly when it is the canonical decimal numeral of an integer of
    the type (no blanks, plus sign, leading zeros or overflow), and return that integer. *)
Theorem SafeSto_exact s n :
  (SafeStoi s = Some n <-> s = ToString n /\ -2147483648 <= n < 2147483648)
  /\ (SafeStoui s = Some n <-> s = ToString n /\ 0 <= n < W32)
  /\ (SafeStoi64 s = Some n <-> s = ToString n /\ is_s64 n)
  /\ (SafeStoui64 s = Some n <-> s = ToString n /\ is_u64 n).
Proof.
  split_and!.
  - apply (safe_sto_shape 11 Stoi (fun n => -2147483648 <= n < 2147483648)).
    + intros t. unfold Stoi. case_bool_decide; [lia|]. unfold s32. mod_lia.
    + intros m Hm. split.
      * assert (E : Stoi64 (ToString m) = m) by (apply Stoi64_ToString; unfold is_s64, int64_min, int64_max; lia).
        unfold Stoi, Stoi64 in *. rewrite bool_decide_false in * by apply ToString_ne. rewrite E.
        unfold s32. mod_lia.
      * pose proof (ToString_length 9 m). destruct (m <? 0); lia.
  - apply (safe_sto_shape 10 Stoui (fun n => 0 <= n < W32)).
    + intros t. unfold Stoui. case_bool_decide; [lia|]. by apply (sto_range W32).
    + intros m Hm. split.
      * unfold Stoui. rewrite bool_decide_false by apply ToString_ne. by apply (Sto_u_ToString W32).
      * pose proof (ToString_length 9 m). destruct (Z.ltb_spec m 0); lia.
  - apply SafeSto_shape64.
  - apply (safe_sto_shape 20 (fun t => u64 (Stoui64 t)) is_u64).
    + intros t. apply u64_range.
    + intros m Hm. split.
      * unfold Stoui64. rewrite bool_decide_false by apply ToString_ne.
        change (u64 (s64 (sto_loop (fun z => z mod W64) 0 false (ToString m))) = m).
        rewrite Sto_u_ToString by (unfold is_u64 in Hm; lia). by apply u64_s64.
      * unfold is_u64 in Hm. pose proof (ToString_length 19 m). destruct (Z.ltb_spec m 0); lia.
Qed.

(** Hexadecimal texts round-trip: BinToHexString produces a valid lower-case hexadecimal
    text that HexStringToBin decodes to the original bytes, and re-encoding the decoding
    of any hexadecimal text (of either case) gives that text in lower case. *)
Theorem hex_roundtrip (s h : list ascii) (force_little : bool) :
  HexStringToBin (BinToHexString s) force_little = s
  /\ HexStringToBin_out (BinToHexString s) = Some s
  /\ (forall r, HexStringToBin_out h = Some r -> BinToHexString r = ToLower h).
Proof.
  assert (Heven : (length (BinToHexString s) mod 2 =? 0)%nat = true).
  { rewrite length_BinToHex, Nat.mul_comm, Nat.Div0.mod_mul. done. }
  assert (Hdec : forall b, HexStringToBin (BinToHexString s) b = s).
  { intros b. unfold HexStringToBin. rewrite Heven. cbn [negb orb]. rewrite hex_loop_BinToHex.
    case_bool_decide as Hs; [|done]. destruct s; [done|]. apply (f_equal length) in Hs.
    by rewrite length_BinToHex in Hs. }
  split_and!.
  - apply Hdec.
  - unfold HexStringToBin_out, IsHexString. rewrite Heven. cbn [negb].
    pose proof (BinToHex_is_hex s) as Hx. unfold is_hex in Hx. rewrite Hx. cbn [negb]. by rewrite Hdec.
  - intros r. unfold HexStringToBin_out, IsHexString, HexStringToBin.
    destruct (length h mod 2 =? 0)%nat eqn:E; [|done]. cbn [negb orb].
    destruct (forallb _ h) eqn:Eh; [|done]. cbn [negb]. apply Nat.eqb_eq in E.
    destruct (hex_loop_spec h E Eh) as (r' & -> & Hr'). case_bool_decide; intros [= <-]; [by subst|done].
Qed.

(** ** Trimming *)

Definition spaces l : Prop := Forall (fun c => IsSpace c = true) l.

Lemma left_pos_spec s : (left_pos s <= length s)%nat /\ spaces (take (left_pos s) s)
  /\ (forall c, s !! left_pos s = Some c -> IsSpace c = false).
Proof.
  induction s as [|c s (H1 & H2 & H3)]; [split_and!; [done|by constructor|done]|].
  cbn. destruct (IsSpace c) eqn:E; cbn; split_and!; try lia; [by constructor|done|by constructor|].
  intros c' [= <-]. done.
Qed.

Lemma right_pos_spec s (l r : nat) : (l <= r < length s)%nat -> (forall c, s !! l = Some c -> IsSpace c = false) ->
  let p := right_pos s l r in (l <= p <= r)%nat
  /\ (forall c, s !! p = Some c -> IsSpace c = false)
  /\ (forall i c, (p < i <= r)%nat -> s !! i = Some c -> IsSpace c = true).
Proof.
  intros Hr Hl. cbv zeta. induction r as [|r IH]; cbn [right_pos].
  - replace l with 0%nat in * by lia. cbn [Nat.leb andb].
    destruct (s !! 0%nat) as [c|] eqn:E; [|split_and!; [lia|lia|by rewrite E|intros; lia]].
    rewrite (Hl c eq_refl). split_and!; [lia|lia|by rewrite E|intros; lia].
  - destruct (Nat.leb_spec l (S r)); [|lia]. cbn [andb].
    destruct (lookup_lt_is_Some_2 s (S r)) as [c Hc]; [lia|]. rewrite Hc.
    destruct (IsSpace c) eqn:Ec.
    + assert (l <> S r) by (intros ->; specialize (Hl c Hc); congruence). destruct IH as (I1 & I2 & I3); [lia|].
      split_and!; [lia|lia|done|]. intros i c' Hi Hi'.
      destruct (decide (i = S r)) as [->|]; [congruence|]. apply (I3 i); [lia|done].
    + split_and!; [lia|lia|naive_solver|]. intros; lia.
Qed.

Lemma spaces_drop s p : (forall i c, (p <= i < length s)%nat -> s !! i = Some c -> IsSpace c = true) ->
  spaces (drop p s).
Proof.
  intros H. apply Forall_lookup. intros i c. rewrite lookup_drop. intros Hi.
  apply (H (p + i)%nat); [|done]. apply lookup_lt_Some in Hi. lia.
Qed.

Lemma cut_split s (l r : nat) : (l <= r < length s)%nat -> s = take l s ++ cut s l r ++ drop (S r) s.
Proof.
  intros H. unfold cut, substr. destruct (Nat.ltb_spec r l); [lia|].
  rewrite <- (take_drop l s) at 1. f_equal.
  rewrite <- (take_drop (r - l + 1) (drop l s)) at 1. f_equal. rewrite drop_drop. f_equal. lia.
Qed.

Lemma cut_ends s (l r : nat) c : (l <= r < length s)%nat ->
  (head (cut s l r) = Some c -> s !! l = Some c) /\ (last (cut s l r) = Some c -> s !! r = Some c).
Proof.
  intros H. unfold cut, substr. destruct (Nat.ltb_spec r l); [lia|]. split.
  - rewrite head_lookup, lookup_take_lt, lookup_drop by lia. by rewrite Nat.add_0_r.
  - rewrite last_lookup, length_take, length_drop. rewrite lookup_take_lt, lookup_drop by lia.
    intros <-. f_equal. lia.
Qed.

Lemma Trim_run s : s <> [] -> exists a b, s = a ++ Trim s ++ b /\ spaces a /\ spaces b
  /\ forall c, head (Trim s) = Some c \/ last (Trim s) = Some c -> IsSpace c = false.
Proof.
  intros Hne. unfold Trim. rewrite !bool_decide_false by done.
  destruct (left_pos_spec s) as (Hl & Hsp & Hns).
  assert (Hlen : (0 < length s)%nat) by (destruct s; [done|cbn; lia]).
  set (l := left_pos s) in *. cbv zeta. destruct (decide (l = length s)) as [E|E].
  - assert (Er : cut s l (right_pos s l (length s - 1)) = []).
    { assert (Hx : right_pos s l (length s - 1) = (length s - 1)%nat).
      { destruct (length s - 1)%nat as [|n] eqn:En; cbn [right_pos];
          [destruct (Nat.leb_spec l 0)|destruct (Nat.leb_spec l (S n))]; try lia; done. }
      rewrite Hx. unfold cut. destruct (Nat.ltb_spec (length s - 1) l); [done|lia]. }
    rewrite Er. exists s, []. rewrite E, firstn_all in Hsp.
    split_and!; [by rewrite !app_nil_r|done|by constructor|]. naive_solver.
  - destruct (right_pos_spec s l (length s - 1)) as (P1 & P2 & P3); [lia|done|].
    set (p := right_pos s l (length s - 1)) in *.
    exists (take l s), (drop (S p) s). split_and!; [apply cut_split; lia|done| |].
    + apply spaces_drop. intros i c Hi. apply P3. lia.
    + intros c Hc. destruct (cut_ends s l p c) as [C1 C2]; [lia|]. destruct Hc; auto.
Qed.

Lemma right_pos_all_spaces s r : spaces s -> (r < length s)%nat -> right_pos s 0 r = 0%nat.
Proof.
  intros Hall. induction r as [|r IHr]; intros Hr; cbn [right_pos Nat.leb andb];
    [by destruct (match s !! 0%nat with Some _ => _ | None => _ end)|].
  destruct (lookup_lt_is_Some_2 s (S r)) as [c Hc]; [lia|]. rewrite Hc.
  unfold spaces in Hall. rewrite Forall_lookup in Hall. rewrite (Hall _ _ Hc). apply IHr. lia.
Qed.

Lemma right_pos_from_0 s r : (left_pos s <= r < length s)%nat -> right_pos s 0 r = right_pos s (left_pos s) r.
Proof.
  destruct (left_pos_spec s) as (_ & _ & Hns). induction r as [|r IHr]; intros Hr.
  - by replace (left_pos s) with 0%nat by lia.
  - cbn [right_pos]. destruct (Nat.leb_spec (left_pos s) (S r)); [|lia]. cbn [Nat.leb andb].
    destruct (s !! S r) as [c|] eqn:Ec; [|done]. destruct (IsSpace c) eqn:Es; [|done].
    apply IHr. assert (left_pos s <> S r) by (intros E; rewrite <- E in Ec; specialize (Hns c Ec); congruence). lia.
Qed.

Lemma TrimRight_run s : s <> [] -> ~ spaces s -> exists b, s = TrimRight s ++ b /\ spaces b
  /\ forall c, last (TrimRight s) = Some c -> IsSpace c = false.
Proof.
  intros Hne Hall. unfold TrimRight. rewrite bool_decide_false by done.
  destruct (left_pos_spec s) as (Hl & Hsp & Hns).
  assert (Hlx : left_pos s <> length s) by (intros E; by rewrite E, firstn_all in Hsp).
  rewrite right_pos_from_0 by lia.
  destruct (right_pos_spec s (left_pos s) (length s - 1)) as (P1 & P2 & P3); [lia|done|].
  set (p := right_pos s (left_pos s) (length s - 1)) in *.
  exists (drop (S p) s). split_and!; [apply (cut_split s 0 p); lia| |].
  - apply spaces_drop. intros i c Hi. apply P3. lia.
  - intros c Hc. destruct (cut_ends s 0 p c) as [_ C2]; [lia|]. auto.
Qed.

(** Trim removes exactly the surrounding white space, whatever the text: the text is the
    result with white space before and after it, and the result neither begins nor
    ends with white space. TrimRight does the same on the right, except that a
    text of only white space keeps its first character. *)
Theorem Trim_spec s :
  (exists a b, s = a ++ Trim s ++ b /\ spaces a /\ spaces b
     /\ forall c, head (Trim s) = Some c \/ last (Trim s) = Some c -> IsSpace c = false)
  /\ (if decide (spaces s) then TrimRight s = take 1 s
      else exists b, s = TrimRight s ++ b /\ spaces b
             /\ forall c, last (TrimRight s) = Some c -> IsSpace c = false).
Proof.
  destruct (decide (s = [])) as [->|Hne].
  { split; [exists [], []|by rewrite decide_True by constructor].
    split_and!; [done|constructor|constructor|]. by intros c [|]. }
  split; [by apply Trim_run|]. case_decide as Hall; [|by apply TrimRight_run].
  assert (Hlt : (length s - 1 < length s)%nat) by (destruct s; [done|cbn; lia]).
  unfold TrimRight. rewrite bool_decide_false, right_pos_all_spaces by done.
  unfold cut, substr. by rewrite drop_0.
Qed.

(** ** Decimal amounts *)

(** [s] is an amount with the integer part [ip] and the fraction [fp] of at most
    [d] digits: no sign, no superfluous leading zero, a dot only before a
    fraction; the integer part may be missing. *)
Definition amount_text (d : nat) s ip fp : Prop :=
  all_digits ip /\ all_digits fp /\ (length fp <= d)%nat
  /\ (is_ch "0" (peek ip) = true -> ip = lit "0") /\ (ip = [] -> fp <> [])
  /\ s = ip ++ (match fp with [] => [] | _ => "."%char :: fp end).

(** Its value in units of [10 ^ -d]. *)
Definition amount (d : nat) ip fp : Z :=
  num 0 ip * 10 ^ Z.of_nat d + num 0 fp * 10 ^ Z.of_nat (d - length fp).

Lemma dec_scan_some i p s dp : dec_scan i (Some p) s = Some dp <-> all_digits s /\ dp = Some p.
Proof.
  revert i. induction s as [|c s IH]; intros i; cbn [dec_scan].
  - split; [intros [= <-]; split; [constructor|done]|by intros [_ ->]].
  - unfold all_digits. rewrite Forall_cons. destruct (IS_DIGIT c) eqn:Ed; cbn [negb andb].
    + destruct (digit_not c Ed) as (_ & _ & _ & -> & _). rewrite IH. unfold all_digits. tauto.
    + destruct (is_ch "." c) eqn:E; cbn [negb]; (split; [done|]; intros [[? _] _]; done).
Qed.

Lemma dec_scan_none i s dp : dec_scan i None s = Some dp <->
  match dp with
  | None => all_digits s
  | Some p => exists ip fp, s = ip ++ "."%char :: fp /\ all_digits ip /\ all_digits fp /\ p = (i + length ip)%nat
  end.
Proof.
  revert i. induction s as [|c s IH]; intros i; cbn [dec_scan].
  - destruct dp as [p|]; split; try done; [intros ([|] & fp & ? & _); done|constructor].
  - destruct (IS_DIGIT c) eqn:Ed; cbn [negb andb].
    + destruct (digit_not c Ed) as (_ & _ & _ & Edot & _). rewrite Edot, IH. destruct dp as [p|].
      * split; [intros (ip & fp & -> & ? & ? & ->); exists (c :: ip), fp; split_and!; try done;
                  [by constructor|cbn [length]; lia]|].
        intros ([|c' ip] & fp & E & Hip & ? & ->); cbn in E; injection E as -> ->; [done|].
        inversion Hip; subst. exists ip, fp. split_and!; try done. cbn [length]. lia.
      * unfold all_digits. rewrite Forall_cons. tauto.
    + destruct (is_ch "." c) eqn:E; cbn [negb].
      * apply bool_decide_eq_true in E as <-. rewrite dec_scan_some. split.
        { intros [Hs ->]. exists [], s. split_and!; [done|constructor|done|cbn; lia]. }
        destruct dp as [p|]; [|intros [? _]%Forall_cons; done].
        intros ([|c' ip] & fp & E & Hip & ? & ->); simplify_eq/=; [|inversion Hip; subst; done].
        split; [done|]. f_equal. lia.
      * split; [done|]. destruct dp as [p|]; [|by intros [? _]%Forall_cons; congruence].
        intros ([|c' ip] & fp & E' & Hip & _); simplify_eq/=.
        inversion Hip; subst; congruence.
Qed.

(** The tests of [IsDecNumber] say that the text is an amount. *)
Lemma IsDecNumber_sound d s : IsDecNumber s d = true -> exists ip fp, amount_text d s ip fp.
Proof.
  unfold IsDecNumber, amount_text. destruct s as [|c0 s]; [done|].
  destruct (is_ch "." (default NUL (last (c0 :: s)))) eqn:Elast; [done|].
  destruct (dec_scan 0 None (c0 :: s)) as [dp|] eqn:Escan; [|done]. apply dec_scan_none in Escan.
  destruct (_ && negb (bool_decide (c0 :: s = lit "0"))) eqn:Ez; [done|]. intros Hlen.
  destruct dp as [p|].
  - destruct Escan as (ip & fp & Es & Hip & Hfp & ->). cbn [Nat.add] in *.
    assert (Hne : fp <> []).
    { intros ->. rewrite Es, last_snoc in Elast. done. }
    exists ip, fp. split_and!; try done.
    + rewrite Es, length_app in Hlen. cbn [length] in Hlen. apply negb_true_iff, Nat.ltb_ge in Hlen. lia.
    + intros Hz. destruct ip as [|i0 ip]; [done|]. cbn in Es. injection Es as -> ->.
      apply bool_decide_eq_true in Hz. change (peek (i0 :: ip)) with i0 in Hz. subst i0.
      change (is_ch "0" "0") with true in Ez. cbn [andb] in Ez. rewrite andb_false_iff in Ez. destruct Ez as [Ez|Ez].
      * rewrite negb_false_iff, bool_decide_eq_true in Ez. by destruct ip.
      * rewrite negb_false_iff, bool_decide_eq_true in Ez. by destruct ip.
    + by destruct fp.
  - exists (c0 :: s), []. split_and!; try done; [constructor|cbn; lia| |by rewrite app_nil_r].
    intros Hz. change (peek (c0 :: s)) with c0 in Hz. rewrite Hz in Ez. cbn [andb] in Ez.
    rewrite bool_decide_false in Ez by done. cbn [negb andb] in Ez.
    by rewrite negb_false_iff, bool_decide_eq_true in Ez.
Qed.

Lemma last_digit_not_dot l x : all_digits (l ++ [x]) -> is_ch "." x = false.
Proof. intros [_ H]%Forall_app. inversion H; subst. by apply digit_not. Qed.

Lemma IsDecNumber_complete d s ip fp : amount_text d s ip fp -> IsDecNumber s d = true.
Proof.
  intros (Hip & Hfp & Hlen & Hz & Hne & Es). unfold IsDecNumber.
  assert (Hlast : is_ch "." (default NUL (last s)) = false).
  { subst s. destruct fp as [|f fp _] using rev_ind.
    - rewrite app_nil_r. destruct ip as [|i ip _] using rev_ind; [done|].
      rewrite last_snoc. by apply (last_digit_not_dot ip).
    - destruct (fp ++ [f]) as [|x y] eqn:E; [by destruct fp|]. rewrite <- E in *.
      rewrite app_comm_cons, app_assoc, last_snoc. by apply (last_digit_not_dot fp). }
  destruct s as [|c0 s].
  { destruct ip, fp; try done. by specialize (Hne eq_refl). }
  rewrite Hlast. destruct fp as [|f fp].
  - rewrite app_nil_r in Es. subst ip. rewrite (proj2 (dec_scan_none 0 (c0 :: s) None) Hip).
    change (peek (c0 :: s)) with c0 in Hz. destruct (is_ch "0" c0); [|done].
    specialize (Hz eq_refl). rewrite Hz. done.
  - assert (Hscan : dec_scan 0 None (c0 :: s) = Some (Some (length ip))).
    { apply dec_scan_none. exists ip, (f :: fp). by split_and!. }
    rewrite Hscan. apply (f_equal length) in Es as El. rewrite length_app in El. cbn [length] in El.
    assert (Hfin : negb (d <? length (c0 :: s) - length ip - 1)%nat = true).
    { apply negb_true_iff, Nat.ltb_ge. cbn [length] in *. lia. }
    destruct ip as [|i0 ip]; cbn in Es; injection Es as -> ->; [by rewrite Hfin|].
    change (peek (i0 :: ip)) with i0 in Hz. destruct (is_ch "0" i0); [|by rewrite Hfin].
    specialize (Hz eq_refl). injection Hz as -> ->. by rewrite Hfin.
Qed.

Lemma find_char_digits ip rest : all_digits ip ->
  find_char "." (ip ++ "."%char :: rest) = Some (length ip).
Proof.
  induction 1 as [|c l Hc _ IH]; [done|]. cbn [app find_char].
  destruct (digit_not c Hc) as (_ & _ & _ & -> & _). rewrite IH. done.
Qed.

Lemma find_char_none ip : all_digits ip -> find_char "." ip = None.
Proof.
  induction 1 as [|c l Hc _ IH]; [done|]. cbn [find_char].
  destruct (digit_not c Hc) as (_ & _ & _ & -> & _). by rewrite IH.
Qed.

Lemma erase_mid ip c rest : erase1 (length ip) (ip ++ c :: rest) = ip ++ rest.
Proof. unfold erase1. by rewrite take_app_length, drop_app_ge, Nat.sub_succ_l, Nat.sub_diag by lia. Qed.

Lemma repeat_zeros k : all_digits (repeat "0"%char k) /\ num 0 (repeat "0"%char k) = 0.
Proof.
  induction k as [|k [H1 H2]]; [split; [constructor|done]|]. split; [by constructor|]. exact H2.
Qed.

(** The digits of an amount before the leading zeros go. *)
Definition scaled (d : nat) ip fp : list ascii := ip ++ fp ++ repeat "0"%char (d - length fp).

Lemma scaled_spec d s ip fp : amount_text d s ip fp ->
  all_digits (scaled d ip fp) /\ num 0 (scaled d ip fp) = amount d ip fp.
Proof.
  intros (Hip & Hfp & Hlen & _). destruct (repeat_zeros (d - length fp)) as [Hr Er].
  unfold scaled, amount. split; [by repeat (apply Forall_app; split)|].
  rewrite !num_app, Er, length_app, !repeat_length.
  replace (length fp + (d - length fp))%nat with d by lia. lia.
Qed.

Lemma zeros_pos_spec l : all_digits l ->
  all_digits (drop (zeros_pos l) l) /\ num 0 (drop (zeros_pos l) l) = num 0 l
  /\ is_ch "0" (peek (drop (zeros_pos l) l)) = false /\ (length (drop (zeros_pos l) l) <= length l)%nat.
Proof.
  induction 1 as [|c l Hc Hl (I1 & I2 & I3 & I4)]; [split_and!; try done; constructor|]. cbn [zeros_pos].
  destruct (is_ch "0" c) eqn:E; cbn [drop].
  - apply bool_decide_eq_true in E as <-. split_and!; [done|by rewrite I2|done|cbn [length]; lia].
  - split_and!; [by constructor|done|done|done].
Qed.

Lemma MultiplyDecimal_run d s ip fp : amount_text d s ip fp ->
  MultiplyDecimal s d = drop (zeros_pos (scaled d ip fp)) (scaled d ip fp).
Proof.
  intros Ha. destruct (scaled_spec d s ip fp Ha) as [Hsd _].
  destruct Ha as (Hip & Hfp & Hlen & _ & _ & ->). unfold MultiplyDecimal.
  set (v := match find_char "." _ with None => _ | Some p => _ end).
  assert (Hv : v = scaled d ip fp).
  { unfold v, scaled. destruct fp as [|f fp].
    - rewrite app_nil_r, find_char_none by done. cbn [length app]. by rewrite Nat.sub_0_r.
    - rewrite find_char_digits, length_app by done. set (r := f :: fp) in *.
      replace (length ip + length ("."%char :: r) - length ip - 1)%nat with (length r) by (cbn [length]; lia).
      destruct (Nat.leb_spec (length r) d); [|lia]. by rewrite erase_mid, app_assoc. }
  rewrite Hv. cbv zeta. destruct (scaled d ip fp !! zeros_pos (scaled d ip fp)) as [c|] eqn:Ec; [|done].
  unfold all_digits in Hsd. rewrite Forall_lookup in Hsd.
  destruct (digit_not c (Hsd _ _ Ec)) as (_ & _ & _ & -> & _). done.
Qed.

(** A numeral without a leading zero is accepted up to the largest int64. *)
Lemma SafeStoi64_canonical l : all_digits l -> is_ch "0" (peek l) = false ->
  (SafeStoi64 l = Some (num 0 l) /\ l = ToString (num 0 l) /\ 0 < num 0 l <= int64_max)
  \/ (SafeStoi64 l = None /\ (num 0 l = 0 \/ int64_max < num 0 l)).
Proof.
  intros Hd Hz. destruct (decide (l = [])) as [->|Hne]; [right; split; [done|by left]|].
  pose proof (num_range l Hd) as Hr.
  assert (Hpos : 0 < num 0 l).
  { destruct (decide (num 0 l = 0)) as [E|]; [|lia]. exfalso.
    assert (Hx : digits (S (length l)) (num 0 l) = l) by (apply digits_num; try done; [lia|congruence]).
    rewrite E in Hx. rewrite <- Hx in Hz. done. }
  destruct (SafeSto_shape64 l (num 0 l)) as [_ Hback].
  destruct (Z.le_gt_cases (num 0 l) int64_max) as [Hle|Hgt]; [left|right].
  - assert (E : l = ToString (num 0 l)).
    { unfold ToString. destruct (Z.ltb_spec (num 0 l) 0); [lia|].
      rewrite <- (digits_num (length l) l) at 1 by (done || lia || congruence).
      rewrite <- (digits_fuel (Nat.max (length l) 19) (length l)) by (lia || (rewrite Nat2Z.inj_succ, Z.pow_succ_r; lia)).
      by rewrite (digits_fuel (Nat.max (length l) 19) 19) by (unfold int64_max in *; lia). }
    split_and!; [apply Hback; split; [done|unfold is_s64, int64_min; lia]|done|done|done].
  - split; [|by right]. destruct (SafeStoi64 l) as [n|] eqn:En; [|done]. exfalso.
    apply SafeSto_shape64 in En as [El Hn]. unfold is_s64 in Hn.
    assert (0 <= n) as Hn0.
    { destruct (Z.ltb_spec n 0) as [Hneg|]; [|done]. rewrite El in Hd. unfold ToString in Hd.
      destruct (Z.ltb_spec n 0); [|lia]. inversion Hd; subst. done. }
    destruct (digits_spec 19 n) as (_ & E2 & _); [unfold int64_max in *; lia|].
    rewrite El in Hgt. unfold ToString in Hgt. destruct (Z.ltb_spec n 0); lia.
Qed.

(** C27: The conversion of a decimal amount of coins to base units is exact. The contract
    function toBaseUnit accepts exactly the well-formed amounts (digits, at most eight
    after the dot, no superfluous zeros) whose value is positive and fits an int64, and
    returns the canonical numeral of amount * 10^8; it rejects a zero amount. The
    console's conversion of the same texts gives amount * 10^8, cut off at the largest
    int64. *)
Theorem to_base_unit_exact s :
  match ToBaseUnit s with
  | Some r => exists ip fp, amount_text 8 s ip fp /\ 0 < amount 8 ip fp <= int64_max
                /\ r = ToString (amount 8 ip fp)
  | None => forall ip fp, amount_text 8 s ip fp -> amount 8 ip fp = 0 \/ int64_max < amount 8 ip fp
  end
  /\ forall ip fp, amount_text 8 s ip fp ->
       Stoi64 (MultiplyDecimal s 8) = Z.min int64_max (amount 8 ip fp).
Proof.
  assert (Hrun : forall ip fp, amount_text 8 s ip fp ->
    let m := MultiplyDecimal s 8 in all_digits m /\ is_ch "0" (peek m) = false /\ num 0 m = amount 8 ip fp).
  { intros ip fp Ha. cbv zeta. rewrite (MultiplyDecimal_run 8 s ip fp Ha).
    destruct (scaled_spec 8 s ip fp Ha) as [Hd <-]. destruct (zeros_pos_spec _ Hd) as (H1 & H2 & H3 & _). auto. }
  split.
  - unfold ToBaseUnit, BU_DECIMALS. destruct (IsDecNumber s 8) eqn:Edec; cbn [negb].
    + destruct (IsDecNumber_sound 8 s Edec) as (ip & fp & Ha). destruct (Hrun ip fp Ha) as (H1 & H2 & H3).
      destruct (SafeStoi64_canonical _ H1 H2) as [(-> & E & R)|(-> & R)].
      * exists ip, fp. by rewrite <- H3.
      * intros ip' fp' Ha'. destruct (Hrun ip' fp' Ha') as (_ & _ & <-). done.
    + intros ip fp Ha. apply IsDecNumber_complete in Ha. congruence.
  - intros ip fp Ha. destruct (Hrun ip fp Ha) as (H1 & H2 & <-). unfold Stoi64.
    case_bool_decide as E; [|by apply strtoll_digits]. rewrite E. done.
Qed.

(** ** Replacing *)

Lemma strip_prefix_length t s r : strip_prefix t s = Some r -> length s = (length t + length r)%nat.
Proof.
  revert s. induction t as [|a t IH]; intros s; cbn; [by intros [= ->]|].
  destruct s as [|b s]; [done|]. destruct (is_ch a b); [|done]. intros H%IH. cbn [length]. lia.
Qed.

Lemma find_sub_length t s b r : find_sub t s = Some (b, r) -> length s = (length b + length t + length r)%nat.
Proof.
  revert b. induction s as [|c s IH]; intros b; cbn [find_sub].
  - destruct (strip_prefix t []) eqn:E; [|done]. intros [= <- <-]. by apply strip_prefix_length in E.
  - destruct (strip_prefix t (c :: s)) eqn:E; [intros [= <- <-]; by apply strip_prefix_length in E|].
    destruct (find_sub t s) as [[b' r']|]; [|done]. intros [= <- <-]. specialize (IH b' eq_refl). cbn [length]. lia.
Qed.

(** Replace returns for every text when the pattern is not empty, within one round more
    than the length of the text, and never returns when it is empty. *)
Theorem Replace_terminates_iff (s from to : list ascii) :
  (from <> [] <-> exists r, Replace (S (length s)) s from to = Returns r)
  /\ (from = [] <-> forall fuel, Replace fuel s from to = Throws OutOfFuel).
Proof.
  assert (Hyes : forall fuel pre rest, from <> [] -> (length rest < fuel)%nat ->
    exists r, replace_loop fuel pre rest from to = Returns r).
  { induction fuel as [|fuel IH]; intros pre rest Hne Hl; [lia|]. cbn.
    destruct (find_sub from rest) as [[b a]|] eqn:E; [|eauto]. apply IH; [done|].
    apply find_sub_length in E. destruct from; [done|]. cbn [length] in *. lia. }
  assert (Hno : forall fuel pre rest, replace_loop fuel pre rest [] to = Throws OutOfFuel).
  { induction fuel as [|fuel IH]; intros pre rest; [done|]. cbn. by destruct rest; cbn; apply IH. }
  unfold Replace. split.
  - split; [intros; apply Hyes; [done|lia]|]. intros [r Hr] ->. by rewrite Hno in Hr.
  - split; [intros ->; apply (fun f => Hno f [] s)|]. intros H. destruct from as [|a from]; [done|].
    destruct (Hyes (S (length s)) [] s) as [r Hr]; [done|lia|]. by rewrite H in Hr.
Qed.

(** The case-insensitive search finds only what the exact search finds. *)
Lemma IsContainStringIgnoreCase_exact s t :
  IsContainStringIgnoreCase s t = bool_decide (is_Some (find_sub t s))
  /\ IsContainStringIgnoreCase (lit "Abc") (lit "abc") = false.
Proof.
  split; [|done]. unfold IsContainStringIgnoreCase.
  destruct (find_sub t s); [by rewrite bool_decide_true by eauto|].
  rewrite bool_decide_false; [done|]. by intros [? ?].
Qed.
