(* ===== verification/OrdMap.v ===== *)
(** * [std::map]: ordered association lists

    The code iterates its [std::map]s in key order and erases while iterating,
    so they are modelled as association lists kept sorted by a strict order.
    Only the language's standard library is modelled here. *)
From S2P Require Import Prelude.

(** What a key comparator ([operator<]) promises. *)
Class StrictKey (K : Type) := {
  key_ltb : K -> K -> bool;
  key_irrefl : forall a, key_ltb a a = false;
  key_trans : forall a b c, key_ltb a b = true -> key_ltb b c = true -> key_ltb a c = true;
  key_total : forall a b, key_ltb a b = false -> key_ltb b a = false -> a = b
}.

#[export] Program Instance Z_key : StrictKey Z := { key_ltb := Z.ltb }.
Next Obligation. lia. Qed.
Next Obligation. lia. Qed.
Next Obligation. lia. Qed.

(** ** The order of [std::string] *)
Definition string_ltb (a b : string) : bool := match String.compare a b with Lt => true | _ => false end.

Lemma string_compare_refl a : String.compare a a = Eq.
Proof. induction a as [|c a IH]; [done|]. cbn. unfold Ascii.compare. by rewrite N.compare_refl. Qed.

Lemma string_compare_trans a b c : String.compare a b = Lt -> String.compare b c = Lt -> String.compare a c = Lt.
Proof.
  revert b c. induction a as [|x a IH]; intros [|y b] [|z c]; cbn; try done. unfold Ascii.compare.
  destruct (N.compare_spec (N_of_ascii x) (N_of_ascii y)) as [E1|L1|L1], (N.compare_spec (N_of_ascii y) (N_of_ascii z)) as [E2|L2|L2]; try done; intros H1 H2.
  - rewrite E1, E2, N.compare_refl. by eapply IH.
  - rewrite E1. by apply N.compare_lt_iff in L2 as ->.
  - rewrite <- E2. by apply N.compare_lt_iff in L1 as ->.
  - assert (L3 : (N_of_ascii x < N_of_ascii z)%N) by lia. by apply N.compare_lt_iff in L3 as ->.
Qed.

#[export] Instance string_key : StrictKey string.
Proof.
  refine {| key_ltb := string_ltb |}; unfold string_ltb.
  - intros a. by rewrite string_compare_refl.
  - intros a b c. destruct (String.compare a b) eqn:E1; try done. destruct (String.compare b c) eqn:E2; try done. intros _ _. by rewrite (string_compare_trans a b c).
  - intros a b. rewrite (String.compare_antisym b a). destruct (String.compare a b) eqn:E; cbn; try done. intros _ _. by apply String.compare_eq_iff.
Defined.

Definition ordmap (K V : Type) : Type := list (K * V).

Section OrdMap.
Context {K V : Type} `{StrictKey K}.
Implicit Types (m : ordmap K V) (k : K) (v : V).

Definition key_eqb k1 k2 : bool := negb (key_ltb k1 k2) && negb (key_ltb k2 k1).

(** [m.find(k)] *)
Fixpoint om_find m k : option V :=
  match m with
  | [] => None
  | (k', v) :: m' => if key_eqb k k' then Some v else om_find m' k
  end.

(** [m[k] = v] *)
Fixpoint om_set m k v : ordmap K V :=
  match m with
  | [] => [(k, v)]
  | (k', v') :: m' =>
      if key_ltb k k' then (k, v) :: (k', v') :: m'
      else if key_ltb k' k then (k', v') :: om_set m' k v
      else (k, v) :: m'
  end.

(** [m.insert({k, v})]: keeps an existing entry. *)
Definition om_insert m k v : ordmap K V :=
  match om_find m k with
  | Some _ => m
  | None => om_set m k v
  end.

(** The [for (it = begin(); it != end();) if (p) erase(it++) else it++] loops. *)
Definition om_erase_if (p : K -> V -> bool) m : ordmap K V :=
  List.filter (fun kv => negb (p (fst kv) (snd kv))) m.

Definition om_erase m k : ordmap K V := om_erase_if (fun k' _ => key_eqb k k') m.

Fixpoint om_sorted m : Prop :=
  match m with
  | [] => True
  | (k, _) :: m' => Forall (fun kv => key_ltb k (fst kv) = true) m' /\ om_sorted m'
  end.

Lemma key_eqb_spec k1 k2 : reflect (k1 = k2) (key_eqb k1 k2).
Proof.
  unfold key_eqb. destruct (key_ltb k1 k2) eqn:E1; [|destruct (key_ltb k2 k1) eqn:E2]; constructor.
  - intros ->. by rewrite key_irrefl in E1.
  - intros ->. by rewrite key_irrefl in E2.
  - by apply key_total.
Qed.

Lemma key_eqb_refl k : key_eqb k k = true.
Proof. unfold key_eqb. by rewrite key_irrefl. Qed.

Lemma om_find_set m k v k' :
  om_find (om_set m k v) k' = if key_eqb k' k then Some v else om_find m k'.
Proof.
  induction m as [|[k0 v0] m IH]; cbn [om_set om_find]; [done|].
  destruct (key_ltb k k0) eqn:E1; [done|].
  destruct (key_ltb k0 k) eqn:E2; cbn [om_find].
  - rewrite IH. destruct (key_eqb_spec k' k0) as [->|]; [|done].
    destruct (key_eqb_spec k0 k) as [->|]; [|done]. by rewrite key_irrefl in E2.
  - assert (k = k0) as <- by (by apply key_total).
    destruct (key_eqb k' k); done.
Qed.

Lemma om_find_set_eq m k v : om_find (om_set m k v) k = Some v.
Proof. by rewrite om_find_set, key_eqb_refl. Qed.

Lemma om_find_set_ne m k v k' : k' <> k -> om_find (om_set m k v) k' = om_find m k'.
Proof. intros. rewrite om_find_set. by destruct (key_eqb_spec k' k). Qed.

Lemma om_find_insert m k v k' :
  om_find (om_insert m k v) k' =
    match om_find m k' with Some w => Some w | None => if key_eqb k' k then Some v else None end.
Proof.
  unfold om_insert. destruct (om_find m k) eqn:E.
  - destruct (om_find m k') eqn:E'; [done|].
    destruct (key_eqb_spec k' k) as [->|]; congruence.
  - rewrite om_find_set. destruct (key_eqb_spec k' k) as [->|]; [by rewrite E|].
    by destruct (om_find m k').
Qed.

Lemma om_find_in m k v : om_find m k = Some v -> (k, v) ∈ m.
Proof.
  induction m as [|[k0 v0] m IH]; cbn [om_find]; [done|].
  destruct (key_eqb_spec k k0) as [->|]; intros E; [simplify_eq; left|right; auto].
Qed.

Lemma om_find_none m k : om_find m k = None -> forall v, (k, v) ∉ m.
Proof.
  induction m as [|[k0 v0] m IH]; cbn [om_find]; [intros _ v Hin; by apply elem_of_nil in Hin|].
  destruct (key_eqb_spec k k0); [done|]. intros E v Hin.
  apply elem_of_cons in Hin as [Heq|Hin]; [congruence|by apply (IH E v)].
Qed.

(** In a sorted map, membership and lookup agree. *)
Lemma om_in_find m k v : om_sorted m -> (k, v) ∈ m -> om_find m k = Some v.
Proof.
  induction m as [|[k0 v0] m IH]; cbn [om_find om_sorted]; [by intros _ Hin%elem_of_nil|].
  intros [Hall Hs] [Heq|Hin]%elem_of_cons; [simplify_eq; by rewrite key_eqb_refl|].
  destruct (key_eqb_spec k k0) as [->|]; [|auto].
  rewrite Forall_forall in Hall. apply Hall in Hin. cbn in Hin. by rewrite key_irrefl in Hin.
Qed.

Lemma om_set_forall P m k v :
  Forall P m -> P (k, v) -> Forall P (om_set m k v).
Proof.
  intros Hm Hkv. induction m as [|[k0 v0] m IH]; cbn [om_set]; [by repeat constructor|].
  inversion Hm; subst. destruct (key_ltb k k0); [by repeat constructor|].
  destruct (key_ltb k0 k); constructor; auto.
Qed.

Lemma om_set_sorted m k v : om_sorted m -> om_sorted (om_set m k v).
Proof.
  induction m as [|[k0 v0] m IH]; cbn [om_set om_sorted]; [by repeat constructor|].
  intros [Hall Hs]. destruct (key_ltb k k0) eqn:E1.
  - split; [|by split]. constructor; [done|].
    eapply Forall_impl; [exact Hall|]. intros [k1 v1]. cbn. by apply key_trans.
  - destruct (key_ltb k0 k) eqn:E2; cbn [om_sorted].
    + split; [by apply om_set_forall|auto].
    + assert (k = k0) as -> by (by apply key_total). done.
Qed.

Lemma om_insert_sorted m k v : om_sorted m -> om_sorted (om_insert m k v).
Proof. unfold om_insert. destruct (om_find m k); [done|apply om_set_sorted]. Qed.

Lemma om_insert_forall P m k v : Forall P m -> P (k, v) -> Forall P (om_insert m k v).
Proof. unfold om_insert. destruct (om_find m k); [done|apply om_set_forall]. Qed.

Lemma om_erase_if_forall P p m : Forall P m -> Forall P (om_erase_if p m).
Proof.
  unfold om_erase_if. rewrite !Forall_forall. intros Hm kv Hin.
  apply Hm. apply list_elem_of_In, filter_In in Hin as [Hin _]. by apply list_elem_of_In.
Qed.

Lemma om_erase_if_sorted p m : om_sorted m -> om_sorted (om_erase_if p m).
Proof.
  induction m as [|[k0 v0] m IH]; [done|]. cbn [om_sorted]. intros [Hall Hs].
  unfold om_erase_if. cbn [List.filter fst snd]. destruct (negb (p k0 v0)).
  - cbn [om_sorted]. split; [by apply om_erase_if_forall|by apply IH].
  - by apply IH.
Qed.

Lemma om_erase_if_in p m k v : (k, v) ∈ om_erase_if p m <-> (k, v) ∈ m /\ p k v = false.
Proof.
  unfold om_erase_if. rewrite !list_elem_of_In, filter_In. cbn.
  by rewrite negb_true_iff.
Qed.

Lemma om_find_erase_if p m k : om_sorted m ->
  om_find (om_erase_if p m) k =
    match om_find m k with Some v => if p k v then None else Some v | None => None end.
Proof.
  intros Hs. destruct (om_find (om_erase_if p m) k) as [v|] eqn:E.
  - apply om_find_in, om_erase_if_in in E as [Hin Hp].
    by rewrite (om_in_find m k v Hs Hin), Hp.
  - destruct (om_find m k) as [v|] eqn:E'; [|done]. destruct (p k v) eqn:Hp; [done|].
    exfalso. apply om_find_in in E'.
    apply (om_find_none _ _ E v), om_erase_if_in. done.
Qed.

Lemma om_length_set_new m k v : om_find m k = None -> length (om_set m k v) = S (length m).
Proof.
  induction m as [|[k0 v0] m IH]; cbn [om_find om_set]; [done|].
  destruct (key_eqb_spec k k0) as [->|Hne]; [done|]. intros E.
  destruct (key_ltb k k0) eqn:E1; [done|]. destruct (key_ltb k0 k) eqn:E2; cbn.
  - by rewrite IH.
  - by destruct Hne; apply key_total.
Qed.

Lemma om_length_insert m k v :
  length (om_insert m k v) = match om_find m k with Some _ => length m | None => S (length m) end.
Proof.
  unfold om_insert. destruct (om_find m k) eqn:E; [done|by apply om_length_set_new].
Qed.

(** The keys of a sorted map are distinct. *)
Lemma om_keys_nodup m : om_sorted m -> NoDup (map fst m).
Proof.
  induction m as [|[k0 v0] m IH]; cbn; [constructor|]. intros [Hall Hs].
  constructor; [|auto]. intros Hin. apply list_elem_of_In, in_map_iff in Hin as ([k v] & Hk & Hin).
  cbn in Hk. subst. rewrite Forall_forall in Hall.
  apply list_elem_of_In, Hall in Hin. cbn in Hin. by rewrite key_irrefl in Hin.
Qed.
End OrdMap.

Create HintDb ordmap.
#[export] Hint Resolve om_set_sorted om_insert_sorted om_erase_if_sorted om_set_forall
  om_insert_forall om_erase_if_forall : ordmap.
#[global] Arguments om_erase_if : simpl never.
#[global] Arguments om_insert : simpl never.
