(* ===== verification/PbftData.v ===== *)
(** * PBFT: messages, consensus instances and the node's state

    The protobuf messages of src/proto/consensus.proto, the instance classes of
    src/consensus/bft_instance.h and .cpp, and the fields of [Consensus] and
    [Pbft] (src/consensus/consensus.h, src/consensus/bft.h). *)
From S2P Require Import Prelude OrdMap.

(** ** Messages

    A protobuf sub-message field is an [option]: [has_x()] is [is_Some] and the
    getter of an absent field returns the default message. *)

Record Signature := MkSignature { public_key : string; sign_data : string }.

Record PbftPrePrepare := MkPrePrepare {
  pp_view_number : Z; pp_sequence : Z; pp_replica_id : Z;
  pp_value : string; pp_value_digest : string }.

Record PbftPrepare := MkPrepare {
  p_view_number : Z; p_sequence : Z; p_replica_id : Z; p_value_digest : string }.

Record PbftCommit := MkCommit {
  c_view_number : Z; c_sequence : Z; c_replica_id : Z; c_value_digest : string }.

Record PbftViewChange := MkViewChange {
  v_view_number : Z; v_sequence : Z; v_prepred_value_digest : string; v_replica_id : Z }.

Inductive PbftEnv :=
| MkEnv (e_pbft : option Pbft) (e_signature : Signature)
with Pbft :=
| MkPbft (round_number type : Z)
    (pre_prepare : option PbftPrePrepare) (prepare : option PbftPrepare)
    (commit : option PbftCommit) (view_change : option PbftViewChange)
    (new_view : option PbftNewView)
    (view_change_with_rawvalue : option PbftViewChangeWithRawValue)
    (chain_id : Z)
with PbftNewView :=
| MkNewView (view_number sequence replica_id : Z) (view_changes : list PbftEnv)
    (pre_prepare : option PbftEnv)
with PbftViewChangeWithRawValue :=
| MkRaw (view_change_env : option PbftEnv) (prepared_set : option PbftPreparedSet)
with PbftPreparedSet :=
| MkPreparedSet (pre_prepare : option PbftEnv) (prepare : list PbftEnv).

(** [enum PbftMessageType]; proto3 enums are open, so a received type is any integer. *)
Definition PBFT_TYPE_PREPREPARE : Z := 0.
Definition PBFT_TYPE_PREPARE : Z := 1.
Definition PBFT_TYPE_COMMIT : Z := 2.
Definition PBFT_TYPE_VIEWCHANGE : Z := 3.
Definition PBFT_TYPE_NEWVIEW : Z := 4.
Definition PBFT_TYPE_VIEWCHANG_WITH_RAWVALUE : Z := 5.

(** Default messages and getters. *)
Definition PrePrepare0 := MkPrePrepare 0 0 0 "" "".
Definition Prepare0 := MkPrepare 0 0 0 "".
Definition Commit0 := MkCommit 0 0 0 "".
Definition ViewChange0 := MkViewChange 0 0 "" 0.
Definition NewView0 := MkNewView 0 0 0 [] None.
Definition PreparedSet0 := MkPreparedSet None [].
Definition Raw0 := MkRaw None None.
Definition Pbft0 := MkPbft 0 0 None None None None None None 0.
Definition Env0 := MkEnv None (MkSignature "" "").

Definition env_pbft_opt (e : PbftEnv) : option Pbft := let 'MkEnv p _ := e in p.
Definition env_pbft (e : PbftEnv) : Pbft := default Pbft0 (env_pbft_opt e).
Definition env_sig (e : PbftEnv) : Signature := let 'MkEnv _ s := e in s.
Definition has_pbft (e : PbftEnv) : bool := bool_decide (is_Some (env_pbft_opt e)).

Definition pb_round_number (p : Pbft) := let 'MkPbft r _ _ _ _ _ _ _ _ := p in r.
Definition pb_type (p : Pbft) := let 'MkPbft _ t _ _ _ _ _ _ _ := p in t.
Definition pb_pre_prepare_opt (p : Pbft) := let 'MkPbft _ _ x _ _ _ _ _ _ := p in x.
Definition pb_prepare_opt (p : Pbft) := let 'MkPbft _ _ _ x _ _ _ _ _ := p in x.
Definition pb_commit_opt (p : Pbft) := let 'MkPbft _ _ _ _ x _ _ _ _ := p in x.
Definition pb_view_change_opt (p : Pbft) := let 'MkPbft _ _ _ _ _ x _ _ _ := p in x.
Definition pb_new_view_opt (p : Pbft) := let 'MkPbft _ _ _ _ _ _ x _ _ := p in x.
Definition pb_raw_opt (p : Pbft) := let 'MkPbft _ _ _ _ _ _ _ x _ := p in x.
Definition pb_chain_id (p : Pbft) := let 'MkPbft _ _ _ _ _ _ _ _ c := p in c.
Definition pb_pre_prepare p := default PrePrepare0 (pb_pre_prepare_opt p).
Definition pb_prepare p := default Prepare0 (pb_prepare_opt p).
Definition pb_commit p := default Commit0 (pb_commit_opt p).
Definition pb_view_change p := default ViewChange0 (pb_view_change_opt p).
Definition pb_new_view p := default NewView0 (pb_new_view_opt p).
Definition pb_raw p := default Raw0 (pb_raw_opt p).

Definition nv_view_number (n : PbftNewView) := let 'MkNewView v _ _ _ _ := n in v.
Definition nv_sequence (n : PbftNewView) := let 'MkNewView _ s _ _ _ := n in s.
Definition nv_replica_id (n : PbftNewView) := let 'MkNewView _ _ r _ _ := n in r.
Definition nv_view_changes (n : PbftNewView) := let 'MkNewView _ _ _ l _ := n in l.
Definition nv_pre_prepare (n : PbftNewView) := let 'MkNewView _ _ _ _ p := n in default Env0 p.
Definition raw_view_change_env_opt (r : PbftViewChangeWithRawValue) := let 'MkRaw e _ := r in e.
Definition raw_view_change_env r := default Env0 (raw_view_change_env_opt r).
Definition raw_prepared_set_opt (r : PbftViewChangeWithRawValue) := let 'MkRaw _ s := r in s.
Definition raw_prepared_set r := default PreparedSet0 (raw_prepared_set_opt r).
Definition ps_pre_prepare_opt (s : PbftPreparedSet) := let 'MkPreparedSet p _ := s in p.
Definition ps_pre_prepare s := default Env0 (ps_pre_prepare_opt s).
Definition ps_prepare (s : PbftPreparedSet) := let 'MkPreparedSet _ l := s in l.

(** ** Consensus instances *)

Definition MICRO_UNITS_PER_SEC : Z := 1000000.
Definition g_pbft_vcinstance_timeout_ : Z := 60 * MICRO_UNITS_PER_SEC.
Definition g_pbft_instance_timeout_ : Z := 30 * MICRO_UNITS_PER_SEC.
Definition g_pbft_commit_send_interval : Z := 15 * MICRO_UNITS_PER_SEC.
Definition g_pbft_newview_send_interval : Z := 15 * MICRO_UNITS_PER_SEC.

Inductive PbftInstancePhase :=
| PBFT_PHASE_NONE | PBFT_PHASE_PREPREPARED | PBFT_PHASE_PREPARED | PBFT_PHASE_COMMITED.
Definition PBFT_PHASE_MAX : nat := 4.

#[export] Instance phase_eq_dec : EqDecision PbftInstancePhase.
Proof. solve_decision. Defined.

Definition phase_num (p : PbftInstancePhase) : Z :=
  match p with
  | PBFT_PHASE_NONE => 0 | PBFT_PHASE_PREPREPARED => 1
  | PBFT_PHASE_PREPARED => 2 | PBFT_PHASE_COMMITED => 3
  end.

Definition phase_ltb (p q : PbftInstancePhase) : bool := phase_num p <? phase_num q.

Inductive CheckValueResult := CHECK_VALUE_VALID | CHECK_VALUE_MAYVALID | CHECK_VALUE_INVALID.

#[export] Instance check_value_eq_dec : EqDecision CheckValueResult.
Proof. solve_decision. Defined.

Record PbftInstanceIndex := MkIndex { ix_view_number : Z; ix_sequence : Z }.

#[export] Instance index_eq_dec : EqDecision PbftInstanceIndex.
Proof. solve_decision. Defined.

(** [PbftInstanceIndex::operator<] *)
Definition index_ltb (a b : PbftInstanceIndex) : bool :=
  if ix_view_number a <? ix_view_number b then true
  else if (ix_view_number a =? ix_view_number b) && (ix_sequence a <? ix_sequence b) then true
  else false.

#[export] Program Instance index_key : StrictKey PbftInstanceIndex := { key_ltb := index_ltb }.
Next Obligation. intros [v s]. unfold index_ltb. cbn. by rewrite !Z.ltb_irrefl, andb_false_r. Qed.
Next Obligation.
  intros [v s] [v' s'] [v2 s2]. unfold index_ltb. cbn.
  repeat case_match; try done; lia.
Qed.
Next Obligation.
  intros [v s] [v' s']. unfold index_ltb. cbn.
  repeat case_match; try done; intros _ _; f_equal; lia.
Qed.

Record PbftInstance := MkInstance {
  phase_ : PbftInstancePhase;
  phase_item_ : nat;
  pre_prepare_ : PbftPrePrepare;
  prepares_ : ordmap Z PbftPrepare;
  commits_ : ordmap Z PbftCommit;
  msg_buf_ : list (list PbftEnv);
  pre_prepare_msg_ : PbftEnv;
  start_time_ : Z;
  end_time_ : Z;
  last_propose_time_ : Z;
  last_commit_send_time_ : Z;
  have_send_viewchange_ : bool;
  pre_prepare_round_ : Z;
  commit_round_ : Z;
  check_value_result_ : CheckValueResult }.

(** [PbftInstance::PbftInstance()] *)
Definition new_instance (now : Z) : PbftInstance :=
  MkInstance PBFT_PHASE_NONE 0 PrePrepare0 [] [] (replicate PBFT_PHASE_MAX []) Env0
    now 0 now 0 false 1 1 CHECK_VALUE_VALID.

Definition inst_IsExpire (i : PbftInstance) (current_time : Z) : bool :=
  (g_pbft_instance_timeout_ <=? current_time - start_time_ i)
  && phase_ltb (phase_ i) PBFT_PHASE_COMMITED.

Definition inst_NeedSendAgain (i : PbftInstance) (current_time : Z) : bool :=
  (Z.quot g_pbft_instance_timeout_ 4 <=? current_time - last_propose_time_ i)
  && phase_ltb (phase_ i) PBFT_PHASE_COMMITED.

Definition inst_NeedSendCommitAgain (i : PbftInstance) (current_time : Z) : bool :=
  negb (last_commit_send_time_ i =? 0)
  && (g_pbft_commit_send_interval <=? current_time - last_commit_send_time_ i)
  && negb (phase_ltb (phase_ i) PBFT_PHASE_PREPARED).

Definition inst_SetLastProposeTime (t : Z) (i : PbftInstance) : PbftInstance :=
  MkInstance (phase_ i) (phase_item_ i) (pre_prepare_ i) (prepares_ i) (commits_ i) (msg_buf_ i)
    (pre_prepare_msg_ i) (start_time_ i) (end_time_ i) t (last_commit_send_time_ i)
    (have_send_viewchange_ i) (pre_prepare_round_ i) (commit_round_ i) (check_value_result_ i).

Definition inst_SetLastCommitSendTime (t : Z) (i : PbftInstance) : PbftInstance :=
  MkInstance (phase_ i) (phase_item_ i) (pre_prepare_ i) (prepares_ i) (commits_ i) (msg_buf_ i)
    (pre_prepare_msg_ i) (start_time_ i) (end_time_ i) (last_propose_time_ i) t
    (have_send_viewchange_ i) (pre_prepare_round_ i) (commit_round_ i) (check_value_result_ i).

(** Field assignments. *)
Definition set_phase (p : PbftInstancePhase) (item : nat) (i : PbftInstance) : PbftInstance :=
  MkInstance p item (pre_prepare_ i) (prepares_ i) (commits_ i) (msg_buf_ i)
    (pre_prepare_msg_ i) (start_time_ i) (end_time_ i) (last_propose_time_ i)
    (last_commit_send_time_ i) (have_send_viewchange_ i) (pre_prepare_round_ i) (commit_round_ i)
    (check_value_result_ i).
Definition set_pre_prepare (pp : PbftPrePrepare) (i : PbftInstance) : PbftInstance :=
  MkInstance (phase_ i) (phase_item_ i) pp (prepares_ i) (commits_ i) (msg_buf_ i)
    (pre_prepare_msg_ i) (start_time_ i) (end_time_ i) (last_propose_time_ i)
    (last_commit_send_time_ i) (have_send_viewchange_ i) (pre_prepare_round_ i) (commit_round_ i)
    (check_value_result_ i).
Definition set_check_value (c : CheckValueResult) (i : PbftInstance) : PbftInstance :=
  MkInstance (phase_ i) (phase_item_ i) (pre_prepare_ i) (prepares_ i) (commits_ i) (msg_buf_ i)
    (pre_prepare_msg_ i) (start_time_ i) (end_time_ i) (last_propose_time_ i)
    (last_commit_send_time_ i) (have_send_viewchange_ i) (pre_prepare_round_ i) (commit_round_ i) c.
Definition set_prepares (m : ordmap Z PbftPrepare) (i : PbftInstance) : PbftInstance :=
  MkInstance (phase_ i) (phase_item_ i) (pre_prepare_ i) m (commits_ i) (msg_buf_ i)
    (pre_prepare_msg_ i) (start_time_ i) (end_time_ i) (last_propose_time_ i)
    (last_commit_send_time_ i) (have_send_viewchange_ i) (pre_prepare_round_ i) (commit_round_ i)
    (check_value_result_ i).
Definition set_commits (m : ordmap Z PbftCommit) (i : PbftInstance) : PbftInstance :=
  MkInstance (phase_ i) (phase_item_ i) (pre_prepare_ i) (prepares_ i) m (msg_buf_ i)
    (pre_prepare_msg_ i) (start_time_ i) (end_time_ i) (last_propose_time_ i)
    (last_commit_send_time_ i) (have_send_viewchange_ i) (pre_prepare_round_ i) (commit_round_ i)
    (check_value_result_ i).
Definition set_end_time (t : Z) (i : PbftInstance) : PbftInstance :=
  MkInstance (phase_ i) (phase_item_ i) (pre_prepare_ i) (prepares_ i) (commits_ i) (msg_buf_ i)
    (pre_prepare_msg_ i) (start_time_ i) t (last_propose_time_ i)
    (last_commit_send_time_ i) (have_send_viewchange_ i) (pre_prepare_round_ i) (commit_round_ i)
    (check_value_result_ i).
Definition set_pre_prepare_msg (e : PbftEnv) (i : PbftInstance) : PbftInstance :=
  MkInstance (phase_ i) (phase_item_ i) (pre_prepare_ i) (prepares_ i) (commits_ i) (msg_buf_ i)
    e (start_time_ i) (end_time_ i) (last_propose_time_ i)
    (last_commit_send_time_ i) (have_send_viewchange_ i) (pre_prepare_round_ i) (commit_round_ i)
    (check_value_result_ i).
Definition set_have_send_viewchange (b : bool) (i : PbftInstance) : PbftInstance :=
  MkInstance (phase_ i) (phase_item_ i) (pre_prepare_ i) (prepares_ i) (commits_ i) (msg_buf_ i)
    (pre_prepare_msg_ i) (start_time_ i) (end_time_ i) (last_propose_time_ i)
    (last_commit_send_time_ i) b (pre_prepare_round_ i) (commit_round_ i) (check_value_result_ i).
Definition set_rounds (pr cr : Z) (i : PbftInstance) : PbftInstance :=
  MkInstance (phase_ i) (phase_item_ i) (pre_prepare_ i) (prepares_ i) (commits_ i) (msg_buf_ i)
    (pre_prepare_msg_ i) (start_time_ i) (end_time_ i) (last_propose_time_ i)
    (last_commit_send_time_ i) (have_send_viewchange_ i) pr cr (check_value_result_ i).
(** [msg_buf_[t].push_back(env)]; the buffer has [PBFT_PHASE_MAX] rows. *)
Definition push_msg (t : Z) (env : PbftEnv) (i : PbftInstance) : PbftInstance :=
  MkInstance (phase_ i) (phase_item_ i) (pre_prepare_ i) (prepares_ i) (commits_ i)
    (alter (fun row => row ++ [env]) (Z.to_nat t) (msg_buf_ i))
    (pre_prepare_msg_ i) (start_time_ i) (end_time_ i) (last_propose_time_ i)
    (last_commit_send_time_ i) (have_send_viewchange_ i) (pre_prepare_round_ i) (commit_round_ i)
    (check_value_result_ i).

Definition buf_row (i : PbftInstance) (t : nat) : list PbftEnv := default [] (msg_buf_ i !! t).

(** ** View-change instances *)

Record PbftVcInstance := MkVc {
  vc_view_change_msg_ : PbftEnv;
  vc_view_number_ : Z;
  vc_seq : Z;
  vc_viewchanges_ : ordmap Z PbftViewChange;
  vc_pre_prepared_env_set : PbftPreparedSet;
  vc_view_change_round_ : Z;
  vc_msg_buf_ : list PbftEnv;
  vc_start_time_ : Z;
  vc_last_propose_time_ : Z;
  vc_end_time_ : Z;
  vc_last_newview_time_ : Z;
  vc_newview_ : PbftEnv;
  vc_new_view_round_ : Z }.

(** [PbftVcInstance::PbftVcInstance(int64_t view_number)]; [seq] is assigned by
    the caller. *)
Definition new_vc_instance (now view_number seq : Z) : PbftVcInstance :=
  MkVc Env0 view_number seq [] PreparedSet0 0 [] now now 0 0 Env0 1.

Definition vc_NeedSendAgain (v : PbftVcInstance) (current_time : Z) : bool :=
  (g_pbft_vcinstance_timeout_ <? current_time - vc_last_propose_time_ v) && (vc_end_time_ v =? 0).

(** [newview_.IsInitialized()] is true of every proto3 message. *)
Definition vc_NeedSendNewViewAgain (v : PbftVcInstance) (current_time : Z) : bool :=
  (g_pbft_newview_send_interval <? current_time - vc_last_newview_time_ v)
  && true && (0 <? vc_end_time_ v).

Definition vc_ShouldTeminated (v : PbftVcInstance) (current_time time_out : Z) : bool :=
  time_out <=? current_time - vc_start_time_ v.

Definition vc_SetLastProposeTime (t : Z) (v : PbftVcInstance) : PbftVcInstance :=
  MkVc (vc_view_change_msg_ v) (vc_view_number_ v) (vc_seq v) (vc_viewchanges_ v)
    (vc_pre_prepared_env_set v) (vc_view_change_round_ v) (vc_msg_buf_ v) (vc_start_time_ v)
    t (vc_end_time_ v) (vc_last_newview_time_ v) (vc_newview_ v) (vc_new_view_round_ v).
Definition vc_SetLastNewViewTime (t : Z) (v : PbftVcInstance) : PbftVcInstance :=
  MkVc (vc_view_change_msg_ v) (vc_view_number_ v) (vc_seq v) (vc_viewchanges_ v)
    (vc_pre_prepared_env_set v) (vc_view_change_round_ v) (vc_msg_buf_ v) (vc_start_time_ v)
    (vc_last_propose_time_ v) (vc_end_time_ v) t (vc_newview_ v) (vc_new_view_round_ v).
Definition vc_ChangeComplete (t : Z) (v : PbftVcInstance) : PbftVcInstance :=
  MkVc (vc_view_change_msg_ v) (vc_view_number_ v) (vc_seq v) (vc_viewchanges_ v)
    (vc_pre_prepared_env_set v) (vc_view_change_round_ v) (vc_msg_buf_ v) (vc_start_time_ v)
    (vc_last_propose_time_ v) t (vc_last_newview_time_ v) (vc_newview_ v) (vc_new_view_round_ v).
Definition vc_set_msg (e : PbftEnv) (v : PbftVcInstance) : PbftVcInstance :=
  MkVc e (vc_view_number_ v) (vc_seq v) (vc_viewchanges_ v)
    (vc_pre_prepared_env_set v) (vc_view_change_round_ v) (vc_msg_buf_ v) (vc_start_time_ v)
    (vc_last_propose_time_ v) (vc_end_time_ v) (vc_last_newview_time_ v) (vc_newview_ v)
    (vc_new_view_round_ v).
Definition vc_add_viewchange (e : PbftEnv) (m : ordmap Z PbftViewChange) (v : PbftVcInstance) :=
  MkVc (vc_view_change_msg_ v) (vc_view_number_ v) (vc_seq v) m
    (vc_pre_prepared_env_set v) (vc_view_change_round_ v) (vc_msg_buf_ v ++ [e]) (vc_start_time_ v)
    (vc_last_propose_time_ v) (vc_end_time_ v) (vc_last_newview_time_ v) (vc_newview_ v)
    (vc_new_view_round_ v).
Definition vc_set_prepared (s : PbftPreparedSet) (v : PbftVcInstance) : PbftVcInstance :=
  MkVc (vc_view_change_msg_ v) (vc_view_number_ v) (vc_seq v) (vc_viewchanges_ v)
    s (vc_view_change_round_ v) (vc_msg_buf_ v) (vc_start_time_ v)
    (vc_last_propose_time_ v) (vc_end_time_ v) (vc_last_newview_time_ v) (vc_newview_ v)
    (vc_new_view_round_ v).
Definition vc_set_rounds (vr nr : Z) (v : PbftVcInstance) : PbftVcInstance :=
  MkVc (vc_view_change_msg_ v) (vc_view_number_ v) (vc_seq v) (vc_viewchanges_ v)
    (vc_pre_prepared_env_set v) vr (vc_msg_buf_ v) (vc_start_time_ v)
    (vc_last_propose_time_ v) (vc_end_time_ v) (vc_last_newview_time_ v) (vc_newview_ v) nr.
Definition vc_set_newview (e : PbftEnv) (v : PbftVcInstance) : PbftVcInstance :=
  MkVc (vc_view_change_msg_ v) (vc_view_number_ v) (vc_seq v) (vc_viewchanges_ v)
    (vc_pre_prepared_env_set v) (vc_view_change_round_ v) (vc_msg_buf_ v) (vc_start_time_ v)
    (vc_last_propose_time_ v) (vc_end_time_ v) (vc_last_newview_time_ v) e (vc_new_view_round_ v).
