(* ===== verification/Pbft.v ===== *)
(** * PBFT: the consensus node's handlers

    [Consensus] (src/consensus/consensus.cpp) and [Pbft] (src/consensus/bft.cpp)
    as functions of the handler monad over [PbftState]. Calls to other components
    (network, ledger, timers, key-value store) are emitted as [event]s. The clock,
    the id a fresh timer gets, the hash, the signature scheme and the protobuf
    encoding are parameters. *)
From S2P Require Import Prelude OrdMap PbftData.

(** ** Parameters: code outside the repository *)

Class PbftParams := {
  Hash : string -> string;                      (* HashWrapper::Crypto *)
  Serialize : Pbft -> string;                   (* pbft.SerializeAsString() *)
  Sign : string -> string;                      (* private_key_.Sign *)
  Verify : string -> string -> string -> bool;  (* PublicKey::Verify(data, sign, key) *)
  EncAddress : string -> string;                (* PublicKey(key).GetEncAddress() *)
  self_public_key : string;                     (* private_key_.GetEncPublicKey() *)
  self_address : string;                        (* private_key_.GetEncAddress() *)
  self_chain_id : Z;                            (* General::GetSelfChainId() *)
  CheckValue : string -> CheckValueResult;      (* notify_->CheckValue *)
  ParseProof : string -> option (list PbftEnv)  (* PbftProof::ParseFromString, commits() *)
}.

Inductive event :=
| EvSend (env : PbftEnv)
| EvValueCommited (seq : Z) (value : string) (proof : list PbftEnv)
| EvViewChanged (last_consvalue : string)
| EvResetCloseTimer
| EvSaveInt (name : string) (v : Z)
| EvSaveViewChange (m : ordmap Z PbftVcInstance)
| EvSaveValidators (l : gmap string Z)
| EvAddTimer (delay data : Z) (prepared : PbftPreparedSet)
| EvDelTimer (id : Z).

(** The fields of [Consensus] and [Pbft] the handlers read or write. *)
Record PbftState := MkPbftState {
  is_validator_ : bool;
  replica_id_ : Z;
  validators_ : gmap string Z;
  instances_ : ordmap PbftInstanceIndex PbftInstance;
  view_number_ : Z;
  ckp_interval_ : Z;
  last_exe_seq_ : Z;
  fault_number_ : Z;
  view_active_ : bool;
  vc_instances_ : ordmap Z PbftVcInstance;
  out_pbft_instances_ : ordmap PbftInstanceIndex PbftInstance;
  new_view_repond_timer_ : Z;
  abnormal_records_ : gmap string Z }.

(** [Pbft::Pbft()] over [Consensus::Consensus()] *)
Definition initial_state : PbftState :=
  MkPbftState false (-1) ∅ [] 0 10 1 0 true [] [] 0 ∅.

Definition set_instances (m : ordmap PbftInstanceIndex PbftInstance) (s : PbftState) : PbftState :=
  MkPbftState (is_validator_ s) (replica_id_ s) (validators_ s) m (view_number_ s) (ckp_interval_ s)
    (last_exe_seq_ s) (fault_number_ s) (view_active_ s) (vc_instances_ s) (out_pbft_instances_ s)
    (new_view_repond_timer_ s) (abnormal_records_ s).
Definition set_view (v : Z) (active : bool) (s : PbftState) : PbftState :=
  MkPbftState (is_validator_ s) (replica_id_ s) (validators_ s) (instances_ s) v (ckp_interval_ s)
    (last_exe_seq_ s) (fault_number_ s) active (vc_instances_ s) (out_pbft_instances_ s)
    (new_view_repond_timer_ s) (abnormal_records_ s).
Definition set_last_exe_seq (n : Z) (s : PbftState) : PbftState :=
  MkPbftState (is_validator_ s) (replica_id_ s) (validators_ s) (instances_ s) (view_number_ s)
    (ckp_interval_ s) n (fault_number_ s) (view_active_ s) (vc_instances_ s)
    (out_pbft_instances_ s) (new_view_repond_timer_ s) (abnormal_records_ s).
Definition set_vc_instances (m : ordmap Z PbftVcInstance) (s : PbftState) : PbftState :=
  MkPbftState (is_validator_ s) (replica_id_ s) (validators_ s) (instances_ s) (view_number_ s)
    (ckp_interval_ s) (last_exe_seq_ s) (fault_number_ s) (view_active_ s) m
    (out_pbft_instances_ s) (new_view_repond_timer_ s) (abnormal_records_ s).
Definition set_out_instances (m : ordmap PbftInstanceIndex PbftInstance) (s : PbftState) : PbftState :=
  MkPbftState (is_validator_ s) (replica_id_ s) (validators_ s) (instances_ s) (view_number_ s)
    (ckp_interval_ s) (last_exe_seq_ s) (fault_number_ s) (view_active_ s) (vc_instances_ s)
    m (new_view_repond_timer_ s) (abnormal_records_ s).
Definition set_timer (t : Z) (s : PbftState) : PbftState :=
  MkPbftState (is_validator_ s) (replica_id_ s) (validators_ s) (instances_ s) (view_number_ s)
    (ckp_interval_ s) (last_exe_seq_ s) (fault_number_ s) (view_active_ s) (vc_instances_ s)
    (out_pbft_instances_ s) t (abnormal_records_ s).
Definition set_abnormal (m : gmap string Z) (s : PbftState) : PbftState :=
  MkPbftState (is_validator_ s) (replica_id_ s) (validators_ s) (instances_ s) (view_number_ s)
    (ckp_interval_ s) (last_exe_seq_ s) (fault_number_ s) (view_active_ s) (vc_instances_ s)
    (out_pbft_instances_ s) (new_view_repond_timer_ s) m.
Definition set_membership (isv : bool) (rid : Z) (vs : gmap string Z) (s : PbftState) : PbftState :=
  MkPbftState isv rid vs (instances_ s) (view_number_ s)
    (ckp_interval_ s) (last_exe_seq_ s) (fault_number_ s) (view_active_ s) (vc_instances_ s)
    (out_pbft_instances_ s) (new_view_repond_timer_ s) (abnormal_records_ s).
Definition set_fault_number (f : Z) (s : PbftState) : PbftState :=
  MkPbftState (is_validator_ s) (replica_id_ s) (validators_ s) (instances_ s) (view_number_ s)
    (ckp_interval_ s) (last_exe_seq_ s) f (view_active_ s) (vc_instances_ s)
    (out_pbft_instances_ s) (new_view_repond_timer_ s) (abnormal_records_ s).

(** ** Quorums, validators, values *)

(** [size_t Pbft::GetQuorumSize(size_t size)] *)
Definition GetQuorumSize (size : Z) : Z :=
  if size =? 1 then 0
  else if (size =? 2) || (size =? 3) then 1
  else
    let fault_number := (size - 1) / 3 in
    if size =? 3 * fault_number + 1 then 2 * fault_number
    else if size =? 3 * fault_number + 2 then 2 * fault_number + 1
    else if size =? 3 * fault_number + 3 then 2 * fault_number + 1
    else size.

Definition vsize (vs : gmap string Z) : Z := Z.of_nat (size vs).
Definition quorum (s : PbftState) : Z := GetQuorumSize (vsize (validators_ s)).

(** [Consensus::GetValidatorIndex(node_address, validators)] *)
Definition GetValidatorIndex (node_address : string) (validators : gmap string Z) : Z :=
  default (-1) (validators !! node_address).

(** [Consensus::CompareValue] *)
Definition CompareValue (value1 value2 : string) : Z :=
  match String.compare value1 value2 with Eq => 0 | Lt => -1 | Gt => 1 end.

(** The [map.insert] loops over a validator list, numbering the addresses. *)
Fixpoint number_validators (l : list string) (counter : Z) (vs : gmap string Z) : gmap string Z :=
  match l with
  | [] => vs
  | a :: l' =>
      number_validators l' (counter + 1)
        (match vs !! a with Some _ => vs | None => <[a := counter]> vs end)
  end.

Section Handlers.
Context {P : PbftParams} (now fresh_timer : Z).
Notation H := (hm PbftState event).

(** ** Message checks *)

Definition replica_of (pbft : Pbft) : option Z :=
  if pb_type pbft =? PBFT_TYPE_PREPREPARE then pp_replica_id <$> pb_pre_prepare_opt pbft
  else if pb_type pbft =? PBFT_TYPE_PREPARE then p_replica_id <$> pb_prepare_opt pbft
  else if pb_type pbft =? PBFT_TYPE_COMMIT then c_replica_id <$> pb_commit_opt pbft
  else if pb_type pbft =? PBFT_TYPE_VIEWCHANGE then v_replica_id <$> pb_view_change_opt pbft
  else if pb_type pbft =? PBFT_TYPE_VIEWCHANG_WITH_RAWVALUE then
    match pb_raw_opt pbft with
    | Some raw => Some (v_replica_id (pb_view_change (env_pbft (raw_view_change_env raw))))
    | None => None
    end
  else if pb_type pbft =? PBFT_TYPE_NEWVIEW then nv_replica_id <$> pb_new_view_opt pbft
  else None.

(** The prepared set a raw view change carries, once its messages passed
    [CheckMessageItem]: same view, sequence and digest as the pre-prepare. *)
Definition prepare_matches (pre_prepare : PbftPrePrepare) (prepare : PbftPrepare) : bool :=
  (p_view_number prepare =? pp_view_number pre_prepare)
  && (p_sequence prepare =? pp_sequence pre_prepare)
  && (CompareValue (p_value_digest prepare) (pp_value_digest pre_prepare) =? 0).

(** [Pbft::CheckMessageItem(env, validators)] with the mutually recursive
    [Pbft::CheckViewChangeWithRawValue] in its raw-view-change branch. *)
Fixpoint CheckMessageItem (validators : gmap string Z) (env : PbftEnv) : bool :=
  match env with
  | MkEnv pb sig =>
    let pbft := default Pbft0 pb in
    let should_replica_id := GetValidatorIndex (EncAddress (public_key sig)) validators in
    if negb (pb_chain_id pbft =? self_chain_id) then false
    else if should_replica_id <? 0 then false
    else
      let raw_ok :=
        match pb with
        | Some (MkPbft _ type _ _ _ _ _ (Some raw) _) =>
          if type =? PBFT_TYPE_VIEWCHANG_WITH_RAWVALUE then
            match raw with
            | MkRaw None _ => false
            | MkRaw (Some inner) pset =>
              if negb (pb_type (env_pbft inner) =? PBFT_TYPE_VIEWCHANGE)
                 || negb (CheckMessageItem validators inner) then false
              else
                let p_value_digest := v_prepred_value_digest (pb_view_change (env_pbft inner)) in
                match pset with
                | None => bool_decide (p_value_digest = ""%string)
                | Some (MkPreparedSet ppe prepares) =>
                  let pre_prepare := pb_pre_prepare (env_pbft (default Env0 ppe)) in
                  match ppe with
                  | None => false   (* the default message has no pre-prepare body *)
                  | Some pre_prepare_env =>
                    CheckMessageItem validators pre_prepare_env
                    && forallb (fun e => CheckMessageItem validators e
                          && prepare_matches pre_prepare (pb_prepare (env_pbft e))) prepares
                    && negb (Z.of_nat (size (list_to_set
                           (map (fun e => p_replica_id (pb_prepare (env_pbft e))) prepares)
                           : gset Z)) <? GetQuorumSize (vsize validators))
                    && bool_decide (p_value_digest = pp_value_digest pre_prepare)
                  end
                end
            end
          else true
        | _ => true
        end in
      match replica_of pbft with
      | None => false
      | Some replica_id =>
        raw_ok && (replica_id =? should_replica_id)
        && Verify (Serialize pbft) (sign_data sig) (public_key sig)
      end
  end.

(** ** Building and sending messages *)

Definition signed (pbft : Pbft) : PbftEnv :=
  MkEnv (Some pbft) (MkSignature self_public_key (Sign (Serialize pbft))).

(** [Pbft::SendMessage] over [Consensus::SendMessage] *)
Definition SendMessage (msg : PbftEnv) : H bool :=
  st ← hget;
  if negb (is_validator_ st) then mret true
  else hemit (EvSend msg) ;; mret true.

Definition NewPrePrepare (s : PbftState) (value : string) (sequence : Z) : PbftEnv :=
  signed (MkPbft 1 PBFT_TYPE_PREPREPARE
    (Some (MkPrePrepare (view_number_ s) sequence (replica_id_ s) value (Hash value)))
    None None None None None self_chain_id).

Definition NewPrepare (s : PbftState) (pre_prepare : PbftPrePrepare) (round_number : Z) : PbftEnv :=
  signed (MkPbft round_number PBFT_TYPE_PREPARE None
    (Some (MkPrepare (pp_view_number pre_prepare) (pp_sequence pre_prepare) (replica_id_ s)
             (pp_value_digest pre_prepare)))
    None None None None self_chain_id).

Definition NewCommit (s : PbftState) (prepare : PbftPrepare) (round_number : Z) : PbftEnv :=
  signed (MkPbft round_number PBFT_TYPE_COMMIT None None
    (Some (MkCommit (p_view_number prepare) (p_sequence prepare) (replica_id_ s)
             (p_value_digest prepare)))
    None None None self_chain_id).

(** [Pbft::IncPeerMessageRound] *)
Definition IncPeerMessageRound (message : PbftEnv) (round_number : Z) : PbftEnv :=
  let 'MkPbft _ t pp p c v nv raw _ := env_pbft message in
  signed (MkPbft round_number t pp p c v nv raw self_chain_id).

(** The prepared set [NewViewChangeRawValue] picks: the last instance, in key
    order, past the executed sequence and in phase PREPARED. [msg_buf_[0][0]] of
    an instance without a pre-prepare is undefined. *)
Fixpoint last_prepared (seq : Z) (rev_instances : list (PbftInstanceIndex * PbftInstance))
  : outcome (option PbftPreparedSet) :=
  match rev_instances with
  | [] => Returns None
  | (index, instance) :: rest =>
      if (seq <? ix_sequence index) && bool_decide (phase_ instance = PBFT_PHASE_PREPARED) then
        match buf_row instance 0 with
        | [] => Throws Trap
        | e :: _ => Returns (Some (MkPreparedSet (Some e) (buf_row instance 1)))
        end
      else last_prepared seq rest
  end.

Definition NewViewChangeRawValue (s : PbftState) (view_number : Z) (prepared_set : PbftPreparedSet)
  : outcome PbftEnv :=
  let* pset := match ps_pre_prepare_opt prepared_set with
               | Some _ => Returns (Some prepared_set)
               | None => last_prepared (last_exe_seq_ s) (rev (instances_ s))
               end in
  let digest := match pset with
                | Some ps => pp_value_digest (pb_pre_prepare (env_pbft (ps_pre_prepare ps)))
                | None => ""%string
                end in
  let inner := MkPbft 0 PBFT_TYPE_VIEWCHANGE None None None
                 (Some (MkViewChange view_number (last_exe_seq_ s) digest (replica_id_ s)))
                 None None self_chain_id in
  Returns (signed (MkPbft 0 PBFT_TYPE_VIEWCHANG_WITH_RAWVALUE None None None None None
                     (Some (MkRaw (Some (signed inner)) pset)) self_chain_id)).

Definition NewNewView (s : PbftState) (vc : PbftVcInstance) : PbftEnv :=
  signed (MkPbft 0 PBFT_TYPE_NEWVIEW None None None None
    (Some (MkNewView (vc_view_number_ vc) (vc_seq vc) (replica_id_ s)
       (map (fun e => raw_view_change_env (pb_raw (env_pbft e))) (vc_msg_buf_ vc))
       (ps_pre_prepare_opt (vc_pre_prepared_env_set vc))))
    None self_chain_id).

(** ** Instances *)

(** [v % validators_.size() == replica_id_], on unsigned 64-bit operands; an
    empty validator set makes the division trap. *)
Definition is_primary (v : Z) : H bool :=
  st ← hget;
  if vsize (validators_ st) =? 0 then hthrow Trap
  else mret (u64 v mod vsize (validators_ st) =? u64 (replica_id_ st)).

(** The instance a reference points to; a dangling reference is undefined. *)
Definition get_inst (index : PbftInstanceIndex) : H PbftInstance :=
  st ← hget;
  match om_find (instances_ st) index with
  | Some i => mret i
  | None => hthrow Trap
  end.
Definition put_inst (index : PbftInstanceIndex) (i : PbftInstance) : H unit :=
  hmod (fun s => set_instances (om_set (instances_ s) index i) s).

Definition InWaterMark (s : PbftState) (seq : Z) : bool :=
  (last_exe_seq_ s <=? seq) && (seq <=? last_exe_seq_ s + ckp_interval_ s).

(** The commit messages of a proof: the first of each public key. *)
Fixpoint proof_commits (vec : list PbftEnv) (commit_node : gset string) : list PbftEnv :=
  match vec with
  | [] => []
  | env :: vec' =>
      if bool_decide (public_key (env_sig env) ∈ commit_node) then proof_commits vec' commit_node
      else env :: proof_commits vec' ({[ public_key (env_sig env) ]} ∪ commit_node)
  end.

(** [Pbft::TryExecuteValue]: the loop over [instances_] in key order. The body
    erases checkpointed instances, so a key may be gone when it is reached. *)
Fixpoint try_execute (keys : list PbftInstanceIndex) : H unit :=
  match keys with
  | [] => mret tt
  | index :: keys' =>
      st ← hget;
      match om_find (instances_ st) index with
      | None => try_execute keys'
      | Some instance =>
          if ix_sequence index <=? last_exe_seq_ st then try_execute keys'
          else if (ix_sequence index =? last_exe_seq_ st + 1)
                  && negb (phase_ltb (phase_ instance) PBFT_PHASE_COMMITED) then
            hmod (set_last_exe_seq (last_exe_seq_ st + 1)) ;;
            hemit (EvValueCommited (ix_sequence index) (pp_value (pre_prepare_ instance))
                     (proof_commits (buf_row instance 2) ∅)) ;;
            hmod (fun s => set_instances (om_erase_if (fun k _ =>
                     ix_sequence k <=? ix_sequence index - Z.quot (ckp_interval_ s) 2)
                     (instances_ s)) s) ;;
            try_execute keys'
          else mret tt
      end
  end.

Definition TryExecuteValue : H bool :=
  st ← hget; try_execute (map fst (instances_ st)) ;; mret true.

(** ** The three phases *)

Definition OnPrePrepare (pbft : Pbft) (index : PbftInstanceIndex) (check_value_ret : CheckValueResult)
  : H bool :=
  st ← hget;
  primary ← is_primary (view_number_ st);
  if primary && negb (vsize (validators_ st) =? 1) then mret true
  else
    let pre_prepare := pb_pre_prepare pbft in
    if negb (bool_decide (pp_value_digest pre_prepare = Hash (pp_value pre_prepare))) then mret false
    else if bool_decide (check_value_ret = CHECK_VALUE_INVALID) then mret false
    else
      i ← get_inst index;
      if negb (bool_decide (phase_ i = PBFT_PHASE_NONE)) then
        if negb (CompareValue (pp_value (pre_prepare_ i)) (pp_value pre_prepare) =? 0) then mret false
        else if negb (bool_decide (check_value_ret = CHECK_VALUE_VALID)) then mret true
        else SendMessage (NewPrepare st pre_prepare (pb_round_number pbft))
      else
        put_inst index (set_check_value check_value_ret
          (set_pre_prepare pre_prepare (set_phase PBFT_PHASE_PREPREPARED 0 i))) ;;
        if negb (bool_decide (check_value_ret = CHECK_VALUE_VALID)) then mret true
        else SendMessage (NewPrepare st pre_prepare 1).

Definition OnPrepare (pbft : Pbft) (index : PbftInstanceIndex) : H bool :=
  i ← get_inst index;
  let prepare := pb_prepare pbft in
  if negb (CompareValue (pp_value_digest (pre_prepare_ i)) (p_value_digest prepare) =? 0)
  then mret false
  else
    st ← hget;
    let i := set_prepares (om_insert (prepares_ i) (p_replica_id prepare) prepare) i in
    if quorum st <=? Z.of_nat (length (prepares_ i)) then
      let i := if phase_ltb (phase_ i) PBFT_PHASE_PREPARED
               then set_phase PBFT_PHASE_PREPARED 0 i else i in
      if bool_decide (check_value_result_ i = CHECK_VALUE_VALID) then
        put_inst index (inst_SetLastCommitSendTime now i) ;;
        SendMessage (NewCommit st prepare (pb_round_number pbft))
      else put_inst index i ;; mret true
    else put_inst index i ;; mret true.

Definition OnCommit (pbft : Pbft) (index : PbftInstanceIndex) : H bool :=
  i ← get_inst index;
  let commit := pb_commit pbft in
  if negb (CompareValue (pp_value_digest (pre_prepare_ i)) (c_value_digest commit) =? 0)
  then mret false
  else
    match om_find (commits_ i) (c_replica_id commit) with
    | Some _ => mret true
    | None =>
        st ← hget;
        let i := set_commits (om_insert (commits_ i) (c_replica_id commit) commit) i in
        if (quorum st + 1 <=? Z.of_nat (length (commits_ i)))
           && phase_ltb (phase_ i) PBFT_PHASE_COMMITED then
          put_inst index (set_end_time now (set_phase PBFT_PHASE_COMMITED 0 i)) ;;
          TryExecuteValue
        else put_inst index i ;; mret true
    end.

(** One call of a phase handler by message type. *)
Definition dispatch (pbft : Pbft) (index : PbftInstanceIndex) (check_value : CheckValueResult)
  (doret : bool) : H bool :=
  if pb_type pbft =? PBFT_TYPE_PREPREPARE then OnPrePrepare pbft index check_value
  else if pb_type pbft =? PBFT_TYPE_PREPARE then OnPrepare pbft index
  else if pb_type pbft =? PBFT_TYPE_COMMIT then OnCommit pbft index
  else mret doret.

(** The [while (msg_buf_[phase_].size() > phase_item_)] loop of [Go]. *)
Fixpoint go_loop (fuel : nat) (index : PbftInstanceIndex) (check_value : CheckValueResult)
  (doret : bool) : H bool :=
  i ← get_inst index;
  match buf_row i (Z.to_nat (phase_num (phase_ i))) !! phase_item_ i with
  | None => mret doret
  | Some env =>
      match fuel with
      | O => hthrow OutOfFuel
      | S n =>
          put_inst index (set_phase (phase_ i) (S (phase_item_ i)) i) ;;
          doret ← dispatch (env_pbft env) index check_value doret;
          go_loop n index check_value doret
      end
  end.

(** [PbftInstance::Go]; the buffered messages bound the loop. *)
Definition Go (env : PbftEnv) (index : PbftInstanceIndex) (check_value : CheckValueResult) : H bool :=
  i ← get_inst index;
  if pb_type (env_pbft env) <? phase_num (phase_ i) then
    dispatch (env_pbft env) index check_value false ;; mret false
  else go_loop (length (concat (msg_buf_ i))) index check_value false.

(** ** Messages outside the current window *)

(** [Pbft::TryDoTraceOut] *)
Definition TryDoTraceOut (index : PbftInstanceIndex) (instance : PbftInstance) : H unit :=
  st ← hget;
  if quorum st + 1 <=? Z.of_nat (length (commits_ instance)) then
    if ckp_interval_ st <=? ix_sequence index - last_exe_seq_ st then
      hmod (fun s => set_last_exe_seq (ix_sequence index) (set_view (ix_view_number index) true s)) ;;
      hemit (EvSaveInt "pbft_view_active" 1) ;;
      hmod (fun s => set_vc_instances
              (om_erase_if (fun _ v => has_pbft (vc_view_change_msg_ v)) (vc_instances_ s)) s) ;;
      st ← hget;
      hemit (EvSaveViewChange (vc_instances_ st)) ;;
      hmod (fun s => set_instances
              (om_erase_if (fun k _ => ix_sequence k <=? last_exe_seq_ s) (instances_ s)) s) ;;
      hmod (set_out_instances []) ;;
      hemit EvResetCloseTimer
    else mret tt
  else mret tt.

(** [Pbft::TraceOutPbftPrePrepare] *)
Definition TraceOutPbftPrePrepare (env : PbftEnv) : H bool :=
  let pre_pre := pb_pre_prepare (env_pbft env) in
  let index := MkIndex (pp_view_number pre_pre) (pp_sequence pre_pre) in
  st ← hget;
  let old := default (new_instance now) (om_find (out_pbft_instances_ st) index) in
  let pp := pre_prepare_ old in
  let instance := set_pre_prepare (MkPrePrepare (pp_view_number pp) (pp_sequence pp)
       (pp_replica_id pp) (pp_value pre_pre) (pp_value_digest pre_pre)) old in
  hmod (fun s => set_out_instances (om_set (out_pbft_instances_ s) index instance) s) ;;
  TryDoTraceOut index instance ;;
  mret true.

(** [Pbft::TraceOutPbftCommit] *)
Definition TraceOutPbftCommit (env : PbftEnv) : H bool :=
  let pbft := env_pbft env in
  let commit := pb_commit pbft in
  let index := MkIndex (c_view_number commit) (c_sequence commit) in
  st ← hget;
  match om_find (instances_ st) index with
  | Some _ => OnCommit pbft index
  | None =>
      let fresh := set_pre_prepare
        (MkPrePrepare 0 0 0 "" (c_value_digest commit)) (new_instance now) in
      hmod (fun s => set_out_instances (om_insert (out_pbft_instances_ s) index fresh) s) ;;
      st ← hget;
      let exist := default fresh (om_find (out_pbft_instances_ st) index) in
      if negb (CompareValue (pp_value_digest (pre_prepare_ exist)) (c_value_digest commit) =? 0)
      then mret false
      else
        let exist := set_commits (om_insert (commits_ exist) (c_replica_id commit) commit) exist in
        hmod (fun s => set_out_instances (om_set (out_pbft_instances_ s) index exist) s) ;;
        TryDoTraceOut index exist ;;
        mret true
  end.

(** The view and sequence a phase message is about. *)
Definition phase_index (pbft : Pbft) : option PbftInstanceIndex :=
  if pb_type pbft =? PBFT_TYPE_PREPREPARE then
    Some (MkIndex (pp_view_number (pb_pre_prepare pbft)) (pp_sequence (pb_pre_prepare pbft)))
  else if pb_type pbft =? PBFT_TYPE_PREPARE then
    Some (MkIndex (p_view_number (pb_prepare pbft)) (p_sequence (pb_prepare pbft)))
  else if pb_type pbft =? PBFT_TYPE_COMMIT then
    Some (MkIndex (c_view_number (pb_commit pbft)) (c_sequence (pb_commit pbft)))
  else None.

(** [Pbft::CreateInstanceIfNotExist]; the returned pointer is the index of the
    instance in [instances_]. *)
Definition CreateInstanceIfNotExist (env : PbftEnv) : H (option PbftInstanceIndex) :=
  let pbft := env_pbft env in
  match phase_index pbft with
  | None => mret None
  | Some index =>
      st ← hget;
      let in_water := InWaterMark st (ix_sequence index) in
      let same_view := view_number_ st =? ix_view_number index in
      if negb in_water || negb same_view then
        (if (last_exe_seq_ st <? ix_sequence index) && (pb_type pbft =? PBFT_TYPE_COMMIT)
         then TraceOutPbftCommit env ;; mret tt else mret tt) ;;
        mret None
      else if negb (view_active_ st) then mret None
      else if ix_sequence index <=? last_exe_seq_ st then mret None
      else
        (match om_find (instances_ st) index with
         | Some _ => mret tt
         | None =>
             hmod (fun s => set_instances
               (om_erase_if (fun k _ => (ix_view_number k <? ix_view_number index)
                                        && (ix_sequence k =? ix_sequence index))
                  (om_insert (instances_ s) index (new_instance now))) s)
         end) ;;
        i ← get_inst index;
        put_inst index (push_msg (pb_type pbft) env i) ;;
        mret (Some index)
  end.

(** ** View changes *)

(** [Pbft::ClearViewChanges] *)
Definition ClearViewChanges : H unit :=
  hmod (fun s => set_vc_instances (om_erase_if (fun _ v =>
          (vc_end_time_ v =? 0) || (vc_view_number_ v <? view_number_ s - 5)) (vc_instances_ s)) s) ;;
  st ← hget;
  hemit (EvSaveViewChange (vc_instances_ st)).

(** The address whose index is the current primary's, the first one met. *)
Definition validator_at (vs : gmap string Z) (i : Z) : option string :=
  fst <$> List.find (fun kv => snd kv =? i) (map_to_list vs).

(** The instances a new view keeps: committed, or prepared and not executed. *)
Definition drop_in_new_view (last_exe_seq : Z) (k : PbftInstanceIndex) (i : PbftInstance) : bool :=
  negb (bool_decide (phase_ i = PBFT_PHASE_COMMITED)
        || (bool_decide (phase_ i = PBFT_PHASE_PREPARED) && (last_exe_seq <? ix_sequence k))).

(** [Pbft::ProcessQuorumViewChange] on the view-change instance of view [vn]. *)
Definition ProcessQuorumViewChange (vn : Z) (vc : PbftVcInstance) : H bool :=
  st ← hget;
  (match validator_at (validators_ st) (Z.rem (view_number_ st) (vsize (validators_ st))) with
   | Some abnormal_node =>
       hmod (fun s => set_abnormal (match abnormal_records_ s !! abnormal_node with
               | Some n => <[abnormal_node := n + 1]> (abnormal_records_ s)
               | None => <[abnormal_node := 1]> (abnormal_records_ s)
               end) s)
   | None => mret tt
   end) ;;
  primary ← is_primary (vc_view_number_ vc);
  if negb primary then
    hmod (set_timer fresh_timer) ;;
    hemit (EvAddTimer (30 * MICRO_UNITS_PER_SEC) (vc_view_number_ vc)
             (vc_pre_prepared_env_set vc)) ;;
    mret true
  else
    st ← hget;
    let msg := NewNewView st vc in
    let vc := vc_set_newview msg (vc_SetLastNewViewTime now vc) in
    SendMessage msg ;;
    let last_cons_value :=
      match ps_pre_prepare_opt (vc_pre_prepared_env_set vc) with
      | Some e => pp_value (pb_pre_prepare (env_pbft e))
      | None => ""%string
      end in
    hmod (fun s => set_instances (om_erase_if (drop_in_new_view (last_exe_seq_ s)) (instances_ s)) s) ;;
    hmod (set_view (vc_view_number_ vc) true) ;;
    hemit (EvSaveInt "pbft_view_active" 1) ;;
    hmod (fun s => set_vc_instances (om_set (vc_instances_ s) vn (vc_ChangeComplete now vc)) s) ;;
    hemit (EvSaveInt "pbft_viewnumber" (vc_view_number_ vc)) ;;
    ClearViewChanges ;;
    hemit EvResetCloseTimer ;;
    hemit (EvViewChanged last_cons_value) ;;
    mret true.

(** The callback of the new-view response timer. *)
Definition OnNewViewTimer (data : Z) (temp_set : PbftPreparedSet) : H unit :=
  st ← hget;
  if view_active_ st then mret tt
  else match NewViewChangeRawValue st (data + 1) temp_set with
       | Returns msg => SendMessage msg ;; mret tt
       | Throws e => hthrow e
       end.

(** The message recorded in the view-change instance of its view: kept for
    resending when it is this node's own, counted once per replica, and its
    prepared set kept when it is about a later sequence. *)
Definition record_view_change (st : PbftState) (pbft_env : PbftEnv) (vc : PbftVcInstance)
  : PbftVcInstance :=
  let raw := pb_raw (env_pbft pbft_env) in
  let view_change := pb_view_change (env_pbft (raw_view_change_env raw)) in
  let vc := if (v_replica_id view_change =? replica_id_ st)
               && negb (has_pbft (vc_view_change_msg_ vc))
            then vc_set_msg pbft_env vc else vc in
  let vc := match om_find (vc_viewchanges_ vc) (v_replica_id view_change) with
            | Some _ => vc
            | None => vc_add_viewchange pbft_env
                (om_insert (vc_viewchanges_ vc) (v_replica_id view_change) view_change) vc
            end in
  match raw_prepared_set_opt raw with
  | Some pset =>
      let msg_seq := pp_sequence (pb_pre_prepare (env_pbft (ps_pre_prepare pset))) in
      let last_seq := pp_sequence (pb_pre_prepare (env_pbft
                        (ps_pre_prepare (vc_pre_prepared_env_set vc)))) in
      if (last_seq <? msg_seq) && (last_exe_seq_ st <? msg_seq)
      then vc_set_prepared pset vc else vc
  | None => vc
  end.

(** [Pbft::OnViewChangeWithRawValue] *)
Definition OnViewChangeWithRawValue (pbft_env : PbftEnv) : H bool :=
  let raw := pb_raw (env_pbft pbft_env) in
  let view_change := pb_view_change (env_pbft (raw_view_change_env raw)) in
  let vn := v_view_number view_change in
  st ← hget;
  if vn =? view_number_ st then mret true
  else if vn <? view_number_ st then mret false
  else
    let vc := record_view_change st pbft_env
                (default (new_vc_instance now vn (v_sequence view_change))
                   (om_find (vc_instances_ st) vn)) in
    hmod (fun s => set_vc_instances (om_set (vc_instances_ s) vn vc) s) ;;
    if (quorum st <? Z.of_nat (length (vc_viewchanges_ vc))) && (vc_end_time_ vc =? 0) then
      ret ← ProcessQuorumViewChange vn vc;
      st ← hget;
      hemit (EvSaveViewChange (vc_instances_ st)) ;;
      mret ret
    else mret true.

(** The loop of [OnNewView] over the embedded view changes: it re-checks the
    outer message, not the embedded one. *)
Fixpoint new_view_replicas (validators : gmap string Z) (pbft_env : PbftEnv) (view : Z)
  (view_changes : list PbftEnv) (replica_set : gset Z) : option (gset Z) :=
  match view_changes with
  | [] => Some replica_set
  | view_change_env :: rest =>
      if negb (CheckMessageItem validators pbft_env) then None
      else
        let view_change := pb_view_change (env_pbft view_change_env) in
        if negb (view =? v_view_number view_change) then None
        else new_view_replicas validators pbft_env view rest
               ({[ v_replica_id view_change ]} ∪ replica_set)
  end.

(** [Pbft::OnNewView] *)
Definition OnNewView (pbft_env : PbftEnv) : H bool :=
  let new_view := pb_new_view (env_pbft pbft_env) in
  st ← hget;
  if nv_view_number new_view =? view_number_ st then mret true
  else if nv_view_number new_view <? view_number_ st then mret false
  else
    hemit (EvDelTimer (new_view_repond_timer_ st)) ;;
    primary ← is_primary (nv_view_number new_view);
    if (primary : bool) then mret true
    else
      match new_view_replicas (validators_ st) pbft_env (nv_view_number new_view)
              (nv_view_changes new_view) ∅ with
      | None => mret false
      | Some replica_set =>
          if Z.of_nat (size replica_set) <=? quorum st then mret false
          else
            hmod (fun s => set_instances
                    (om_erase_if (drop_in_new_view (last_exe_seq_ s)) (instances_ s)) s) ;;
            hmod (set_view (nv_view_number new_view) true) ;;
            hemit (EvSaveInt "pbft_viewnumber" (nv_view_number new_view)) ;;
            hemit (EvSaveInt "pbft_view_active" 1) ;;
            hmod (fun s => match om_find (vc_instances_ s) (view_number_ s) with
                    | Some v => set_vc_instances
                        (om_set (vc_instances_ s) (view_number_ s) (vc_ChangeComplete now v)) s
                    | None => s
                    end) ;;
            ClearViewChanges ;;
            hemit (EvViewChanged "") ;;
            mret true
      end.

(** [Pbft::OnTxTimeout] *)
Definition OnTxTimeout : H unit :=
  st ← hget;
  if negb (is_validator_ st) then mret tt
  else
    hmod (set_view (view_number_ st) false) ;;
    hemit (EvSaveInt "pbft_view_active" 0) ;;
    st ← hget;
    match NewViewChangeRawValue st (view_number_ st + 1) PreparedSet0 with
    | Returns msg => SendMessage msg ;; mret tt
    | Throws e => hthrow e
    end.

(** ** Entry points *)

(** [Pbft::OnRecv], for a message of type pbft. *)
Definition OnRecv (env : PbftEnv) : H bool :=
  st ← hget;
  if negb (CheckMessageItem (validators_ st) env) then mret false
  else
    let pbft := env_pbft env in
    if (pb_type pbft =? PBFT_TYPE_PREPREPARE) || (pb_type pbft =? PBFT_TYPE_PREPARE)
       || (pb_type pbft =? PBFT_TYPE_COMMIT) then
      let ret := if pb_type pbft =? PBFT_TYPE_PREPREPARE
                 then CheckValue (pp_value (pb_pre_prepare pbft)) else CHECK_VALUE_VALID in
      pinstance ← CreateInstanceIfNotExist env;
      match pinstance with
      | Some index => Go env index ret
      | None => mret false
      end
    else if pb_type pbft =? PBFT_TYPE_VIEWCHANG_WITH_RAWVALUE then OnViewChangeWithRawValue env
    else if pb_type pbft =? PBFT_TYPE_NEWVIEW then OnNewView env
    else mret false.

(** [Pbft::Request] *)
Definition Request (value : string) : H bool :=
  st ← hget;
  primary ← is_primary (view_number_ st);
  if negb primary then mret false
  else if negb (view_active_ st) then mret false
  else
    hmod (fun s => set_instances (om_erase_if (fun k i =>
            (last_exe_seq_ s <? ix_sequence k) && phase_ltb (phase_ i) PBFT_PHASE_COMMITED)
            (instances_ s)) s) ;;
    let sequence := last_exe_seq_ st + 1 in
    let env := NewPrePrepare st value sequence in
    let index := MkIndex (view_number_ st) sequence in
    put_inst index
      (push_msg PBFT_TYPE_PREPREPARE env
        (set_pre_prepare (pb_pre_prepare (env_pbft env))
          (set_phase PBFT_PHASE_PREPREPARED 0 (set_pre_prepare_msg env (new_instance now))))) ;;
    SendMessage env.

(** ** Timers *)

(** [PbftInstance::SendPrepareAgain] *)
Definition SendPrepareAgain (index : PbftInstanceIndex) (current_time : Z) : H bool :=
  i ← get_inst index;
  let i := set_rounds (u32 (pre_prepare_round_ i + 1)) (commit_round_ i) i in
  SendMessage (IncPeerMessageRound (pre_prepare_msg_ i) (pre_prepare_round_ i)) ;;
  put_inst index (inst_SetLastProposeTime current_time i) ;;
  mret true.

(** The loop of [OnTimer] over the instances; it returns the last one that
    reached PREPARED. *)
Fixpoint timer_instances (current_time : Z) (keys : list PbftInstanceIndex)
  (last_prepared_instance : option PbftInstanceIndex) : H (option PbftInstanceIndex) :=
  match keys with
  | [] => mret last_prepared_instance
  | index :: keys' =>
      i ← get_inst index;
      (if inst_IsExpire i current_time && negb (have_send_viewchange_ i) then
         OnTxTimeout ;; put_inst index (set_have_send_viewchange true i)
       else mret tt) ;;
      i ← get_inst index;
      st ← hget;
      (if inst_NeedSendAgain i current_time && view_active_ st && has_pbft (pre_prepare_msg_ i) then
         SendPrepareAgain index current_time ;; mret tt
       else mret tt) ;;
      timer_instances current_time keys'
        (if negb (phase_ltb (phase_ i) PBFT_PHASE_PREPARED) then Some index
         else last_prepared_instance)
  end.

(** The loop over the view-change instances; it returns the last one whose new
    view this node has to repeat. *)
Fixpoint timer_vc (current_time : Z) (keys : list Z) (lastvc : option Z) : H (option Z) :=
  match keys with
  | [] => mret lastvc
  | vn :: keys' =>
      st ← hget;
      match om_find (vc_instances_ st) vn with
      | None => hthrow Trap
      | Some vc =>
          vc ← (if vc_NeedSendAgain vc current_time && has_pbft (vc_view_change_msg_ vc) then
                  let vc := vc_set_rounds (u32 (vc_view_change_round_ vc + 1))
                              (vc_new_view_round_ vc) vc in
                  SendMessage (IncPeerMessageRound (vc_view_change_msg_ vc)
                                 (vc_view_change_round_ vc)) ;;
                  let vc := vc_SetLastProposeTime current_time vc in
                  hmod (fun s => set_vc_instances (om_set (vc_instances_ s) vn vc) s) ;;
                  mret vc
                else mret vc);
          primary ← (if vc_NeedSendNewViewAgain vc current_time
                     then is_primary (vc_view_number_ vc) else mret false);
          timer_vc current_time keys' (if (primary : bool) then Some vn else lastvc)
      end
  end.

(** [PbftVcInstance::SendNewViewAgain] *)
Definition SendNewViewAgain (vn current_time : Z) : H bool :=
  st ← hget;
  match om_find (vc_instances_ st) vn with
  | None => hthrow Trap
  | Some vc =>
      let vc := vc_SetLastNewViewTime current_time
                  (vc_set_rounds (vc_view_change_round_ vc) (u32 (vc_new_view_round_ vc + 1)) vc) in
      hmod (fun s => set_vc_instances (om_set (vc_instances_ s) vn vc) s) ;;
      SendMessage (IncPeerMessageRound (vc_newview_ vc) (vc_new_view_round_ vc))
  end.

(** [Pbft::OnTimer] *)
Definition OnTimer (current_time : Z) : H unit :=
  st ← hget;
  last ← timer_instances current_time (map fst (instances_ st)) None;
  (match last with
   | None => mret tt
   | Some index =>
       i ← get_inst index;
       if bool_decide (check_value_result_ i = CHECK_VALUE_VALID)
          && inst_NeedSendCommitAgain i current_time then
         match prepares_ i with
         | [] => hthrow Trap
         | (_, prepare) :: _ =>
             st ← hget;
             let i := set_rounds (pre_prepare_round_ i) (u32 (commit_round_ i + 1)) i in
             SendMessage (NewCommit st prepare (commit_round_ i)) ;;
             put_inst index (inst_SetLastCommitSendTime current_time i)
         end
       else mret tt
   end) ;;
  st ← hget;
  lastvc ← timer_vc current_time (map fst (vc_instances_ st)) None;
  match lastvc with
  | Some vn => SendNewViewAgain vn current_time ;; mret tt
  | None => mret tt
  end.

(** ** Validator updates and block proofs *)

(** [Pbft::ClearNotCommitedInstance] *)
Definition ClearNotCommitedInstance : H unit :=
  hmod (fun s => set_instances (om_erase_if (fun _ i => phase_ltb (phase_ i) PBFT_PHASE_COMMITED)
                                  (instances_ s)) s).

(** [Consensus::UpdateValidators] *)
Definition Consensus_UpdateValidators (validators : list string) : H bool :=
  let vs := number_validators validators 0 ∅ in
  let isv := bool_decide (self_address ∈ validators) in
  hmod (set_membership isv (if isv then default (-1) (vs !! self_address) else -1) vs) ;;
  mret true.

(** The comparison loop of [Pbft::UpdateValidators]. *)
Fixpoint validators_differ (vs : gmap string Z) (l : list string) (validator_index : Z) : bool :=
  match l with
  | [] => false
  | a :: l' =>
      match vs !! a with
      | None => true
      | Some i => if negb (i =? validator_index) then true
                  else validators_differ vs l' (validator_index + 1)
      end
  end.

(** [Pbft::UpdateValidators] *)
Definition UpdateValidators (validators : list string) (proof : string) : H bool :=
  st ← hget;
  let parsed :=
    if bool_decide (proof = ""%string) then Some (0, -1)
    else match ParseProof proof with
         | None => None
         | Some [] => Some (-1, -1)
         | Some (env :: _) =>
             let commit := pb_commit (env_pbft env) in
             Some (if view_number_ st <=? c_view_number commit then c_view_number commit + 1 else -1,
                   if last_exe_seq_ st <? c_sequence commit then c_sequence commit else -1)
         end in
  match parsed with
  | None => mret false
  | Some (new_view_number, new_seq) =>
      (if negb (Z.of_nat (length validators) =? vsize (validators_ st))
          || validators_differ (validators_ st) validators 0 then
         Consensus_UpdateValidators validators ;;
         hmod (fun s => set_fault_number (u64 (vsize (validators_ s) - 1) / 3) s) ;;
         st ← hget;
         hemit (EvSaveValidators (validators_ st)) ;;
         ClearNotCommitedInstance ;;
         hemit EvResetCloseTimer ;;
         hmod (set_abnormal ∅)
       else mret tt) ;;
      (if 0 <? new_seq then
         hmod (set_last_exe_seq new_seq) ;;
         hemit (EvSaveInt "pbft_lastexesequence" new_seq)
       else mret tt) ;;
      (if (0 <? new_view_number) || (0 <? new_seq) then
         ClearNotCommitedInstance ;;
         hmod (fun s => set_view (if 0 <? new_view_number then new_view_number
                                  else view_number_ s) true s) ;;
         hemit (EvSaveInt "pbft_view_active" 1) ;;
         st ← hget;
         hemit (EvSaveInt "pbft_viewnumber" (view_number_ st)) ;;
         hmod (fun s => set_vc_instances (om_erase_if (fun _ v =>
                 (vc_end_time_ v =? 0) || (vc_view_number_ v <? view_number_ s - 5))
                 (vc_instances_ s)) s) ;;
         hemit EvResetCloseTimer
       else mret tt) ;;
      mret true
  end.

(** The loop of [Pbft::CheckProof] over the commits: each signer is removed from
    the validators still expected. *)
Fixpoint check_commits (previous_value_hash : string) (commits : list PbftEnv)
  (temp_vs : gmap string Z) : option (gmap string Z) :=
  match commits with
  | [] => Some temp_vs
  | env :: rest =>
      let pbft := env_pbft env in
      if negb (CheckMessageItem temp_vs env) then None
      else if negb (pb_type pbft =? PBFT_TYPE_COMMIT) || negb (bool_decide (is_Some (pb_commit_opt pbft)))
      then None
      else if negb (bool_decide (c_value_digest (pb_commit pbft) = previous_value_hash)) then None
      else
        let address := EncAddress (public_key (env_sig env)) in
        match temp_vs !! address with
        | None => None
        | Some _ => check_commits previous_value_hash rest (delete address temp_vs)
        end
  end.

(** [Pbft::CheckProof] *)
Definition CheckProof (validators : list string) (previous_value_hash proof : string) : bool :=
  let temp_vs := number_validators validators 0 ∅ in
  let qsize := GetQuorumSize (vsize temp_vs) + 1 in
  match ParseProof proof with
  | None => false
  | Some commits =>
      match check_commits previous_value_hash commits temp_vs with
      | None => false
      | Some remaining => qsize <=? vsize temp_vs - vsize remaining
      end
  end.

(** ** Queries *)

(** [Pbft::IsLeader] *)
Definition IsLeader : H Z :=
  st ← hget;
  if is_validator_ st then
    primary ← is_primary (view_number_ st);
    mret (if (primary : bool) then 1 else 0)
  else mret 0.

(** [Pbft::CurrentLeader]: the last address, in map order, with the primary's index. *)
Definition CurrentLeader : H string :=
  st ← hget;
  if vsize (validators_ st) =? 0 then hthrow Trap
  else
    let leaderId := s64 (u64 (view_number_ st) mod vsize (validators_ st)) in
    mret (default ""%string (validator_at (validators_ st) leaderId)).

(** [Pbft::GetSeq] *)
Definition GetSeq (pbft_env : PbftEnv) : Z :=
  let pbft := env_pbft pbft_env in
  if pb_type pbft =? PBFT_TYPE_PREPREPARE then pp_sequence (pb_pre_prepare pbft)
  else if pb_type pbft =? PBFT_TYPE_PREPARE then p_sequence (pb_prepare pbft)
  else if pb_type pbft =? PBFT_TYPE_COMMIT then c_sequence (pb_commit pbft)
  else if pb_type pbft =? PBFT_TYPE_VIEWCHANGE then v_sequence (pb_view_change pbft)
  else if pb_type pbft =? PBFT_TYPE_NEWVIEW then nv_sequence (pb_new_view pbft)
  else 0.

(** [Pbft::GetValue] *)
Definition GetValue (pbft_env : PbftEnv) : list string :=
  let pbft := env_pbft pbft_env in
  if pb_type pbft =? PBFT_TYPE_PREPREPARE then
    match pb_pre_prepare_opt pbft with Some pp => [pp_value pp] | None => [] end
  else if pb_type pbft =? PBFT_TYPE_VIEWCHANG_WITH_RAWVALUE then
    match pb_raw_opt pbft with
    | Some raw => [pp_value (pb_pre_prepare (env_pbft (ps_pre_prepare (raw_prepared_set raw))))]
    | None => []
    end
  else if pb_type pbft =? PBFT_TYPE_NEWVIEW then
    match pb_new_view_opt pbft with
    | Some nv => [pp_value (pb_pre_prepare (env_pbft (nv_pre_prepare nv)))]
    | None => []
    end
  else [].
End Handlers.
