(* ===== verification/PbftChecks.v ===== *)
(** * PBFT: quorums, message checks and block proofs

    Quorum arithmetic of [GetQuorumSize], what an accepted message proves about
    its sender, the exact meaning of [CheckProof], and the prepared certificate
    of a view change. *)
From S2P Require Import Prelude OrdMap PbftData Pbft.

(** ** Quorum arithmetic *)

Definition max_faulty (n : Z) : Z := (n - 1) / 3.

(** [GetQuorumSize] is the least [q] for which any two sets of [q + 1] replicas
    share more than [max_faulty] members. *)
Lemma quorum_bounds n : 1 <= n ->
  n + max_faulty n + 1 <= 2 * (GetQuorumSize n + 1) /\ GetQuorumSize n + 1 <= n - max_faulty n
  /\ 2 * GetQuorumSize n < n + max_faulty n + 1.
Proof.
  intros Hn. unfold GetQuorumSize, max_faulty.
  assert (Hd := Z_div_mod_eq_full (n - 1) 3). assert (Hm := Z.mod_pos_bound (n - 1) 3).
  repeat case_match; lia.
Qed.

Lemma quorum_range n : 1 <= n -> 0 <= GetQuorumSize n < n.
Proof.
  intros Hn. pose proof (quorum_bounds n Hn). unfold max_faulty in *.
  assert (0 <= (n - 1) / 3) by (apply Z.div_pos; lia). lia.
Qed.

Lemma size_intersection_bound (V X Y : gset Z) :
  X ⊆ V -> Y ⊆ V -> (size X + size Y <= size V + size (X ∩ Y))%nat.
Proof.
  intros HX HY.
  assert (H1 : size (X ∪ Y) = (size X + size (Y ∖ X))%nat) by apply size_union_alt.
  assert (H2 : (size (X ∪ Y) <= size V)%nat) by (apply subseteq_size; set_solver).
  assert (H3 : size Y = (size (X ∩ Y) + size (Y ∖ X))%nat).
  { rewrite <- size_union by set_solver. f_equal. apply leibniz_equiv. intros x.
    destruct (decide (x ∈ X)); set_solver. }
  lia.
Qed.

(** ** Accepted messages *)

Lemma CompareValue_eq a b : CompareValue a b =? 0 = bool_decide (a = b).
Proof.
  unfold CompareValue. destruct (bool_decide_reflect (a = b)) as [->|Hne].
  - pose proof (String.compare_antisym b b) as E. by destruct (String.compare b b).
  - destruct (String.compare a b) eqn:E; try done.
    by apply String.compare_eq_iff in E.
Qed.

Lemma GetValidatorIndex_some vs a :
  (GetValidatorIndex a vs <? 0) = false -> vs !! a = Some (GetValidatorIndex a vs).
Proof. unfold GetValidatorIndex. by destruct (vs !! a). Qed.

Section Checks.
Context {P : PbftParams}.

Definition sender (env : PbftEnv) : string := EncAddress (public_key (env_sig env)).
Definition verified (env : PbftEnv) : Prop :=
  Verify (Serialize (env_pbft env)) (sign_data (env_sig env)) (public_key (env_sig env)) = true.

(** What every accepted message guarantees. *)
Record authentic (vs : gmap string Z) (env : PbftEnv) : Prop := {
  auth_chain : pb_chain_id (env_pbft env) = self_chain_id;
  auth_index : exists r, vs !! sender env = Some r /\ 0 <= r /\ replica_of (env_pbft env) = Some r;
  auth_sig : verified env }.

Lemma CheckMessageItem_authentic vs env : CheckMessageItem vs env = true -> authentic vs env.
Proof.
  destruct env as [pb sig]. cbn [CheckMessageItem]. intros Hc.
  change (default Pbft0 pb) with (env_pbft (MkEnv pb sig)) in Hc.
  destruct (pb_chain_id _ =? self_chain_id) eqn:E1; cbn [negb] in Hc; [|done].
  destruct (GetValidatorIndex _ vs <? 0) eqn:E2; [done|].
  destruct (replica_of _) as [r|] eqn:E3; [|done].
  rewrite !andb_true_iff in Hc. destruct Hc as [[_ Hr] Hv].
  apply Z.eqb_eq in E1, Hr. apply Z.ltb_ge in E2 as Hpos. subst r.
  split; [done| |done].
  exists (GetValidatorIndex (EncAddress (public_key sig)) vs). split; [|done].
  by apply GetValidatorIndex_some.
Qed.

(** For the messages without a raw value the check is exactly that. *)
Lemma CheckMessageItem_exact vs env :
  pb_type (env_pbft env) <> PBFT_TYPE_VIEWCHANG_WITH_RAWVALUE ->
  CheckMessageItem vs env = true <-> authentic vs env.
Proof.
  intros Ht. split; [apply CheckMessageItem_authentic|].
  intros [Hch (r & Hr & Hpos & Hrep) Hv]. destruct env as [pb sig].
  cbn [CheckMessageItem]. unfold verified, sender in *.
  cbn [env_sig] in *. change (default Pbft0 pb) with (env_pbft (MkEnv pb sig)).
  rewrite Hch, Z.eqb_refl. cbn [negb]. unfold GetValidatorIndex. rewrite Hr. cbn [default from_option id].
  assert (r <? 0 = false) as -> by lia. rewrite Hrep, Z.eqb_refl, Hv.
  unfold env_pbft in Ht. cbn [env_pbft_opt] in Ht.
  repeat case_match; try done; subst; cbn in *; lia.
Qed.

(** ** Block proofs *)

Definition valid_commit (vs : gmap string Z) (hash : string) (env : PbftEnv) : Prop :=
  authentic vs env /\ pb_type (env_pbft env) = PBFT_TYPE_COMMIT
  /\ c_value_digest (pb_commit (env_pbft env)) = hash.

Lemma authentic_delete vs a env :
  authentic (delete a vs) env <-> authentic vs env /\ sender env <> a.
Proof.
  split.
  - intros [Hc (r & [Hne Hr]%lookup_delete_Some & Hx) Hs]. split; [|done].
    split; eauto.
  - intros [[Hc (r & Hr & Hx) Hs] Hne]. split; [done| |done].
    exists r. by rewrite lookup_delete_ne.
Qed.

Lemma commit_has_body env r :
  pb_type (env_pbft env) = PBFT_TYPE_COMMIT -> replica_of (env_pbft env) = Some r ->
  is_Some (pb_commit_opt (env_pbft env)) /\ c_replica_id (pb_commit (env_pbft env)) = r.
Proof.
  intros Ht Hr. unfold replica_of in Hr. rewrite Ht in Hr. cbn in Hr.
  unfold pb_commit. destruct (pb_commit_opt _); [|done]. cbn in Hr. by simplify_eq.
Qed.

Lemma check_commits_exact hash commits vs left' :
  check_commits hash commits vs = Some left' <->
  Forall (valid_commit vs hash) commits /\ NoDup (map sender commits)
  /\ left' = foldr delete vs (rev (map sender commits)).
Proof.
  revert vs. induction commits as [|env rest IH]; intros vs; cbn [check_commits map rev].
  { split; [intros [= ->]; repeat constructor|intros (_ & _ & ->); done]. }
  rewrite foldr_app. cbn [foldr].
  assert (Hhd : (if negb (CheckMessageItem vs env) then false
     else if negb (pb_type (env_pbft env) =? PBFT_TYPE_COMMIT)
             || negb (bool_decide (is_Some (pb_commit_opt (env_pbft env)))) then false
     else if negb (bool_decide (c_value_digest (pb_commit (env_pbft env)) = hash)) then false
     else bool_decide (is_Some (vs !! sender env))) = true <-> valid_commit vs hash env).
  { split.
    - destruct (CheckMessageItem vs env) eqn:E1; [|done].
      destruct (pb_type _ =? _) eqn:E2; [|done]. cbn. destruct (bool_decide (is_Some (pb_commit_opt _))); [|done].
      case_bool_decide; [|done]. intros _. split_and!; [by apply CheckMessageItem_authentic|lia|done].
    - intros (Ha & Ht & Hd). pose proof (auth_index _ _ Ha) as (r & Hr & _ & Hrep).
      destruct (commit_has_body env r Ht Hrep) as [Hb _].
      rewrite (proj2 (CheckMessageItem_exact vs env ltac:(by rewrite Ht)) Ha).
      cbn [negb]. rewrite Ht, Z.eqb_refl, bool_decide_true by done. cbn [negb orb].
      rewrite bool_decide_true by done. cbn [negb]. by rewrite Hr. }
  fold (sender env). rewrite !Forall_cons, NoDup_cons, <- Hhd. clear Hhd.
  destruct (CheckMessageItem vs env); cbn [negb]; [|naive_solver].
  destruct (_ || _); [naive_solver|].
  destruct (bool_decide (c_value_digest _ = hash)); cbn [negb]; [|naive_solver].
  destruct (vs !! sender env) eqn:Ea; cbn; [|naive_solver].
  rewrite IH. assert (Hv : Forall (valid_commit (delete (sender env) vs) hash) rest <->
     Forall (valid_commit vs hash) rest /\ sender env ∉ map sender rest).
  { rewrite !Forall_forall. setoid_rewrite list_elem_of_fmap.
    unfold valid_commit. setoid_rewrite authentic_delete. naive_solver. }
  rewrite Hv. naive_solver.
Qed.

Lemma foldr_delete_lookup (l : list string) (vs : gmap string Z) a :
  a ∉ l -> foldr delete vs l !! a = vs !! a.
Proof.
  induction l as [|b l IH]; [done|]. intros [Hne Hni]%not_elem_of_cons. cbn.
  rewrite lookup_delete_ne by done. auto.
Qed.

Lemma foldr_delete_size (l : list string) (vs : gmap string Z) :
  NoDup l -> Forall (fun a => is_Some (vs !! a)) l ->
  vsize (foldr delete vs l) + Z.of_nat (length l) = vsize vs.
Proof.
  unfold vsize. intros Hnd. induction Hnd as [|a l Hni Hnd IH]; intros Hall; cbn [foldr length]; [lia|].
  apply Forall_cons in Hall as [[r Hr] Hall]. specialize (IH Hall).
  assert (Hl : foldr delete vs l !! a = Some r) by (by rewrite foldr_delete_lookup).
  rewrite (map_size_delete_Some a (foldr delete vs l)) by eauto.
  assert (size (foldr delete vs l) <> 0)%nat; [|lia].
  intros Hz%map_size_empty_iff. by rewrite Hz in Hl.
Qed.

(** The commits that make [CheckProof] accept. *)
Lemma CheckProof_exact validators hash proof commits :
  let vs := number_validators validators 0 ∅ in
  ParseProof proof = Some commits ->
  CheckProof validators hash proof = true <->
  Forall (valid_commit vs hash) commits /\ NoDup (map sender commits)
  /\ GetQuorumSize (vsize vs) + 1 <= Z.of_nat (length commits).
Proof.
  intros vs Hp. unfold CheckProof. fold vs. rewrite Hp.
  pose proof (check_commits_exact hash commits vs) as Hex.
  assert (Hsz : Forall (valid_commit vs hash) commits -> NoDup (map sender commits) ->
     vsize vs - vsize (foldr delete vs (rev (map sender commits))) = Z.of_nat (length commits)).
  { intros Hall Hnd. rewrite <- (foldr_delete_size (rev (map sender commits)) vs).
    - rewrite length_rev, length_map. lia.
    - by rewrite <- Permutation_rev.
    - apply Forall_rev, Forall_fmap. eapply Forall_impl; [exact Hall|].
      intros env ([_ (r & Hr & _) _] & _). cbn. eauto. }
  destruct (check_commits hash commits vs) as [l|].
  - destruct (proj1 (Hex l) eq_refl) as (Hall & Hnd & ->). rewrite Hsz by done.
    rewrite Z.leb_le. naive_solver.
  - split; [done|]. intros (Hall & Hnd & _).
    specialize (Hex (foldr delete vs (rev (map sender commits)))). naive_solver.
Qed.
End Checks.
