(* ===== verification/PbftInv.v ===== *)
(** * PBFT: the invariant of a node and what every handler preserves

    [inst_ok] is the well-formedness of a consensus instance, [Inv] that of a
    node. [ext] relates the states before and after a handler: the invariant
    is kept, the validators do not change, the values handed to the ledger are
    certified and in order, and commits are only sent for certified digests. *)
From S2P Require Import Prelude OrdMap PbftData Pbft PbftChecks.

Section Inv.
(** [Net] holds of the messages that exist on the network: what a node receives. *)
Context {P : PbftParams} {Net : PbftEnv -> Prop}.

Definition accepted (vs : gmap string Z) (env : PbftEnv) : Prop :=
  Net env /\ CheckMessageItem vs env = true.

(** An accepted message of the given type about the instance [k]. *)
Definition checked (vs : gmap string Z) (k : PbftInstanceIndex) (t : Z) (env : PbftEnv) : Prop :=
  accepted vs env /\ pb_type (env_pbft env) = t /\ phase_index (env_pbft env) = Some k.

Definition prepare_cert vs k (p : PbftPrepare) : Prop :=
  exists env, checked vs k PBFT_TYPE_PREPARE env /\ pb_prepare (env_pbft env) = p.
Definition commit_cert vs k (c : PbftCommit) : Prop :=
  exists env, checked vs k PBFT_TYPE_COMMIT env /\ pb_commit (env_pbft env) = c.

Definition qsize (vs : gmap string Z) : Z := GetQuorumSize (vsize vs).

(** The digest an instance is about. *)
Definition digest (i : PbftInstance) : string := pp_value_digest (pre_prepare_ i).

Record inst_ok (vs : gmap string Z) (k : PbftInstanceIndex) (i : PbftInstance) : Prop := {
  ok_psorted : om_sorted (prepares_ i);
  ok_csorted : om_sorted (commits_ i);
  ok_rows : length (msg_buf_ i) = PBFT_PHASE_MAX;
  ok_buf : forall t e, e ∈ buf_row i t ->
    pb_type (env_pbft e) = Z.of_nat t /\ phase_index (env_pbft e) = Some k
    /\ (t <> 0%nat -> accepted vs e);
  ok_pp : pre_prepare_ i = PrePrepare0 \/
    (digest i = Hash (pp_value (pre_prepare_ i))
     /\ MkIndex (pp_view_number (pre_prepare_ i)) (pp_sequence (pre_prepare_ i)) = k);
  ok_none : phase_ i = PBFT_PHASE_NONE -> pre_prepare_ i = PrePrepare0 /\ prepares_ i = [];
  ok_prepares : Forall (fun rp => p_replica_id rp.2 = rp.1 /\ p_value_digest rp.2 = digest i
                          /\ prepare_cert vs k rp.2) (prepares_ i);
  ok_commits : Forall (fun rc => c_replica_id rc.2 = rc.1
                          /\ (c_value_digest rc.2 = digest i \/ c_value_digest rc.2 = ""%string)
                          /\ commit_cert vs k rc.2) (commits_ i);
  ok_prepared : phase_ i = PBFT_PHASE_PREPARED -> qsize vs <= Z.of_nat (length (prepares_ i));
  ok_commited : phase_ i = PBFT_PHASE_COMMITED -> qsize vs + 1 <= Z.of_nat (length (commits_ i));
  ok_ppmsg : pb_type (env_pbft (pre_prepare_msg_ i)) <> PBFT_TYPE_COMMIT }.

Definition vc_ok (v : PbftVcInstance) : Prop :=
  pb_type (env_pbft (vc_view_change_msg_ v)) <> PBFT_TYPE_COMMIT
  /\ pb_type (env_pbft (vc_newview_ v)) <> PBFT_TYPE_COMMIT.

(** The commits gathered outside the current window are certified too. *)
Definition out_ok (vs : gmap string Z) (k : PbftInstanceIndex) (i : PbftInstance) : Prop :=
  om_sorted (commits_ i)
  /\ Forall (fun rc => c_replica_id rc.2 = rc.1 /\ c_value_digest rc.2 = digest i
               /\ commit_cert vs k rc.2) (commits_ i).

Record Inv (s : PbftState) : Prop := {
  inv_sorted : om_sorted (instances_ s);
  inv_insts : Forall (fun ki => inst_ok (validators_ s) ki.1 ki.2) (instances_ s);
  inv_vcs : Forall (fun kv => vc_ok kv.2) (vc_instances_ s);
  inv_outs : Forall (fun ki => out_ok (validators_ s) ki.1 ki.2) (out_pbft_instances_ s) }.

(** ** Events *)

(** A value handed to the ledger comes from an instance with a commit
    certificate; a commit is sent only for the digest of an instance with a
    prepare or a commit certificate. *)
Definition ev_ok (vs : gmap string Z) (e : event) : Prop :=
  match e with
  | EvValueCommited seq value proof =>
      exists view i, inst_ok vs (MkIndex view seq) i /\ phase_ i = PBFT_PHASE_COMMITED
        /\ pp_value (pre_prepare_ i) = value /\ proof = proof_commits (buf_row i 2) ∅
  | EvSend env =>
      pb_type (env_pbft env) = PBFT_TYPE_COMMIT ->
      exists k i, inst_ok vs k i /\ phase_index (env_pbft env) = Some k
        /\ c_value_digest (pb_commit (env_pbft env)) = digest i
        /\ (qsize vs <= Z.of_nat (length (prepares_ i)) \/ phase_ i = PBFT_PHASE_COMMITED)
  | _ => True
  end.

(** How the last executed sequence moves: one step per executed value, or a
    jump of at least [ckp] sequences, which executes nothing and lands on a
    sequence with a commit certificate. *)
Inductive advance (vs : gmap string Z) (ckp : Z) : Z -> list event -> Z -> Prop :=
| adv_nil a : advance vs ckp a [] a
| adv_exec a v p es b :
    advance vs ckp (a + 1) es b -> advance vs ckp a (EvValueCommited (a + 1) v p :: es) b
| adv_other a e es b :
    match e with EvValueCommited _ _ _ => False | _ => True end ->
    advance vs ckp a es b -> advance vs ckp a (e :: es) b
| adv_jump a k i es b :
    a + ckp <= ix_sequence k -> out_ok vs k i -> qsize vs + 1 <= Z.of_nat (length (commits_ i)) ->
    advance vs ckp (ix_sequence k) es b -> advance vs ckp a es b.

Lemma advance_app vs ckp a es b es' c :
  advance vs ckp a es b -> advance vs ckp b es' c -> advance vs ckp a (es ++ es') c.
Proof. induction 1; cbn; eauto using advance. Qed.

Record ext (s s' : PbftState) (es : list event) : Prop := {
  ext_validators : validators_ s' = validators_ s;
  ext_ckp : ckp_interval_ s' = ckp_interval_ s;
  ext_inv : Inv s';
  ext_events : Forall (ev_ok (validators_ s)) es;
  ext_advance : advance (validators_ s) (ckp_interval_ s) (last_exe_seq_ s) es (last_exe_seq_ s') }.

Lemma ext_trans s s1 s2 es1 es2 : ext s s1 es1 -> ext s1 s2 es2 -> ext s s2 (es1 ++ es2).
Proof.
  intros [V1 C1 I1 E1 A1] [V2 C2 I2 E2 A2]. split; [congruence|congruence|done| |].
  - apply Forall_app. rewrite V1 in E2. done.
  - rewrite C1, V1 in A2. by eapply advance_app.
Qed.

Lemma ext_frame s s' :
  Inv s -> instances_ s' = instances_ s -> validators_ s' = validators_ s ->
  ckp_interval_ s' = ckp_interval_ s -> last_exe_seq_ s' = last_exe_seq_ s ->
  Forall (fun kv => vc_ok kv.2) (vc_instances_ s') ->
  Forall (fun ki => out_ok (validators_ s) ki.1 ki.2) (out_pbft_instances_ s') -> ext s s' [].
Proof.
  intros [HS HI HV HO] Ei Ev Ec El Hvc Hout.
  split; [done|done| |constructor|rewrite El; constructor].
  split; rewrite ?Ei, ?Ev; done.
Qed.

Lemma ext_refl s : Inv s -> ext s s [].
Proof. intros HI. apply ext_frame; try done; apply HI. Qed.

Lemma ext_event s s' e es :
  ev_ok (validators_ s) e -> match e with EvValueCommited _ _ _ => False | _ => True end ->
  ext s s' es -> ext s s' (e :: es).
Proof. intros He Hn []. split; try done; [by constructor|by apply adv_other]. Qed.

Lemma ext_insts s m :
  Inv s -> om_sorted m -> Forall (fun ki => inst_ok (validators_ s) ki.1 ki.2) m ->
  ext s (set_instances m s) [].
Proof. intros [HS HI HV HO] Hm Hf. split; try done; constructor. Qed.

Lemma ext_put s k i :
  Inv s -> inst_ok (validators_ s) k i -> ext s (set_instances (om_set (instances_ s) k i) s) [].
Proof. intros HI Hi. destruct HI. apply ext_insts; [done| |]; auto with ordmap. Qed.

Lemma ext_erase s p : Inv s -> ext s (set_instances (om_erase_if p (instances_ s)) s) [].
Proof. intros HI. destruct HI. apply ext_insts; [done| |]; auto with ordmap. Qed.

Lemma inv_find s k i : Inv s -> om_find (instances_ s) k = Some i -> inst_ok (validators_ s) k i.
Proof.
  intros [_ HI _ _] Hf%om_find_in. rewrite Forall_forall in HI. by apply (HI _ Hf).
Qed.

(** ** Primitive operations *)

Lemma SendMessage_inv msg s r s' es :
  SendMessage msg s = Returns (r, s', es) ->
  r = true /\ s' = s /\ es = if is_validator_ s then [EvSend msg] else [].
Proof. unfold SendMessage. intros Hr. hinv Hr; destruct (is_validator_ _); done. Qed.

Lemma is_primary_inv v s r s' es : is_primary v s = Returns (r, s', es) -> s' = s /\ es = [].
Proof. unfold is_primary. intros Hr. by hinv Hr. Qed.

Lemma get_inst_inv k s i s' es :
  get_inst k s = Returns (i, s', es) -> om_find (instances_ s) k = Some i /\ s' = s /\ es = [].
Proof. unfold get_inst. intros Hr. by hinv Hr. Qed.

Lemma put_inst_inv k i s r s' es :
  put_inst k i s = Returns (r, s', es) ->
  s' = set_instances (om_set (instances_ s) k i) s /\ es = [].
Proof. unfold put_inst. intros Hr. by hinv Hr. Qed.

Lemma send_ext msg s r s' es :
  Inv s -> ev_ok (validators_ s) (EvSend msg) -> SendMessage msg s = Returns (r, s', es) ->
  ext s s' es /\ s' = s.
Proof.
  intros HI He (_ & -> & ->)%SendMessage_inv. split; [|done].
  destruct (is_validator_ s); [apply ext_event; [done|done|]|]; by apply ext_refl.
Qed.

Lemma send_other msg vs :
  pb_type (env_pbft msg) <> PBFT_TYPE_COMMIT -> ev_ok vs (EvSend msg).
Proof. intros Hn Ht. done. Qed.

(** ** Instances *)

Lemma inst_ok_same vs k i i' :
  phase_ i' = phase_ i -> pre_prepare_ i' = pre_prepare_ i -> prepares_ i' = prepares_ i ->
  commits_ i' = commits_ i -> msg_buf_ i' = msg_buf_ i ->
  pre_prepare_msg_ i' = pre_prepare_msg_ i -> inst_ok vs k i -> inst_ok vs k i'.
Proof.
  intros E1 E2 E3 E4 E5 E6 []. split; unfold digest, buf_row in *;
    rewrite ?E1, ?E2, ?E3, ?E4, ?E5, ?E6; done.
Qed.

Lemma new_instance_ok vs k t : inst_ok vs k (new_instance t).
Proof.
  split; cbn; try done; try by constructor.
  - intros t' e. unfold buf_row. cbn.
    destruct t' as [|[|[|[|t']]]]; cbn; intros He; try by apply elem_of_nil in He.
Qed.

Lemma buf_row_push i t env t' :
  length (msg_buf_ i) = PBFT_PHASE_MAX -> 0 <= t < 4 ->
  buf_row (push_msg t env i) t' = buf_row i t' ++ (if Z.of_nat t' =? t then [env] else []).
Proof.
  intros Hl Ht. unfold buf_row, push_msg, PBFT_PHASE_MAX in *. cbn.
  destruct (Z.eqb_spec (Z.of_nat t') t) as [<-|Hne].
  - rewrite Nat2Z.id, list_lookup_alter_eq.
    destruct (lookup_lt_is_Some_2 (msg_buf_ i) t') as [row ->]; [lia|done].
  - rewrite list_lookup_alter_ne by lia. by rewrite app_nil_r.
Qed.

Lemma push_msg_ok vs k i t env :
  inst_ok vs k i -> 0 <= t < 3 -> pb_type (env_pbft env) = t ->
  phase_index (env_pbft env) = Some k -> (t <> 0 -> accepted vs env) ->
  inst_ok vs k (push_msg t env i).
Proof.
  intros Hi Ht Hty Hix Hck. pose proof (ok_rows _ _ _ Hi) as Hl. pose proof (ok_buf _ _ _ Hi) as Hb.
  destruct Hi. split; try done.
  - cbn. by rewrite length_alter.
  - intros t' e. rewrite buf_row_push by (done || lia).
    intros [He|He]%elem_of_app; [by apply Hb|].
    destruct (Z.eqb_spec (Z.of_nat t') t) as [Heq|]; [|by apply elem_of_nil in He].
    apply list_elem_of_singleton in He as ->. split_and!; [lia|done|]. intros. apply Hck. lia.
Qed.

(** The transitions of the three phases. *)
Lemma pre_prepared_ok vs k i pp c :
  inst_ok vs k i -> phase_ i = PBFT_PHASE_NONE -> pp_value_digest pp = Hash (pp_value pp) ->
  MkIndex (pp_view_number pp) (pp_sequence pp) = k ->
  inst_ok vs k (set_check_value c (set_pre_prepare pp (set_phase PBFT_PHASE_PREPREPARED 0 i))).
Proof.
  intros Hi Hn Hd Hk. destruct (ok_none _ _ _ Hi Hn) as [Hp0 Hpr].
  pose proof (ok_commits _ _ _ Hi) as Hc. destruct Hi. split; try done; cbn.
  - by right.
  - rewrite Hpr. constructor.
  - eapply Forall_impl; [exact Hc|]. intros [r c0]. unfold digest. rewrite Hp0. cbn. naive_solver.
Qed.

Lemma prepare_ok vs k i p :
  inst_ok vs k i -> phase_ i <> PBFT_PHASE_NONE -> p_value_digest p = digest i ->
  prepare_cert vs k p -> inst_ok vs k (set_prepares (om_insert (prepares_ i) (p_replica_id p) p) i).
Proof.
  intros Hi Hn Hd Hc. destruct Hi. split; try done; cbn.
  - auto with ordmap.
  - apply om_insert_forall; done.
  - intros Hp. rewrite om_length_insert. specialize (ok_prepared0 Hp). case_match; lia.
Qed.

Lemma prepared_ok vs k i n :
  inst_ok vs k i -> phase_ i <> PBFT_PHASE_NONE -> qsize vs <= Z.of_nat (length (prepares_ i)) ->
  inst_ok vs k (set_phase PBFT_PHASE_PREPARED n i).
Proof. intros Hi Hn Hq. destruct Hi. by split. Qed.

Lemma item_ok vs k i n : inst_ok vs k i -> inst_ok vs k (set_phase (phase_ i) n i).
Proof. by apply inst_ok_same. Qed.

Lemma commit_ok vs k i c :
  inst_ok vs k i -> c_value_digest c = digest i -> commit_cert vs k c ->
  inst_ok vs k (set_commits (om_insert (commits_ i) (c_replica_id c) c) i).
Proof.
  intros Hi Hd Hc. destruct Hi. split; try done; cbn.
  - auto with ordmap.
  - apply om_insert_forall; [done|]. cbn. eauto.
  - intros Hp. rewrite om_length_insert. specialize (ok_commited0 Hp). case_match; lia.
Qed.

Lemma commited_ok vs k i t :
  inst_ok vs k i -> qsize vs + 1 <= Z.of_nat (length (commits_ i)) ->
  inst_ok vs k (set_end_time t (set_phase PBFT_PHASE_COMMITED 0 i)).
Proof. intros Hi Hq. destruct Hi. by split. Qed.
End Inv.

(** The predicates take [Net] explicitly, the lemmas do not. *)
Arguments accepted {P} Net vs env.
Arguments checked {P} Net vs k t env.
Arguments prepare_cert {P} Net vs k p.
Arguments commit_cert {P} Net vs k c.
Arguments inst_ok {P} Net vs k i.
Arguments out_ok {P} Net vs k i.
Arguments Inv {P} Net s.
Arguments ev_ok {P} Net vs e.
Arguments advance {P} Net vs ckp _ _ _.
Arguments ext {P} Net s s' es.
