(* ===== verification/PbftHandlers.v ===== *)
(** * PBFT: every handler keeps the invariant

    One lemma per operation of [Pbft]: run from a state satisfying [Inv], the
    operation ends in a state related to the first by [ext]. *)
From S2P Require Import Prelude OrdMap PbftData Pbft PbftChecks PbftInv.

Section Handlers.
Context {P : PbftParams} {Net : PbftEnv -> Prop}.
#[local] Notation Inv := (Inv Net).
#[local] Notation ext := (ext Net).
#[local] Notation inst_ok := (inst_ok Net).
#[local] Notation checked := (checked Net).
#[local] Notation accepted := (accepted Net).
#[local] Notation out_ok := (out_ok Net).
#[local] Notation ev_ok := (ev_ok Net).
#[local] Notation prepare_cert := (prepare_cert Net).
#[local] Notation commit_cert := (commit_cert Net).

Lemma not_below_commited p : phase_ltb p PBFT_PHASE_COMMITED = false -> p = PBFT_PHASE_COMMITED.
Proof. by destruct p. Qed.

(** Composing a step that emits nothing. *)
Lemma ext_then s s1 s2 es : ext s s1 [] -> ext s1 s2 es -> ext s s2 es.
Proof. apply (ext_trans s s1 s2 [] es). Qed.

Lemma hit_ext s : Inv s -> forall k i, om_find (instances_ s) k = Some i ->
  inst_ok (validators_ s) k i.
Proof. intros HI k i. by apply inv_find. Qed.

(** ** Execution *)

Lemma try_execute_ext keys s r s' es :
  Inv s -> try_execute keys s = Returns (r, s', es) -> ext s s' es.
Proof.
  revert s r s' es. induction keys as [|k keys IH]; intros s r s' es HI Hr; cbn [try_execute] in Hr.
  - hinv Hr. by apply ext_refl.
  - hinv Hr; cbn [app] in *; eauto using ext_refl.
    match goal with
    | H : try_execute _ ?s1 = Returns _ |- _ => set (s2 := s1) in H; rename H into Hrest
    end.
    match goal with H : _ && _ = true |- _ => apply andb_true_iff in H as [Hseq Hph] end.
    apply negb_true_iff, not_below_commited in Hph. apply Z.eqb_eq in Hseq.
    match goal with H : om_find _ k = Some ?j |- _ => rename H into Hf, j into inst end.
    assert (HI2 : Inv s2 /\ validators_ s2 = validators_ s /\ ckp_interval_ s2 = ckp_interval_ s).
    { split_and!; [|done|done]. destruct HI. subst s2. split; cbn; auto with ordmap. }
    destruct HI2 as (HI2 & Hv & Hc).
    destruct (IH _ _ _ _ HI2 Hrest) as [V C I E A]. rewrite Hv, Hc in *.
    split; [congruence|congruence|done| |].
    + constructor; [|done]. exists (ix_view_number k), inst. destruct k as [view seq].
      split; [by apply inv_find|]. done.
    + cbn in A. rewrite Hseq. by apply adv_exec.
Qed.

Lemma TryExecuteValue_ext s r s' es :
  Inv s -> TryExecuteValue s = Returns (r, s', es) -> ext s s' es.
Proof.
  unfold TryExecuteValue. intros HI Hr. hinv Hr. rewrite app_nil_l, app_nil_r.
  by eapply try_execute_ext.
Qed.

(** Replaces the runs of primitives by what they did. *)
Ltac prims :=
  repeat match goal with
  | H : is_primary _ _ = Returns _ |- _ => apply is_primary_inv in H as [? ?]; subst
  | H : get_inst _ _ = Returns _ |- _ =>
      let Hf := fresh "Hfind" in apply get_inst_inv in H as (Hf & ? & ?); subst
  | H : put_inst _ _ _ = Returns _ |- _ => apply put_inst_inv in H as [? ?]; subst
  end; cbn [app] in *.

(** ** The three phases *)

Lemma send_prepare_ok s pp n vs : ev_ok vs (EvSend (NewPrepare s pp n)).
Proof. by apply send_other. Qed.

Lemma OnPrePrepare_ext env k cv s r s' es :
  Inv s -> pb_type (env_pbft env) = PBFT_TYPE_PREPREPARE -> phase_index (env_pbft env) = Some k ->
  OnPrePrepare (env_pbft env) k cv s = Returns (r, s', es) -> ext s s' es.
Proof.
  unfold OnPrePrepare. intros HI Ht Hk Hr. unfold phase_index in Hk. rewrite Ht in Hk.
  cbn in Hk. injection Hk as Hk.
  hinv Hr; prims; try (by apply ext_refl);
    repeat match goal with
    | H : negb _ = false |- _ => apply negb_false_iff in H
    | H : bool_decide _ = true |- _ => apply bool_decide_eq_true_1 in H
    end; try (eapply send_ext; eauto using send_prepare_ok; done).
  all: match goal with
       | H : om_find (instances_ ?s0) ?k0 = Some ?i |- _ =>
           eapply ext_then; [eapply (ext_put s0 k0); [done|]; apply pre_prepared_ok; eauto using inv_find|]
       end.
  - apply ext_refl. by eapply ext_inv, ext_put, pre_prepared_ok; eauto using inv_find.
  - eapply send_ext; eauto using send_prepare_ok.
    by eapply ext_inv, ext_put, pre_prepared_ok; eauto using inv_find.
Qed.

Lemma prepare_of_checked vs k env :
  checked vs k PBFT_TYPE_PREPARE env -> prepare_cert vs k (pb_prepare (env_pbft env)).
Proof. intros Hc. by exists env. Qed.

Lemma commit_of_checked vs k env :
  checked vs k PBFT_TYPE_COMMIT env -> commit_cert vs k (pb_commit (env_pbft env)).
Proof. intros Hc. by exists env. Qed.

(** A commit for the digest of an instance with enough prepares. *)
Lemma send_commit_ok vs k i p s n :
  inst_ok vs k i -> p_value_digest p = digest i ->
  MkIndex (p_view_number p) (p_sequence p) = k ->
  qsize vs <= Z.of_nat (length (prepares_ i)) \/ phase_ i = PBFT_PHASE_COMMITED ->
  ev_ok vs (EvSend (NewCommit s p n)).
Proof.
  intros Hi Hd Hk Hq _. exists k, i. split_and!; [done| |done|done].
  unfold phase_index. cbn. by rewrite Hk.
Qed.

Lemma OnPrepare_ext now env k i s r s' es :
  Inv s -> checked (validators_ s) k PBFT_TYPE_PREPARE env ->
  om_find (instances_ s) k = Some i -> phase_ i <> PBFT_PHASE_NONE ->
  OnPrepare now (env_pbft env) k s = Returns (r, s', es) -> ext s s' es.
Proof.
  unfold OnPrepare. intros HI Hck Hf Hn Hr. pose proof Hck as (_ & Ht & Hk).
  unfold phase_index in Hk. rewrite Ht in Hk. cbn in Hk.
  apply hbind_inv in Hr as (i0 & s0 & e0 & e1 & Hg & Hr & ->). prims.
  rewrite Hf in Hfind. injection Hfind as <-.
  set (p := pb_prepare (env_pbft env)) in *. rewrite CompareValue_eq in Hr.
  destruct (bool_decide_reflect (pp_value_digest (pre_prepare_ i) = p_value_digest p)) as [Hd|];
    cbn [negb] in Hr; [|hinv Hr; by apply ext_refl].
  pose proof (inv_find _ _ _ HI Hf) as Hi.
  assert (Hi1 : inst_ok (validators_ s) k
                  (set_prepares (om_insert (prepares_ i) (p_replica_id p) p) i)).
  { apply prepare_ok; [done|done|done|]. by apply prepare_of_checked. }
  set (i1 := set_prepares _ i) in *. assert (Hn1 : phase_ i1 <> PBFT_PHASE_NONE) by done.
  apply hbind_inv in Hr as (st & s2 & e2 & e3 & Hg2 & Hr & ->). injection Hg2 as <- <- <-.
  cbn [app]. cbn zeta beta in Hr.
  destruct (quorum s <=? _) eqn:Hq; [|hinv Hr; prims; by apply ext_put].
  set (i2 := if phase_ltb _ _ then _ else _) in Hr.
  assert (Hi2 : inst_ok (validators_ s) k i2 /\ prepares_ i2 = prepares_ i1
                /\ digest i2 = digest i).
  { subst i2. destruct (phase_ltb _ _); [|done]. split_and!; [|done|done].
    apply prepared_ok; [done|done|]. unfold qsize. unfold quorum in Hq. lia. }
  destruct Hi2 as (Hi2 & Hp2 & Hd2).
  destruct (bool_decide (check_value_result_ i2 = _)); hinv Hr; prims; [|by apply ext_put].
  assert (Hi3 : inst_ok (validators_ s) k (inst_SetLastCommitSendTime now i2))
    by (by eapply inst_ok_same, Hi2).
  eapply ext_then; [by apply ext_put|]. eapply send_ext; [| |done].
  - by eapply ext_inv, ext_put.
  - eapply send_commit_ok; [exact Hi2|by rewrite Hd2|by injection Hk|]. left. rewrite Hp2.
    unfold quorum in Hq. unfold qsize. cbn [validators_ set_instances]. lia.
Qed.

Lemma OnCommit_ext now env k s r s' es :
  Inv s -> checked (validators_ s) k PBFT_TYPE_COMMIT env ->
  OnCommit now (env_pbft env) k s = Returns (r, s', es) -> ext s s' es.
Proof.
  unfold OnCommit. intros HI Hck Hr.
  apply hbind_inv in Hr as (i & s0 & e0 & e1 & Hg & Hr & ->). prims.
  set (c := pb_commit (env_pbft env)) in *. rewrite CompareValue_eq in Hr.
  destruct (bool_decide_reflect (pp_value_digest (pre_prepare_ i) = c_value_digest c)) as [Hd|];
    cbn [negb] in Hr; [|hinv Hr; by apply ext_refl].
  assert (Hi1 : inst_ok (validators_ s) k
                  (set_commits (om_insert (commits_ i) (c_replica_id c) c) i)).
  { apply commit_ok; [by apply inv_find|done|by apply commit_of_checked]. }
  set (i1 := set_commits _ i) in *.
  hinv Hr; prims; try (by apply ext_refl); try (by apply ext_put).
  match goal with H : _ && _ = true |- _ => apply andb_true_iff in H as [Hq Hph] end.
  unfold quorum in Hq. fold i1 in Hq.
  assert (Hi2 : inst_ok (validators_ s) k (set_end_time now (set_phase PBFT_PHASE_COMMITED 0 i1))).
  { apply commited_ok; [done|]. unfold qsize. lia. }
  eapply ext_then; [by apply ext_put|]. eapply TryExecuteValue_ext; [|done].
  by eapply ext_inv, ext_put.
Qed.

(** ** Message dispatch *)

(** A phase message fit for the instance [i] at [k]. *)
Definition fits vs k (i : PbftInstance) (env : PbftEnv) : Prop :=
  phase_index (env_pbft env) = Some k
  /\ (pb_type (env_pbft env) <> 0 -> accepted vs env)
  /\ (pb_type (env_pbft env) = PBFT_TYPE_PREPARE -> phase_ i <> PBFT_PHASE_NONE).

Lemma dispatch_ext now env k i cv d s r s' es :
  Inv s -> om_find (instances_ s) k = Some i -> fits (validators_ s) k i env ->
  dispatch now (env_pbft env) k cv d s = Returns (r, s', es) -> ext s s' es.
Proof.
  intros HI Hf (Hk & Hck & Hn) Hr. unfold dispatch in Hr.
  destruct (Z.eqb_spec (pb_type (env_pbft env)) PBFT_TYPE_PREPREPARE) as [Ht|Hne];
    [by eapply OnPrePrepare_ext|].
  destruct (Z.eqb_spec (pb_type (env_pbft env)) PBFT_TYPE_PREPARE) as [Ht|];
    [eapply OnPrepare_ext; eauto; split_and!; auto|].
  destruct (Z.eqb_spec (pb_type (env_pbft env)) PBFT_TYPE_COMMIT) as [Ht|];
    [eapply OnCommit_ext; eauto; split_and!; auto|].
  hinv Hr. by apply ext_refl.
Qed.

(** A buffered message fits the instance in its phase. *)
Lemma row_fits vs k i n env :
  inst_ok vs k i -> buf_row i (Z.to_nat (phase_num (phase_ i))) !! n = Some env ->
  fits vs k i env.
Proof.
  intros Hi Hl%list_elem_of_lookup_2. apply (ok_buf _ _ _ Hi) in Hl as (Ht & Hk & Hc).
  split_and!; [done| |].
  - intros Hne. apply Hc. intros Hz. rewrite Hz in Ht. cbn in Ht. done.
  - intros Hp Hn. rewrite Hn in Ht. cbn in Ht. rewrite Ht in Hp. done.
Qed.

Lemma go_loop_ext now fuel k cv d s r s' es :
  Inv s -> go_loop now fuel k cv d s = Returns (r, s', es) -> ext s s' es.
Proof.
  revert d s r s' es. induction fuel as [|n IH]; intros d s r s' es HI Hr; cbn [go_loop] in Hr.
  - hinv Hr; prims. by apply ext_refl.
  - hinv Hr; prims; [|by apply ext_refl].
    match goal with H : om_find _ k = Some ?j |- _ => rename H into Hf, j into i end.
    pose proof (inv_find _ _ _ HI Hf) as Hi.
    assert (H1 := ext_put s k _ HI (item_ok _ _ _ (S (phase_item_ i)) Hi)).
    eapply ext_then; [exact H1|].
    match goal with H : dispatch _ _ _ _ _ _ = Returns _ |- _ => rename H into Hd end.
    eapply dispatch_ext in Hd; [|by eapply ext_inv|apply om_find_set_eq|].
    2: { eapply row_fits in Hcase; [|done]. done. }
    eapply ext_trans; [exact Hd|]. eapply IH; [by eapply ext_inv|done].
Qed.

Lemma Go_ext now env k cv s r s' es :
  Inv s -> phase_index (env_pbft env) = Some k ->
  (pb_type (env_pbft env) <> 0 -> accepted (validators_ s) env) ->
  0 <= pb_type (env_pbft env) ->
  Go now env k cv s = Returns (r, s', es) -> ext s s' es.
Proof.
  unfold Go. intros HI Hk Hck Hpos Hr. hinv Hr; prims.
  - rewrite app_nil_r. eapply dispatch_ext; eauto. split_and!; [done|done|].
    intros Ht Hn. rewrite Hn, Ht in Hif. done.
  - by eapply go_loop_ext.
Qed.

(** ** Outside the window *)

Lemma TryDoTraceOut_ext k i s r s' es :
  Inv s -> out_ok (validators_ s) k i -> TryDoTraceOut k i s = Returns (r, s', es) -> ext s s' es.
Proof.
  unfold TryDoTraceOut. intros HI Ho Hr. hinv Hr; prims; try (by apply ext_refl).
  apply Z.leb_le in Hif, Hif0. destruct HI. split; [done|done| | |].
  - split; cbn; auto with ordmap.
  - by repeat constructor.
  - cbn. eapply (adv_jump _ _ _ k i); [lia|done|done|]. repeat constructor.
Qed.

Lemma TraceOutPbftCommit_ext now env k s r s' es :
  Inv s -> checked (validators_ s) k PBFT_TYPE_COMMIT env ->
  TraceOutPbftCommit now env s = Returns (r, s', es) -> ext s s' es.
Proof.
  unfold TraceOutPbftCommit. intros HI Hck Hr. pose proof Hck as (_ & Ht & Hk).
  unfold phase_index in Hk. rewrite Ht in Hk. cbn in Hk.
  set (c := pb_commit (env_pbft env)) in *. injection Hk as Hk.
  rewrite Hk in Hr. clear Hk.
  assert (Hf0 : out_ok (validators_ s) k
     (set_pre_prepare (MkPrePrepare 0 0 0 "" (c_value_digest c)) (new_instance now))).
  { split; cbn; constructor. }
  set (fresh := set_pre_prepare _ _) in *.
  assert (H1 : ext s (set_out_instances (om_insert (out_pbft_instances_ s) k fresh) s) []).
  { destruct HI. apply ext_frame; try done. cbn. by apply om_insert_forall. }
  assert (He : out_ok (validators_ s) k (default fresh (om_find (om_insert (out_pbft_instances_ s) k fresh) k))).
  { destruct (om_find _ k) as [j|] eqn:Ef; cbn; [|done].
    apply om_find_in in Ef. pose proof (inv_outs _ (ext_inv _ _ _ H1)) as Hall.
    rewrite Forall_forall in Hall. by apply (Hall _ Ef). }
  hinv Hr; prims; [by eapply OnCommit_ext|done|].
  cbn [out_pbft_instances_ set_out_instances] in *.
  set (e := default fresh _) in *.
  match goal with H : negb (CompareValue _ _ =? 0) = false |- _ =>
    rewrite CompareValue_eq in H; apply negb_false_iff, bool_decide_eq_true_1 in H end.
  assert (He2 : out_ok (validators_ s) k (set_commits (om_insert (commits_ e) (c_replica_id c) c) e)).
  { destruct He as [Hs He]. split; cbn; [auto with ordmap|]. apply om_insert_forall; [done|].
    split_and!; [done|done|by apply commit_of_checked]. }
  eapply ext_then; [exact H1|]. rewrite app_nil_r. pose proof (ext_inv _ _ _ H1) as HI1.
  eapply ext_then; [|eapply TryDoTraceOut_ext; [| |done]].
  - destruct HI1. apply ext_frame; try done. cbn. by apply om_set_forall.
  - destruct HI1. split; try done. cbn. by apply om_set_forall.
  - exact He2.
Qed.

Lemma create_ext now k s :
  Inv s ->
  ext s (set_instances (om_erase_if (fun j _ => (ix_view_number j <? ix_view_number k)
            && (ix_sequence j =? ix_sequence k)) (om_insert (instances_ s) k (new_instance now))) s) [].
Proof.
  intros HI. destruct HI. apply ext_insts; [done| |]; auto using new_instance_ok with ordmap.
  apply om_erase_if_forall, om_insert_forall; [done|apply new_instance_ok].
Qed.

Lemma push_ext env k i s :
  Inv s -> accepted (validators_ s) env -> 0 <= pb_type (env_pbft env) < 3 ->
  phase_index (env_pbft env) = Some k -> om_find (instances_ s) k = Some i ->
  ext s (set_instances (om_set (instances_ s) k (push_msg (pb_type (env_pbft env)) env i)) s) [].
Proof. intros HI Hck Ht Hk Hf. apply ext_put; [done|]. apply push_msg_ok; eauto using inv_find. Qed.

Lemma CreateInstance_ext now env s r s' es :
  Inv s -> accepted (validators_ s) env -> 0 <= pb_type (env_pbft env) < 3 ->
  CreateInstanceIfNotExist now env s = Returns (r, s', es) ->
  ext s s' es /\ (forall k, r = Some k -> phase_index (env_pbft env) = Some k).
Proof.
  unfold CreateInstanceIfNotExist. intros HI Hck Ht Hr.
  destruct (phase_index (env_pbft env)) as [k|] eqn:Hk; hinv Hr; prims;
    (split; [|by intros ? [=]; subst]); try (by apply ext_refl).
  - rewrite !app_nil_r. apply andb_true_iff in Hif0 as [_ Hc%Z.eqb_eq].
    eapply TraceOutPbftCommit_ext; [done| |done]. by split_and!.
  - by apply push_ext.
  - eapply ext_then; [by apply create_ext|]. eapply push_ext; try done.
    by eapply ext_inv, create_ext.
Qed.

(** ** View changes *)

Lemma vc_update_ext s m : Inv s -> Forall (fun kv => vc_ok kv.2) m -> ext s (set_vc_instances m s) [].
Proof. intros HI Hm. destruct HI. by apply ext_frame. Qed.

Lemma quiet_ext s e :
  Inv s -> match e with EvValueCommited _ _ _ | EvSend _ => False | _ => True end -> ext s s [e].
Proof. intros HI He. apply ext_event; [by destruct e|by destruct e|by apply ext_refl]. Qed.

Lemma set_view_ext s v b : Inv s -> ext s (set_view v b s) [].
Proof. intros HI. destruct HI. by apply ext_frame. Qed.

Lemma ClearViewChanges_ext s r s' es :
  Inv s -> ClearViewChanges s = Returns (r, s', es) -> ext s s' es.
Proof.
  unfold ClearViewChanges. intros HI Hr. hinv Hr. cbn [app].
  assert (H1 : ext s (set_vc_instances (om_erase_if (fun _ v => (vc_end_time_ v =? 0)
      || (vc_view_number_ v <? view_number_ s - 5)) (vc_instances_ s)) s) []).
  { apply vc_update_ext; [done|]. destruct HI. auto with ordmap. }
  eapply ext_then; [exact H1|]. apply quiet_ext; [by eapply ext_inv|done].
Qed.

Section Keeps.
Context (vs : gmap string Z).

(** A handler that keeps the invariant whatever it read before. *)
Definition keeps {A} (m : hm PbftState event A) : Prop :=
  forall s r s' es, Inv s -> validators_ s = vs -> m s = Returns (r, s', es) -> ext s s' es.

Lemma keeps_bind {A B} (m : hm PbftState event A) (k : A -> hm PbftState event B) :
  keeps m -> (forall a, keeps (k a)) -> keeps (m ≫= k).
Proof.
  intros Hm Hk s r s' es HI Hv (a & s1 & es1 & es2 & H1 & H2 & ->)%hbind_inv.
  eapply Hm in H1; [|done|done]. eapply ext_trans; [exact H1|]. eapply Hk; [by eapply ext_inv| |done].
  by rewrite (ext_validators _ _ _ H1).
Qed.

Lemma keeps_ret {A} (a : A) : keeps (mret a).
Proof. intros s r s' es HI Hv (-> & -> & ->)%hret_inv. by apply ext_refl. Qed.

Lemma keeps_get : keeps hget.
Proof. intros s r s' es HI Hv (-> & -> & ->)%hget_inv. by apply ext_refl. Qed.

Lemma keeps_mod f : (forall s, Inv s -> validators_ s = vs -> ext s (f s) []) -> keeps (hmod f).
Proof. intros Hf s r s' es HI Hv (-> & ->)%hmod_inv. auto. Qed.

Lemma keeps_emit e :
  match e with EvValueCommited _ _ _ | EvSend _ => False | _ => True end -> keeps (hemit e).
Proof. intros He s r s' es HI Hv (-> & ->)%hemit_inv. by apply quiet_ext. Qed.

Lemma keeps_throw {A} e : keeps (hthrow e : hm PbftState event A).
Proof. by intros s r s' es HI Hv Hr. Qed.

Lemma keeps_primary v : keeps (is_primary v).
Proof. intros s r s' es HI Hv [-> ->]%is_primary_inv. by apply ext_refl. Qed.

Lemma keeps_send msg : pb_type (env_pbft msg) <> PBFT_TYPE_COMMIT -> keeps (SendMessage msg).
Proof. intros Ht s r s' es HI Hv Hr. eapply send_ext; eauto using send_other. Qed.

Lemma keeps_erase p : keeps (hmod (fun s => set_instances (om_erase_if (p s) (instances_ s)) s)).
Proof. apply keeps_mod. intros s HI _. by apply ext_erase. Qed.

Lemma keeps_frame f :
  (forall s, instances_ (f s) = instances_ s) -> (forall s, validators_ (f s) = validators_ s) ->
  (forall s, ckp_interval_ (f s) = ckp_interval_ s) ->
  (forall s, last_exe_seq_ (f s) = last_exe_seq_ s) ->
  (forall s, out_pbft_instances_ (f s) = out_pbft_instances_ s) ->
  (forall s, Inv s -> Forall (fun kv => vc_ok kv.2) (vc_instances_ (f s))) -> keeps (hmod f).
Proof.
  intros H1 H2 H3 H4 H5 H6. apply keeps_mod. intros s HI _. apply ext_frame; auto.
  rewrite H5. apply HI.
Qed.

Lemma keeps_clear : keeps ClearViewChanges.
Proof. intros s r s' es HI _. by apply ClearViewChanges_ext. Qed.

Lemma vc_set_ok (s : PbftState) vn v :
  Inv s -> vc_ok v -> Forall (fun kv => vc_ok kv.2) (om_set (vc_instances_ s) vn v).
Proof. intros HI Hv. apply om_set_forall; [apply HI|done]. Qed.

Lemma vc_find_ok (s : PbftState) vn v :
  Inv s -> om_find (vc_instances_ s) vn = Some v -> vc_ok v.
Proof.
  intros HI Hf%om_find_in. pose proof (inv_vcs _ HI) as Hall. rewrite Forall_forall in Hall.
  apply (Hall _ Hf).
Qed.

(** Reads keep what the invariant says of the value read. *)
Lemma keeps_get_bind {B} (k : PbftState -> hm PbftState event B) :
  (forall s0, Inv s0 -> keeps (k s0)) -> keeps (hget ≫= k).
Proof.
  intros Hk s r s' es HI Hv (a & s1 & es1 & es2 & H1 & H2 & ->)%hbind_inv.
  apply hget_inv in H1 as (-> & -> & ->). by eapply Hk.
Qed.

Lemma keeps_inst_bind {B} k (f : PbftInstance -> hm PbftState event B) :
  (forall i, inst_ok vs k i -> keeps (f i)) -> keeps (get_inst k ≫= f).
Proof.
  intros Hk s r s' es HI Hv (a & s1 & es1 & es2 & H1 & H2 & ->)%hbind_inv.
  apply get_inst_inv in H1 as (Hf & -> & ->). eapply Hk; [|done|done|done].
  rewrite <- Hv. by apply inv_find.
Qed.

Lemma keeps_put k i : inst_ok vs k i -> keeps (put_inst k i).
Proof. intros Hi s r s' es HI Hv [-> ->]%put_inst_inv. rewrite <- Hv in Hi. by apply ext_put. Qed.

Lemma keeps_send_ok msg : ev_ok vs (EvSend msg) -> keeps (SendMessage msg).
Proof. intros He s r s' es HI Hv Hr. rewrite <- Hv in He. by eapply send_ext. Qed.

Create HintDb keeps.
Hint Resolve keeps_ret keeps_get keeps_throw keeps_primary keeps_erase keeps_clear : keeps.
Hint Extern 1 (keeps (hemit _)) => by apply keeps_emit : keeps.
Hint Extern 1 (keeps (SendMessage _)) => by apply keeps_send : keeps.
Hint Extern 2 (keeps (hmod _)) =>
  apply keeps_frame; (done || (let HI := fresh in intros ? HI; by destruct HI)) : keeps.

(** Walks along binds and guards. *)
Ltac walk :=
  repeat first
    [ progress intros
    | solve [eauto with keeps]
    | lazymatch goal with
      | |- keeps (mbind _ (get_inst _)) => apply keeps_inst_bind
      | |- keeps (mbind _ hget) => apply keeps_get_bind
      end
    | lazymatch goal with |- keeps (mbind _ _) => apply keeps_bind end
    | case_match ].

Lemma keeps_process now fresh_timer vn vc :
  vc_ok vc -> keeps (ProcessQuorumViewChange now fresh_timer vn vc).
Proof.
  intros [Hm Hn]. unfold ProcessQuorumViewChange. walk.
  apply keeps_frame; try done. intros s HI. by apply vc_set_ok.
Qed.

Lemma new_raw_type s vn ps msg :
  NewViewChangeRawValue s vn ps = Returns msg -> pb_type (env_pbft msg) <> PBFT_TYPE_COMMIT.
Proof.
  unfold NewViewChangeRawValue, obind. intros Hr. repeat case_match; simplify_eq; done.
Qed.

Lemma keeps_tx_timeout : keeps OnTxTimeout.
Proof.
  unfold OnTxTimeout. walk. by eapply keeps_send, new_raw_type.
Qed.

Lemma keeps_new_view_timer data ps : keeps (OnNewViewTimer data ps).
Proof. unfold OnNewViewTimer. walk. by eapply keeps_send, new_raw_type. Qed.

Lemma keeps_new_view now env : keeps (OnNewView now env).
Proof.
  unfold OnNewView. walk. apply keeps_frame.
  1-5: intros s; by destruct (om_find (vc_instances_ s) (view_number_ s)).
  intros s HI. destruct (om_find _ _) as [v|] eqn:Hf; [|apply HI].
  apply vc_set_ok; [done|]. by apply vc_find_ok in Hf.
Qed.

Lemma default_vc_ok s now vn seq :
  Inv s -> vc_ok (default (new_vc_instance now vn seq) (om_find (vc_instances_ s) vn)).
Proof.
  intros HI. destruct (om_find _ _) eqn:Hf; [by apply vc_find_ok in Hf|by split].
Qed.

Lemma record_ok st env vc :
  pb_type (env_pbft env) = PBFT_TYPE_VIEWCHANG_WITH_RAWVALUE -> vc_ok vc ->
  vc_ok (record_view_change st env vc).
Proof.
  intros Ht [H1 H2]. unfold record_view_change. cbv zeta.
  repeat case_match; split; cbn; done || by rewrite Ht.
Qed.

Lemma keeps_view_change now fresh_timer env :
  pb_type (env_pbft env) = PBFT_TYPE_VIEWCHANG_WITH_RAWVALUE ->
  keeps (OnViewChangeWithRawValue now fresh_timer env).
Proof.
  intros Ht. unfold OnViewChangeWithRawValue. cbv zeta.
  apply keeps_get_bind. intros s0 HI0.
  destruct (_ =? _); [apply keeps_ret|]. destruct (_ <? _); [apply keeps_ret|].
  match goal with |- context [record_view_change ?a ?b ?w] => set (vc := record_view_change a b w) end.
  assert (Hvc : vc_ok vc) by (by apply record_ok, default_vc_ok).
  clearbody vc. walk.
  - apply keeps_frame; try done. intros s HI. by apply vc_set_ok.
  - by apply keeps_process.
Qed.

Lemma keeps_recv now fresh_timer env : Net env -> keeps (OnRecv now fresh_timer env).
Proof.
  unfold OnRecv. intros Hnet s r s' es HI Hv Hr.
  apply hbind_inv in Hr as (st & s1 & e1 & e2 & Hg & Hr & ->). injection Hg as <- <- <-.
  destruct (CheckMessageItem (validators_ s) env) eqn:Hck; cbn [negb] in Hr;
    [|hinv Hr; by apply ext_refl].
  destruct (_ || _) eqn:Ht.
  - assert (Hty : 0 <= pb_type (env_pbft env) < 3).
    { unfold PBFT_TYPE_PREPREPARE, PBFT_TYPE_PREPARE, PBFT_TYPE_COMMIT in Ht. lia. }
    apply hbind_inv in Hr as (oi & s1 & e1 & e3 & Hc & Hr & ->).
    destruct (CreateInstance_ext _ _ _ _ _ _ HI (conj Hnet Hck) Hty Hc) as [He Hk].
    destruct oi as [k|]; cbn [app].
    + eapply ext_trans; [exact He|]. eapply Go_ext; [by eapply ext_inv|by apply Hk| |lia|exact Hr].
      intros _. by rewrite (ext_validators _ _ _ He).
    + hinv Hr. by rewrite app_nil_r.
  - cbn [app]. destruct (pb_type (env_pbft env) =? PBFT_TYPE_VIEWCHANG_WITH_RAWVALUE) eqn:E1.
    + eapply keeps_view_change; [by apply Z.eqb_eq|done|exact Hv|exact Hr].
    + hinv Hr; [by eapply keeps_new_view|by apply ext_refl].
Qed.

(** ** Proposals and timers *)

Lemma request_inst_ok k t st value seq :
  MkIndex (view_number_ st) seq = k ->
  let env := NewPrePrepare st value seq in
  inst_ok vs k (push_msg PBFT_TYPE_PREPREPARE env
    (set_pre_prepare (pb_pre_prepare (env_pbft env))
      (set_phase PBFT_PHASE_PREPREPARED 0 (set_pre_prepare_msg env (new_instance t))))).
Proof.
  intros Hk env. apply push_msg_ok; [|done|done|by rewrite <- Hk|done].
  destruct (@new_instance_ok P Net vs k t). split; try done. by right.
Qed.

Lemma keeps_request now value : keeps (Request now value).
Proof.
  unfold Request. walk. apply keeps_put. by apply request_inst_ok.
Qed.

Lemma keeps_send_again k t : keeps (SendPrepareAgain k t).
Proof.
  unfold SendPrepareAgain. walk.
  - apply keeps_send. pose proof (ok_ppmsg _ _ _ H) as Hp. cbn.
    unfold IncPeerMessageRound. by destruct (env_pbft (pre_prepare_msg_ _)).
  - apply keeps_put. by eapply inst_ok_same, H.
Qed.

Hint Resolve keeps_tx_timeout keeps_send_again : keeps.

Lemma keeps_timer_instances t keys last : keeps (timer_instances t keys last).
Proof.
  revert last. induction keys as [|k keys IH]; intros last; cbn [timer_instances]; walk.
  apply keeps_put. by eapply inst_ok_same, H.
Qed.

Lemma inc_round_type msg n :
  pb_type (env_pbft (IncPeerMessageRound msg n)) = pb_type (env_pbft msg).
Proof. unfold IncPeerMessageRound. by destruct (env_pbft msg). Qed.

Lemma keeps_timer_vc t keys last : keeps (timer_vc t keys last).
Proof.
  revert last. induction keys as [|vn keys IH]; intros last; cbn [timer_vc]; walk.
  all: match goal with H : om_find _ _ = Some _ |- _ => apply vc_find_ok in H as [Hv1 Hv2]; [|done] end.
  - apply keeps_send. by rewrite inc_round_type.
  - apply keeps_frame; try done. intros s HI. by apply vc_set_ok.
Qed.

Lemma keeps_new_view_again vn t : keeps (SendNewViewAgain vn t).
Proof.
  unfold SendNewViewAgain. walk.
  all: match goal with H : om_find _ _ = Some _ |- _ => apply vc_find_ok in H as [Hv1 Hv2]; [|done] end.
  - apply keeps_frame; try done. intros s HI. by apply vc_set_ok.
  - apply keeps_send. by rewrite inc_round_type.
Qed.

Hint Resolve keeps_timer_instances keeps_timer_vc keeps_new_view_again : keeps.

Lemma resend_commit_ok k i r p rest s n :
  inst_ok vs k i -> prepares_ i = (r, p) :: rest -> phase_ltb (phase_ i) PBFT_PHASE_PREPARED = false ->
  ev_ok vs (EvSend (NewCommit s p n)).
Proof.
  intros Hi Hp Hph. pose proof (ok_prepares _ _ _ Hi) as Hall. rewrite Hp in Hall.
  apply Forall_cons in Hall as [Hhd _]. cbn in Hhd.
  destruct Hhd as (_ & Hd & env & (_ & Ht & Hk) & <-).
  unfold phase_index in Hk. rewrite Ht in Hk. cbn in Hk. injection Hk as Hk.
  eapply send_commit_ok; [exact Hi|done|done|].
  destruct (phase_ i) eqn:E; try done; [left; by apply (ok_prepared _ _ _ Hi)|by right].
Qed.

Lemma keeps_timer t : keeps (OnTimer t).
Proof.
  unfold OnTimer. walk.
  all: match goal with H : _ && _ = true |- _ => apply andb_true_iff in H as [_ Hs] end.
  - apply andb_true_iff in Hs as [_ Hph%negb_true_iff].
    eapply keeps_send_ok, resend_commit_ok; eauto.
  - apply keeps_put. by eapply inst_ok_same, H1.
Qed.
End Keeps.
End Handlers.
