(* ===== verification/PbftTotal.v ===== *)
(** * PBFT: message handling always returns

    [OnRecv] neither runs out of the fuel of [Go]'s loop, nor follows a dangling
    instance reference, nor divides by zero, as long as there is a validator and
    no committed instance is waiting for an earlier sequence. *)
From S2P Require Import Prelude OrdMap PbftData Pbft PbftChecks PbftInv PbftHandlers.

Definition returns {S E A} (m : hm S E A) (s : S) : Prop :=
  exists a s' es, m s = Returns (a, s', es).

Section Returns.
Context {S E : Type}.

Lemma returns_bind {A B} (m : hm S E A) (k : A -> hm S E B) s :
  returns m s -> (forall a s' es, m s = Returns (a, s', es) -> returns (k a) s') ->
  returns (m ≫= k) s.
Proof.
  intros (a & s1 & es & E1) Hk. destruct (Hk a s1 es E1) as (b & s2 & es2 & E2).
  exists b, s2, (es ++ es2). by eapply hbind_returns.
Qed.

Lemma returns_ret {A} (a : A) (s : S) : returns (mret a : hm S E A) s.
Proof. by eexists _, _, _. Qed.
Lemma returns_get (s : S) : returns (hget : hm S E S) s.
Proof. by eexists _, _, _. Qed.
Lemma returns_mod f (s : S) : returns (hmod f : hm S E unit) s.
Proof. by eexists _, _, _. Qed.
Lemma returns_emit (e : E) (s : S) : returns (hemit e) s.
Proof. by eexists _, _, _. Qed.
End Returns.

Create HintDb returns.
#[export] Hint Resolve returns_ret returns_get returns_mod returns_emit : returns.

Section Total.
Context {P : PbftParams} {Net : PbftEnv -> Prop}.
Implicit Types (s : PbftState) (k : PbftInstanceIndex) (i : PbftInstance).

Lemma returns_send msg s : returns (SendMessage msg) s.
Proof.
  unfold SendMessage. apply returns_bind; [auto with returns|]. intros st s' es _.
  case_match; [auto with returns|]. apply returns_bind; auto with returns.
Qed.

Lemma returns_primary v s : 0 < vsize (validators_ s) -> returns (is_primary v) s.
Proof.
  intros Hv. unfold is_primary. apply returns_bind; [auto with returns|].
  intros st s' es (-> & -> & ->)%hget_inv. destruct (_ =? 0) eqn:E1; [lia|auto with returns].
Qed.

Lemma returns_get_inst k i s : om_find (instances_ s) k = Some i -> returns (get_inst k) s.
Proof.
  intros Hf. unfold get_inst. apply returns_bind; [auto with returns|].
  intros st s' es (-> & -> & ->)%hget_inv. rewrite Hf. auto with returns.
Qed.

Lemma returns_put k i s : returns (put_inst k i) s.
Proof. unfold put_inst. auto with returns. Qed.

Hint Resolve returns_send returns_primary returns_put : returns.

(** Walks along binds; reads are replaced by the state they read. *)
Ltac go :=
  repeat first
    [ progress intros
    | match goal with
      | H : hget _ = Returns _ |- _ => apply hget_inv in H as (? & ? & ?); subst
      | H : mret _ _ = Returns _ |- _ => apply hret_inv in H as (? & ? & ?); subst
      | H : hmod _ _ = Returns _ |- _ => apply hmod_inv in H as (? & ?); subst
      | H : hemit _ _ = Returns _ |- _ => apply hemit_inv in H as (? & ?); subst
      | H : SendMessage _ _ = Returns _ |- _ => apply SendMessage_inv in H as (? & ? & ?); subst
      | H : is_primary _ _ = Returns _ |- _ => apply is_primary_inv in H as (? & ?); subst
      | H : put_inst _ _ _ = Returns _ |- _ => apply put_inst_inv in H as (? & ?); subst
      end
    | solve [eauto with returns]
    | lazymatch goal with |- returns (mbind _ _) _ => apply returns_bind end
    | case_match ].

Lemma returns_try_execute keys s : returns (try_execute keys) s.
Proof. revert s. induction keys; intros s; cbn [try_execute]; go. Qed.

Lemma returns_TryExecuteValue s : returns TryExecuteValue s.
Proof. unfold TryExecuteValue. go. apply returns_try_execute. Qed.

(** ** The instance being processed stays *)

Definition only_pending s k : Prop :=
  forall k' i', om_find (instances_ s) k' = Some i' -> phase_ i' = PBFT_PHASE_COMMITED ->
    last_exe_seq_ s < ix_sequence k' -> k' = k.

Definition no_pending s : Prop :=
  forall k' i', om_find (instances_ s) k' = Some i' -> phase_ i' = PBFT_PHASE_COMMITED ->
    ix_sequence k' <= last_exe_seq_ s.

Lemma try_execute_find keys s k i r s' es :
  om_sorted (instances_ s) -> 2 <= ckp_interval_ s -> only_pending s k ->
  om_find (instances_ s) k = Some i -> try_execute keys s = Returns (r, s', es) ->
  om_find (instances_ s') k = Some i /\ validators_ s' = validators_ s
  /\ ckp_interval_ s' = ckp_interval_ s /\ om_sorted (instances_ s').
Proof.
  revert s r s' es. induction keys as [|j keys IH]; intros s r s' es Hs Hc Ho Hf Hr;
    cbn [try_execute] in Hr; [by hinv Hr|].
  hinv Hr; cbn [app] in *; try (by eauto).
  match goal with H : _ && _ = true |- _ => apply andb_true_iff in H as [Hseq Hph] end.
  apply negb_true_iff, not_below_commited in Hph.
  assert (j = k) as -> by (eapply Ho; eauto; lia).
  match goal with H : try_execute _ ?s2 = Returns _ |- _ => rename H into Hrest end.
  assert (Hq : 1 <= Z.quot (ckp_interval_ s) 2) by (apply Z.quot_le_lower_bound; lia).
  eapply IH in Hrest as (H1 & H2 & H3 & H4); [done|..].
  - cbn. auto with ordmap.
  - done.
  - intros k' i'. cbn. rewrite om_find_erase_if by done.
    destruct (om_find (instances_ s) k') as [i0|] eqn:E; [|done].
    case_match; [done|]. intros [= ->] ? ?. eapply Ho; eauto. lia.
  - cbn. rewrite om_find_erase_if, Hf by done. by case_match; [lia|].
Qed.

(** ** Phases and buffered messages *)

Definition phase_le i i' : Prop :=
  (phase_ i' = phase_ i /\ phase_item_ i' = phase_item_ i) \/ phase_num (phase_ i) < phase_num (phase_ i').

(** What one dispatch leaves behind for [Go]'s loop. *)
Record ready s k i : Prop := {
  rd_find : om_find (instances_ s) k = Some i;
  rd_sorted : om_sorted (instances_ s);
  rd_vs : 0 < vsize (validators_ s);
  rd_ckp : 2 <= ckp_interval_ s;
  rd_pending : phase_ i = PBFT_PHASE_COMMITED \/ no_pending s }.

Lemma ready_put s k i i' :
  ready s k i -> (phase_ i = PBFT_PHASE_COMMITED -> phase_ i' = PBFT_PHASE_COMMITED) ->
  (phase_ i' = PBFT_PHASE_COMMITED -> phase_ i = PBFT_PHASE_COMMITED) ->
  ready (set_instances (om_set (instances_ s) k i') s) k i'.
Proof.
  intros [Hf Hs Hv Hc Hp] Hup Hdown. split; cbn; auto with ordmap.
  - apply om_find_set_eq.
  - destruct Hp as [Hp|Hp]; [auto|].
    destruct (decide (phase_ i' = PBFT_PHASE_COMMITED)) as [|Hn]; [by left|right].
    intros k' j. cbn. rewrite om_find_set. destruct (key_eqb_spec k' k) as [->|].
    + by intros [= <-] ?.
    + eauto.
Qed.

(** A run of a phase handler on a ready instance: it returns, and leaves the
    instance ready with the same buffer, at the same item or in a later phase. *)
Definition steps_on (m : hm PbftState event bool) s k i : Prop :=
  exists r s' es i', m s = Returns (r, s', es) /\ ready s' k i'
    /\ msg_buf_ i' = msg_buf_ i /\ phase_le i i'.

Lemma steps_intro m s k i :
  returns m s ->
  (forall r s' es, m s = Returns (r, s', es) ->
     exists i', ready s' k i' /\ msg_buf_ i' = msg_buf_ i /\ phase_le i i') ->
  steps_on m s k i.
Proof.
  intros (r & s' & es & Hr) Hp. destruct (Hp _ _ _ Hr) as (i' & H1 & H2 & H3).
  by exists r, s', es, i'.
Qed.

Lemma phase_le_refl i : phase_le i i.
Proof. by left. Qed.

Ltac prims :=
  repeat match goal with
  | H : is_primary _ _ = Returns _ |- _ => apply is_primary_inv in H as [? ?]; subst
  | H : get_inst _ _ = Returns _ |- _ =>
      let Hf := fresh "Hfind" in apply get_inst_inv in H as (Hf & ? & ?); subst
  | H : put_inst _ _ _ = Returns _ |- _ => apply put_inst_inv in H as [? ?]; subst
  | H : SendMessage _ _ = Returns _ |- _ => apply SendMessage_inv in H as (? & ? & ?); subst
  end; cbn [app] in *.

Lemma OnPrePrepare_steps pbft k cv s i : ready s k i -> steps_on (OnPrePrepare pbft k cv) s k i.
Proof.
  intros Hrd. pose proof Hrd as [Hf Hs Hv Hc Hp]. apply steps_intro.
  - unfold OnPrePrepare. go; by eapply returns_get_inst.
  - intros r s' es Hr. unfold OnPrePrepare in Hr.
    hinv Hr; prims; try (exists i; split_and!; try done; by left).
    all: rewrite Hf in Hfind; injection Hfind as <-.
    all: match goal with H : negb (bool_decide (_ = PBFT_PHASE_NONE)) = false |- _ =>
           apply negb_false_iff, bool_decide_eq_true_1 in H; rename H into Hn end.
    all: eexists; split_and!; [eapply ready_put; [exact Hrd| |]|done|right; rewrite Hn; done].
    all: cbn; congruence.
Qed.

Lemma OnPrepare_steps now pbft k s i : ready s k i -> steps_on (OnPrepare now pbft k) s k i.
Proof.
  intros Hrd. pose proof Hrd as [Hf Hs Hv Hc Hp]. apply steps_intro.
  - unfold OnPrepare. go; by eapply returns_get_inst.
  - intros r s' es Hr. unfold OnPrepare in Hr.
    hinv Hr; prims; try (exists i; split_and!; try done; by left).
    all: rewrite Hf in Hfind; injection Hfind as <-.
    all: try match goal with |- context [phase_ltb ?p PBFT_PHASE_PREPARED] =>
           destruct (phase_ltb p PBFT_PHASE_PREPARED) eqn:Hlt; cbn in Hlt end;
      (eexists; split_and!; [eapply ready_put; [exact Hrd| |]|done|]); cbn;
      try (by destruct (phase_ i)); try (by left); right; cbn; by destruct (phase_ i).
Qed.

Lemma OnCommit_steps now pbft k s i : ready s k i -> steps_on (OnCommit now pbft k) s k i.
Proof.
  intros Hrd. pose proof Hrd as [Hf Hs Hv Hc Hp]. apply steps_intro.
  - unfold OnCommit. go; [by eapply returns_get_inst|apply returns_TryExecuteValue].
  - intros r s' es Hr. unfold OnCommit in Hr.
    hinv Hr; prims; try (exists i; split_and!; try done; by left).
    all: rewrite Hf in Hfind; injection Hfind as <-.
    + match goal with H : _ && _ = true |- _ => apply andb_true_iff in H as [_ Hlt] end.
      cbn in Hlt. unfold TryExecuteValue in *.
      match goal with H : (hget ≫= _) _ = Returns _ |- _ => hinv H; rename Hrun into Hrest end.
      destruct Hp as [Hp|Hp]; [by rewrite Hp in Hlt|].
      match type of Hrest with try_execute _ (set_instances (om_set _ _ ?j) _) = _ =>
        pose proof (om_find_set_eq (instances_ s) k j) as Hfi end.
      eapply (try_execute_find _ (set_instances _ s) k) in Hrest as (H1 & H2 & H3 & H4);
        [| | | |exact Hfi].
      * eexists. split_and!; [split; [exact H1|done|by rewrite H2|by rewrite H3|by left]|done|].
        right. cbn. by destruct (phase_ i).
      * cbn. auto with ordmap.
      * done.
      * intros k' j. cbn. rewrite om_find_set. destruct (key_eqb_spec k' k) as [->|]; [done|].
        intros Hj Hph Hlt'. specialize (Hp _ _ Hj Hph). lia.
    + eexists; split_and!; [eapply ready_put; [exact Hrd|done|done]|done|by left].
Qed.

Lemma dispatch_steps now pbft k cv d s i :
  ready s k i -> steps_on (dispatch now pbft k cv d) s k i.
Proof.
  intros Hrd. unfold dispatch.
  repeat case_match; auto using OnPrePrepare_steps, OnPrepare_steps, OnCommit_steps.
  exists d, s, [], i. split_and!; [done|done|done|by left].
Qed.

(** ** The loop of [Go] *)

(** Messages still to be processed: the rest of the current phase's row and the
    rows of the later phases. *)
Definition pending_msgs i : nat :=
  length (concat (drop (Z.to_nat (phase_num (phase_ i))) (msg_buf_ i))) - phase_item_ i.

Lemma concat_drop_le {A} (l : list (list A)) m n :
  (m <= n)%nat -> (length (concat (drop n l)) <= length (concat (drop m l)))%nat.
Proof.
  revert m n. induction l as [|x l IH]; intros [|m] [|n] Hle; cbn; try lia.
  - specialize (IH 0%nat n). rewrite drop_0 in IH. rewrite length_app. lia.
  - apply IH. lia.
Qed.

Lemma concat_drop_row {A} (l : list (list A)) n row :
  l !! n = Some row ->
  length (concat (drop n l)) = (length row + length (concat (drop (S n) l)))%nat.
Proof. intros Hl. rewrite (drop_S _ _ _ Hl). cbn. by rewrite length_app. Qed.

Lemma pending_decreases i i' env :
  buf_row i (Z.to_nat (phase_num (phase_ i))) !! phase_item_ i = Some env ->
  msg_buf_ i' = msg_buf_ i -> phase_le (set_phase (phase_ i) (S (phase_item_ i)) i) i' ->
  (pending_msgs i' < pending_msgs i)%nat.
Proof.
  intros Hl Hb Hle. unfold pending_msgs. rewrite Hb. unfold buf_row in Hl.
  destruct (msg_buf_ i !! _) as [row|] eqn:Hrow; cbn in Hl; [|done].
  apply lookup_lt_Some in Hl. pose proof (concat_drop_row _ _ _ Hrow) as Hlen.
  destruct Hle as [[Hp Hi]|Hlt]; cbn [phase_ set_phase phase_item_] in *.
  - rewrite Hp, Hi, Hlen. lia.
  - assert (0 <= phase_num (phase_ i)) by (by destruct (phase_ i)).
    pose proof (concat_drop_le (msg_buf_ i) (S (Z.to_nat (phase_num (phase_ i))))
      (Z.to_nat (phase_num (phase_ i'))) ltac:(lia)). lia.
Qed.

Lemma go_loop_returns now fuel k cv d s i :
  ready s k i -> (pending_msgs i <= fuel)%nat -> returns (go_loop now fuel k cv d) s.
Proof.
  revert d s i. induction fuel as [|n IH]; intros d s i Hrd Hfuel; cbn [go_loop];
    (apply returns_bind; [eapply returns_get_inst, Hrd|]);
    intros i0 s0 es0 (Hf & -> & ->)%get_inst_inv; rewrite (rd_find _ _ _ Hrd) in Hf;
    injection Hf as <-; destruct (buf_row i _ !! _) as [env|] eqn:Hl; auto with returns.
  - exfalso. unfold buf_row in Hl. destruct (msg_buf_ i !! _) as [row|] eqn:Hrow; cbn in Hl; [|done].
    apply lookup_lt_Some in Hl. unfold pending_msgs in Hfuel.
    rewrite (concat_drop_row _ _ _ Hrow) in Hfuel. lia.
  - apply returns_bind; [auto with returns|]. intros [] s1 es1 (-> & ->)%put_inst_inv.
    assert (Hrd1 : ready (set_instances (om_set (instances_ s) k
        (set_phase (phase_ i) (S (phase_item_ i)) i)) s) k (set_phase (phase_ i) (S (phase_item_ i)) i)).
    { by apply ready_put with (i := i). }
    destruct (dispatch_steps now (env_pbft env) k cv d _ _ Hrd1) as (r & s2 & es2 & i2 & Hd & Hrd2 & Hb & Hle).
    apply returns_bind; [by eexists _, _, _|]. intros r' s2' es2' Hd'. rewrite Hd in Hd'.
    injection Hd' as <- <- <-. eapply IH; [exact Hrd2|].
    pose proof (pending_decreases i i2 env Hl Hb Hle). lia.
Qed.

Lemma pending_total i : (pending_msgs i <= length (concat (msg_buf_ i)))%nat.
Proof.
  unfold pending_msgs. pose proof (concat_drop_le (msg_buf_ i) 0 (Z.to_nat (phase_num (phase_ i)))) as Hc.
  rewrite drop_0 in Hc. lia.
Qed.

Lemma Go_returns now env k cv s i : ready s k i -> returns (Go now env k cv) s.
Proof.
  intros Hrd. unfold Go. apply returns_bind; [eapply returns_get_inst, Hrd|].
  intros i0 s0 es0 (Hf & -> & ->)%get_inst_inv. rewrite (rd_find _ _ _ Hrd) in Hf.
  injection Hf as <-. case_match.
  - apply returns_bind; [|auto with returns].
    destruct (dispatch_steps now (env_pbft env) k cv false _ _ Hrd) as (r & s2 & es2 & i2 & Hd & _).
    by eexists _, _, _.
  - eapply go_loop_returns; [exact Hrd|apply pending_total].
Qed.

(** ** Every received message *)

Lemma TryDoTraceOut_returns k i s : returns (TryDoTraceOut k i) s.
Proof. unfold TryDoTraceOut. go. Qed.

Lemma OnCommit_returns now pbft k i s :
  om_find (instances_ s) k = Some i -> returns (OnCommit now pbft k) s.
Proof.
  intros Hf. unfold OnCommit. go; [by eapply returns_get_inst|apply returns_TryExecuteValue].
Qed.

Hint Resolve TryDoTraceOut_returns OnCommit_returns : returns.

Lemma TraceOutPbftCommit_returns now env s : returns (TraceOutPbftCommit now env) s.
Proof. unfold TraceOutPbftCommit. go. Qed.

Hint Resolve TraceOutPbftCommit_returns : returns.

Lemma create_find now (m : ordmap PbftInstanceIndex PbftInstance) k :
  om_sorted m -> om_find m k = None ->
  om_find (om_erase_if (fun j _ => (ix_view_number j <? ix_view_number k)
             && (ix_sequence j =? ix_sequence k)) (om_insert m k (new_instance now))) k
  = Some (new_instance now).
Proof.
  intros Hs Hf. rewrite om_find_erase_if by auto with ordmap.
  rewrite om_find_insert, Hf, key_eqb_refl, Z.ltb_irrefl. done.
Qed.

(** Creating the instance: the message's instance is ready for [Go]. *)
Lemma CreateInstance_ready now env s :
  om_sorted (instances_ s) -> 0 < vsize (validators_ s) -> 2 <= ckp_interval_ s -> no_pending s ->
  exists r s' es, CreateInstanceIfNotExist now env s = Returns (r, s', es)
    /\ forall k, r = Some k -> exists i, ready s' k i.
Proof.
  intros Hs Hv Hc Hn. assert (Hret : returns (CreateInstanceIfNotExist now env) s).
  { unfold CreateInstanceIfNotExist. go; eapply returns_get_inst; cbn; eauto using create_find. }
  destruct Hret as (r & s' & es & Hr). exists r, s', es. split; [done|]. intros k ->.
  unfold CreateInstanceIfNotExist in Hr. hinv Hr; prims; simplify_eq; rename p into k.
  - eexists. eapply (ready_put s k); [split; [eassumption|auto..]|done|done].
  - set (s1 := set_instances _ s) in *.
    assert (Hrd : ready s1 k (new_instance now)).
    { subst s1. split; cbn; auto using create_find with ordmap. right. intros k' j. cbn.
      rewrite om_find_erase_if, om_find_insert by auto with ordmap.
      destruct (om_find (instances_ s) k') eqn:E; [case_match; [done|]; intros [= <-]; by apply (Hn k')|].
      destruct (key_eqb k' k); [|done]. by case_match; [|intros [= <-]]. }
    rewrite (rd_find _ _ _ Hrd) in Hfind. injection Hfind as <-.
    eexists. by eapply (ready_put s1 k).
Qed.

Lemma OnRecv_returns now fresh_timer env s :
  om_sorted (instances_ s) -> 0 < vsize (validators_ s) -> 2 <= ckp_interval_ s -> no_pending s ->
  returns (OnRecv now fresh_timer env) s.
Proof.
  intros Hs Hv Hc Hn. unfold OnRecv. apply returns_bind; [auto with returns|].
  intros st s0 es (-> & -> & ->)%hget_inv. case_match; [auto with returns|]. case_match.
  - destruct (CreateInstance_ready now env s Hs Hv Hc Hn) as (r & s' & es & Hr & Hk).
    apply returns_bind; [by eexists _, _, _|]. intros r' s1 es1 Hr'. rewrite Hr in Hr'.
    injection Hr' as <- <- <-. destruct r as [k|]; [|auto with returns].
    destruct (Hk k eq_refl) as [i Hi]. by eapply Go_returns.
  - case_match; [|case_match]; [| |auto with returns].
    + unfold OnViewChangeWithRawValue, ProcessQuorumViewChange, ClearViewChanges. go.
    + unfold OnNewView, ClearViewChanges. go.
Qed.
End Total.
