(* ===== verification/PbftFacts.v ===== *)
(** * PBFT: the theorems

    Quorums, message authenticity and block proofs; runs of a node and what
    holds in every reachable state; agreement of two nodes; and the places
    where the protocol as written departs from what it should guarantee, each
    shown by a run of the handlers. *)
From Stdlib Require Import Sorting.Sorted.
From S2P Require Import Prelude OrdMap PbftData Pbft PbftChecks PbftInv PbftHandlers PbftTotal.
Open Scope string_scope.
Open Scope Z_scope.

(** ** Runs of a node between two changes of the validator set *)

Section Runs.
Context {P : PbftParams} (Net : PbftEnv -> Prop).

Inductive node_step (s : PbftState) (es : list event) (s' : PbftState) : Prop :=
| step_recv now fresh_timer env r :
    Net env -> OnRecv now fresh_timer env s = Returns (r, s', es) -> node_step s es s'
| step_request now value r : Request now value s = Returns (r, s', es) -> node_step s es s'
| step_timer now r : OnTimer now s = Returns (r, s', es) -> node_step s es s'
| step_tx_timeout r : OnTxTimeout s = Returns (r, s', es) -> node_step s es s'
| step_new_view_timer data ps r :
    OnNewViewTimer data ps s = Returns (r, s', es) -> node_step s es s'.

Inductive node_run : PbftState -> list event -> PbftState -> Prop :=
| run_nil s : node_run s [] s
| run_cons s es s1 es' s2 : node_step s es s1 -> node_run s1 es' s2 -> node_run s (es ++ es') s2.

(** No message has been handled since the validators were set. *)
Definition fresh_epoch (s : PbftState) : Prop :=
  instances_ s = [] /\ vc_instances_ s = [] /\ out_pbft_instances_ s = [].

Lemma fresh_inv s : fresh_epoch s -> Inv Net s.
Proof. intros (H1 & H2 & H3). split; rewrite ?H1, ?H2, ?H3; constructor. Qed.

Lemma step_ext s es s' : Inv Net s -> node_step s es s' -> ext Net s s' es.
Proof.
  intros HI [now ft env r Hn Hr|now v r Hr|now r Hr|r Hr|d ps r Hr].
  - by eapply keeps_recv.
  - by eapply keeps_request.
  - by eapply keeps_timer.
  - by eapply keeps_tx_timeout.
  - by eapply keeps_new_view_timer.
Qed.

Lemma run_ext s es s' : Inv Net s -> node_run s es s' -> ext Net s s' es.
Proof.
  intros HI Hr. revert HI. induction Hr as [s|s es s1 es' s2 Hs Hr IH]; intros HI.
  - by apply ext_refl.
  - apply step_ext in Hs; [|done]. eapply ext_trans; [exact Hs|]. apply IH. by eapply ext_inv.
Qed.

Lemma run_inst_ok s es s' k i :
  fresh_epoch s -> node_run s es s' -> om_find (instances_ s') k = Some i ->
  inst_ok Net (validators_ s) k i.
Proof.
  intros Hf%fresh_inv Hr Hk. apply run_ext in Hr; [|done].
  rewrite <- (ext_validators _ _ _ Hr). eapply inv_find; [|done]. by eapply ext_inv.
Qed.

Definition executed (es : list event) : list Z :=
  omap (fun e => match e with EvValueCommited n _ _ => Some n | _ => None end) es.

Lemma advance_executed vs ckp a es b :
  0 <= ckp -> advance Net vs ckp a es b ->
  StronglySorted Z.lt (executed es) /\ Forall (fun n => a < n <= b) (executed es) /\ a <= b.
Proof.
  intros Hc. induction 1 as [a|a v p es b _ IH|a e es b He _ IH|a k i es b Hj _ _ _ IH].
  - split_and!; [constructor|constructor|lia].
  - destruct IH as (IH1 & IH2 & IH3). cbn. split_and!; [|constructor|lia].
    + constructor; [done|]. eapply Forall_impl; [exact IH2|]. cbn. lia.
    + lia.
    + eapply Forall_impl; [exact IH2|]. cbn. lia.
  - by destruct e.
  - destruct IH as (IH1 & IH2 & IH3). split_and!; [done| |lia].
    eapply Forall_impl; [exact IH2|]. cbn. lia.
Qed.

(** The replicas a map of commits comes from. *)
Definition replicas {A} (m : ordmap Z A) : gset Z := list_to_set (map fst m).

Lemma replicas_size {A} (m : ordmap Z A) : om_sorted m -> size (replicas m) = length m.
Proof.
  intros Hs. unfold replicas. rewrite size_list_to_set by (by apply om_keys_nodup).
  by rewrite length_map.
Qed.

Lemma replicas_elem {A} (m : ordmap Z A) r : r ∈ replicas m <-> exists x, (r, x) ∈ m.
Proof.
  unfold replicas. rewrite elem_of_list_to_set, list_elem_of_fmap. split.
  - intros ([r' x] & -> & Hin). by exists x.
  - intros [x Hin]. by exists (r, x).
Qed.
End Runs.

(** A commit for the instance [k] signed by replica [r]. *)
Definition signed_commit {P : PbftParams} (Net : PbftEnv -> Prop) vs k (r : Z) (d : string) : Prop :=
  exists env, Net env /\ authentic vs env /\ pb_type (env_pbft env) = PBFT_TYPE_COMMIT
    /\ phase_index (env_pbft env) = Some k /\ replica_of (env_pbft env) = Some r
    /\ c_value_digest (pb_commit (env_pbft env)) = d.

Lemma cert_signed {P : PbftParams} Net vs k c :
  commit_cert Net vs k c -> signed_commit Net vs k (c_replica_id c) (c_value_digest c).
Proof.
  intros (env & ((Hn & Hck) & Ht & Hk) & <-). exists env.
  pose proof (CheckMessageItem_authentic _ _ Hck) as Ha. split_and!; try done.
  destruct (auth_index _ _ Ha) as (r & _ & _ & Hr). by destruct (commit_has_body _ _ Ht Hr) as [_ ->].
Qed.

Lemma commits_signed {P : PbftParams} Net vs k i r :
  inst_ok Net vs k i -> r ∈ replicas (commits_ i) ->
  exists d, (d = digest i \/ d = "") /\ signed_commit Net vs k r d.
Proof.
  intros Hi [c Hin]%replicas_elem. pose proof (ok_commits _ _ _ Hi) as Hall.
  rewrite Forall_forall in Hall. specialize (Hall _ Hin). cbn in Hall.
  destruct Hall as (<- & Hd & Hc).
  exists (c_value_digest c). split; [done|]. by apply cert_signed.
Qed.

(** Members of a commit certificate are validators. *)
Lemma commits_validators {P : PbftParams} Net vs k i :
  inst_ok Net vs k i -> replicas (commits_ i) ⊆ (map_img vs : gset Z).
Proof.
  intros Hi r Hr. destruct (commits_signed _ _ _ _ _ Hi Hr) as (d & _ & env & _ & Ha & _ & _ & Hre & _).
  destruct (auth_index _ _ Ha) as (r' & Hv & _ & Hre'). rewrite Hre in Hre'. injection Hre' as <-.
  by eapply elem_of_map_img_2.
Qed.

(** The set of replicas whose indices the validator map uses. *)
Lemma map_img_size (vs : gmap string Z) : Z.of_nat (size (map_img vs : gset Z)) <= vsize vs.
Proof.
  unfold vsize. induction vs as [|a r vs Hn IH] using map_ind.
  - rewrite map_img_empty_L, size_empty. lia.
  - rewrite map_img_insert_notin_L by done. rewrite map_size_insert_None by done.
    pose proof (size_union_alt ({[r]} : gset Z) (map_img vs)) as Hu. rewrite size_singleton in Hu.
    pose proof (subseteq_size ((map_img vs : gset Z) ∖ {[r]}) (map_img vs) ltac:(set_solver)). lia.
Qed.

(** A concrete instantiation: four nodes n0 to n3, whose keys sign with their own
    name, and a hash that marks its argument. *)
Module Toy.
Definition node (i : Z) : string :=
  if i =? 0 then "n0" else if i =? 1 then "n1" else if i =? 2 then "n2" else "n3".
Definition params (self : Z) : PbftParams := {|
  Hash v := "#" ++ v;
  Serialize _ := "";
  Sign _ := node self;
  Verify _ sign key := bool_decide (sign = key);
  EncAddress key := key;
  self_public_key := node self;
  self_address := node self;
  self_chain_id := 1;
  CheckValue _ := CHECK_VALUE_VALID;
  ParseProof _ := None |}.

Definition vs : gmap string Z := number_validators ["n0"; "n1"; "n2"; "n3"] 0 ∅.
Definition state (self : Z) : PbftState := set_membership true self vs initial_state.

Lemma state_fresh self : fresh_epoch (state self).
Proof. by split_and!. Qed.

(** A message signed by node [i]. *)
Definition by_node (i : Z) (m : Pbft) : PbftEnv := MkEnv (Some m) (MkSignature (node i) (node i)).
Definition pre_prepare_msg (i view seq : Z) (v : string) : PbftEnv :=
  by_node i (MkPbft 1 PBFT_TYPE_PREPREPARE (Some (MkPrePrepare view seq i v ("#" ++ v)))
    None None None None None 1).
Definition prepare_msg (i view seq : Z) (v : string) : PbftEnv :=
  by_node i (MkPbft 1 PBFT_TYPE_PREPARE None (Some (MkPrepare view seq i ("#" ++ v)))
    None None None None 1).
Definition commit_msg (i view seq : Z) (v : string) : PbftEnv :=
  by_node i (MkPbft 1 PBFT_TYPE_COMMIT None None (Some (MkCommit view seq i ("#" ++ v)))
    None None None 1).
(** A new view of node [i] that carries view changes nobody signed. *)
Definition unsigned_view_change (r view : Z) : PbftEnv :=
  MkEnv (Some (MkPbft 0 PBFT_TYPE_VIEWCHANGE None None None (Some (MkViewChange view 0 "" r))
    None None 1)) (MkSignature "" "").
Definition new_view_msg (i view : Z) : PbftEnv :=
  by_node i (MkPbft 0 PBFT_TYPE_NEWVIEW None None None None
    (Some (MkNewView view 0 i (map (fun r => unsigned_view_change r view) [0; 1; 2]) None)) None 1).

(** Node [self] handles the messages in order. *)
Fixpoint feed (self : Z) (l : list PbftEnv) : hm PbftState event unit :=
  match l with
  | [] => mret tt
  | e :: l' => @OnRecv (params self) 0 7 e ;; feed self l'
  end.

Lemma feed_run self (Net : PbftEnv -> Prop) l s r s' es :
  Forall Net l -> feed self l s = Returns (r, s', es) -> @node_run (params self) Net s es s'.
Proof.
  intros Hl. revert s r s' es. induction Hl as [|e l He Hl IH]; intros s r s' es Hr; cbn [feed] in Hr.
  - apply hret_inv in Hr as (_ & -> & ->). constructor.
  - apply hbind_inv in Hr as (b & s1 & es1 & es2 & H1 & H2 & ->).
    eapply run_cons; [by eapply step_recv|by eapply IH].
Qed.

(** The messages that make a backup commit [v] at sequence [seq] of view 0. *)
Definition round (seq : Z) (v : string) : list PbftEnv :=
  [pre_prepare_msg 0 0 seq v; prepare_msg 1 0 seq v; prepare_msg 2 0 seq v;
   commit_msg 0 0 seq v; commit_msg 1 0 seq v; commit_msg 2 0 seq v].

Definition result {A} (m : outcome (A * PbftState * list event)) : PbftState * list event :=
  match m with Returns (_, s, es) => (s, es) | Throws _ => (initial_state, []) end.
Definition final {A} (m : outcome (A * PbftState * list event)) : PbftState := (result m).1.
Definition events {A} (m : outcome (A * PbftState * list event)) : list event := (result m).2.
End Toy.

(** ** Quorums *)

(** [GetQuorumSize] leaves room for [(n-1)/3] faulty replicas: any two sets of
    [GetQuorumSize n + 1] replicas out of [n] share more members than there can be
    faulty ones, and the replicas that are not faulty are enough to form such a set. *)
Theorem quorum_intersection n (V X Y : gset Z) :
  1 <= n -> Z.of_nat (size V) <= n -> X ⊆ V -> Y ⊆ V ->
  GetQuorumSize n + 1 <= Z.of_nat (size X) -> GetQuorumSize n + 1 <= Z.of_nat (size Y) ->
  max_faulty n < Z.of_nat (size (X ∩ Y)) /\ GetQuorumSize n + 1 <= n - max_faulty n.
Proof.
  intros Hn HV HX HY Hx Hy. pose proof (quorum_bounds n Hn).
  pose proof (size_intersection_bound V X Y HX HY). lia.
Qed.

Lemma quorum_intersection_witness :
  let V := list_to_set [0; 1; 2; 3] : gset Z in
  let X := list_to_set [0; 1; 2] : gset Z in let Y := list_to_set [1; 2; 3] : gset Z in
  max_faulty 4 < Z.of_nat (size (X ∩ Y)) /\ GetQuorumSize 4 + 1 <= 4 - max_faulty 4.
Proof.
  intros V X Y. apply (quorum_intersection 4 V X Y); try by vm_compute.
  - apply (bool_decide_unpack _). by vm_compute.
  - apply (bool_decide_unpack _). by vm_compute.
Defined.

(** ** Messages and proofs *)

(** A message that [CheckMessageItem] accepts is for this chain, its sender is a
    validator, the replica id it claims is the sender's index, and its signature
    verifies under the sender's key. Messages without a raw value are accepted in
    exactly these cases. *)
Theorem accepted_message_is_authentic {P : PbftParams} vs env :
  (CheckMessageItem vs env = true ->
     pb_chain_id (env_pbft env) = self_chain_id
     /\ (exists r, vs !! sender env = Some r /\ 0 <= r /\ replica_of (env_pbft env) = Some r)
     /\ verified env)
  /\ (pb_type (env_pbft env) <> PBFT_TYPE_VIEWCHANG_WITH_RAWVALUE ->
      pb_chain_id (env_pbft env) = self_chain_id ->
      (exists r, vs !! sender env = Some r /\ 0 <= r /\ replica_of (env_pbft env) = Some r) ->
      verified env -> CheckMessageItem vs env = true).
Proof.
  split.
  - by intros [H1 H2 H3]%CheckMessageItem_authentic.
  - intros Ht H1 H2 H3. by apply CheckMessageItem_exact.
Qed.

Lemma accepted_message_is_authentic_witness :
  @CheckMessageItem (Toy.params 3) Toy.vs (Toy.commit_msg 1 0 2 "x") = true
  /\ @verified (Toy.params 3) (Toy.commit_msg 1 0 2 "x").
Proof.
  split; [by vm_compute|].
  refine (proj2 (proj2 (proj1 (@accepted_message_is_authentic (Toy.params 3) Toy.vs
            (Toy.commit_msg 1 0 2 "x")) _))). by vm_compute.
Defined.

(** [CheckProof] accepts a proof exactly when every commit in it is an authentic
    commit of a validator for the given hash, no validator signed twice, and there
    are at least quorum plus one of them. *)
Theorem CheckProof_accepts {P : PbftParams} validators hash proof commits :
  ParseProof proof = Some commits ->
  CheckProof validators hash proof = true <->
  Forall (fun env => authentic (number_validators validators 0 ∅) env
            /\ pb_type (env_pbft env) = PBFT_TYPE_COMMIT
            /\ c_value_digest (pb_commit (env_pbft env)) = hash) commits
  /\ NoDup (map sender commits)
  /\ GetQuorumSize (vsize (number_validators validators 0 ∅)) + 1 <= Z.of_nat (length commits).
Proof. apply CheckProof_exact. Qed.

(** A parameter whose proofs parse to three commits. *)
Definition proof_params : PbftParams :=
  let P := Toy.params 3 in
  {| Hash := @Hash P; Serialize := @Serialize P; Sign := @Sign P; Verify := @Verify P;
     EncAddress := @EncAddress P; self_public_key := @self_public_key P;
     self_address := @self_address P; self_chain_id := @self_chain_id P;
     CheckValue := @CheckValue P;
     ParseProof := fun _ => Some [Toy.commit_msg 0 0 2 "x"; Toy.commit_msg 1 0 2 "x";
                                  Toy.commit_msg 2 0 2 "x"] |}.

Lemma CheckProof_accepts_witness :
  @CheckProof proof_params ["n0"; "n1"; "n2"; "n3"] "#x" "p" = true
  /\ @CheckProof proof_params ["n0"; "n1"; "n2"; "n3"] "#y" "p" = false
  /\ NoDup (map (@sender proof_params) [Toy.commit_msg 0 0 2 "x"; Toy.commit_msg 1 0 2 "x";
                                       Toy.commit_msg 2 0 2 "x"]).
Proof.
  split_and!; [by vm_compute|by vm_compute|].
  refine (proj1 (proj2 (proj1 (@CheckProof_accepts proof_params ["n0"; "n1"; "n2"; "n3"] "#x" "p"
            _ eq_refl) _))). by vm_compute.
Defined.

(** ** Reachable states *)



(** C4: A node hands sequences to the ledger in strictly increasing order, each at most
    once, all of them above the sequence it started from and up to the last executed
    one it ends with. *)
Theorem executed_in_order {P : PbftParams} Net s es s' :
  fresh_epoch s -> 0 <= ckp_interval_ s -> node_run Net s es s' ->
  StronglySorted Z.lt (executed es)
  /\ Forall (fun n => last_exe_seq_ s < n <= last_exe_seq_ s') (executed es)
  /\ last_exe_seq_ s <= last_exe_seq_ s'.
Proof.
  intros Hf Hc Hr. apply fresh_inv with (Net := Net) in Hf. apply run_ext in Hr; [|done].
  by eapply advance_executed, ext_advance.
Qed.

Lemma executed_in_order_witness :
  let run := Toy.feed 3 (Toy.round 3 "y" ++ Toy.round 2 "x") (Toy.state 3) in
  executed (Toy.events run) = [2; 3] /\ StronglySorted Z.lt (executed (Toy.events run)).
Proof.
  intros run. split; [by vm_compute|].
  refine (proj1 (@executed_in_order (Toy.params 3) (fun _ => True) (Toy.state 3) (Toy.events run)
    (Toy.final run) (Toy.state_fresh 3) _ _)).
  - by vm_compute.
  - eapply (Toy.feed_run 3 _ (Toy.round 3 "y" ++ Toy.round 2 "x") _ tt);
      [by repeat constructor|by vm_compute].
Defined.



(** A node sends a commit only for the digest of an instance of its own for which it
    holds a prepare certificate (a quorum of accepted prepares for that digest) or
    a commit certificate. *)
Theorem commit_sent_certified {P : PbftParams} Net s es s' env :
  fresh_epoch s -> node_run Net s es s' -> EvSend env ∈ es ->
  pb_type (env_pbft env) = PBFT_TYPE_COMMIT ->
  exists k i, inst_ok Net (validators_ s) k i /\ phase_index (env_pbft env) = Some k
    /\ c_value_digest (pb_commit (env_pbft env)) = digest i
    /\ (qsize (validators_ s) <= Z.of_nat (length (prepares_ i)) \/ phase_ i = PBFT_PHASE_COMMITED).
Proof.
  intros Hf Hr Hin Ht. apply fresh_inv with (Net := Net) in Hf. apply run_ext in Hr; [|done].
  pose proof (ext_events _ _ _ Hr) as He. rewrite Forall_forall in He. by apply (He _ Hin).
Qed.

Lemma commit_sent_certified_witness :
  let run := Toy.feed 3 (Toy.round 2 "x") (Toy.state 3) in
  let env := @NewCommit (Toy.params 3) (Toy.state 3) (MkPrepare 0 2 2 "#x") 1 in
  EvSend env ∈ Toy.events run
  /\ exists k i, @inst_ok (Toy.params 3) (fun _ => True) Toy.vs k i
       /\ phase_index (env_pbft env) = Some k /\ "#x" = digest i
       /\ (2 <= Z.of_nat (length (prepares_ i)) \/ phase_ i = PBFT_PHASE_COMMITED).
Proof.
  intros run env.
  assert (Hin : EvSend env ∈ Toy.events run)
    by (vm_compute; repeat (apply list_elem_of_here || apply list_elem_of_further)).
  split; [exact Hin|].
  refine (@commit_sent_certified (Toy.params 3) (fun _ => True) (Toy.state 3) (Toy.events run)
    (Toy.final run) env (Toy.state_fresh 3) _ Hin eq_refl).
  eapply (Toy.feed_run 3 _ (Toy.round 2 "x") _ tt); [by repeat constructor|by vm_compute].
Defined.

(** ** Agreement *)

(** Two nodes run the same cryptography on the same chain. *)
Definition same_crypto (P1 P2 : PbftParams) : Prop :=
  @Serialize P1 = @Serialize P2 /\ @Verify P1 = @Verify P2
  /\ @EncAddress P1 = @EncAddress P2 /\ @self_chain_id P1 = @self_chain_id P2.

Lemma same_authentic P1 P2 vs env :
  same_crypto P1 P2 -> @authentic P1 vs env -> @authentic P2 vs env.
Proof.
  intros (H1 & H2 & H3 & H4) [Ha (r & Hr & Hp & Hre) Hs]. unfold sender, verified in *.
  split; unfold sender, verified; [congruence| |congruence].
  exists r. by rewrite <- H3.
Qed.

Lemma same_signed P1 P2 Net vs k r d :
  same_crypto P1 P2 -> @signed_commit P1 Net vs k r d -> @signed_commit P2 Net vs k r d.
Proof.
  intros Hc (env & Hn & Ha & Hx). exists env. split; [done|]. split; [|done].
  exact (same_authentic P1 P2 vs env Hc Ha).
Qed.

(** A replica that signs commits for one non-empty digest per view and sequence. *)
Definition consistent {P : PbftParams} (Net : PbftEnv -> Prop) vs (r : Z) : Prop :=
  forall k d d', signed_commit Net vs k r d -> signed_commit Net vs k r d' -> d = d' /\ d <> "".

(** The digest of a committed instance is the one every consistent member of its
    certificate signed. *)
Lemma commited_member {P : PbftParams} Net vs k i r :
  inst_ok Net vs k i -> r ∈ replicas (commits_ i) -> consistent Net vs r ->
  signed_commit Net vs k r (digest i) /\ digest i <> "".
Proof.
  intros Hi Hr Hc. destruct (commits_signed _ _ _ _ _ Hi Hr) as (d & Hd & Hs).
  destruct (Hc _ _ _ Hs Hs) as [_ Hne]. destruct Hd as [-> | ->]; done.
Qed.

(** C1: Two nodes that committed an instance of the same view and sequence committed the
    same digest, the hash of the value each of them holds, as long as all replicas
    but at most [(n-1)/3] sign one digest per view and sequence. *)
Theorem committed_agreement P1 P2 Net s1 es1 s1' s2 es2 s2' k i1 i2 (faulty : gset Z) :
  same_crypto P1 P2 -> fresh_epoch s1 -> fresh_epoch s2 -> validators_ s1 = validators_ s2 ->
  @node_run P1 Net s1 es1 s1' -> @node_run P2 Net s2 es2 s2' ->
  om_find (instances_ s1') k = Some i1 -> phase_ i1 = PBFT_PHASE_COMMITED ->
  om_find (instances_ s2') k = Some i2 -> phase_ i2 = PBFT_PHASE_COMMITED ->
  1 <= vsize (validators_ s1) -> Z.of_nat (size faulty) <= max_faulty (vsize (validators_ s1)) ->
  (forall r, r ∉ faulty -> @consistent P2 Net (validators_ s1) r) ->
  digest i1 = digest i2
  /\ digest i1 = @Hash P1 (pp_value (pre_prepare_ i1))
  /\ digest i2 = @Hash P2 (pp_value (pre_prepare_ i2)).
Proof.
  intros Hsame Hf1 Hf2 Hvs Hr1 Hr2 Hk1 Hp1 Hk2 Hp2 Hn Hfaulty Hcons.
  pose proof (@run_inst_ok P1 Net s1 es1 s1' k i1 Hf1 Hr1 Hk1) as Hi1.
  pose proof (@run_inst_ok P2 Net s2 es2 s2' k i2 Hf2 Hr2 Hk2) as Hi2. rewrite <- Hvs in Hi2.
  clear Hr1 Hr2 Hk1 Hk2 Hf1 Hf2.
  assert (Hx : exists r, r ∈ replicas (commits_ i1) /\ r ∈ replicas (commits_ i2) /\ r ∉ faulty).
  { pose proof (ok_commited _ _ _ Hi1 Hp1) as Hq1. pose proof (ok_commited _ _ _ Hi2 Hp2) as Hq2.
    rewrite <- (replicas_size _ (ok_csorted _ _ _ Hi1)) in Hq1.
    rewrite <- (replicas_size _ (ok_csorted _ _ _ Hi2)) in Hq2.
    set (X := replicas (commits_ i1)) in *. set (Y := replicas (commits_ i2)) in *.
    pose proof (size_intersection_bound (map_img (validators_ s1)) X Y
      (commits_validators _ _ _ _ Hi1) (commits_validators _ _ _ _ Hi2)) as Hb.
    pose proof (map_img_size (validators_ s1)). pose proof (quorum_bounds _ Hn). unfold qsize in *.
    destruct (set_choose_or_empty ((X ∩ Y) ∖ faulty)) as [[r Hr]|He]; [exists r; set_solver|].
    exfalso. assert (Hsub : X ∩ Y ⊆ faulty).
    { intros r Hr. destruct (decide (r ∈ faulty)); [done|]. set_solver. }
    pose proof (subseteq_size _ _ Hsub). lia. }
  destruct Hx as (r & Hr1 & Hr2 & Hr). specialize (Hcons r Hr).
  assert (Hc1 : @consistent P1 Net (validators_ s1) r).
  { intros k' d d' Hd Hd'. apply (Hcons k'); by apply (same_signed P1 P2). }
  destruct (commited_member _ _ _ _ _ Hi1 Hr1 Hc1) as [Hs1 Hn1].
  destruct (commited_member _ _ _ _ _ Hi2 Hr2 Hcons) as [Hs2 Hn2].
  split; [eapply Hcons; [by apply (same_signed P1 P2)|done]|].
  destruct (ok_pp _ _ _ Hi1) as [E1|[E1 _]]; [unfold digest in Hn1; by rewrite E1 in Hn1|].
  destruct (ok_pp _ _ _ Hi2) as [E2|[E2 _]]; [unfold digest in Hn2; by rewrite E2 in Hn2|].
  done.
Qed.

(** Everyone signs one digest when the network carries the messages of one round. *)
Lemma Toy_round_consistent self r :
  @consistent (Toy.params self) (fun e => e ∈ Toy.round 2 "x") Toy.vs r.
Proof.
  assert (Hd : forall k d, @signed_commit (Toy.params self) (fun e => e ∈ Toy.round 2 "x") Toy.vs k r d ->
                 d = "#x").
  { intros k d (env & Hin & _ & Ht & _ & _ & <-).
    repeat (apply elem_of_cons in Hin as [->|Hin]; [by cbn in Ht|]); by apply elem_of_nil in Hin. }
  intros k d d' H1 H2. apply Hd in H1, H2. by subst.
Qed.

Lemma committed_agreement_witness :
  let run self := Toy.feed self (Toy.round 2 "x") (Toy.state self) in
  exists i1 i2, om_find (instances_ (Toy.final (run 3))) (MkIndex 0 2) = Some i1
    /\ om_find (instances_ (Toy.final (run 1))) (MkIndex 0 2) = Some i2
    /\ digest i1 = digest i2.
Proof.
  intros run.
  destruct (om_find (instances_ (Toy.final (run 3))) (MkIndex 0 2)) as [i1|] eqn:H1;
    [|exfalso; vm_compute in H1; discriminate].
  destruct (om_find (instances_ (Toy.final (run 1))) (MkIndex 0 2)) as [i2|] eqn:H2;
    [|exfalso; vm_compute in H2; discriminate].
  exists i1, i2. split; [done|]. split; [done|].
  refine (proj1 (committed_agreement (Toy.params 3) (Toy.params 1) (fun e => e ∈ Toy.round 2 "x")
    (Toy.state 3) (Toy.events (run 3)) (Toy.final (run 3))
    (Toy.state 1) (Toy.events (run 1)) (Toy.final (run 1)) (MkIndex 0 2) i1 i2 ∅
    _ (Toy.state_fresh 3) (Toy.state_fresh 1) eq_refl _ _ H1 _ H2 _ _ _ (fun r _ => Toy_round_consistent 1 r))).
  - by split_and!.
  - eapply (Toy.feed_run 3 _ (Toy.round 2 "x") _ tt); [by apply Forall_forall|by vm_compute].
  - eapply (Toy.feed_run 1 _ (Toy.round 2 "x") _ tt); [by apply Forall_forall|by vm_compute].
  - vm_compute in H1. by injection H1 as <-.
  - vm_compute in H2. by injection H2 as <-.
  - by vm_compute.
  - by vm_compute.
Defined.

(** ** Termination *)

(** C5: Handling a received message always returns: the loop over the buffered messages
    of an instance ends within the number of messages buffered, no instance
    reference dangles and no division by zero happens, provided there is a
    validator and no committed instance is still waiting for an earlier sequence. *)
Theorem OnRecv_total {P : PbftParams} now fresh_timer env s :
  om_sorted (instances_ s) -> 0 < vsize (validators_ s) -> 2 <= ckp_interval_ s ->
  (forall k i, om_find (instances_ s) k = Some i -> phase_ i = PBFT_PHASE_COMMITED ->
     ix_sequence k <= last_exe_seq_ s) ->
  exists r s' es, OnRecv now fresh_timer env s = Returns (r, s', es).
Proof. intros. by apply OnRecv_returns. Qed.

Lemma OnRecv_total_witness :
  exists r s' es, @OnRecv (Toy.params 3) 0 7 (Toy.pre_prepare_msg 0 0 2 "x") (Toy.state 3)
                  = Returns (r, s', es).
Proof.
  refine (@OnRecv_total (Toy.params 3) 0 7 _ (Toy.state 3) I _ _ _); [done|done|].
  intros k i Hf. cbn in Hf. discriminate.
Defined.

(** ** Where the guarantees end *)

(** The proviso of [OnRecv_total] is needed: a node that has committed sequences 3 to 7
    and then commits sequence 2 executes all of them, erases the instance of
    sequence 2 from the map while [PbftInstance::Go] is still running on it, and reads
    the erased instance (here: a trap). *)
Theorem go_uses_erased_instance :
  exists s, (exists es, @node_run (Toy.params 3) (fun _ => True) (Toy.state 3) es s)
    /\ @OnRecv (Toy.params 3) 0 7 (Toy.commit_msg 2 0 2 "x") s = Throws Trap.
Proof.
  pose (msgs := (concat (map (fun n => Toy.round n "x") [3; 4; 5; 6; 7])
                 ++ take 5 (Toy.round 2 "x"))%list).
  exists (Toy.final (Toy.feed 3 msgs (Toy.state 3))). split; [|by vm_compute].
  exists (Toy.events (Toy.feed 3 msgs (Toy.state 3))).
  eapply (Toy.feed_run 3 _ msgs _ tt); [by repeat constructor|by vm_compute].
Qed.

(** A commit that arrives after a view change is counted towards the quorum but not
    kept for the block proof ([TraceOutPbftCommit] calls [OnCommit] without buffering
    the message): a node can hand a value to the ledger with a proof of fewer commits
    than [CheckProof] asks for. *)
Theorem late_commit_short_proof :
  exists es s' proof, @node_run (Toy.params 3) (fun _ => True) (Toy.state 3) es s'
    /\ EvValueCommited 2 "x" proof ∈ es
    /\ Z.of_nat (length proof) < qsize Toy.vs + 1.
Proof.
  pose (msgs := (take 5 (Toy.round 2 "x")
                 ++ [Toy.new_view_msg 2 1; Toy.commit_msg 2 0 2 "x"])%list).
  exists (Toy.events (Toy.feed 3 msgs (Toy.state 3))), (Toy.final (Toy.feed 3 msgs (Toy.state 3))),
    [Toy.commit_msg 0 0 2 "x"; Toy.commit_msg 1 0 2 "x"]. split_and!.
  - eapply (Toy.feed_run 3 _ msgs _ tt); [by repeat constructor|by vm_compute].
  - vm_compute. repeat (apply list_elem_of_here || apply list_elem_of_further).
  - by vm_compute.
Qed.

(** C6: The prepare of the primary itself counts towards the quorum, so one faulty
    replica can make two correct nodes prepare different values in one view: with
    four validators and every replica but the primary signing prepares for one
    digest only, nodes 1 and 3 reach PREPARED on different digests. *)
Theorem conflicting_prepared :
  let net := [Toy.pre_prepare_msg 0 0 2 "x"; Toy.pre_prepare_msg 0 0 2 "y";
              Toy.prepare_msg 0 0 2 "x"; Toy.prepare_msg 1 0 2 "x";
              Toy.prepare_msg 2 0 2 "y"; Toy.prepare_msg 3 0 2 "y"] in
  exists es1 s1 i1 es3 s3 i3,
    @node_run (Toy.params 1) (fun e => e ∈ net) (Toy.state 1) es1 s1
    /\ om_find (instances_ s1) (MkIndex 0 2) = Some i1 /\ phase_ i1 = PBFT_PHASE_PREPARED
    /\ @node_run (Toy.params 3) (fun e => e ∈ net) (Toy.state 3) es3 s3
    /\ om_find (instances_ s3) (MkIndex 0 2) = Some i3 /\ phase_ i3 = PBFT_PHASE_PREPARED
    /\ digest i1 <> digest i3.
Proof.
  intros net.
  pose (m1 := [Toy.pre_prepare_msg 0 0 2 "x"; Toy.prepare_msg 0 0 2 "x"; Toy.prepare_msg 1 0 2 "x"]).
  pose (m3 := [Toy.pre_prepare_msg 0 0 2 "y"; Toy.prepare_msg 2 0 2 "y"; Toy.prepare_msg 3 0 2 "y"]).
  assert (H1 : Forall (fun e => e ∈ net) m1) by
    (repeat constructor; repeat (apply list_elem_of_here || apply list_elem_of_further)).
  assert (H3 : Forall (fun e => e ∈ net) m3) by
    (repeat constructor; repeat (apply list_elem_of_here || apply list_elem_of_further)).
  eexists _, (Toy.final (Toy.feed 1 m1 (Toy.state 1))), _, _, (Toy.final (Toy.feed 3 m3 (Toy.state 3))), _.
  split_and!.
  - eapply (Toy.feed_run 1 _ m1 _ tt); [exact H1|by vm_compute].
  - by vm_compute.
  - by vm_compute.
  - eapply (Toy.feed_run 3 _ m3 _ tt); [exact H3|by vm_compute].
  - by vm_compute.
  - by vm_compute.
  - by vm_compute.
Qed.

(** [OnNewView] enters the view a new-view message names whenever the outer message is
    accepted and the embedded view changes name that view and more than a quorum of
    replica ids; neither the embedded messages' signatures nor that the sender is the
    primary of the new view is checked. *)
Theorem new_view_enters {P : PbftParams} now env s ids :
  CheckMessageItem (validators_ s) env = true ->
  let nv := pb_new_view (env_pbft env) in
  view_number_ s < nv_view_number nv -> 0 < vsize (validators_ s) ->
  u64 (nv_view_number nv) mod vsize (validators_ s) <> u64 (replica_id_ s) ->
  Forall (fun e => v_view_number (pb_view_change (env_pbft e)) = nv_view_number nv)
    (nv_view_changes nv) ->
  ids = (list_to_set (map (fun e => v_replica_id (pb_view_change (env_pbft e)))
           (nv_view_changes nv)) : gset Z) ->
  qsize (validators_ s) < Z.of_nat (size ids) ->
  exists s' es, OnNewView now env s = Returns (true, s', es)
    /\ view_number_ s' = nv_view_number nv /\ view_active_ s' = true.
Proof.
  intros Hck nv Hv Hn Hp Hall -> Hq.
  assert (Hrep : forall l acc, Forall (fun e => v_view_number (pb_view_change (env_pbft e))
                                               = nv_view_number nv) l ->
     new_view_replicas (validators_ s) env (nv_view_number nv) l acc
     = Some (list_to_set (map (fun e => v_replica_id (pb_view_change (env_pbft e))) l) ∪ acc)).
  { clear -Hck. intros l. induction l as [|e l IH]; intros acc Hl; cbn [new_view_replicas map list_to_set].
    - by rewrite (left_id_L ∅ (∪)).
    - apply Forall_cons in Hl as [He Hl]. rewrite Hck, He, Z.eqb_refl. cbn [negb].
      rewrite IH by done. f_equal. set_solver. }
  unfold OnNewView, is_primary. cbv [mbind hm_bind hget hemit hmod mret hm_ret hthrow]. fold nv.
  assert (nv_view_number nv =? view_number_ s = false) as -> by lia.
  assert (nv_view_number nv <? view_number_ s = false) as -> by lia.
  assert (vsize (validators_ s) =? 0 = false) as -> by lia.
  assert (u64 (nv_view_number nv) mod vsize (validators_ s) =? u64 (replica_id_ s) = false) as -> by lia.
  rewrite Hrep by done. rewrite (right_id_L ∅ (∪)).
  assert (Z.of_nat (size (list_to_set (map (fun e => v_replica_id (pb_view_change (env_pbft e)))
           (nv_view_changes nv)) : gset Z)) <=? quorum s = false) as ->
    by (unfold quorum, qsize in *; lia).
  eexists _, _. split; [reflexivity|]. cbn. by case_match.
Qed.

Lemma new_view_enters_witness :
  exists s' es, @OnNewView (Toy.params 3) 0 (Toy.new_view_msg 2 5) (Toy.state 3) = Returns (true, s', es)
    /\ view_number_ s' = 5 /\ view_active_ s' = true.
Proof.
  refine (@new_view_enters (Toy.params 3) 0 (Toy.new_view_msg 2 5) (Toy.state 3) _ _ _ _ _ _ eq_refl _);
    try by vm_compute.
  by repeat constructor.
Defined.

(** All messages a raw view change carries are signed by the same node. *)
Definition signed_only_by {P : PbftParams} (a : string) (env : PbftEnv) : Prop :=
  sender env = a
  /\ forall pset, raw_prepared_set_opt (pb_raw (env_pbft env)) = Some pset ->
       sender (raw_view_change_env (pb_raw (env_pbft env))) = a
       /\ sender (ps_pre_prepare pset) = a /\ Forall (fun e => sender e = a) (ps_prepare pset).

(** C7: A view change with a prepared certificate for any value can be made by one
    validator alone: the certificate's messages are only checked to be authentic
    messages of some type, so pre-prepares of one signer that carry extra prepare
    bodies count as prepares of the replicas named there. *)
Theorem forged_prepared_certificate (view seq : Z) (value : string) :
  let P := Toy.params 3 in
  exists env, @CheckMessageItem P Toy.vs env = true /\ @signed_only_by P "n1" env
    /\ exists pset, raw_prepared_set_opt (pb_raw (env_pbft env)) = Some pset
         /\ pp_value (pb_pre_prepare (env_pbft (ps_pre_prepare pset))) = value
         /\ Z.of_nat (length (ps_prepare pset)) = qsize Toy.vs.
Proof.
  intros P.
  pose (forged := fun r => Toy.by_node 1 (MkPbft 1 PBFT_TYPE_PREPREPARE (Some (MkPrePrepare 0 0 1 "" ""))
           (Some (MkPrepare view seq r ("#" ++ value))) None None None None 1)).
  pose (pset := MkPreparedSet (Some (Toy.pre_prepare_msg 1 view seq value)) [forged 2; forged 3]).
  pose (inner := Toy.by_node 1 (MkPbft 0 PBFT_TYPE_VIEWCHANGE None None None
           (Some (MkViewChange (view + 1) 0 ("#" ++ value) 1)) None None 1)).
  exists (Toy.by_node 1 (MkPbft 0 PBFT_TYPE_VIEWCHANG_WITH_RAWVALUE None None None None None
           (Some (MkRaw (Some inner) (Some pset))) 1)).
  split_and!.
  - cbn -[String.append GetQuorumSize vsize]. unfold prepare_matches.
    cbn -[String.append GetQuorumSize vsize].
    rewrite !Z.eqb_refl, !CompareValue_eq, !bool_decide_true by done. by vm_compute.
  - split; [done|]. cbn. intros ? [= <-]. by split_and!; repeat constructor.
  - by exists pset.
Qed.
