(* ===== verification/AtomMap.v ===== *)
(** * AtomMap: transactional maps over shared pointers

    [utils::AtomMap] (src/utils/atom_map.h). The values live in a heap and the
    maps hold pointers, because the same object is reachable from several maps
    after a commit. An AtomMap has two maps: the committed data and the change
    buffer. A nested AtomMap takes the change buffer of its parent as its data
    map (the [Map*] constructor argument), so the maps of a chain of AtomMaps
    form a stack: the AtomMap at depth [d] has data map [d] and buffer [S d]. *)
From S2P Require Import Prelude.

Inductive actType := ADD | MOD | DEL | REV | MAX.

#[export] Instance actType_eq_dec : EqDecision actType.
Proof. solve_decision. Defined.

Definition loc := nat.

(** [AtomMap::Record]; a null pointer is [None]. *)
Record Rec := MkRec { type_ : actType; ptr_ : option loc }.

Section AtomMap.
Context {K V E : Type} `{Countable K} (GetFromDB : K -> option V).

Notation Map := (gmap K Rec).

Record Store := MkStore { heap_ : gmap loc V; next_ : loc; maps_ : list Map }.

Notation M := (hm Store E).

(** An AtomMap with its own storage: an empty data map and an empty buffer. *)
Definition empty_store : Store := MkStore ∅ 0%nat [∅; ∅].

Definition map_at (s : Store) (i : nat) : Map := default ∅ (maps_ s !! i).
Definition set_map (i : nat) (m : Map) (s : Store) : Store :=
  MkStore (heap_ s) (next_ s) (<[i := m]> (maps_ s)).

(** [std::make_shared<VALUE>(v)] *)
Definition alloc (v : V) : M loc := fun s =>
  Returns (next_ s, MkStore (<[next_ s := v]> (heap_ s)) (S (next_ s)) (maps_ s), []).
(** [*ptr]; dereferencing a null pointer is undefined. *)
Definition deref (p : option loc) : M V := fun s =>
  match p ≫= fun l => heap_ s !! l with
  | Some v => Returns (v, s, [])
  | None => Throws Trap
  end.
(** An assignment through a pointer. *)
Definition assign (l : loc) (v : V) : M unit :=
  hmod (fun s => MkStore (<[l := v]> (heap_ s)) (next_ s) (maps_ s)).

(** [buff_[key] = rec] of the AtomMap at depth [d]. *)
Definition put_buff (d : nat) (key : K) (r : Rec) : M unit :=
  hmod (fun s => set_map (S d) (<[key := r]> (map_at s (S d))) s).

(** [SetValue] *)
Definition SetValue (d : nat) (key : K) (ptr : loc) : M unit :=
  put_buff d key (MkRec MOD (Some ptr)).

(** [GetValue]: the pointer found, or [None] when it returns false. A null
    pointer of a record that is not deleted would be dereferenced by the caller. *)
Definition GetValue (d : nat) (key : K) : M (option loc) :=
  s ← hget;
  match map_at s (S d) !! key with
  | Some r =>
      if decide (type_ r = DEL) then mret None
      else match ptr_ r with Some l => mret (Some l) | None => hthrow Trap end
  | None =>
      match map_at s d !! key with
      | Some r =>
          if decide (type_ r = DEL) then mret None
          else
            v ← deref (ptr_ r);
            pv ← alloc v;
            put_buff d key (MkRec MOD (Some pv)) ;;
            mret (Some pv)
      | None =>
          match GetFromDB key with
          | None => mret None
          | Some v =>
              ptr ← alloc v;
              put_buff d key (MkRec ADD (Some ptr)) ;;
              mret (Some ptr)
          end
      end
  end.

(** [Set], [Get], [Del]: the wrappers around the calls that may run out of memory. *)
Definition Set_ (d : nat) (key : K) (ptr : loc) : M bool := SetValue d key ptr ;; mret true.
Definition Get (d : nat) (key : K) : M (option loc) := GetValue d key.
Definition Del (d : nat) (key : K) : M bool := put_buff d key (MkRec DEL None) ;; mret true.

(** [DirectCommit]: the buffered records overwrite those of the data map. *)
Definition DirectCommit (d : nat) : M bool :=
  hmod (fun s => set_map (S d) ∅ (set_map d (map_at s (S d) ∪ map_at s d) s)) ;; mret true.

(** [CopyCommit]: the same through a copy that is swapped in. *)
Definition CopyCommit (d : nat) : M bool :=
  s ← hget;
  let copyBuf := map_fold (fun k r m => <[k := r]> m) (map_at s d) (map_at s (S d)) in
  hmod (fun s => set_map (S d) ∅ (set_map d copyBuf s)) ;; mret true.

Definition Commit (d : nat) (bakMode : bool) : M bool :=
  if negb bakMode then DirectCommit d else CopyCommit d.

Definition ClearChangeBuf (d : nat) : M unit := hmod (fun s => set_map (S d) ∅ s).

Definition GetChangeBuf (d : nat) (s : Store) : Map := map_at s (S d).
Definition GetData (d : nat) (s : Store) : Map := map_at s d.

(** A new AtomMap whose data map is the buffer of the one at depth [d], the last
    of the stack; and its destruction. *)
Definition push_frame : M unit := hmod (fun s => MkStore (heap_ s) (next_ s) (maps_ s ++ [∅])).
Definition pop_frame : M unit :=
  hmod (fun s => MkStore (heap_ s) (next_ s) (take (length (maps_ s) - 1) (maps_ s))).

(** One record of [Copy]: the pointed-to value is copied without a null check. *)
Fixpoint copy_records (l : list (K * Rec)) : M Map :=
  match l with
  | [] => mret ∅
  | (key, r) :: l' =>
      v ← deref (ptr_ r);
      p ← alloc v;
      m ← copy_records l';
      mret (<[key := MkRec (type_ r) (Some p)]> m)
  end.

(** [Copy], the body of the copy constructor and of [operator=]: copies of the
    buffer and of the data map of the AtomMap at depth [d]. *)
Definition Copy (d : nat) : M (Map * Map) :=
  s ← hget;
  buff ← copy_records (map_to_list (map_at s (S d)));
  stor ← copy_records (map_to_list (map_at s d));
  mret (buff, stor).
End AtomMap.

Arguments Store K V {_ _}.
