(* ===== verification/AtomMapFacts.v ===== *)
(** * AtomMap: a refinement of a transactional map

    Abstractly, an AtomMap is a function from keys to optional values ([view]).
    The theorems relate the operations on pointers and buffers to operations on
    that function, and say which other maps of the stack they leave alone. *)
From S2P Require Import Prelude AtomMap.

Section Facts.
Context {K V E : Type} `{Countable K}.
Notation Store := (Store K V).
Notation M := (hm Store E).
Implicit Types (s : Store) (d i j : nat) (k : K) (l : loc).

(** What a map of the stack says of a key: nothing, deleted, or a value. *)
Definition content s i k : option (option V) :=
  (fun r => if decide (type_ r = DEL) then None else ptr_ r ≫= fun l => heap_ s !! l)
    <$> map_at s i !! k.

(** Pointers are valid, deleted records have none, and no object is reachable
    from two places. *)
Record wf s : Prop := {
  wf_ptr : forall i k r, map_at s i !! k = Some r -> type_ r <> DEL ->
    exists l v, ptr_ r = Some l /\ heap_ s !! l = Some v;
  wf_del : forall i k r, map_at s i !! k = Some r -> type_ r = DEL -> ptr_ r = None;
  wf_next : forall l v, heap_ s !! l = Some v -> (l < next_ s)%nat;
  wf_own : forall i j k k' r r' l, map_at s i !! k = Some r -> map_at s j !! k' = Some r' ->
    ptr_ r = Some l -> ptr_ r' = Some l -> i = j /\ k = k' }.

(** [l] is the object behind the key [k] of map [i]. *)
Definition owned s i k l : Prop := exists r, map_at s i !! k = Some r /\ ptr_ r = Some l.

Lemma map_at_set s i j m : (i < length (maps_ s))%nat ->
  map_at (set_map i m s) j = if decide (i = j) then m else map_at s j.
Proof.
  intros Hi. unfold map_at, set_map. cbn. case_decide as Hd.
  - subst. by rewrite list_lookup_insert_eq.
  - by rewrite list_lookup_insert_ne.
Qed.

(** The record at a key of a map. *)
Definition set_rec i k (r : Rec) s : Store := set_map i (<[k := r]> (map_at s i)) s.

Lemma lookup_set_rec s i k r j k' : (i < length (maps_ s))%nat ->
  map_at (set_rec i k r s) j !! k' =
    if decide (i = j /\ k = k') then Some r else map_at s j !! k'.
Proof.
  intros Hi. unfold set_rec. rewrite map_at_set by done.
  destruct (decide (i = j)) as [->|]; [rewrite lookup_insert|]; repeat case_decide; naive_solver.
Qed.

Lemma content_live s i k r l v :
  map_at s i !! k = Some r -> type_ r <> DEL -> ptr_ r = Some l -> heap_ s !! l = Some v ->
  content s i k = Some (Some v).
Proof.
  intros Hr Ht Hp Hl. unfold content. rewrite Hr. cbn. case_decide; [done|].
  rewrite Hp. cbn. by rewrite Hl.
Qed.

Lemma content_dead s i k r : map_at s i !! k = Some r -> type_ r = DEL -> content s i k = Some None.
Proof. intros Hr Ht. unfold content. rewrite Hr. cbn. by case_decide. Qed.

Lemma content_none s i k : map_at s i !! k = None -> content s i k = None.
Proof. intros Hr. unfold content. by rewrite Hr. Qed.

(** A new object stored under a key of map [i]. *)
Definition store_new i k (t : actType) (v : V) s : Store :=
  set_rec i k (MkRec t (Some (next_ s)))
    (MkStore (<[next_ s := v]> (heap_ s)) (S (next_ s)) (maps_ s)).

Lemma wf_fresh s i k r l : wf s -> map_at s i !! k = Some r -> ptr_ r = Some l -> l <> next_ s.
Proof.
  intros [Hp Hd Hn Ho] Hr Hl ->. destruct (decide (type_ r = DEL)) as [Ht|Ht].
  - rewrite (Hd _ _ _ Hr Ht) in Hl. done.
  - destruct (Hp _ _ _ Hr Ht) as (l' & v & Hl' & Hv). rewrite Hl in Hl'. injection Hl' as <-.
    apply Hn in Hv. lia.
Qed.

Lemma heap_fresh s l v : wf s -> is_Some (heap_ s !! l) -> <[next_ s := v]> (heap_ s) !! l = heap_ s !! l.
Proof.
  intros Hw [v' Hl]. rewrite lookup_insert_ne; [done|].
  intros <-. apply (wf_next _ Hw) in Hl. lia.
Qed.

Lemma store_new_spec s i k t v :
  wf s -> (i < length (maps_ s))%nat -> t <> DEL ->
  wf (store_new i k t v s) /\ length (maps_ (store_new i k t v s)) = length (maps_ s)
  /\ owned (store_new i k t v s) i k (next_ s)
  /\ heap_ (store_new i k t v s) !! next_ s = Some v
  /\ forall j k', content (store_new i k t v s) j k' =
       if decide (i = j /\ k = k') then Some (Some v) else content s j k'.
Proof.
  intros Hw Hi Ht.
  set (s1 := MkStore (<[next_ s := v]> (heap_ s)) (S (next_ s)) (maps_ s)).
  assert (Hlk : forall j k', map_at (store_new i k t v s) j !! k' =
     if decide (i = j /\ k = k') then Some (MkRec t (Some (next_ s))) else map_at s j !! k').
  { intros j k'. unfold store_new. by rewrite lookup_set_rec. }
  assert (Hh : heap_ (store_new i k t v s) = <[next_ s := v]> (heap_ s)) by done.
  split_and!.
  - split.
    + intros j k' r Hr Hn. rewrite Hlk in Hr. rewrite Hh. case_decide.
      * injection Hr as <-. exists (next_ s), v. by rewrite lookup_insert_eq.
      * destruct (wf_ptr _ Hw _ _ _ Hr Hn) as (l & w & Hl & Hv). exists l, w. split; [done|].
        rewrite heap_fresh; eauto.
    + intros j k' r Hr Hd. rewrite Hlk in Hr. case_decide; [by injection Hr as <-|].
      by apply (wf_del _ Hw _ _ _ Hr).
    + intros l w. rewrite Hh. cbn. intros [[<- _]|[_ Hl]]%lookup_insert_Some; [lia|].
      apply (wf_next _ Hw) in Hl. lia.
    + intros j1 j2 k1 k2 r1 r2 l. rewrite !Hlk. repeat case_decide; try naive_solver.
      * intros [= <-] Hr [= <-] Hp. by destruct (wf_fresh _ _ _ _ _ Hw Hr Hp).
      * intros Hr [= <-] Hp [= <-]. by destruct (wf_fresh _ _ _ _ _ Hw Hr Hp).
      * apply (wf_own _ Hw).
  - cbn. by rewrite length_insert.
  - exists (MkRec t (Some (next_ s))). rewrite Hlk. by case_decide; [|naive_solver].
  - rewrite Hh. by rewrite lookup_insert_eq.
  - intros j k'. unfold content. rewrite Hlk, Hh. case_decide as Hc; cbn.
    + case_decide; [done|]. by rewrite lookup_insert_eq.
    + destruct (map_at s j !! k') as [r|] eqn:Hr; [|done]. cbn. case_decide; [done|].
      destruct (wf_ptr _ Hw _ _ _ Hr) as (l & w & Hl & Hv); [done|]. rewrite Hl. cbn.
      by rewrite heap_fresh; eauto.
Qed.

(** An assignment through the pointer behind a key changes that key only. *)
Lemma assign_spec s i k l v :
  wf s -> owned s i k l -> is_Some (heap_ s !! l) ->
  let s' := MkStore (<[l := v]> (heap_ s)) (next_ s) (maps_ s) in
  wf s' /\ forall j k', content s' j k' = if decide (i = j /\ k = k') then Some (Some v) else content s j k'.
Proof.
  intros Hw (r & Hr & Hl) [w Hv] s'. split.
  - split; cbn.
    + intros j k' r' Hr' Hn. destruct (wf_ptr _ Hw _ _ _ Hr' Hn) as (l' & w' & Hl' & Hv').
      exists l'. destruct (decide (l = l')) as [<-|]; [exists v|exists w']; split; try done.
      * by rewrite lookup_insert_eq.
      * by rewrite lookup_insert_ne.
    + apply (wf_del _ Hw).
    + intros l' w' [[<- _]|[_ Hl']]%lookup_insert_Some; by eapply (wf_next _ Hw).
    + apply (wf_own _ Hw).
  - intros j k'. unfold content. change (map_at s' j) with (map_at s j). cbn [heap_ s'].
    destruct (map_at s j !! k') as [r'|] eqn:Hr'; cbn.
    + destruct (decide (type_ r' = DEL)) as [Ht|Ht].
      * rewrite decide_False; [done|]. intros [<- <-]. rewrite Hr in Hr'. injection Hr' as <-.
        rewrite (wf_del _ Hw _ _ _ Hr Ht) in Hl. done.
      * destruct (wf_ptr _ Hw _ _ _ Hr' Ht) as (l' & w' & Hl' & Hv'). rewrite Hl'. cbn.
        destruct (decide (l = l')) as [<-|Hne].
        { destruct (wf_own _ Hw _ _ _ _ _ _ _ Hr Hr' Hl Hl') as [-> ->].
          rewrite lookup_insert_eq, decide_True by done. done. }
        rewrite lookup_insert_ne by done. rewrite decide_False; [done|].
        intros [<- <-]. rewrite Hr in Hr'. injection Hr' as <-. congruence.
    + rewrite decide_False; [done|]. intros [<- <-]. congruence.
Qed.

(** A deleted record. *)
Lemma delete_spec s i k :
  wf s -> (i < length (maps_ s))%nat ->
  let s' := set_rec i k (MkRec DEL None) s in
  wf s' /\ length (maps_ s') = length (maps_ s)
  /\ forall j k', content s' j k' = if decide (i = j /\ k = k') then Some None else content s j k'.
Proof.
  intros Hw Hi s'.
  assert (Hlk : forall j k', map_at s' j !! k' =
     if decide (i = j /\ k = k') then Some (MkRec DEL None) else map_at s j !! k').
  { intros j k'. by apply lookup_set_rec. }
  split_and!.
  - destruct Hw as [Hp Hd Hn Ho]. split; [| |done|].
    + intros j k' r. rewrite Hlk. case_decide; [by intros [= <-]|eauto].
    + intros j k' r. rewrite Hlk. case_decide; [by intros [= <-]|eauto].
    + intros j1 j2 k1 k2 r1 r2 l. rewrite !Hlk. repeat case_decide; naive_solver.
  - cbn. by rewrite length_insert.
  - intros j k'. unfold content. rewrite Hlk. by case_decide.
Qed.

(** ** Commit and rollback *)

Lemma commit_store_wf s d :
  wf s -> (S d < length (maps_ s))%nat ->
  let s' := set_map (S d) ∅ (set_map d (map_at s (S d) ∪ map_at s d) s) in
  wf s' /\ length (maps_ s') = length (maps_ s)
  /\ forall j k, content s' j k =
       if decide (j = S d) then None
       else if decide (j = d) then match content s (S d) k with Some x => Some x | None => content s d k end
       else content s j k.
Proof.
  intros Hw Hd s'.
  assert (Hm : forall j, map_at s' j = if decide (j = S d) then ∅
                 else if decide (j = d) then map_at s (S d) ∪ map_at s d else map_at s j).
  { intros j. subst s'. rewrite map_at_set by (cbn; rewrite length_insert; lia).
    rewrite map_at_set by lia. repeat case_decide; subst; done || lia. }
  assert (Hlk : forall j k r, map_at s' j !! k = Some r -> j <> S d /\
             exists i, map_at s i !! k = Some r /\ (i = j \/ (j = d /\ i = S d))).
  { intros j k r. rewrite Hm. repeat case_decide; subst; [by rewrite lookup_empty| |].
    - intros Hu%lookup_union_Some_raw. split; [done|]. naive_solver.
    - intros Hr. split; [done|]. exists j. naive_solver. }
  split_and!.
  - split.
    + intros j k r (_ & i & Hr & _)%Hlk Ht. by eapply (wf_ptr _ Hw).
    + intros j k r (_ & i & Hr & _)%Hlk Ht. by eapply (wf_del _ Hw).
    + apply (wf_next _ Hw).
    + intros j1 j2 k1 k2 r1 r2 l (Hn1 & i1 & H1 & Hi1)%Hlk (Hn2 & i2 & H2 & Hi2)%Hlk Hp1 Hp2.
      destruct (wf_own _ Hw _ _ _ _ _ _ _ H1 H2 Hp1 Hp2) as [-> ->]. split; [|done]. lia.
  - cbn. by rewrite !length_insert.
  - intros j k. unfold content. rewrite Hm. change (heap_ s') with (heap_ s).
    repeat case_decide; try done. rewrite lookup_union.
    destruct (map_at s (S d) !! k); cbn; [|by destruct (map_at s d !! k)].
    by destruct (map_at s d !! k).
Qed.

Lemma map_fold_insert_union (m1 m2 : gmap K Rec) :
  map_fold (fun k r m => <[k := r]> m) m2 m1 = m1 ∪ m2.
Proof.
  induction m1 as [|k r m1 Hk Hf IH] using map_first_key_ind.
  - by rewrite map_fold_empty, (left_id_L ∅ (∪)).
  - rewrite map_fold_insert_first_key by done. rewrite IH. by rewrite insert_union_l.
Qed.

(** Both modes of [Commit] do the same. *)
Lemma Commit_run d bak s :
  (Commit d bak : M bool) s
  = Returns (true, set_map (S d) ∅ (set_map d (map_at s (S d) ∪ map_at s d) s), []).
Proof.
  unfold Commit. destruct bak; cbn [negb]; unfold DirectCommit, CopyCommit, mbind, hm_bind, hget, hmod.
  - cbn. by rewrite map_fold_insert_union.
  - done.
Qed.

Lemma clear_spec s d :
  wf s -> (S d < length (maps_ s))%nat ->
  let s' := set_map (S d) ∅ s in
  wf s' /\ length (maps_ s') = length (maps_ s)
  /\ forall j k, content s' j k = if decide (j = S d) then None else content s j k.
Proof.
  intros Hw Hd s'.
  assert (Hm : forall j, map_at s' j = if decide (j = S d) then ∅ else map_at s j).
  { intros j. subst s'. rewrite map_at_set by lia. repeat case_decide; subst; done. }
  assert (Hlk : forall j k r, map_at s' j !! k = Some r -> map_at s j !! k = Some r).
  { intros j k r. rewrite Hm. case_decide; [by rewrite lookup_empty|done]. }
  split_and!.
  - destruct Hw as [Hp Hdl Hn Ho]. split; eauto.
  - cbn. by rewrite length_insert.
  - intros j k. unfold content. rewrite Hm. by case_decide.
Qed.

Lemma empty_wf : wf empty_store.
Proof.
  assert (Hm : forall i, map_at (empty_store : Store) i = ∅) by (intros [|[|i]]; done).
  split; intros; rewrite ?Hm in *; done.
Qed.

Lemma push_content s j k :
  content (MkStore (heap_ s) (next_ s) (maps_ s ++ [∅])) j k = content s j k.
Proof.
  unfold content, map_at. cbn. destruct (lt_eq_lt_dec j (length (maps_ s))) as [[Hj|Hj]|Hj].
  - by rewrite lookup_app_l.
  - subst. rewrite lookup_app_r by lia. rewrite Nat.sub_diag. cbn.
    rewrite lookup_ge_None_2 by lia. done.
  - rewrite !lookup_ge_None_2 by (rewrite ?length_app; cbn; lia). done.
Qed.

Lemma push_map s j : map_at (MkStore (heap_ s) (next_ s) (maps_ s ++ [∅])) j = map_at s j.
Proof.
  unfold map_at. cbn. destruct (lt_eq_lt_dec j (length (maps_ s))) as [[Hj| ->]|Hj].
  - by rewrite lookup_app_l.
  - by rewrite lookup_app_r, Nat.sub_diag, (lookup_ge_None_2 (maps_ s)) by lia.
  - by rewrite !lookup_ge_None_2 by (rewrite ?length_app; cbn; lia).
Qed.

(** A store whose maps are some of the maps of another one. *)
Lemma wf_fewer s s' : heap_ s' = heap_ s -> next_ s' = next_ s ->
  (forall j, map_at s' j = map_at s j \/ map_at s' j = ∅) -> wf s -> wf s'.
Proof.
  intros Hh Hn Hm [Hp Hd Hx Ho].
  assert (Hlk : forall j k r, map_at s' j !! k = Some r -> map_at s j !! k = Some r).
  { intros j k r. destruct (Hm j) as [->| ->]; [done|by rewrite lookup_empty]. }
  split; rewrite ?Hh, ?Hn; eauto.
Qed.

Lemma push_wf s : wf s -> wf (MkStore (heap_ s) (next_ s) (maps_ s ++ [∅])).
Proof. apply wf_fewer; [done|done|]. intros j. left. apply push_map. Qed.

Lemma pop_map s n j : length (maps_ s) = S n ->
  map_at (MkStore (heap_ s) (next_ s) (take (length (maps_ s) - 1) (maps_ s))) j
  = if decide (j < n)%nat then map_at s j else ∅.
Proof.
  intros Hl. unfold map_at. cbn. rewrite Hl. replace (S n - 1)%nat with n by lia. case_decide.
  - by rewrite lookup_take_lt.
  - by rewrite lookup_take_ge by lia.
Qed.

Lemma pop_wf s n : length (maps_ s) = S n -> wf s ->
  wf (MkStore (heap_ s) (next_ s) (take (length (maps_ s) - 1) (maps_ s))).
Proof.
  intros Hl. apply wf_fewer; [done|done|]. intros j. rewrite (pop_map s n j Hl). case_decide; auto.
Qed.

Lemma pop_content s n j k : length (maps_ s) = S n ->
  content (MkStore (heap_ s) (next_ s) (take (length (maps_ s) - 1) (maps_ s))) j k
  = if decide (j < n)%nat then content s j k else None.
Proof. intros Hl. unfold content. rewrite (pop_map s n j Hl). by case_decide. Qed.

(** ** Copying *)

Definition has_null (m : gmap K Rec) : Prop := exists k r, m !! k = Some r /\ ptr_ r = None.

(** Copying the records of a map succeeds unless one has a null pointer; it only
    adds objects to the heap. *)
Lemma copy_records_run (l : list (K * Rec)) s :
  (forall k r p, (k, r) ∈ l -> ptr_ r = Some p -> is_Some (heap_ s !! p)) ->
  (forall p v, heap_ s !! p = Some v -> (p < next_ s)%nat) ->
  match (copy_records l : M (gmap K Rec)) s with
  | Returns (_, s', _) => Forall (fun kr => is_Some (ptr_ kr.2)) l /\ maps_ s' = maps_ s
      /\ (forall p v, heap_ s !! p = Some v -> heap_ s' !! p = Some v)
      /\ (forall p v, heap_ s' !! p = Some v -> (p < next_ s')%nat)
  | Throws e => e = Trap /\ Exists (fun kr => ptr_ kr.2 = None) l
  end.
Proof.
  revert s. induction l as [|[k r] l IH]; intros s Hp Hn; cbn [copy_records].
  - cbn. by split_and!.
  - unfold mbind, hm_bind. unfold deref at 1. destruct (ptr_ r) as [p|] eqn:Er; cbn [mbind option_bind].
    + destruct (Hp k r p) as [v Hv]; [left|done|]. rewrite Hv. cbn [alloc].
      set (s1 := MkStore (<[next_ s := v]> (heap_ s)) (S (next_ s)) (maps_ s)).
      assert (Hold : forall q w, heap_ s !! q = Some w -> heap_ s1 !! q = Some w).
      { intros q w Hq. cbn. rewrite lookup_insert_ne; [done|]. intros <-. apply Hn in Hq. lia. }
      assert (Hlt : forall q w, heap_ s1 !! q = Some w -> (q < next_ s1)%nat).
      { intros q w Hq. cbn in Hq. apply lookup_insert_Some in Hq as [[<- _]|[_ Hq]]; [cbn; lia|].
        apply Hn in Hq. cbn. lia. }
      specialize (IH s1). destruct (copy_records l s1) as [[[m s2] es]|e].
      * destruct IH as (H1 & H2 & H3 & H4).
        { intros k' r' p' Hin Hr'. destruct (Hp k' r' p') as [w Hw]; [by right|done|]. eauto. }
        { exact Hlt. }
        cbn. split_and!; [constructor; [cbn; rewrite Er; done|done]|done|auto|done].
      * destruct IH as [-> IH].
        { intros k' r' p' Hin Hr'. destruct (Hp k' r' p') as [w Hw]; [by right|done|]. eauto. }
        { exact Hlt. }
        split; [done|]. by right.
    + cbn. split; [done|]. by left.
Qed.
(** ** Views *)

Context (GetFromDB : K -> option V).

(** What [Get] finds. *)
Definition view s d k : option V :=
  match content s (S d) k with
  | Some x => x
  | None => match content s d k with Some x => x | None => GetFromDB k end
  end.

(** The view through an AtomMap whose buffer is empty. *)
Definition base_view s d k : option V :=
  match content s d k with Some x => x | None => GetFromDB k end.

(** ** Operations of one AtomMap *)

(** No record of a deletion. *)
Definition alive s : Prop := forall j k, content s j k <> Some None.


(** The contents of every map but [i] are the same. *)
Definition others_same i s s' : Prop :=
  length (maps_ s') = length (maps_ s) /\ forall j k, j <> i -> content s' j k = content s j k.

Lemma Get_run d k s :
  wf s -> (S d < length (maps_ s))%nat ->
  exists p s', (Get GetFromDB d k : M _) s = Returns (p, s', []) /\ wf s' /\ others_same (S d) s s'
    /\ (forall k', view s' d k' = view s d k')
    /\ match p with
       | Some l => owned s' (S d) k l /\ exists v, heap_ s' !! l = Some v /\ view s d k = Some v
       | None => view s d k = None
       end.
Proof.
  intros Hw Hd. unfold Get, GetValue, mbind, hm_bind, hget, view.
  destruct (map_at s (S d) !! k) as [r|] eqn:Hb.
  { destruct (decide (type_ r = DEL)) as [Ht|Ht].
    - exists None, s. split_and!; try done. by rewrite (content_dead _ _ _ _ Hb Ht).
    - destruct (wf_ptr _ Hw _ _ _ Hb Ht) as (l & v & Hl & Hv). rewrite Hl. exists (Some l), s.
      split_and!; try done; [by exists r|]. exists v.
      by rewrite (content_live _ _ _ _ _ _ Hb Ht Hl Hv). }
  rewrite (content_none _ _ _ Hb).
  assert (Hnew : forall t v, t <> DEL -> view s d k = Some v ->
    exists p s', Returns (Some (next_ s), store_new (S d) k t v s, []) = Returns (p, s', [] : list E)
    /\ wf s' /\ others_same (S d) s s' /\ (forall k', view s' d k' = view s d k')
    /\ match p with
       | Some l => owned s' (S d) k l /\ exists v, heap_ s' !! l = Some v /\ view s d k = Some v
       | None => view s d k = None
       end).
  { intros t v Ht Hview. destruct (store_new_spec s (S d) k t v Hw Hd Ht) as (Hw' & Hlen & Ho & Hh & Hc).
    eexists _, _. split; [reflexivity|]. split_and!; try done.
    - split; [done|]. intros j k' Hj. rewrite Hc, decide_False; [done|]. by intros [<- _].
    - intros k'. unfold view. rewrite !Hc. rewrite (decide_False (P := S d = d /\ k = k')) by lia.
      case_decide as Hk; [|done]. destruct Hk as [_ <-]. fold (view s d k). by rewrite Hview.
    - by exists v. }
  unfold view in Hnew. rewrite (content_none _ _ _ Hb) in Hnew.
  destruct (map_at s d !! k) as [r|] eqn:Hdt.
  - destruct (decide (type_ r = DEL)) as [Ht|Ht].
    + exists None, s. split_and!; try done. by rewrite (content_dead _ _ _ _ Hdt Ht).
    + destruct (wf_ptr _ Hw _ _ _ Hdt Ht) as (l & v & Hl & Hv).
      unfold deref. rewrite Hl. cbn [mbind option_bind]. rewrite Hv. cbn.
      apply (Hnew MOD v); [done|]. by rewrite (content_live _ _ _ _ _ _ Hdt Ht Hl Hv).
  - rewrite (content_none _ _ _ Hdt) in Hnew |- *. destruct (GetFromDB k) as [v|].
    + by apply (Hnew ADD v).
    + exists None, s. by split_and!.
Qed.

Lemma Get_alive d k s p s' es : wf s -> (S d < length (maps_ s))%nat -> alive s ->
  (Get GetFromDB d k : M _) s = Returns (p, s', es) -> alive s'.
Proof.
  intros Hw Hd Hal Hrun.
  assert (Hnew : forall t v, t <> DEL -> alive (store_new (S d) k t v s)).
  { intros t v Ht j k'. destruct (store_new_spec s (S d) k t v Hw Hd Ht) as (_ & _ & _ & _ & ->).
    case_decide; [done|apply Hal]. }
  unfold Get, GetValue, mbind, hm_bind, hget in Hrun.
  destruct (map_at s (S d) !! k) as [r|].
  { case_decide; [by cbn in Hrun; simplify_eq|]. by destruct (ptr_ r); cbn in Hrun; simplify_eq. }
  destruct (map_at s d !! k) as [r|].
  - case_decide; [by cbn in Hrun; simplify_eq|]. unfold deref in Hrun. destruct (ptr_ r ≫= _); [|done].
    simplify_eq/=. by apply (Hnew MOD).
  - destruct (GetFromDB k); simplify_eq/=; [by apply (Hnew ADD)|done].
Qed.

(** [Get] leaves the objects that are already in a map where they are. *)
Lemma Get_owned d k s p s' es i k' l : (S d < length (maps_ s))%nat ->
  (Get GetFromDB d k : M _) s = Returns (p, s', es) -> owned s i k' l -> owned s' i k' l.
Proof.
  intros Hd Hrun (r & Hr & Hl).
  assert (Hnew : map_at s (S d) !! k = None -> forall t v, owned (store_new (S d) k t v s) i k' l).
  { intros Hb t v. exists r. split; [|done]. unfold store_new. rewrite lookup_set_rec by done.
    rewrite decide_False; [done|]. intros [<- <-]. unfold map_at in *. cbn in *. congruence. }
  unfold Get, GetValue, mbind, hm_bind, hget in Hrun.
  destruct (map_at s (S d) !! k) as [rb|] eqn:Hb.
  - destruct (decide (type_ rb = DEL)); [|destruct (ptr_ rb)]; try done; cbn in Hrun; simplify_eq; by exists r.
  - specialize (Hnew eq_refl). destruct (map_at s d !! k) as [rd|].
    + destruct (decide (type_ rd = DEL)); [cbn in Hrun; simplify_eq; by exists r|].
      unfold deref in Hrun. destruct (ptr_ rd ≫= _) as [v|]; [|done]. cbn in Hrun. simplify_eq. apply Hnew.
    + destruct (GetFromDB k) as [v|]; cbn in Hrun; simplify_eq; [apply Hnew|by exists r].
Qed.

(** The operations a client performs on an AtomMap: reading, changing the object
    it got, storing a new object, deleting. *)
Inductive op := OpGet (k : K) | OpUpdate (k : K) (f : V -> V) | OpSet (k : K) (v : V) | OpDel (k : K).

Definition run_op d (o : op) : M unit :=
  match o with
  | OpGet k => Get GetFromDB d k ;; mret tt
  | OpUpdate k f =>
      p ← Get GetFromDB d k;
      match p with
      | None => mret tt
      | Some l => v ← deref (Some l); assign l (f v)
      end
  | OpSet k v => p ← alloc v; Set_ d k p ;; mret tt
  | OpDel k => Del d k ;; mret tt
  end.

Fixpoint run_ops d (os : list op) : M unit :=
  match os with [] => mret tt | o :: os' => run_op d o ;; run_ops d os' end.

(** The same operations on a function. *)
Definition abs_op (o : op) (m : K -> option V) : K -> option V :=
  match o with
  | OpGet _ => m
  | OpUpdate k f => fun k' => if decide (k = k') then f <$> m k else m k'
  | OpSet k v => fun k' => if decide (k = k') then Some v else m k'
  | OpDel k => fun k' => if decide (k = k') then None else m k'
  end.

Definition abs_ops (os : list op) (m : K -> option V) : K -> option V :=
  fold_left (fun m o => abs_op o m) os m.

Lemma run_op_spec d o s :
  wf s -> (S d < length (maps_ s))%nat ->
  exists s', run_op d o s = Returns (tt, s', []) /\ wf s' /\ others_same (S d) s s'
    /\ forall k, view s' d k = abs_op o (view s d) k.
Proof.
  intros Hw Hd. destruct o as [k|k f|k v|k]; cbn [run_op abs_op].
  - destruct (Get_run d k s Hw Hd) as (p & s' & Hr & Hw' & Ho & Hv & _).
    exists s'. unfold mbind, hm_bind. rewrite Hr. by split_and!.
  - destruct (Get_run d k s Hw Hd) as (p & s' & Hr & Hw' & Ho & Hv & Hp).
    unfold mbind, hm_bind. rewrite Hr. destruct p as [l|].
    + destruct Hp as (Hown & v & Hl & Hview). unfold deref. cbn [mbind option_bind]. rewrite Hl.
      destruct (assign_spec s' (S d) k l (f v) Hw' Hown) as [Hw2 Hc]; [by eauto|].
      eexists. split; [reflexivity|]. split_and!; [done| |].
      * destruct Ho as [Hlen Ho]. split; [done|]. intros j k' Hj. rewrite Hc, decide_False.
        { by apply Ho. } by intros [<- _].
      * intros k'. unfold view at 1. rewrite !Hc. rewrite (decide_False (P := S d = d /\ k = k')) by lia.
        rewrite Hview. cbn. case_decide as Hk1; case_decide as Hk2; naive_solver.
    + exists s'. split_and!; try done. intros k'. rewrite Hv. case_decide as Hk; [|done].
      subst. by rewrite Hp.
  - destruct (store_new_spec s (S d) k MOD v Hw Hd) as (Hw' & Hlen & Ho & Hh & Hc); [done|].
    exists (store_new (S d) k MOD v s). split_and!; try done.
    + split; [done|]. intros j k' Hj. rewrite Hc, decide_False; [done|]. by intros [<- _].
    + intros k'. unfold view. rewrite !Hc. rewrite (decide_False (P := S d = d /\ k = k')) by lia.
      repeat case_decide; naive_solver.
  - destruct (delete_spec s (S d) k Hw Hd) as (Hw' & Hlen & Hc).
    exists (set_rec (S d) k (MkRec DEL None) s). split_and!; try done.
    + split; [done|]. intros j k' Hj. rewrite Hc, decide_False; [done|]. by intros [<- _].
    + intros k'. unfold view. rewrite !Hc. rewrite (decide_False (P := S d = d /\ k = k')) by lia.
      repeat case_decide; naive_solver.
Qed.

Lemma abs_op_ext o m m' : (forall k, m k = m' k) -> forall k, abs_op o m k = abs_op o m' k.
Proof. intros Hm k. destruct o; cbn; repeat case_decide; rewrite ?Hm; done. Qed.

Lemma abs_ops_ext os m m' : (forall k, m k = m' k) -> forall k, abs_ops os m k = abs_ops os m' k.
Proof.
  revert m m'. induction os as [|o os IH]; intros m m' Hm k; cbn; [done|].
  apply IH. by apply abs_op_ext.
Qed.

Lemma run_ops_spec d os s :
  wf s -> (S d < length (maps_ s))%nat ->
  exists s', run_ops d os s = Returns (tt, s', []) /\ wf s' /\ others_same (S d) s s'
    /\ forall k, view s' d k = abs_ops os (view s d) k.
Proof.
  revert s. induction os as [|o os IH]; intros s Hw Hd; cbn [run_ops].
  - exists s. by split_and!.
  - destruct (run_op_spec d o s Hw Hd) as (s1 & Hr & Hw1 & [Hl1 Ho1] & Hv1).
    destruct (IH s1 Hw1) as (s2 & Hr2 & Hw2 & [Hl2 Ho2] & Hv2); [lia|].
    exists s2. split_and!; [|done| |].
    + change (@nil E) with (@nil E ++ []). by eapply hbind_returns.
    + split; [lia|]. intros j k Hj. rewrite Ho2, Ho1; done.
    + intros k. rewrite Hv2. cbn. by apply abs_ops_ext.
Qed.

End Facts.

(** ** Theorems *)

(** C26: An AtomMap behaves as a transactional map: after any sequence of reads, updates of
    the objects read, insertions and deletions, and a commit (in either mode), its
    view is the initial view changed by those operations one after the other, its
    buffer is empty, and no map of the stack other than its own two has changed. *)
Theorem atom_map_commit {K V E : Type} `{Countable K} (db : K -> option V)
  (s : Store K V) (d : nat) (os : list op) (bak : bool) :
  wf s -> (S d < length (maps_ s))%nat ->
  exists s', (run_ops (E := E) db d os ;; Commit d bak) s = Returns (true, s', [])
    /\ wf s' /\ map_at s' (S d) = ∅
    /\ (forall k, view db s' d k = abs_ops os (view db s d) k)
    /\ (forall j k, j <> d -> j <> S d -> content s' j k = content s j k).
Proof.
  intros Hw Hd. destruct (run_ops_spec (E := E) db d os s Hw Hd) as (s1 & Hr & Hw1 & [Hl Ho] & Hv).
  assert (Hd1 : (S d < length (maps_ s1))%nat) by lia.
  destruct (commit_store_wf s1 d Hw1 Hd1) as (Hw2 & Hl2 & Hc). eexists. split_and!.
  - change (@nil E) with (@nil E ++ []). eapply hbind_returns; [exact Hr|apply Commit_run].
  - exact Hw2.
  - rewrite map_at_set by (cbn; rewrite length_insert; lia). by case_decide.
  - intros k. rewrite <- Hv. unfold view. rewrite !Hc.
    rewrite (decide_True (P := S d = S d)) by done. rewrite (decide_False (P := d = S d)) by lia.
    rewrite decide_True by done. by destruct (content s1 (S d) k).
  - intros j k Hj1 Hj2. rewrite Hc, !decide_False by done. by apply Ho.
Qed.

Lemma atom_map_commit_witness :
  let os := [OpSet 1 10; OpUpdate 1 (Z.add 5); OpUpdate 2 (Z.mul 3); OpDel 3] in
  let db (k : Z) := if decide (k <= 3) then Some (100 * k) else None in
  exists s', (run_ops (E := Empty_set) db 0 os ;; Commit 0 true) empty_store = Returns (true, s', [])
    /\ view db s' 0 1 = Some 15 /\ view db s' 0 2 = Some 600 /\ view db s' 0 3 = None.
Proof.
  intros os db.
  destruct (atom_map_commit (E := Empty_set) db empty_store 0 os true) as (s' & Hr & _ & _ & Hv & _).
  - apply empty_wf.
  - cbn. lia.
  - exists s'. rewrite !Hv. split; [exact Hr|]. split_and!; reflexivity.
Defined.

(** Discarding the change buffer rolls back: after any sequence of operations and
    [ClearChangeBuf], every map other than the buffer has its old contents (nothing
    leaked through a shared pointer) and the view is that of the committed data. *)
Theorem atom_map_rollback {K V E : Type} `{Countable K} (db : K -> option V)
  (s : Store K V) (d : nat) (os : list op) :
  wf s -> (S d < length (maps_ s))%nat ->
  exists s', (run_ops (E := E) db d os ;; ClearChangeBuf d) s = Returns (tt, s', [])
    /\ wf s' /\ (forall j k, j <> S d -> content s' j k = content s j k)
    /\ (forall k, view db s' d k = base_view db s d k).
Proof.
  intros Hw Hd. destruct (run_ops_spec (E := E) db d os s Hw Hd) as (s1 & Hr & Hw1 & [Hl Ho] & Hv).
  assert (Hd1 : (S d < length (maps_ s1))%nat) by lia.
  destruct (clear_spec s1 d Hw1 Hd1) as (Hw2 & Hl2 & Hc). eexists. split_and!.
  - change (@nil E) with (@nil E ++ []). eapply hbind_returns; [exact Hr|reflexivity].
  - exact Hw2.
  - intros j k Hj. rewrite Hc, decide_False by done. by apply Ho.
  - intros k. unfold view, base_view. rewrite !Hc.
    rewrite decide_True by done. rewrite decide_False by lia. by rewrite Ho by lia.
Qed.

Lemma atom_map_rollback_witness :
  let db (k : Z) := if decide (k <= 3) then Some (100 * k) else None in
  exists s', (run_ops (E := Empty_set) db 0 [OpUpdate 2 (Z.mul 3); OpDel 3] ;; ClearChangeBuf 0) empty_store
               = Returns (tt, s', [])
    /\ view db s' 0 2 = Some 200 /\ view db s' 0 3 = Some 300.
Proof.
  intros db.
  destruct (atom_map_rollback (E := Empty_set) db empty_store 0 [OpUpdate 2 (Z.mul 3); OpDel 3])
    as (s' & Hr & _ & _ & Hv).
  - apply empty_wf.
  - cbn. lia.
  - exists s'. rewrite !Hv. split; [exact Hr|]. split; reflexivity.
Defined.

(** The view through a new nested AtomMap is the change buffer of its parent over the
    database: it skips the parent's committed data. It shows the parent's value for
    a key exactly when the parent has the key in its buffer, or has committed no
    value for it other than the one in the database. *)
Theorem nested_view {K V E : Type} `{Countable K} (db : K -> option V)
  (s : Store K V) (d : nat) (k : K) :
  length (maps_ s) = S (S d) ->
  exists s', (push_frame (E := E)) s = Returns (tt, s', [])
    /\ view db s' (S d) k = match content s (S d) k with Some x => x | None => db k end
    /\ (view db s' (S d) k = view db s d k <->
         is_Some (content s (S d) k) \/ default (db k) (content s d k) = db k).
Proof.
  intros Hl. eexists. split; [reflexivity|].
  assert (Hv : view db (MkStore (heap_ s) (next_ s) (maps_ s ++ [∅])) (S d) k
               = match content s (S d) k with Some x => x | None => db k end).
  { unfold view. rewrite !push_content. rewrite content_none; [done|].
    unfold map_at. by rewrite lookup_ge_None_2 by lia. }
  split; [exact Hv|]. rewrite Hv. unfold view.
  destruct (content s (S d) k) as [x|]; [naive_solver|].
  destruct (content s d k) as [x|]; cbn; [|naive_solver]. split; [by right|].
  intros [[? ?]|<-]; done.
Qed.

Lemma nested_view_witness :
  let db (_ : Z) := Some 100 in
  let s := MkStore {[ 0%nat := 150 ]} 1%nat [{[ 7 := MkRec MOD (Some 0%nat) ]}; ∅] in
  exists s', (push_frame (E := Empty_set)) s = Returns (tt, s', [])
    /\ view db s' 1 7 = Some 100 /\ view db s 0 7 = Some 150.
Proof.
  intros db s. destruct (nested_view (E := Empty_set) db s 0 7) as (s' & Hr & Hv & _); [reflexivity|].
  exists s'. rewrite Hv. split; [exact Hr|]. split; reflexivity.
Defined.

(** Copying an AtomMap dereferences the null pointer of every deleted record: the copy
    constructor fails exactly when the buffer or the data map holds a deletion. *)
Theorem copy_fails_on_deleted {K V E : Type} `{Countable K} (s : Store K V) (d : nat) :
  wf s ->
  (Copy (E := E) d) s = Throws Trap <->
  exists i k, (i = d \/ i = S d) /\ content s i k = Some None.
Proof.
  intros Hw.
  assert (Hval : forall i k r p, (k, r) ∈ map_to_list (map_at s i) -> ptr_ r = Some p -> is_Some (heap_ s !! p)).
  { intros i k r p Hin%elem_of_map_to_list Hp. destruct (decide (type_ r = DEL)) as [Ht|Ht].
    - by rewrite (wf_del _ Hw _ _ _ Hin Ht) in Hp.
    - destruct (wf_ptr _ Hw _ _ _ Hin Ht) as (l & v & Hl & Hv). simplify_eq. eauto. }
  assert (Hnull : forall i, Exists (fun kr => ptr_ kr.2 = None) (map_to_list (map_at s i))
                    <-> exists k, content s i k = Some None).
  { intros i. rewrite Exists_exists. split.
    - intros ([k r] & Hin & Hp). apply elem_of_map_to_list in Hin. exists k. unfold content.
      rewrite Hin. cbn in *. by rewrite Hp; case_decide.
    - intros [k Hc]. unfold content in Hc. destruct (map_at s i !! k) as [r|] eqn:Hr; [|done].
      exists (k, r). split; [by apply elem_of_map_to_list|]. cbn in *. injection Hc as Hc.
      destruct (ptr_ r) as [p|] eqn:Hp; [|done]. exfalso. destruct (decide (type_ r = DEL)) as [Ht|Ht].
      + by rewrite (wf_del _ Hw _ _ _ Hr Ht) in Hp.
      + destruct (wf_ptr _ Hw _ _ _ Hr Ht) as (l & v & Hl & Hv). simplify_eq. cbn in Hc. by rewrite Hv in Hc. }
  unfold Copy, mbind, hm_bind, hget. cbn [app].
  pose proof (copy_records_run (E := E) (map_to_list (map_at s (S d))) s (Hval (S d)) (wf_next _ Hw)) as H1.
  destruct (copy_records _ s) as [[[m1 s1] es1]|e1].
  - destruct H1 as (F1 & Hm & Hold & Hlt).
    pose proof (copy_records_run (E := E) (map_to_list (map_at s d)) s1) as H2.
    assert (Hn1 : ~ Exists (fun kr => ptr_ kr.2 = None) (map_to_list (map_at s (S d)))).
    { intros (kr & Hin & Hp)%Exists_exists. rewrite Forall_forall in F1. apply F1 in Hin.
      rewrite Hp in Hin. by destruct Hin. }
    rewrite Hnull in Hn1. destruct (copy_records _ s1) as [[[m2 s2] es2]|e2].
    + destruct H2 as (F2 & _); [|done|].
      { intros k r p Hin Hp. destruct (Hval _ _ _ _ Hin Hp) as [v Hv]. eauto. }
      split; [done|]. intros (i & k & [->| ->] & Hc); [|naive_solver].
      assert (Hex : Exists (fun kr => ptr_ kr.2 = None) (map_to_list (map_at s d))) by (apply Hnull; eauto).
      apply Exists_exists in Hex as (kr & Hin & Hp). rewrite Forall_forall in F2. apply F2 in Hin.
      rewrite Hp in Hin. by destruct Hin.
    + destruct H2 as [-> H2]; [|done|].
      { intros k r p Hin Hp. destruct (Hval _ _ _ _ Hin Hp) as [v Hv]. eauto. }
      split; [|done]. intros _. apply Hnull in H2 as [k Hk]. exists d, k. auto.
  - destruct H1 as [-> H1]. split; [|done]. intros _. apply Hnull in H1 as [k Hk]. exists (S d), k. auto.
Qed.

Lemma copy_fails_on_deleted_witness :
  let s := MkStore (V := Z) ∅ 0%nat [∅; {[ 7 := MkRec DEL None ]}] in
  (Copy (E := Empty_set) 0) s = Throws Trap.
Proof.
  intros s. apply (copy_fails_on_deleted (E := Empty_set) s 0).
  - assert (Hm : forall i k r, map_at s i !! k = Some r -> r = MkRec DEL None).
    { intros [|[|i]] k r Hr; cbn in Hr; rewrite ?lookup_nil in Hr; cbn in Hr;
        rewrite ?lookup_empty in Hr; try done.
      by apply lookup_singleton_Some in Hr as [_ <-]. }
    split; intros.
    + by rewrite (Hm _ _ _ H) in H0.
    + by rewrite (Hm _ _ _ H).
    + cbn in H. by rewrite lookup_empty in H.
    + by rewrite (Hm _ _ _ H) in H1.
  - exists 1%nat, 7. split; [auto|reflexivity].
Defined.
