(* ===== verification/Account.v ===== *)
(** * Accounts

    The account messages of src/proto/chain.proto and [AccountFrm]
    (src/ledger/account.h, src/ledger/account.cpp): balance, signers, thresholds,
    and the caches of assets and metadata over the account's tries. *)
From S2P Require Import Prelude Uint128 AtomMap.
Import U128.

Record KeyPair := MkKeyPair { kp_key : string; kp_value : string; kp_version : Z }.
Record AssetKey := MkAssetKey { ak_issuer : string; ak_code : string; ak_type : Z }.

#[export] Instance AssetKey_eq_dec : EqDecision AssetKey.
Proof. solve_decision. Defined.
#[export] Program Instance AssetKey_countable : Countable AssetKey :=
  inj_countable' (fun k => (ak_issuer k, ak_code k, ak_type k))
    (fun t => MkAssetKey t.1.1 t.1.2 t.2) _.
Next Obligation. by intros []. Qed.

(** [AssetStore]; its property sub-message is never read. *)
Record AssetStore := MkAssetStore { as_key : AssetKey; as_amount : Z }.

Record Signer := MkSigner { sg_address : string; sg_weight : Z }.
Record OperationTypeThreshold := MkTypeThreshold { tt_type : Z; tt_threshold : Z }.
Record AccountThreshold := MkThreshold { th_tx_threshold : Z; th_type_thresholds : list OperationTypeThreshold }.
Record AccountPrivilege := MkPriv {
  pv_master_weight : Z; pv_signers : list Signer; pv_thresholds_opt : option AccountThreshold }.
Definition pv_thresholds (p : AccountPrivilege) : AccountThreshold :=
  default (MkThreshold 0 []) (pv_thresholds_opt p).

(** [Contract] and [Account] *)
Record Contract := MkContract { ct_type : Z; ct_payload : string }.
Record Account := MkAccount {
  ac_address : string; ac_nonce : Z; ac_priv : AccountPrivilege;
  ac_metadatas_hash : string; ac_assets_hash : string; ac_contract : option Contract;
  ac_balance : Z }.
(** [account.contract().payload()] *)
Definition ac_contract_payload (a : Account) : string :=
  match ac_contract a with Some c => ct_payload c | None => EmptyString end.

Definition Priv0 : AccountPrivilege := MkPriv 0 [] None.

(** [Signer::Limit::SIGNER] *)
Definition SIGNER_LIMIT : Z := 100.

(** [DataCache] and [AccountFrm] *)
Record DataCache (T : Type) := MkCache { action_ : actType; data_ : T }.
Arguments MkCache {T} _ _.
Arguments action_ {T} _.
Arguments data_ {T} _.

Record AccountFrm := MkFrm {
  account_info_ : Account;
  assets_ : gmap AssetKey (DataCache AssetStore);
  metadata_ : gmap string (DataCache KeyPair) }.

(** Field updates. *)
Definition map_info (f : Account -> Account) (a : AccountFrm) : AccountFrm :=
  MkFrm (f (account_info_ a)) (assets_ a) (metadata_ a).
Definition set_balance (b : Z) (a : Account) : Account :=
  MkAccount (ac_address a) (ac_nonce a) (ac_priv a) (ac_metadatas_hash a) (ac_assets_hash a)
    (ac_contract a) b.
Definition set_nonce (n : Z) (a : Account) : Account :=
  MkAccount (ac_address a) n (ac_priv a) (ac_metadatas_hash a) (ac_assets_hash a)
    (ac_contract a) (ac_balance a).
Definition set_priv (p : AccountPrivilege) (a : Account) : Account :=
  MkAccount (ac_address a) (ac_nonce a) p (ac_metadatas_hash a) (ac_assets_hash a)
    (ac_contract a) (ac_balance a).
Definition set_hashes (mh ah : string) (a : Account) : Account :=
  MkAccount (ac_address a) (ac_nonce a) (ac_priv a) mh ah (ac_contract a) (ac_balance a).

Definition GetAccountBalance (a : AccountFrm) : Z := ac_balance (account_info_ a).
Definition GetAccountAddress (a : AccountFrm) : string := ac_address (account_info_ a).
Definition GetAccountNonce (a : AccountFrm) : Z := ac_nonce (account_info_ a).
Definition GetProtoMasterWeight (a : AccountFrm) : Z := pv_master_weight (ac_priv (account_info_ a)).
Definition GetProtoTxThreshold (a : AccountFrm) : Z :=
  th_tx_threshold (pv_thresholds (ac_priv (account_info_ a))).

Definition new_frm (account : Account) : AccountFrm := MkFrm account ∅ ∅.

Definition SetProtoMasterWeight (weight : Z) : AccountFrm -> AccountFrm :=
  map_info (fun i => let p := ac_priv i in
    set_priv (MkPriv weight (pv_signers p) (pv_thresholds_opt p)) i).
Definition SetProtoTxThreshold (threshold : Z) : AccountFrm -> AccountFrm :=
  map_info (fun i => let p := ac_priv i in
    set_priv (MkPriv (pv_master_weight p) (pv_signers p)
      (Some (MkThreshold threshold (th_type_thresholds (pv_thresholds p))))) i).

(** [AccountFrm::AddBalance] *)
Definition AddBalance (amount : Z) (a : AccountFrm) : bool * AccountFrm :=
  let '(ok, balance) := SafeIntAdd (GetAccountBalance a) amount 0 in
  if negb ok then (false, a) else (true, map_info (set_balance balance) a).

(** [AccountFrm::UpdateSigner] *)
Definition set_signers (l : list Signer) : AccountFrm -> AccountFrm :=
  map_info (fun i => let p := ac_priv i in
    set_priv (MkPriv (pv_master_weight p) l (pv_thresholds_opt p)) i).

Definition UpdateSigner (signer : string) (weight : Z) (a : AccountFrm) : bool * AccountFrm :=
  let l := pv_signers (ac_priv (account_info_ a)) in
  let found := existsb (fun s => bool_decide (sg_address s = signer)) l in
  if 0 <? weight then
    let l' := map (fun s => if bool_decide (sg_address s = signer)
                            then MkSigner (sg_address s) weight else s) l in
    if found then (true, set_signers l' a)
    else if SIGNER_LIMIT <=? Z.of_nat (length l) then (false, a)
    else (true, set_signers (l' ++ [MkSigner signer weight]) a)
  else
    if found then (true, set_signers (filter (fun s => sg_address s <> signer) l) a) else (true, a).

(** [AccountFrm::GetTypeThreshold]: the first entry of the type. *)
Definition find_threshold (type : Z) (l : list OperationTypeThreshold) : Z :=
  match List.find (fun t => tt_type t =? type) l with Some t => tt_threshold t | None => 0 end.
Definition GetTypeThreshold (type : Z) (a : AccountFrm) : Z :=
  find_threshold type (th_type_thresholds (pv_thresholds (ac_priv (account_info_ a)))).

(** [AccountFrm::UpdateTypeThreshold]; masking a signed value with UINT64_MAX
    leaves it as it is. [mutable_thresholds] creates the sub-message. *)
Definition set_type_thresholds (l : list OperationTypeThreshold) : AccountFrm -> AccountFrm :=
  map_info (fun i => let p := ac_priv i in
    set_priv (MkPriv (pv_master_weight p) (pv_signers p)
      (Some (MkThreshold (th_tx_threshold (pv_thresholds p)) l))) i).

Definition UpdateTypeThreshold (type threshold : Z) (a : AccountFrm) : bool * AccountFrm :=
  let l := th_type_thresholds (pv_thresholds (ac_priv (account_info_ a))) in
  let found := existsb (fun t => bool_decide (tt_type t = type)) l in
  let threshold := s64 (Z.land (u64 threshold) uint64_max) in
  if 0 <? threshold then
    let l' := map (fun t => if bool_decide (tt_type t = type) then MkTypeThreshold (tt_type t) threshold else t) l in
    if found then (true, set_type_thresholds l' a)
    else if SIGNER_LIMIT <=? Z.of_nat (length l) then (false, set_type_thresholds l a)
    else (true, set_type_thresholds (l' ++ [MkTypeThreshold type threshold]) a)
  else
    if found then (true, set_type_thresholds (filter (fun t => tt_type t <> type) l) a)
    else (true, set_type_thresholds l a).

Section Caches.
(** The account's tries in the database, by account address. *)
Context (asset_db : string -> AssetKey -> option AssetStore)
        (metadata_db : string -> string -> option KeyPair).

(** [AccountFrm::GetAsset]: the cache, then the trie. *)
Definition GetAsset (asset_key : AssetKey) (a : AccountFrm) : option AssetStore * AccountFrm :=
  match assets_ a !! asset_key with
  | Some r => if decide (action_ r = DEL) then (None, a) else (Some (data_ r), a)
  | None =>
      match asset_db (GetAccountAddress a) asset_key with
      | None => (None, a)
      | Some asset =>
          (Some asset, MkFrm (account_info_ a) (<[asset_key := MkCache MOD asset]> (assets_ a)) (metadata_ a))
      end
  end.

Definition SetAsset (asset : AssetStore) (a : AccountFrm) : AccountFrm :=
  MkFrm (account_info_ a) (<[as_key asset := MkCache ADD asset]> (assets_ a)) (metadata_ a).

Definition GetMetaData (binkey : string) (a : AccountFrm) : option KeyPair * AccountFrm :=
  match metadata_ a !! binkey with
  | Some r => if decide (action_ r = DEL) then (None, a) else (Some (data_ r), a)
  | None =>
      match metadata_db (GetAccountAddress a) binkey with
      | None => (None, a)
      | Some kp =>
          (Some kp, MkFrm (account_info_ a) (assets_ a) (<[binkey := MkCache MOD kp]> (metadata_ a)))
      end
  end.

Definition SetMetaData (kp : KeyPair) (a : AccountFrm) : AccountFrm :=
  MkFrm (account_info_ a) (assets_ a) (<[kp_key kp := MkCache ADD kp]> (metadata_ a)).

Definition DeleteMetaData (kp : KeyPair) (a : AccountFrm) : AccountFrm :=
  MkFrm (account_info_ a) (assets_ a) (<[kp_key kp := MkCache DEL kp]> (metadata_ a)).

(** [AccountFrm::UpdateHash]: the cached records are written to the tries, of
    which only the contents are modelled; a zero amount removes the asset. *)
Definition write_asset (k : AssetKey) (r : DataCache AssetStore) (t : gmap AssetKey AssetStore) :=
  match action_ r with
  | ADD | MOD => if as_amount (data_ r) =? 0 then delete (as_key (data_ r)) t
                 else <[as_key (data_ r) := data_ r]> t
  | DEL => delete (as_key (data_ r)) t
  | _ => t
  end.
Definition write_metadata (k : string) (r : DataCache KeyPair) (t : gmap string KeyPair) :=
  match action_ r with
  | ADD | MOD => <[k := data_ r]> t
  | DEL => delete k t
  | _ => t
  end.

Definition UpdateHash (asset_root : gmap AssetKey AssetStore -> string)
  (metadata_root : gmap string KeyPair -> string)
  (tries : gmap AssetKey AssetStore * gmap string KeyPair) (a : AccountFrm)
  : (gmap AssetKey AssetStore * gmap string KeyPair) * AccountFrm :=
  let ta := map_fold write_asset tries.1 (assets_ a) in
  let tm := map_fold write_metadata tries.2 (metadata_ a) in
  ((ta, tm), map_info (set_hashes (metadata_root tm) (asset_root ta)) a).
End Caches.

(** [AccountFrm::NonceIncrease] *)
Definition NonceIncrease_ (a : AccountFrm) : AccountFrm :=
  map_info (set_nonce (s64 (GetAccountNonce a + 1))) a.

(** [AccountFrm::CreatAccountFrm] *)
Definition CreatAccountFrm (account_address : string) (balance : Z) : AccountFrm :=
  SetProtoTxThreshold 1 (SetProtoMasterWeight 1
    (new_frm (MkAccount account_address 0 Priv0 "" "" None balance))).
