(* ===== verification/AccountFacts.v ===== *)
(** * Accounts: privileges and caches *)
From S2P Require Import Prelude Uint128 AtomMap Account.
Import U128.

Open Scope string_scope.
Open Scope Z_scope.

(** ** Signers and thresholds as maps

    Both are lists of pairs of a key and a positive value that are updated in the
    same way: a positive value replaces or adds, any other removes. *)

Section Weights.
Context {A K : Type} `{EqDecision K} (key : A -> K) (val : A -> Z) (mk : K -> Z -> A).
Context (key_mk : forall k w, key (mk k w) = k) (val_mk : forall k w, val (mk k w) = w).

(** The value of a key, 0 when it has none. *)
Definition weight_of (l : list A) (k : K) : Z :=
  match List.find (fun x => bool_decide (key x = k)) l with Some x => val x | None => 0 end.

(** No key twice, only positive values, at most [n] entries. *)
Definition weights_ok (n : Z) (l : list A) : Prop :=
  NoDup (map key l) /\ Forall (fun x => 0 < val x) l /\ Z.of_nat (length l) <= n.

Definition set_weight (k : K) (w : Z) (l : list A) : list A :=
  map (fun x => if bool_decide (key x = k) then mk (key x) w else x) l.
Definition remove_weight (k : K) (l : list A) : list A := filter (fun x => key x <> k) l.

Lemma weight_of_cons x l k : weight_of (x :: l) k = if bool_decide (key x = k) then val x else weight_of l k.
Proof. unfold weight_of. cbn. by case_bool_decide. Qed.

Lemma weight_of_app l l' k : existsb (fun x => bool_decide (key x = k)) l = false ->
  weight_of (l ++ l') k = weight_of l' k.
Proof.
  induction l as [|x l IH]; [done|]. cbn [existsb app]. rewrite weight_of_cons.
  case_bool_decide; [done|]. cbn. apply IH.
Qed.

Lemma weight_of_app_ne l k k' w : k' <> k -> weight_of (l ++ [mk k w]) k' = weight_of l k'.
Proof.
  intros Hk. induction l as [|x l IH]; cbn [app]; rewrite !weight_of_cons.
  - rewrite key_mk, bool_decide_false by congruence. done.
  - by case_bool_decide.
Qed.

Lemma existsb_key l k : existsb (fun x => bool_decide (key x = k)) l = true <-> k ∈ map key l.
Proof.
  rewrite existsb_exists, list_elem_of_In, in_map_iff. split.
  - intros (x & Hin & Hx%bool_decide_eq_true). eauto.
  - intros (x & <- & Hin). exists x. split; [done|by apply bool_decide_eq_true].
Qed.

Lemma set_weight_spec k w l k' : existsb (fun x => bool_decide (key x = k)) l = true ->
  weight_of (set_weight k w l) k' = if decide (k' = k) then w else weight_of l k'.
Proof.
  induction l as [|x l IH]; [done|]. cbn [existsb set_weight map]. rewrite !weight_of_cons.
  destruct (bool_decide_reflect (key x = k)) as [Hx|Hx]; cbn [orb].
  - intros _. rewrite key_mk. case_decide as Hk.
    + rewrite bool_decide_true by congruence. apply val_mk.
    + rewrite !bool_decide_false by congruence. clear IH Hx.
      induction l as [|y l IH]; [done|]. cbn [set_weight map]. rewrite !weight_of_cons, IH.
      destruct (bool_decide_reflect (key y = k)) as [Hy|Hy]; [|done]. rewrite key_mk.
      by rewrite !bool_decide_false by congruence.
  - intros Hl. fold (set_weight k w l). rewrite IH by done.
    case_decide; [by rewrite bool_decide_false by congruence|done].
Qed.

Lemma set_weight_keys k w l : map key (set_weight k w l) = map key l.
Proof.
  induction l as [|x l IH]; [done|]. cbn. f_equal; [|apply IH]. case_bool_decide; [apply key_mk|done].
Qed.

Lemma set_weight_ok n k w l : 0 < w -> weights_ok n l -> weights_ok n (set_weight k w l).
Proof.
  intros Hw (H1 & H2 & H3). split_and!; [by rewrite set_weight_keys| |unfold set_weight; by rewrite length_map].
  unfold set_weight. apply Forall_fmap. eapply Forall_impl; [exact H2|]. intros x Hx. cbn.
  case_bool_decide; [by rewrite val_mk|done].
Qed.

Lemma add_weight_ok n k w l : 0 < w -> weights_ok n l -> existsb (fun x => bool_decide (key x = k)) l = false ->
  Z.of_nat (length l) < n -> weights_ok n (l ++ [mk k w]).
Proof.
  intros Hw (H1 & H2 & H3) Hk Hn. split_and!.
  - rewrite map_app. cbn. rewrite key_mk. apply NoDup_app. split_and!; [done| |apply NoDup_singleton].
    intros k' Hk' ->%list_elem_of_singleton. apply existsb_key in Hk'. congruence.
  - apply Forall_app. split; [done|]. constructor; [by rewrite val_mk|done].
  - rewrite length_app. cbn. lia.
Qed.

Lemma remove_weight_spec k l k' :
  weight_of (remove_weight k l) k' = if decide (k' = k) then 0 else weight_of l k'.
Proof.
  unfold remove_weight. induction l as [|x l IH]; [by case_decide|]. rewrite filter_cons, weight_of_cons.
  destruct (decide (key x <> k)) as [Hx|Hx]; rewrite ?weight_of_cons, IH; clear IH.
  - case_decide; [by rewrite bool_decide_false by congruence|done].
  - apply dec_stable in Hx. case_decide; [done|by rewrite bool_decide_false by congruence].
Qed.

Lemma remove_weight_ok n k l : weights_ok n l -> weights_ok n (remove_weight k l).
Proof.
  intros (H1 & H2 & H3). unfold remove_weight. split_and!.
  - clear H2 H3. induction l as [|x l IH]; [done|]. inversion_clear H1 as [|? ? Hx Hl].
    rewrite filter_cons. case_decide; [|by apply IH]. cbn. constructor; [|by apply IH].
    intros Hin. apply Hx. apply list_elem_of_In, in_map_iff in Hin as (y & <- & Hy).
    apply list_elem_of_In, in_map_iff. exists y. split; [done|]. apply list_elem_of_In in Hy.
    apply list_elem_of_filter in Hy as [_ Hy]. by apply list_elem_of_In.
  - apply Forall_forall. intros x [_ Hx]%list_elem_of_filter. rewrite Forall_forall in H2. by apply H2.
  - pose proof (length_filter (fun x => key x <> k) l). lia.
Qed.

Lemma remove_absent k l : existsb (fun x => bool_decide (key x = k)) l = false -> remove_weight k l = l.
Proof.
  unfold remove_weight. induction l as [|x l IH]; [done|]. cbn [existsb]. case_bool_decide; [done|]. intros Hl.
  rewrite filter_cons_True by done. by rewrite IH.
Qed.

Lemma weight_of_found n l k : weights_ok n l ->
  (existsb (fun x => bool_decide (key x = k)) l = true -> 0 < weight_of l k)
  /\ (existsb (fun x => bool_decide (key x = k)) l = false -> weight_of l k = 0).
Proof.
  intros (_ & H2 & _). induction l as [|x l IH]; [done|]. inversion_clear H2 as [|? ? Hx Hl].
  cbn [existsb]. rewrite weight_of_cons. case_bool_decide; [done|]. by apply IH.
Qed.

Lemma set_weight_absent k w l : existsb (fun x => bool_decide (key x = k)) l = false -> set_weight k w l = l.
Proof.
  unfold set_weight. induction l as [|x l IH]; [done|]. cbn. case_bool_decide; [done|]. intros Hl. by rewrite IH.
Qed.

(** The update both functions perform. *)
Definition update_weights (n : Z) (k : K) (w : Z) (l : list A) : bool * list A :=
  let found := existsb (fun x => bool_decide (key x = k)) l in
  if 0 <? w then
    if found then (true, set_weight k w l)
    else if n <=? Z.of_nat (length l) then (false, l)
    else (true, (set_weight k w l ++ [mk k w])%list)
  else if found then (true, remove_weight k l) else (true, l).

Lemma update_weights_spec n k w l : weights_ok n l ->
  let '(ok, l') := update_weights n k w l in
  weights_ok n l'
  /\ (ok = false <-> 0 < w /\ weight_of l k = 0 /\ Z.of_nat (length l) = n)
  /\ forall k', weight_of l' k' = if decide (ok = true /\ k' = k) then Z.max 0 w else weight_of l k'.
Proof.
  intros Hok. destruct (weight_of_found n l k Hok) as [Hf Hnf]. unfold update_weights. cbv zeta.
  assert (Hlen : Z.of_nat (length l) <= n) by apply Hok.
  destruct (Z.ltb_spec 0 w) as [Hw|Hw]; destruct (existsb _ l) eqn:E.
  - specialize (Hf eq_refl). split_and!; [by apply set_weight_ok|split; [done|lia]|]. intros k'.
    rewrite set_weight_spec by done. case_decide; case_decide; naive_solver lia.
  - specialize (Hnf eq_refl). rewrite set_weight_absent by done.
    destruct (Z.leb_spec n (Z.of_nat (length l))).
    + split_and!; [done|split; [lia|done]|]. intros k'. rewrite decide_False; [done|]. by intros [].
    + split_and!; [by apply add_weight_ok|split; [done|lia]|]. intros k'. case_decide as Hk.
      * destruct Hk as [_ ->]. rewrite weight_of_app, weight_of_cons, key_mk by done.
        rewrite bool_decide_true, val_mk by done. lia.
      * apply weight_of_app_ne. naive_solver.
  - split_and!; [by apply remove_weight_ok|split; [done|lia]|]. intros k'. rewrite remove_weight_spec.
    case_decide; case_decide; naive_solver lia.
  - specialize (Hnf eq_refl). split_and!; [done|split; [done|lia]|]. intros k'. case_decide as Hk; [|done].
    destruct Hk as [_ ->]. lia.
Qed.
End Weights.

(** ** Signers and thresholds *)

Definition signers_of (a : AccountFrm) : list Signer := pv_signers (ac_priv (account_info_ a)).
Definition type_thresholds_of (a : AccountFrm) : list OperationTypeThreshold :=
  th_type_thresholds (pv_thresholds (ac_priv (account_info_ a))).

Definition signer_weight_of := weight_of (K := string) sg_address sg_weight.
Definition signers_ok (a : AccountFrm) : Prop := weights_ok (K := string) sg_address sg_weight SIGNER_LIMIT (signers_of a).
Definition type_threshold_of := weight_of (K := Z) tt_type tt_threshold.
Definition type_thresholds_ok (a : AccountFrm) : Prop :=
  weights_ok (K := Z) tt_type tt_threshold SIGNER_LIMIT (type_thresholds_of a).

Lemma mask_s64 w : is_s64 w -> s64 (Z.land (u64 w) uint64_max) = w.
Proof.
  intros Hw. change uint64_max with (Z.ones 64). rewrite Z.land_ones by lia. change (2 ^ 64) with W64.
  unfold s64, u64, is_s64, int64_min, int64_max in *. mod_lia.
Qed.

Lemma UpdateSigner_list signer w a :
  (UpdateSigner signer w a).1 = (update_weights sg_address MkSigner SIGNER_LIMIT signer w (signers_of a)).1
  /\ signers_of (UpdateSigner signer w a).2
     = (update_weights sg_address MkSigner SIGNER_LIMIT signer w (signers_of a)).2.
Proof.
  unfold UpdateSigner, update_weights. cbv zeta. fold (signers_of a).
  destruct (0 <? w), (existsb _ _); try destruct (SIGNER_LIMIT <=? _); by split.
Qed.

Lemma UpdateTypeThreshold_list type w a : is_s64 w ->
  (UpdateTypeThreshold type w a).1 = (update_weights tt_type MkTypeThreshold SIGNER_LIMIT type w (type_thresholds_of a)).1
  /\ type_thresholds_of (UpdateTypeThreshold type w a).2
     = (update_weights tt_type MkTypeThreshold SIGNER_LIMIT type w (type_thresholds_of a)).2.
Proof.
  intros Hw. unfold UpdateTypeThreshold, update_weights. cbv zeta. fold (type_thresholds_of a).
  rewrite (mask_s64 w Hw).
  destruct (0 <? w), (existsb _ _); try destruct (SIGNER_LIMIT <=? _); by split.
Qed.

(** UpdateSigner and UpdateTypeThreshold maintain maps from addresses to weights and from
    operation types to thresholds: on an account whose lists have no duplicates, only
    positive values and at most 100 entries they keep that so; they fail exactly for
    a new key with a positive value when the list is full, and then change nothing;
    otherwise the key gets the value (a value that is not positive removes it) and
    every other key keeps its own. *)
Theorem privilege_updates (a : AccountFrm) (signer : string) (type w : Z) :
  signers_ok a -> type_thresholds_ok a -> is_s64 w ->
  (let '(ok, a') := UpdateSigner signer w a in
   signers_ok a'
   /\ (ok = false <-> 0 < w /\ signer_weight_of (signers_of a) signer = 0
                     /\ Z.of_nat (length (signers_of a)) = SIGNER_LIMIT)
   /\ forall k, signer_weight_of (signers_of a') k =
        if decide (ok = true /\ k = signer) then Z.max 0 w else signer_weight_of (signers_of a) k)
  /\ (let '(ok, a') := UpdateTypeThreshold type w a in
   type_thresholds_ok a'
   /\ (ok = false <-> 0 < w /\ type_threshold_of (type_thresholds_of a) type = 0
                     /\ Z.of_nat (length (type_thresholds_of a)) = SIGNER_LIMIT)
   /\ forall k, type_threshold_of (type_thresholds_of a') k =
        if decide (ok = true /\ k = type) then Z.max 0 w else type_threshold_of (type_thresholds_of a) k).
Proof.
  intros Hs Ht Hw. split.
  - pose proof (update_weights_spec (K := string) sg_address sg_weight MkSigner (fun _ _ => eq_refl)
      (fun _ _ => eq_refl) SIGNER_LIMIT signer w (signers_of a) Hs) as H.
    destruct (UpdateSigner_list signer w a) as [E1 E2].
    destruct (UpdateSigner signer w a) as [ok a'], (update_weights _ _ _ _ _ _) as [ok' l'].
    cbn in E1, E2. subst ok' l'. exact H.
  - pose proof (update_weights_spec (K := Z) tt_type tt_threshold MkTypeThreshold (fun _ _ => eq_refl)
      (fun _ _ => eq_refl) SIGNER_LIMIT type w (type_thresholds_of a) Ht) as H.
    destruct (UpdateTypeThreshold_list type w a Hw) as [E1 E2].
    destruct (UpdateTypeThreshold type w a) as [ok a'], (update_weights _ _ _ _ _ _) as [ok' l'].
    cbn in E1, E2. subst ok' l'. exact H.
Qed.

Lemma privilege_updates_witness :
  let a := SetProtoTxThreshold 1 (new_frm (MkAccount "alice" 0 (MkPriv 1 [MkSigner "bob" 5] None) "" "" None 10)) in
  signers_of (UpdateSigner "bob" 0 a).2 = [] /\ signers_ok (UpdateSigner "bob" 0 a).2.
Proof.
  cbv zeta. split; [reflexivity|].
  refine (proj1 (proj1 (privilege_updates (SetProtoTxThreshold 1 (new_frm
    (MkAccount "alice" 0 (MkPriv 1 [MkSigner "bob" 5] None) "" "" None 10))) "bob" 7 0 _ _ _))).
  - split; [apply NoDup_singleton|split; [constructor; [reflexivity|constructor]|discriminate]].
  - split; [constructor|split; [constructor|discriminate]].
  - split; discriminate.
Defined.


(** ** Caches over the tries *)

(** What a cache entry and a trie show at a key: the entry unless it is a deletion,
    the trie where there is no entry. *)
Definition shown {T} (r : option (DataCache T)) (t : option T) : option T :=
  match r with
  | Some r => if decide (action_ r = DEL) then None else Some (data_ r)
  | None => t
  end.

(** A stored asset has an amount. *)
Definition stored (r : option AssetStore) : option AssetStore :=
  match r with Some s => if as_amount s =? 0 then None else Some s | None => None end.

(** Entries are added, modified or deleted ones, and assets are kept under their keys. *)
Definition live (act : actType) : Prop := act = ADD \/ act = MOD \/ act = DEL.
Definition caches_ok (a : AccountFrm) : Prop :=
  map_Forall (fun k r => as_key (data_ r) = k /\ live (action_ r)) (assets_ a)
  /\ map_Forall (fun _ r => live (action_ r)) (metadata_ a).
Definition assets_ok (t : gmap AssetKey AssetStore) : Prop :=
  map_Forall (fun k s => as_key s = k /\ as_amount s <> 0) t.

Lemma write_assets_lookup (m : gmap AssetKey (DataCache AssetStore)) t k :
  map_Forall (fun k r => as_key (data_ r) = k /\ live (action_ r)) m ->
  map_fold write_asset t m !! k
  = match m !! k with Some r => stored (shown (Some r) None) | None => t !! k end.
Proof.
  revert k. apply (map_fold_weak_ind (fun t' m =>
    forall k, map_Forall (fun k r => as_key (data_ r) = k /\ live (action_ r)) m ->
      t' !! k = match m !! k with Some r => stored (shown (Some r) None) | None => t !! k end)).
  - intros k _. by rewrite lookup_empty.
  - intros i r m' t' Hi IH k Hok. apply map_Forall_insert in Hok as [[Hkey Hlive] Hok]; [|done].
    specialize (IH k Hok). unfold write_asset. rewrite Hkey.
    destruct (decide (i = k)) as [<-|Hne].
    + rewrite lookup_insert_eq. unfold shown, stored.
      destruct Hlive as [E|[E|E]]; rewrite E; simpl; try (destruct (as_amount (data_ r) =? 0));
        by rewrite ?lookup_delete_eq, ?lookup_insert_eq.
    + rewrite (lookup_insert_ne m') by done. rewrite <- IH.
      destruct Hlive as [E|[E|E]]; rewrite E; try destruct (as_amount (data_ r) =? 0);
        by rewrite ?lookup_delete_ne, ?lookup_insert_ne by done.
Qed.

Lemma write_metadatas_lookup (m : gmap string (DataCache KeyPair)) t k :
  map_Forall (fun _ r => live (action_ r)) m ->
  map_fold write_metadata t m !! k = shown (m !! k) (t !! k).
Proof.
  revert k. apply (map_fold_weak_ind (fun t' m =>
    forall k, map_Forall (fun _ r => live (action_ r)) m -> t' !! k = shown (m !! k) (t !! k))).
  - intros k _. by rewrite lookup_empty.
  - intros i r m' t' Hi IH k Hok. apply map_Forall_insert in Hok as [Hlive Hok]; [|done].
    specialize (IH k Hok). unfold write_metadata.
    destruct (decide (i = k)) as [<-|Hne].
    + rewrite lookup_insert_eq. unfold shown.
      destruct Hlive as [E|[E|E]]; rewrite E; simpl; by rewrite ?lookup_delete_eq, ?lookup_insert_eq.
    + rewrite (lookup_insert_ne m') by done. rewrite <- IH.
      destruct Hlive as [E|[E|E]]; rewrite E; by rewrite ?lookup_delete_ne, ?lookup_insert_ne by done.
Qed.

(** The readers show the cache over the trie, and what they cache changes nothing shown. *)
Lemma GetAsset_shown adb k a :
  (GetAsset adb k a).1 = shown (assets_ a !! k) (adb (GetAccountAddress a) k).
Proof.
  unfold GetAsset, shown. destruct (assets_ a !! k) as [r|]; [by case_decide|].
  by destruct (adb _ k).
Qed.
Lemma GetMetaData_shown mdb k a :
  (GetMetaData mdb k a).1 = shown (metadata_ a !! k) (mdb (GetAccountAddress a) k).
Proof.
  unfold GetMetaData, shown. destruct (metadata_ a !! k) as [r|]; [by case_decide|].
  by destruct (mdb _ k).
Qed.

(** The account over tries: what is read at every asset key and at every metadata key. *)
Section OverTries.
Context (ta : gmap AssetKey AssetStore) (tm : gmap string KeyPair).
Notation adb := (fun (_ : string) (k : AssetKey) => ta !! k).
Notation mdb := (fun (_ : string) (k : string) => tm !! k).

Definition asset_view (a : AccountFrm) (k : AssetKey) : option AssetStore := (GetAsset adb k a).1.
Definition metadata_view (a : AccountFrm) (k : string) : option KeyPair := (GetMetaData mdb k a).1.

Lemma asset_view_shown a k : asset_view a k = shown (assets_ a !! k) (ta !! k).
Proof. apply GetAsset_shown. Qed.
Lemma metadata_view_shown a k : metadata_view a k = shown (metadata_ a !! k) (tm !! k).
Proof. apply GetMetaData_shown. Qed.

Lemma GetAsset_ok k a : assets_ok ta -> caches_ok a ->
  caches_ok (GetAsset adb k a).2
  /\ (forall k', asset_view (GetAsset adb k a).2 k' = asset_view a k')
  /\ metadata_ (GetAsset adb k a).2 = metadata_ a.
Proof.
  intros Hta [H1 H2]. unfold GetAsset. destruct (assets_ a !! k) as [r|] eqn:E; [by case_decide|].
  destruct (ta !! k) as [s|] eqn:Es; [|done]. split_and!; [|intros k'|done].
  - split; [|done]. apply map_Forall_insert_2; [|done]. destruct (Hta k s Es). split; [done|by right; left].
  - rewrite !asset_view_shown. simpl. destruct (decide (k = k')) as [<-|Hne].
    + by rewrite lookup_insert_eq, E, Es.
    + by rewrite lookup_insert_ne.
Qed.

Lemma GetMetaData_ok k a : caches_ok a ->
  caches_ok (GetMetaData mdb k a).2
  /\ (forall k', metadata_view (GetMetaData mdb k a).2 k' = metadata_view a k')
  /\ assets_ (GetMetaData mdb k a).2 = assets_ a.
Proof.
  intros [H1 H2]. unfold GetMetaData. destruct (metadata_ a !! k) as [r|] eqn:E; [by case_decide|].
  destruct (tm !! k) as [s|] eqn:Es; [|done]. split_and!; [|intros k'|done].
  - split; [done|]. apply map_Forall_insert_2; [by right; left|done].
  - rewrite !metadata_view_shown. simpl. destruct (decide (k = k')) as [<-|Hne].
    + by rewrite lookup_insert_eq, E, Es.
    + by rewrite lookup_insert_ne.
Qed.
End OverTries.

(** The caches of an account over its tries behave as two maps: reading (which may fill
    the cache) changes nothing that is read later; SetAsset, SetMetaData and
    DeleteMetaData change what is read at the key of the record they are given, to the
    record or to nothing, and at no other key; and all of them keep asset entries under their keys. *)
Theorem account_caches_are_maps ta tm a k k' s kp :
  assets_ok ta -> caches_ok a ->
  (caches_ok (GetAsset (fun _ k => ta !! k) k a).2
   /\ asset_view ta (GetAsset (fun _ k => ta !! k) k a).2 k' = asset_view ta a k')
  /\ (caches_ok (GetMetaData (fun _ k => tm !! k) (kp_key kp) a).2
      /\ forall m, metadata_view tm (GetMetaData (fun _ k => tm !! k) (kp_key kp) a).2 m = metadata_view tm a m)
  /\ (caches_ok (SetAsset s a)
      /\ asset_view ta (SetAsset s a) k' = if decide (k' = as_key s) then Some s else asset_view ta a k')
  /\ (caches_ok (SetMetaData kp a)
      /\ forall m, metadata_view tm (SetMetaData kp a) m
                   = if decide (m = kp_key kp) then Some kp else metadata_view tm a m)
  /\ caches_ok (DeleteMetaData kp a)
     /\ forall m, metadata_view tm (DeleteMetaData kp a) m
                  = if decide (m = kp_key kp) then None else metadata_view tm a m.
Proof.
  intros Hta Ha. pose proof Ha as [H1 H2].
  destruct (GetAsset_ok ta k a Hta Ha) as (? & Hv & _), (GetMetaData_ok tm (kp_key kp) a Ha) as (? & Hm & _).
  split_and!; try done.
  - split; [|done]. apply map_Forall_insert_2; [split; [done|by left]|done].
  - rewrite !asset_view_shown. simpl. case_decide; [subst; by rewrite lookup_insert_eq|by rewrite lookup_insert_ne].
  - split; [done|]. apply map_Forall_insert_2; [by left|done].
  - intros m. rewrite !metadata_view_shown. simpl.
    case_decide; [subst; by rewrite lookup_insert_eq|by rewrite lookup_insert_ne].
  - split; [done|]. apply map_Forall_insert_2; [by right; right|done].
  - intros m. rewrite !metadata_view_shown. simpl.
    case_decide; [subst; by rewrite lookup_insert_eq|by rewrite lookup_insert_ne].
Qed.

(** C12: UpdateHash writes to the tries exactly what the account shows: for caches with
    coherent keys, the asset trie then holds at every key the asset that was read there,
    without the assets of amount 0, and the metadata trie what was read there; a frame freshly
    loaded over the new tries shows the same, the new asset trie has coherent keys and
    no zero amounts, the hashes in the account are the roots of the new tries, and
    everything else of the account stays. *)
Theorem update_hash_writes_the_view ar mr ta tm a :
  assets_ok ta -> caches_ok a ->
  let '((ta', tm'), a') := UpdateHash ar mr (ta, tm) a in
  assets_ok ta'
  /\ (forall k, ta' !! k = stored (asset_view ta a k))
  /\ (forall k, tm' !! k = metadata_view tm a k)
  /\ (forall k, asset_view ta' (new_frm (account_info_ a')) k = stored (asset_view ta a k))
  /\ (forall k, metadata_view tm' (new_frm (account_info_ a')) k = metadata_view tm a k)
  /\ account_info_ a' = set_hashes (mr tm') (ar ta') (account_info_ a)
  /\ assets_ a' = assets_ a /\ metadata_ a' = metadata_ a.
Proof.
  intros Hta [H1 H2]. unfold UpdateHash. cbn [fst snd].
  assert (Ha : forall k, map_fold write_asset ta (assets_ a) !! k = stored (asset_view ta a k)).
  { intros k. rewrite write_assets_lookup, asset_view_shown by done.
    destruct (assets_ a !! k) as [r|]; [done|]. simpl. destruct (ta !! k) as [s|] eqn:E; [|done].
    simpl. destruct (Hta k s E). by rewrite (proj2 (Z.eqb_neq _ _)). }
  assert (Hm : forall k, map_fold write_metadata tm (metadata_ a) !! k = metadata_view tm a k).
  { intros k. by rewrite write_metadatas_lookup, metadata_view_shown. }
  split_and!; try done.
  - intros k s. rewrite Ha, asset_view_shown. unfold stored, shown.
    destruct (assets_ a !! k) as [r|] eqn:E.
    + destruct (H1 k r E). case_decide; [done|]. destruct (Z.eqb_spec (as_amount (data_ r)) 0); naive_solver.
    + destruct (ta !! k) as [s'|] eqn:Es; [|done]. destruct (Hta k s' Es).
      destruct (Z.eqb_spec (as_amount s') 0); naive_solver.
  - intros k. rewrite asset_view_shown. simpl. by rewrite lookup_empty, <- Ha.
  - intros k. rewrite metadata_view_shown. simpl. by rewrite lookup_empty, <- Hm.
Qed.

(** A trie with a bond, and a frame that sold it and changed a note. *)
Definition bond : AssetKey := MkAssetKey "issuer" "bond" 0.
Definition sold_trie : gmap AssetKey AssetStore := {[ bond := MkAssetStore bond 7 ]}.
Definition sold_frame : AccountFrm :=
  SetMetaData (MkKeyPair "note" "sold" 2) (SetAsset (MkAssetStore bond 0)
    (new_frm (MkAccount "alice" 0 Priv0 "" "" None 10))).

Lemma sold_trie_ok : assets_ok sold_trie.
Proof. apply map_Forall_singleton. by split. Qed.
Lemma sold_frame_ok : caches_ok sold_frame.
Proof.
  split; simpl.
  - apply map_Forall_insert_2; [by split; [|left]|apply map_Forall_empty].
  - apply map_Forall_insert_2; [by left|apply map_Forall_empty].
Qed.

Lemma account_caches_are_maps_witness :
  caches_ok (SetAsset (MkAssetStore bond 3) sold_frame)
  /\ asset_view sold_trie (SetAsset (MkAssetStore bond 3) sold_frame) bond = Some (MkAssetStore bond 3).
Proof.
  exact (proj1 (proj2 (proj2 (account_caches_are_maps sold_trie ∅ sold_frame bond bond
    (MkAssetStore bond 3) (MkKeyPair "note" "sold" 2) sold_trie_ok sold_frame_ok)))).
Defined.

Lemma update_hash_writes_the_view_witness :
  let '((ta', tm'), _) := UpdateHash (fun _ => "ra") (fun _ => "rm") (sold_trie, ∅) sold_frame in
  ta' !! bond = None /\ tm' !! "note" = Some (MkKeyPair "note" "sold" 2) /\ assets_ok ta'.
Proof.
  pose proof (update_hash_writes_the_view (fun _ => "ra") (fun _ => "rm") sold_trie ∅ sold_frame
    sold_trie_ok sold_frame_ok) as (H & _).
  split; [vm_compute; reflexivity|]. split; [vm_compute; reflexivity|exact H].
Defined.
