(* ===== verification/Chain.v ===== *)
(** * Chain messages and the state of a ledger being closed

    The messages of src/proto/chain.proto the ledger reads, the error codes of
    src/proto/common.proto, the constants of src/common/general.h, the frame of a
    transaction (the fields of [TransactionFrm], src/ledger/transaction_frm.h),
    and the state and monad in which operations, transactions and ledgers run. *)
From S2P Require Import Prelude Uint128 Strings AtomMap Account.
Import U128.

Open Scope string_scope.
Open Scope Z_scope.

(** ** Error codes *)
Definition SUCCESS := 0.
Definition INVALID_PARAMETER := 2.
Definition NOT_EXIST := 4.
Definition MATH_OVERFLOW := 7.
Definition ASSET_INVALID := 92.
Definition INVALID_SIGNATURE := 93.
Definition INVALID_ADDRESS := 94.
Definition MISSING_OPERATIONS := 97.
Definition TOO_MANY_OPERATIONS := 98.
Definition BAD_SEQUENCE := 99.
Definition ACCOUNT_LOW_RESERVE := 100.
Definition ACCOUNT_SOURCEDEST_EQUAL := 101.
Definition ACCOUNT_DEST_EXIST := 102.
Definition ACCOUNT_NOT_EXIST := 103.
Definition ACCOUNT_ASSET_LOW_RESERVE := 104.
Definition ACCOUNT_INIT_LOW_RESERVE := 106.
Definition FEE_NOT_ENOUGH := 111.
Definition WEIGHT_NOT_VALID := 120.
Definition THRESHOLD_NOT_VALID := 121.
Definition INVALID_DATAVERSION := 144.
Definition TX_SIZE_TOO_BIG := 146.
Definition CONTRACT_EXECUTE_FAIL := 151.
Definition CONTRACT_SYNTAX_ERROR := 152.
Definition CONTRACT_TOO_MANY_RECURSION := 153.
Definition CONTRACT_TOO_MANY_TRANSACTIONS := 154.
Definition CONTRACT_EXECUTE_EXPIRED := 155.

(** ** Constants of [General] *)
Definition METADATA_KEY_MAXSIZE := 1024.
Definition METADATA_MAX_VALUE_SIZE := 256 * 1024.
Definition ASSET_CODE_MAX_SIZE := 64.
Definition CONTRACT_MAX_RECURSIVE_DEPTH := 4.
Definition CONTRACT_CODE_LIMIT := 256 * 1024.
Definition CONTRACT_STEP_LIMIT := 10 * 1024.
Definition CONTRACT_MEMORY_LIMIT := 30 * 1048576.
Definition CONTRACT_STACK_LIMIT := 256 * 1024.
Definition TX_EXECUTE_TIME_OUT := 1000000.
Definition BLOCK_EXECUTE_TIME_OUT := 5000000.
Definition TRANSACTION_LIMIT_SIZE := 1048576.
Definition TRANSACTION_LOG_TOPIC_MAXSIZE := 128.
Definition TRANSACTION_LOG_DATA_MAXSIZE := 1024.
Definition MAX_OPERATIONS_NUM_PER_TRANSACTION := 100.
Definition UINT32_MAX := 4294967295.

Definition CONTRACT_VALIDATOR_ADDRESS := "buQtxgoaDrVJGtoPT66YnA2S84yE8FbBqQDJ".
Definition CONTRACT_FEE_ADDRESS := "buQiQgRerQM1fUM3GkqUftpNxGzNg2AdJBpe".
Definition RESERVED_CREATOR_ADDRESS := "buQgCBN4MSZMWRfJbksh9PWpKqgY3tSEMM4d".
Definition CONTRACT_DPOS_ADDRESS := "buQqzdS9YSnokDjvzg4YaNatcFQfkgXqk6ss".
Definition RESERVED_ADDRESSES : list string :=
  [CONTRACT_DPOS_ADDRESS; "buQcHGxxpPDBcPKys8cD5NY1CAiyAfFBjgtg";
   "buQraU2Y5niuYyDdS7FNfJYRrGe8q21RmWc3"; "buQXoma4baahLbAcnZdC7hFqCHoAxbnytYxd";
   "buQVpA6eKpuDcNfubXsgG9ihN32psE1jyygm"; "buQa9pRC8B38zd8Z47q97D4X5WwqhMry3VEm"].

(** ** JSON values *)
Inductive Json :=
| JNull | JBool (b : bool) | JInt (z : Z) | JString (s : string)
| JArray (l : list Json) | JObject (l : list (string * Json)).

(** [value[key]] of a constant value: null when there is no such member. *)
Definition member (key : string) (j : Json) : Json :=
  match j with
  | JObject l => default JNull (snd <$> List.find (fun e => bool_decide (e.1 = key)) l)
  | _ => JNull
  end.

(** ** Operations *)
Definition CREATE_ACCOUNT := 1.
Definition ISSUE_ASSET := 2.
Definition PAY_ASSET := 3.
Definition SET_METADATA := 4.
Definition SET_SIGNER_WEIGHT := 5.
Definition SET_THRESHOLD := 6.
Definition PAY_COIN := 7.
Definition LOG := 8.
Definition SET_PRIVILEGE := 9.

Record OperationCreateAccount := MkCreateAccount {
  ca_dest_address : string; ca_contract_type : Z; ca_payload : string; ca_priv : option AccountPrivilege;
  ca_metadatas : list KeyPair; ca_init_balance : Z; ca_init_input : string }.
Definition ca_contract (ca : OperationCreateAccount) : Contract := MkContract (ca_contract_type ca) (ca_payload ca).
Record OperationIssueAsset := MkIssueAsset { ia_code : string; ia_amount : Z }.
Record Asset := MkAsset { as_asset_key : AssetKey; as_asset_amount : Z }.
Record OperationPayAsset := MkPayAsset { pa_dest_address : string; pa_asset : option Asset; pa_input : string }.
Record OperationSetMetadata := MkSetMetadata {
  sm_key : string; sm_value : string; sm_version : Z; sm_delete_flag : bool }.
Record OperationSetSignerWeight := MkSetSignerWeight { sw_master_weight : Z; sw_signers : list Signer }.
Record OperationSetThreshold := MkSetThreshold {
  st_tx_threshold : Z; st_type_thresholds : list OperationTypeThreshold }.
Record OperationPayCoin := MkPayCoin { pc_dest_address : string; pc_amount : Z; pc_input : string }.
Record OperationLog := MkLog { lg_topic : string; lg_datas : list string }.
Record OperationSetPrivilege := MkSetPrivilege {
  sp_master_weight : string; sp_signers : list Signer; sp_tx_threshold : string;
  sp_type_thresholds : list OperationTypeThreshold }.

(** [Operation]: the type says which sub-message is read; the others have their
    default values. *)
Record Operation := MkOperation {
  op_type : Z; op_source_address : string; op_metadata : string;
  op_create_account : OperationCreateAccount; op_issue_asset : OperationIssueAsset;
  op_pay_asset : OperationPayAsset; op_set_metadata : OperationSetMetadata;
  op_set_signer_weight : OperationSetSignerWeight; op_set_threshold : OperationSetThreshold;
  op_pay_coin : OperationPayCoin; op_log : OperationLog; op_set_privilege : OperationSetPrivilege }.

(** ** Transactions *)
Record Transaction := MkTransaction {
  tx_source_address : string; tx_nonce : Z; tx_fee_limit : Z; tx_gas_price : Z;
  tx_ceil_ledger_seq : Z; tx_metadata : string; tx_operations : list Operation; tx_chain_id : Z }.
Record Signature := MkSignature { sig_public_key : string; sig_sign_data : string }.
Record TransactionEnv := MkTxEnv { te_transaction : Transaction; te_signatures : list Signature }.

(** A transaction triggered by a contract, with its result. *)
Record TransactionEnvStore := MkTxStore { ts_env : TransactionEnv; ts_error_code : Z }.

(** [TransactionFrm]. [environment_] is the depth of its environment in the stack
    of maps and [ledger_] says whether the frame belongs to a ledger; of a
    [Result], the code is kept. *)
Record TransactionFrm := MkTxFrm {
  transaction_env_ : TransactionEnv;
  hash_ : string;
  valid_signature_ : gset string;
  result_ : Z;
  environment_ : nat;
  ledger_ : bool;
  processing_operation_ : Z;
  actual_gas_ : Z;
  max_end_time_ : Z;
  contract_step_ : Z;
  contract_memory_usage_ : Z;
  contract_stack_max_vaule_ : Z;
  contract_stack_usage_ : Z;
  enable_check_ : bool;
  instructions_ : list TransactionEnvStore }.

(** ** The ledger being closed

    [env_] holds the accounts (the environments of the transactions are AtomMaps
    stacked on it), [transaction_stack_] the transactions being applied, the
    bottom one first, [total_fee_] the fees of the block, [ticks_] the number of
    clock readings so far, [settings_] the settings of the environments and
    [contract_result_] the [contract_result] of the contract that ended last. *)
Record LState := MkLState {
  env_ : Store string AccountFrm;
  transaction_stack_ : list TransactionFrm;
  total_fee_ : Z;
  ticks_ : nat;
  settings_ : Store string Json;
  contract_result_ : Json }.

Definition set_env (e : Store string AccountFrm) (s : LState) : LState :=
  MkLState e (transaction_stack_ s) (total_fee_ s) (ticks_ s) (settings_ s) (contract_result_ s).
Definition set_stack (l : list TransactionFrm) (s : LState) : LState :=
  MkLState (env_ s) l (total_fee_ s) (ticks_ s) (settings_ s) (contract_result_ s).
Definition set_total_fee (f : Z) (s : LState) : LState :=
  MkLState (env_ s) (transaction_stack_ s) f (ticks_ s) (settings_ s) (contract_result_ s).
Definition set_ticks (n : nat) (s : LState) : LState :=
  MkLState (env_ s) (transaction_stack_ s) (total_fee_ s) n (settings_ s) (contract_result_ s).
Definition set_settings (e : Store string Json) (s : LState) : LState :=
  MkLState (env_ s) (transaction_stack_ s) (total_fee_ s) (ticks_ s) e (contract_result_ s).
Definition set_contract_result (r : Json) (s : LState) : LState :=
  MkLState (env_ s) (transaction_stack_ s) (total_fee_ s) (ticks_ s) (settings_ s) r.

(** A new [Environment] without a parent. *)
Definition fresh_environment (s : LState) : LState := set_settings empty_store (set_env empty_store s).

(** The contract result of an operation that creates a contract. *)
Definition address_result (dest_address : string) : Json :=
  JObject [("type", JString "address"); ("value", JString dest_address)].

(** A contract is run with these parameters. *)
Record ContractParameter := MkContractParameter {
  cp_code : string; cp_input : string; cp_this_address : string; cp_init : bool;
  cp_block_number : Z; cp_block_timestamp : Z;
  cp_tx_sender : string; cp_tx_initiator : string; cp_tx_fee_limit : Z; cp_tx_gas_price : Z; cp_tx_hash : string;
  cp_msg_coin_amount : Z; cp_msg_asset : option Asset; cp_msg_initiator : string; cp_msg_nonce : Z;
  cp_msg_operation_index : Z; cp_msg_sender : string }.

Abbreviation LM := (hm LState ContractParameter).

(** What the ledger code calls outside the modelled components: address and
    signature checks, the tries of the database, configuration, the size of a
    serialized transaction, the clock, the contract engine, which runs contracts and
    may repeat the transaction on top of the stack ([stack_repeats] times). *)
Class LedgerParams := {
  IsAddressValid : string -> bool;
  account_tree : string -> option Account;
  asset_trie : string -> AssetKey -> option AssetStore;
  metadata_trie : string -> string -> option KeyPair;
  ledger_version : Z;
  last_closed_seq : Z;
  cfg_base_reserve : Z;
  cfg_gas_price : Z;
  forbid_addrs : list string;
  self_chain_id : Z;
  SourceCodeCheck : string -> Z -> Z;
  contract_address : string -> Z -> Z -> string;
  ByteSize : TransactionEnv -> Z;
  tx_hash : Transaction -> string;
  pubkey_valid : string -> bool;
  pubkey_address : string -> string;
  Verify : Transaction -> string -> string -> bool;
  clock : nat -> Z;
  GetValidators : Z -> option (list string);
  Execute : ContractParameter -> LM Z;
  stack_repeats : nat }.

Section Chain.
Context `{P : LedgerParams}.

Definition CHECK_VERSION_GT_1000 : bool := 1000 <? ledger_version.
Definition CHECK_VERSION_GT_1001 : bool := 1001 <? ledger_version.
Definition CHECK_VERSION_GT_1002 : bool := 1002 <? ledger_version.
Definition GET_CONTRACT_VALIDATOR_ADDRESS : string :=
  if CHECK_VERSION_GT_1002 then CONTRACT_DPOS_ADDRESS else CONTRACT_VALIDATOR_ADDRESS.
Definition GET_CONTRACT_FEE_ADDRESS : string :=
  if CHECK_VERSION_GT_1002 then CONTRACT_DPOS_ADDRESS else CONTRACT_FEE_ADDRESS.

(** ** Environments *)

Definition on_env {A} (m : hm (Store string AccountFrm) ContractParameter A) : LM A := fun s =>
  match m (env_ s) with
  | Returns (a, e, es) => Returns (a, set_env e s, es)
  | Throws e => Throws e
  end.

Definition on_settings {A} (m : hm (Store string Json) ContractParameter A) : LM A := fun s =>
  match m (settings_ s) with
  | Returns (a, e, es) => Returns (a, set_settings e s, es)
  | Throws e => Throws e
  end.

(** [Environment::AccountFromDB]: the account tree. *)
Definition AccountFromDB (address : string) : option AccountFrm := new_frm <$> account_tree address.

(** [Environment::GetEntry], [AddEntry], [Commit], [ClearChangeBuf] of the environment
    at depth [d]; accounts are changed through the pointer [GetEntry] yields.
    [NewStackFrameEnv] stacks an environment on the last one; [end_env] is its
    destruction. *)
Definition GetEntry (d : nat) (key : string) : LM (option loc) := on_env (Get AccountFromDB d key).
Definition AddEntry (d : nat) (key : string) (frm : loc) : LM bool := on_env (Set_ d key frm).
Definition env_Commit (d : nat) : LM bool :=
  ret ← on_settings (Commit d false);
  if ret : bool then on_env (Commit d false) else mret false.
Definition env_ClearChangeBuf (d : nat) : LM unit := on_settings (ClearChangeBuf d) ;; on_env (ClearChangeBuf d).
Definition NewStackFrameEnv : LM unit := on_settings push_frame ;; on_env push_frame.
Definition end_env : LM unit := on_settings pop_frame ;; on_env pop_frame.
Definition read_account (l : loc) : LM AccountFrm := on_env (deref (Some l)).
Definition write_account (l : loc) (a : AccountFrm) : LM unit := on_env (assign l a).
Definition new_account (a : AccountFrm) : LM loc := on_env (alloc a).

(** A computation that touches no state. *)
Definition on_outcome {A} (o : outcome A) : LM A := fun s =>
  match o with Returns a => Returns (a, s, []) | Throws e => Throws e end.

(** [utils::Timestamp::HighResolution] *)
Definition HighResolution : LM Z := fun s =>
  Returns (clock (ticks_ s), set_ticks (S (ticks_ s)) s, []).

(** The transaction at a position of the stack. *)
Definition get_tx (i : nat) : LM TransactionFrm :=
  s ← hget; match transaction_stack_ s !! i with Some t => mret t | None => hthrow Trap end.
Definition mod_tx (i : nat) (f : TransactionFrm -> TransactionFrm) : LM unit :=
  hmod (fun s => set_stack (alter f i (transaction_stack_ s)) s).
(** [LedgerContext::GetBottomTx], [GetTopTx]: [front()] and [back()] of the stack. *)
Definition GetBottomTx : LM TransactionFrm := get_tx 0.
Definition GetTopTx : LM TransactionFrm := s ← hget; get_tx (length (transaction_stack_ s) - 1).
Definition push_tx (t : TransactionFrm) : LM unit :=
  hmod (fun s => set_stack (transaction_stack_ s ++ [t])%list s).
Definition pop_tx : LM unit :=
  hmod (fun s => set_stack (take (length (transaction_stack_ s) - 1) (transaction_stack_ s)) s).
End Chain.

(** A [std::string] as a list of characters, back as a string. *)
Definition text (l : list ascii) : string := String.string_of_list_ascii l.
Definition size (s : string) : Z := Z.of_nat (String.length s).
Definition empty (s : string) : bool := bool_decide (s = "").
