(* ===== verification/TxFrame.v ===== *)
(** * Transaction frames

    The parts of [TransactionFrm] (src/ledger/transaction_frm.cpp) that read and
    update a single frame, and [FeeCalculate] (src/ledger/fee_calculate.cpp). *)
From S2P Require Import Prelude Uint128 Strings AtomMap Account Chain.
Import U128.

Open Scope string_scope.
Open Scope Z_scope.

(** ** [FeeCalculate] *)
Definition gas_create_account := 0.
Definition gas_issue_asset := 5000000.
Definition gas_pay_asset := 0.
Definition gas_set_metadata := 0.
Definition gas_set_sigure_weight := 0.
Definition gas_set_threshold := 0.
Definition gas_pay_coin := 0.
Definition gas_log := 0.
Definition gas_create_contract := 1000000.
Definition gas_set_privilege := 0.

Definition GetOperationTypeGas (op : Operation) : Z :=
  let t := op_type op in
  if t =? 0 then 0
  else if t =? CREATE_ACCOUNT then
    (if negb (empty (ca_payload (op_create_account op))) then gas_create_contract else gas_create_account)
  else if t =? PAY_ASSET then gas_pay_asset
  else if t =? ISSUE_ASSET then gas_issue_asset
  else if t =? SET_METADATA then gas_set_metadata
  else if t =? SET_SIGNER_WEIGHT then gas_set_sigure_weight
  else if t =? SET_THRESHOLD then gas_set_threshold
  else if t =? PAY_COIN then gas_pay_coin
  else if t =? LOG then gas_log
  else if t =? SET_PRIVILEGE then gas_set_privilege
  else 0.

(** ** Fields of a frame *)
Definition set_result (c : Z) (t : TransactionFrm) : TransactionFrm :=
  MkTxFrm (transaction_env_ t) (hash_ t) (valid_signature_ t) c (environment_ t) (ledger_ t)
    (processing_operation_ t) (actual_gas_ t) (max_end_time_ t) (contract_step_ t)
    (contract_memory_usage_ t) (contract_stack_max_vaule_ t) (contract_stack_usage_ t)
    (enable_check_ t) (instructions_ t).
Definition set_actual_gas (g : Z) (t : TransactionFrm) : TransactionFrm :=
  MkTxFrm (transaction_env_ t) (hash_ t) (valid_signature_ t) (result_ t) (environment_ t) (ledger_ t)
    (processing_operation_ t) g (max_end_time_ t) (contract_step_ t)
    (contract_memory_usage_ t) (contract_stack_max_vaule_ t) (contract_stack_usage_ t)
    (enable_check_ t) (instructions_ t).
Definition set_processing (i : Z) (t : TransactionFrm) : TransactionFrm :=
  MkTxFrm (transaction_env_ t) (hash_ t) (valid_signature_ t) (result_ t) (environment_ t) (ledger_ t)
    i (actual_gas_ t) (max_end_time_ t) (contract_step_ t)
    (contract_memory_usage_ t) (contract_stack_max_vaule_ t) (contract_stack_usage_ t)
    (enable_check_ t) (instructions_ t).
(** [ledger_ = ledger_frm; environment_ = parent] *)
Definition attach (d : nat) (t : TransactionFrm) : TransactionFrm :=
  MkTxFrm (transaction_env_ t) (hash_ t) (valid_signature_ t) (result_ t) d true
    (processing_operation_ t) (actual_gas_ t) (max_end_time_ t) (contract_step_ t)
    (contract_memory_usage_ t) (contract_stack_max_vaule_ t) (contract_stack_usage_ t)
    (enable_check_ t) (instructions_ t).
Definition set_limits (step mem stack_max stack : Z) (t : TransactionFrm) : TransactionFrm :=
  MkTxFrm (transaction_env_ t) (hash_ t) (valid_signature_ t) (result_ t) (environment_ t) (ledger_ t)
    (processing_operation_ t) (actual_gas_ t) (max_end_time_ t) step mem stack_max stack
    (enable_check_ t) (instructions_ t).
Definition set_deadline (check : bool) (e : Z) (t : TransactionFrm) : TransactionFrm :=
  MkTxFrm (transaction_env_ t) (hash_ t) (valid_signature_ t) (result_ t) (environment_ t) (ledger_ t)
    (processing_operation_ t) (actual_gas_ t) e (contract_step_ t)
    (contract_memory_usage_ t) (contract_stack_max_vaule_ t) (contract_stack_usage_ t)
    check (instructions_ t).
Definition add_instructions (l : list TransactionEnvStore) (t : TransactionFrm) : TransactionFrm :=
  MkTxFrm (transaction_env_ t) (hash_ t) (valid_signature_ t) (result_ t) (environment_ t) (ledger_ t)
    (processing_operation_ t) (actual_gas_ t) (max_end_time_ t) (contract_step_ t)
    (contract_memory_usage_ t) (contract_stack_max_vaule_ t) (contract_stack_usage_ t)
    (enable_check_ t) (instructions_ t ++ l)%list.

Definition tran (t : TransactionFrm) : Transaction := te_transaction (transaction_env_ t).
Definition GetSourceAddress (t : TransactionFrm) : string := tx_source_address (tran t).
Definition GetNonce (t : TransactionFrm) : Z := tx_nonce (tran t).
Definition GetFeeLimit (t : TransactionFrm) : Z := tx_fee_limit (tran t).
Definition GetGasPrice (t : TransactionFrm) : Z := tx_gas_price (tran t).

Definition GetOperatingSourceAddress (t : TransactionFrm) : string :=
  let i := processing_operation_ t in
  if (i <? 0) || (Z.of_nat (length (tx_operations (tran t))) <=? i) then ""
  else match tx_operations (tran t) !! Z.to_nat i with
       | Some ope => if negb (empty (op_source_address ope)) then op_source_address ope
                     else tx_source_address (tran t)
       | None => ""
       end.

(** The source account of an operation: its own or that of the transaction. *)
Definition ope_source (t : TransactionFrm) (ope : Operation) : string :=
  if negb (empty (op_source_address ope)) then op_source_address ope else GetSourceAddress t.

Definition AddActualGas (gas : Z) (t : TransactionFrm) : TransactionFrm :=
  set_actual_gas (s64 (actual_gas_ t + gas)) t.
Definition SetMaxEndTime (e : Z) (t : TransactionFrm) : TransactionFrm := set_deadline (enable_check_ t) e t.
Definition EnableChecked (t : TransactionFrm) : TransactionFrm := set_deadline true (max_end_time_ t) t.
Definition ContractStepInc (step : Z) (t : TransactionFrm) : TransactionFrm :=
  set_limits (s32 (contract_step_ t + step)) (contract_memory_usage_ t) (contract_stack_max_vaule_ t)
    (contract_stack_usage_ t) t.
Definition SetMemoryUsage (usage : Z) (t : TransactionFrm) : TransactionFrm :=
  set_limits (contract_step_ t) usage (contract_stack_max_vaule_ t) (contract_stack_usage_ t) t.
Definition SetStackRemain (remain : Z) (t : TransactionFrm) : TransactionFrm :=
  let m := Z.max (contract_stack_max_vaule_ t) remain in
  set_limits (contract_step_ t) (contract_memory_usage_ t) m (s64 (m - remain)) t.

Section Frame.
Context `{P : LedgerParams}.

(** [TransactionFrm::TransactionFrm(env)] with [Initialize]: the addresses of the
    valid signatures. *)
Definition Initialize (env : TransactionEnv) : TransactionFrm :=
  let t := te_transaction env in
  let valid_sig := fun s => pubkey_valid (sig_public_key s) && Verify t (sig_sign_data s) (sig_public_key s) in
  let valid := list_to_set (map (fun s => pubkey_address (sig_public_key s))
                 (List.filter valid_sig (te_signatures env))) in
  MkTxFrm env (tx_hash t) valid SUCCESS 0 false 0 0 0 0 0 0 0 false [].

(** [IsExpire]; the clock is read when the step limit is not exceeded. *)
Definition IsExpire (t : TransactionFrm) : LM (bool * TransactionFrm) :=
  let expired := (true, set_result CONTRACT_EXECUTE_EXPIRED t) in
  if negb (enable_check_ t) then mret (false, t)
  else if CONTRACT_STEP_LIMIT <? contract_step_ t then mret expired
  else
    now ← HighResolution;
    if negb (max_end_time_ t =? 0) && (max_end_time_ t <? now) then mret expired
    else if CONTRACT_MEMORY_LIMIT <? contract_memory_usage_ t then mret expired
    else if CONTRACT_STACK_LIMIT <? contract_stack_usage_ t then mret expired
    else mret (false, t).

(** [GetSelfGas]: bytes plus the gas of each operation. *)
Definition GetSelfGas (t : TransactionFrm) : Z :=
  foldl (fun g op => s64 (g + GetOperationTypeGas op)) (ByteSize (transaction_env_ t))
    (tx_operations (tran t)).

(** [SignerHashPriv]: the weights of the valid signers against the threshold. *)
Fixpoint signers_loop (valid : gset string) (threshold : Z) (l : list Signer) : bool :=
  match l with
  | [] => false
  | signer :: l' =>
      let threshold := if bool_decide (sg_address signer ∈ valid)
                       then s64 (threshold - sg_weight signer) else threshold in
      if threshold <=? 0 then true else signers_loop valid threshold l'
  end.

Definition SignerHashPriv (t : TransactionFrm) (account : AccountFrm) (type : Z) : bool :=
  let priv := ac_priv (account_info_ account) in
  let threshold := th_tx_threshold (pv_thresholds priv) in
  let type_threshold := GetTypeThreshold type account in
  let threshold := if 0 <? type_threshold then type_threshold else threshold in
  let threshold := if bool_decide (GetAccountAddress account ∈ valid_signature_ t)
                   then s64 (threshold - pv_master_weight priv) else threshold in
  if threshold <=? 0 then true else signers_loop (valid_signature_ t) threshold (pv_signers priv).

(** [CheckFee]: the code of the failure, [None] when it returns true. *)
Definition CheckFee (t : TransactionFrm) (gas_price fee_limit : Z) (source : AccountFrm) : LM (option Z) :=
  let '(ok, limit_balance) := SafeIntSub (GetAccountBalance source) fee_limit 0 in
  if negb ok then mret (Some MATH_OVERFLOW)
  else if limit_balance <? cfg_base_reserve then mret (Some ACCOUNT_LOW_RESERVE)
  else
    r ← on_outcome (SafeIntMul (GetSelfGas t) gas_price 0);
    let '(ok, tx_fee) := r : bool * Z in
    if negb ok then mret (Some INVALID_PARAMETER)
    else if fee_limit <? tx_fee then mret (Some FEE_NOT_ENOUGH) else mret None.
End Frame.
