(* ===== verification/Operation.v ===== *)
(** * Operations

    [OperationFrm] (src/ledger/operation_frm.cpp): the checks of an operation's
    parameters and the application of each kind of operation to the accounts.
    An operation's result is its error code; [me] is the position of its
    transaction in the stack, [d] the depth of the environment, and [src] the
    pointer to the source account ([source_account_]). *)
From S2P Require Import Prelude Uint128 Strings AtomMap Account Chain TxFrame.
Import U128.

Open Scope string_scope.
Open Scope Z_scope.

(** The block an operation runs in: the consensus value, the height and the mode. *)
Record BlockInfo := MkBlock {
  bi_ledger_seq : Z; bi_close_time : Z; bi_header_seq : Z; bi_test_mode : bool }.

Section Operation.
Context `{P : LedgerParams} (blk : BlockInfo).

(** ** Parameter checks *)

Definition isReservedAddress (addr : string) : bool := bool_decide (addr ∈ RESERVED_ADDRESSES).
Definition ReservedAddrAvailable (src dest : string) : bool :=
  if isReservedAddress dest && negb (bool_decide (src = RESERVED_CREATOR_ADDRESS))
     && negb (bool_decide (is_Some (AccountFromDB dest))) then false else true.

Definition weight_invalid (w : Z) : bool := (w <? 0) || (UINT32_MAX <? w).

(** The loop over the signers of a new account and of SetPrivilege. *)
Fixpoint check_signers (self : string) (duplicate_set : gset string) (l : list Signer) : Z :=
  match l with
  | [] => SUCCESS
  | signer :: l' =>
      if weight_invalid (sg_weight signer) then WEIGHT_NOT_VALID
      else if bool_decide (sg_address signer = self) then INVALID_ADDRESS
      else if negb (IsAddressValid (sg_address signer)) then INVALID_ADDRESS
      else if bool_decide (sg_address signer ∈ duplicate_set) then INVALID_PARAMETER
      else check_signers self ({[ sg_address signer ]} ∪ duplicate_set) l'
  end.

(** The loop over the thresholds by operation type of a new account and of SetPrivilege. *)
Fixpoint check_types (duplicate_type : gset Z) (l : list OperationTypeThreshold) : Z :=
  match l with
  | [] => SUCCESS
  | t :: l' =>
      if (100 <? tt_type t) || (tt_type t <=? 0) then INVALID_PARAMETER
      else if tt_threshold t <? 0 then THRESHOLD_NOT_VALID
      else if bool_decide (tt_type t ∈ duplicate_type) then INVALID_PARAMETER
      else check_types ({[ tt_type t ]} ∪ duplicate_type) l'
  end.

(** The loop over the metadata of a new account; [result] is set, not returned. *)
Definition check_metadatas (result : Z) (l : list KeyPair) : Z :=
  foldl (fun result kp =>
    let result := if (size (kp_key kp) =? 0) || (METADATA_KEY_MAXSIZE <? size (kp_key kp))
                  then INVALID_PARAMETER else result in
    if METADATA_MAX_VALUE_SIZE <? size (kp_value kp) then INVALID_PARAMETER else result) result l.

(** [create_account] for ledgers up to version 1000. *)
Definition CheckCreateAccount (ca : OperationCreateAccount) (source_address : string) (stack_size : Z) : Z :=
  let dest := ca_dest_address ca in
  if negb (IsAddressValid dest) then INVALID_ADDRESS
  else if negb (ReservedAddrAvailable source_address dest) then INVALID_ADDRESS
  else
  match ca_priv ca with
  | None => INVALID_PARAMETER
  | Some priv =>
      if weight_invalid (pv_master_weight priv) then WEIGHT_NOT_VALID
      else
      let rs := check_signers dest ∅ (pv_signers priv) in
      if negb (rs =? SUCCESS) then rs
      else
      match pv_thresholds_opt priv with
      | None => INVALID_PARAMETER
      | Some threshold =>
          if th_tx_threshold threshold <? 0 then THRESHOLD_NOT_VALID
          else
          let result := check_types ∅ (th_type_thresholds threshold) in
          if negb (empty (ca_payload ca)) then
            if CONTRACT_CODE_LIMIT <? size (ca_payload ca) then INVALID_PARAMETER
            else if negb ((pv_master_weight priv =? 0) && bool_decide (pv_signers priv = [])
                          && (th_tx_threshold threshold =? 1) && bool_decide (th_type_thresholds threshold = []))
            then INVALID_PARAMETER
            else check_metadatas (SourceCodeCheck (ca_payload ca) stack_size) (ca_metadatas ca)
          else check_metadatas result (ca_metadatas ca)
      end
  end.

Definition CheckCreateAccountGt1000 (ca : OperationCreateAccount) (stack_size : Z) : Z :=
  let is_create_contract := negb (empty (ca_payload ca)) in
  let dest := ca_dest_address ca in
  let has_dest_address := negb (empty dest) in
  let unimportant_address := negb (bool_decide (dest = GET_CONTRACT_VALIDATOR_ADDRESS))
                             && negb (bool_decide (dest = GET_CONTRACT_FEE_ADDRESS)) in
  if is_create_contract && has_dest_address && unimportant_address then INVALID_ADDRESS
  else if negb is_create_contract && negb (IsAddressValid dest) then INVALID_ADDRESS
  else
  match ca_priv ca with
  | None => INVALID_PARAMETER
  | Some priv =>
      if weight_invalid (pv_master_weight priv) then WEIGHT_NOT_VALID
      else
      match pv_thresholds_opt priv with
      | None => INVALID_PARAMETER
      | Some threshold =>
          if th_tx_threshold threshold <? 0 then THRESHOLD_NOT_VALID
          else
          let result := check_types ∅ (th_type_thresholds threshold) in
          let plain := bool_decide (pv_signers priv = []) && (th_tx_threshold threshold =? 1)
                       && bool_decide (th_type_thresholds threshold = []) in
          if is_create_contract then
            if CONTRACT_CODE_LIMIT <? size (ca_payload ca) then INVALID_PARAMETER
            else if negb ((pv_master_weight priv =? 0) && plain) then INVALID_PARAMETER
            else check_metadatas (SourceCodeCheck (ca_payload ca) stack_size) (ca_metadatas ca)
          else
            if negb ((pv_master_weight priv =? 1) && plain) then INVALID_PARAMETER
            else check_metadatas result (ca_metadatas ca)
      end
  end.

Definition CheckSetPrivilege (sp : OperationSetPrivilege) (source_address : string) : Z :=
  let master_bad :=
    if negb (empty (sp_master_weight sp)) then
      match Strings.SafeStoi64 (lit (sp_master_weight sp)) with
      | Some w => weight_invalid w
      | None => true
      end
    else false in
  if master_bad then WEIGHT_NOT_VALID
  else
  let rs := check_signers source_address ∅ (sp_signers sp) in
  if negb (rs =? SUCCESS) then rs
  else
  let tx_bad :=
    if negb (empty (sp_tx_threshold sp)) then
      match Strings.SafeStoi64 (lit (sp_tx_threshold sp)) with
      | Some t => t <? 0
      | None => true
      end
    else false in
  if tx_bad then THRESHOLD_NOT_VALID
  else check_types ∅ (sp_type_thresholds sp).

Definition CheckPayAsset (pa : OperationPayAsset) (source_address : string) : Z :=
  let asset_check :=
    match pa_asset pa with
    | None => SUCCESS
    | Some a =>
        let key := as_asset_key a in
        if negb (ak_type key =? 0) then ASSET_INVALID
        else if as_asset_amount a <=? 0 then ASSET_INVALID
        else if (size (ak_code key) =? 0) || (ASSET_CODE_MAX_SIZE <? size (ak_code key)) then ASSET_INVALID
        else if negb (IsAddressValid (ak_issuer key)) then ASSET_INVALID
        else SUCCESS
    end in
  if negb (asset_check =? SUCCESS) then asset_check
  else if bool_decide (source_address = pa_dest_address pa) then ACCOUNT_SOURCEDEST_EQUAL
  else if negb (IsAddressValid (pa_dest_address pa)) then INVALID_ADDRESS
  else SUCCESS.

Definition CheckIssueAsset (ia : OperationIssueAsset) : Z :=
  if ia_amount ia <=? 0 then ASSET_INVALID
  else
    let trim_code := Strings.Trim (lit (ia_code ia)) in
    let n := Z.of_nat (length trim_code) in
    if (n =? 0) || (ASSET_CODE_MAX_SIZE <? n) || negb (n =? size (ia_code ia)) then ASSET_INVALID
    else SUCCESS.

(** The loop over the signers of SetSignerWeight, which has no duplicate check. *)
Fixpoint check_signer_weights (self : string) (l : list Signer) : Z :=
  match l with
  | [] => SUCCESS
  | signer :: l' =>
      if weight_invalid (sg_weight signer) then WEIGHT_NOT_VALID
      else if bool_decide (sg_address signer = self) then INVALID_ADDRESS
      else if negb (IsAddressValid (sg_address signer)) then INVALID_ADDRESS
      else check_signer_weights self l'
  end.
Fixpoint check_type_thresholds (l : list OperationTypeThreshold) : Z :=
  match l with
  | [] => SUCCESS
  | t :: l' =>
      if (100 <? tt_type t) || (tt_type t <=? 0) then THRESHOLD_NOT_VALID
      else if tt_threshold t <? 0 then THRESHOLD_NOT_VALID
      else check_type_thresholds l'
  end.

Definition CheckSetMetadata (sm : OperationSetMetadata) : Z :=
  if (size (sm_key sm) =? 0) || (METADATA_KEY_MAXSIZE <? size (sm_key sm)) then INVALID_PARAMETER
  else if METADATA_MAX_VALUE_SIZE <? size (sm_value sm) then INVALID_PARAMETER
  else SUCCESS.

Definition CheckSetSignerWeight (sw : OperationSetSignerWeight) (source_address : string) : Z :=
  if (sw_master_weight sw <? -1) || (UINT32_MAX <? sw_master_weight sw) then WEIGHT_NOT_VALID
  else check_signer_weights source_address (sw_signers sw).

Definition CheckSetThreshold (st : OperationSetThreshold) : Z :=
  if st_tx_threshold st <? -1 then THRESHOLD_NOT_VALID
  else check_type_thresholds (st_type_thresholds st).

Definition CheckPayCoin (pc : OperationPayCoin) (source_address : string) : Z :=
  if pc_amount pc <? 0 then INVALID_PARAMETER
  else if bool_decide (source_address = pc_dest_address pc) then ACCOUNT_SOURCEDEST_EQUAL
  else if negb (IsAddressValid (pc_dest_address pc)) then INVALID_ADDRESS
  else if negb (ReservedAddrAvailable source_address (pc_dest_address pc)) then INVALID_ADDRESS
  else SUCCESS.

Definition CheckLog (lg : OperationLog) : Z :=
  if (size (lg_topic lg) =? 0) || (TRANSACTION_LOG_TOPIC_MAXSIZE <? size (lg_topic lg)) then INVALID_PARAMETER
  else if existsb (fun x => (size x =? 0) || (TRANSACTION_LOG_DATA_MAXSIZE <? size x)) (lg_datas lg)
  then INVALID_PARAMETER
  else SUCCESS.

(** The two sentinel values of the generated enum. *)
Definition is_sentinel (t : Z) : bool := (t =? -2147483648) || (t =? 2147483647).

(** [OperationFrm::CheckValid] *)
Definition CheckValid (operation : Operation) (source_address : string) (stack_size : Z) : Z :=
  let t := op_type operation in
  if negb (IsAddressValid source_address) then INVALID_ADDRESS
  else if bool_decide (source_address ∈ forbid_addrs) then INVALID_ADDRESS
  else if t =? CREATE_ACCOUNT then
    let ca := op_create_account operation in
    if CHECK_VERSION_GT_1000 then
      if negb (ReservedAddrAvailable source_address (ca_dest_address ca)) then INVALID_ADDRESS
      else CheckCreateAccountGt1000 ca stack_size
    else CheckCreateAccount ca source_address stack_size
  else if t =? PAY_ASSET then CheckPayAsset (op_pay_asset operation) source_address
  else if t =? ISSUE_ASSET then CheckIssueAsset (op_issue_asset operation)
  else if t =? SET_METADATA then CheckSetMetadata (op_set_metadata operation)
  else if t =? SET_SIGNER_WEIGHT then CheckSetSignerWeight (op_set_signer_weight operation) source_address
  else if t =? SET_THRESHOLD then CheckSetThreshold (op_set_threshold operation)
  else if t =? PAY_COIN then CheckPayCoin (op_pay_coin operation) source_address
  else if t =? LOG then CheckLog (op_log operation)
  else if t =? SET_PRIVILEGE then CheckSetPrivilege (op_set_privilege operation) source_address
  else if is_sentinel t then SUCCESS
  else INVALID_PARAMETER.

(** ** Application *)

(** [CheckSignature]: [None] when it returns true. *)
Definition CheckSignature (d me : nat) (operation : Operation) : LM (option Z) :=
  transaction ← get_tx me;
  p ← GetEntry d (ope_source transaction operation);
  match p with
  | None => mret (Some ACCOUNT_NOT_EXIST)
  | Some l =>
      source_account ← read_account l;
      if SignerHashPriv transaction source_account (op_type operation)
      then mret None else mret (Some INVALID_SIGNATURE)
  end.

(** The parameters of a contract run by the operation of transaction [me]. *)
Definition contract_parameter (me : nat) (src : loc) (code input this_address : string) (init : bool)
  (coin_amount : Z) (asset : option Asset) : LM ContractParameter :=
  bottom_tx ← GetBottomTx;
  transaction ← get_tx me;
  source_account ← read_account src;
  mret (MkContractParameter code input this_address init
          (bi_ledger_seq blk) (bi_close_time blk)
          (GetOperatingSourceAddress bottom_tx) (GetSourceAddress bottom_tx) (GetFeeLimit bottom_tx)
          (GetGasPrice bottom_tx) (text (Strings.BinToHexString (lit (hash_ bottom_tx))))
          coin_amount asset (GetSourceAddress transaction) (GetNonce transaction)
          (processing_operation_ transaction) (GetAccountAddress source_account)).

(** [ContractManager::Execute]; the call is recorded. *)
Definition run_contract (parameter : ContractParameter) : LM Z := hemit parameter ;; Execute parameter.

(** [ChangeCreateContractAmount]: the amount before the call is 0. *)
Definition ChangeCreateContractAmount (init_amount changed_amount : Z) : Z :=
  if CHECK_VERSION_GT_1001 then init_amount else changed_amount.

(** The metadata of a new account; [None] on a wrong version. *)
Fixpoint init_metadatas (l : list KeyPair) (a : AccountFrm) : option AccountFrm :=
  match l with
  | [] => Some a
  | kp :: l' =>
      if negb (kp_version kp =? 0) && negb (kp_version kp =? 1) then None
      else init_metadatas l' (Account.SetMetaData (MkKeyPair (kp_key kp) (kp_value kp) 1) a)
  end.

Definition CreateAccount (d me : nat) (src : loc) (index : Z) (ca : OperationCreateAccount) : LM Z :=
  transaction ← get_tx me;
  let dest_address :=
    if empty (ca_dest_address ca)
    then contract_address (GetSourceAddress transaction) (GetNonce transaction) index
    else ca_dest_address ca in
  p ← GetEntry d dest_address;
  match p with
  | Some _ => mret ACCOUNT_DEST_EXIST
  | None =>
      if ca_init_balance ca <? cfg_base_reserve then mret ACCOUNT_INIT_LOW_RESERVE
      else
      source_account ← read_account src;
      let '(ok, limit_balance) := SafeIntSub (GetAccountBalance source_account) cfg_base_reserve 0 in
      if negb ok then mret MATH_OVERFLOW
      else if limit_balance <? ca_init_balance ca then mret ACCOUNT_LOW_RESERVE
      else
      let '(ok, source_account) := AddBalance (s64 (-1 * ca_init_balance ca)) source_account in
      if negb ok then mret MATH_OVERFLOW
      else
      write_account src source_account ;;
      let account := MkAccount dest_address 0 (default Priv0 (ca_priv ca)) "" "" (Some (ca_contract ca))
                       (ca_init_balance ca) in
      match init_metadatas (ca_metadatas ca) (new_frm account) with
      | None => mret INVALID_DATAVERSION
      | Some dest_account =>
          frm ← new_account dest_account;
          AddEntry d (GetAccountAddress dest_account) frm ;;
          if negb (empty (ca_payload ca)) then
            parameter ← contract_parameter me src (ac_contract_payload (account_info_ dest_account))
                          (ca_init_input ca) dest_address true
                          (ChangeCreateContractAmount (ca_init_balance ca) 0) None;
            code ← run_contract parameter;
            (if code =? 0 then hmod (set_contract_result (address_result dest_address)) else mret tt) ;;
            mret code
          else mret SUCCESS
      end
  end.

Definition IssueAsset (src : loc) (ope : OperationIssueAsset) : LM Z :=
  source_account ← read_account src;
  let key := MkAssetKey (GetAccountAddress source_account) (ia_code ope) 0 in
  let '(asset_e, source_account) := GetAsset asset_trie key source_account in
  write_account src source_account ;;
  match asset_e with
  | None =>
      write_account src (SetAsset (MkAssetStore key (ia_amount ope)) source_account) ;;
      mret SUCCESS
  | Some asset_e =>
      let '(ok, amount) := SafeIntAdd (as_amount asset_e) (ia_amount ope) 0 in
      if negb ok then mret MATH_OVERFLOW
      else
      write_account src (SetAsset (MkAssetStore (as_key asset_e) amount) source_account) ;;
      mret SUCCESS
  end.

(** [PayAsset], the transfer between the two accounts. *)
Definition transfer_asset (src dest : loc) (asset : Asset) : LM Z :=
  let key := as_asset_key asset in
  source_account ← read_account src;
  let '(asset_e, source_account) := GetAsset asset_trie key source_account in
  write_account src source_account ;;
  match asset_e with
  | None => mret ACCOUNT_ASSET_LOW_RESERVE
  | Some asset_e =>
      if ak_type key =? 0 then
        let '(ok, sender_amount) := SafeIntSub (as_amount asset_e) (as_asset_amount asset) 0 in
        if negb ok then mret MATH_OVERFLOW
        else if sender_amount <? 0 then mret ACCOUNT_ASSET_LOW_RESERVE
        else
        write_account src (SetAsset (MkAssetStore (as_key asset_e) sender_amount) source_account) ;;
        dest_account ← read_account dest;
        let '(dest_asset, dest_account) := GetAsset asset_trie key dest_account in
        write_account dest dest_account ;;
        match dest_asset with
        | None =>
            write_account dest (SetAsset (MkAssetStore key (as_asset_amount asset)) dest_account) ;;
            mret SUCCESS
        | Some dest_asset =>
            let '(ok, receiver_amount) := SafeIntAdd (as_amount dest_asset) (as_asset_amount asset) 0 in
            if negb ok then mret MATH_OVERFLOW
            else
            write_account dest (SetAsset (MkAssetStore (as_key dest_asset) receiver_amount) dest_account) ;;
            mret SUCCESS
        end
      else mret ASSET_INVALID
  end.

Definition PayAsset (d me : nat) (src : loc) (pa : OperationPayAsset) : LM Z :=
  p ← GetEntry d (pa_dest_address pa);
  match p with
  | None => mret ACCOUNT_NOT_EXIST
  | Some dest =>
      r ← match pa_asset pa with
          | None => mret SUCCESS
          | Some asset => transfer_asset src dest asset
          end;
      if negb (r =? SUCCESS) then mret r
      else
      dest_account ← read_account dest;
      let javascript := ac_contract_payload (account_info_ dest_account) in
      if negb (empty javascript) then
        parameter ← contract_parameter me src javascript (pa_input pa) (pa_dest_address pa) false 0
                      (pa_asset pa);
        run_contract parameter
      else mret SUCCESS
  end.

Definition SetMetaData (src : loc) (ope : OperationSetMetadata) : LM Z :=
  let key := sm_key ope in
  let version := sm_version ope in
  source_account ← read_account src;
  let '(keypair_e, source_account) := GetMetaData metadata_trie key source_account in
  write_account src source_account ;;
  if sm_delete_flag ope then
    match keypair_e with
    | Some keypair_e =>
        if negb (version =? 0) && negb (kp_version keypair_e =? version) then mret INVALID_DATAVERSION
        else if empty key then mret INVALID_PARAMETER
        else write_account src (DeleteMetaData keypair_e source_account) ;; mret SUCCESS
    | None => mret NOT_EXIST
    end
  else
    match keypair_e with
    | Some keypair_e =>
        if negb (version =? 0) && negb (s64 (kp_version keypair_e + 1) =? version) then mret INVALID_DATAVERSION
        else
        write_account src (Account.SetMetaData
          (MkKeyPair (kp_key keypair_e) (sm_value ope) (s64 (kp_version keypair_e + 1))) source_account) ;;
        mret SUCCESS
    | None =>
        if negb (version =? 1) && negb (version =? 0) then mret INVALID_DATAVERSION
        else
        write_account src (Account.SetMetaData (MkKeyPair (sm_key ope) (sm_value ope) 1) source_account) ;;
        mret SUCCESS
    end.

Definition update_signers (l : list Signer) (a : AccountFrm) : AccountFrm :=
  foldl (fun a s => (UpdateSigner (sg_address s) (sg_weight s) a).2) a l.
Definition update_type_thresholds (l : list OperationTypeThreshold) (a : AccountFrm) : AccountFrm :=
  foldl (fun a t => (UpdateTypeThreshold (tt_type t) (tt_threshold t) a).2) a l.

Definition SetSignerWeight (src : loc) (ope : OperationSetSignerWeight) : LM Z :=
  a ← read_account src;
  let a := if 0 <=? sw_master_weight ope then SetProtoMasterWeight (sw_master_weight ope) a else a in
  write_account src (update_signers (sw_signers ope) a) ;;
  mret SUCCESS.

Definition SetThreshold (src : loc) (ope : OperationSetThreshold) : LM Z :=
  a ← read_account src;
  let a := if 0 <=? st_tx_threshold ope then SetProtoTxThreshold (st_tx_threshold ope) a else a in
  write_account src (update_type_thresholds (st_type_thresholds ope) a) ;;
  mret SUCCESS.

(** [PayCoin], from the subtraction on. *)
Definition move_coins (me : nat) (src dest : loc) (ope : OperationPayCoin) : LM Z :=
  source_account ← read_account src;
  let '(ok, src_balance) := SafeIntSub (GetAccountBalance source_account) (pc_amount ope) 0 in
  if negb ok then mret MATH_OVERFLOW
  else
  write_account src (map_info (set_balance src_balance) source_account) ;;
  dest_account ← read_account dest;
  let '(ok, dest_balance) := SafeIntAdd (GetAccountBalance dest_account) (pc_amount ope) 0 in
  if negb ok then mret MATH_OVERFLOW
  else
  write_account dest (map_info (set_balance dest_balance) dest_account) ;;
  let javascript := ac_contract_payload (account_info_ dest_account) in
  if negb (empty javascript) then
    parameter ← contract_parameter me src javascript (pc_input ope) (pc_dest_address ope) false
                  (pc_amount ope) None;
    run_contract parameter
  else mret SUCCESS.

(** [PayCoin]; balances are read again through the pointers before each step. *)
Definition PayCoin (d me : nat) (src : loc) (ope : OperationPayCoin) : LM Z :=
  let '(ok, min_balance) := SafeIntAdd (pc_amount ope) cfg_base_reserve 0 in
  if negb ok then mret MATH_OVERFLOW
  else
  source_account ← read_account src;
  if GetAccountBalance source_account <? min_balance then mret ACCOUNT_LOW_RESERVE
  else
  p ← GetEntry d (pc_dest_address ope);
  dest ← match p with
         | Some dest => mret (Some dest)
         | None =>
             if pc_amount ope <? cfg_base_reserve then mret None
             else
             dest ← new_account (new_frm (MkAccount (pc_dest_address ope) 0
                      (MkPriv 1 [] (Some (MkThreshold 1 []))) "" "" None 0));
             AddEntry d (pc_dest_address ope) dest ;;
             mret (Some dest)
         end;
  match dest with
  | None => mret ACCOUNT_INIT_LOW_RESERVE
  | Some dest => move_coins me src dest ope
  end.

Definition Log : LM Z := mret SUCCESS.

Definition SetPrivilege (src : loc) (ope : OperationSetPrivilege) : LM Z :=
  a ← read_account src;
  let a := if negb (empty (sp_master_weight ope)) then
             let w := Strings.Stoi64 (lit (sp_master_weight ope)) in
             if 0 <=? w then SetProtoMasterWeight w a else a
           else a in
  let a := update_signers (sp_signers ope) a in
  let a := if negb (empty (sp_tx_threshold ope)) then
             let t := Strings.Stoi64 (lit (sp_tx_threshold ope)) in
             if 0 <=? t then SetProtoTxThreshold t a else a
           else a in
  write_account src (update_type_thresholds (sp_type_thresholds ope) a) ;;
  mret SUCCESS.

(** [OperationFrm::Apply]; the operation's result starts as success. *)
Definition Apply (d me : nat) (index : Z) (operation : Operation) : LM Z :=
  transaction ← get_tx me;
  p ← GetEntry d (ope_source transaction operation);
  match p with
  | None => mret ACCOUNT_NOT_EXIST
  | Some src =>
      let t := op_type operation in
      if t =? 0 then mret SUCCESS
      else if t =? CREATE_ACCOUNT then CreateAccount d me src index (op_create_account operation)
      else if t =? PAY_ASSET then PayAsset d me src (op_pay_asset operation)
      else if t =? ISSUE_ASSET then IssueAsset src (op_issue_asset operation)
      else if t =? SET_METADATA then SetMetaData src (op_set_metadata operation)
      else if t =? SET_SIGNER_WEIGHT then SetSignerWeight src (op_set_signer_weight operation)
      else if t =? SET_THRESHOLD then SetThreshold src (op_set_threshold operation)
      else if t =? PAY_COIN then PayCoin d me src (op_pay_coin operation)
      else if t =? LOG then Log
      else if t =? SET_PRIVILEGE then SetPrivilege src (op_set_privilege operation)
      else if is_sentinel t then mret SUCCESS
      else mret INVALID_PARAMETER
  end.
End Operation.
