(* ===== verification/Transaction.v ===== *)
(** * Transactions

    [TransactionFrm] (src/ledger/transaction_frm.cpp): the validity checks, fees,
    nonce and application of a transaction, and [LedgerManager::DoTransaction]
    (src/ledger/ledger_manager.cpp), the transactions a contract triggers. A frame
    that is not on the stack yet is passed and returned; one on the stack is
    named by its position [me]. *)
From S2P Require Import Prelude Uint128 Strings AtomMap Account Chain TxFrame Operation.
Import U128.

Open Scope string_scope.
Open Scope Z_scope.

Section Transaction.
Context `{P : LedgerParams} (blk : BlockInfo).

(** ** Validity *)

(** The loop of [ValidForParameter] over the operations: the last result and
    whether all passed. *)
Fixpoint check_operations (t : TransactionFrm) (stack_size : Z) (l : list Operation) : bool * Z :=
  match l with
  | [] => (true, result_ t)
  | ope :: l' =>
      let source := ope_source t ope in
      if negb (IsAddressValid source) then (false, INVALID_ADDRESS)
      else if METADATA_MAX_VALUE_SIZE <? size (op_metadata ope) then (false, INVALID_PARAMETER)
      else
        let result := CheckValid ope source stack_size in
        if negb (result =? SUCCESS) then (false, result)
        else check_operations (set_result result t) stack_size l'
  end.

Definition ValidForParameter (t : TransactionFrm) (stack_size : Z) : bool * TransactionFrm :=
  let fail := fun code => (false, set_result code t) in
  let n := Z.of_nat (length (tx_operations (tran t))) in
  let ceil := tx_ceil_ledger_seq (tran t) in
  let current_ledger_seq := if ledger_ t then bi_ledger_seq blk else s64 (last_closed_seq + 1) in
  if TRANSACTION_LIMIT_SIZE <=? ByteSize (transaction_env_ t) then fail TX_SIZE_TOO_BIG
  else if n =? 0 then fail MISSING_OPERATIONS
  else if MAX_OPERATIONS_NUM_PER_TRANSACTION <? n then fail TOO_MANY_OPERATIONS
  else if METADATA_MAX_VALUE_SIZE <? size (tx_metadata (tran t)) then fail INVALID_PARAMETER
  else if (0 <? ceil) && (ceil <? current_ledger_seq) then fail INVALID_PARAMETER
  else if ceil <? 0 then fail INVALID_PARAMETER
  else if (stack_size =? 0) && (tx_fee_limit (tran t) <? 0) then fail INVALID_PARAMETER
  else if (stack_size =? 0) && (tx_gas_price (tran t) <? Z.max 0 cfg_gas_price) then fail INVALID_PARAMETER
  else
    let '(ok, code) := check_operations t stack_size (tx_operations (tran t)) in
    (ok, set_result code t).

Definition ValidForApply (d : nat) (check_priv : bool) (t : TransactionFrm) : LM (bool * TransactionFrm) :=
  let '(ok, t) := ValidForParameter t 0 in
  if negb ok then mret (false, t)
  else
  p ← GetEntry d (GetSourceAddress t);
  match p with
  | None => mret (false, set_result ACCOUNT_NOT_EXIST t)
  | Some l =>
      source_account ← read_account l;
      if negb (s64 (GetAccountNonce source_account + 1) =? GetNonce t)
      then mret (false, set_result BAD_SEQUENCE t)
      else if check_priv && negb (SignerHashPriv t source_account (-1))
      then mret (false, set_result INVALID_SIGNATURE t)
      else
      r ← CheckFee t (GetGasPrice t) (GetFeeLimit t) source_account;
      match r with
      | Some code => mret (false, set_result code t)
      | None => mret (true, t)
      end
  end.

(** [CheckValid], run when a transaction enters the pool: the frame's verdict and
    the account's nonce (its output parameter, [None] when not set). *)
Definition tx_CheckValid (last_seq : Z) (check_priv : bool) (t : TransactionFrm)
  : LM (bool * TransactionFrm * option Z) :=
  match AccountFromDB (GetSourceAddress t) with
  | None => mret (false, set_result ACCOUNT_NOT_EXIST t, None)
  | Some source_account =>
      let nonce := GetAccountNonce source_account in
      let fail := fun code => mret (false, set_result code t, Some nonce) in
      if GetNonce t <=? nonce then fail BAD_SEQUENCE
      else if negb (tx_chain_id (tran t) =? self_chain_id) then fail INVALID_PARAMETER
      else
      let '(ok, t) := ValidForParameter t 0 in
      if negb ok then mret (false, t, Some nonce)
      else if (last_seq =? 0) && negb (GetNonce t =? s64 (nonce + 1)) then fail BAD_SEQUENCE
      else if (0 <? last_seq) && negb (GetNonce t =? s64 (last_seq + 1)) then fail BAD_SEQUENCE
      else if check_priv && negb (SignerHashPriv t source_account (-1)) then fail INVALID_SIGNATURE
      else
      r ← CheckFee t (GetGasPrice t) (GetFeeLimit t) source_account;
      match r with
      | Some code => fail code
      | None => mret (true, t, Some nonce)
      end
  end.

(** ** Fees and nonce *)

Definition PayFee (d : nat) (t : TransactionFrm) : LM (bool * TransactionFrm) :=
  let fee := GetFeeLimit t in
  p ← GetEntry d (GetSourceAddress t);
  match p with
  | None => mret (false, set_result ACCOUNT_NOT_EXIST t)
  | Some l =>
      s ← hget;
      let '(ok, new_total_fee) := SafeIntAdd (total_fee_ s) fee 0 in
      if negb ok then mret (false, set_result MATH_OVERFLOW t)
      else
      hmod (set_total_fee new_total_fee) ;;
      source_account ← read_account l;
      let '(ok, new_balance) := SafeIntSub (GetAccountBalance source_account) fee 0 in
      if negb ok then mret (false, set_result MATH_OVERFLOW t)
      else
      write_account l (map_info (set_balance new_balance) source_account) ;;
      mret (true, t)
  end.

Definition ReturnFee (me : nat) : LM bool :=
  t ← get_tx me;
  r ← on_outcome (SafeIntMul (actual_gas_ t) (GetGasPrice t) 0);
  let '(ok, actual_fee) := r : bool * Z in
  if negb ok then mod_tx me (set_result MATH_OVERFLOW) ;; mret false
  else
  let '(ok, fee) := SafeIntSub (GetFeeLimit t) actual_fee 0 in
  if negb ok then mod_tx me (set_result MATH_OVERFLOW) ;; mret false
  else if negb (result_ t =? 0) || (fee <=? 0) then mret false
  else
  p ← GetEntry (environment_ t) (GetSourceAddress t);
  match p with
  | None => mod_tx me (set_result ACCOUNT_NOT_EXIST) ;; mret false
  | Some l =>
      s ← hget;
      let '(ok, total_fee) := SafeIntSub (total_fee_ s) fee (total_fee_ s) in
      if negb ok then mod_tx me (set_result MATH_OVERFLOW) ;; mret false
      else
      hmod (set_total_fee total_fee) ;;
      source_account ← read_account l;
      let '(ok, new_balance) := SafeIntAdd (GetAccountBalance source_account) fee 0 in
      if negb ok then mod_tx me (set_result MATH_OVERFLOW) ;; mret false
      else
      write_account l (map_info (set_balance new_balance) source_account) ;;
      mret true
  end.

Definition NonceIncrease (d me : nat) : LM unit :=
  t ← get_tx me;
  p ← GetEntry d (GetSourceAddress t);
  match p with
  | None => mod_tx me (set_result ACCOUNT_NOT_EXIST)
  | Some l => a ← read_account l; write_account l (NonceIncrease_ a)
  end.

(** [AddActualFee]: the gas of [me] counts for the bottom transaction. *)
Definition AddActualFee (me : nat) : LM bool :=
  t ← get_tx me;
  mod_tx 0 (AddActualGas (GetSelfGas t)) ;;
  bottom_tx ← GetBottomTx;
  r ← on_outcome (SafeIntMul (actual_gas_ bottom_tx) (GetGasPrice bottom_tx) 0);
  let '(ok, actual_fee) := r : bool * Z in
  if negb ok then mod_tx me (set_result MATH_OVERFLOW) ;; mret false
  else if GetFeeLimit bottom_tx <? actual_fee then mod_tx me (set_result FEE_NOT_ENOUGH) ;; mret false
  else mret true.

(** ** Application *)

(** The loop of [Apply] over the operations from position [i] on. *)
Fixpoint apply_operations (d me : nat) (check : bool) (i : Z) (l : list Operation) : LM bool :=
  match l with
  | [] => mod_tx me (set_processing i) ;; mret true
  | ope :: l' =>
      mod_tx me (set_processing i) ;;
      sig ← (if check then CheckSignature d me ope else mret None);
      match sig with
      | Some code => mod_tx me (set_result code) ;; mret false
      | None =>
          result ← Operation.Apply blk d me i ope;
          if negb (result =? 0) then mod_tx me (set_result result) ;; mret false
          else apply_operations d me check (i + 1) l'
      end
  end.

Definition tx_Apply (d me : nat) (bool_contract : bool) : LM bool :=
  mod_tx me (attach d) ;;
  ret ← AddActualFee me;
  if negb ret then mret false
  else
  t ← get_tx me;
  apply_operations d me (negb bool_contract && negb (bi_test_mode blk)) 0 (tx_operations (tran t)).

Definition ApplyExpireResult (me : nat) : LM unit := mod_tx me (set_result CONTRACT_EXECUTE_EXPIRED).

(** ** Transactions triggered by contracts *)

Definition CheckContractDepthSafe (tx_size : Z) : bool :=
  if CHECK_VERSION_GT_1001 then true
  else if tx_size <? CONTRACT_MAX_RECURSIVE_DEPTH then true else false.

Definition set_tx_nonce (n : Z) (env : TransactionEnv) : TransactionEnv :=
  let t := te_transaction env in
  MkTxEnv (MkTransaction (tx_source_address t) n (tx_fee_limit t) (tx_gas_price t)
             (tx_ceil_ledger_seq t) (tx_metadata t) (tx_operations t) (tx_chain_id t)) (te_signatures env).

(** [LedgerManager::DoTransaction]. The new transaction runs in an environment
    stacked on that of the top transaction; both go when it leaves the stack. *)
Definition DoTransaction (env : TransactionEnv) : LM Z :=
  s ← hget;
  let me := length (transaction_stack_ s) in
  let stack_size := Z.of_nat (me + stack_repeats) in
  let top := (me - 1)%nat in
  top_tx ← get_tx top;
  p ← GetEntry (environment_ top_tx) (tx_source_address (te_transaction env));
  source_account ← on_env (deref p);
  let new_tx := Initialize (set_tx_nonce (s64 (GetAccountNonce source_account + 1)) env) in
  if negb (CheckContractDepthSafe stack_size) then
    mod_tx 0 (AddActualGas (GetSelfGas new_tx)) ;;
    mod_tx top (add_instructions [MkTxStore (transaction_env_ new_tx) CONTRACT_TOO_MANY_RECURSION]) ;;
    mret CONTRACT_TOO_MANY_RECURSION
  else
  push_tx new_tx ;;
  NonceIncrease (environment_ top_tx) me ;;
  new_tx ← get_tx me;
  let '(ok, new_tx') := ValidForParameter new_tx (stack_size + 1) in
  mod_tx me (fun _ => new_tx') ;;
  (if ok then NewStackFrameEnv ;; tx_Apply (S (environment_ top_tx)) me true
   else AddActualFee me) ;;
  new_tx ← get_tx me;
  let code := result_ new_tx in
  let drop_env := if ok then end_env else mret tt in
  if (code =? FEE_NOT_ENOUGH) || (code =? CONTRACT_TOO_MANY_TRANSACTIONS) then
    (if CHECK_VERSION_GT_1002 then drop_env ;; pop_tx else mret tt) ;;
    mret code
  else
    (if code =? SUCCESS then
       mod_tx top (add_instructions (instructions_ new_tx)) ;;
       env_Commit (environment_ new_tx) ;; mret tt
     else mret tt) ;;
    mod_tx top (add_instructions [MkTxStore (transaction_env_ new_tx) code]) ;;
    drop_env ;;
    pop_tx ;;
    mret code.
End Transaction.
