(* ===== verification/Ledger.v ===== *)
(** * Closing a ledger

    [LedgerFrm] (src/ledger/ledger_frm.cpp): a block of transactions is applied in
    one of three modes (proposing, checking a proposal, following a decided
    value), then the fees and the block reward are paid out. *)
From S2P Require Import Prelude Uint128 Strings AtomMap Account Chain TxFrame Operation Transaction.
From stdpp Require Import sorting.
Import U128.

Open Scope string_scope.
Open Scope Z_scope.

(** [ConsensusValueValidation]: the transactions that expired or failed. *)
Record ConsensusValueValidation := MkValidation { expire_tx_ids : list Z; error_tx_ids : list Z }.

(** The part of [ConsensusValue] the ledger reads. *)
Record ConsensusValue := MkValue {
  cv_txs : list TransactionEnv; cv_validation : option ConsensusValueValidation }.

(** [GetBlockReward] (src/common/general.cpp): less by a quarter every period. *)
Definition REWARD_PERIOD : Z := (5 * 365 * 24 * 60 * 60) / 10.
Definition REWARD_INIT_VALUE : Z := 8 * 100000000.
Definition reward_step (result : Z) : Z :=
  if result <? 4 then Z.quot (result * 3) 4 else result - Z.shiftr result 2.
Fixpoint reward_loop (periods : nat) (result : Z) : Z :=
  match periods with
  | O => result
  | S p => if result <=? 0 then 0 else reward_loop p (reward_step result)
  end.
Definition GetBlockReward (cur_block_height : Z) : Z :=
  let period_index := Z.quot cur_block_height REWARD_PERIOD in
  reward_loop (Z.to_nat period_index) REWARD_INIT_VALUE.

(** [CheckConsValueValidation]: the two sets, [None] when it returns false. *)
Fixpoint check_ids (tx_size : Z) (total : gset Z) (status : gset Z) (l : list Z) : option (gset Z * gset Z) :=
  match l with
  | [] => Some (total, status)
  | tid :: l' =>
      if (tx_size <=? tid) || (tid <? 0) then None
      else if bool_decide (tid ∈ total) then None
      else check_ids tx_size ({[ tid ]} ∪ total) ({[ tid ]} ∪ status) l'
  end.
Definition CheckConsValueValidation (request : ConsensusValue) : option (gset Z * gset Z) :=
  match cv_validation request with
  | None => Some (∅, ∅)
  | Some v =>
      let tx_size := Z.of_nat (length (cv_txs request)) in
      match check_ids tx_size ∅ ∅ (expire_tx_ids v) with
      | None => None
      | Some (total, expire) =>
          match check_ids tx_size total ∅ (error_tx_ids v) with
          | None => None
          | Some (_, error) => Some (expire, error)
          end
      end
  end.

(** [SetValidationToProto]: the ids in increasing order. *)
Definition SetValidationToProto (expire_txs error_txs : gset Z) : ConsensusValueValidation :=
  MkValidation (merge_sort Z.le (elements expire_txs)) (merge_sort Z.le (elements error_txs)).

Section Ledger.
Context `{P : LedgerParams} (blk : BlockInfo).

(** What a mode records: the transactions applied, dropped, expired and failed. *)
Record BlockLog := MkLogs {
  applied : list TransactionFrm; dropped : list TransactionFrm;
  need_dropped : gset Z; expire_txs : gset Z; error_txs : gset Z }.
Definition no_logs : BlockLog := MkLogs [] [] ∅ ∅ ∅.
Definition log_applied (t : TransactionFrm) (b : BlockLog) : BlockLog :=
  MkLogs (applied b ++ [t]) (dropped b) (need_dropped b) (expire_txs b) (error_txs b).
Definition log_dropped (i : Z) (t : TransactionFrm) (b : BlockLog) : BlockLog :=
  MkLogs (applied b) (dropped b ++ [t]) ({[ i ]} ∪ need_dropped b) (expire_txs b) (error_txs b).
Definition log_expired (i : Z) (b : BlockLog) : BlockLog :=
  MkLogs (applied b) (dropped b) (need_dropped b) ({[ i ]} ∪ expire_txs b) (error_txs b).
Definition log_error (i : Z) (b : BlockLog) : BlockLog :=
  MkLogs (applied b) (dropped b) (need_dropped b) (expire_txs b) ({[ i ]} ∪ error_txs b).

(** The steps of the three loops from [push_back] of a transaction whose fee is
    paid to its application: the nonce and the fee are committed first. The result is
    the position of the transaction in the stack. *)
Definition start_transaction (t : TransactionFrm) : LM nat :=
  s ← hget;
  let me := length (transaction_stack_ s) in
  push_tx t ;;
  NonceIncrease 0 me ;;
  env_Commit 0 ;;
  mret me.

(** [EnableChecked], [SetMaxEndTime] and [Apply] of proposing and checking, and the
    end of the round: [Some true] when it expired, [Some false] when it failed. *)
Definition apply_checked (me : nat) : LM (option bool) :=
  mod_tx me EnableChecked ;;
  now ← HighResolution;
  mod_tx me (SetMaxEndTime (s64 (now + TX_EXECUTE_TIME_OUT))) ;;
  ret ← tx_Apply blk 0 me false;
  t ← get_tx me;
  r ← IsExpire t;
  let '(expired, t) := r : bool * TransactionFrm in
  mod_tx me (fun _ => t) ;;
  if expired then mret (Some true)
  else if negb ret then mret (Some false)
  else
    ReturnFee me ;;
    env_Commit 0 ;;
    mret None.

(** [ClearChangeBuf], [apply_tx_frms_.push_back], [pop_back]. *)
Definition end_transaction (me : nat) (b : BlockLog) : LM BlockLog :=
  env_ClearChangeBuf 0 ;;
  t ← get_tx me;
  pop_tx ;;
  mret (log_applied t b).

(** ** Rewards *)

(** The loop over the validators: each gets the average; the pointer of the one at
    [random_index] is kept. [None] when a balance overflows. *)
Fixpoint reward_validators (i random_index average_fee left_reward : Z) (random_account : option loc)
  (l : list string) : LM (option (Z * option loc)) :=
  match l with
  | [] => mret (Some (left_reward, random_account))
  | addr :: l' =>
      p ← GetEntry 0 addr;
      account ← match p with
                | Some account => mret account
                | None =>
                    account ← new_account (CreatAccountFrm addr 0);
                    AddEntry 0 addr account ;;
                    mret account
                end;
      let random_account := if random_index =? i then Some account else random_account in
      let left_reward := s64 (left_reward - average_fee) in
      a ← read_account account;
      let '(ok, new_balance) := SafeIntAdd (GetAccountBalance a) average_fee 0 in
      if negb ok then mret None
      else
      write_account account (map_info (set_balance new_balance) a) ;;
      reward_validators (i + 1) random_index average_fee left_reward random_account l'
  end.

Definition AllocateRewardDirectly (total_reward : Z) : LM bool :=
  match GetValidators (s64 (bi_header_seq blk - 1)) with
  | None => mret false
  | Some set =>
      if bool_decide (set = []) then mret false
      else
      let n := Z.of_nat (length set) in
      let random_index := Z.rem (bi_header_seq blk) n in
      let average_fee := Z.quot total_reward n in
      r ← reward_validators 0 random_index average_fee total_reward None set;
      match r with
      | None => mret false
      | Some (left_reward, random_account) =>
          if 0 <? left_reward then
            a ← on_env (deref random_account);
            let '(ok, new_balance) := SafeIntAdd (GetAccountBalance a) left_reward 0 in
            if negb ok then mret false
            else
            match random_account with
            | Some l => write_account l (map_info (set_balance new_balance) a) ;; mret true
            | None => hthrow Trap
            end
          else mret true
      end
  end.

Definition AllocateReward : LM bool :=
  s ← hget;
  let block_reward := GetBlockReward (bi_header_seq blk) in
  let total_reward := s64 (total_fee_ s + block_reward) in
  if (total_reward =? 0) || bi_test_mode blk then mret true
  else
  ok ← (if CHECK_VERSION_GT_1002 then
          p ← GetEntry 0 GET_CONTRACT_VALIDATOR_ADDRESS;
          match p with
          | Some l =>
              a ← read_account l;
              let '(ok, new_balance) := SafeIntAdd (GetAccountBalance a) total_reward 0 in
              if negb ok then mret false
              else write_account l (map_info (set_balance new_balance) a) ;; mret true
          | None => AllocateRewardDirectly total_reward
          end
        else AllocateRewardDirectly total_reward);
  if negb ok then mret false
  else env_Commit 0 ;; mret true.

(** ** The three modes *)

(** The loop of [ApplyPropose]: [None] when the block takes too long. *)
Fixpoint propose_loop (start_time i : Z) (b : BlockLog) (l : list TransactionEnv) : LM (option BlockLog) :=
  match l with
  | [] => mret (Some b)
  | txproto :: l' =>
      let tx_frm := Initialize txproto in
      v ← ValidForApply blk 0 (negb (bi_test_mode blk)) tx_frm;
      let '(valid, tx_frm) := v : bool * TransactionFrm in
      if negb valid then propose_loop start_time (i + 1) (log_dropped i tx_frm b) l'
      else
      f ← PayFee 0 tx_frm;
      let '(paid, tx_frm) := f : bool * TransactionFrm in
      if negb paid then propose_loop start_time (i + 1) (log_dropped i tx_frm b) l'
      else
      me ← start_transaction tx_frm;
      r ← apply_checked me;
      let id := i - Z.of_nat (base.size (need_dropped b)) in
      let b := match r with
               | Some true => log_expired id b
               | Some false => log_error id b
               | None => b
               end in
      b ← end_transaction me b;
      now ← HighResolution;
      if BLOCK_EXECUTE_TIME_OUT <? s64 (now - start_time) then mret None
      else propose_loop start_time (i + 1) b l'
  end.

(** [ApplyPropose]: the logs and the validation, [None] when it returns false. *)
Definition ApplyPropose (request : ConsensusValue) : LM (option (BlockLog * ConsensusValueValidation)) :=
  start_time ← HighResolution;
  hmod (fun s => set_total_fee 0 (fresh_environment s)) ;;
  if bool_decide (is_Some (cv_validation request)) then mret None
  else
  r ← propose_loop start_time 0 no_logs (cv_txs request);
  match r with
  | None => mret None
  | Some b =>
      AllocateReward ;;
      mret (Some (b, SetValidationToProto (expire_txs b) (error_txs b)))
  end.

Fixpoint check_loop (start_time i : Z) (b : BlockLog) (l : list TransactionEnv) : LM (option BlockLog) :=
  match l with
  | [] => mret (Some b)
  | txproto :: l' =>
      let tx_frm := Initialize txproto in
      v ← ValidForApply blk 0 (negb (bi_test_mode blk)) tx_frm;
      let '(valid, tx_frm) := v : bool * TransactionFrm in
      if negb valid then mret None
      else
      f ← PayFee 0 tx_frm;
      let '(paid, tx_frm) := f : bool * TransactionFrm in
      if negb paid then mret None
      else
      me ← start_transaction tx_frm;
      r ← apply_checked me;
      let b := match r with
               | Some true => log_expired i b
               | Some false => log_error i b
               | None => b
               end in
      b ← end_transaction me b;
      now ← HighResolution;
      if BLOCK_EXECUTE_TIME_OUT <? s64 (now - start_time) then mret None
      else check_loop start_time (i + 1) b l'
  end.

(** [ApplyCheck] *)
Definition ApplyCheck (request : ConsensusValue) : LM bool :=
  start_time ← HighResolution;
  hmod (fun s => set_total_fee 0 (fresh_environment s)) ;;
  match CheckConsValueValidation request with
  | None => mret false
  | Some (expire_check, error_check) =>
      r ← check_loop start_time 0 no_logs (cv_txs request);
      match r with
      | None => mret false
      | Some b =>
          AllocateReward ;;
          mret (bool_decide (expire_txs b = expire_check) && bool_decide (error_txs b = error_check))
      end
  end.

Fixpoint follow_loop (expire_check : gset Z) (i : Z) (b : BlockLog) (l : list TransactionEnv) : LM BlockLog :=
  match l with
  | [] => mret b
  | txproto :: l' =>
      let tx_frm := Initialize txproto in
      f ← PayFee 0 tx_frm;
      let '(paid, tx_frm) := f : bool * TransactionFrm in
      if negb paid then follow_loop expire_check (i + 1) b l'
      else
      me ← start_transaction tx_frm;
      b ← (if bool_decide (i ∈ expire_check) then ApplyExpireResult me ;; mret b
           else
             ret ← tx_Apply blk 0 me false;
             if negb ret then mret (log_error i b)
             else ReturnFee me ;; env_Commit 0 ;; mret b);
      b ← end_transaction me b;
      follow_loop expire_check (i + 1) b l'
  end.

(** [ApplyFollow]: it returns true after following the value. *)
Definition ApplyFollow (request : ConsensusValue) : LM (option BlockLog) :=
  HighResolution ;;
  hmod (fun s => set_total_fee 0 (fresh_environment s)) ;;
  match CheckConsValueValidation request with
  | None => mret None
  | Some (expire_check, _) =>
      b ← follow_loop expire_check 0 no_logs (cv_txs request);
      AllocateReward ;;
      mret (Some b)
  end.
End Ledger.
