(* ===== verification/EnvFacts.v ===== *)
(** * Reasoning about environments

    The accounts as seen through the environment at depth [d] are a function from
    addresses to accounts ([V]). The lemmas say how the operations of an
    environment read and change that function, and which pointers stay valid. *)
From S2P Require Import Prelude AtomMap AtomMapFacts Account Chain.
From Stdlib Require Import FunctionalExtensionality.

Abbreviation lview := (string -> option AccountFrm).

Section EnvFacts.
Context `{P : LedgerParams}.
Implicit Types (s : LState) (d : nat) (k : string) (l : loc) (a : AccountFrm).

Definition upd k a (v : lview) : lview := fun k' => if decide (k = k') then Some a else v k'.

Lemma upd_upd k a a' v : upd k a' (upd k a v) = upd k a' v.
Proof. apply functional_extensionality. intros k'. unfold upd. by case_decide. Qed.

Lemma upd_same k a v : upd k a v k = Some a.
Proof. unfold upd. by rewrite decide_True. Qed.

Lemma upd_other k k' a v : k' <> k -> upd k a v k' = v k'.
Proof. intros. unfold upd. by rewrite decide_False. Qed.

(** The accounts seen at depth [d], and those committed below it. *)
Definition V d s : lview := view AccountFromDB (env_ s) d.
Definition VB d s : lview := base_view AccountFromDB (env_ s) d.

Definition ok d s : Prop := wf (env_ s) /\ (S d < length (maps_ (env_ s)))%nat /\ alive (env_ s).

(** [l] points to the account [a] held under [k] in the buffer of depth [d]. *)
Definition pts d s k l a : Prop := owned (env_ s) (S d) k l /\ heap_ (env_ s) !! l = Some a.

(** Only the buffer of depth [d] changes. *)
Definition step d s s' : Prop :=
  others_same (S d) (env_ s) (env_ s') /\ transaction_stack_ s' = transaction_stack_ s
  /\ total_fee_ s' = total_fee_ s /\ ticks_ s' = ticks_ s.

#[export] Instance step_preorder d : PreOrder (step d).
Proof.
  split; [by intros s; repeat split|].
  intros s1 s2 s3 ([L1 C1] & A1 & B1 & D1) ([L2 C2] & A2 & B2 & D2).
  repeat split; try congruence. intros j k Hj. by rewrite C2, C1.
Qed.

Lemma step_VB d s s' : step d s s' -> VB d s' = VB d s.
Proof.
  intros ([_ Hc] & _). apply functional_extensionality. intros k. unfold VB, base_view.
  by rewrite Hc by lia.
Qed.

(** An owned object is live, and what the view shows. *)
Lemma owned_live (e : Store string AccountFrm) i k l : wf e -> owned e i k l ->
  exists a, heap_ e !! l = Some a /\ content e i k = Some (Some a).
Proof.
  intros Hw (r & Hr & Hl). destruct (decide (type_ r = DEL)) as [Ht|Ht].
  - by rewrite (wf_del _ Hw _ _ _ Hr Ht) in Hl.
  - destruct (wf_ptr _ Hw _ _ _ Hr Ht) as (l' & a & Hl' & Ha). simplify_eq. exists a.
    split; [done|]. by eapply content_live.
Qed.

Lemma pts_V d s k l a : ok d s -> pts d s k l a -> V d s k = Some a.
Proof.
  intros [Hw _] [Ho Ha]. destruct (owned_live _ _ _ _ Hw Ho) as (a' & Ha' & Hc). simplify_eq.
  unfold V, view. by rewrite Hc.
Qed.

Lemma owned_pts d s k l : ok d s -> owned (env_ s) (S d) k l -> exists a, pts d s k l a.
Proof. intros [Hw _] Ho. destruct (owned_live _ _ _ _ Hw Ho) as (a & Ha & _). by exists a. Qed.

Lemma pts_keep d s s' k l a : ok d s -> ok d s' -> V d s' k = V d s k ->
  owned (env_ s') (S d) k l -> pts d s k l a -> pts d s' k l a.
Proof.
  intros Hs Hs' HV Ho Hp. destruct (owned_pts d s' k l Hs' Ho) as [a' Hp'].
  rewrite (pts_V d s k l a), (pts_V d s' k l a') in HV by done. by simplify_eq.
Qed.

Lemma GetEntry_run d k s : ok d s -> exists p s', GetEntry d k s = Returns (p, s', [])
  /\ ok d s' /\ step d s s' /\ V d s' = V d s
  /\ (forall k' l a, pts d s k' l a -> pts d s' k' l a)
  /\ match p with
     | Some l => exists a, V d s k = Some a /\ pts d s' k l a
     | None => V d s k = None
     end.
Proof.
  intros Hok. destruct Hok as (Hw & Hd & Hal). unfold GetEntry, on_env.
  destruct (Get_run (E := ContractParameter) AccountFromDB d k (env_ s) Hw Hd)
    as (p & e & Hr & Hw' & Ho & Hv & Hp).
  rewrite Hr. exists p, (set_env e s).
  assert (Hok : ok d s) by done.
  assert (Hok' : ok d (set_env e s)) by (split_and!; [done|cbn; destruct Ho; lia|exact (Get_alive _ _ _ _ _ _ _ Hw Hd Hal Hr)]).
  assert (HV : V d (set_env e s) = V d s) by (apply functional_extensionality, Hv).
  split_and!; try done.
  - intros k' l a Hpt. apply (pts_keep d s); [done|done|by rewrite HV| |done].
    cbn. eapply Get_owned; [exact Hd|exact Hr|]. by destruct Hpt.
  - destruct p as [l|]; [|done]. destruct Hp as (Hown & a & Ha & Hva). exists a. by split.
Qed.

Lemma read_account_run d s k l a : pts d s k l a -> read_account l s = Returns (a, s, []).
Proof.
  intros [_ Ha]. unfold read_account, on_env, deref. cbn. rewrite Ha. by destruct s.
Qed.

Lemma write_account_run d s k l a a' : ok d s -> pts d s k l a ->
  exists s', write_account l a' s = Returns (tt, s', []) /\ ok d s' /\ step d s s'
    /\ V d s' = upd k a' (V d s) /\ pts d s' k l a'
    /\ (forall k' l' a'', k' <> k -> pts d s k' l' a'' -> pts d s' k' l' a'').
Proof.
  intros (Hw & Hd & Hal) [Ho Ha]. eexists. split; [reflexivity|].
  destruct (assign_spec (env_ s) (S d) k l a' Hw Ho) as [Hw' Hc]; [by exists a|].
  set (e := MkStore (<[l := a']> (heap_ (env_ s))) (next_ (env_ s)) (maps_ (env_ s))) in *.
  assert (Hok' : ok d (set_env e s)).
  { split_and!; [done|done|]. intros j k'. cbn. rewrite Hc. case_decide; [done|apply Hal]. }
  assert (HV : V d (set_env e s) = upd k a' (V d s)).
  { apply functional_extensionality. intros k'. unfold V, view, upd. cbn. rewrite !Hc.
    rewrite (decide_False (P := S d = d /\ k = k')) by lia.
    destruct (decide (k = k')) as [->|]; [by rewrite decide_True|by rewrite decide_False by naive_solver]. }
  split_and!; try done.
  - repeat split; try done. intros j k' Hj. cbn. rewrite Hc, decide_False; [done|]. by intros [<- _].
  - split; [done|]. cbn. by rewrite lookup_insert_eq.
  - intros k' l' a'' Hk [Ho' Ha']. split; [done|]. cbn. rewrite lookup_insert_ne; [done|].
    intros <-. destruct Ho as (r & Hr & Hl), Ho' as (r' & Hr' & Hl').
    by destruct (wf_own _ Hw _ _ _ _ _ _ _ Hr Hr' Hl Hl').
Qed.

(** [make_shared] followed by [AddEntry]. *)
Lemma add_account_run d s k a : ok d s ->
  exists l s1 s', new_account a s = Returns (l, s1, []) /\ AddEntry d k l s1 = Returns (true, s', [])
    /\ ok d s' /\ step d s s' /\ V d s' = upd k a (V d s) /\ pts d s' k l a
    /\ (forall k' l' a'', k' <> k -> pts d s k' l' a'' -> pts d s' k' l' a'').
Proof.
  intros (Hw & Hd & Hal). eexists _, _, _. split; [reflexivity|]. split; [reflexivity|].
  destruct (store_new_spec (env_ s) (S d) k MOD a Hw Hd) as (Hw' & Hlen & Ho & Hh & Hc); [done|].
  change (set_env _ _) with (set_env (store_new (S d) k MOD a (env_ s)) s).
  set (e := store_new (S d) k MOD a (env_ s)) in *.
  assert (Hok' : ok d (set_env e s)).
  { split_and!; [done|change (S d < length (maps_ e))%nat; lia|]. intros j k'. cbn. rewrite Hc.
    case_decide; [done|apply Hal]. }
  assert (HV : V d (set_env e s) = upd k a (V d s)).
  { apply functional_extensionality. intros k'. unfold V, view, upd. cbn. rewrite !Hc.
    rewrite (decide_False (P := S d = d /\ k = k')) by lia.
    destruct (decide (k = k')) as [->|]; [by rewrite decide_True|by rewrite decide_False by naive_solver]. }
  split_and!; try done.
  - repeat split; try done. intros j k' Hj. cbn. rewrite Hc, decide_False; [done|]. by intros [<- _].
  - intros k' l' a'' Hk Hp. apply (pts_keep d s); [done|done| | |done].
    + rewrite HV. unfold upd. by rewrite decide_False.
    + destruct Hp as [(r & Hr & Hl) _]. exists r. split; [|done]. cbn. unfold e, store_new.
      rewrite lookup_set_rec by done. rewrite decide_False; [done|]. naive_solver.
Qed.

(** The settings do not matter to the accounts. *)
Lemma on_settings_run {A} (m : hm (Store string Json) ContractParameter A) s x e :
  m (settings_ s) = Returns (x, e, []) -> on_settings m s = Returns (x, set_settings e s, []).
Proof. intros E. unfold on_settings. by rewrite E. Qed.

Lemma env_Commit_run d s : ok d s ->
  exists s', env_Commit d s = Returns (true, s', []) /\ ok d s' /\ V d s' = V d s /\ VB d s' = V d s
    /\ transaction_stack_ s' = transaction_stack_ s /\ total_fee_ s' = total_fee_ s /\ ticks_ s' = ticks_ s.
Proof.
  intros (Hw & Hd & Hal). unfold env_Commit.
  erewrite hbind_nil by apply on_settings_run, Commit_run. unfold on_env. rewrite Commit_run.
  change (env_ (set_settings _ s)) with (env_ s).
  destruct (commit_store_wf (env_ s) d Hw Hd) as (Hw' & Hlen & Hc).
  eexists. split; [reflexivity|]. split.
  { split_and!; [exact Hw'|cbn [env_ set_env set_settings]; rewrite Hlen; exact Hd|]. intros j k.
    cbn [env_ set_env set_settings]. rewrite Hc. repeat case_decide; try done; [|apply Hal..].
    destruct (content (env_ s) (S d) k) eqn:Ec; [|apply Hal]. rewrite <- Ec. apply Hal. }
  split_and!; try done; apply functional_extensionality; intros k; unfold V, VB, view, base_view; cbn [env_ set_env set_settings];
    rewrite !Hc; repeat case_decide; try lia; try done; by destruct (content (env_ s) (S d) k).
Qed.

Lemma env_ClearChangeBuf_run d s : ok d s ->
  exists s', env_ClearChangeBuf d s = Returns (tt, s', []) /\ ok d s' /\ V d s' = VB d s /\ VB d s' = VB d s
    /\ transaction_stack_ s' = transaction_stack_ s /\ total_fee_ s' = total_fee_ s /\ ticks_ s' = ticks_ s.
Proof.
  intros (Hw & Hd & Hal). destruct (clear_spec (env_ s) d Hw Hd) as (Hw' & Hlen & Hc).
  eexists. split; [reflexivity|]. split.
  { split_and!; [exact Hw'|cbn [env_ set_env set_settings]; rewrite Hlen; exact Hd|]. intros j k.
    cbn [env_ set_env set_settings]. rewrite Hc. case_decide; [done|apply Hal]. }
  split_and!; try done; apply functional_extensionality; intros k; unfold V, VB, view, base_view; cbn [env_ set_env set_settings];
    rewrite !Hc; by repeat (case_decide; try lia).
Qed.

(** The view of a fresh environment is the database. *)
Lemma empty_env s : env_ s = empty_store -> ok 0 s /\ V 0 s = AccountFromDB /\ VB 0 s = AccountFromDB.
Proof.
  intros He. unfold ok, V, VB. rewrite He. split.
  { split_and!; [apply empty_wf|cbn; lia|]. intros [|[|j]] k; done. }
  split; apply functional_extensionality; intros k; done.
Qed.

(** A change that keeps the environment keeps what is seen through it. *)
Lemma same_env d s s' : env_ s' = env_ s ->
  (ok d s -> ok d s') /\ V d s' = V d s /\ VB d s' = VB d s
  /\ (forall k l a, pts d s k l a -> pts d s' k l a).
Proof. intros He. unfold ok, V, VB, pts. by rewrite He. Qed.
End EnvFacts.
