(* ===== verification/LedgerSpec.v ===== *)
(** * The abstract ledger

    What operations and transactions promise, on a plain function from addresses to
    accounts: no pointers, no buffers, no stack. [None] stands for an execution
    that runs a contract. *)
From S2P Require Import Prelude Uint128 Strings AtomMap Account Chain TxFrame Operation Transaction EnvFacts.
Import U128.

Open Scope string_scope.
Open Scope Z_scope.

Section Spec.
Context `{P : LedgerParams} (blk : BlockInfo).
Implicit Types (v : lview) (ks : string) (t : TransactionFrm).

Definition spec_result := option (Z * lview).
Definition fails (code : Z) v : spec_result := Some (code, v).
Definition done v : spec_result := Some (SUCCESS, v).

(** Runs [f] on the account under a key that exists. *)
Definition with_account {A} v ks (f : AccountFrm -> option A) : option A :=
  match v ks with Some a => f a | None => None end.

Definition spec_CreateAccount v ks t (index : Z) (ca : OperationCreateAccount) : spec_result :=
  let dest := if empty (ca_dest_address ca) then contract_address (GetSourceAddress t) (GetNonce t) index
              else ca_dest_address ca in
  with_account v ks (fun a =>
  match v dest with
  | Some _ => fails ACCOUNT_DEST_EXIST v
  | None =>
      if ca_init_balance ca <? cfg_base_reserve then fails ACCOUNT_INIT_LOW_RESERVE v
      else
      let '(ok, limit_balance) := SafeIntSub (GetAccountBalance a) cfg_base_reserve 0 in
      if negb ok then fails MATH_OVERFLOW v
      else if limit_balance <? ca_init_balance ca then fails ACCOUNT_LOW_RESERVE v
      else
      let '(ok, a) := AddBalance (s64 (-1 * ca_init_balance ca)) a in
      if negb ok then fails MATH_OVERFLOW v
      else
      let v := upd ks a v in
      match init_metadatas (ca_metadatas ca) (new_frm (MkAccount dest 0 (default Priv0 (ca_priv ca)) "" ""
                                                 (Some (ca_contract ca)) (ca_init_balance ca))) with
      | None => fails INVALID_DATAVERSION v
      | Some dest_account =>
          let v := upd (GetAccountAddress dest_account) dest_account v in
          if negb (empty (ca_payload ca)) then None else done v
      end
  end).

Definition spec_IssueAsset v ks (ope : OperationIssueAsset) : spec_result :=
  with_account v ks (fun a =>
  let key := MkAssetKey (GetAccountAddress a) (ia_code ope) 0 in
  let '(asset_e, a) := GetAsset asset_trie key a in
  match asset_e with
  | None => done (upd ks (SetAsset (MkAssetStore key (ia_amount ope)) a) v)
  | Some asset_e =>
      let '(ok, amount) := SafeIntAdd (as_amount asset_e) (ia_amount ope) 0 in
      if negb ok then fails MATH_OVERFLOW (upd ks a v)
      else done (upd ks (SetAsset (MkAssetStore (as_key asset_e) amount) a) v)
  end).

Definition spec_transfer_asset v ks kd (asset : Asset) : spec_result :=
  let key := as_asset_key asset in
  with_account v ks (fun a =>
  let '(asset_e, a) := GetAsset asset_trie key a in
  match asset_e with
  | None => fails ACCOUNT_ASSET_LOW_RESERVE (upd ks a v)
  | Some asset_e =>
      if ak_type key =? 0 then
        let '(ok, sender_amount) := SafeIntSub (as_amount asset_e) (as_asset_amount asset) 0 in
        if negb ok then fails MATH_OVERFLOW (upd ks a v)
        else if sender_amount <? 0 then fails ACCOUNT_ASSET_LOW_RESERVE (upd ks a v)
        else
        let v := upd ks (SetAsset (MkAssetStore (as_key asset_e) sender_amount) a) v in
        with_account v kd (fun b =>
        let '(dest_asset, b) := GetAsset asset_trie key b in
        match dest_asset with
        | None => done (upd kd (SetAsset (MkAssetStore key (as_asset_amount asset)) b) v)
        | Some dest_asset =>
            let '(ok, receiver_amount) := SafeIntAdd (as_amount dest_asset) (as_asset_amount asset) 0 in
            if negb ok then fails MATH_OVERFLOW (upd kd b v)
            else done (upd kd (SetAsset (MkAssetStore (as_key dest_asset) receiver_amount) b) v)
        end)
      else fails ASSET_INVALID (upd ks a v)
  end).

(** A contract at the destination runs after a successful payment. *)
Definition then_contract kd (r : spec_result) : spec_result :=
  match r with
  | None => None
  | Some (code, v) =>
      if negb (code =? SUCCESS) then Some (code, v)
      else with_account v kd (fun b =>
        if negb (empty (ac_contract_payload (account_info_ b))) then None else done v)
  end.

Definition spec_PayAsset v ks (pa : OperationPayAsset) : spec_result :=
  let kd := pa_dest_address pa in
  match v kd with
  | None => fails ACCOUNT_NOT_EXIST v
  | Some _ =>
      then_contract kd (match pa_asset pa with
                        | None => done v
                        | Some asset => spec_transfer_asset v ks kd asset
                        end)
  end.

Definition spec_SetMetaData v ks (ope : OperationSetMetadata) : spec_result :=
  with_account v ks (fun a =>
  let version := sm_version ope in
  let '(keypair_e, a) := GetMetaData metadata_trie (sm_key ope) a in
  let keep := fun code => fails code (upd ks a v) in
  if sm_delete_flag ope then
    match keypair_e with
    | Some kp =>
        if negb (version =? 0) && negb (kp_version kp =? version) then keep INVALID_DATAVERSION
        else if empty (sm_key ope) then keep INVALID_PARAMETER
        else done (upd ks (DeleteMetaData kp a) v)
    | None => keep NOT_EXIST
    end
  else
    match keypair_e with
    | Some kp =>
        if negb (version =? 0) && negb (s64 (kp_version kp + 1) =? version) then keep INVALID_DATAVERSION
        else done (upd ks (Account.SetMetaData
               (MkKeyPair (kp_key kp) (sm_value ope) (s64 (kp_version kp + 1))) a) v)
    | None =>
        if negb (version =? 1) && negb (version =? 0) then keep INVALID_DATAVERSION
        else done (upd ks (Account.SetMetaData (MkKeyPair (sm_key ope) (sm_value ope) 1) a) v)
    end).

Definition privileged (ope : OperationSetPrivilege) (a : AccountFrm) : AccountFrm :=
  let a := if negb (empty (sp_master_weight ope)) then
             let w := Strings.Stoi64 (lit (sp_master_weight ope)) in
             if 0 <=? w then SetProtoMasterWeight w a else a
           else a in
  let a := update_signers (sp_signers ope) a in
  let a := if negb (empty (sp_tx_threshold ope)) then
             let w := Strings.Stoi64 (lit (sp_tx_threshold ope)) in
             if 0 <=? w then SetProtoTxThreshold w a else a
           else a in
  update_type_thresholds (sp_type_thresholds ope) a.

Definition weighted (ope : OperationSetSignerWeight) (a : AccountFrm) : AccountFrm :=
  update_signers (sw_signers ope)
    (if 0 <=? sw_master_weight ope then SetProtoMasterWeight (sw_master_weight ope) a else a).

Definition thresholded (ope : OperationSetThreshold) (a : AccountFrm) : AccountFrm :=
  update_type_thresholds (st_type_thresholds ope)
    (if 0 <=? st_tx_threshold ope then SetProtoTxThreshold (st_tx_threshold ope) a else a).

Definition change_account (f : AccountFrm -> AccountFrm) v ks : spec_result :=
  with_account v ks (fun a => done (upd ks (f a) v)).

Definition fresh_account (address : string) : AccountFrm :=
  new_frm (MkAccount address 0 (MkPriv 1 [] (Some (MkThreshold 1 []))) "" "" None 0).

Definition spec_move_coins v ks kd (amount : Z) : spec_result :=
  with_account v ks (fun a =>
  let '(ok, src_balance) := SafeIntSub (GetAccountBalance a) amount 0 in
  if negb ok then fails MATH_OVERFLOW v
  else
  let v := upd ks (map_info (set_balance src_balance) a) v in
  with_account v kd (fun b =>
  let '(ok, dest_balance) := SafeIntAdd (GetAccountBalance b) amount 0 in
  if negb ok then fails MATH_OVERFLOW v
  else
  let v := upd kd (map_info (set_balance dest_balance) b) v in
  if negb (empty (ac_contract_payload (account_info_ b))) then None else done v)).

Definition spec_PayCoin v ks (ope : OperationPayCoin) : spec_result :=
  let kd := pc_dest_address ope in
  with_account v ks (fun a =>
  let '(ok, min_balance) := SafeIntAdd (pc_amount ope) cfg_base_reserve 0 in
  if negb ok then fails MATH_OVERFLOW v
  else if GetAccountBalance a <? min_balance then fails ACCOUNT_LOW_RESERVE v
  else
  match v kd with
  | Some _ => spec_move_coins v ks kd (pc_amount ope)
  | None =>
      if pc_amount ope <? cfg_base_reserve then fails ACCOUNT_INIT_LOW_RESERVE v
      else spec_move_coins (upd kd (fresh_account kd) v) ks kd (pc_amount ope)
  end).

(** An operation of the transaction [t] at position [index]. *)
Definition spec_Apply v t (index : Z) (operation : Operation) : spec_result :=
  let ks := ope_source t operation in
  let ty := op_type operation in
  match v ks with
  | None => fails ACCOUNT_NOT_EXIST v
  | Some _ =>
      if ty =? 0 then done v
      else if ty =? CREATE_ACCOUNT then spec_CreateAccount v ks t index (op_create_account operation)
      else if ty =? PAY_ASSET then spec_PayAsset v ks (op_pay_asset operation)
      else if ty =? ISSUE_ASSET then spec_IssueAsset v ks (op_issue_asset operation)
      else if ty =? SET_METADATA then spec_SetMetaData v ks (op_set_metadata operation)
      else if ty =? SET_SIGNER_WEIGHT then change_account (weighted (op_set_signer_weight operation)) v ks
      else if ty =? SET_THRESHOLD then change_account (thresholded (op_set_threshold operation)) v ks
      else if ty =? PAY_COIN then spec_PayCoin v ks (op_pay_coin operation)
      else if ty =? LOG then done v
      else if ty =? SET_PRIVILEGE then change_account (privileged (op_set_privilege operation)) v ks
      else if is_sentinel ty then done v
      else fails INVALID_PARAMETER v
  end.

(** The signatures of an operation: [None] when sufficient. *)
Definition spec_signature v t (operation : Operation) : option Z :=
  match v (ope_source t operation) with
  | None => Some ACCOUNT_NOT_EXIST
  | Some a => if SignerHashPriv t a (op_type operation) then None else Some INVALID_SIGNATURE
  end.

(** The operations of a transaction, up to the first that fails. *)
Fixpoint spec_operations (check : bool) v t (i : Z) (l : list Operation) : spec_result :=
  match l with
  | [] => done v
  | ope :: l' =>
      match (if check then spec_signature v t ope else None) with
      | Some code => fails code v
      | None =>
          match spec_Apply v t i ope with
          | None => None
          | Some (code, v) =>
              if negb (code =? SUCCESS) then fails code v
              else spec_operations check v t (i + 1) l'
          end
      end
  end.
End Spec.
