(* ===== verification/OperationFacts.v ===== *)
(** * Operations implement the abstract ledger

    Every operation, run on pointers and buffers, returns the code and produces the
    accounts of its specification; where the specification has no result, the
    operation runs a contract. *)
From S2P Require Import Prelude Uint128 Strings AtomMap AtomMapFacts Account Chain TxFrame Operation Transaction EnvFacts LedgerSpec.
Import U128.

Open Scope string_scope.
Open Scope Z_scope.

Section Refinement.
Context `{P : LedgerParams} (blk : BlockInfo) (d : nat).
Implicit Types (s : LState) (v : lview) (k ks kd : string) (l src : loc) (a b : AccountFrm) (t : TransactionFrm).

(** A computation that runs a contract whenever it returns. *)
Definition calls {A} (m : LM A) s : Prop := forall x s' es, m s = Returns (x, s', es) -> es <> [].

Lemma calls_run_contract p s : calls (run_contract p) s.
Proof.
  intros x s' es (? & ? & es1 & es2 & H1 & _ & ->)%hbind_inv. apply hemit_inv in H1 as [_ ->]. done.
Qed.

Lemma calls_bind {A B} (m : LM A) (K : A -> LM B) s : (forall x s1, calls (K x) s1) -> calls (m ≫= K) s.
Proof.
  intros HK x s' es (y & s1 & es1 & es2 & _ & H2 & ->)%hbind_inv. apply HK in H2. by destruct es1.
Qed.

Lemma calls_first {A B} (m : LM A) (K : A -> LM B) s : calls m s -> calls (m ≫= K) s.
Proof.
  intros Hm x s' es (y & s1 & es1 & es2 & H1 & _ & ->)%hbind_inv. apply Hm in H1. by destruct es1.
Qed.

(** A computation that returns a code refines a result of the specification. *)
Definition refines (m : LM Z) (r : spec_result) s : Prop :=
  match r with
  | Some (code, v) => exists s', m s = Returns (code, s', []) /\ ok d s' /\ step d s s' /\ V d s' = v
  | None => calls m s
  end.

Lemma refines_via m m' r s s1 : m s = m' s1 -> step d s s1 -> refines m' r s1 -> refines m r s.
Proof.
  intros E Hst. destruct r as [[code v]|]; [|unfold refines, calls; by rewrite E].
  intros (s' & Hm & Hok & Hst' & Hv).
  exists s'. split_and!; try done; [congruence|]. by transitivity s1.
Qed.

Lemma refines_ret code s : ok d s -> refines (mret code) (Some (code, V d s)) s.
Proof. intros Hok. exists s. by split_and!. Qed.

Lemma refines_mret {A} (x : A) K r s : refines (K x) r s -> refines (mret x ≫= K) r s.
Proof. intros HK. eapply refines_via; [by apply hbind_nil|done|done]. Qed.

Lemma refines_get_tx me t (K : TransactionFrm -> LM Z) r s : transaction_stack_ s !! me = Some t ->
  refines (K t) r s -> refines (get_tx me ≫= K) r s.
Proof.
  intros Ht HK. eapply refines_via; [apply hbind_nil|done|exact HK].
  unfold get_tx. rewrite (hbind_nil _ _ _ s s) by done. by rewrite Ht.
Qed.

Lemma refines_read k l a (K : AccountFrm -> LM Z) r s : pts d s k l a ->
  refines (K a) r s -> refines (read_account l ≫= K) r s.
Proof. intros Hp HK. eapply refines_via; [eapply hbind_nil, read_account_run, Hp|done|done]. Qed.

Lemma refines_GetEntry k (K : option loc -> LM Z) r s : ok d s ->
  (forall p s1, ok d s1 -> step d s s1 -> V d s1 = V d s ->
     (forall k' l a, pts d s k' l a -> pts d s1 k' l a) ->
     match p with Some l => exists a, V d s k = Some a /\ pts d s1 k l a | None => V d s k = None end ->
     refines (K p) r s1) ->
  refines (GetEntry d k ≫= K) r s.
Proof.
  intros Hok HK. destruct (GetEntry_run d k s Hok) as (p & s1 & Hr & Hok1 & Hst & HV & Hpts & Hp).
  eapply refines_via; [by apply hbind_nil|exact Hst|]. by apply HK.
Qed.

Lemma pts_fun s k l a l' a' : pts d s k l a -> pts d s k l' a' -> l = l' /\ a = a'.
Proof.
  intros [(r & Hr & Hl) Ha] [(r' & Hr' & Hl') Ha']. rewrite Hr in Hr'. injection Hr' as <-.
  rewrite Hl in Hl'. injection Hl' as <-. split; congruence.
Qed.

Lemma refines_write k l a a' (K : unit -> LM Z) r s : ok d s -> pts d s k l a ->
  (forall s1, ok d s1 -> step d s s1 -> V d s1 = upd k a' (V d s) -> pts d s1 k l a' ->
     (forall k' l' b, pts d s k' l' b -> exists b', pts d s1 k' l' b') -> refines (K tt) r s1) ->
  refines (write_account l a' ≫= K) r s.
Proof.
  intros Hok Hp HK. destruct (write_account_run d s k l a a' Hok Hp) as (s1 & Hr & Hok1 & Hst & HV & Hp1 & Hkeep).
  eapply refines_via; [by apply hbind_nil|exact Hst|]. apply HK; try done.
  intros k' l' b Hb. destruct (decide (k' = k)) as [->|Hne]; [|eauto].
  destruct (pts_fun s k l a l' b Hp Hb) as [<- _]. eauto.
Qed.

Lemma refines_add k a (K : loc -> LM Z) r s : ok d s ->
  (forall l s1, ok d s1 -> step d s s1 -> V d s1 = upd k a (V d s) -> pts d s1 k l a ->
     (forall k' l' b, k' <> k -> pts d s k' l' b -> pts d s1 k' l' b) -> refines (K l) r s1) ->
  refines (new_account a ≫= fun l => AddEntry d k l ;; K l) r s.
Proof.
  intros Hok HK. destruct (add_account_run d s k a Hok) as (l & s0 & s1 & Hn & Ha & Hok1 & Hst & HV & Hp & Hkeep).
  eapply refines_via; [|exact Hst|by apply (HK l)].
  rewrite (hbind_nil _ _ _ l s0 Hn). by rewrite (hbind_nil _ _ _ true s1 Ha).
Qed.

(** A run that changes the account behind [src] and returns. *)
Lemma refines_write_ret k l a a' code s : ok d s -> pts d s k l a ->
  refines (write_account l a' ;; mret code) (Some (code, upd k a' (V d s))) s.
Proof.
  intros Hok Hp. eapply refines_write; [done|exact Hp|]. intros s1 Hok1 _ HV _ _. rewrite <- HV.
  by apply refines_ret.
Qed.

(** A second change of the same account replaces the first. *)
Lemma refines_rewrite_ret k l a a' code v s : ok d s -> pts d s k l a -> V d s = upd k a v ->
  refines (write_account l a' ;; mret code) (Some (code, upd k a' v)) s.
Proof.
  intros Hok Hp HV. pose proof (refines_write_ret k l a a' code s Hok Hp) as H. by rewrite HV, upd_upd in H.
Qed.

Lemma refines_ret_eq code v s : ok d s -> V d s = v -> refines (mret code) (Some (code, v)) s.
Proof. intros Hok <-. by apply refines_ret. Qed.

Ltac contract := unfold refines; repeat first [apply calls_run_contract | apply calls_first, calls_run_contract | apply calls_bind; intros ? ?].

(** ** The operations *)

Lemma move_coins_refines me ks src a dest b ope s : ok d s -> pts d s ks src a ->
  pts d s (pc_dest_address ope) dest b ->
  refines (move_coins blk me src dest ope) (spec_move_coins (V d s) ks (pc_dest_address ope) (pc_amount ope)) s.
Proof.
  intros Hok Hp Hb. unfold move_coins, spec_move_coins, with_account.
  rewrite (pts_V d s ks src a) by done.
  eapply refines_read; [exact Hp|]. destruct (SafeIntSub _ _ _) as [okb sb].
  destruct okb; cbn [negb]; [|by apply refines_ret].
  eapply refines_write; [done|exact Hp|]. intros s1 Hok1 _ <- Hp1 Hkeep.
  destruct (Hkeep _ _ _ Hb) as [b' Hb1]. rewrite (pts_V d s1 _ dest b') by done.
  eapply refines_read; [exact Hb1|]. destruct (SafeIntAdd _ _ _) as [okb' db].
  destruct okb'; cbn [negb]; [|by apply refines_ret].
  destruct (empty _); cbn [negb]; [by eapply refines_write_ret|by contract].
Qed.

Lemma PayCoin_refines me ks src a ope s : ok d s -> pts d s ks src a ->
  refines (PayCoin blk d me src ope) (spec_PayCoin (V d s) ks ope) s.
Proof.
  intros Hok Hp. unfold PayCoin, spec_PayCoin, with_account. rewrite (pts_V d s ks src a) by done.
  destruct (SafeIntAdd (pc_amount ope) cfg_base_reserve 0) as [okb min].
  destruct okb; cbn [negb]; [|by apply refines_ret].
  eapply refines_read; [exact Hp|]. destruct (GetAccountBalance a <? min); [by apply refines_ret|].
  apply refines_GetEntry; [done|]. intros p s1 Hok1 _ <- Hkeep Hdest.
  destruct p as [dest|].
  - destruct Hdest as (b & Hb & Hpb). rewrite Hb. apply refines_mret. by eapply move_coins_refines; eauto.
  - rewrite Hdest. destruct (pc_amount ope <? cfg_base_reserve); [by apply refines_mret, refines_ret|].
    destruct (add_account_run d s1 (pc_dest_address ope) (fresh_account (pc_dest_address ope)) Hok1)
      as (l & s2 & s3 & Hn & Ha & Hok3 & Hst & HV & Hpl & Hkeep').
    eapply refines_via; [|exact Hst|].
    { apply (hbind_nil _ _ _ (Some l) s3). rewrite (hbind_nil _ _ _ l s2 Hn).
      by rewrite (hbind_nil _ _ _ true s3 Ha). }
    rewrite <- HV. eapply move_coins_refines; [done| |exact Hpl].
    apply Hkeep'; [|by apply Hkeep]. intros ->. apply Hkeep, pts_V in Hp; [|done].
    congruence.
Qed.

Lemma CreateAccount_refines me ks src a t index ca s : ok d s -> pts d s ks src a ->
  transaction_stack_ s !! me = Some t ->
  refines (CreateAccount blk d me src index ca) (spec_CreateAccount (V d s) ks t index ca) s.
Proof.
  intros Hok Hp Ht. unfold CreateAccount, spec_CreateAccount, with_account.
  rewrite (pts_V d s ks src a) by done. eapply refines_get_tx; [exact Ht|]. cbv zeta.
  set (dest := if empty (ca_dest_address ca) then _ else _).
  apply refines_GetEntry; [done|]. intros p s1 Hok1 _ <- Hkeep Hdest.
  destruct p as [l|]; [destruct Hdest as (b & -> & _); by apply refines_ret|]. rewrite Hdest.
  destruct (ca_init_balance ca <? cfg_base_reserve); [by apply refines_ret|].
  apply Hkeep in Hp. eapply refines_read; [exact Hp|].
  destruct (SafeIntSub _ _ _) as [okb lim]. destruct okb; cbn [negb]; [|by apply refines_ret].
  destruct (lim <? ca_init_balance ca); [by apply refines_ret|].
  destruct (AddBalance _ a) as [okb a']. destruct okb; cbn [negb]; [|by apply refines_ret].
  eapply refines_write; [done|exact Hp|]. intros s2 Hok2 _ <- Hp2 _.
  destruct (init_metadatas _ _) as [b|]; [|by apply refines_ret].
  destruct (empty (ca_payload ca)); cbn [negb]; [|by contract].
  apply refines_add; [done|]. intros l s3 Hok3 _ <- _ _. by apply refines_ret.
Qed.

Lemma IssueAsset_refines ks src a ope s : ok d s -> pts d s ks src a ->
  refines (IssueAsset src ope) (spec_IssueAsset (V d s) ks ope) s.
Proof.
  intros Hok Hp. unfold IssueAsset, spec_IssueAsset, with_account. rewrite (pts_V d s ks src a) by done.
  eapply refines_read; [exact Hp|]. destruct (GetAsset _ _ a) as [[e|] a'].
  - eapply refines_write; [done|exact Hp|]. intros s1 Hok1 _ HV Hp1 _.
    destruct (SafeIntAdd _ _ _) as [okb amount]. destruct okb; cbn [negb];
      [by eapply refines_rewrite_ret|by apply refines_ret_eq].
  - eapply refines_write; [done|exact Hp|]. intros s1 Hok1 _ HV Hp1 _. by eapply refines_rewrite_ret.
Qed.

Lemma transfer_asset_refines ks src a kd dest b asset s : ok d s -> pts d s ks src a -> pts d s kd dest b ->
  refines (transfer_asset src dest asset) (spec_transfer_asset (V d s) ks kd asset) s.
Proof.
  intros Hok Hp Hb. unfold transfer_asset, spec_transfer_asset, with_account. cbv zeta.
  rewrite (pts_V d s ks src a) by done. eapply refines_read; [exact Hp|].
  destruct (GetAsset _ _ a) as [e a']. eapply refines_write; [done|exact Hp|]. intros s1 Hok1 _ HV Hp1 Hkeep.
  destruct e as [e|]; [|by apply refines_ret_eq].
  destruct (ak_type _ =? 0); [|by apply refines_ret_eq].
  destruct (SafeIntSub _ _ _) as [okb amount]. destruct okb; cbn [negb]; [|by apply refines_ret_eq].
  destruct (amount <? 0); [by apply refines_ret_eq|].
  eapply refines_write; [done|exact Hp1|]. intros s2 Hok2 _ HV2 Hp2 Hkeep2.
  rewrite HV, upd_upd in HV2. rewrite <- HV2.
  destruct (Hkeep _ _ _ Hb) as [b1 Hb1]. destruct (Hkeep2 _ _ _ Hb1) as [b2 Hb2].
  rewrite (pts_V d s2 kd dest b2) by done. eapply refines_read; [exact Hb2|].
  destruct (GetAsset _ _ b2) as [f b3]. eapply refines_write; [done|exact Hb2|]. intros s3 Hok3 _ HV3 Hb3 _.
  destruct f as [f|]; [|by eapply refines_rewrite_ret].
  destruct (SafeIntAdd _ _ _) as [okb' amount']. destruct okb'; cbn [negb];
    [by eapply refines_rewrite_ret|by apply refines_ret_eq].
Qed.

(** A transfer keeps every record in its place. *)
Lemma read_account_inv l s a s' es : read_account l s = Returns (a, s', es) -> s' = s /\ es = [].
Proof.
  unfold read_account, on_env, deref. cbn. destruct (heap_ (env_ s) !! l); [|done]. intros [= _ <- <-].
  by destruct s.
Qed.

Lemma write_account_maps l a s u s' es : write_account l a s = Returns (u, s', es) ->
  maps_ (env_ s') = maps_ (env_ s).
Proof. unfold write_account, on_env. cbn. by intros [= _ <- _]. Qed.

Lemma transfer_asset_owned src dest asset s code s' es i k l :
  transfer_asset src dest asset s = Returns (code, s', es) -> owned (env_ s) i k l -> owned (env_ s') i k l.
Proof.
  intros Hrun (r & Hr & Hl). exists r. split; [|done]. unfold map_at in *.
  replace (maps_ (env_ s')) with (maps_ (env_ s)); [done|]. clear Hr Hl.
  unfold transfer_asset in Hrun. hinv Hrun.
  all: repeat match goal with
    | H : read_account _ _ = Returns _ |- _ => apply read_account_inv in H as [-> ->]
    | H : write_account _ _ _ = Returns _ |- _ => apply write_account_maps in H
    end; congruence.
Qed.

(** A first computation followed by a continuation on its code. *)
Lemma refines_bind (m : LM Z) (K : Z -> LM Z) r (f : Z -> lview -> spec_result) s :
  refines m r s ->
  (forall code s1, m s = Returns (code, s1, []) -> ok d s1 -> step d s s1 -> r = Some (code, V d s1) ->
     refines (K code) (f code (V d s1)) s1) ->
  refines (m ≫= K) (match r with Some (code, v) => f code v | None => None end) s.
Proof.
  destruct r as [[code v]|]; [|intros Hm _; by apply calls_first].
  intros (s1 & Hm & Hok & Hst & <-) HK.
  eapply refines_via; [by apply hbind_nil|exact Hst|]. by apply HK.
Qed.

Lemma PayAsset_refines me ks src a pa s : ok d s -> pts d s ks src a ->
  refines (PayAsset blk d me src pa) (spec_PayAsset (V d s) ks pa) s.
Proof.
  intros Hok Hp. unfold PayAsset, spec_PayAsset. apply refines_GetEntry; [done|].
  intros p s1 Hok1 _ <- Hkeep Hdest. destruct p as [dest|]; [|rewrite Hdest; by apply refines_ret].
  destruct Hdest as (b & -> & Hb). apply Hkeep in Hp. unfold then_contract.
  apply (refines_bind _ _ _ (fun code v => if negb (code =? SUCCESS) then Some (code, v)
    else with_account v (pa_dest_address pa) (fun b =>
      if negb (empty (ac_contract_payload (account_info_ b))) then None else done v))).
  { destruct (pa_asset pa); [by eapply transfer_asset_refines|by apply refines_ret]. }
  intros code s2 Hrun Hok2 Hst Hspec. destruct (code =? SUCCESS); cbn [negb]; [|by apply refines_ret].
  assert (Hown : owned (env_ s2) (S d) (pa_dest_address pa) dest).
  { destruct (pa_asset pa) as [asset|]; [|cbn in Hrun; injection Hrun as _ <-; apply Hb].
    eapply transfer_asset_owned; [exact Hrun|apply Hb]. }
  destruct (owned_pts d s2 _ _ Hok2 Hown) as [b2 Hb2]. unfold with_account.
  rewrite (pts_V d s2 _ dest b2) by done. eapply refines_read; [exact Hb2|]. cbv zeta.
  destruct (empty _); cbn [negb]; [by apply refines_ret|by contract].
Qed.

Lemma SetMetaData_refines ks src a ope s : ok d s -> pts d s ks src a ->
  refines (Operation.SetMetaData src ope) (spec_SetMetaData (V d s) ks ope) s.
Proof.
  intros Hok Hp. unfold Operation.SetMetaData, spec_SetMetaData, with_account. cbv zeta.
  rewrite (pts_V d s ks src a) by done. eapply refines_read; [exact Hp|].
  destruct (GetMetaData _ _ a) as [e a']. eapply refines_write; [done|exact Hp|]. intros s1 Hok1 _ HV Hp1 _.
  destruct (sm_delete_flag ope), e as [kp|]; try by apply refines_ret_eq.
  - destruct (negb (sm_version ope =? 0) && _); [by apply refines_ret_eq|].
    destruct (empty (sm_key ope)); [by apply refines_ret_eq|by eapply refines_rewrite_ret].
  - destruct (negb (sm_version ope =? 0) && _); [by apply refines_ret_eq|by eapply refines_rewrite_ret].
  - destruct (negb (sm_version ope =? 1) && _); [by apply refines_ret_eq|by eapply refines_rewrite_ret].
Qed.

(** The operations that change the source account alone. *)
Lemma change_account_refines (f : AccountFrm -> AccountFrm) (m : LM Z) ks src a s :
  m = (a ← read_account src; write_account src (f a) ;; mret SUCCESS) -> ok d s -> pts d s ks src a ->
  refines m (change_account f (V d s) ks) s.
Proof.
  intros -> Hok Hp. unfold change_account, with_account. rewrite (pts_V d s ks src a) by done.
  eapply refines_read; [exact Hp|]. by eapply refines_write_ret.
Qed.

(** An operation implements its specification. *)
Lemma Apply_refines me t index ope s : ok d s -> transaction_stack_ s !! me = Some t ->
  refines (Operation.Apply blk d me index ope) (spec_Apply (V d s) t index ope) s.
Proof.
  intros Hok Ht. unfold Operation.Apply, spec_Apply. eapply refines_get_tx; [exact Ht|].
  apply refines_GetEntry; [done|]. intros p s1 Hok1 Hst <- _ Hsrc. cbv zeta.
  assert (Ht1 : transaction_stack_ s1 !! me = Some t) by (destruct Hst as (_ & -> & _); done).
  destruct p as [src|]; [|rewrite Hsrc; by apply refines_ret]. destruct Hsrc as (a & Ha & Hp). rewrite Ha.
  repeat match goal with |- context [if op_type ope =? ?c then _ else _] => destruct (op_type ope =? c) end;
    try by apply refines_ret.
  - by eapply CreateAccount_refines.
  - by eapply PayAsset_refines.
  - by eapply IssueAsset_refines.
  - by eapply SetMetaData_refines.
  - by eapply change_account_refines.
  - by eapply change_account_refines.
  - by eapply PayCoin_refines.
  - by eapply change_account_refines.
  - destruct (is_sentinel _); by apply refines_ret.
Qed.

(** The signature check reads only. *)
Lemma CheckSignature_run me t ope s : ok d s -> transaction_stack_ s !! me = Some t ->
  exists s', CheckSignature d me ope s = Returns (spec_signature (V d s) t ope, s', [])
    /\ ok d s' /\ step d s s' /\ V d s' = V d s.
Proof.
  intros Hok Ht. unfold CheckSignature, spec_signature.
  rewrite (hbind_nil _ _ _ t s); [|unfold get_tx; rewrite (hbind_nil _ _ _ s s) by done; by rewrite Ht].
  destruct (GetEntry_run d (ope_source t ope) s Hok) as (p & s1 & Hr & Hok1 & Hst & HV & _ & Hp).
  rewrite (hbind_nil _ _ _ p s1 Hr). exists s1. split_and!; try done.
  destruct p as [l|]; [|by rewrite Hp]. destruct Hp as (a & -> & Hpa).
  rewrite (hbind_nil _ _ _ a s1) by (eapply read_account_run, Hpa).
  by destruct (SignerHashPriv t a (op_type ope)).
Qed.
End Refinement.
