(* ===== verification/CoinFacts.v ===== *)
(** * Coins are conserved by operations

    The coins of a finite set of accounts, and how the abstract operations move them. *)
From S2P Require Import Prelude Uint128 Uint128Facts Strings AtomMap Account Chain TxFrame Operation Transaction EnvFacts LedgerSpec.
Import U128.

Open Scope string_scope.
Open Scope Z_scope.

(** ** Checked arithmetic *)
Lemma SafeIntAdd_true x y r z : is_s64 x -> is_s64 y -> SafeIntAdd x y r = (true, z) -> z = x + y /\ is_s64 z.
Proof.
  intros Hx Hy. rewrite SafeIntAdd_spec by done. destruct (in_s64 (x + y)) eqn:E; intros [=]; subst.
  split; [done|]. unfold in_s64 in E. unfold is_s64. lia.
Qed.

Lemma SafeIntSub_true x y r z : is_s64 x -> is_s64 y -> SafeIntSub x y r = (true, z) -> z = x - y /\ is_s64 z.
Proof.
  intros Hx Hy. rewrite SafeIntSub_spec by done. destruct (in_s64 (x - y)) eqn:E; intros [=]; subst.
  split; [done|]. unfold in_s64 in E. unfold is_s64. lia.
Qed.

(** ** Sums over accounts *)
Definition bal (v : lview) (k : string) : Z := match v k with Some a => GetAccountBalance a | None => 0 end.

Definition sumZ (l : list Z) : Z := foldr Z.add 0 l.
Definition coins (D : gset string) (v : lview) : Z := sumZ (bal v <$> elements D).

Lemma sumZ_perm l l' : l ≡ₚ l' -> sumZ l = sumZ l'.
Proof. unfold sumZ. induction 1; cbn; lia. Qed.

Lemma coins_insert D k v : k ∉ D -> coins ({[ k ]} ∪ D) v = bal v k + coins D v.
Proof.
  intros Hk. unfold coins. rewrite (sumZ_perm _ (bal v <$> (k :: elements D))); [done|].
  by apply fmap_Permutation, elements_union_singleton.
Qed.

Lemma coins_ext D v v' : (forall k, k ∈ D -> bal v k = bal v' k) -> coins D v = coins D v'.
Proof.
  intros H. unfold coins. f_equal. apply list_fmap_ext. intros i k Hk.
  apply H. apply elem_of_elements. by eapply list_elem_of_lookup_2.
Qed.

(** The coins of every large enough set of accounts change by [δ]. *)
Definition moved (v v' : lview) (δ : Z) : Prop :=
  exists D0 : gset string, forall D, D0 ⊆ D -> coins D v' = coins D v + δ.

Lemma moved_same v v' : (forall k, bal v' k = bal v k) -> moved v v' 0.
Proof. intros H. exists ∅. intros D _. rewrite Z.add_0_r. by apply coins_ext. Qed.

Lemma moved_trans v1 v2 v3 δ δ' : moved v1 v2 δ -> moved v2 v3 δ' -> moved v1 v3 (δ + δ').
Proof.
  intros [D1 H1] [D2 H2]. exists (D1 ∪ D2). intros D HD. rewrite H2, H1 by set_solver. lia.
Qed.

Lemma moved_eq v v' δ δ' : moved v v' δ -> δ = δ' -> moved v v' δ'.
Proof. by intros H <-. Qed.

(** One account changes. *)
Lemma moved_upd k a v : moved v (upd k a v) (GetAccountBalance a - bal v k).
Proof.
  exists {[ k ]}. intros D HD. assert (Hk : k ∈ D) by set_solver.
  assert (ED : D = {[ k ]} ∪ D ∖ {[ k ]}) by (by apply union_difference_L; set_solver).
  rewrite ED, !coins_insert by set_solver.
  rewrite (coins_ext _ (upd k a v) v).
  - unfold bal at 1. rewrite upd_same. lia.
  - intros k' Hk'. unfold bal. rewrite upd_other by set_solver. done.
Qed.

(** ** Accounts in range *)
Definition in_range (a : AccountFrm) : Prop := 0 <= GetAccountBalance a <= int64_max.
Definition good (v : lview) : Prop := forall k a, v k = Some a -> in_range a.

Lemma good_upd k a v : good v -> in_range a -> good (upd k a v).
Proof.
  intros Hv Ha k' a'. unfold upd. case_decide; [by intros [= <-]|apply Hv].
Qed.

Lemma in_range_s64 a : in_range a -> is_s64 (GetAccountBalance a).
Proof. unfold in_range, is_s64, int64_min. lia. Qed.

(** A change of an account that keeps its balance. *)
Definition keeps_balance (f : AccountFrm -> AccountFrm) : Prop :=
  forall a, GetAccountBalance (f a) = GetAccountBalance a.

Lemma keep_upd k a a' v : v k = Some a -> GetAccountBalance a' = GetAccountBalance a ->
  good v -> good (upd k a' v) /\ moved v (upd k a' v) 0.
Proof.
  intros Hk Hb Hv. split.
  - apply good_upd; [done|]. unfold in_range. rewrite Hb. by apply (Hv k).
  - eapply moved_eq; [apply moved_upd|]. unfold bal. rewrite Hk. lia.
Qed.

Lemma foldl_keeps {A} (f : A -> AccountFrm -> AccountFrm) l :
  (forall x, keeps_balance (f x)) -> keeps_balance (fun a => foldl (fun a x => f x a) a l).
Proof.
  intros H. induction l as [|x l IH]; intros a; [done|]. cbn. rewrite IH. apply H.
Qed.

Lemma update_signers_keeps l : keeps_balance (update_signers l).
Proof.
  apply (foldl_keeps (fun s a => (UpdateSigner (sg_address s) (sg_weight s) a).2)). intros s a.
  unfold UpdateSigner. by repeat match goal with |- context [if ?b then _ else _] => destruct b end.
Qed.

Lemma update_type_thresholds_keeps l : keeps_balance (update_type_thresholds l).
Proof.
  apply (foldl_keeps (fun s a => (UpdateTypeThreshold (tt_type s) (tt_threshold s) a).2)). intros s a.
  unfold UpdateTypeThreshold. cbv zeta. by repeat match goal with |- context [if ?b then _ else _] => destruct b end.
Qed.

Lemma GetAsset_keeps db key a e a' : GetAsset db key a = (e, a') -> GetAccountBalance a' = GetAccountBalance a.
Proof.
  unfold GetAsset. destruct (assets_ a !! key); [by case_decide; intros [= <- <-]|].
  destruct (db _ key); by intros [= <- <-].
Qed.

Lemma GetMetaData_keeps db key a e a' : GetMetaData db key a = (e, a') -> GetAccountBalance a' = GetAccountBalance a.
Proof.
  unfold GetMetaData. destruct (metadata_ a !! key); [by case_decide; intros [= <- <-]|].
  destruct (db _ key); by intros [= <- <-].
Qed.

Lemma init_metadatas_info l a a' : init_metadatas l a = Some a' -> account_info_ a' = account_info_ a.
Proof.
  revert a. induction l as [|kp l IH]; intros a; cbn; [by intros [= <-]|].
  destruct (_ && _); [done|]. intros ->%IH. done.
Qed.

Section Coins.
Context `{P : LedgerParams} (reserve : 0 <= cfg_base_reserve <= int64_max).
Implicit Types (v : lview) (ks kd : string) (a b : AccountFrm) (t : TransactionFrm).

(** The conclusion for every outcome of an operation. *)
Definition conserves v (r : spec_result) : Prop :=
  match r with
  | Some (code, v') => good v' /\ (code = SUCCESS -> moved v v' 0)
  | None => True
  end.

Lemma conserves_same code v : good v -> conserves v (Some (code, v)).
Proof. intros Hv. split; [done|]. intros _. by apply moved_same. Qed.

Lemma conserves_keep code k a a' v : v k = Some a -> GetAccountBalance a' = GetAccountBalance a -> good v ->
  conserves v (Some (code, upd k a' v)).
Proof. intros Hk Hb Hv. destruct (keep_upd k a a' v Hk Hb Hv). by split. Qed.

Lemma conserves_change f v ks : keeps_balance f -> good v -> conserves v (change_account f v ks).
Proof.
  intros Hf Hv. unfold change_account, with_account. destruct (v ks) as [a|] eqn:E; [|done].
  by apply (conserves_keep SUCCESS ks a).
Qed.

Lemma spec_move_coins_conserves v ks kd amount : good v -> 0 <= amount <= int64_max ->
  (forall a, v ks = Some a -> amount <= GetAccountBalance a) ->
  conserves v (spec_move_coins v ks kd amount).
Proof.
  intros Hv Ham Hle. unfold spec_move_coins, with_account. destruct (v ks) as [a|] eqn:Ea; [|done].
  assert (Ha : in_range a) by by apply (Hv ks). specialize (Hle a eq_refl).
  assert (Has : is_s64 amount) by (unfold is_s64, int64_min; lia).
  destruct (SafeIntSub _ amount 0) as [ok1 sb] eqn:E1. destruct ok1; cbn [negb]; [|by apply conserves_same].
  apply SafeIntSub_true in E1 as [-> Hsb]; [|by apply in_range_s64|done].
  set (a1 := map_info _ a). set (v1 := upd ks a1 v). unfold in_range in Ha.
  assert (Hv1 : good v1) by (apply good_upd; [done|unfold in_range; cbn; lia]).
  assert (Hm1 : moved v v1 (- amount)).
  { eapply moved_eq; [apply moved_upd|]. unfold bal. rewrite Ea. cbn. lia. }
  destruct (v1 kd) as [b|] eqn:Eb; [|done]. assert (Hb : in_range b) by by apply (Hv1 kd).
  destruct (SafeIntAdd _ amount 0) as [ok2 db] eqn:E2. destruct ok2; cbn [negb]; [|by split].
  apply SafeIntAdd_true in E2 as [-> Hdb]; [|by apply in_range_s64|done].
  destruct (empty _); cbn [negb]; [|done]. unfold in_range in Hb. split.
  - apply good_upd; [done|]. unfold in_range. cbn. unfold is_s64 in Hdb. lia.
  - intros _. eapply moved_eq; [eapply moved_trans; [exact Hm1|apply moved_upd]|]. unfold bal. rewrite Eb. cbn. lia.
Qed.

Lemma spec_PayCoin_conserves v ks ope : good v -> 0 <= pc_amount ope <= int64_max ->
  conserves v (spec_PayCoin v ks ope).
Proof.
  intros Hv Ham. unfold spec_PayCoin, with_account. destruct (v ks) as [a|] eqn:Ea; [|done].
  assert (is_s64 (pc_amount ope) /\ is_s64 cfg_base_reserve) as [Has Hrs] by (unfold is_s64, int64_min; lia).
  destruct (SafeIntAdd _ cfg_base_reserve 0) as [ok1 mb] eqn:E1. destruct ok1; cbn [negb]; [|by apply conserves_same].
  apply SafeIntAdd_true in E1 as [-> _]; [|done|done].
  destruct (Z.ltb_spec (GetAccountBalance a) (pc_amount ope + cfg_base_reserve)); [by apply conserves_same|].
  destruct (v (pc_dest_address ope)) as [b|] eqn:Eb.
  { apply spec_move_coins_conserves; [done|done|]. intros a' Ha'. simplify_eq. lia. }
  destruct (pc_amount ope <? cfg_base_reserve); [by apply conserves_same|].
  set (kd := pc_dest_address ope) in *. set (v0 := upd kd (fresh_account kd) v).
  assert (Hm0 : moved v v0 0).
  { eapply moved_eq; [apply moved_upd|]. unfold bal. rewrite Eb. done. }
  assert (Hc : conserves v0 (spec_move_coins v0 ks kd (pc_amount ope))).
  { apply spec_move_coins_conserves; [apply good_upd; [done|]| done|].
    - unfold in_range. cbn. unfold int64_max. lia.
    - intros a' Ha'. unfold v0 in Ha'. rewrite upd_other in Ha' by congruence. simplify_eq. lia. }
  destruct (spec_move_coins v0 ks kd _) as [[code v']|]; [|done]. destruct Hc as [Hg Hm]. split; [done|].
  intros Hcode. eapply moved_eq; [eapply moved_trans; [exact Hm0|by apply Hm]|lia].
Qed.

Lemma spec_CreateAccount_conserves v ks t index ca : good v -> is_s64 (ca_init_balance ca) ->
  conserves v (spec_CreateAccount v ks t index ca).
Proof.
  intros Hv Hin. unfold spec_CreateAccount, with_account. cbv zeta.
  set (dest := if empty _ then _ else _). destruct (v ks) as [a|] eqn:Ea; [|done].
  destruct (v dest) as [b|] eqn:Ed; [by apply conserves_same|].
  destruct (Z.ltb_spec (ca_init_balance ca) cfg_base_reserve); [by apply conserves_same|].
  assert (Ha : in_range a) by by apply (Hv ks).
  destruct (SafeIntSub _ cfg_base_reserve 0) as [ok1 lim] eqn:E1. destruct ok1; cbn [negb]; [|by apply conserves_same].
  apply SafeIntSub_true in E1 as [-> _]; [|by apply in_range_s64|unfold is_s64, int64_min; lia].
  destruct (Z.ltb_spec (GetAccountBalance a - cfg_base_reserve) (ca_init_balance ca)); [by apply conserves_same|].
  assert (Es : s64 (-1 * ca_init_balance ca) = - ca_init_balance ca).
  { rewrite s64_id by (unfold is_s64, int64_min, int64_max in *; lia). lia. }
  rewrite Es. unfold AddBalance. destruct (SafeIntAdd _ (- _) 0) as [ok2 nb] eqn:E2.
  destruct ok2; cbn [negb]; [|by apply conserves_same].
  apply SafeIntAdd_true in E2 as [-> _]; [|by apply in_range_s64|unfold is_s64, int64_min, int64_max in *; lia].
  set (a1 := map_info _ a). unfold in_range in Ha.
  assert (Hv1 : good (upd ks a1 v)) by (apply good_upd; [done|unfold in_range; cbn; lia]).
  destruct (init_metadatas _ _) as [b|] eqn:Em; [|by split].
  apply init_metadatas_info in Em. destruct (empty (ca_payload ca)); cbn [negb]; [|done].
  assert (Hb : GetAccountBalance b = ca_init_balance ca /\ GetAccountAddress b = dest).
  { unfold GetAccountBalance, GetAccountAddress. by rewrite Em. }
  destruct Hb as [Hbb ->]. split.
  - apply good_upd; [done|]. unfold in_range. rewrite Hbb. unfold is_s64 in Hin. lia.
  - intros _. eapply moved_eq; [eapply moved_trans; apply moved_upd|].
    rewrite Hbb. unfold bal. rewrite upd_other by congruence. rewrite Ed, Ea. cbn. lia.
Qed.

Lemma spec_IssueAsset_conserves v ks ope : good v -> conserves v (spec_IssueAsset v ks ope).
Proof.
  intros Hv. unfold spec_IssueAsset, with_account. destruct (v ks) as [a|] eqn:Ea; [|done]. cbv zeta.
  destruct (GetAsset _ _ a) as [e a'] eqn:Eg. apply GetAsset_keeps in Eg.
  destruct e as [e|]; [|by apply (conserves_keep _ ks a)].
  destruct (SafeIntAdd _ _ _) as [[] amount]; by apply (conserves_keep _ ks a).
Qed.

Lemma spec_transfer_asset_conserves v ks kd asset : good v -> conserves v (spec_transfer_asset v ks kd asset).
Proof.
  intros Hv. unfold spec_transfer_asset, with_account. destruct (v ks) as [a|] eqn:Ea; [|done]. cbv zeta.
  destruct (GetAsset _ _ a) as [e a'] eqn:Eg. apply GetAsset_keeps in Eg.
  destruct e as [e|]; [|by apply (conserves_keep _ ks a)].
  destruct (ak_type _ =? 0); [|by apply (conserves_keep _ ks a)].
  destruct (SafeIntSub _ _ _) as [[] amount]; cbn [negb]; [|by apply (conserves_keep _ ks a)].
  destruct (amount <? 0); [by apply (conserves_keep _ ks a)|].
  set (a1 := SetAsset _ a'). destruct (keep_upd ks a a1 v Ea Eg Hv) as [Hv1 Hm1].
  destruct (upd ks a1 v kd) as [b|] eqn:Eb; [|done].
  destruct (GetAsset _ _ b) as [f b'] eqn:Eg2. apply GetAsset_keeps in Eg2.
  assert (Hgen : forall code b'', GetAccountBalance b'' = GetAccountBalance b ->
    conserves v (Some (code, upd kd b'' (upd ks a1 v)))).
  { intros code b'' Hb''. destruct (keep_upd kd b b'' _ Eb Hb'' Hv1) as [Hg Hm]. split; [done|].
    intros _. by apply (moved_trans _ _ _ 0 0 Hm1 Hm). }
  destruct f as [f|]; [|by apply Hgen]. destruct (SafeIntAdd _ _ _) as [[] amount']; by apply Hgen.
Qed.

Lemma spec_PayAsset_conserves v ks pa : good v -> conserves v (spec_PayAsset v ks pa).
Proof.
  intros Hv. unfold spec_PayAsset. destruct (v (pa_dest_address pa)); [|by apply conserves_same].
  set (r := match pa_asset pa with None => LedgerSpec.done v
    | Some asset => spec_transfer_asset v ks (pa_dest_address pa) asset end).
  assert (Hc : conserves v r).
  { unfold r. destruct (pa_asset pa); [by apply spec_transfer_asset_conserves|by apply conserves_same]. }
  unfold then_contract. destruct r as [[code v']|]; [|done].
  destruct Hc as [Hg Hm]. destruct (Z.eqb_spec code SUCCESS) as [->|]; cbn [negb]; [|by split].
  unfold with_account. destruct (v' _) as [b|]; [|done]. destruct (empty _); [|done].
  split; [done|]. intros _. by apply Hm.
Qed.

Lemma spec_SetMetaData_conserves v ks ope : good v -> conserves v (spec_SetMetaData v ks ope).
Proof.
  intros Hv. unfold spec_SetMetaData, with_account. destruct (v ks) as [a|] eqn:Ea; [|done]. cbv zeta.
  destruct (GetMetaData _ _ a) as [e a'] eqn:Eg. apply GetMetaData_keeps in Eg.
  destruct (sm_delete_flag ope), e as [kp|];
    repeat match goal with |- context [if ?b then _ else _] => destruct b end; by apply (conserves_keep _ ks a).
Qed.

Lemma SetProtoMasterWeight_keeps w : keeps_balance (SetProtoMasterWeight w).
Proof. by intros a. Qed.
Lemma SetProtoTxThreshold_keeps w : keeps_balance (SetProtoTxThreshold w).
Proof. by intros a. Qed.

Lemma privileged_keeps ope : keeps_balance (privileged ope).
Proof.
  intros a. unfold privileged. rewrite update_type_thresholds_keeps.
  destruct (empty (sp_tx_threshold ope)); cbn [negb];
    [|destruct (0 <=? Strings.Stoi64 (lit (sp_tx_threshold ope))); rewrite ?SetProtoTxThreshold_keeps];
    rewrite update_signers_keeps; (destruct (empty (sp_master_weight ope)); cbn [negb]; [done|]);
    by destruct (0 <=? _); rewrite ?SetProtoMasterWeight_keeps.
Qed.

Lemma weighted_keeps ope : keeps_balance (weighted ope).
Proof. intros a. unfold weighted. rewrite update_signers_keeps. by destruct (0 <=? _). Qed.

Lemma thresholded_keeps ope : keeps_balance (thresholded ope).
Proof. intros a. unfold thresholded. rewrite update_type_thresholds_keeps. by destruct (0 <=? _). Qed.

(** The coin amounts of an operation are those its checks allow. *)
Definition coin_args (ope : Operation) : Prop :=
  (op_type ope = PAY_COIN -> 0 <= pc_amount (op_pay_coin ope) <= int64_max)
  /\ (op_type ope = CREATE_ACCOUNT -> is_s64 (ca_init_balance (op_create_account ope))).

Lemma spec_Apply_conserves v t i ope : good v -> coin_args ope -> conserves v (spec_Apply v t i ope).
Proof.
  intros Hv [Hpay Hcr]. unfold spec_Apply. cbv zeta.
  destruct (v (ope_source t ope)) as [a0|]; [|by apply conserves_same].
  destruct (op_type ope =? 0); [by apply conserves_same|].
  destruct (Z.eqb_spec (op_type ope) CREATE_ACCOUNT) as [E|_]; [by apply spec_CreateAccount_conserves; auto|].
  destruct (op_type ope =? PAY_ASSET); [by apply spec_PayAsset_conserves|].
  destruct (op_type ope =? ISSUE_ASSET); [by apply spec_IssueAsset_conserves|].
  destruct (op_type ope =? SET_METADATA); [by apply spec_SetMetaData_conserves|].
  destruct (op_type ope =? SET_SIGNER_WEIGHT).
  { apply conserves_change; [apply weighted_keeps|done]. }
  destruct (op_type ope =? SET_THRESHOLD).
  { apply conserves_change; [apply thresholded_keeps|done]. }
  destruct (Z.eqb_spec (op_type ope) PAY_COIN) as [E|_]; [by apply spec_PayCoin_conserves; auto|].
  destruct (op_type ope =? LOG); [by apply conserves_same|].
  destruct (op_type ope =? SET_PRIVILEGE).
  { apply conserves_change; [apply privileged_keeps|done]. }
  destruct (is_sentinel _); by apply conserves_same.
Qed.
End Coins.
