(* ===== verification/TransactionFacts.v ===== *)
(** * Transactions implement the abstract ledger

    Application, fees and nonce of a transaction against their specifications,
    and the meaning of the signature check. *)
From S2P Require Import Prelude Uint128 Uint128Facts Strings AtomMap AtomMapFacts Account Chain TxFrame Operation Transaction EnvFacts LedgerSpec OperationFacts CoinFacts.
Import U128.

Open Scope string_scope.
Open Scope Z_scope.

(** ** Signatures *)

(** The threshold that applies to an operation type, and the weight of the valid
    signatures of a transaction for an account. *)
Definition required (a : AccountFrm) (type : Z) : Z :=
  let tt := GetTypeThreshold type a in
  if 0 <? tt then tt else th_tx_threshold (pv_thresholds (ac_priv (account_info_ a))).

Definition signer_weight (valid : gset string) (l : list Signer) : Z :=
  sumZ (map (fun s => if bool_decide (sg_address s ∈ valid) then sg_weight s else 0) l).

Definition signed_weight (t : TransactionFrm) (a : AccountFrm) : Z :=
  let priv := ac_priv (account_info_ a) in
  (if bool_decide (GetAccountAddress a ∈ valid_signature_ t) then pv_master_weight priv else 0)
  + signer_weight (valid_signature_ t) (pv_signers priv).

Definition weight_ok (w : Z) : Prop := 0 <= w <= UINT32_MAX.

Lemma signer_weight_nonneg valid l : Forall (fun s => weight_ok (sg_weight s)) l -> 0 <= signer_weight valid l.
Proof.
  unfold signer_weight, sumZ, weight_ok. induction 1 as [|s l Hs _ IH]; cbn; [lia|]. case_bool_decide; lia.
Qed.

Lemma signers_loop_spec valid l threshold : Forall (fun s => weight_ok (sg_weight s)) l ->
  0 < threshold <= int64_max ->
  signers_loop valid threshold l = true <-> threshold <= signer_weight valid l.
Proof.
  intros Hl. revert threshold. induction Hl as [|s l Hs Hl IH]; intros threshold Ht; cbn [signers_loop].
  - unfold signer_weight, sumZ. cbn. split; [done|lia].
  - unfold weight_ok, UINT32_MAX in Hs. pose proof (signer_weight_nonneg valid l Hl) as Hn.
    change (signer_weight valid (s :: l)) with
      ((if bool_decide (sg_address s ∈ valid) then sg_weight s else 0) + signer_weight valid l).
    case_bool_decide.
    + rewrite s64_id by (unfold is_s64, int64_min, int64_max in *; lia).
      destruct (Z.leb_spec (threshold - sg_weight s) 0); [split; [lia|done]|].
      rewrite IH by lia. lia.
    + destruct (Z.leb_spec threshold 0); [lia|]. rewrite IH by lia. lia.
Qed.

Lemma SignerHashPriv_spec t a type : weight_ok (pv_master_weight (ac_priv (account_info_ a))) ->
  Forall (fun s => weight_ok (sg_weight s)) (pv_signers (ac_priv (account_info_ a))) ->
  0 <= required a type <= int64_max ->
  SignerHashPriv t a type = true <-> required a type <= signed_weight t a.
Proof.
  intros Hm Hl Hr. unfold SignerHashPriv, signed_weight. cbv zeta.
  change (if 0 <? GetTypeThreshold type a then GetTypeThreshold type a
          else th_tx_threshold (pv_thresholds (ac_priv (account_info_ a)))) with (required a type).
  set (n := required a type) in *. pose proof (signer_weight_nonneg (valid_signature_ t) _ Hl) as Hn.
  unfold weight_ok, UINT32_MAX in Hm. case_bool_decide.
  - rewrite s64_id by (unfold is_s64, int64_min, int64_max in *; lia).
    destruct (Z.leb_spec (n - pv_master_weight (ac_priv (account_info_ a))) 0); [split; [lia|done]|].
    rewrite signers_loop_spec by (done || lia). lia.
  - destruct (Z.leb_spec n 0); [split; [lia|done]|]. rewrite signers_loop_spec by (done || lia). lia.
Qed.

(** ** Application *)

Section Apply.
Context `{P : LedgerParams} (blk : BlockInfo).
Implicit Types (s : LState) (v : lview) (t : TransactionFrm) (d me : nat).

(** What the specification reads of a frame. *)
Definition same_tx t t' : Prop :=
  transaction_env_ t' = transaction_env_ t /\ valid_signature_ t' = valid_signature_ t.

Lemma spec_Apply_same t t' v i ope : same_tx t t' -> spec_Apply v t' i ope = spec_Apply v t i ope.
Proof.
  intros [He _]. unfold spec_Apply, spec_CreateAccount, ope_source, GetSourceAddress, GetNonce, tran.
  by rewrite He.
Qed.

Lemma spec_signature_same t t' v ope : same_tx t t' -> spec_signature v t' ope = spec_signature v t ope.
Proof.
  intros [He Hv]. unfold spec_signature, ope_source, GetSourceAddress, tran, SignerHashPriv. by rewrite He, Hv.
Qed.

Lemma spec_operations_same check t t' v i l : same_tx t t' ->
  spec_operations check v t' i l = spec_operations check v t i l.
Proof.
  intros Hs. revert v i. induction l as [|ope l IH]; intros v i; [done|]. cbn.
  rewrite (spec_signature_same t t'), (spec_Apply_same t t') by done.
  destruct (if check then _ else _); [done|]. destruct (spec_Apply v t i ope) as [[code v']|]; [|done].
  by rewrite IH.
Qed.

(** The state changes in the buffer of depth [d] and in the frame [me] only. *)
Definition tstep d me s s' t' : Prop :=
  others_same (S d) (env_ s) (env_ s') /\ transaction_stack_ s' = <[me := t']> (transaction_stack_ s)
  /\ total_fee_ s' = total_fee_ s /\ ticks_ s' = ticks_ s.

Lemma mod_tx_run me t f s : transaction_stack_ s !! me = Some t ->
  exists s', mod_tx me f s = Returns (tt, s', []) /\ env_ s' = env_ s
    /\ transaction_stack_ s' = <[me := f t]> (transaction_stack_ s)
    /\ total_fee_ s' = total_fee_ s /\ ticks_ s' = ticks_ s.
Proof.
  intros Ht. eexists. split; [reflexivity|]. split_and!; try done. cbn.
  apply list_eq. intros i. destruct (decide (me = i)) as [<-|Hne].
  - rewrite list_lookup_alter_eq, Ht, list_lookup_insert_eq by (by eapply lookup_lt_Some). done.
  - by rewrite list_lookup_alter_ne, list_lookup_insert_ne by done.
Qed.

Lemma get_tx_run me t s : transaction_stack_ s !! me = Some t -> get_tx me s = Returns (t, s, []).
Proof. intros Ht. unfold get_tx. rewrite (hbind_nil _ _ _ s s) by done. by rewrite Ht. Qed.

Lemma insert_same_tx me t t' s : transaction_stack_ s !! me = Some t ->
  <[me := t']> (transaction_stack_ s) !! me = Some t'.
Proof. intros Ht. apply list_lookup_insert_eq. by eapply lookup_lt_Some. Qed.

(** The frame after the operations: its position and, on a failure, its result. *)
Definition after_operations t (code j : Z) : TransactionFrm :=
  let t := set_processing j t in if code =? SUCCESS then t else set_result code t.

Lemma set_processing_twice j j' t : set_processing j (set_processing j' t) = set_processing j t.
Proof. done. Qed.

Lemma tstep_trans d me s1 s2 s3 t2 t3 : tstep d me s1 s2 t2 -> tstep d me s2 s3 t3 -> tstep d me s1 s3 t3.
Proof.
  intros ([L1 C1] & S1 & F1 & K1) ([L2 C2] & S2 & F2 & K2). split_and!; try congruence.
  - split; [congruence|]. intros j k Hj. by rewrite C2, C1.
  - by rewrite S2, S1, list_insert_insert_eq.
Qed.

Lemma step_tstep d me s s' t : step d s s' -> transaction_stack_ s !! me = Some t -> tstep d me s s' t.
Proof.
  intros (Ho & Hst & Hf & Hk) Ht. split_and!; try done. by rewrite Hst, list_insert_id.
Qed.

Lemma tstep_lookup d me s s' t t' : transaction_stack_ s !! me = Some t -> tstep d me s s' t' ->
  transaction_stack_ s' !! me = Some t'.
Proof. intros Ht (_ & -> & _). by eapply insert_same_tx. Qed.

Lemma mod_tx_tstep d me t f s : ok d s -> transaction_stack_ s !! me = Some t ->
  exists s', mod_tx me f s = Returns (tt, s', []) /\ ok d s' /\ V d s' = V d s /\ tstep d me s s' (f t).
Proof.
  intros Hok Ht. destruct (mod_tx_run me t f s Ht) as (s' & Hr & He & Hst & Hf & Hk).
  destruct (same_env d s s' He) as (Hok' & HV & _). exists s'. split_and!; try done; [by apply Hok'|].
  by split_and!; try done; rewrite He.
Qed.

(** Setting the result and returning false. *)
Lemma fail_run d me t c s : ok d s -> transaction_stack_ s !! me = Some t ->
  exists s', (mod_tx me (set_result c) ;; mret false) s = Returns (false, s', [])
    /\ ok d s' /\ V d s' = V d s /\ tstep d me s s' (set_result c t).
Proof.
  intros Hok Ht. destruct (mod_tx_tstep d me t (set_result c) s Hok Ht) as (s' & Hr & H).
  exists s'. split; [|done]. by rewrite (hbind_nil _ _ _ tt s' Hr).
Qed.

Lemma spec_signature_fails v t ope c : spec_signature v t ope = Some c -> (c =? SUCCESS) = false.
Proof.
  unfold spec_signature. destruct (v _); [destruct (SignerHashPriv _ _ _)|]; by intros [= <-].
Qed.

(** What running the operations from state [s] must do for a result of the specification. *)
Definition runs_as d me t (m : LM bool) (r : spec_result) s : Prop :=
  match r with
  | Some (code, v) =>
      exists s' j, m s = Returns (code =? SUCCESS, s', [])
        /\ ok d s' /\ V d s' = v /\ tstep d me s s' (after_operations t code j)
  | None => calls m s
  end.

(** A first step that changes the frame and the buffer only. *)
Lemma runs_as_via d me t t1 m m' r s s1 : m s = m' s1 -> tstep d me s s1 t1 ->
  (forall code j, after_operations t1 code j = after_operations t code j) ->
  runs_as d me t1 m' r s1 -> runs_as d me t m r s.
Proof.
  intros E Hst Hafter. destruct r as [[code v]|]; cbn; [|unfold calls; by rewrite E].
  intros (s' & j & Hr & Hok & HV & Hst'). exists s', j. split_and!; try done; [congruence|].
  rewrite <- Hafter. by eapply tstep_trans.
Qed.

Lemma apply_operations_run d me check l : forall i t s, ok d s -> transaction_stack_ s !! me = Some t ->
  runs_as d me t (apply_operations blk d me check i l) (spec_operations check (V d s) t i l) s.
Proof.
  induction l as [|ope l IH]; intros i t s Hok Ht; cbn [apply_operations];
    destruct (mod_tx_tstep d me t (set_processing i) s Hok Ht) as (s1 & Hr1 & Hok1 & HV1 & Hst1);
    pose proof (tstep_lookup _ _ _ _ _ _ Ht Hst1) as Ht1.
  { exists s1, i. rewrite (hbind_nil _ _ _ tt s1 Hr1). by split_and!. }
  eapply (runs_as_via _ _ _ (set_processing i t)); [apply (hbind_nil _ _ _ tt s1 Hr1)|exact Hst1|done|].
  cbn [spec_operations]. rewrite <- (spec_signature_same t (set_processing i t)) by done.
  rewrite <- (spec_Apply_same t (set_processing i t)), <- HV1 by done.
  assert (Hsig : exists s2, (if check then CheckSignature d me ope else mret None) s1
    = Returns (if check then spec_signature (V d s1) (set_processing i t) ope else None, s2, [])
    /\ ok d s2 /\ step d s1 s2 /\ V d s2 = V d s1).
  { destruct check; [by apply CheckSignature_run|by exists s1]. }
  destruct Hsig as (s2 & Hr2 & Hok2 & Hst2 & HV2).
  apply (step_tstep d me _ _ (set_processing i t)) in Hst2; [|done].
  pose proof (tstep_lookup _ _ _ _ _ _ Ht1 Hst2) as Ht2.
  eapply runs_as_via; [apply (hbind_nil _ _ _ _ s2 Hr2)|exact Hst2|done|].
  destruct (if check then spec_signature _ _ _ else None) as [sig|] eqn:Esig.
  - destruct check; [|done]. apply spec_signature_fails in Esig.
    destruct (fail_run d me _ sig s2 Hok2 Ht2) as (s3 & Hr3 & Hok3 & HV3 & Hst3).
    exists s3, i. unfold after_operations. rewrite Esig. split_and!; try done. congruence.
  - pose proof (Apply_refines blk d me (set_processing i t) i ope s2 Hok2 Ht2) as Href.
    rewrite HV2 in Href. destruct (spec_Apply (V d s1) (set_processing i t) i ope) as [[code1 v1]|];
      [|by apply calls_first].
    destruct Href as (s3 & Hr3 & Hok3 & Hst3 & HV3).
    apply (step_tstep d me _ _ (set_processing i t)) in Hst3; [|done].
    pose proof (tstep_lookup _ _ _ _ _ _ Ht2 Hst3) as Ht3.
    eapply runs_as_via; [apply (hbind_nil _ _ _ _ s3 Hr3)|exact Hst3|done|].
    change (code1 =? 0) with (code1 =? SUCCESS). destruct (code1 =? SUCCESS) eqn:Ec; cbn [negb].
    + rewrite <- HV3, <- (spec_operations_same _ t (set_processing i t)) by done. by apply IH.
    + destruct (fail_run d me _ code1 s3 Hok3 Ht3) as (s4 & Hr4 & Hok4 & HV4 & Hst4).
      exists s4, i. unfold after_operations. rewrite Ec. split_and!; try done. congruence.
Qed.
End Apply.
