(* ===== verification/LedgerFacts.v ===== *)
(** * The ledger: theorems *)
From S2P Require Import Prelude Uint128 Uint128Facts Strings AtomMap AtomMapFacts Account Chain TxFrame Operation Transaction EnvFacts LedgerSpec OperationFacts CoinFacts TransactionFacts.
Import U128.

Open Scope string_scope.
Open Scope Z_scope.

(** ** A small ledger for the witnesses *)

Definition demo_account (name : string) (nonce balance : Z) : Account :=
  MkAccount name nonce (MkPriv 1 [MkSigner "carol" 2] (Some (MkThreshold 3 []))) "" "" None balance.

Definition demo_params : LedgerParams := {|
  IsAddressValid := fun a => negb (empty a);
  account_tree := fun a => if bool_decide (a = "alice") then Some (demo_account "alice" 4 100000000)
                           else if bool_decide (a = "bob") then Some (demo_account "bob" 0 500) else None;
  asset_trie := fun _ _ => None;
  metadata_trie := fun _ _ => None;
  ledger_version := 1003;
  last_closed_seq := 9;
  cfg_base_reserve := 10;
  cfg_gas_price := 1;
  forbid_addrs := [];
  self_chain_id := 1;
  SourceCodeCheck := fun _ _ => 0;
  contract_address := fun a _ _ => (a ++ "-contract")%string;
  ByteSize := fun _ => 200;
  tx_hash := fun _ => "hash";
  pubkey_valid := fun _ => true;
  pubkey_address := fun k => k;
  Verify := fun _ sign key => bool_decide (sign = key);
  clock := fun n => Z.of_nat n;
  GetValidators := fun _ => Some ["v1"; "v2"; "v3"];
  Execute := fun _ => mret 0;
  stack_repeats := 0 |}.

Definition demo_op : Operation :=
  MkOperation PAY_COIN "" "" (MkCreateAccount "" 0 "" None [] 0 "") (MkIssueAsset "" 0)
    (MkPayAsset "" None "") (MkSetMetadata "" "" 0 false) (MkSetSignerWeight 0 []) (MkSetThreshold 0 [])
    (MkPayCoin "bob" 70 "") (MkLog "" []) (MkSetPrivilege "" [] "" []).

Definition demo_env : TransactionEnv :=
  MkTxEnv (MkTransaction "alice" 5 1000 1 0 "" [demo_op] 1)
    [MkSignature "alice" "alice"; MkSignature "carol" "carol"; MkSignature "mallory" "forged"].

Definition demo_tx : TransactionFrm := @Initialize demo_params demo_env.
Definition demo_state : LState := MkLState empty_store [demo_tx] 0 0 empty_store JNull.
Definition demo_block : BlockInfo := MkBlock 10 777 10 false.

Lemma demo_ok : ok 0 demo_state /\ transaction_stack_ demo_state !! 0%nat = Some demo_tx.
Proof. split; [by apply (empty_env (P := demo_params))|done]. Qed.

Lemma demo_good : good (@V demo_params 0 demo_state).
Proof.
  destruct (empty_env (P := demo_params) demo_state eq_refl) as (_ & -> & _). intros k a.
  unfold AccountFromDB. cbn. repeat case_bool_decide; cbn; intros [= <-]; unfold in_range, int64_max; cbn; lia.
Qed.

(** ** Operations *)

(** C11: Every operation implements the abstract ledger. From any well-formed stack of
    environments, applying an operation (create an account, issue or pay an asset, pay
    coins, set metadata, signers, thresholds or privileges, log) returns the error
    code its specification computes from the visible accounts alone, leaves exactly
    the accounts the specification yields visible, and changes neither the committed
    accounts nor the transaction stack nor the fees. Where the specification has no
    result, the operation runs a contract: every run that returns records the call. *)
Theorem operation_refines `{P : LedgerParams} (blk : BlockInfo) (d me : nat) (t : TransactionFrm)
  (index : Z) (ope : Operation) (s : LState) :
  ok d s -> transaction_stack_ s !! me = Some t ->
  match spec_Apply (V d s) t index ope with
  | Some (code, v) =>
      exists s', Operation.Apply blk d me index ope s = Returns (code, s', [])
        /\ ok d s' /\ V d s' = v /\ VB d s' = VB d s
        /\ transaction_stack_ s' = transaction_stack_ s /\ total_fee_ s' = total_fee_ s
  | None => forall code s' es, Operation.Apply blk d me index ope s = Returns (code, s', es) -> es <> []
  end.
Proof.
  intros Hok Ht. pose proof (Apply_refines blk d me t index ope s Hok Ht) as H. unfold refines in H.
  destruct (spec_Apply _ _ _ _) as [[code v]|]; [|done]. destruct H as (s' & Hr & Hok' & Hst & HV).
  exists s'. split_and!; try done; [by apply step_VB|by destruct Hst as (_ & ? & _)|by destruct Hst as (_ & _ & ? & _)].
Qed.

Lemma operation_refines_witness :
  exists s', @Operation.Apply demo_params demo_block 0 0 0 demo_op demo_state = Returns (SUCCESS, s', [])
    /\ bal (@V demo_params 0 s') "alice" = 99999930 /\ bal (@V demo_params 0 s') "bob" = 570.
Proof.
  destruct demo_ok as [Hok Ht].
  pose proof (operation_refines (P := demo_params) demo_block 0 0 demo_tx 0 demo_op demo_state Hok Ht) as H.
  assert (Hs : (fun r => (fst r, bal (snd r) "alice", bal (snd r) "bob"))
    <$> @spec_Apply demo_params (@V demo_params 0 demo_state) demo_tx 0 demo_op = Some (0, 99999930, 570))
    by (vm_compute; reflexivity).
  destruct (spec_Apply _ _ _ _) as [[code v]|]; [|discriminate Hs]. cbn in Hs. injection Hs as -> Ha Hb.
  destruct H as (s' & Hr & _ & HV & _). exists s'. rewrite HV. split; [exact Hr|split; assumption].
Defined.

(** Operations conserve coins. An operation that succeeds without running a contract
    leaves the sum of the balances over every sufficiently large set of accounts as it
    was, and every account keeps a balance between 0 and the largest int64, whatever
    the outcome. *)
Theorem operation_conserves_coins `{P : LedgerParams} (blk : BlockInfo) (d me : nat) (t : TransactionFrm)
  (index : Z) (ope : Operation) (s s' : LState) (code : Z) :
  0 <= cfg_base_reserve <= int64_max -> ok d s -> transaction_stack_ s !! me = Some t ->
  good (V d s) -> coin_args ope ->
  Operation.Apply blk d me index ope s = Returns (code, s', []) ->
  good (V d s') /\ (code = SUCCESS -> moved (V d s) (V d s') 0).
Proof.
  intros Hres Hok Ht Hg Hargs Hrun. pose proof (Apply_refines blk d me t index ope s Hok Ht) as H.
  pose proof (spec_Apply_conserves Hres (V d s) t index ope Hg Hargs) as Hc. unfold refines in H.
  destruct (spec_Apply _ _ _ _) as [[code' v]|]; [|by apply H in Hrun].
  destruct H as (s1 & Hr & _ & _ & HV). rewrite Hr in Hrun. injection Hrun as -> ->. by rewrite HV.
Qed.

Lemma operation_conserves_coins_witness :
  exists s', @Operation.Apply demo_params demo_block 0 0 0 demo_op demo_state = Returns (SUCCESS, s', [])
    /\ moved (@V demo_params 0 demo_state) (@V demo_params 0 s') 0.
Proof.
  destruct demo_ok as [Hok Ht].
  destruct (@Operation.Apply demo_params demo_block 0 0 0 demo_op demo_state) as [[[c s'] es]|e] eqn:E;
    [|vm_compute in E; discriminate E].
  assert (Hc : c = SUCCESS /\ es = []) by (vm_compute in E; injection E as <- _ <-; split; reflexivity).
  destruct Hc as [-> ->]. exists s'. split; [reflexivity|].
  refine (proj2 (operation_conserves_coins (P := demo_params) demo_block 0 0 demo_tx 0 demo_op demo_state s'
    SUCCESS _ Hok Ht demo_good _ E) eq_refl).
  - cbn. unfold int64_max. lia.
  - split; intros Hop; [cbn; unfold int64_max; lia|discriminate Hop].
Defined.

(** ** Signatures *)

(** The signature check is a weight count: a transaction may act for an account in an
    operation type exactly when the weights of the account's master key and signers
    among the transaction's valid signatures reach the threshold of that type (the
    general threshold when the type has none). *)
Theorem signature_weight (t : TransactionFrm) (a : AccountFrm) (type : Z) :
  weight_ok (pv_master_weight (ac_priv (account_info_ a))) ->
  Forall (fun s => weight_ok (sg_weight s)) (pv_signers (ac_priv (account_info_ a))) ->
  0 <= required a type <= int64_max ->
  SignerHashPriv t a type = true <-> required a type <= signed_weight t a.
Proof. apply SignerHashPriv_spec. Qed.

Lemma signature_weight_witness :
  let a := new_frm (demo_account "alice" 4 100000000) in
  required a PAY_COIN = 3 /\ signed_weight demo_tx a = 3 /\ SignerHashPriv demo_tx a PAY_COIN = true.
Proof.
  split; [reflexivity|]. split; [vm_compute; reflexivity|].
  apply (signature_weight demo_tx (new_frm (demo_account "alice" 4 100000000)) PAY_COIN).
  - split; [discriminate|vm_compute; discriminate].
  - constructor; [split; vm_compute; discriminate|constructor].
  - split; [vm_compute; discriminate|vm_compute; discriminate].
  - vm_compute. discriminate.
Defined.
