(* ===== verification/BlockSpec.v ===== *)
(** * The abstract block

    What closing a ledger promises, on functions from addresses to accounts: a valid
    transaction pays its fee limit in advance and uses up a nonce; then it is applied
    and refunded, or it has failed or expired and leaves no other trace. At the end the
    fees and the block reward are paid out. All of it conserves coins. *)
From S2P Require Import Prelude Uint128 Uint128Facts Strings AtomMap Account Chain TxFrame Operation Transaction Ledger EnvFacts LedgerSpec CoinFacts.
Import U128.

Open Scope string_scope.
Open Scope Z_scope.

(** ** Balances *)
Definition credit (x : Z) (a : AccountFrm) : AccountFrm := map_info (set_balance (GetAccountBalance a + x)) a.
Definition charged (fee : Z) (a : AccountFrm) : AccountFrm := NonceIncrease_ (credit (- fee) a).

Inductive verdict := Applied | Expired | Failed.
#[export] Instance verdict_eq_dec : EqDecision verdict.
Proof. solve_decision. Defined.

Section BlockSpec.
Context `{P : LedgerParams} (blk : BlockInfo).
Implicit Types (v : lview) (t : TransactionFrm) (F : Z).

(** ** A transaction *)

Definition cost t : Z := GetSelfGas t * GetGasPrice t.

Definition spec_valid v t : bool :=
  (ValidForParameter blk t 0).1
  && match v (GetSourceAddress t) with
     | None => false
     | Some a =>
         (s64 (GetAccountNonce a + 1) =? GetNonce t)
         && (bi_test_mode blk || SignerHashPriv t a (-1))
         && (cfg_base_reserve <=? GetAccountBalance a - GetFeeLimit t)
         && in_s64 (cost t) && (cost t <=? GetFeeLimit t)
     end.

(** What is left of the fee limit goes back to the source account. *)
Definition spec_refund v t : lview * Z :=
  let back := GetFeeLimit t - cost t in
  match v (GetSourceAddress t) with
  | Some a => if back <=? 0 then (v, 0) else (upd (GetSourceAddress t) (credit back a) v, back)
  | None => (v, 0)
  end.

(** The end of a transaction whose operations led from [v1] to [v2]: the verdict, the
    accounts that are committed and the fee that is kept. *)
Definition spec_settle v1 v2 t (code : Z) (expired : bool) : verdict * lview * Z :=
  let fee := GetFeeLimit t in
  if expired then (Expired, v1, fee)
  else if negb (code =? SUCCESS) then (Failed, v1, fee)
  else let '(v3, back) := spec_refund v2 t in (Applied, v3, fee - back).

(** [None] when a contract runs. *)
Definition spec_round v t (expired : bool) : option (verdict * lview * Z) :=
  with_account v (GetSourceAddress t) (fun a =>
  let fee := GetFeeLimit t in
  let v1 := upd (GetSourceAddress t) (charged fee a) v in
  match spec_operations (negb (bi_test_mode blk)) v1 t 0 (tx_operations (tran t)) with
  | None => None
  | Some (code, v2) => Some (spec_settle v1 v2 t code expired)
  end).

(** A block of valid transactions of which those at the positions [expired] expire:
    the accounts, the fees and the positions of the transactions that fail. *)
Fixpoint spec_block (expired : Z -> bool) (i : Z) v F (errors : gset Z) (l : list TransactionEnv)
  : option (lview * Z * gset Z) :=
  match l with
  | [] => Some (v, F, errors)
  | te :: l' =>
      let t := Initialize te in
      if negb (spec_valid v t) then None
      else
      match spec_round v t (expired i) with
      | None => None
      | Some (r, v', fee) =>
          spec_block expired (i + 1) v' (F + fee)
            (match r with Failed => {[ i ]} ∪ errors | _ => errors end) l'
      end
  end.

(** ** Rewards *)

Definition pay (x : Z) v (k : string) : lview := upd k (credit x (default (CreatAccountFrm k 0) (v k))) v.

(** Every validator gets the same; one of them gets the remainder. *)
Definition spec_share v (total : Z) (set : list string) : lview :=
  let n := Z.of_nat (length set) in
  let average := Z.quot total n in
  let v := foldl (pay average) v set in
  let left := total - n * average in
  match set !! Z.to_nat (Z.rem (bi_header_seq blk) n) with
  | Some k => if 0 <? left then pay left v k else v
  | None => v
  end.

(** [None] when there is nobody to pay. *)
Definition spec_reward v F : option lview :=
  let total := F + GetBlockReward (bi_header_seq blk) in
  if (total =? 0) || bi_test_mode blk then Some v
  else
  match (if CHECK_VERSION_GT_1002 then v GET_CONTRACT_VALIDATOR_ADDRESS else None) with
  | Some a => Some (upd GET_CONTRACT_VALIDATOR_ADDRESS (credit total a) v)
  | None =>
      match GetValidators (s64 (bi_header_seq blk - 1)) with
      | None | Some [] => None
      | Some set => Some (spec_share v total set)
      end
  end.

(** ** The supply *)

(** Balances are not negative, and all coins together with the fees fit an int64. *)
Definition bounded v F : Prop := good v /\ 0 <= F /\ forall D, coins D v + F <= int64_max.

Lemma coins_subset v D D' : good v -> D ⊆ D' -> coins D v <= coins D' v.
Proof.
  intros Hv HD. rewrite (union_difference_L D D') by done.
  assert (Hdisj : D ## D' ∖ D) by set_solver. revert Hdisj. clear HD. generalize (D' ∖ D). clear D'.
  refine (set_ind_L (fun E => D ## E -> coins D v <= coins (D ∪ E) v) _ _); [intros _; by rewrite (right_id_L ∅ (∪))|].
  intros k E Hk IH Hdisj. replace (D ∪ ({[k]} ∪ E)) with ({[k]} ∪ (D ∪ E)) by set_solver.
  rewrite coins_insert by set_solver. specialize (IH ltac:(set_solver)).
  assert (0 <= bal v k); [|lia]. unfold bal. destruct (v k) as [a|] eqn:Ea; [|done]. by apply (Hv k).
Qed.

Lemma bounded_moved v v' F F' : bounded v F -> good v' -> 0 <= F' -> moved v v' (F - F') -> bounded v' F'.
Proof.
  intros (Hv & HF & HD) Hv' HF' [D0 Hm]. split_and!; [done..|]. intros D.
  pose proof (coins_subset v' D (D ∪ D0) Hv' ltac:(set_solver)) as Hle.
  specialize (Hm (D ∪ D0) ltac:(set_solver)). specialize (HD (D ∪ D0)). lia.
Qed.

(** Accounts outside a finite set hold nothing. *)
Lemma coins_support v D0 D : good v -> (forall k, k ∉ D0 -> v k = None) -> coins D v <= coins D0 v.
Proof.
  intros Hv HD0. etransitivity; [apply (coins_subset v D (D ∪ D0)); set_solver|].
  revert D. refine (set_ind_L (fun D => coins (D ∪ D0) v <= coins D0 v) _ _); [by rewrite (left_id_L ∅ (∪))|].
  intros k D Hk IH. destruct (decide (k ∈ D0)) as [Hin|Hin].
  - by replace ({[k]} ∪ D ∪ D0) with (D ∪ D0) by set_solver.
  - replace ({[k]} ∪ D ∪ D0) with ({[k]} ∪ (D ∪ D0)) by set_solver. rewrite coins_insert by set_solver.
    unfold bal. rewrite HD0 by done. done.
Qed.

Lemma coins_empty v : coins ∅ v = 0.
Proof. unfold coins. by rewrite elements_empty. Qed.

Lemma bounded_account v F k a : bounded v F -> v k = Some a -> in_range a /\ GetAccountBalance a + F <= int64_max.
Proof.
  intros (Hv & HF & HD) Hk. split; [by apply (Hv k)|]. specialize (HD ({[ k ]} ∪ ∅)).
  rewrite coins_insert, coins_empty in HD by set_solver. unfold bal in HD. rewrite Hk in HD. lia.
Qed.

(** Paying [x] out of the fees to an account. *)
Lemma credit_moved v F k a x : bounded v F -> v k = Some a -> 0 <= x <= F ->
  bounded (upd k (credit x a) v) (F - x) /\ moved v (upd k (credit x a) v) x.
Proof.
  intros Hb Hk Hx. destruct (bounded_account v F k a Hb Hk) as [[Ha1 Ha2] Ha].
  assert (Hm : moved v (upd k (credit x a) v) x).
  { eapply moved_eq; [apply moved_upd|]. unfold bal. rewrite Hk. cbn. lia. }
  split; [|done]. apply (bounded_moved v _ F); [done| |lia|eapply moved_eq; [exact Hm|lia]].
  apply good_upd; [apply Hb|]. unfold in_range. cbn. lia.
Qed.

Lemma pay_moved v F k x : bounded v F -> 0 <= x <= F -> bounded (pay x v k) (F - x) /\ moved v (pay x v k) x.
Proof.
  intros Hb Hx. unfold pay. destruct (v k) as [a|] eqn:Hk; [by apply credit_moved|]. cbn [default].
  assert (Hm : moved v (upd k (credit x (CreatAccountFrm k 0)) v) x).
  { eapply moved_eq; [apply moved_upd|]. unfold bal. rewrite Hk. cbn. lia. }
  split; [|done]. apply (bounded_moved v _ F); [done| |lia|eapply moved_eq; [exact Hm|lia]].
  destruct Hb as (Hv & HF & HD). apply good_upd; [done|]. unfold in_range. cbn.
  specialize (HD ∅). rewrite coins_empty in HD. lia.
Qed.

(** ** Conservation *)

Context (reserve : 0 <= cfg_base_reserve <= int64_max).

Lemma spec_operations_conserves check t l : forall i v, good v -> Forall coin_args l ->
  conserves v (spec_operations check v t i l).
Proof.
  induction l as [|ope l IH]; intros i v Hv Hl; cbn [spec_operations]; [by apply conserves_same|].
  inversion_clear Hl as [|? ? Hope Hl'].
  destruct (if check then _ else _); [by apply conserves_same|].
  pose proof (spec_Apply_conserves reserve v t i ope Hv Hope) as Hc.
  destruct (spec_Apply v t i ope) as [[code v1]|]; [|done]. destruct Hc as [Hg Hm].
  destruct (Z.eqb_spec code SUCCESS) as [Hs|Hs]; cbn [negb]; [|by split].
  specialize (IH (i + 1) v1 Hg Hl'). destruct (spec_operations _ v1 _ _ _) as [[code2 v2]|]; [|done].
  destruct IH as [Hg2 Hm2]. split; [done|]. intros Hc2.
  eapply moved_eq; [eapply moved_trans; [by apply Hm|by apply Hm2]|lia].
Qed.

(** What a valid transaction provides. *)
Record funded v t (a : AccountFrm) : Prop := {
  fd_source : v (GetSourceAddress t) = Some a;
  fd_fee : 0 <= GetFeeLimit t;
  fd_balance : cfg_base_reserve <= GetAccountBalance a - GetFeeLimit t;
  fd_cost : 0 <= cost t <= GetFeeLimit t;
  fd_args : Forall coin_args (tx_operations (tran t)) }.

Lemma charged_bounded v F t a : bounded v F -> funded v t a ->
  let v1 := upd (GetSourceAddress t) (charged (GetFeeLimit t) a) v in
  bounded v1 (F + GetFeeLimit t) /\ moved v v1 (- GetFeeLimit t).
Proof.
  intros Hb [Hs Hfee Hbal _ _] v1. destruct (bounded_account v F _ a Hb Hs) as [[Ha1 Ha2] Ha].
  assert (Hm : moved v v1 (- GetFeeLimit t)).
  { eapply moved_eq; [apply moved_upd|]. unfold bal. rewrite Hs. cbn. lia. }
  split; [|done]. apply (bounded_moved v _ F); [done| |destruct Hb; lia|eapply moved_eq; [exact Hm|lia]].
  apply good_upd; [apply Hb|]. unfold in_range. cbn. lia.
Qed.

(** After the operations the accounts are bounded with the fee limit held back. *)
Lemma operations_bounded v F t a check code v2 : bounded v F -> funded v t a ->
  spec_operations check (upd (GetSourceAddress t) (charged (GetFeeLimit t) a) v) t 0 (tx_operations (tran t))
    = Some (code, v2) -> code = SUCCESS ->
  bounded v2 (F + GetFeeLimit t) /\ moved v v2 (- GetFeeLimit t).
Proof.
  intros Hb Hf Hops Hc. destruct (charged_bounded v F t a Hb Hf) as [Hb1 Hm1].
  pose proof (spec_operations_conserves check t (tx_operations (tran t)) 0 _ (proj1 Hb1) (fd_args _ _ _ Hf)) as Hcons.
  rewrite Hops in Hcons. destruct Hcons as [Hg Hm]. specialize (Hm Hc). split.
  - apply (bounded_moved _ v2 _ _ Hb1 Hg); [apply Hb1|]. eapply moved_eq; [exact Hm|lia].
  - eapply moved_eq; [eapply moved_trans; [exact Hm1|exact Hm]|lia].
Qed.

Lemma spec_round_conserves v F t a expired r v' fee : bounded v F -> funded v t a ->
  spec_round v t expired = Some (r, v', fee) ->
  bounded v' (F + fee) /\ moved v v' (- fee) /\ 0 <= fee <= GetFeeLimit t.
Proof.
  intros Hb Hf. destruct (charged_bounded v F t a Hb Hf) as [Hb1 Hm1].
  unfold spec_round, with_account. rewrite (fd_source _ _ _ Hf). cbv zeta.
  destruct (spec_operations _ _ _ _ _) as [[code v2]|] eqn:Hops; [|done]. destruct Hf as [Hs Hfee Hbal Hcost Hargs] eqn:EHf.
  unfold spec_settle. cbv zeta. destruct expired; [intros [= <- <- <-]; split_and!; (done || lia)|].
  destruct (Z.eqb_spec code SUCCESS) as [Hc|_]; cbn [negb]; [|intros [= <- <- <-]; split_and!; (done || lia)].
  destruct (operations_bounded v F t a _ code v2 Hb Hf Hops Hc) as [Hb2 Hm2]. unfold spec_refund. cbv zeta.
  destruct (v2 (GetSourceAddress t)) as [a2|] eqn:Ea2;
    [|intros [= <- <- <-]; rewrite Z.sub_0_r; split_and!; (done || lia)].
  destruct (Z.leb_spec (GetFeeLimit t - cost t) 0);
    [intros [= <- <- <-]; rewrite Z.sub_0_r; split_and!; (done || lia)|].
  destruct (credit_moved v2 (F + GetFeeLimit t) (GetSourceAddress t) a2 (GetFeeLimit t - cost t) Hb2 Ea2) as [Hb3 Hm3].
  { destruct Hb as (_ & HF & _). lia. }
  intros [= <- <- <-]. split_and!; [|eapply moved_eq; [eapply moved_trans; [exact Hm2|exact Hm3]|lia]|lia|lia].
  by replace (F + (GetFeeLimit t - (GetFeeLimit t - cost t))) with (F + GetFeeLimit t - (GetFeeLimit t - cost t)) by lia.
Qed.

(** ** Valid transactions are funded *)

(** The int64 fields of the messages; a message has a size. *)
Definition typed_op (ope : Operation) : Prop :=
  is_s64 (pc_amount (op_pay_coin ope)) /\ is_s64 (ca_init_balance (op_create_account ope)).
Definition typed_tx (te : TransactionEnv) : Prop :=
  is_s64 (tx_fee_limit (te_transaction te)) /\ is_s64 (tx_gas_price (te_transaction te))
  /\ Forall typed_op (tx_operations (te_transaction te)).
Context (sizes : forall te, 0 <= ByteSize te).

Lemma GetOperationTypeGas_bound ope : 0 <= GetOperationTypeGas ope <= 5000000.
Proof.
  unfold GetOperationTypeGas. cbv zeta.
  repeat match goal with |- context [if ?b then _ else _] => destruct b end; vm_compute; split; discriminate.
Qed.

Lemma gas_bound l : forall g, 0 <= g -> g + 5000000 * Z.of_nat (length l) <= int64_max ->
  0 <= foldl (fun g op => s64 (g + GetOperationTypeGas op)) g l <= g + 5000000 * Z.of_nat (length l).
Proof.
  induction l as [|ope l IH]; intros g Hg Hmax; cbn [foldl length] in *; [lia|].
  pose proof (GetOperationTypeGas_bound ope).
  rewrite s64_id by (unfold is_s64, int64_min; lia). specialize (IH (g + GetOperationTypeGas ope)). lia.
Qed.

Lemma CheckValid_coin_args ope source n : typed_op ope -> CheckValid ope source n = SUCCESS -> coin_args ope.
Proof.
  intros [Hp Hc] Hv. split; [|done]. intros Ht. unfold CheckValid in Hv. rewrite Ht in Hv. cbn in Hv.
  repeat (case_match; [done|]). unfold CheckPayCoin in Hv.
  destruct (Z.ltb_spec (pc_amount (op_pay_coin ope)) 0); [done|]. unfold is_s64 in Hp. lia.
Qed.

Lemma check_operations_ok n l : forall t code, Forall typed_op l -> result_ t = SUCCESS ->
  check_operations t n l = (true, code) -> code = SUCCESS /\ Forall coin_args l.
Proof.
  induction l as [|ope l IH]; intros t code Hl Ht; cbn [check_operations]; [intros [= <-]; by split|].
  inversion_clear Hl as [|? ? Hope Hl']. destruct (negb _); [done|]. destruct (_ <? _); [done|].
  destruct (Z.eqb_spec (CheckValid ope (ope_source t ope) n) SUCCESS) as [E|]; cbn [negb]; [|done].
  rewrite E. intros H. apply IH in H as [-> Ha]; [|done|done]. split; [done|]. constructor; [|done].
  by eapply CheckValid_coin_args.
Qed.

Lemma ValidForParameter_ok te t' : typed_tx te -> ValidForParameter blk (Initialize te) 0 = (true, t') ->
  let t := Initialize te in
  t' = t /\ 0 <= GetFeeLimit t /\ 0 <= GetGasPrice t /\ 0 <= GetSelfGas t <= int64_max
  /\ Forall coin_args (tx_operations (tran t)).
Proof.
  intros (Hfee & Hprice & Hops) H t. unfold ValidForParameter in H. fold t in H. cbv zeta in H.
  destruct (TRANSACTION_LIMIT_SIZE <=? ByteSize _) eqn:E1; [done|].
  destruct (_ =? 0) eqn:E2 in H; [done|]. destruct (MAX_OPERATIONS_NUM_PER_TRANSACTION <? _) eqn:E3; [done|].
  repeat (match goal with H : (if ?b then (false, _) else _) = _ |- _ => destruct b eqn:? end; [done|]).
  destruct (check_operations t 0 _) as [okb code] eqn:Ec. injection H as -> <-.
  apply check_operations_ok in Ec as [-> Ha]; [|done|done].
  assert (Hgas : 0 <= GetSelfGas t <= int64_max).
  { pose proof (gas_bound (tx_operations (tran t)) (ByteSize (transaction_env_ t)) (sizes _)) as Hg.
    unfold TRANSACTION_LIMIT_SIZE, MAX_OPERATIONS_NUM_PER_TRANSACTION, int64_max in *. unfold GetSelfGas. lia. }
  split_and!; try done; unfold GetFeeLimit, GetGasPrice; lia.
Qed.

Lemma spec_valid_funded v te : typed_tx te -> spec_valid v (Initialize te) = true ->
  exists a, funded v (Initialize te) a.
Proof.
  intros Ht H. unfold spec_valid in H. apply andb_prop in H as [Hp H].
  destruct (ValidForParameter blk (Initialize te) 0) as [okb t'] eqn:E. cbn in Hp. subst okb.
  apply ValidForParameter_ok in E as (_ & Hfee & Hprice & Hgas & Hargs); [|done].
  destruct (v _) as [a|] eqn:Ea; [|done]. rewrite !andb_true_iff in H. exists a.
  split; [done|done|lia| |done]. unfold cost in *. nia.
Qed.

Lemma spec_block_conserves expired l : forall i v F errors v' F' errors', bounded v F -> Forall typed_tx l ->
  spec_block expired i v F errors l = Some (v', F', errors') -> bounded v' F' /\ moved v v' (F - F').
Proof.
  induction l as [|te l IH]; intros i v F errors v' F' errors' Hb Hl; cbn [spec_block].
  { intros [= <- <- _]. split; [done|]. rewrite Z.sub_diag. by apply moved_same. }
  inversion_clear Hl as [|? ? Hte Hl']. destruct (spec_valid v (Initialize te)) eqn:Ev; cbn [negb]; [|done].
  destruct (spec_valid_funded v te Hte Ev) as [a Hf].
  destruct (spec_round v (Initialize te) (expired i)) as [[[r v1] fee]|] eqn:Er; [|done].
  destruct (spec_round_conserves v F _ a _ r v1 fee Hb Hf Er) as (Hb1 & Hm1 & _). intros H.
  apply IH in H as [Hb2 Hm2]; [|done|done]. split; [done|].
  eapply moved_eq; [eapply moved_trans; [exact Hm1|exact Hm2]|lia].
Qed.

(** ** The reward is paid out exactly *)

Lemma reward_loop_bound n : forall r, 0 <= r -> 0 <= reward_loop n r <= r.
Proof.
  induction n as [|n IH]; intros r Hr; cbn [reward_loop]; [lia|]. destruct (Z.leb_spec r 0); [lia|].
  assert (Hs : 0 <= reward_step r <= r).
  { unfold reward_step. rewrite Z.shiftr_div_pow2 by lia. change (2 ^ 2) with 4.
    destruct (r <? 4); [rewrite Z.quot_div_nonneg by lia|]; Z.div_mod_to_equations; lia. }
  specialize (IH _ (proj1 Hs)). lia.
Qed.

Lemma GetBlockReward_bound h : 0 <= GetBlockReward h <= REWARD_INIT_VALUE.
Proof. apply reward_loop_bound. vm_compute. discriminate. Qed.

Lemma pay_all_moved x l : forall v F, bounded v F -> 0 <= x -> Z.of_nat (length l) * x <= F ->
  bounded (foldl (pay x) v l) (F - Z.of_nat (length l) * x) /\ moved v (foldl (pay x) v l) (Z.of_nat (length l) * x).
Proof.
  induction l as [|k l IH]; intros v F Hb Hx HF; cbn [foldl length].
  - split; [by rewrite Z.sub_0_r|]. by apply moved_same.
  - cbn [length] in HF. destruct (pay_moved v F k x Hb) as [Hb1 Hm1]; [lia|].
    destruct (IH _ _ Hb1 Hx) as [Hb2 Hm2]; [lia|]. split.
    + by replace (F - Z.of_nat (S (length l)) * x) with (F - x - Z.of_nat (length l) * x) by lia.
    + eapply moved_eq; [eapply moved_trans; [exact Hm1|exact Hm2]|lia].
Qed.

Lemma quot_share total n : 0 <= total -> 0 < n -> 0 <= Z.quot total n /\ n * Z.quot total n <= total.
Proof. intros. rewrite Z.quot_div_nonneg by lia. Z.div_mod_to_equations. nia. Qed.

Lemma spec_share_moved v total set : bounded v total -> set <> [] -> 0 <= bi_header_seq blk ->
  bounded (spec_share v total set) 0 /\ moved v (spec_share v total set) total.
Proof.
  intros Hb Hset Hseq. unfold spec_share. cbv zeta. set (n := Z.of_nat (length set)).
  assert (Hn : 0 < n) by (unfold n; destruct set; [done|cbn [length]; lia]). pose proof Hb as (_ & Ht & _).
  destruct (quot_share total n Ht Hn) as [Hq0 Hq1].
  destruct (pay_all_moved (Z.quot total n) set v total Hb Hq0 Hq1) as [Hb1 Hm1]. fold n in Hb1, Hm1.
  assert (Hin : is_Some (set !! Z.to_nat (Z.rem (bi_header_seq blk) n))).
  { apply lookup_lt_is_Some. pose proof (Z.rem_bound_pos (bi_header_seq blk) n Hseq Hn). lia. }
  destruct Hin as [k ->]. set (v1 := foldl _ v set) in *. destruct (Z.ltb_spec 0 (total - n * Z.quot total n)).
  - destruct (pay_moved v1 _ k (total - n * Z.quot total n) Hb1) as [Hb2 Hm2]; [lia|]. split.
    + by rewrite Z.sub_diag in Hb2.
    + eapply moved_eq; [eapply moved_trans; [exact Hm1|exact Hm2]|lia].
  - assert (total - n * Z.quot total n = 0) as E by lia. rewrite E in Hb1. split; [done|].
    eapply moved_eq; [exact Hm1|lia].
Qed.

Lemma spec_reward_moved v F v' : let total := F + GetBlockReward (bi_header_seq blk) in
  bounded v total -> 0 <= bi_header_seq blk -> bi_test_mode blk = false -> spec_reward v F = Some v' ->
  bounded v' 0 /\ moved v v' total.
Proof.
  intros total Hb Hseq Htest. unfold spec_reward. fold total. rewrite Htest, orb_false_r.
  destruct (Z.eqb_spec total 0) as [E|_].
  { intros [= <-]. rewrite E in Hb |- *. split; [done|]. by apply moved_same. }
  destruct (if CHECK_VERSION_GT_1002 then _ else _) as [a|] eqn:Ea.
  - intros [= <-]. destruct (CHECK_VERSION_GT_1002); [|done].
    destruct (credit_moved v total _ a total Hb Ea) as [Hb1 Hm1]; [destruct Hb; lia|]. by rewrite Z.sub_diag in Hb1.
  - destruct (GetValidators _) as [[|k set]|]; [done| |done]. intros [= <-]. by apply spec_share_moved.
Qed.
End BlockSpec.
