(* ===== verification/RoundFacts.v ===== *)
(** * One transaction of a block

    The steps of the loops of src/ledger/ledger_frm.cpp (validity, fee, nonce,
    application, refund, clean-up) against the abstract block. *)
From S2P Require Import Prelude Uint128 Uint128Facts Strings AtomMap AtomMapFacts Account Chain TxFrame Operation Transaction Ledger EnvFacts LedgerSpec OperationFacts CoinFacts TransactionFacts BlockSpec.
Import U128.

Open Scope string_scope.
Open Scope Z_scope.

Section Round.
Context `{P : LedgerParams} (blk : BlockInfo).
Implicit Types (s : LState) (v : lview) (t : TransactionFrm) (F : Z).

(** Between transactions: what is visible is committed, and the stack is empty. *)
Definition at_block s v F : Prop :=
  ok 0 s /\ V 0 s = v /\ VB 0 s = v /\ total_fee_ s = F /\ transaction_stack_ s = [].

(** While transaction [t] is applied: [v] is visible, [w] is committed. *)
Definition at_tx s t v w F : Prop :=
  ok 0 s /\ V 0 s = v /\ VB 0 s = w /\ total_fee_ s = F /\ transaction_stack_ s = [t].

Lemma at_tx_mod s t v w F f : at_tx s t v w F ->
  exists s', mod_tx 0 f s = Returns (tt, s', []) /\ at_tx s' (f t) v w F /\ ticks_ s' = ticks_ s.
Proof.
  intros (Hok & HV & HB & HF & Hst). destruct (mod_tx_run 0 t f s) as (s' & Hr & He & Hst' & HF' & Hk); [by rewrite Hst|].
  destruct (same_env 0 s s' He) as (Hok' & HV' & HB' & _). exists s'. split_and!; try done.
  split_and!; [by apply Hok'|congruence|congruence|congruence|]. rewrite Hst', Hst. done.
Qed.

Lemma at_tx_get s t v w F : at_tx s t v w F -> get_tx 0 s = Returns (t, s, []).
Proof. intros (_ & _ & _ & _ & Hst). apply get_tx_run. by rewrite Hst. Qed.

Lemma HighResolution_run s : exists s', HighResolution s = Returns (clock (ticks_ s), s', [])
  /\ env_ s' = env_ s /\ transaction_stack_ s' = transaction_stack_ s /\ total_fee_ s' = total_fee_ s
  /\ ticks_ s' = S (ticks_ s).
Proof. by eexists. Qed.

Lemma at_tx_clock s t v w F : at_tx s t v w F ->
  exists s', HighResolution s = Returns (clock (ticks_ s), s', []) /\ at_tx s' t v w F /\ ticks_ s' = S (ticks_ s).
Proof.
  intros (Hok & HV & HB & HF & Hst). destruct (HighResolution_run s) as (s' & Hr & He & Hst' & HF' & Hk).
  destruct (same_env 0 s s' He) as (Hok' & HV' & HB' & _). exists s'. split_and!; try done.
  split_and!; [by apply Hok'|congruence..].
Qed.

(** ** Validity *)

Lemma CheckFee_run t a s : in_range a -> 0 <= cfg_base_reserve <= int64_max ->
  0 <= GetFeeLimit t -> is_s64 (GetFeeLimit t) -> 0 <= GetGasPrice t -> is_s64 (GetGasPrice t) ->
  is_s64 (GetSelfGas t) ->
  exists r, CheckFee t (GetGasPrice t) (GetFeeLimit t) a s = Returns (r, s, [])
    /\ bool_decide (r = None) = (cfg_base_reserve <=? GetAccountBalance a - GetFeeLimit t)
         && in_s64 (cost t) && (cost t <=? GetFeeLimit t).
Proof.
  intros Ha Hres Hfee Hfs Hp Hps Hg. unfold CheckFee. pose proof (in_range_s64 a Ha) as Has.
  rewrite SafeIntSub_spec by done. unfold in_range in Ha.
  assert (in_s64 (GetAccountBalance a - GetFeeLimit t) = true) as ->
    by (unfold in_s64, is_s64, int64_min, int64_max in *; lia).
  cbn [negb]. rewrite Z.ltb_antisym. destruct (_ <=? _); cbn [negb andb]; [|by eexists].
  unfold on_outcome at 1. rewrite SafeIntMul_spec by (done || unfold int64_min; lia).
  unfold mbind, hm_bind. fold (cost t). destruct (in_s64 (cost t)); cbn [negb andb]; [|by eexists].
  rewrite Z.ltb_antisym. destruct (cost t <=? GetFeeLimit t); by eexists.
Qed.

Context (reserve : 0 <= cfg_base_reserve <= int64_max) (sizes : forall te, 0 <= ByteSize te).

Lemma ValidForApply_run s v F te : at_block s v F -> good v -> typed_tx te ->
  let t := Initialize te in
  exists s' t', ValidForApply blk 0 (negb (bi_test_mode blk)) t s = Returns ((spec_valid blk v t, t'), s', [])
    /\ at_block s' v F /\ ticks_ s' = ticks_ s /\ (spec_valid blk v t = true -> t' = t).
Proof.
  intros (Hok & HV & HB & HF & Hst) Hg Hte t. unfold ValidForApply, spec_valid. fold t.
  destruct (ValidForParameter blk t 0) as [okb t1] eqn:Ep. cbn [fst]. destruct okb; cbn [negb andb]; [|by eexists _, _].
  apply ValidForParameter_ok in Ep as (-> & Hfee & Hprice & Hgas & _); [|done|done]. fold t in Hfee, Hprice, Hgas |- *.
  destruct (GetEntry_run 0 (GetSourceAddress t) s Hok) as (p & s1 & Hr & Hok1 & Hs1 & HV1 & _ & Hp).
  rewrite (hbind_nil _ _ _ p s1 Hr). pose proof (step_VB _ _ _ Hs1) as HB1. destruct Hs1 as (_ & Hst1 & HF1 & Hk1).
  assert (Hat : at_block s1 v F) by (split_and!; congruence || done). rewrite HV in Hp.
  destruct p as [l|]; [|rewrite Hp; by eexists _, _]. destruct Hp as (a & Ha & Hpa). rewrite Ha.
  rewrite (hbind_nil _ _ _ a s1) by (eapply read_account_run, Hpa).
  destruct (s64 _ =? _); cbn [negb andb]; [|by eexists _, _].
  assert (Esig : negb (bi_test_mode blk) && negb (SignerHashPriv t a (-1))
                 = negb (bi_test_mode blk || SignerHashPriv t a (-1))) by (by rewrite negb_orb).
  rewrite Esig. destruct (_ || _); cbn [negb andb]; [|by eexists _, _].
  assert (Hgs : is_s64 (GetSelfGas t)) by (unfold is_s64, int64_min; lia).
  destruct (CheckFee_run t a s1 (Hg _ _ Ha) reserve Hfee (proj1 Hte) Hprice (proj1 (proj2 Hte)) Hgs) as (r & Hr2 & Hv).
  rewrite (hbind_nil _ _ _ r s1 Hr2), <- Hv. destruct r as [c|]; by eexists _, _.
Qed.

(** ** Fee and nonce *)

Lemma PayFee_run s v F t a : at_block s v F -> bounded v F -> funded v t a -> is_s64 (GetFeeLimit t) ->
  exists s', PayFee 0 t s = Returns ((true, t), s', [])
    /\ ok 0 s' /\ V 0 s' = upd (GetSourceAddress t) (credit (- GetFeeLimit t) a) v
    /\ total_fee_ s' = F + GetFeeLimit t /\ transaction_stack_ s' = [] /\ ticks_ s' = ticks_ s.
Proof.
  intros (Hok & HV & HB & HF & Hst) Hb [Hsrc Hfee Hbal _ _] Hfs. unfold PayFee. cbv zeta.
  destruct (bounded_account v F _ a Hb Hsrc) as [[Ha1 Ha2] Ha3]. pose proof Hb as (_ & HF0 & _).
  destruct (GetEntry_run 0 (GetSourceAddress t) s Hok) as (p & s1 & Hr & Hok1 & Hs1 & HV1 & _ & Hp).
  rewrite (hbind_nil _ _ _ p s1 Hr). destruct Hs1 as (_ & Hst1 & HF1 & Hk1). rewrite HV, Hsrc in Hp.
  destruct p as [l|]; [|done]. destruct Hp as (a' & [= <-] & Hpa). rewrite (hbind_nil _ _ _ s1 s1) by done.
  rewrite HF1, HF, SafeIntAdd_spec by (done || (unfold is_s64, int64_min, int64_max in *; lia)).
  assert (in_s64 (F + GetFeeLimit t) = true) as -> by (unfold in_s64, int64_min, int64_max in *; lia). cbn [negb].
  set (s2 := set_total_fee (F + GetFeeLimit t) s1). rewrite (hbind_nil _ _ _ tt s2) by done.
  destruct (same_env 0 s1 s2 eq_refl) as (Hok2 & HV2 & _ & Hpts). apply Hpts in Hpa.
  rewrite (hbind_nil _ _ _ a s2) by (eapply read_account_run, Hpa).
  rewrite SafeIntSub_spec by (done || (unfold is_s64, int64_min, int64_max in *; lia)).
  assert (in_s64 (GetAccountBalance a - GetFeeLimit t) = true) as -> by (unfold in_s64, int64_min, int64_max in *; lia).
  cbn [negb]. destruct (write_account_run 0 s2 _ l a (credit (- GetFeeLimit t) a) (Hok2 Hok1) Hpa)
    as (s3 & Hr3 & Hok3 & (_ & Hst3 & HF3 & Hk3) & HV3 & _).
  exists s3. split; [by rewrite (hbind_nil _ _ _ tt s3 Hr3)|]. split_and!; [done|congruence|by rewrite HF3| |].
  - rewrite Hst3. cbn. congruence.
  - rewrite Hk3. cbn. congruence.
Qed.

Lemma start_transaction_run s t v a F : ok 0 s -> transaction_stack_ s = [] -> total_fee_ s = F ->
  V 0 s = v -> v (GetSourceAddress t) = Some a ->
  let v' := upd (GetSourceAddress t) (NonceIncrease_ a) v in
  exists s', start_transaction t s = Returns (0%nat, s', []) /\ at_tx s' t v' v' F /\ ticks_ s' = ticks_ s.
Proof.
  intros Hok Hst HF HV Ha v'. unfold start_transaction. rewrite (hbind_nil _ _ _ s s) by done. rewrite Hst. cbv zeta.
  set (s1 := set_stack [t] s). rewrite (hbind_nil _ _ _ tt s1) by (unfold push_tx, hmod; by rewrite Hst).
  destruct (same_env 0 s s1 eq_refl) as (Hok1 & HV1 & _). specialize (Hok1 Hok). rewrite HV in HV1.
  assert (Hn : exists s3, NonceIncrease 0 0 s1 = Returns (tt, s3, []) /\ ok 0 s3 /\ V 0 s3 = v'
    /\ transaction_stack_ s3 = [t] /\ total_fee_ s3 = F /\ ticks_ s3 = ticks_ s).
  { unfold NonceIncrease. rewrite (hbind_nil _ _ _ t s1) by by apply get_tx_run.
    destruct (GetEntry_run 0 (GetSourceAddress t) s1 Hok1) as (p & s2 & Hr & Hok2 & (_ & Hst2 & HF2 & Hk2) & HV2 & _ & Hp).
    rewrite (hbind_nil _ _ _ p s2 Hr). rewrite HV1, Ha in Hp. destruct p as [l|]; [|done].
    destruct Hp as (a' & [= <-] & Hpa). rewrite (hbind_nil _ _ _ a s2) by (eapply read_account_run, Hpa).
    destruct (write_account_run 0 s2 _ l a (NonceIncrease_ a) Hok2 Hpa)
      as (s3 & Hr3 & Hok3 & (_ & Hst3 & HF3 & Hk3) & HV3 & _).
    exists s3. split_and!; [done|done|by rewrite HV3, HV2, HV1|by rewrite Hst3, Hst2|by rewrite HF3, HF2|by rewrite Hk3, Hk2]. }
  destruct Hn as (s3 & Hr3 & Hok3 & HV3 & Hst3 & HF3 & Hk3). rewrite (hbind_nil _ _ _ tt s3 Hr3).
  destruct (env_Commit_run 0 s3 Hok3) as (s4 & Hr4 & Hok4 & HV4 & HB4 & Hst4 & HF4 & Hk4).
  exists s4. split; [by rewrite (hbind_nil _ _ _ true s4 Hr4)|]. split_and!; try congruence.
  split_and!; try congruence; done.
Qed.

(** ** Application *)

(** Gas, price and cost of a transaction that passed the fee check. *)
Record affordable t : Prop := {
  af_gas : 0 <= GetSelfGas t <= int64_max;
  af_price : 0 <= GetGasPrice t <= int64_max;
  af_cost : 0 <= cost t <= GetFeeLimit t;
  af_fee : GetFeeLimit t <= int64_max }.

Lemma spec_valid_affordable v te : typed_tx te -> spec_valid blk v (Initialize te) = true ->
  affordable (Initialize te).
Proof.
  intros Ht H. destruct (spec_valid_funded blk sizes v te Ht H) as [a [_ _ _ Hcost _]].
  unfold spec_valid in H. apply andb_prop in H as [Hp _].
  destruct (ValidForParameter blk (Initialize te) 0) as [okb t'] eqn:E. cbn in Hp. subst okb.
  apply ValidForParameter_ok in E as (_ & Hfee & Hprice & Hgas & _); [|done|done].
  destruct Ht as (Hf & Hg & _). 
  split; [done|split; [done|apply Hg]|done|apply Hf].
Qed.

Lemma affordable_same t t' : transaction_env_ t' = transaction_env_ t -> affordable t -> affordable t'.
Proof.
  intros He [Hg Hp Hc Hf]. unfold cost, GetFeeLimit, GetGasPrice, GetSelfGas, tran in *.
  split; unfold cost, GetFeeLimit, GetGasPrice, GetSelfGas, tran; by rewrite He.
Qed.

(** The cost as the code computes it. *)
Lemma cost_outcome t s : affordable t ->
  on_outcome (SafeIntMul (GetSelfGas t) (GetGasPrice t) 0) s = Returns ((true, cost t), s, []).
Proof.
  intros [Hg Hp Hc Hf]. unfold on_outcome.
  rewrite SafeIntMul_spec by (unfold is_s64, int64_min, int64_max in *; lia). fold (cost t).
  by assert (in_s64 (cost t) = true) as -> by (unfold in_s64, int64_min, int64_max in *; lia).
Qed.

(** The frame once its gas is accounted for. *)
Definition charged_frame t : TransactionFrm := AddActualGas (GetSelfGas t) (attach 0 t).

Lemma AddActualFee_run s t v w F : at_tx s t v w F -> affordable t -> actual_gas_ t = 0 ->
  exists s', AddActualFee 0 s = Returns (true, s', [])
    /\ at_tx s' (AddActualGas (GetSelfGas t) t) v w F /\ ticks_ s' = ticks_ s.
Proof.
  intros Hat Haf Hgas. unfold AddActualFee. rewrite (hbind_nil _ _ _ t s) by by eapply at_tx_get.
  destruct (at_tx_mod s t v w F (AddActualGas (GetSelfGas t)) Hat) as (s1 & Hr1 & Hat1 & Hk1).
  rewrite (hbind_nil _ _ _ tt s1 Hr1).
  rewrite (hbind_nil _ _ _ (AddActualGas (GetSelfGas t) t) s1) by by eapply at_tx_get.
  assert (Eg : actual_gas_ (AddActualGas (GetSelfGas t) t) = GetSelfGas t).
  { cbn. rewrite Hgas, Z.add_0_l. apply s64_id. destruct Haf. unfold is_s64, int64_min. lia. }
  rewrite Eg. rewrite (hbind_nil _ _ _ _ s1 (cost_outcome t s1 Haf)). cbn [negb].
  assert ((GetFeeLimit t <? cost t) = false) as E by (destruct Haf; lia).
  change (GetFeeLimit (AddActualGas (GetSelfGas t) t)) with (GetFeeLimit t). rewrite E. by exists s1.
Qed.

Lemma tx_Apply_run s t v w F : at_tx s t v w F -> affordable t -> actual_gas_ t = 0 ->
  match spec_operations (negb (bi_test_mode blk)) v t 0 (tx_operations (tran t)) with
  | Some (code, v') =>
      exists s' j, tx_Apply blk 0 0 false s = Returns (code =? SUCCESS, s', [])
        /\ at_tx s' (after_operations (charged_frame t) code j) v' w F /\ ticks_ s' = ticks_ s
  | None => calls (tx_Apply blk 0 0 false) s
  end.
Proof.
  intros Hat Haf Hgas. destruct (at_tx_mod s t v w F (attach 0) Hat) as (s1 & Hr1 & Hat1 & Hk1).
  destruct (AddActualFee_run s1 (attach 0 t) v w F Hat1 (affordable_same t (attach 0 t) eq_refl Haf) Hgas) as (s2 & Hr2 & Hat2 & Hk2).
  assert (E : tx_Apply blk 0 0 false s
    = apply_operations blk 0 0 (negb (bi_test_mode blk)) 0 (tx_operations (tran t)) s2).
  { unfold tx_Apply. rewrite (hbind_nil _ _ _ tt s1 Hr1), (hbind_nil _ _ _ true s2 Hr2). cbn [negb].
    by rewrite (hbind_nil _ _ _ (charged_frame t) s2) by (eapply at_tx_get, Hat2). }
  destruct Hat2 as (Hok2 & HV2 & HB2 & HF2 & Hst2).
  pose proof (apply_operations_run blk 0 0 (negb (bi_test_mode blk)) (tx_operations (tran t)) 0
    (charged_frame t) s2 Hok2 ltac:(by rewrite Hst2)) as Hrun.
  rewrite HV2, (spec_operations_same _ t (charged_frame t)) in Hrun by done.
  destruct (spec_operations _ v t 0 _) as [[code v']|]; cbn in Hrun; [|unfold calls; by rewrite E].
  destruct Hrun as (s3 & j & Hr3 & Hok3 & HV3 & Hstep). exists s3, j. split; [by rewrite E|].
  destruct Hstep as (Ho & Hst3 & HF3 & Hk3). rewrite Hst2 in Hst3. split; [|congruence].
  split_and!; try done; [|congruence]. rewrite <- HB2. unfold VB, base_view.
  destruct Ho as [_ Hc]. apply FunctionalExtensionality.functional_extensionality. intros k. by rewrite Hc by lia.
Qed.

(** ** Refund *)

Lemma ReturnFee_run s t v w F : at_tx s t v w F -> bounded v F -> affordable t ->
  actual_gas_ t = GetSelfGas t -> environment_ t = 0%nat -> result_ t = SUCCESS -> GetFeeLimit t <= F ->
  exists b s' t', ReturnFee 0 s = Returns (b, s', [])
    /\ at_tx s' t' (spec_refund v t).1 w (F - (spec_refund v t).2) /\ ticks_ s' = ticks_ s.
Proof.
  intros Hat Hb Haf Hgas Henv Hres HF. unfold ReturnFee. rewrite (hbind_nil _ _ _ t s) by by eapply at_tx_get.
  rewrite Hgas, (hbind_nil _ _ _ _ s (cost_outcome t s Haf)). cbn [negb]. destruct Haf as [Hg Hp Hc Hf].
  rewrite SafeIntSub_spec by (unfold is_s64, int64_min, int64_max in *; lia).
  assert (in_s64 (GetFeeLimit t - cost t) = true) as -> by (unfold in_s64, int64_min, int64_max in *; lia).
  cbn [negb]. rewrite Hres. change (negb (SUCCESS =? 0)) with false. cbn [orb].
  unfold spec_refund. cbv zeta. set (back := GetFeeLimit t - cost t) in *.
  destruct (Z.leb_spec back 0) as [Hz|Hz].
  { exists false, s, t. destruct (v _); cbn [fst snd]; by rewrite Z.sub_0_r. }
  rewrite Henv. pose proof Hat as (Hok & HV & HB & HF1 & Hst).
  destruct (GetEntry_run 0 (GetSourceAddress t) s Hok) as (p & s1 & Hr & Hok1 & Hs1 & HV1 & _ & Hpt).
  rewrite (hbind_nil _ _ _ p s1 Hr). pose proof (step_VB _ _ _ Hs1) as HB1. destruct Hs1 as (_ & Hst1 & HF2 & Hk1).
  rewrite HV in Hpt. destruct p as [l|].
  2:{ rewrite Hpt. cbn [fst snd]. rewrite Z.sub_0_r.
      assert (Hat1 : at_tx s1 t v w F) by (split_and!; congruence || done).
      destruct (at_tx_mod s1 t v w F (set_result ACCOUNT_NOT_EXIST) Hat1) as (s2 & Hr2 & Hat2 & Hk2).
      exists false, s2, (set_result ACCOUNT_NOT_EXIST t). split; [by rewrite (hbind_nil _ _ _ tt s2 Hr2)|].
      split; [done|congruence]. }
  destruct Hpt as (a & Ha & Hpa). rewrite Ha. cbn [fst snd].
  destruct (bounded_account v F _ a Hb Ha) as [[Ha1 Ha2] Ha3].
  rewrite (hbind_nil _ _ _ s1 s1) by done. rewrite HF2, HF1.
  rewrite SafeIntSub_spec by (unfold is_s64, int64_min, int64_max in *; lia).
  assert (in_s64 (F - back) = true) as -> by (unfold in_s64, int64_min, int64_max in *; lia). cbn [negb].
  set (s2 := set_total_fee (F - back) s1). rewrite (hbind_nil _ _ _ tt s2) by done.
  destruct (same_env 0 s1 s2 eq_refl) as (Hok2 & HV2 & HB2 & Hpts). apply Hpts in Hpa.
  rewrite (hbind_nil _ _ _ a s2) by (eapply read_account_run, Hpa).
  rewrite SafeIntAdd_spec by (unfold is_s64, int64_min, int64_max in *; lia).
  assert (in_s64 (GetAccountBalance a + back) = true) as -> by (unfold in_s64, int64_min, int64_max in *; lia).
  cbn [negb]. destruct (write_account_run 0 s2 _ l a (credit back a) (Hok2 Hok1) Hpa)
    as (s3 & Hr3 & Hok3 & Hs3 & HV3 & _). pose proof (step_VB _ _ _ Hs3) as HB3.
  destruct Hs3 as (_ & Hst3 & HF3 & Hk3).
  exists true, s3, t. split; [by rewrite (hbind_nil _ _ _ tt s3 Hr3)|].
  split; [|rewrite Hk3; exact Hk1]. split_and!; [done|congruence|congruence|by rewrite HF3|].
  rewrite Hst3. cbn. congruence.
Qed.

(** ** The end of a transaction *)

Lemma end_transaction_run s t v w F b : at_tx s t v w F ->
  exists s', end_transaction 0 b s = Returns (log_applied t b, s', []) /\ at_block s' w F /\ ticks_ s' = ticks_ s.
Proof.
  intros (Hok & HV & HB & HF & Hst). unfold end_transaction.
  destruct (env_ClearChangeBuf_run 0 s Hok) as (s1 & Hr1 & Hok1 & HV1 & HB1 & Hst1 & HF1 & Hk1).
  rewrite (hbind_nil _ _ _ tt s1 Hr1). rewrite (hbind_nil _ _ _ t s1) by (apply get_tx_run; by rewrite Hst1, Hst).
  set (s2 := set_stack [] s1). rewrite (hbind_nil _ _ _ tt s2).
  2:{ unfold pop_tx, hmod. by rewrite Hst1, Hst. }
  destruct (same_env 0 s1 s2 eq_refl) as (Hok2 & HV2 & HB2 & _). exists s2. split_and!; [done| |done].
  split_and!; [by apply Hok2|congruence|congruence|by rewrite <- HF, <- HF1|done].
Qed.

(** A transaction expires when its deadline, set at tick [n], has passed at the next. *)
Definition late (n : nat) : bool :=
  let e := s64 (clock n + TX_EXECUTE_TIME_OUT) in negb (e =? 0) && (e <? clock (S n)).

(** A frame that has run no contract. *)
Definition idle t : Prop := contract_step_ t = 0 /\ contract_memory_usage_ t = 0 /\ contract_stack_usage_ t = 0.

Lemma IsExpire_run s t v w F n : at_tx s t v w F -> idle t -> enable_check_ t = true ->
  max_end_time_ t = s64 (clock n + TX_EXECUTE_TIME_OUT) -> ticks_ s = S n ->
  exists s', IsExpire t s = Returns ((late n, if late n then set_result CONTRACT_EXECUTE_EXPIRED t else t), s', [])
    /\ at_tx s' t v w F /\ ticks_ s' = S (S n).
Proof.
  intros Hat (H1 & H2 & H3) He Hm Hk. unfold IsExpire. rewrite He, H1. cbn [negb].
  change (CONTRACT_STEP_LIMIT <? 0) with false. cbv iota.
  destruct (at_tx_clock s t v w F Hat) as (s1 & Hr1 & Hat1 & Hk1). rewrite (hbind_nil _ _ _ _ s1 Hr1).
  exists s1. split; [|split; [done|congruence]]. rewrite Hm, Hk. unfold late. cbv zeta.
  destruct (negb _ && _); [done|]. by rewrite H2, H3.
Qed.

(** The refund and the final commit. *)
Lemma refund_commit_run {A} s t v w F0 (x : A) : at_tx s t v w (F0 + GetFeeLimit t) ->
  bounded v (F0 + GetFeeLimit t) -> 0 <= F0 -> affordable t ->
  actual_gas_ t = GetSelfGas t -> environment_ t = 0%nat -> result_ t = SUCCESS ->
  exists s' t', (ReturnFee 0 ;; env_Commit 0 ;; mret x) s = Returns (x, s', [])
    /\ at_tx s' t' (spec_refund v t).1 (spec_refund v t).1 (F0 + (GetFeeLimit t - (spec_refund v t).2))
    /\ ticks_ s' = ticks_ s.
Proof.
  intros Hat Hb HF Haf Hg He Hres.
  destruct (ReturnFee_run s t v w _ Hat Hb Haf Hg He Hres) as (b & s1 & t1 & Hr1 & Hat1 & Hk1); [lia|].
  rewrite (hbind_nil _ _ _ b s1 Hr1). destruct Hat1 as (Hok1 & HV1 & HB1 & HF1 & Hst1).
  destruct (env_Commit_run 0 s1 Hok1) as (s2 & Hr2 & Hok2 & HV2 & HB2 & Hst2 & HF2 & Hk2).
  exists s2, t1. split; [by rewrite (hbind_nil _ _ _ true s2 Hr2)|]. split; [|congruence].
  split_and!; try congruence. rewrite HF2, HF1. lia.
Qed.

(** The committed accounts and the fees after the application, for either mode. *)
Definition settled s (r : verdict * lview * Z) F0 : Prop :=
  exists t v, at_tx s t v r.1.2 (F0 + r.2).

Definition verdict_code (r : verdict) : option bool :=
  match r with Applied => None | Expired => Some true | Failed => Some false end.

(** The frame of a transaction as the loops build it, before its application. *)
Definition ready t : Prop := affordable t /\ idle t /\ actual_gas_ t = 0 /\ result_ t = SUCCESS.

Lemma apply_checked_run s t v1 F0 : let F := F0 + GetFeeLimit t in
  at_tx s t v1 v1 F -> 0 <= F0 -> ready t ->
  (forall v2, spec_operations (negb (bi_test_mode blk)) v1 t 0 (tx_operations (tran t)) = Some (SUCCESS, v2) -> bounded v2 F) ->
  match spec_operations (negb (bi_test_mode blk)) v1 t 0 (tx_operations (tran t)) with
  | Some (code, v2) =>
      let r := spec_settle v1 v2 t code (late (ticks_ s)) in
      exists s', apply_checked blk 0 s = Returns (verdict_code r.1.1, s', [])
        /\ settled s' r F0 /\ ticks_ s' = S (S (ticks_ s))
  | None => calls (apply_checked blk 0) s
  end.
Proof.
  intros F Hat HF0 (Haf & Hidle & Hgas & Hres) Hb. unfold apply_checked.
  destruct (at_tx_mod s t v1 v1 F EnableChecked Hat) as (s1 & Hr1 & Hat1 & Hk1).
  destruct (at_tx_clock s1 _ v1 v1 F Hat1) as (s2 & Hr2 & Hat2 & Hk2). rewrite Hk1 in Hr2, Hk2.
  set (e := s64 (clock (ticks_ s) + TX_EXECUTE_TIME_OUT)).
  destruct (at_tx_mod s2 _ v1 v1 F (SetMaxEndTime e) Hat2) as (s3 & Hr3 & Hat3 & Hk3).
  set (t3 := SetMaxEndTime e (EnableChecked t)) in *.
  assert (Haf3 : affordable t3) by by apply (affordable_same t).
  pose proof (tx_Apply_run s3 t3 v1 v1 F Hat3 Haf3 Hgas) as Happ.
  change (tx_operations (tran t3)) with (tx_operations (tran t)) in Happ.
  rewrite (spec_operations_same _ t t3) in Happ by done.
  unfold calls. rewrite (hbind_nil _ _ _ tt s1 Hr1), (hbind_nil _ _ _ _ s2 Hr2), (hbind_nil _ _ _ tt s3 Hr3).
  destruct (spec_operations _ v1 t 0 _) as [[code v2]|]; [|by apply calls_first]. cbv zeta.
  destruct Happ as (s4 & j & Hr4 & Hat4 & Hk4). rewrite (hbind_nil _ _ _ _ s4 Hr4).
  set (t4 := after_operations (charged_frame t3) code j) in *.
  assert (Hframe : idle t4 /\ enable_check_ t4 = true /\ max_end_time_ t4 = e /\ transaction_env_ t4 = transaction_env_ t).
  { unfold t4, after_operations, idle. by destruct (code =? SUCCESS). }
  destruct Hframe as (Hi4 & He4 & Hm4 & Htx4). rewrite (hbind_nil _ _ _ t4 s4) by by eapply at_tx_get.
  destruct (IsExpire_run s4 t4 v2 v1 F (ticks_ s) Hat4 Hi4 He4 Hm4) as (s5 & Hr5 & Hat5 & Hk5); [congruence|].
  rewrite (hbind_nil _ _ _ _ s5 Hr5). set (t5 := if late (ticks_ s) then _ else t4) in *.
  destruct (at_tx_mod s5 t4 v2 v1 F (fun _ => t5) Hat5) as (s6 & Hr6 & Hat6 & Hk6).
  rewrite (hbind_nil _ _ _ tt s6 Hr6). unfold spec_settle. cbv zeta.
  destruct (late (ticks_ s)) eqn:El; [exists s6; split; [done|]; split; [by eexists _, _|congruence]|].
  destruct (Z.eqb_spec code SUCCESS) as [->|Hc]; cbn [negb];
    [|exists s6; split; [done|]; split; [by eexists _, _|congruence]].
  assert (Hg4 : actual_gas_ t4 = GetSelfGas t4).
  { change (s64 (actual_gas_ t + GetSelfGas t) = GetSelfGas t). rewrite Hgas. apply s64_id.
    destruct Haf. unfold is_s64, int64_min. lia. }
  assert (Hr : spec_refund v2 t4 = spec_refund v2 t) by done.
  destruct (refund_commit_run s6 t4 v2 v1 F0 (None : option bool) Hat6) as (s7 & t7 & Hr7 & Hat7 & Hk7); try done.
  { by apply Hb. } { by apply (affordable_same t). }
  rewrite Hr7. exists s7. rewrite Hr in Hat7. destruct (spec_refund v2 t) as [v3 back].
  split; [done|]. split; [by eexists _, _|congruence].
Qed.
End Round.
