(* ===== verification/RewardFacts.v ===== *)
(** * Paying out fees and reward

    [AllocateReward] and [AllocateRewardDirectly] (src/ledger/ledger_frm.cpp)
    against the abstract reward. *)
From S2P Require Import Prelude Uint128 Uint128Facts Strings AtomMap AtomMapFacts Account Chain TxFrame Operation Transaction Ledger EnvFacts LedgerSpec OperationFacts CoinFacts TransactionFacts BlockSpec RoundFacts.
From Stdlib Require Import FunctionalExtensionality.
Import U128.

Open Scope string_scope.
Open Scope Z_scope.

Section Reward.
Context `{P : LedgerParams} (blk : BlockInfo).
Implicit Types (s : LState) (v : lview) (k : string) (l : loc).

(** Pointers stay valid, whatever happens to the accounts behind them. *)
Definition pts_kept s s' : Prop := forall k l a, pts 0 s k l a -> exists a', pts 0 s' k l a'.

#[export] Instance pts_kept_preorder : PreOrder pts_kept.
Proof.
  split; [by intros s k l a; exists a|]. intros s1 s2 s3 H1 H2 k l a Hp. destruct (H1 k l a Hp). by eapply H2.
Qed.

Lemma write_kept k l a a' s : ok 0 s -> pts 0 s k l a ->
  exists s', write_account l a' s = Returns (tt, s', []) /\ ok 0 s' /\ step 0 s s'
    /\ V 0 s' = upd k a' (V 0 s) /\ pts 0 s' k l a' /\ pts_kept s s'.
Proof.
  intros Hok Hp. destruct (write_account_run 0 s k l a a' Hok Hp) as (s' & Hr & Hok' & Hst & HV & Hp' & Hkeep).
  exists s'. split_and!; try done. intros k' l' b Hb. destruct (decide (k' = k)) as [->|Hne]; [|eauto].
  destruct (pts_fun 0 s k l a l' b Hp Hb) as [<- _]. eauto.
Qed.

(** [GetEntry], or a new account. *)
Lemma entry_or_new {A} k s (K : loc -> LM A) : ok 0 s ->
  exists l s1, (p ← GetEntry 0 k;
     account ← match p with
               | Some account => mret account
               | None => account ← new_account (CreatAccountFrm k 0); AddEntry 0 k account ;; mret account
               end;
     K account) s = K l s1
    /\ ok 0 s1 /\ step 0 s s1 /\ pts 0 s1 k l (default (CreatAccountFrm k 0) (V 0 s k))
    /\ (forall k', k' <> k -> V 0 s1 k' = V 0 s k') /\ pts_kept s s1.
Proof.
  intros Hok. destruct (GetEntry_run 0 k s Hok) as (p & s1 & Hr & Hok1 & Hst1 & HV1 & Hkeep1 & Hp).
  rewrite (hbind_nil _ _ _ p s1 Hr). destruct p as [l|].
  - destruct Hp as (a & Ha & Hpa). exists l, s1. rewrite (hbind_nil _ _ _ l s1), Ha by done.
    split_and!; try done; [by rewrite HV1|]. intros k' l' a' H. exists a'. by apply Hkeep1.
  - destruct (add_account_run 0 s1 k (CreatAccountFrm k 0) Hok1)
      as (l & s2 & s3 & Hn & Ha & Hok3 & Hst3 & HV3 & Hp3 & Hkeep3).
    exists l, s3. rewrite (hbind_nil _ _ _ l s3).
    2:{ rewrite (hbind_nil _ _ _ l s2 Hn). by rewrite (hbind_nil _ _ _ true s3 Ha). }
    rewrite Hp. split_and!; try done; [by transitivity s1|intros k' Hk'; by rewrite HV3, upd_other, HV1|].
    intros k' l' a' H. exists a'. apply Hkeep1 in H. apply Hkeep3; [|done]. intros ->.
    apply pts_V in H; [|done]. congruence.
Qed.

Lemma reward_validators_run idx avg set : forall i left ra s v B, ok 0 s -> V 0 s = v -> bounded v B ->
  0 <= avg -> Z.of_nat (length set) * avg <= B -> Z.of_nat (length set) * avg <= left <= int64_max ->
  exists s' ra', reward_validators i idx avg left ra set s
      = Returns (Some (left - Z.of_nat (length set) * avg, ra'), s', [])
    /\ ok 0 s' /\ step 0 s s' /\ V 0 s' = foldl (pay avg) v set /\ pts_kept s s'
    /\ match (if i <=? idx then set !! Z.to_nat (idx - i) else None) with
       | Some k => exists l a, ra' = Some l /\ pts 0 s' k l a
       | None => ra' = ra
       end.
Proof.
  induction set as [|k set IH]; intros i left ra s v B Hok HV Hb Havg HB Hleft.
  { cbn [reward_validators length foldl]. exists s, ra. rewrite Z.sub_0_r. split_and!; try done. by destruct (i <=? idx). }
  destruct (entry_or_new k s (fun account =>
    let random_account := if idx =? i then Some account else ra in
    let left_reward := s64 (left - avg) in
    a ← read_account account;
    let '(okb, new_balance) := SafeIntAdd (GetAccountBalance a) avg 0 in
    if negb okb then mret None
    else write_account account (map_info (set_balance new_balance) a) ;;
         reward_validators (i + 1) idx avg left_reward random_account set) Hok)
    as (l & s1 & E & Hok1 & Hst1 & Hp1 & HV1 & Hk1).
  lazymatch type of E with ?e = _ => change (reward_validators i idx avg left ra (k :: set) s) with e end.
  rewrite E. clear E. cbn [length foldl] in HB, Hleft |- *. set (a := default (CreatAccountFrm k 0) (V 0 s k)) in *.
  assert (Ha : 0 <= GetAccountBalance a /\ GetAccountBalance a + B <= int64_max).
  { unfold a. rewrite HV. destruct (v k) as [c|] eqn:Ec; cbn [from_option id].
    - destruct (bounded_account v B k c Hb Ec) as [[Hc1 Hc2] Hc3]. change (id c) with c. lia.
    - destruct Hb as (_ & _ & HD). specialize (HD ∅). rewrite coins_empty in HD. cbn. lia. }
  cbv zeta. rewrite (hbind_nil _ _ _ a s1) by (eapply read_account_run, Hp1).
  rewrite SafeIntAdd_spec by (unfold is_s64, int64_min, int64_max in *; lia).
  assert (in_s64 (GetAccountBalance a + avg) = true) as -> by (unfold in_s64, int64_min, int64_max in *; lia). cbn [negb].
  destruct (write_kept k l a (credit avg a) s1 Hok1 Hp1) as (s2 & Hr2 & Hok2 & Hst2 & HV2 & Hp2 & Hk2).
  rewrite (hbind_nil _ _ _ tt s2 Hr2).
  assert (HVpay : V 0 s2 = pay avg v k).
  { rewrite HV2. unfold pay, a. rewrite HV. apply functional_extensionality. intros k'. unfold upd.
    destruct (decide (k = k')) as [|Hne]; [done|]. rewrite HV1, HV by done. done. }
  destruct (pay_moved v B k avg Hb) as [Hb2 _]; [lia|].
  rewrite s64_id by (unfold is_s64, int64_min, int64_max in *; lia).
  destruct (IH (i + 1) (left - avg) (if idx =? i then Some l else ra) s2 (pay avg v k) (B - avg) Hok2 HVpay Hb2 Havg)
    as (s3 & ra' & Hr3 & Hok3 & Hst3 & HV3 & Hk3 & Hra); [lia|lia|].
  exists s3, ra'. rewrite Hr3.
  replace (left - Z.of_nat (S (length set)) * avg) with (left - avg - Z.of_nat (length set) * avg) by lia.
  split_and!; [done|done|by transitivity s1; [|transitivity s2]|done|by transitivity s1; [|transitivity s2]|].
  destruct (Z.leb_spec i idx) as [Hi|Hi].
  - destruct (Z.eqb_spec idx i) as [->|Hne].
    + rewrite Z.sub_diag. cbn [Z.to_nat lookup list_lookup]. destruct (Z.leb_spec (i + 1) i); [lia|].
      destruct (Hk3 k l _ Hp2) as [a3 Hp3]. by exists l, a3.
    + destruct (Z.leb_spec (i + 1) idx); [|lia].
      replace (Z.to_nat (idx - i)) with (S (Z.to_nat (idx - (i + 1)))) by lia. done.
  - destruct (Z.leb_spec (i + 1) idx); [lia|]. by destruct (Z.eqb_spec idx i); [lia|].
Qed.

Lemma AllocateRewardDirectly_run total s v : ok 0 s -> V 0 s = v -> bounded v total -> 0 <= bi_header_seq blk ->
  exists s', AllocateRewardDirectly blk total s
      = Returns (match GetValidators (s64 (bi_header_seq blk - 1)) with None | Some [] => false | _ => true end, s', [])
    /\ ok 0 s' /\ step 0 s s'
    /\ V 0 s' = match GetValidators (s64 (bi_header_seq blk - 1)) with
                | None | Some [] => v
                | Some set => spec_share blk v total set
                end.
Proof.
  intros Hok HV Hb Hseq. unfold AllocateRewardDirectly.
  destruct (GetValidators _) as [[|k0 set0]|]; [by exists s| |by exists s]. rewrite bool_decide_false by done.
  set (set := k0 :: set0). cbv zeta. unfold spec_share. set (n := Z.of_nat (length set)).
  assert (Hn : 0 < n) by (unfold n, set; cbn [length]; lia). pose proof Hb as (_ & Ht & HD).
  specialize (HD ∅). rewrite coins_empty in HD. destruct (quot_share total n Ht Hn) as [Hq0 Hq1].
  set (idx := Z.rem (bi_header_seq blk) n). pose proof (Z.rem_bound_pos (bi_header_seq blk) n Hseq Hn) as Hidx. fold idx in Hidx.
  destruct (reward_validators_run idx (Z.quot total n) set 0 total None s v total Hok HV Hb Hq0)
    as (s1 & ra & Hr1 & Hok1 & Hst1 & HV1 & _ & Hra); [done|lia|].
  rewrite (hbind_nil _ _ _ _ s1 Hr1). fold n. destruct (pay_all_moved (Z.quot total n) set v total Hb Hq0 Hq1) as [Hb1 _].
  fold n in Hb1. rewrite Z.sub_0_r in Hra. destruct (Z.leb_spec 0 idx); [|lia].
  destruct (set !! Z.to_nat idx) as [k|] eqn:Ek.
  2:{ apply lookup_ge_None in Ek. unfold n in Hidx. lia. }
  destruct Hra as (l & a & -> & Hp). destruct (Z.ltb_spec 0 (total - n * Z.quot total n)) as [Hl|Hl]; [|by exists s1].
  rewrite (hbind_nil _ _ _ a s1) by (eapply read_account_run, Hp).
  pose proof (pts_V 0 s1 k l a Hok1 Hp) as Ha. rewrite HV1 in Ha.
  destruct (bounded_account _ _ _ _ Hb1 Ha) as [[Ha1 Ha2] Ha3].
  rewrite SafeIntAdd_spec by (unfold is_s64, int64_min, int64_max in *; lia).
  assert (in_s64 (GetAccountBalance a + (total - n * Z.quot total n)) = true) as ->
    by (unfold in_s64, int64_min, int64_max in *; lia).
  cbn [negb]. destruct (write_kept k l a (credit (total - n * Z.quot total n) a) s1 Hok1 Hp)
    as (s2 & Hr2 & Hok2 & Hst2 & HV2 & _).
  exists s2. split; [by rewrite (hbind_nil _ _ _ tt s2 Hr2)|]. split_and!; [done|by transitivity s1|].
  unfold pay at 1. rewrite HV2, HV1, Ha. done.
Qed.

(** Who is paid when the reward contract is not, and the end of a successful payment. *)
Definition spec_direct v (total : Z) : option lview :=
  match GetValidators (s64 (bi_header_seq blk - 1)) with
  | None | Some [] => None
  | Some set => Some (spec_share blk v total set)
  end.

Lemma commit_true_run s : ok 0 s ->
  exists s', (env_Commit 0 ;; mret true) s = Returns (true, s', [])
    /\ ok 0 s' /\ VB 0 s' = V 0 s /\ total_fee_ s' = total_fee_ s.
Proof.
  intros Hok. destruct (env_Commit_run 0 s Hok) as (s2 & Hr2 & Hok2 & _ & HB2 & _ & HF2 & _).
  exists s2. by rewrite (hbind_nil _ _ _ true s2 Hr2).
Qed.

Lemma direct_run total s v : ok 0 s -> V 0 s = v -> VB 0 s = v -> bounded v total -> 0 <= bi_header_seq blk ->
  exists s', (okb ← AllocateRewardDirectly blk total; if negb okb then mret false else env_Commit 0 ;; mret true) s
      = Returns (bool_decide (is_Some (spec_direct v total)), s', [])
    /\ ok 0 s' /\ VB 0 s' = default v (spec_direct v total) /\ total_fee_ s' = total_fee_ s.
Proof.
  intros Hok HV HB Hb Hseq. destruct (AllocateRewardDirectly_run total s v Hok HV Hb Hseq) as (s2 & Hr2 & Hok2 & Hs2 & HV2).
  rewrite (hbind_nil _ _ _ _ s2 Hr2). pose proof (step_VB _ _ _ Hs2) as HB2. destruct Hs2 as (_ & _ & HF2 & _).
  unfold spec_direct. destruct (GetValidators _) as [[|k set]|]; cbn [negb from_option].
  - exists s2. split_and!; [done|done|congruence|done].
  - destruct (commit_true_run s2 Hok2) as (s3 & Hr3 & Hok3 & HB3 & HF3).
    exists s3. rewrite Hr3. split_and!; [done|done|by rewrite HB3|congruence].
  - exists s2. split_and!; [done|done|congruence|done].
Qed.

(** The payment to the contract, where it exists. *)
Lemma contract_reward_run total s1 l a k : ok 0 s1 -> pts 0 s1 k l a ->
  0 <= total -> in_range a -> GetAccountBalance a + total <= int64_max ->
  exists s2, (a ← read_account l;
     let '(okb, new_balance) := SafeIntAdd (GetAccountBalance a) total 0 in
     if negb okb then mret false
     else write_account l (map_info (set_balance new_balance) a) ;; mret true) s1 = Returns (true, s2, [])
    /\ ok 0 s2 /\ step 0 s1 s2 /\ V 0 s2 = upd k (credit total a) (V 0 s1).
Proof.
  intros Hok Hp Ht [Ha1 Ha2] Ha. destruct (write_kept k l a (credit total a) s1 Hok Hp) as (s2 & Hr2 & Hok2 & Hs2 & HV2 & _).
  exists s2. rewrite (hbind_nil _ _ _ a s1) by (eapply read_account_run, Hp).
  rewrite SafeIntAdd_spec by (unfold is_s64, int64_min, int64_max in *; lia).
  assert (in_s64 (GetAccountBalance a + total) = true) as -> by (unfold in_s64, int64_min, int64_max in *; lia).
  cbn [negb]. by rewrite (hbind_nil _ _ _ tt s2 Hr2).
Qed.

(** The whole function: what it commits, or that it pays nobody. *)
Lemma AllocateReward_run s v F : at_block s v F -> 0 <= bi_header_seq blk ->
  bounded v (F + GetBlockReward (bi_header_seq blk)) ->
  exists s', AllocateReward blk s = Returns (bool_decide (is_Some (spec_reward blk v F)), s', [])
    /\ ok 0 s' /\ VB 0 s' = default v (spec_reward blk v F) /\ total_fee_ s' = F.
Proof.
  intros (Hok & HV & HB & HF & Hst) Hseq Hb. unfold AllocateReward, spec_reward.
  rewrite (hbind_nil _ _ _ s s) by done. rewrite HF. cbv zeta. pose proof Hb as (_ & Ht & HD).
  set (total := F + GetBlockReward (bi_header_seq blk)) in *. specialize (HD ∅). rewrite coins_empty in HD.
  rewrite s64_id by (unfold is_s64, int64_min, int64_max in *; lia).
  destruct (_ || _); [exists s; by split_and!|]. fold (spec_direct v total). rewrite <- HF.
  destruct CHECK_VERSION_GT_1002; [|by apply direct_run].
  destruct (GetEntry_run 0 GET_CONTRACT_VALIDATOR_ADDRESS s Hok) as (p & s1 & Hr1 & Hok1 & Hs1 & HV1 & _ & Hp).
  pose proof (step_VB _ _ _ Hs1) as HB1. destruct Hs1 as (_ & _ & HF1 & _). rewrite HV in Hp, HV1.
  rewrite hbind_assoc, (hbind_nil _ _ _ _ s1 Hr1). rewrite <- HF1. destruct p as [l|].
  - destruct Hp as (a & Ha & Hpa). rewrite Ha. destruct (bounded_account v total _ a Hb Ha) as [Ha1 Ha2].
    destruct (contract_reward_run total s1 l a _ Hok1 Hpa Ht Ha1 Ha2) as (s2 & Hr2 & Hok2 & (_ & _ & HF2 & _) & HV2).
    rewrite (hbind_nil _ _ _ _ s2 Hr2). cbn [negb]. destruct (commit_true_run s2 Hok2) as (s3 & Hr3 & Hok3 & HB3 & HF3).
    exists s3. rewrite Hr3. split_and!; [done|done|by rewrite HB3, HV2, HV1|congruence].
  - rewrite Hp. apply direct_run; [done|done|congruence|done|done].
Qed.
End Reward.
