(* ===== verification/BlockFacts.v ===== *)
(** * Blocks: theorems

    The three modes of closing a ledger implement the abstract block; replicas that
    follow a block agree with those that proposed and checked it; coins are
    conserved up to the block reward. *)
From S2P Require Import Prelude Uint128 Uint128Facts Strings AtomMap AtomMapFacts Account Chain TxFrame Operation Transaction Ledger EnvFacts LedgerSpec OperationFacts CoinFacts TransactionFacts BlockSpec RoundFacts RewardFacts LedgerFacts.
From stdpp Require Import sorting.
Import U128.

Open Scope string_scope.
Open Scope Z_scope.

Section Blocks.
Context `{P : LedgerParams} (blk : BlockInfo).
Context (reserve : 0 <= cfg_base_reserve <= int64_max) (sizes : forall te, 0 <= ByteSize te).
Implicit Types (s : LState) (v : lview) (t : TransactionFrm) (F : Z) (b : BlockLog).

(** ** The rounds of the loops *)

Lemma begin_run s v F te : at_block s v F -> bounded v F -> typed_tx te ->
  spec_valid blk v (Initialize te) = true ->
  let t := Initialize te in
  exists a s1 s2, funded v t a /\ PayFee 0 t s = Returns ((true, t), s1, [])
    /\ start_transaction t s1 = Returns (0%nat, s2, [])
    /\ at_tx s2 t (upd (GetSourceAddress t) (charged (GetFeeLimit t) a) v)
         (upd (GetSourceAddress t) (charged (GetFeeLimit t) a) v) (F + GetFeeLimit t)
    /\ ticks_ s2 = ticks_ s.
Proof.
  intros Hat Hb Hte Hv t. destruct (spec_valid_funded blk sizes v te Hte Hv) as [a Hf].
  destruct (PayFee_run reserve s v F t a Hat Hb Hf (proj1 Hte)) as (s1 & Hr1 & Hok1 & HV1 & HF1 & Hst1 & Hk1).
  destruct (start_transaction_run s1 t _ (credit (- GetFeeLimit t) a) _ Hok1 Hst1 HF1 HV1) as (s2 & Hr2 & Hat2 & Hk2).
  { apply upd_same. }
  exists a, s1, s2. rewrite upd_upd in Hat2. split_and!; try done. congruence.
Qed.

Lemma ready_Initialize v te : typed_tx te -> spec_valid blk v (Initialize te) = true -> ready (Initialize te).
Proof. intros Hte Hv. split; [by apply (spec_valid_affordable blk sizes v)|done]. Qed.

(** Application when checking: the verdict of the specification, with the clock of
    the run deciding what expires. *)
Lemma checked_run s v F te a s2 : bounded v F -> typed_tx te -> spec_valid blk v (Initialize te) = true ->
  let t := Initialize te in funded v t a ->
  at_tx s2 t (upd (GetSourceAddress t) (charged (GetFeeLimit t) a) v)
    (upd (GetSourceAddress t) (charged (GetFeeLimit t) a) v) (F + GetFeeLimit t) -> ticks_ s2 = ticks_ s ->
  match spec_round blk v t (late (ticks_ s)) with
  | Some r => exists s3, apply_checked blk 0 s2 = Returns (verdict_code r.1.1, s3, []) /\ settled s3 r F
               /\ ticks_ s3 = S (S (ticks_ s))
  | None => calls (apply_checked blk 0) s2
  end.
Proof.
  intros Hb Hte Hv t Hf Hat Hk. rewrite <- Hk.
  pose proof (apply_checked_run blk s2 t _ F Hat (proj1 (proj2 Hb)) (ready_Initialize v te Hte Hv)) as H.
  unfold spec_round, with_account. rewrite (fd_source _ _ _ Hf). cbv zeta.
  destruct (spec_operations _ _ t 0 _) as [[code v2]|] eqn:Eops; apply H.
  - intros v2' [= -> <-]. by apply (operations_bounded reserve v F t a _ _ _ Hb Hf Eops).
  - done.
Qed.

(** Application when following. *)
Lemma followed_run v F te a s2 expired i b : bounded v F -> typed_tx te -> spec_valid blk v (Initialize te) = true ->
  let t := Initialize te in funded v t a ->
  at_tx s2 t (upd (GetSourceAddress t) (charged (GetFeeLimit t) a) v)
    (upd (GetSourceAddress t) (charged (GetFeeLimit t) a) v) (F + GetFeeLimit t) ->
  match spec_round blk v t expired with
  | Some r => exists s3,
      (if expired then ApplyExpireResult 0 ;; mret b
       else ret ← tx_Apply blk 0 0 false;
            if negb ret then mret (log_error i b) else ReturnFee 0 ;; env_Commit 0 ;; mret b) s2
      = Returns (match r.1.1 with Failed => log_error i b | _ => b end, s3, []) /\ settled s3 r F
  | None => True
  end.
Proof.
  intros Hb Hte Hv t Hf Hat. destruct (ready_Initialize v te Hte Hv) as (Haf & _ & Hgas & Hres).
  fold t in Haf, Hgas, Hres. unfold spec_round, with_account. rewrite (fd_source _ _ _ Hf). cbv zeta.
  set (v1 := upd (GetSourceAddress t) (charged (GetFeeLimit t) a) v) in *.
  pose proof (tx_Apply_run blk s2 t v1 v1 _ Hat Haf Hgas) as Happ.
  destruct (spec_operations _ v1 t 0 _) as [[code v2]|] eqn:Eops; [|done]. unfold spec_settle. cbv zeta.
  destruct expired.
  { destruct (at_tx_mod s2 t v1 v1 _ (set_result CONTRACT_EXECUTE_EXPIRED) Hat) as (s3 & Hr3 & Hat3 & _).
    exists s3. split; [unfold ApplyExpireResult; by rewrite (hbind_nil _ _ _ tt s3 Hr3)|]. by eexists _, _. }
  destruct Happ as (s3 & j & Hr3 & Hat3 & _). rewrite (hbind_nil _ _ _ _ s3 Hr3).
  destruct (Z.eqb_spec code SUCCESS) as [->|Hc]; cbn [negb]; [|exists s3; split; [done|by eexists _, _]].
  set (t3 := after_operations (charged_frame t) SUCCESS j) in *.
  assert (Hg3 : actual_gas_ t3 = GetSelfGas t3).
  { change (s64 (actual_gas_ t + GetSelfGas t) = GetSelfGas t). rewrite Hgas. apply s64_id.
    destruct Haf. unfold is_s64, int64_min. lia. }
  assert (Hr : spec_refund v2 t3 = spec_refund v2 t) by done.
  destruct (operations_bounded reserve v F t a _ _ _ Hb Hf Eops eq_refl) as [Hb2 _].
  destruct (refund_commit_run s3 t3 v2 v1 F b Hat3) as (s4 & t4 & Hr4 & Hat4 & _); try done.
  { by apply Hb. } { by apply (affordable_same t). }
  rewrite Hr4. exists s4. rewrite Hr in Hat4. destruct (spec_refund v2 t) as [v3 back].
  split; [done|]. by eexists _, _.
Qed.

(** ** Following *)

Lemma follow_loop_run exp l : forall i s v F b v' F' errors,
  at_block s v F -> bounded v F -> Forall typed_tx l ->
  spec_block blk (fun j => bool_decide (j ∈ exp)) i v F (error_txs b) l = Some (v', F', errors) ->
  exists s' b', follow_loop blk exp i b l s = Returns (b', s', [])
    /\ at_block s' v' F' /\ error_txs b' = errors /\ length (applied b') = (length (applied b) + length l)%nat.
Proof.
  induction l as [|te l IH]; intros i s v F b v' F' errors Hat Hb Hl; cbn [spec_block follow_loop].
  { intros [= <- <- <-]. exists s, b. by split_and!. }
  inversion_clear Hl as [|? ? Hte Hl']. destruct (spec_valid blk v (Initialize te)) eqn:Ev; cbn [negb]; [|done].
  destruct (begin_run s v F te Hat Hb Hte Ev) as (a & s1 & s2 & Hf & Hr1 & Hr2 & Hat2 & _).
  rewrite (hbind_nil _ _ _ _ s1 Hr1). cbn [negb]. rewrite (hbind_nil _ _ _ _ s2 Hr2).
  pose proof (followed_run v F te a s2 (bool_decide (i ∈ exp)) i b Hb Hte Ev Hf Hat2) as Hrun.
  destruct (spec_round blk v (Initialize te) _) as [[[r v1] fee]|] eqn:Er; [|done].
  destruct (spec_round_conserves blk reserve v F _ a _ r v1 fee Hb Hf Er) as (Hb1 & _ & _).
  destruct Hrun as (s3 & Hr3 & t3 & w3 & Hat3). cbn [fst snd] in Hr3, Hat3. rewrite (hbind_nil _ _ _ _ s3 Hr3).
  set (b1 := match r with Failed => log_error i b | _ => b end).
  destruct (end_transaction_run s3 t3 w3 v1 (F + fee) b1 Hat3) as (s4 & Hr4 & Hat4 & _).
  rewrite (hbind_nil _ _ _ _ s4 Hr4). intros Hblk.
  destruct (IH (i + 1) s4 v1 (F + fee) (log_applied t3 b1) v' F' errors Hat4 Hb1 Hl') as (s5 & b5 & Hr5 & Hat5 & He & Hn).
  { by destruct r. }
  exists s5, b5. split_and!; try done. rewrite Hn. cbn [log_applied applied]. rewrite length_app. cbn [length].
  replace (length (applied b1)) with (length (applied b)) by (by destruct r). lia.
Qed.

(** ** Checking *)

Lemma checked_inv s v F te (K : option bool -> LM (option BlockLog)) s1 s2 b' s' a : bounded v F -> typed_tx te ->
  spec_valid blk v (Initialize te) = true -> let t := Initialize te in funded v t a ->
  at_tx s2 t (upd (GetSourceAddress t) (charged (GetFeeLimit t) a) v)
    (upd (GetSourceAddress t) (charged (GetFeeLimit t) a) v) (F + GetFeeLimit t) -> ticks_ s2 = ticks_ s1 ->
  (apply_checked blk 0 ≫= K) s2 = Returns (Some b', s', []) ->
  exists r v1 fee s3, spec_round blk v t (late (ticks_ s1)) = Some (r, v1, fee)
    /\ K (verdict_code r) s3 = Returns (Some b', s', []) /\ settled s3 (r, v1, fee) F /\ bounded v1 (F + fee).
Proof.
  intros Hb Hte Hv t Hf Hat Hk Hrun. pose proof (checked_run s1 v F te a s2 Hb Hte Hv Hf Hat Hk) as H. fold t in H.
  destruct (spec_round blk v t (late (ticks_ s1))) as [[[r v1] fee]|] eqn:Er.
  - destruct H as (s3 & Hr3 & Hset & _). rewrite (hbind_nil _ _ _ _ s3 Hr3) in Hrun.
    destruct (spec_round_conserves blk reserve v F _ a _ r v1 fee Hb Hf Er) as (Hb1 & _ & _).
    by exists r, v1, fee, s3.
  - by apply (calls_first _ K s2 H) in Hrun.
Qed.

(** What the loops of proposing and checking log for a verdict. *)
Definition log_verdict (id : Z) (r : option bool) b : BlockLog :=
  match r with Some true => log_expired id b | Some false => log_error id b | None => b end.

(** The rest of a round: clean-up, the block's deadline, and the loop goes on. *)
Lemma round_rest s3 r v1 fee F start (id : Z) b b' s' (L : BlockLog -> LM (option BlockLog)) :
  settled s3 (r, v1, fee) F ->
  (b ← end_transaction 0 (log_verdict id (verdict_code r) b);
   now ← HighResolution;
   if BLOCK_EXECUTE_TIME_OUT <? s64 (now - start) then mret None else L b) s3 = Returns (Some b', s', []) ->
  exists t s5, at_block s5 v1 (F + fee)
    /\ L (log_applied t (log_verdict id (verdict_code r) b)) s5 = Returns (Some b', s', []).
Proof.
  intros (t & w & Hat). cbn [fst snd] in Hat.
  destruct (end_transaction_run s3 t w v1 (F + fee) (log_verdict id (verdict_code r) b) Hat) as (s4 & Hr4 & Hat4 & _).
  rewrite (hbind_nil _ _ _ _ s4 Hr4). destruct (HighResolution_run s4) as (s5 & Hr5 & He & Hst & HF & _).
  rewrite (hbind_nil _ _ _ _ s5 Hr5). destruct (_ <? _); [done|]. intros H. exists t, s5. split; [|done].
  destruct Hat4 as (Hok & HV & HB & HF4 & Hst4). destruct (same_env 0 s4 s5 He) as (Hok' & HV' & HB' & _).
  split_and!; [by apply Hok'|congruence..].
Qed.

(** A transaction of the loop is expired exactly when its position is logged. *)
Lemma log_expired_mem id r b j : (forall j, j ∈ expire_txs b -> j < id) -> j <= id ->
  j ∈ expire_txs (log_verdict id (verdict_code r) b) <-> j ∈ expire_txs b \/ (j = id /\ r = Expired).
Proof. intros Hlt Hj. destruct r; cbn; set_solver. Qed.

Lemma spec_round_expired v t e r v1 fee : spec_round blk v t e = Some (r, v1, fee) -> e = bool_decide (r = Expired).
Proof.
  unfold spec_round, with_account. destruct (v _); [|done]. cbv zeta.
  destruct (spec_operations _ _ _ _ _) as [[code v2]|]; [|done]. unfold spec_settle. destruct e; [by intros [= <- _ _]|].
  destruct (negb _); [by intros [= <- _ _]|]. destruct (spec_refund v2 t). by intros [= <- _ _].
Qed.

(** Below position [id]: the logged positions, each expired or failed and not both. *)
Definition ids_ok (id : Z) b : Prop :=
  0 <= id /\ (forall j, j ∈ expire_txs b -> 0 <= j < id) /\ (forall j, j ∈ error_txs b -> 0 <= j < id)
  /\ expire_txs b ## error_txs b.

Lemma ids_ok_log id r t b : ids_ok id b -> ids_ok (id + 1) (log_applied t (log_verdict id (verdict_code r) b)).
Proof.
  intros (H0 & H1 & H2 & H3).
  assert (Hn1 : id ∉ expire_txs b) by (intros Hi; specialize (H1 id Hi); lia).
  assert (Hn2 : id ∉ error_txs b) by (intros Hi; specialize (H2 id Hi); lia).
  destruct r; unfold ids_ok; cbn [verdict_code log_verdict log_applied log_expired log_error expire_txs error_txs];
    (split_and!; [lia| | |set_solver]); intros j Hj; rewrite ?elem_of_union, ?elem_of_singleton in Hj;
    naive_solver lia.
Qed.

(** One step of the loops of proposing and checking, for a valid transaction with
    position [id] in the block. *)
Lemma round_inv s v F te start id b b' s' (L : BlockLog -> LM (option BlockLog)) :
  at_block s v F -> bounded v F -> typed_tx te -> spec_valid blk v (Initialize te) = true ->
  (forall j, j ∈ expire_txs b -> j < id) ->
  (f ← PayFee 0 (Initialize te);
   let '(paid, tx_frm) := f : bool * TransactionFrm in
   if negb paid then L b
   else
   me ← start_transaction tx_frm;
   r ← apply_checked blk me;
   b ← end_transaction me (log_verdict id r b);
   now ← HighResolution;
   if BLOCK_EXECUTE_TIME_OUT <? s64 (now - start) then mret None else L b) s = Returns (Some b', s', []) ->
  exists r v1 fee t s5, let b1 := log_applied t (log_verdict id (verdict_code r) b) in
    spec_round blk v (Initialize te) (bool_decide (id ∈ expire_txs b1)) = Some (r, v1, fee)
    /\ at_block s5 v1 (F + fee) /\ bounded v1 (F + fee) /\ L b1 s5 = Returns (Some b', s', [])
    /\ error_txs b1 = (match r with Failed => {[ id ]} ∪ error_txs b | _ => error_txs b end)
    /\ need_dropped b1 = need_dropped b /\ (ids_ok id b -> ids_ok (id + 1) b1)
    /\ (forall j, j ∈ expire_txs b1 -> j < id + 1) /\ (forall j, j < id -> j ∈ expire_txs b1 <-> j ∈ expire_txs b).
Proof.
  intros Hat Hb Hte Hv Hlt Hrun.
  destruct (begin_run s v F te Hat Hb Hte Hv) as (a & s1 & s2 & Hf & Hr1 & Hr2 & Hat2 & Hk).
  rewrite (hbind_nil _ _ _ _ s1 Hr1) in Hrun. cbn [negb] in Hrun. rewrite (hbind_nil _ _ _ _ s2 Hr2) in Hrun.
  apply (checked_inv s v F te _ s s2 b' s' a Hb Hte Hv Hf Hat2 Hk) in Hrun as (r & v1 & fee & s3 & Er & Hrun & Hset & Hb1).
  destruct (round_rest s3 r v1 fee F start id b b' s' L Hset Hrun) as (t & s5 & Hat5 & Hrest). exists r, v1, fee, t, s5. cbv zeta. clear Hrun.
  split_and!; try done; try by destruct r.
  - rewrite (spec_round_expired _ _ _ _ _ _ Er) in Er. rewrite <- Er. f_equal. apply bool_decide_ext.
    change (expire_txs (log_applied t ?b)) with (expire_txs b). rewrite log_expired_mem by (done || lia). naive_solver lia.
  - apply ids_ok_log.
  - intros j. destruct r; cbn; set_solver by lia.
  - intros j Hj. change (expire_txs (log_applied t ?b)) with (expire_txs b). rewrite log_expired_mem by (done || lia).
    naive_solver lia.
Qed.

Lemma check_loop_run start l : forall i s v F b b' s', at_block s v F -> bounded v F -> Forall typed_tx l ->
  (forall j, j ∈ expire_txs b -> j < i) -> check_loop blk start i b l s = Returns (Some b', s', []) ->
  exists v' F', spec_block blk (fun j => bool_decide (j ∈ expire_txs b')) i v F (error_txs b) l = Some (v', F', error_txs b')
    /\ at_block s' v' F' /\ forall j, j < i -> j ∈ expire_txs b' <-> j ∈ expire_txs b.
Proof.
  induction l as [|te l IH]; intros i s v F b b' s' Hat Hb Hl Hlt; cbn [spec_block check_loop].
  { intros [= <- <-]. by exists v, F. }
  inversion_clear Hl as [|? ? Hte Hl'].
  destruct (ValidForApply_run blk reserve sizes s v F te Hat (proj1 Hb) Hte) as (s1 & t1 & Hr1 & Hat1 & _ & Ht1).
  cbv zeta. rewrite (hbind_nil _ _ _ _ s1 Hr1). destruct (spec_valid blk v (Initialize te)) eqn:Ev; cbn [negb]; [|done].
  rewrite (Ht1 eq_refl). intros Hrun.
  destruct (round_inv s1 v F te start i b b' s' (fun b => check_loop blk start (i + 1) b l) Hat1 Hb Hte Ev Hlt)
    as (r & v1 & fee & t & s5 & Hround & Hat5 & Hb5 & Hrest & Herr & _ & _ & Hlt5 & Hsame).
  { rewrite <- Hrun. destruct (begin_run s1 v F te Hat1 Hb Hte Ev) as (a & s2 & _ & _ & Hr2 & _).
    by rewrite !(hbind_nil _ _ _ _ s2 Hr2). }
  destruct (IH _ _ v1 (F + fee) _ _ _ Hat5 Hb5 Hl' Hlt5 Hrest) as (v' & F' & Hblk & Hat' & Hkeep).
  exists v', F'. split_and!; [|done|].
  - rewrite Herr in Hblk. revert Hround Hblk. rewrite <- (bool_decide_ext (i ∈ expire_txs b') (i ∈ expire_txs (log_applied t (log_verdict i (verdict_code r) b))))
      by (apply Hkeep; lia). intros -> Hblk. exact Hblk.
  - intros j Hj. rewrite Hkeep, Hsame by lia. done.
Qed.

(** ** Proposing *)

(** The transactions that remain when the dropped positions are taken out. *)
Fixpoint kept (drop : gset Z) (i : Z) (l : list TransactionEnv) : list TransactionEnv :=
  match l with
  | [] => []
  | te :: l' => if bool_decide (i ∈ drop) then kept drop (i + 1) l' else te :: kept drop (i + 1) l'
  end.

Lemma kept_typed drop i l : Forall typed_tx l -> Forall typed_tx (kept drop i l).
Proof.
  intros Hl. revert i. induction Hl as [|te l Hte _ IH]; intros i; cbn [kept]; [done|].
  case_bool_decide; [apply IH|constructor; [done|apply IH]].
Qed.

Lemma propose_loop_run start l : forall i s v F b b' s', let id := i - Z.of_nat (base.size (need_dropped b)) in
  at_block s v F -> bounded v F -> Forall typed_tx l ->
  (forall j, j ∈ need_dropped b -> j < i) -> (forall j, j ∈ expire_txs b -> j < id) ->
  propose_loop blk start i b l s = Returns (Some b', s', []) ->
  exists v' F', spec_block blk (fun j => bool_decide (j ∈ expire_txs b')) id v F (error_txs b)
      (kept (need_dropped b') i l) = Some (v', F', error_txs b')
    /\ at_block s' v' F' /\ (forall j, j < id -> j ∈ expire_txs b' <-> j ∈ expire_txs b)
    /\ (forall j, j < i -> j ∈ need_dropped b' <-> j ∈ need_dropped b)
    /\ (ids_ok id b -> ids_ok (id + Z.of_nat (length (kept (need_dropped b') i l))) b').
Proof.
  induction l as [|te l IH]; intros i s v F b b' s' id Hat Hb Hl Hdrop Hlt; cbn [kept propose_loop].
  { intros [= <- <-]. exists v, F. cbn [length]. rewrite Z.add_0_r. by split_and!. }
  inversion_clear Hl as [|? ? Hte Hl'].
  destruct (ValidForApply_run blk reserve sizes s v F te Hat (proj1 Hb) Hte) as (s1 & t1 & Hr1 & Hat1 & _ & Ht1).
  cbv zeta. rewrite (hbind_nil _ _ _ _ s1 Hr1). destruct (spec_valid blk v (Initialize te)) eqn:Ev; cbn [negb].
  - rewrite (Ht1 eq_refl). intros Hrun.
    destruct (round_inv s1 v F te start id b b' s' (fun b => propose_loop blk start (i + 1) b l) Hat1 Hb Hte Ev Hlt)
      as (r & v1 & fee & t & s5 & Hround & Hat5 & Hb5 & Hrest & Herr & Hnd & Hids5 & Hlt5 & Hsame).
    { rewrite <- Hrun. destruct (begin_run s1 v F te Hat1 Hb Hte Ev) as (a & s2 & _ & _ & Hr2 & _).
      by rewrite !(hbind_nil _ _ _ _ s2 Hr2). }
    set (b1 := log_applied t _) in *.
    assert (Eid : i + 1 - Z.of_nat (base.size (need_dropped b1)) = id + 1) by (rewrite Hnd; unfold id; lia).
    destruct (IH (i + 1) s5 v1 (F + fee) b1 b' s' Hat5 Hb5 Hl') as (v' & F' & Hblk & Hat' & Hkeep & Hdr & Hids); [| |done|].
    { rewrite Hnd. intros j Hj. specialize (Hdrop j Hj). lia. } { by rewrite Eid. }
    rewrite Eid in Hblk, Hkeep, Hids. exists v', F'.
    rewrite bool_decide_false by (rewrite Hdr, Hnd by lia; intros Hi; specialize (Hdrop i Hi); lia).
    split_and!; [|done| | |].
    + cbn [spec_block]. rewrite Ev. cbn [negb]. rewrite Herr in Hblk. revert Hround Hblk.
      rewrite <- (bool_decide_ext (id ∈ expire_txs b') (id ∈ expire_txs b1)) by (apply Hkeep; lia).
      intros -> Hblk. exact Hblk.
    + intros j Hj. rewrite Hkeep, Hsame by lia. done.
    + intros j Hj. rewrite Hdr, Hnd by lia. done.
    + intros H. cbn [length]. rewrite Nat2Z.inj_succ, <- Z.add_1_l, Z.add_assoc. by apply Hids, Hids5.
  - intros Hrun. set (b1 := log_dropped i t1 b) in *.
    assert (Hi : i ∉ need_dropped b) by (intros Hi; specialize (Hdrop i Hi); lia).
    assert (Eid : i + 1 - Z.of_nat (base.size (need_dropped b1)) = id).
    { unfold b1, id. cbn [log_dropped need_dropped]. rewrite size_union, size_singleton by set_solver. lia. }
    destruct (IH (i + 1) s1 v F b1 b' s' Hat1 Hb Hl') as (v' & F' & Hblk & Hat' & Hkeep & Hdr & Hids); [| |done|].
    { unfold b1. cbn [log_dropped need_dropped]. intros j [->%elem_of_singleton|Hj]%elem_of_union; [lia|].
      specialize (Hdrop j Hj). lia. }
    { by rewrite Eid. }
    rewrite Eid in Hblk, Hkeep, Hids. exists v', F'.
    rewrite bool_decide_true by (rewrite Hdr by lia; unfold b1; cbn; set_solver). split_and!; [done|done|done| |exact Hids].
    intros j Hj. rewrite Hdr by lia. unfold b1. cbn [log_dropped need_dropped].
    rewrite elem_of_union, elem_of_singleton. naive_solver lia.
Qed.

(** ** The validation of a proposal *)

Lemma check_ids_run n l : forall total status, NoDup l -> (forall j, j ∈ l -> 0 <= j < n) ->
  (forall j, j ∈ l -> j ∉ total) ->
  check_ids n total status l = Some (list_to_set l ∪ total, list_to_set l ∪ status).
Proof.
  clear reserve sizes. induction l as [|j l IH]; intros total status Hnd Hr Hd; cbn [check_ids list_to_set].
  { by rewrite !(left_id_L ∅ (∪)). }
  inversion_clear Hnd as [|? ? Hj Hnd']. pose proof (Hr j ltac:(left)) as Hj0.
  destruct (Z.leb_spec n j); [lia|]. destruct (Z.ltb_spec j 0); [lia|]. cbn [orb].
  rewrite bool_decide_false by (apply Hd; left). rewrite IH; [|done| |].
  - do 2 f_equal; set_solver.
  - intros k Hk. apply Hr. by right.
  - intros k Hk Hk'. apply elem_of_union in Hk' as [->%elem_of_singleton|Hk']; [done|]. by apply (Hd k); [right|].
Qed.

(** The sorted positions, read back. *)
Lemma sorted_ids (X : gset Z) : NoDup (merge_sort Z.le (elements X))
  /\ (forall j, j ∈ merge_sort Z.le (elements X) <-> j ∈ X)
  /\ (list_to_set (merge_sort Z.le (elements X)) : gset Z) = X.
Proof.
  pose proof (merge_sort_Permutation Z.le (elements X)) as Hp. split_and!.
  - rewrite Hp. apply NoDup_elements.
  - intros j. by rewrite Hp, elem_of_elements.
  - apply set_eq. intros j. by rewrite elem_of_list_to_set, Hp, elem_of_elements.
Qed.

Lemma validation_roundtrip txs b : ids_ok (Z.of_nat (length txs)) b ->
  CheckConsValueValidation (MkValue txs (Some (SetValidationToProto (expire_txs b) (error_txs b))))
  = Some (expire_txs b, error_txs b).
Proof.
  clear reserve sizes. intros (_ & H1 & H2 & H3). unfold CheckConsValueValidation, SetValidationToProto. cbn [cv_validation cv_txs expire_tx_ids error_tx_ids].
  destruct (sorted_ids (expire_txs b)) as (N1 & M1 & E1), (sorted_ids (error_txs b)) as (N2 & M2 & E2).
  rewrite check_ids_run; [|done|intros j Hj; by apply H1, M1|set_solver].
  rewrite check_ids_run; [|done|intros j Hj; by apply H2, M2|].
  - by rewrite E1, E2, !(right_id_L ∅ (∪)).
  - intros j Hj%M2 Hj'. rewrite E1 in Hj'. set_solver.
Qed.

(** ** Whole blocks *)

(** All three modes start on the database with no fees. *)
Lemma block_start {A} s (K : Z -> LM A) : transaction_stack_ s = [] ->
  exists s1, (start_time ← HighResolution; hmod (fun s => set_total_fee 0 (fresh_environment s)) ;; K start_time) s
      = K (clock (ticks_ s)) s1
    /\ at_block s1 AccountFromDB 0.
Proof.
  intros Hst. destruct (HighResolution_run s) as (s1 & Hr & _ & Hst1 & _). rewrite (hbind_nil _ _ _ _ s1 Hr).
  set (s2 := set_total_fee 0 (fresh_environment s1)). rewrite (hbind_nil _ _ _ tt s2) by done. exists s2.
  split; [done|]. destruct (empty_env s2 eq_refl) as (Hok & HV & HB). split_and!; try done. by rewrite <- Hst, <- Hst1.
Qed.

Context (seq : 0 <= bi_header_seq blk)
        (supply : bounded AccountFromDB (GetBlockReward (bi_header_seq blk))).

Lemma start_bounded : bounded AccountFromDB 0.
Proof.
  destruct supply as (Hg & H0 & HD). split_and!; [done|lia|]. intros D. specialize (HD D). lia.
Qed.

(** The end of a block whose transactions the specification accepts. *)
Lemma block_end expired l v F errors s : Forall typed_tx l -> at_block s v F ->
  spec_block blk expired 0 AccountFromDB 0 ∅ l = Some (v, F, errors) ->
  exists s', AllocateReward blk s = Returns (bool_decide (is_Some (spec_reward blk v F)), s', [])
    /\ ok 0 s' /\ VB 0 s' = default v (spec_reward blk v F) /\ total_fee_ s' = F.
Proof.
  intros Hl Hat Hblk. apply AllocateReward_run; [done|done|].
  destruct (spec_block_conserves blk reserve sizes expired l 0 _ 0 ∅ v F errors start_bounded Hl Hblk) as [Hb Hm].
  destruct Hb as (Hg & HF & _). eapply bounded_moved; [exact supply|done|pose proof (GetBlockReward_bound (bi_header_seq blk)); lia|].
  eapply moved_eq; [exact Hm|lia].
Qed.

Lemma follow_run request s expire error v F errors : transaction_stack_ s = [] -> Forall typed_tx (cv_txs request) ->
  CheckConsValueValidation request = Some (expire, error) ->
  spec_block blk (fun j => bool_decide (j ∈ expire)) 0 AccountFromDB 0 ∅ (cv_txs request) = Some (v, F, errors) ->
  exists s' b, ApplyFollow blk request s = Returns (Some b, s', [])
    /\ VB 0 s' = default v (spec_reward blk v F) /\ total_fee_ s' = F /\ error_txs b = errors
    /\ length (applied b) = length (cv_txs request).
Proof.
  intros Hst Hl Hval Hblk. unfold ApplyFollow. rewrite Hval.
  destruct (block_start s (fun _ => b ← follow_loop blk expire 0 no_logs (cv_txs request); AllocateReward blk ;; mret (Some b)) Hst)
    as (s1 & E & Hat). rewrite E.
  destruct (follow_loop_run expire (cv_txs request) 0 s1 _ 0 no_logs v F errors Hat start_bounded Hl Hblk)
    as (s2 & b & Hr2 & Hat2 & He & Hn). rewrite (hbind_nil _ _ _ _ s2 Hr2).
  destruct (block_end _ _ v F errors s2 Hl Hat2 Hblk) as (s3 & Hr3 & _ & HB3 & HF3).
  exists s3, b. rewrite (hbind_nil _ _ _ _ s3 Hr3). by split_and!.
Qed.

Lemma check_run request s s' expire error : transaction_stack_ s = [] -> Forall typed_tx (cv_txs request) ->
  CheckConsValueValidation request = Some (expire, error) ->
  ApplyCheck blk request s = Returns (true, s', []) ->
  exists v F, spec_block blk (fun j => bool_decide (j ∈ expire)) 0 AccountFromDB 0 ∅ (cv_txs request) = Some (v, F, error)
    /\ VB 0 s' = default v (spec_reward blk v F) /\ total_fee_ s' = F.
Proof.
  intros Hst Hl Hval. unfold ApplyCheck. rewrite Hval.
  destruct (block_start s (fun start_time => r ← check_loop blk start_time 0 no_logs (cv_txs request);
    match r with
    | None => mret false
    | Some b => AllocateReward blk ;;
        mret (bool_decide (expire_txs b = expire) && bool_decide (error_txs b = error))
    end) Hst) as (s1 & E & Hat). rewrite E. clear E.
  intros (r & s2 & es1 & es2 & Hr2 & Hrest & Hes)%hbind_inv. symmetry in Hes. apply app_eq_nil in Hes as [-> ->].
  destruct r as [b|]; [|done].
  destruct (check_loop_run (clock (ticks_ s)) (cv_txs request) 0 s1 _ 0 no_logs b s2 Hat start_bounded Hl)
    as (v & F & Hblk & Hat2 & _); [done|done|].
  destruct (block_end _ _ v F _ s2 Hl Hat2 Hblk) as (s3 & Hr3 & _ & HB3 & HF3).
  rewrite (hbind_nil _ _ _ _ s3 Hr3) in Hrest. injection Hrest as Hb <-.
  apply andb_prop in Hb as [<-%bool_decide_eq_true <-%bool_decide_eq_true]. by exists v, F.
Qed.

Lemma propose_run request s s' b val : transaction_stack_ s = [] -> Forall typed_tx (cv_txs request) ->
  ApplyPropose blk request s = Returns (Some (b, val), s', []) ->
  exists v F, spec_block blk (fun j => bool_decide (j ∈ expire_txs b)) 0 AccountFromDB 0 ∅
      (kept (need_dropped b) 0 (cv_txs request)) = Some (v, F, error_txs b)
    /\ VB 0 s' = default v (spec_reward blk v F) /\ total_fee_ s' = F
    /\ val = SetValidationToProto (expire_txs b) (error_txs b)
    /\ ids_ok (Z.of_nat (length (kept (need_dropped b) 0 (cv_txs request)))) b.
Proof.
  intros Hst Hl. unfold ApplyPropose.
  destruct (block_start s (fun start_time => if bool_decide (is_Some (cv_validation request)) then mret None
    else r ← propose_loop blk start_time 0 no_logs (cv_txs request);
      match r with
      | None => mret None
      | Some b => AllocateReward blk ;; mret (Some (b, SetValidationToProto (expire_txs b) (error_txs b)))
      end) Hst) as (s1 & E & Hat). rewrite E. clear E. case_bool_decide; [done|].
  intros (r & s2 & es1 & es2 & Hr2 & Hrest & Hes)%hbind_inv. symmetry in Hes. apply app_eq_nil in Hes as [-> ->].
  destruct r as [b1|]; [|done].
  destruct (propose_loop_run (clock (ticks_ s)) (cv_txs request) 0 s1 _ 0 no_logs b1 s2 Hat start_bounded Hl)
    as (v & F & Hblk & Hat2 & _ & _ & Hids);
    [done|done|done|].
  assert (Hl2 : Forall typed_tx (kept (need_dropped b1) 0 (cv_txs request))) by by apply kept_typed.
  destruct (block_end _ _ v F _ s2 Hl2 Hat2 Hblk) as (s3 & Hr3 & _ & HB3 & HF3).
  rewrite (hbind_nil _ _ _ _ s3 Hr3) in Hrest. injection Hrest as -> <- <-. exists v, F. split_and!; try done.
  apply Hids. by split_and!.
Qed.

(** The coins of the accounts that are committed in the end. *)
Lemma closed_coins expired l v F errors : Forall typed_tx l ->
  spec_block blk expired 0 AccountFromDB 0 ∅ l = Some (v, F, errors) -> bi_test_mode blk = false ->
  good (default v (spec_reward blk v F))
  /\ match GetValidators (s64 (bi_header_seq blk - 1)) with
     | Some (_ :: _) => moved AccountFromDB (default v (spec_reward blk v F)) (GetBlockReward (bi_header_seq blk))
     | _ => moved AccountFromDB (default v (spec_reward blk v F)) (GetBlockReward (bi_header_seq blk))
            \/ moved AccountFromDB (default v (spec_reward blk v F)) (- F)
     end.
Proof.
  intros Hl Hblk Htest.
  destruct (spec_block_conserves blk reserve sizes expired l 0 _ 0 ∅ v F errors start_bounded Hl Hblk) as [(Hg & HF & _) Hm].
  assert (Hb : bounded v (F + GetBlockReward (bi_header_seq blk))).
  { eapply bounded_moved; [exact supply|done|pose proof (GetBlockReward_bound (bi_header_seq blk)); lia|].
    eapply moved_eq; [exact Hm|lia]. }
  destruct (spec_reward blk v F) as [v'|] eqn:Er; cbn [from_option id].
  - destruct (spec_reward_moved blk v F v' Hb seq Htest Er) as [[Hg' _] Hm']. split; [done|].
    assert (moved AccountFromDB v' (GetBlockReward (bi_header_seq blk))).
    { eapply moved_eq; [eapply moved_trans; [exact Hm|exact Hm']|lia]. }
    destruct (GetValidators _) as [[|]|]; [by left|done|by left].
  - split; [done|]. apply (moved_eq _ _ _ (- F)) in Hm; [|lia]. unfold spec_reward in Er. cbv zeta in Er.
    destruct (_ || _); [done|]. destruct (if CHECK_VERSION_GT_1002 then _ else _); [done|].
    destruct (GetValidators _) as [[|]|]; [by right|done|by right].
Qed.
End Blocks.

(** ** Theorems *)

(** A database and a block in range: a reserve that is not negative, messages that have a
    size, a height, and balances that fit an int64 together with the block reward. *)
Record block_ok `{P : LedgerParams} (blk : BlockInfo) : Prop := {
  bo_reserve : 0 <= cfg_base_reserve <= int64_max;
  bo_sizes : forall te, 0 <= ByteSize te;
  bo_seq : 0 <= bi_header_seq blk;
  bo_supply : bounded AccountFromDB (GetBlockReward (bi_header_seq blk)) }.

(** The committed accounts at the end of a block: rewarded where somebody can be paid. *)
Definition closes_with `{P : LedgerParams} (blk : BlockInfo) (v : lview) (F : Z) (s' : LState) : Prop :=
  VB 0 s' = default v (spec_reward blk v F) /\ total_fee_ s' = F.

(** C10: Following a block implements the abstract block. For a value whose expired positions
    are well-formed and whose transactions the specification accepts without running a
    contract, ApplyFollow returns; the accounts it commits are those of the specification,
    in which each transaction pays its fee limit, uses up a nonce and is then applied and
    refunded, or has failed or expired and leaves nothing else behind, and the fees and the
    block reward are then paid out; the fees, the failed positions and the number of
    transactions are those of the specification too. *)
Theorem follow_refines `{P : LedgerParams} (blk : BlockInfo) (request : ConsensusValue) (s : LState)
  (expire error errors : gset Z) (v : lview) (F : Z) :
  block_ok blk -> transaction_stack_ s = [] -> Forall typed_tx (cv_txs request) ->
  CheckConsValueValidation request = Some (expire, error) ->
  spec_block blk (fun j => bool_decide (j ∈ expire)) 0 AccountFromDB 0 ∅ (cv_txs request) = Some (v, F, errors) ->
  exists s' b, ApplyFollow blk request s = Returns (Some b, s', [])
    /\ closes_with blk v F s' /\ error_txs b = errors /\ length (applied b) = length (cv_txs request).
Proof.
  intros [Hr Hz Hq Hs] Hst Hl Hval Hblk.
  destruct (follow_run blk Hr Hz Hq Hs request s expire error v F errors Hst Hl Hval Hblk) as (s' & b & H1 & H2 & H3 & H4).
  by exists s', b.
Qed.


(** A proposal can be followed. When a replica proposes a block, with no contract run, then
    the proposed value (the transactions that were not dropped, with the expired and failed
    positions) has a well-formed validation, and every replica that follows it commits
    the accounts, fees and failures of the proposer. *)
Theorem proposals_can_be_followed `{P : LedgerParams} (blk : BlockInfo) (request : ConsensusValue)
  (s1 s1' s2 : LState) (b : BlockLog) (val : ConsensusValueValidation) :
  block_ok blk -> transaction_stack_ s1 = [] -> transaction_stack_ s2 = [] -> Forall typed_tx (cv_txs request) ->
  ApplyPropose blk request s1 = Returns (Some (b, val), s1', []) ->
  let proposed := MkValue (kept (need_dropped b) 0 (cv_txs request)) (Some val) in
  CheckConsValueValidation proposed = Some (expire_txs b, error_txs b)
  /\ exists s2' b2, ApplyFollow blk proposed s2 = Returns (Some b2, s2', [])
       /\ VB 0 s2' = VB 0 s1' /\ total_fee_ s2' = total_fee_ s1' /\ error_txs b2 = error_txs b.
Proof.
  intros [Hr Hz Hq Hs] Hst1 Hst2 Hl Hrun proposed.
  destruct (propose_run blk Hr Hz Hq Hs request s1 s1' b val Hst1 Hl Hrun) as (v & F & Hblk & HB & HF & -> & Hids).
  pose proof (validation_roundtrip _ b Hids) as Hval. fold proposed in Hval. split; [done|].
  destruct (follow_run blk Hr Hz Hq Hs proposed s2 _ _ v F (error_txs b) Hst2 (kept_typed _ 0 _ Hl) Hval Hblk)
    as (s' & b2 & H1 & H2 & H3 & H4 & _).
  exists s', b2. split_and!; [done|congruence|congruence|done].
Qed.


(** ** Witnesses on a small ledger *)

Lemma demo_support k : k ∉ ({[ "alice"; "bob" ]} : gset string) -> @AccountFromDB demo_params k = None.
Proof.
  rewrite not_elem_of_union, !not_elem_of_singleton. intros [H1 H2]. unfold AccountFromDB.
  cbn [account_tree demo_params]. by rewrite !bool_decide_false.
Qed.

Lemma demo_block_ok : @block_ok demo_params demo_block.
Proof.
  split; [cbn; unfold int64_max; lia|done|done|].
  assert (Hg : good (@AccountFromDB demo_params)).
  { intros k a. unfold AccountFromDB. cbn. repeat case_bool_decide; cbn; intros [= <-]; unfold in_range, int64_max; cbn; lia. }
  split_and!; [done|apply GetBlockReward_bound|]. intros D.
  pose proof (coins_support (@AccountFromDB demo_params) {[ "alice"; "bob" ]} D Hg demo_support) as Hc.
  assert (coins {[ "alice"; "bob" ]} (@AccountFromDB demo_params) = 100000500) as E by (vm_compute; reflexivity).
  pose proof (GetBlockReward_bound (bi_header_seq demo_block)). unfold REWARD_INIT_VALUE, int64_max in *.
  lia.
Qed.

Definition demo_start : LState := MkLState empty_store [] 0 0 empty_store JNull.
(** Alice pays Bob; Mallory has no account. *)
Definition mallory_env : TransactionEnv :=
  MkTxEnv (MkTransaction "mallory" 1 1000 1 0 "" [demo_op] 1) [MkSignature "mallory" "mallory"].
Definition demo_request : ConsensusValue := MkValue [mallory_env; demo_env] None.
Definition demo_value : ConsensusValue := MkValue [demo_env] (Some (MkValidation [] [])).

Lemma demo_typed : Forall typed_tx [mallory_env; demo_env].
Proof. repeat constructor; vm_compute; discriminate. Qed.

Lemma follow_refines_witness :
  exists v F s' b, @spec_block demo_params demo_block (fun j => bool_decide (j ∈ (∅ : gset Z))) 0
      (@AccountFromDB demo_params) 0 ∅ (cv_txs demo_value) = Some (v, F, ∅)
    /\ @ApplyFollow demo_params demo_block demo_value demo_start = Returns (Some b, s', [])
    /\ bal v "bob" = 570 /\ F = 200.
Proof.
  assert (Hs : (fun r => (bal r.1.1 "bob", r.1.2, r.2)) <$> @spec_block demo_params demo_block
      (fun j => bool_decide (j ∈ (∅ : gset Z))) 0 (@AccountFromDB demo_params) 0 ∅ (cv_txs demo_value)
    = Some (570, 200, ∅)) by (vm_compute; reflexivity).
  destruct (spec_block _ _ _ _ _ _ _) as [[[v F] errors]|] eqn:E; [|discriminate Hs]. cbn in Hs.
  injection Hs as Hb -> ->.
  destruct (follow_refines (P := demo_params) demo_block demo_value demo_start ∅ ∅ ∅ v 200 demo_block_ok eq_refl
    (Forall_inv_tail demo_typed) eq_refl E) as (s' & b & Hr & _).
  exists v, 200, s', b. split; [reflexivity|]. split; [exact Hr|]. split; [exact Hb|reflexivity].
Defined.


Lemma proposals_can_be_followed_witness :
  exists s1' b val s2' b2, @ApplyPropose demo_params demo_block demo_request demo_start = Returns (Some (b, val), s1', [])
    /\ need_dropped b = {[ 0 ]} /\ kept (need_dropped b) 0 (cv_txs demo_request) = [demo_env]
    /\ @ApplyFollow demo_params demo_block (MkValue (kept (need_dropped b) 0 (cv_txs demo_request)) (Some val)) demo_start
       = Returns (Some b2, s2', []).
Proof.
  destruct (@ApplyPropose demo_params demo_block demo_request demo_start) as [[[r s1'] es]|e] eqn:E;
    [|vm_compute in E; discriminate E].
  assert (Hc : (fun x => need_dropped x.1) <$> r = Some {[ 0 ]} /\ es = [])
    by (vm_compute in E; injection E as <- _ <-; split; reflexivity).
  destruct Hc as [Hd ->]. destruct r as [[b val]|]; [|discriminate Hd]. cbn in Hd. injection Hd as Hd.
  destruct (proposals_can_be_followed (P := demo_params) demo_block demo_request demo_start s1' demo_start b val
    demo_block_ok eq_refl eq_refl demo_typed E) as (_ & s2' & b2 & Hr & _).
  exists s1', b, val, s2', b2. split; [reflexivity|]. split; [exact Hd|]. split; [|exact Hr].
  rewrite Hd. vm_compute. reflexivity.
Defined.

