(* ===== verification/Trie.v ===== *)
(** * The Merkle trie

    [NodeFrm] and [Trie] (src/ledger/trie.h, src/ledger/trie.cpp) over the key-value
    store of [KVTrie] (src/ledger/kv_trie.h, src/ledger/kv_trie.cpp): a radix-16 trie
    whose nodes are loaded from the database on demand, changed in memory, and
    hashed and written to a batch by [UpdateHash]. Nodes are owned by one parent, so
    a trie is a tree and a member function that changes a node returns it. *)
From S2P Require Import Prelude.

Abbreviation bytes := (list Z).
Abbreviation Location := (list Z).

(** ** Locations

    The nibbles of a path, two per byte, behind a byte that says whether their number
    is even or odd; an odd location ends in a byte with a zero low half. *)
Definition EVEN_PREFIX : Z := 0.
Definition ODD_PREFIX : Z := 1.
Definition LEAF_PREFIX : Z := 2.

(** [CommonPrefix]: the loop over the bytes after the first one; [odd1] and [odd2] say
    whether the first bytes are [ODD_PREFIX]. The result is the output after its first
    byte, and the first byte. *)
Fixpoint common_loop (odd1 odd2 : bool) (s1 s2 : bytes) : bytes * Z :=
  match s1, s2 with
  | c1 :: s1', c2 :: s2' =>
      if negb (Z.land c1 240 =? Z.land c2 240) then ([], EVEN_PREFIX)
      else if bool_decide (s1' = []) && odd1 then ([Z.land c1 240], ODD_PREFIX)
      else if bool_decide (s2' = []) && odd2 then ([Z.land c1 240], ODD_PREFIX)
      else if negb (Z.land c1 15 =? Z.land c2 15) then ([Z.land c1 240], ODD_PREFIX)
      else let '(out, pre) := common_loop odd1 odd2 s1' s2' in (c1 :: out, pre)
  | _, _ => ([], EVEN_PREFIX)
  end.

Definition is_odd (s : Location) : bool := match s with c :: _ => c =? ODD_PREFIX | [] => false end.

Definition CommonPrefix (s1 s2 : Location) : Location :=
  let '(out, pre) := common_loop (is_odd s1) (is_odd s2) (tail s1) (tail s2) in pre :: out.

(** [NextBranch]: [at] throws out of range. *)
Definition at_ (s : bytes) (i : nat) : outcome Z :=
  match s !! i with Some c => Returns c | None => Throws RangeError end.

Definition NextBranch (s1 s2 : Location) : outcome nat :=
  let len1 := length s1 in
  let* c := at_ s1 0 in
  if c =? ODD_PREFIX then
    let* ch := at_ s2 (len1 - 1) in Returns (Z.to_nat (Z.land ch 15))
  else
    let* ch := at_ s2 len1 in Returns (Z.to_nat (Z.land (Z.shiftr ch 4) 15)).

Definition Key2Location (key : bytes) : Location := EVEN_PREFIX :: key.

(** ** Nodes *)
Inductive CHILDTYPE := NONE | INNER | LEAF.
#[export] Instance CHILDTYPE_eq_dec : EqDecision CHILDTYPE.
Proof. solve_decision. Defined.

Record Child := MkChild { sublocation : Location; hash : bytes; childtype : CHILDTYPE }.
Definition Child0 : Child := MkChild [] [] NONE.
#[export] Instance Child_eq_dec : EqDecision Child.
Proof. solve_decision. Defined.

(** The children of a [protocol::Node]: one per nibble, and the leaf at 16. *)
Abbreviation Node := (list Child).

Inductive NodeFrm := MkNode {
  location_ : Location;
  children_ : list (option NodeFrm);
  info_ : Node;
  modified_ : bool;
  leaf_deleted_ : bool;
  leaf_ : option bytes }.

(** [NodeFrm::NodeFrm] *)
Definition new_node (location : Location) : NodeFrm :=
  MkNode location (replicate 16 None) (replicate 17 Child0) true false None.

Definition info_at (n : NodeFrm) (i : nat) : Child := default Child0 (info_ n !! i).
Definition set_info (i : nat) (c : Child) (n : NodeFrm) : NodeFrm :=
  MkNode (location_ n) (children_ n) (<[i := c]> (info_ n)) (modified_ n) (leaf_deleted_ n) (leaf_ n).
Definition put_child (i : nat) (c : option NodeFrm) (n : NodeFrm) : NodeFrm :=
  MkNode (location_ n) (<[i := c]> (children_ n)) (info_ n) (modified_ n) (leaf_deleted_ n) (leaf_ n).
Definition set_modified (b : bool) (n : NodeFrm) : NodeFrm :=
  MkNode (location_ n) (children_ n) (info_ n) b (leaf_deleted_ n) (leaf_ n).
Definition set_node_info (info : Node) (n : NodeFrm) : NodeFrm :=
  MkNode (location_ n) (children_ n) info (modified_ n) (leaf_deleted_ n) (leaf_ n).

Definition child_at (n : NodeFrm) (i : nat) : option NodeFrm := mjoin (children_ n !! i).

Definition set_sublocation (l : Location) (c : Child) : Child := MkChild l (hash c) (childtype c).
Definition set_childtype (t : CHILDTYPE) (c : Child) : Child := MkChild (sublocation c) (hash c) t.

(** [NodeFrm::SetValue] *)
Definition SetValue (v : bytes) (n : NodeFrm) : NodeFrm :=
  let ch16 := set_sublocation (location_ n) (set_childtype LEAF (info_at n 16)) in
  MkNode (location_ n) (children_ n) (<[16%nat := ch16]> (info_ n)) true false (Some v).

(** [NodeFrm::MarkReopensesame] *)
Definition MarkReopensesame (n : NodeFrm) : NodeFrm :=
  MkNode (location_ n) (children_ n) (<[16%nat := Child0]> (info_ n)) true true None.

(** [NodeFrm::SetChild] *)
Definition SetChild (branch : nat) (child : NodeFrm) (n : NodeFrm) : NodeFrm :=
  set_info branch (set_sublocation (location_ child) (info_at n branch))
    (set_modified true (put_child branch (Some child) n)).

(** ** The store *)

(** The operations of a write batch, applied in order. *)
Inductive write := Put (key value : bytes) | Del (key : bytes).
Abbreviation db := (gmap bytes bytes).
Definition apply_write (d : db) (w : write) : db :=
  match w with Put k v => <[k := v]> d | Del k => delete k d end.
Definition WriteBatch (batch : list write) (d : db) : db := foldl apply_write d batch.

(** Hashing and the serialization of nodes. *)
Class TrieParams := {
  HashCrypto : bytes -> bytes;
  SerializeNode : Node -> bytes;
  ParseNode : bytes -> Node }.

Section Trie.
Context `{P : TrieParams} (mdb_ : db) (prefix_ : bytes).

Definition Location2DBkey (location : Location) (leaf : bool) : bytes :=
  prefix_ ++ (if leaf then LEAF_PREFIX :: tail location else location).

Definition storage_load (location : Location) : option Node :=
  ParseNode <$> mdb_ !! Location2DBkey location false.
Definition StorageGetLeaf (location : Location) : option bytes := mdb_ !! Location2DBkey location true.
Definition StorageSaveNode (n : NodeFrm) : write := Put (Location2DBkey (location_ n) false) (SerializeNode (info_ n)).
Definition StorageSaveLeaf (n : NodeFrm) (v : bytes) : write := Put (Location2DBkey (location_ n) true) v.
Definition StorageDeleteNode (n : NodeFrm) : write := Del (Location2DBkey (location_ n) false).
Definition StorageDeleteLeaf (n : NodeFrm) : write := Del (Location2DBkey (location_ n) true).

(** [ChildMayFromDB]: the child, and the node that now keeps it; the process exits when
    a node is missing from the store. *)
Definition ChildMayFromDB (node : NodeFrm) (branch : nat) : outcome (option NodeFrm * NodeFrm) :=
  match child_at node branch with
  | Some c => Returns (Some c, node)
  | None =>
      let chd := info_at node branch in
      let frm := set_modified false (new_node (sublocation chd)) in
      match childtype chd with
      | NONE => Returns (None, node)
      | LEAF => let frm := set_info 16 chd frm in Returns (Some frm, put_child branch (Some frm) node)
      | INNER =>
          match storage_load (sublocation chd) with
          | None => Throws AssertFailed
          | Some info => let frm := set_node_info info frm in Returns (Some frm, put_child branch (Some frm) node)
          end
      end
  end.

(** ** Changing items *)

Definition leaf_node (location : Location) (data : bytes) : NodeFrm := SetValue data (new_node location).

Fixpoint SetItem (fuel : nat) (node : NodeFrm) (location : Location) (data : bytes) : outcome (bool * NodeFrm) :=
  match fuel with
  | O => Throws OutOfFuel
  | S fuel =>
      let node := set_modified true node in
      let location1 := location_ node in
      if bool_decide (location1 = location) then Returns (false, SetValue data node)
      else
      let common := CommonPrefix location1 location in
      let* branch := NextBranch common location in
      let* r := ChildMayFromDB node branch in
      let '(node2, node) := r in
      let child2 := info_at node branch in
      match node2 with
      | None =>
          let node := SetChild branch (leaf_node location data) node in
          Returns (true, set_info branch (set_childtype LEAF (info_at node branch)) node)
      | Some node2 =>
          let location2 := location_ node2 in
          let newcommon := CommonPrefix location location2 in
          if bool_decide (newcommon = location2) then
            let* r := SetItem fuel node2 location data in
            Returns (r.1, put_child branch (Some r.2) node)
          else if bool_decide (newcommon = location) then
            let* b1 := NextBranch newcommon location2 in
            let newnode := set_info b1 child2 (SetChild b1 node2 (leaf_node location data)) in
            let node := SetChild branch newnode node in
            Returns (true, set_info branch (set_childtype INNER (info_at node branch)) node)
          else
            let newnode := leaf_node location data in
            let* b1 := NextBranch newcommon location in
            let* b2 := NextBranch newcommon location2 in
            let mnode := SetChild b1 newnode (new_node newcommon) in
            let mnode := set_info b2 child2 (SetChild b2 node2 mnode) in
            Returns (true, SetChild branch mnode node)
      end
  end.

Fixpoint DeleteItem (fuel : nat) (node : NodeFrm) (location : Location) : outcome (bool * NodeFrm) :=
  match fuel with
  | O => Throws OutOfFuel
  | S fuel =>
      let location1 := location_ node in
      if (length location <? length location1)%nat then Returns (false, node)
      else if bool_decide (location = location1) then Returns (true, MarkReopensesame node)
      else
      let common := CommonPrefix location1 location in
      let* branch := NextBranch common location in
      let* r := ChildMayFromDB node branch in
      let '(node2, node) := r in
      match node2 with
      | None => Returns (false, node)
      | Some node2 =>
          let location2 := location_ node2 in
          let common2 := CommonPrefix location2 location in
          if negb (bool_decide (location2 = common2)) then Returns (false, node)
          else
          let* r := DeleteItem fuel node2 location in
          let node := put_child branch (Some r.2) node in
          Returns (r.1, set_modified (modified_ node || r.1) node)
      end
  end.

(** ** Reading *)

Fixpoint Exists (fuel : nat) (node : NodeFrm) (key : Location) : outcome (bool * NodeFrm) :=
  match fuel with
  | O => Throws OutOfFuel
  | S fuel =>
      if bool_decide (location_ node = key) then Returns (true, node)
      else
      let common := CommonPrefix (location_ node) key in
      let* branch := NextBranch common key in
      if bool_decide (childtype (info_at node branch) = NONE) then Returns (false, node)
      else
      let location2 := sublocation (info_at node branch) in
      let common2 := CommonPrefix location2 key in
      if negb (bool_decide (common2 = location2)) then Returns (false, node)
      else
      let* r := ChildMayFromDB node branch in
      let '(child, node) := r in
      match child with
      | None => Throws Trap
      | Some child =>
          let* r := Exists fuel child key in
          Returns (r.1, put_child branch (Some r.2) node)
      end
  end.

Fixpoint StorageAssociated (fuel : nat) (location : Location) : outcome (list bytes) :=
  match fuel with
  | O => Throws OutOfFuel
  | S fuel =>
      match storage_load location with
      | None => Returns []
      | Some info =>
          let leaf := if bool_decide (childtype (default Child0 (info !! 16%nat)) = LEAF)
                      then [default [] (StorageGetLeaf location)] else [] in
          let* rest :=
            (fix go (i : list nat) : outcome (list bytes) :=
               match i with
               | [] => Returns []
               | b :: i' =>
                   let chd := default Child0 (info !! b) in
                   let* here := match childtype chd with
                                | NONE => Returns []
                                | INNER => StorageAssociated fuel (sublocation chd)
                                | LEAF => Returns [default [] (StorageGetLeaf (sublocation chd))]
                                end in
                   let* there := go i' in
                   Returns (here ++ there)
               end) (seq 0 16) in
          Returns (leaf ++ rest)
      end
  end.

Fixpoint GetAllItem (fuel : nat) (node : Location) (location : Location) : outcome (list bytes) :=
  match fuel with
  | O => Throws OutOfFuel
  | S fuel =>
      match storage_load node with
      | None => Returns []
      | Some info =>
          let common := CommonPrefix node location in
          if bool_decide (common = location) then StorageAssociated fuel node
          else if bool_decide (common = node) then
            let* nextbranch := NextBranch common location in
            GetAllItem fuel (sublocation (default Child0 (info !! nextbranch))) location
          else Returns []
      end
  end.

Fixpoint getNode (fuel : nat) (node : NodeFrm) (location : Location) : outcome (Node * NodeFrm) :=
  match fuel with
  | O => Throws OutOfFuel
  | S fuel =>
      if bool_decide (location_ node = location) then Returns (info_ node, node)
      else
      let common := CommonPrefix location (location_ node) in
      let* branch := NextBranch common location in
      let* r := ChildMayFromDB node branch in
      let '(frm, node) := r in
      match frm with
      | Some frm =>
          let* r := getNode fuel frm location in
          Returns (r.1, put_child branch (Some r.2) node)
      | None => Returns ([], node)
      end
  end.

(** ** Hashing *)

(** The leaf of a node: its entry and the write. *)
Definition update_leaf (node : NodeFrm) : Node * list write :=
  if negb (leaf_deleted_ node) then
    match leaf_ node with
    | Some v => (<[16%nat := MkChild (location_ node) (HashCrypto v) LEAF]> (info_ node), [StorageSaveLeaf node v])
    | None => (info_ node, [])
    end
  else (<[16%nat := Child0]> (info_ node), [StorageDeleteLeaf node]).

(** The entries in use, from 16 and then from 0 to 15: their number, and the last. *)
Definition branches (info : Node) : list nat :=
  List.filter (fun i => negb (bool_decide (childtype (default Child0 (info !! i)) = NONE))) (16%nat :: seq 0 16).

Definition rootl : Location := [0].

(** What is left of a node once its entries are up to date: its own entry, and the write. *)
Definition close_node (node : NodeFrm) : Child * list write :=
  let bs := branches (info_ node) in
  if (length bs =? 0)%nat && negb (bool_decide (location_ node = rootl)) then (Child0, [StorageDeleteNode node])
  else if (length bs =? 1)%nat && negb (bool_decide (location_ node = rootl)) then
    (info_at node (List.last bs 0%nat), [StorageDeleteNode node])
  else (MkChild (location_ node) (HashCrypto (SerializeNode (info_ node))) INNER, [StorageSaveNode node]).

(** [update_hash]: the entry for the parent, the node and the writes. *)
Fixpoint update_hash (node : NodeFrm) : Child * NodeFrm * list write :=
  let '(info, w1) := update_leaf node in
  let '(children, info, w2) :=
    (fix go (i : nat) (l : list (option NodeFrm)) (info : Node) : list (option NodeFrm) * Node * list write :=
       match l with
       | [] => ([], info, [])
       | c :: l' =>
           let '(c', info, w) :=
             match c with
             | Some child =>
                 if modified_ child then
                   let '(childresult, child', w) := update_hash child in
                   (Some child', <[i := childresult]> info, w)
                 else (c, info, [])
             | None => (c, info, [])
             end in
           let '(l'', info, ws) := go (S i) l' info in
           (c' :: l'', info, w ++ ws)
       end) 0%nat (children_ node) info in
  let node := MkNode (location_ node) children info (modified_ node) (leaf_deleted_ node) (leaf_ node) in
  let '(result, w3) := close_node node in
  (result, set_modified false node, w1 ++ w2 ++ w3).

(** ** Memory *)

(** [Release]: the children of the nodes [depth] or more levels down are freed. *)
Fixpoint Release (node : NodeFrm) (depth : Z) : NodeFrm :=
  MkNode (location_ node)
    (map (fun c => match c with
                   | Some child => let child := Release child (depth - 1) in
                                   if depth <=? 0 then None else Some child
                   | None => None
                   end) (children_ node))
    (info_ node) (modified_ node) (leaf_deleted_ node) (leaf_ node).

(** [KVTrie::Load] with [depth] = [n] - 1. *)
Fixpoint Load (n : nat) (node : NodeFrm) : outcome NodeFrm :=
  match n with
  | O => Returns node
  | S n =>
      (fix go (bs : list nat) (node : NodeFrm) : outcome NodeFrm :=
         match bs with
         | [] => Returns node
         | i :: bs' =>
             let* r := ChildMayFromDB node i in
             let '(child, node) := r in
             match child with
             | Some child => let* child := Load n child in go bs' (put_child i (Some child) node)
             | None => go bs' node
             end
         end) (seq 0 16) node
  end.
End Trie.

(** ** [KVTrie] *)
Record KVTrie := MkTrie {
  mdb_ : db; prefix_ : bytes; batch_ : list write; root_ : NodeFrm; root_hash_ : bytes }.

Definition set_root (n : NodeFrm) (t : KVTrie) : KVTrie :=
  MkTrie (mdb_ t) (prefix_ t) (batch_ t) n (root_hash_ t).

Section KVTrie.
Context `{P : TrieParams}.

(** The levels a key of this length can have, and one more: enough fuel for every descent. *)
Definition depth_of (location : Location) : nat := 2 * length location + 2.

(** [KVTrie::Init] *)
Definition Init (d : db) (batch : list write) (prefix : bytes) (depth : Z) : outcome KVTrie :=
  let root := new_node rootl in
  let* root := match storage_load d prefix rootl with
               | Some info => Load d prefix (Z.to_nat (depth + 1)) (set_node_info info root)
               | None => Returns root
               end in
  Returns (MkTrie d prefix batch root []).

Definition Set_ (key value : bytes) (t : KVTrie) : outcome (bool * KVTrie) :=
  let location := Key2Location key in
  let* r := SetItem (mdb_ t) (prefix_ t) (depth_of location) (root_ t) location value in
  Returns (r.1, set_root r.2 t).

Definition Delete (key : bytes) (t : KVTrie) : outcome (bool * KVTrie) :=
  let location := Key2Location key in
  let* r := DeleteItem (mdb_ t) (prefix_ t) (depth_of location) (root_ t) location in
  Returns (r.1, set_root r.2 t).

Definition Get (key : bytes) (t : KVTrie) : outcome (option bytes * KVTrie) :=
  let location := Key2Location key in
  let* r := Exists (mdb_ t) (prefix_ t) (depth_of location) (root_ t) location in
  let t := set_root r.2 t in
  if negb r.1 then Returns (None, t)
  else Returns (StorageGetLeaf (mdb_ t) (prefix_ t) location, t).

(** The fuel bounds the depth of the stored trie. *)
Definition GetAll (fuel : nat) (key : bytes) (t : KVTrie) : outcome (list bytes) :=
  GetAllItem (mdb_ t) (prefix_ t) fuel (Key2Location []) (Key2Location key).

Definition GetNode (location : Location) (t : KVTrie) : outcome (Node * KVTrie) :=
  let lc := if bool_decide (location = []) then [0] else location in
  let* r := getNode (mdb_ t) (prefix_ t) (depth_of lc) (root_ t) lc in
  Returns (r.1, set_root r.2 t).

Definition UpdateHash (t : KVTrie) : KVTrie :=
  let '(child, root, ws) := update_hash (prefix_ t) (root_ t) in
  MkTrie (mdb_ t) (prefix_ t) (batch_ t ++ ws) root (hash child).

Definition GetRootHash (t : KVTrie) : bytes := root_hash_ t.

Definition AddToDB (t : KVTrie) : KVTrie :=
  MkTrie (WriteBatch (batch_ t) (mdb_ t)) (prefix_ t) [] (root_ t) (root_hash_ t).

Definition FreeMemory (depth : Z) (t : KVTrie) : KVTrie := set_root (Release (root_ t) depth) t.
End KVTrie.
