(* ===== verification/TrieLoc.v ===== *)
(** * Locations as paths of nibbles

    [CommonPrefix] and [NextBranch] work on packed bytes; on the locations of paths they
    compute the longest common prefix and the next nibble. *)
From S2P Require Import Prelude Trie.

Fixpoint pack (p : list Z) : bytes :=
  match p with
  | a :: b :: p' => (16 * a + b) :: pack p'
  | [a] => [16 * a]
  | [] => []
  end.
Definition loc (p : list Z) : Location := (if Nat.even (length p) then EVEN_PREFIX else ODD_PREFIX) :: pack p.
Definition nib (x : Z) : Prop := 0 <= x < 16.

(** The nibbles of a key. *)
Fixpoint nibbles (k : bytes) : list Z := match k with [] => [] | c :: k' => c / 16 :: c mod 16 :: nibbles k' end.
Definition is_bytes (k : bytes) : Prop := Forall (fun c => 0 <= c < 256) k.

(** The longest common prefix. *)
Fixpoint lcp (p q : list Z) : list Z :=
  match p, q with
  | x :: p', y :: q' => if bool_decide (x = y) then x :: lcp p' q' else []
  | _, _ => []
  end.

Lemma pair_ind (Q : list Z -> Prop) : Q [] -> (forall a, Q [a]) -> (forall a b p, Q p -> Q (a :: b :: p)) -> forall p, Q p.
Proof.
  intros H0 H1 H2. refine (fix IH p := _). destruct p as [|a [|b p]]; [exact H0|apply H1|]. apply H2, IH.
Qed.

Lemma high_half a b : nib a -> nib b -> Z.land (16 * a + b) 240 = 16 * a.
Proof.
  intros Ha Hb. unfold nib in *.
  assert (E : (Z.land (16 * a + b) 240 =? (16 * a + b) / 16 * 16) = true).
  { apply (forall_range 256 (fun z => Z.land z 240 =? z / 16 * 16)); [vm_compute; reflexivity|lia]. }
  apply Z.eqb_eq in E. rewrite E. mod_lia.
Qed.

Lemma low_half a b : nib a -> nib b -> Z.land (16 * a + b) 15 = b.
Proof.
  intros Ha Hb. unfold nib in *. change 15 with (Z.ones 4). rewrite Z.land_ones by lia. change (2 ^ 4) with 16. mod_lia.
Qed.

Lemma shifted_half a b : nib a -> nib b -> Z.land (Z.shiftr (16 * a + b) 4) 15 = a.
Proof.
  intros Ha Hb. unfold nib in *. rewrite Z.shiftr_div_pow2 by lia. change 15 with (Z.ones 4).
  rewrite Z.land_ones by lia. change (2 ^ 4) with 16. mod_lia.
Qed.

Lemma pack_nil p : pack p = [] <-> p = [].
Proof. by destruct p as [|a [|b p]]. Qed.

Lemma is_odd_loc p : is_odd (loc p) = negb (Nat.even (length p)).
Proof. unfold is_odd, loc. by destruct (Nat.even (length p)). Qed.

(** ** [CommonPrefix] *)

Definition oddl (p : list Z) : bool := negb (Nat.even (length p)).

Lemma common_loop_spec p : forall q, Forall nib p -> Forall nib q ->
  common_loop (oddl p) (oddl q) (pack p) (pack q)
  = (pack (lcp p q), if oddl (lcp p q) then ODD_PREFIX else EVEN_PREFIX).
Proof.
  assert (nib 0) by (unfold nib; lia).
  assert (H0 : forall a, nib a -> Z.land (16 * a) 240 = 16 * a).
  { intros a Ha. rewrite <- (Z.add_0_r (16 * a)) at 1. by rewrite high_half. }
  induction p as [|a|a b p IH] using pair_ind; intros q Hp Hq; [done| |].
  - apply Forall_inv in Hp. destruct q as [|a' [|b' q]]; [done| |].
    + apply Forall_inv in Hq. cbn [pack lcp common_loop]. rewrite (H0 a Hp), (H0 a' Hq).
      destruct (bool_decide_reflect (a = a')) as [<-|Hne];
        [rewrite Z.eqb_refl; cbn [negb]; by rewrite (bool_decide_true (@nil Z = [])) by done|].
      assert ((16 * a =? 16 * a') = false) as -> by lia. done.
    + inversion_clear Hq as [|? ? Ha' Hq']. inversion_clear Hq' as [|? ? Hb' Hq''].
      cbn [pack lcp common_loop]. rewrite H0, high_half by done.
      destruct (bool_decide_reflect (a = a')) as [<-|Hne];
        [rewrite Z.eqb_refl; cbn [negb]; by rewrite (bool_decide_true (@nil Z = [])) by done|].
      assert ((16 * a =? 16 * a') = false) as -> by lia. done.
  - inversion_clear Hp as [|? ? Ha Hp']. inversion_clear Hp' as [|? ? Hb Hp''].
    destruct q as [|a' [|b' q]]; [done| |].
    + apply Forall_inv in Hq. cbn [pack lcp common_loop]. rewrite H0, high_half by done.
      destruct (bool_decide_reflect (a = a')) as [<-|Hne].
      * rewrite Z.eqb_refl. cbn [negb]. destruct (bool_decide (pack p = []) && _); [done|].
        rewrite bool_decide_true by done. done.
      * assert ((16 * a =? 16 * a') = false) as -> by lia. done.
    + inversion_clear Hq as [|? ? Ha' Hq']. inversion_clear Hq' as [|? ? Hb' Hq''].
      cbn [pack lcp common_loop]. rewrite !high_half, !low_half by done.
      destruct (bool_decide_reflect (a = a')) as [<-|Hne].
      2:{ assert ((16 * a =? 16 * a') = false) as -> by lia. done. }
      rewrite Z.eqb_refl. cbn [negb].
      assert (E : forall c d r, oddl (c :: d :: r) = oddl r) by done. rewrite !E.
      assert (Hn : forall r, bool_decide (pack r = []) && oddl r = false).
      { intros r. destruct (bool_decide_reflect (pack r = [])) as [->%pack_nil|]; done. }
      rewrite !Hn. destruct (bool_decide_reflect (b = b')) as [<-|Hne].
      * rewrite Z.eqb_refl. cbn [negb]. rewrite IH by done. cbn [pack]. by rewrite E.
      * assert ((b =? b') = false) as -> by lia. done.
Qed.

Lemma CommonPrefix_loc p q : Forall nib p -> Forall nib q -> CommonPrefix (loc p) (loc q) = loc (lcp p q).
Proof.
  intros Hp Hq. unfold CommonPrefix. rewrite !is_odd_loc. change (negb (Nat.even (length p))) with (oddl p).
  change (negb (Nat.even (length q))) with (oddl q). cbn [tail loc].
  rewrite common_loop_spec by done. unfold loc, oddl. by destruct (Nat.even (length (lcp p q))).
Qed.

(** ** [NextBranch] *)

Lemma pack_lookup p : forall i, Forall nib p ->
  pack p !! i = match p !! (2 * i)%nat with
                | Some a => Some (16 * a + default 0 (p !! (2 * i + 1)%nat))
                | None => None
                end.
Proof.
  induction p as [|a|a b p IH] using pair_ind; intros [|i] Hp; cbn [pack]; try done.
  - cbn. f_equal. lia.
  - cbn [lookup list_lookup]. inversion_clear Hp as [|? ? _ Hp']. inversion_clear Hp' as [|? ? _ Hp''].
    fold (lookup (M := list Z) i (pack p)). rewrite IH by done. replace (2 * S i)%nat with (S (S (2 * i))) by lia.
    by replace (2 * S i + 1)%nat with (S (S (2 * i + 1))) by lia.
Qed.

Lemma length_pack p : length (pack p) = ((length p + 1) / 2)%nat.
Proof.
  induction p as [|a|a b p IH] using pair_ind; [done|done|]. cbn [pack length]. rewrite IH.
  replace (S (S (length p)) + 1)%nat with (length p + 1 + 1 * 2)%nat by lia. rewrite Nat.div_add by lia. lia.
Qed.

Lemma NextBranch_loc p q x : Forall nib q -> q !! length p = Some x -> NextBranch (loc p) (loc q) = Returns (Z.to_nat x).
Proof.
  intros Hq Hx. assert (Hn : nib x) by (rewrite Forall_lookup in Hq; by eapply Hq).
  unfold NextBranch. set (lq := loc q). unfold at_, loc at 1. cbn [lookup list_lookup obind]. unfold loc at 1 2. cbn [length].
  rewrite length_pack. assert (Hlq : forall i, lq !! S i = pack q !! i) by done.
  destruct (Nat.even (length p)) eqn:Ev.
  - change (EVEN_PREFIX =? ODD_PREFIX) with false. cbv iota. apply Nat.even_spec in Ev as [n Hlen]. rewrite Hlen in *.
    replace ((2 * n + 1) / 2)%nat with n by (rewrite Nat.mul_comm, Nat.div_add_l by lia; cbn; lia).
    rewrite Hlq, pack_lookup, Hx by done. cbn [obind].
    rewrite shifted_half; [done|done|]. destruct (q !! (2 * n + 1)%nat) eqn:E; cbn; [|unfold nib; lia].
    rewrite Forall_lookup in Hq. by eapply Hq.
  - change (ODD_PREFIX =? ODD_PREFIX) with true. cbv iota. assert (exists n, length p = 2 * n + 1)%nat as [n Hlen].
    { destruct (Nat.Even_or_Odd (length p)) as [H|[n H]]; [apply Nat.even_spec in H; congruence|by exists n]. }
    rewrite Hlen in *. replace ((2 * n + 1 + 1) / 2)%nat with (S n).
    2:{ replace (2 * n + 1 + 1)%nat with (S n * 2)%nat by lia. by rewrite Nat.div_mul. }
    replace (S (S n) - 1)%nat with (S n) by lia. rewrite Hlq, pack_lookup by done.
    destruct (q !! (2 * n)%nat) as [a|] eqn:Ea.
    + cbn [obind]. rewrite Hx. cbn [from_option id]. rewrite low_half; [done| |done]. rewrite Forall_lookup in Hq. by eapply Hq.
    + apply lookup_ge_None in Ea. apply lookup_lt_Some in Hx. lia.
Qed.

(** ** Paths *)

Lemma loc_inj p q : Forall nib p -> Forall nib q -> loc p = loc q -> p = q.
Proof.
  intros Hp Hq H. injection H as Hpar Hpack. revert q Hp Hq Hpar Hpack.
  induction p as [|a|a b p IH] using pair_ind; intros q Hp Hq Hpar Hpack.
  - symmetry in Hpack. by apply pack_nil in Hpack as ->.
  - destruct q as [|a' [|b' q]]; [done| |].
    + injection Hpack as Ha. f_equal. lia.
    + injection Hpack as _ Hp0. symmetry in Hp0. by apply pack_nil in Hp0 as ->.
  - destruct q as [|a' [|b' q]]; try done.
    + injection Hpack as _ Hp0. by apply pack_nil in Hp0 as ->.
    + inversion_clear Hp as [|? ? Ha Hp']. inversion_clear Hp' as [|? ? Hb Hp''].
      inversion_clear Hq as [|? ? Ha' Hq']. inversion_clear Hq' as [|? ? Hb' Hq''].
      injection Hpack as Hab Hpack. unfold nib in *. assert (a = a' /\ b = b') as [-> ->] by lia.
      by rewrite (IH q).
Qed.

Lemma loc_nibbles k : is_bytes k -> loc (nibbles k) = Key2Location k /\ Forall nib (nibbles k) /\ Nat.Even (length (nibbles k)).
Proof.
  intros Hk. assert (H : pack (nibbles k) = k /\ Forall nib (nibbles k) /\ Nat.Even (length (nibbles k))).
  { induction Hk as [|c k Hc _ (IH1 & IH2 & n & IH3)]; [by split_and!; [| |exists 0%nat]|]. cbn [nibbles pack length]. split_and!.
    - rewrite IH1. f_equal. mod_lia.
    - constructor; [unfold nib; mod_lia|]. constructor; [unfold nib; mod_lia|done].
    - exists (S n). lia. }
  destruct H as (H1 & H2 & H3). split_and!; [|done|done]. unfold loc. rewrite H1.
  apply Nat.even_spec in H3. by rewrite H3.
Qed.

Lemma nibbles_inj k k' : is_bytes k -> is_bytes k' -> nibbles k = nibbles k' -> k = k'.
Proof.
  intros Hk Hk' H. destruct (loc_nibbles k Hk) as [E _], (loc_nibbles k' Hk') as [E' _].
  rewrite H, E' in E. by injection E.
Qed.

(** ** The longest common prefix *)

Lemma lcp_prefix_l p q : lcp p q `prefix_of` p.
Proof.
  revert q. induction p as [|x p IH]; intros [|y q]; cbn; try apply prefix_nil.
  case_bool_decide; [by apply prefix_cons|apply prefix_nil].
Qed.
Lemma lcp_comm p q : lcp p q = lcp q p.
Proof.
  revert q. induction p as [|x p IH]; intros [|y q]; try done. cbn.
  destruct (bool_decide_reflect (x = y)) as [->|]; [by rewrite bool_decide_true, IH|by rewrite bool_decide_false by congruence].
Qed.
Lemma lcp_prefix_r p q : lcp p q `prefix_of` q.
Proof. rewrite lcp_comm. apply lcp_prefix_l. Qed.

Lemma lcp_prefix p q : p `prefix_of` q -> lcp p q = p.
Proof.
  intros [r ->]. induction p as [|x p IH]; [done|]. cbn. by rewrite bool_decide_true, IH.
Qed.

(** Where neither path is a prefix of the other they leave it by different nibbles. *)
Lemma lcp_diverge p q : lcp p q <> p -> lcp p q <> q ->
  exists x y, p !! length (lcp p q) = Some x /\ q !! length (lcp p q) = Some y /\ x <> y.
Proof.
  revert q. induction p as [|x p IH]; intros [|y q] H1 H2; try done. cbn in *.
  destruct (bool_decide_reflect (x = y)) as [<-|Hne]; [|by exists x, y].
  apply IH; congruence.
Qed.

Lemma prefix_next (p q : list Z) : p `prefix_of` q -> p <> q -> exists x, q !! length p = Some x /\ p ++ [x] `prefix_of` q.
Proof.
  intros [r ->] Hne. destruct r as [|x r]; [by rewrite app_nil_r in Hne|]. exists x.
  split; [by rewrite lookup_app_r, Nat.sub_diag by lia|]. exists r. by rewrite <- app_assoc.
Qed.

Lemma prefix_snoc_lookup (p q : list Z) x : p ++ [x] `prefix_of` q <-> p `prefix_of` q /\ q !! length p = Some x.
Proof.
  split.
  - intros [r ->]. split; [exists ([x] ++ r); by rewrite <- app_assoc|].
    rewrite <- app_assoc, lookup_app_r, Nat.sub_diag by lia. done.
  - intros [[r ->] H]. rewrite lookup_app_r, Nat.sub_diag in H by lia. destruct r as [|y r]; [done|].
    injection H as ->. exists r. by rewrite <- app_assoc.
Qed.

Lemma prefix_le (p q r : list Z) : p `prefix_of` r -> q `prefix_of` r -> (length p <= length q)%nat -> p `prefix_of` q.
Proof.
  intros Hp Hq Hle. destruct (prefix_weak_total p q r Hp Hq) as [H|H]; [done|].
  apply prefix_length_eq in H as ->; [done|]. by apply prefix_length in H.
Qed.
