(* ===== verification/TrieInv.v ===== *)
(** * What a trie represents

    The contents of a trie are a finite map from paths to values. [Stored] relates a map
    to the entry that stands for it in a store; it is canonical: the map determines
    the entry. [Rep] relates a node in memory, over the store it reads ([R]) and the store
    after the pending writes ([W]), to the map below it. *)
From S2P Require Import Prelude Trie TrieLoc.

Abbreviation path := (list Z).
Abbreviation contents := (gmap path bytes).

(** ** Parts of a map *)
Definition sub (q : path) (m : contents) : contents := filter (fun kv => q `prefix_of` kv.1) m.

Lemma lookup_sub q m k : sub q m !! k = if decide (q `prefix_of` k) then m !! k else None.
Proof.
  unfold sub. case_decide as Hq.
  - destruct (m !! k) as [v|] eqn:E.
    + apply map_lookup_filter_Some. by split.
    + apply map_lookup_filter_None. by left.
  - apply map_lookup_filter_None. right. by intros v _.
Qed.

Definition under (q : path) (m : contents) : Prop := forall k v, m !! k = Some v -> q `prefix_of` k.
(** Keys are byte strings: paths of nibbles of even length. *)
Definition key (k : path) : Prop := Forall nib k /\ Nat.Even (length k).
Definition keys_ok (m : contents) : Prop := forall k v, m !! k = Some v -> key k.

Lemma sub_under q m : under q (sub q m).
Proof. intros k v. rewrite lookup_sub. by case_decide. Qed.
Lemma sub_keys q m : keys_ok m -> keys_ok (sub q m).
Proof. intros H k v. rewrite lookup_sub. case_decide; [apply H|done]. Qed.
Lemma sub_id q m : under q m -> sub q m = m.
Proof.
  intros H. apply map_eq. intros k. rewrite lookup_sub. case_decide as Hq; [done|].
  destruct (m !! k) as [v|] eqn:E; [|done]. by apply H in E.
Qed.
Lemma sub_sub q q' m : q `prefix_of` q' -> sub q' (sub q m) = sub q' m.
Proof.
  intros Hq. apply map_eq. intros k. rewrite !lookup_sub. repeat case_decide; try done.
  exfalso. apply H0. by transitivity q'.
Qed.
Lemma under_sub q q' m : under q m -> under q (sub q' m).
Proof. intros H k v. rewrite lookup_sub. case_decide; [apply H|done]. Qed.
Lemma under_weaken q q' m : q `prefix_of` q' -> under q' m -> under q m.
Proof. intros Hq H k v E. transitivity q'; [done|]. by eapply H. Qed.

(** The nibble as a branch of a node. *)
Abbreviation br := Z.of_nat.
Definition branch_of (p : path) (m : contents) (i : nat) : contents := sub (p ++ [br i]) m.

(** Two keys part at [p]. *)
Definition splits (p : path) (m : contents) : Prop :=
  exists k1 k2 v1 v2, m !! k1 = Some v1 /\ m !! k2 = Some v2 /\ p `prefix_of` k1 /\ p `prefix_of` k2
    /\ k1 !! length p <> k2 !! length p.

Lemma splits_under p q m : splits p m -> under q m -> q `prefix_of` p.
Proof.
  intros (k1 & k2 & v1 & v2 & H1 & H2 & P1 & P2 & Hne) Hq.
  destruct (decide (length q <= length p)%nat) as [Hle|Hgt].
  - apply (prefix_le q p k1); [by eapply Hq|exact P1|done].
  - exfalso. apply Hne. apply Hq in H1 as [r1 ->], H2 as [r2 ->]. rewrite !lookup_app_l by lia. done.
Qed.

Lemma splits_unique p q m : splits p m -> splits q m -> under p m -> under q m -> p = q.
Proof.
  intros Hp Hq Up Uq. pose proof (splits_under p q m Hp Uq) as H1. pose proof (splits_under q p m Hq Up) as H2.
  apply prefix_length_eq; [done|]. by apply prefix_length.
Qed.

(** ** Entries of stored nodes *)
Section Stored.
Context `{P : TrieParams} (pfx : bytes).

Definition nkey (p : path) : bytes := Location2DBkey pfx (loc p) false.
Definition lkey (p : path) : bytes := Location2DBkey pfx (loc p) true.

Lemma nkey_inj p q : Forall nib p -> Forall nib q -> nkey p = nkey q -> p = q.
Proof. intros Hp Hq H. apply app_inv_head in H. by apply loc_inj. Qed.
Lemma lkey_inj p q : key p -> key q -> lkey p = lkey q -> p = q.
Proof.
  intros [Hp Ep] [Hq Eq] H. apply app_inv_head in H. injection H as H. apply loc_inj; [done..|]. unfold loc.
  apply Nat.even_spec in Ep as ->, Eq as ->. by f_equal.
Qed.
Lemma nkey_lkey p q : nkey p <> lkey q.
Proof.
  intros H. apply app_inv_head in H. unfold loc in H. injection H as H _. destruct (Nat.even (length p)); done.
Qed.

(** The entry of a leaf. *)
Definition leaf_child (p : path) (o : option bytes) : Child :=
  match o with Some v => MkChild (loc p) (HashCrypto v) LEAF | None => Child0 end.

Inductive Stored (D : db) : contents -> Child -> Prop :=
| St_empty : Stored D ∅ Child0
| St_leaf k v : D !! lkey k = Some v -> Stored D {[ k := v ]} (MkChild (loc k) (HashCrypto v) LEAF)
| St_inner p m info : Forall nib p -> length info = 17%nat -> under p m ->
    D !! nkey p = Some (SerializeNode info) -> (2 <= length (branches info))%nat ->
    (forall i, (i < 16)%nat -> Stored D (branch_of p m i) (default Child0 (info !! i))) ->
    info !! 16%nat = Some (leaf_child p (m !! p)) ->
    (forall v, m !! p = Some v -> D !! lkey p = Some v) ->
    Stored D m (MkChild (loc p) (HashCrypto (SerializeNode info)) INNER).

(** The entry [i] of a node for [m] at [p], and the part of [m] it stands for. *)
Definition part (p : path) (m : contents) (i : nat) : contents :=
  if decide (i = 16)%nat then (match m !! p with Some v => {[ p := v ]} | None => ∅ end) else branch_of p m i.

Lemma part_key p m i k v : (i <= 16)%nat -> part p m i !! k = Some v ->
  m !! k = Some v /\ p `prefix_of` k /\ k !! length p = (if decide (i = 16)%nat then None else Some (br i)).
Proof.
  intros Hi. unfold part, branch_of. destruct (decide (i = 16)%nat).
  - destruct (m !! p) as [w|] eqn:E; [|done]. intros [<- <-]%lookup_singleton_Some. split_and!; [done|done|].
    apply lookup_ge_None. lia.
  - rewrite lookup_sub. case_decide as Hp; [|done]. intros H. apply prefix_snoc_lookup in Hp as [? ?]. done.
Qed.

Lemma part_cover p m k v : under p m -> keys_ok m -> m !! k = Some v ->
  exists i, (i <= 16)%nat /\ part p m i !! k = Some v.
Proof.
  intros Hu Hk H. pose proof (Hu k v H) as Hp. destruct (decide (p = k)) as [<-|Hne].
  - exists 16%nat. split; [lia|]. unfold part. rewrite decide_True by done. rewrite H. apply lookup_singleton_eq.
  - destruct (prefix_next p k Hp Hne) as (x & Hx & Hpx). destruct (Hk k v H) as [Hn _].
    assert (nib x) by (rewrite Forall_lookup in Hn; by eapply Hn). unfold nib in *.
    exists (Z.to_nat x). split; [lia|]. unfold part. rewrite decide_False by lia. unfold branch_of.
    rewrite lookup_sub, Z2Nat.id by lia. by rewrite decide_True.
Qed.

(** The entries in use stand for the parts that are not empty. *)
Definition entry_ok (c : Child) (m : contents) : Prop := childtype c = NONE <-> m = ∅.

Lemma branches_spec info i : i ∈ branches info <-> (i <= 16)%nat /\ childtype (default Child0 (info !! i)) <> NONE.
Proof.
  unfold branches. rewrite list_elem_of_In, filter_In.
  assert (Hin : In i (16%nat :: seq 0 16) <-> (i <= 16)%nat) by (cbn [In]; rewrite in_seq; lia).
  rewrite Hin. destruct (bool_decide_reflect (childtype (default Child0 (info !! i)) = NONE)); naive_solver.
Qed.

Lemma branches_NoDup info : NoDup (branches info).
Proof.
  unfold branches. apply NoDup_ListNoDup, List.NoDup_filter, NoDup_ListNoDup. constructor.
  - rewrite list_elem_of_In, in_seq. lia.
  - apply NoDup_seq.
Qed.

Lemma two_parts_split p m info : (2 <= length (branches info))%nat ->
  (forall i, (i <= 16)%nat -> entry_ok (default Child0 (info !! i)) (part p m i)) -> splits p m.
Proof.
  intros Hlen Hok. pose proof (branches_NoDup info) as Hnd.
  destruct (branches info) as [|a [|b l]] eqn:E; [cbn in Hlen; lia..|].
  assert (Hab : forall x, x ∈ a :: b :: l -> (x <= 16)%nat /\ exists k v, part p m x !! k = Some v).
  { intros x Hx. rewrite <- E in Hx. apply branches_spec in Hx as [Hx Ht]. split; [done|].
    destruct (map_choose (part p m x)) as (k & v & Hk); [|by exists k, v]. intros H0. apply Ht. by apply Hok. }
  destruct (Hab a ltac:(left)) as (Ha & k1 & v1 & H1), (Hab b ltac:(right; left)) as (Hb & k2 & v2 & H2).
  apply part_key in H1 as (H1 & P1 & L1), H2 as (H2 & P2 & L2); [|done..].
  exists k1, k2, v1, v2. split_and!; try done. rewrite L1, L2.
  assert (a <> b) by (intros ->; inversion_clear Hnd as [|? ? Hn _]; apply Hn; left).
  repeat case_decide; try done; try lia. intros [= Heq]. lia.
Qed.

Lemma leaf_child_ok p (o : option bytes) :
  entry_ok (leaf_child p o) (match o with Some v => {[ p := v ]} | None => ∅ end).
Proof. destruct o as [v|]; cbn; split; try done. Qed.

Lemma splits_nonempty p m : splits p m -> m <> ∅.
Proof. intros (k1 & _ & v1 & _ & H & _) ->. by rewrite lookup_empty in H. Qed.

Lemma inner_splits p m info : (2 <= length (branches info))%nat ->
  (forall i, (i < 16)%nat -> entry_ok (default Child0 (info !! i)) (branch_of p m i)) ->
  info !! 16%nat = Some (leaf_child p (m !! p)) -> splits p m.
Proof.
  intros Hlen Hi H16. apply (two_parts_split p m info Hlen). intros i Hle. unfold part. case_decide as E.
  - subst i. rewrite H16. apply leaf_child_ok.
  - apply Hi. lia.
Qed.

Lemma Stored_entry D m c : Stored D m c -> entry_ok c m.
Proof.
  induction 1 as [|k v _|p m info Hn Hl Hu _ Hlen _ IH H16 _].
  - done.
  - split; [done|]. by intros ?%map_non_empty_singleton.
  - split; [done|]. intros ->. exfalso. by apply (splits_nonempty p ∅); [apply (inner_splits p ∅ info)|].
Qed.

Lemma Stored_splits D p m info : (2 <= length (branches info))%nat ->
  (forall i, (i < 16)%nat -> Stored D (branch_of p m i) (default Child0 (info !! i))) ->
  info !! 16%nat = Some (leaf_child p (m !! p)) -> splits p m.
Proof.
  intros Hlen Hi H16. apply (inner_splits p m info Hlen); [|done]. intros i Hl. by eapply Stored_entry, Hi.
Qed.

Lemma splits_singleton p k v : ~ splits p {[ k := v ]}.
Proof.
  intros (k1 & k2 & v1 & v2 & [<- _]%lookup_singleton_Some & [<- _]%lookup_singleton_Some & _ & _ & H). done.
Qed.

Lemma Stored_inv D m c : Stored D m c ->
  (m = ∅ /\ c = Child0)
  \/ (exists k v, m = {[ k := v ]} /\ c = MkChild (loc k) (HashCrypto v) LEAF /\ D !! lkey k = Some v)
  \/ (exists p info, c = MkChild (loc p) (HashCrypto (SerializeNode info)) INNER /\ Forall nib p /\ length info = 17%nat
      /\ under p m /\ D !! nkey p = Some (SerializeNode info) /\ splits p m
      /\ (forall i, (i < 16)%nat -> Stored D (branch_of p m i) (default Child0 (info !! i)))
      /\ info !! 16%nat = Some (leaf_child p (m !! p)) /\ (forall v, m !! p = Some v -> D !! lkey p = Some v)).
Proof.
  intros [|k v|p m' info]; [by left|right; left; by exists k, v|right; right; exists p, info].
  split_and!; try done. by eapply Stored_splits.
Qed.

(** ** Regions of a store *)

(** The records of the paths that extend [q]. *)
Definition region (q : path) (x : bytes) : Prop :=
  exists p, q `prefix_of` p /\ ((Forall nib p /\ x = nkey p) \/ (key p /\ x = lkey p)).
Definition agree (q : path) (D D' : db) : Prop := forall x, region q x -> D' !! x = D !! x.

Lemma region_weaken q q' x : q `prefix_of` q' -> region q' x -> region q x.
Proof. intros Hq (p & Hp & H). exists p. split; [by transitivity q'|done]. Qed.
Lemma agree_weaken q q' D D' : q `prefix_of` q' -> agree q D D' -> agree q' D D'.
Proof. intros Hq H x Hx. apply H. by eapply region_weaken. Qed.

Lemma Stored_frame q D D' m c : Stored D m c -> under q m -> keys_ok m -> agree q D D' -> Stored D' m c.
Proof.
  intros H. induction H as [|k v Hk|p m info Hn Hl Hu Hd Hlen Hi IH H16 Hlf]; intros Hq Hok Hag.
  - constructor.
  - constructor. rewrite Hag; [done|]. exists k. split; [eapply Hq, lookup_singleton_eq|].
    right. split; [eapply Hok, lookup_singleton_eq|done].
  - assert (Hqp : q `prefix_of` p) by (eapply splits_under; [by eapply Stored_splits|done]).
    econstructor; try done.
    + rewrite Hag; [done|]. exists p. split; [done|]. by left.
    + intros i Hlt. apply IH; [done|by apply under_sub|by apply sub_keys|done].
    + intros v Hv. rewrite Hag; [by apply Hlf|]. exists p. split; [done|]. right. split; [by eapply Hok|done].
Qed.

(** The leaves under [q] in a store are those of the map. *)
Definition Leaves (D : db) (q : path) (m : contents) : Prop :=
  forall k, key k -> q `prefix_of` k -> D !! lkey k = m !! k.

Lemma Leaves_frame q D D' m : Leaves D q m -> agree q D D' -> Leaves D' q m.
Proof. intros H Hag k Hk Hq. rewrite Hag; [by apply H|]. exists k. split; [done|]. by right. Qed.
End Stored.

(** The map determines the entry, whatever the store and the prefix of its keys. *)
Lemma Stored_det `{P : TrieParams} (x1 x2 : bytes) (D1 D2 : db) m c1 c2 : Stored x1 D1 m c1 -> Stored x2 D2 m c2 -> c1 = c2.
Proof.
  intros H. revert c2. induction H as [|k v _|p m info Hn Hl Hu _ Hlen Hi IH H16 _]; intros c2
    [[E ->]|[(k2 & v2 & E & -> & _)|(p2 & info2 & -> & Hn2 & Hl2 & Hu2 & _ & Hs2 & Hi2 & H162 & _)]]%Stored_inv.
  - done.
  - symmetry in E. by apply map_non_empty_singleton in E.
  - by apply splits_nonempty in Hs2.
  - by apply map_non_empty_singleton in E.
  - apply map_singleton_inj in E as [-> ->]. done.
  - by apply splits_singleton in Hs2.
  - by apply (Stored_splits x1 D1 p m info), splits_nonempty in Hlen.
  - subst. by apply (Stored_splits x1 D1 p _ info), splits_singleton in Hlen.
  - pose proof (Stored_splits x1 D1 p m info Hlen Hi H16) as Hs.
    assert (p = p2) as <- by by eapply splits_unique. do 3 f_equal.
    apply (list_eq_same_length _ _ 17%nat); [done|done|]. intros i x y Hlt Hx Hy.
    destruct (decide (i = 16)%nat) as [->|]; [congruence|].
    specialize (IH i ltac:(lia) _ (Hi2 i ltac:(lia))). by rewrite Hx, Hy in IH.
Qed.
