(* ===== verification/TrieRep.v ===== *)
(** * Nodes in memory

    The representation invariant of [NodeFrm] and how loading a child and replacing a child
    keep it. *)
From S2P Require Import Prelude Trie TrieLoc TrieInv.

Section Rep.
Context `{P : TrieParams} (pfx : bytes).
Implicit Types (n c : NodeFrm) (p q : path) (m : contents) (R W D : db).

Definition shape n p m : Prop :=
  location_ n = loc p /\ Forall nib p /\ length (children_ n) = 16%nat /\ length (info_ n) = 17%nat
  /\ under p m /\ keys_ok m.

(** The leaf entry is up to date, and the leaf is in the store. *)
Definition leaf_clean W n p m : Prop :=
  info_at n 16 = leaf_child p (m !! p) /\ (Nat.Even (length p) -> W !! lkey pfx p = m !! p).

Definition leaf_ok W n p m : Prop :=
  match leaf_deleted_ n, leaf_ n with
  | true, Some _ => False
  | true, None => m !! p = None /\ key p
  | false, Some v => m !! p = Some v
  | false, None => leaf_clean W n p m
  end /\ (modified_ n = false -> leaf_clean W n p m).

(** Branch [i] without a child in memory: the stores hold it. *)
Definition unloaded R W n p m i : Prop :=
  Stored pfx R (branch_of p m i) (info_at n i) /\ Stored pfx W (branch_of p m i) (info_at n i)
  /\ Leaves pfx W (p ++ [br i]) (branch_of p m i).

(** Branch [i] with a child at [q]. *)
Definition loaded W n p m i c q : Prop :=
  p ++ [br i] `prefix_of` q
  /\ (forall k, key k -> p ++ [br i] `prefix_of` k -> ~ q `prefix_of` k -> W !! lkey pfx k = None)
  /\ (modified_ c = false -> Stored pfx W (branch_of p m i) (info_at n i))
  /\ (modified_ n = false -> modified_ c = false).

Inductive Rep R W : NodeFrm -> path -> contents -> Prop :=
| Rep_node n p m (qs : nat -> path) :
    shape n p m -> leaf_ok W n p m ->
    (forall i, children_ n !! i = Some None -> unloaded R W n p m i) ->
    (forall i c, children_ n !! i = Some (Some c) -> Rep R W c (qs i) (branch_of p m i)) ->
    (forall i c, children_ n !! i = Some (Some c) -> loaded W n p m i c (qs i)) ->
    Rep R W n p m.

Lemma Rep_inv R W n p m : Rep R W n p m ->
  shape n p m /\ leaf_ok W n p m
  /\ (forall i, children_ n !! i = Some None -> unloaded R W n p m i)
  /\ (forall i c, children_ n !! i = Some (Some c) -> exists q, Rep R W c q (branch_of p m i) /\ loaded W n p m i c q).
Proof. intros [n' p' m' qs H1 H2 H3 H4 H5]. split_and!; try done. intros i c Hc. exists (qs i). by split; [apply H4|apply H5]. Qed.

(** The converse, with a witness for each child. *)
Lemma Rep_intro R W n p m : shape n p m -> leaf_ok W n p m ->
  (forall i, children_ n !! i = Some None -> unloaded R W n p m i) ->
  (forall i c, children_ n !! i = Some (Some c) -> exists q, Rep R W c q (branch_of p m i) /\ loaded W n p m i c q) ->
  Rep R W n p m.
Proof.
  intros H1 H2 H3 H4.
  assert (Hqs : forall l : list nat, exists qs : nat -> path, forall i c, i ∈ l -> children_ n !! i = Some (Some c) ->
    Rep R W c (qs i) (branch_of p m i) /\ loaded W n p m i c (qs i)).
  { induction l as [|j l [qs IH]]; [exists (fun _ => []); by intros ? ? ?%not_elem_of_nil|].
    destruct (children_ n !! j) as [[c|]|] eqn:E.
    - destruct (H4 j c E) as (q & Hq1 & Hq2). exists (fun i => if decide (i = j) then q else qs i).
      intros i c' Hi Hc'. case_decide; [by simplify_eq|]. apply IH; [|done].
      apply elem_of_cons in Hi as [?|?]; done.
    - exists qs. intros i c' Hi Hc'. apply IH; [|done]. apply elem_of_cons in Hi as [->|?]; [congruence|done].
    - exists qs. intros i c' Hi Hc'. apply IH; [|done]. apply elem_of_cons in Hi as [->|?]; [congruence|done]. }
  destruct (Hqs (seq 0 16)) as [qs Hq]. destruct H1 as (? & ? & Hlen & ?) eqn:E1.
  assert (Hin : forall i c, children_ n !! i = Some (Some c) -> i ∈ seq 0 16).
  { intros i c Hc. apply lookup_lt_Some in Hc. apply elem_of_seq. lia. }
  apply (Rep_node R W n p m qs); try done; intros i c Hc; by apply Hq; [eapply Hin|].
Qed.

(** ** Frames *)

Lemma leaf_clean_frame W W' n p m : Forall nib p -> agree pfx p W W' -> leaf_clean W n p m -> leaf_clean W' n p m.
Proof.
  intros Hn Hag [H1 H2]. split; [done|]. intros He. rewrite Hag; [by apply H2|]. exists p. split; [done|]. right. by split.
Qed.

Lemma Rep_frame R W W' n p m : Rep R W n p m -> agree pfx p W W' -> Rep R W' n p m.
Proof.
  induction 1 as [n p m qs Hsh Hlf Hun _ IH Hld]; intros Hag. pose proof Hsh as (_ & Hn & _ & _ & Hu & Hk).
  assert (Hpi : forall i, agree pfx (p ++ [br i]) W W').
  { intros i. eapply agree_weaken; [|exact Hag]. by eexists. }
  apply (Rep_node R W' n p m qs); [done| | | |].
  - destruct Hlf as [H1 H2]. split; [|intros Hm; eapply leaf_clean_frame; [done|exact Hag|by apply H2]].
    destruct (leaf_deleted_ n), (leaf_ n); try done. by eapply leaf_clean_frame.
  - intros i Hi. destruct (Hun i Hi) as (U1 & U2 & U3). split_and!; [done| |].
    + eapply Stored_frame; [exact U2|apply sub_under|by apply sub_keys|apply Hpi].
    + eapply Leaves_frame; [exact U3|apply Hpi].
  - intros i c Hc. apply (IH i c Hc). destruct (Hld i c Hc) as (Hq & _). eapply agree_weaken; [exact Hq|apply Hpi].
  - intros i c Hc. destruct (Hld i c Hc) as (L1 & L2 & L3 & L4). split_and!; try done.
    + intros k K1 K2 K3. rewrite (Hpi i); [by apply L2|]. exists k. split; [done|]. by right.
    + intros Hm. eapply Stored_frame; [by apply L3|apply sub_under|by apply sub_keys|apply Hpi].
Qed.

(** ** Nodes that are up to date *)

Lemma Rep_leaves R W n p m : Rep R W n p m -> modified_ n = false -> Leaves pfx W p m.
Proof.
  induction 1 as [n p m qs Hsh Hlf Hun HR IH Hld]; intros Hm k Hk Hp. pose proof Hsh as (_ & Hn & Hl & _ & Hu & _).
  destruct (decide (p = k)) as [<-|Hne].
  { destruct Hlf as [_ H2]. apply (H2 Hm). apply Hk. }
  destruct (prefix_next p k Hp Hne) as (x & Hx & Hpx). destruct Hk as [Hkn Hke].
  assert (Hnx : nib x) by (rewrite Forall_lookup in Hkn; by eapply Hkn). unfold nib in Hnx.
  assert (Hb : m !! k = branch_of p m (Z.to_nat x) !! k).
  { unfold branch_of. rewrite lookup_sub, Z2Nat.id by lia. by rewrite decide_True. }
  assert (Hpx' : p ++ [br (Z.to_nat x)] `prefix_of` k) by by rewrite Z2Nat.id by lia.
  rewrite Hb. destruct (lookup_lt_is_Some_2 (children_ n) (Z.to_nat x)) as [[c|] Hc]; [rewrite Hl; lia| |].
  - destruct (Hld _ c Hc) as (L1 & L2 & L3 & L4). destruct (decide (qs (Z.to_nat x) `prefix_of` k)) as [Hq|Hq].
    + apply (IH _ c Hc (L4 Hm)); done.
    + rewrite L2 by done. symmetry. destruct (branch_of p m (Z.to_nat x) !! k) as [v|] eqn:E; [|done].
      exfalso. apply Hq. destruct (Rep_inv _ _ _ _ _ (HR _ c Hc)) as ((_ & _ & _ & _ & Hu' & _) & _). by eapply Hu'.
  - destruct (Hun _ Hc) as (_ & _ & U3). by apply U3.
Qed.

Definition clean_info W n p m : Prop :=
  (forall i, (i < 16)%nat -> Stored pfx W (branch_of p m i) (info_at n i))
  /\ (forall i c, children_ n !! i = Some (Some c) -> modified_ c = false).

Lemma Rep_clean R W n p m : Rep R W n p m -> modified_ n = false -> clean_info W n p m.
Proof.
  intros (Hsh & _ & Hun & Hld)%Rep_inv Hm. destruct Hsh as (_ & _ & Hl & _). split.
  - intros i Hi. destruct (lookup_lt_is_Some_2 (children_ n) i) as [[c|] Hc]; [lia| |].
    + destruct (Hld i c Hc) as (q & _ & _ & _ & L3 & L4). by apply L3, L4.
    + by apply Hun.
  - intros i c Hc. destruct (Hld i c Hc) as (q & _ & _ & _ & _ & L4). by apply L4.
Qed.

(** ** Replacing a child *)

Lemma info_at_other n n' j : info_ n' !! j = info_ n !! j -> info_at n' j = info_at n j.
Proof. unfold info_at. by intros ->. Qed.

Lemma info_at_Some n i e : length (info_ n) = 17%nat -> (i < 17)%nat -> info_at n i = e -> info_ n !! i = Some e.
Proof. unfold info_at. intros Hl Hi <-. destruct (lookup_lt_is_Some_2 (info_ n) i) as [x Hx]; [lia|]. by rewrite Hx. Qed.

(** The branch [i] gets the child [c] and the entry [e]; everything else stays. *)
Lemma Rep_put R W n n' p m m' i c q e : Rep R W n p m -> (i < 16)%nat ->
  location_ n' = location_ n -> children_ n' = <[i := Some c]> (children_ n) ->
  leaf_deleted_ n' = leaf_deleted_ n -> leaf_ n' = leaf_ n -> length (info_ n') = 17%nat ->
  (forall j, j <> i -> info_ n' !! j = info_ n !! j) -> info_ n' !! i = Some e ->
  (modified_ n' = false -> modified_ n = false /\ modified_ c = false) ->
  Rep R W c q (branch_of p m' i) -> under p m' -> keys_ok m' -> m' !! p = m !! p ->
  (forall j, (j < 16)%nat -> j <> i -> branch_of p m' j = branch_of p m j) ->
  p ++ [br i] `prefix_of` q ->
  (forall k, key k -> p ++ [br i] `prefix_of` k -> ~ q `prefix_of` k -> W !! lkey pfx k = None) ->
  (modified_ c = false -> Stored pfx W (branch_of p m' i) e) ->
  Rep R W n' p m'.
Proof.
  intros ((Hloc & Hn & Hl & Hli & Hu & Hk) & Hlf & Hun & Hld)%Rep_inv Hi Eloc Ech Eld Elf Hlen Hinfo He Hmod Hc Hu' Hk' Hp Hbr Hq Hgap Hst.
  assert (Hi16 : info_at n' 16 = info_at n 16) by (apply info_at_other, Hinfo; lia).
  apply Rep_intro.
  - split_and!; [congruence|done|by rewrite Ech, length_insert|done|done|done].
  - assert (Hcl : leaf_clean W n p m -> leaf_clean W n' p m') by (unfold leaf_clean; by rewrite Hi16, Hp).
    destruct Hlf as [H1 H2]. split; [|intros Hm; apply Hcl, H2, Hmod, Hm]. rewrite Eld, Elf, Hp.
    destruct (leaf_deleted_ n), (leaf_ n); try done. by apply Hcl.
  - intros j Hj. rewrite Ech in Hj. apply list_lookup_insert_Some in Hj as [(-> & ? & _)|[Hne Hj]]; [done|].
    pose proof (lookup_lt_Some _ _ _ Hj). destruct (Hun j Hj) as (U1 & U2 & U3). unfold unloaded.
    rewrite Hbr by lia. by rewrite (info_at_other n n' j (Hinfo j (not_eq_sym Hne))).
  - intros j cj Hj. rewrite Ech in Hj. apply list_lookup_insert_Some in Hj as [(<- & [= <-] & _)|[Hne Hj]].
    + exists q. split; [done|]. split_and!; try done; [|intros Hm; by apply Hmod]. intros Hm. unfold info_at. rewrite He. by apply Hst.
    + pose proof (lookup_lt_Some _ _ _ Hj). destruct (Hld j cj Hj) as (qj & HR & L1 & L2 & L3 & L4). exists qj.
      unfold loaded. rewrite Hbr by lia. rewrite (info_at_other n n' j (Hinfo j (not_eq_sym Hne))).
      split_and!; try done. intros Hm. by apply L4, Hmod.
Qed.

(** ** Fresh nodes *)

Lemma new_node_info l i : (i < 17)%nat -> info_ (new_node l) !! i = Some Child0.
Proof. intros Hi. by apply lookup_replicate_2. Qed.
Lemma new_node_children l i o : children_ (new_node l) !! i = Some o -> o = None /\ (i < 16)%nat.
Proof. apply lookup_replicate. Qed.

Lemma branch_empty p i : branch_of p ∅ i = ∅.
Proof. apply map_eq. intros k. unfold branch_of. rewrite lookup_sub, lookup_empty. by case_decide. Qed.
Lemma branch_singleton k v i : branch_of k {[ k := v ]} i = ∅.
Proof.
  apply map_eq. intros k'. unfold branch_of. rewrite lookup_sub, lookup_empty. case_decide as Hp; [|done].
  apply lookup_singleton_ne. intros <-. apply prefix_length in Hp. rewrite length_app in Hp. cbn in Hp. lia.
Qed.

Lemma unloaded_empty R W n p m i : branch_of p m i = ∅ -> info_at n i = Child0 ->
  (forall k, key k -> p ++ [br i] `prefix_of` k -> W !! lkey pfx k = None) -> unloaded R W n p m i.
Proof.
  intros Hb Hi HW. unfold unloaded. rewrite Hb, Hi. split_and!; [constructor|constructor|].
  intros k Hk Hp. rewrite lookup_empty. by apply HW.
Qed.

(** The node of a new item. *)
Lemma leaf_node_Rep R W k v : key k -> (forall k', key k' -> k `prefix_of` k' -> k' <> k -> W !! lkey pfx k' = None) ->
  Rep R W (leaf_node (loc k) v) k {[ k := v ]}.
Proof.
  intros Hk HW. apply Rep_intro.
  - split_and!; try done; [apply Hk| |].
    + intros k' v' [<- <-]%lookup_singleton_Some. done.
    + by intros k' v' [<- <-]%lookup_singleton_Some.
  - split; [|done]. cbn. apply lookup_singleton_eq.
  - intros i Hi. apply lookup_replicate in Hi as [_ Hi]. apply unloaded_empty; [apply branch_singleton| |].
    + unfold info_at, leaf_node, SetValue. cbn [info_]. rewrite list_lookup_insert_ne by lia. by rewrite new_node_info by lia.
    + intros k' Hk' Hp. apply HW; [done| |].
      * transitivity (k ++ [br i]); [by eexists|done].
      * intros ->. apply prefix_length in Hp. rewrite length_app in Hp. cbn in Hp. lia.
  - intros i c Hc. by apply lookup_replicate in Hc as [? _].
Qed.

(** ** Loading a child *)

Context (parse_serialize : forall info, length info = 17%nat -> ParseNode (SerializeNode info) = info).

(** The frame that stands for a leaf entry. *)
Lemma leaf_frame_Rep R W k v : key k -> W !! lkey pfx k = Some v ->
  (forall k', key k' -> k `prefix_of` k' -> k' <> k -> W !! lkey pfx k' = None) ->
  Rep R W (set_info 16 (MkChild (loc k) (HashCrypto v) LEAF) (set_modified false (new_node (loc k)))) k {[ k := v ]}.
Proof.
  intros Hk Hv HW. apply Rep_intro.
  - split_and!; try done; [apply Hk| |].
    + intros k' v' [<- <-]%lookup_singleton_Some. done.
    + by intros k' v' [<- <-]%lookup_singleton_Some.
  - assert (Hcl : leaf_clean W (set_info 16 (MkChild (loc k) (HashCrypto v) LEAF) (set_modified false (new_node (loc k)))) k {[ k := v ]}).
    { split; [|by rewrite lookup_singleton_eq]. unfold info_at. cbn [info_ set_info set_modified].
      rewrite list_lookup_insert_eq by (cbn; lia). by rewrite lookup_singleton_eq. }
    by split.
  - intros i Hi. apply lookup_replicate in Hi as [_ Hi]. apply unloaded_empty; [apply branch_singleton| |].
    + unfold info_at. cbn [info_ set_info set_modified]. rewrite list_lookup_insert_ne by lia. by rewrite new_node_info by lia.
    + intros k' Hk' Hp. apply HW; [done| |].
      * transitivity (k ++ [br i]); [by eexists|done].
      * intros ->. apply prefix_length in Hp. rewrite length_app in Hp. cbn in Hp. lia.
  - intros i c Hc. by apply lookup_replicate in Hc as [? _].
Qed.

Lemma Leaves_branch W q m p i : Leaves pfx W q m -> q `prefix_of` p -> Leaves pfx W (p ++ [br i]) (branch_of p m i).
Proof.
  intros HL Hq k Hk Hp. rewrite HL; [|done|].
  - unfold branch_of. by rewrite lookup_sub, decide_True.
  - transitivity p; [done|]. transitivity (p ++ [br i]); [by eexists|done].
Qed.

(** The frame of an inner node, from its record. *)
Lemma inner_frame_Rep R W q p m info : Forall nib p -> length info = 17%nat -> under p m -> keys_ok m ->
  q `prefix_of` p -> Leaves pfx W q m ->
  (forall i, (i < 16)%nat -> Stored pfx R (branch_of p m i) (default Child0 (info !! i))) ->
  (forall i, (i < 16)%nat -> Stored pfx W (branch_of p m i) (default Child0 (info !! i))) ->
  info !! 16%nat = Some (leaf_child p (m !! p)) ->
  Rep R W (set_node_info info (set_modified false (new_node (loc p)))) p m.
Proof.
  intros Hn Hlen Hu Hk Hq HL HR HW H16. apply Rep_intro.
  - by split_and!.
  - assert (Hcl : leaf_clean W (set_node_info info (set_modified false (new_node (loc p)))) p m).
    { split; [unfold info_at; cbn [info_ set_node_info]; by rewrite H16|]. intros He. by apply HL. }
    by split.
  - intros i Hi. apply lookup_replicate in Hi as [_ Hi]. split_and!; [by apply HR|by apply HW|by eapply Leaves_branch].
  - intros i c Hc. by apply lookup_replicate in Hc as [? _].
Qed.

Lemma ChildMayFromDB_run R W n p m i : Rep R W n p m -> (i < 16)%nat ->
  exists o n', ChildMayFromDB R pfx n i = Returns (o, n') /\ Rep R W n' p m /\ children_ n' !! i = Some o
    /\ location_ n' = location_ n /\ info_ n' = info_ n /\ modified_ n' = modified_ n
    /\ (o = None -> branch_of p m i = ∅) /\ (clean_info W n p m -> clean_info W n' p m).
Proof.
  intros HR Hi. pose proof (Rep_inv _ _ _ _ _ HR) as ((Hloc & Hn & Hl & Hli & Hu & Hk) & Hlf & Hun & Hld).
  unfold ChildMayFromDB, child_at. destruct (lookup_lt_is_Some_2 (children_ n) i) as [[c|] Hc]; [lia| |]; rewrite Hc; cbn [mjoin option_join].
  { exists (Some c), n. by split_and!. }
  destruct (Hun i Hc) as (U1 & U2 & U3).
  assert (Hput : forall c q, Rep R W c q (branch_of p m i) -> modified_ c = false -> p ++ [br i] `prefix_of` q ->
    (forall k, key k -> p ++ [br i] `prefix_of` k -> ~ q `prefix_of` k -> W !! lkey pfx k = None) ->
    Rep R W (put_child i (Some c) n) p m /\ children_ (put_child i (Some c) n) !! i = Some (Some c)
    /\ (clean_info W n p m -> clean_info W (put_child i (Some c) n) p m)).
  { intros c q Hcq Hcm Hq Hgap. split_and!.
    - destruct (lookup_lt_is_Some_2 (info_ n) i) as [e He]; [lia|].
      eapply (Rep_put R W n _ p m m i c q e); try done. intros _. unfold info_at in U2. by rewrite He in U2.
    - cbn. by apply list_lookup_insert_eq; lia.
    - intros [H1 H2]. split; [exact H1|]. intros j cj Hj. cbn in Hj.
      apply list_lookup_insert_Some in Hj as [(_ & [= <-] & _)|[_ Hj]]; [done|by eapply H2]. }
  assert (Hkb : keys_ok (branch_of p m i)) by by apply sub_keys.
  assert (Hub : under (p ++ [br i]) (branch_of p m i)) by apply sub_under.
  destruct (Stored_inv pfx R _ _ U1) as [[E Ec]|[(k & v & E & Ec & Hv)|(p2 & info & Ec & Hn2 & Hl2 & Hu2 & Hd & Hs & Hi2 & H16 & _)]];
    rewrite Ec; cbn [childtype sublocation Child0].
  - exists None, n. by split_and!.
  - assert (Hbk : branch_of p m i !! k = Some v) by by rewrite E, lookup_singleton_eq.
    assert (Hkk : key k) by by eapply Hkb. pose proof (Hub k v Hbk) as Hpk.
    destruct (Hput (set_info 16 (MkChild (loc k) (HashCrypto v) LEAF) (set_modified false (new_node (loc k)))) k) as (H1 & H2 & H3); try done.
    + rewrite E. apply leaf_frame_Rep; [done|by rewrite U3|]. intros k' Hk' Hp Hne.
      rewrite U3; [|done|by transitivity k]. rewrite E. by apply lookup_singleton_ne.
    + intros k' Hk' Hp Hnp. rewrite U3, E by done. apply lookup_singleton_ne. by intros ->.
    + eexists _, _. by split_and!.
  - unfold storage_load. fold (nkey pfx p2). rewrite Hd. cbn [fmap option_fmap option_map]. rewrite parse_serialize by done.
    pose proof (splits_under p2 _ _ Hs Hub) as Hpp.
    assert (HW2 : forall j, (j < 16)%nat -> Stored pfx W (branch_of p2 (branch_of p m i) j) (default Child0 (info !! j))).
    { intros j Hj. rewrite Ec in U2.
      destruct (Stored_inv pfx W _ _ U2) as [[_ ?]|[(k & v & _ & ? & _)|(p3 & info3 & E3 & Hn3 & _ & _ & _ & Hs3 & Hi3 & _)]]; [done|done|].
      pose proof (f_equal sublocation E3) as Hloc3. apply loc_inj in Hloc3 as <-; [|done|done].
      by rewrite (Stored_det pfx pfx R W _ _ _ (Hi2 j Hj) (Hi3 j Hj)); apply Hi3. }
    destruct (Hput (set_node_info info (set_modified false (new_node (loc p2)))) p2) as (H1 & H2 & H3); try done.
    + by eapply inner_frame_Rep.
    + intros k Hk' Hp Hnp. rewrite U3 by done. destruct (branch_of p m i !! k) as [v|] eqn:E; [|done].
      exfalso. apply Hnp. by eapply Hu2.
    + eexists _, _. by split_and!.
Qed.
End Rep.
