(* ===== verification/TrieOps.v ===== *)
(** * Setting and deleting items *)
From S2P Require Import Prelude Trie TrieLoc TrieInv TrieRep.

Lemma lcp_greatest (s p q : path) : s `prefix_of` p -> s `prefix_of` q -> s `prefix_of` lcp p q.
Proof.
  intros [p' ->] [q' ->]. induction s as [|x s IH]; [apply prefix_nil|]. cbn. rewrite bool_decide_true by done.
  by apply prefix_cons.
Qed.

Lemma Forall_prefix {A} (Q : A -> Prop) (l l' : list A) : l `prefix_of` l' -> Forall Q l' -> Forall Q l.
Proof. intros [r ->]. by intros [? _]%Forall_app. Qed.

Lemma branch_insert p k v m i :
  branch_of p (<[k := v]> m) i = if decide (p ++ [br i] `prefix_of` k) then <[k := v]> (branch_of p m i) else branch_of p m i.
Proof.
  apply map_eq. intros k'. unfold branch_of. case_decide as H; destruct (decide (k = k')) as [<-|Hne];
    repeat (rewrite lookup_sub || rewrite lookup_insert_eq || (rewrite lookup_insert_ne by done)); by repeat case_decide.
Qed.

Lemma branch_delete p k m i :
  branch_of p (delete k m) i = if decide (p ++ [br i] `prefix_of` k) then delete k (branch_of p m i) else branch_of p m i.
Proof.
  apply map_eq. intros k'. unfold branch_of. case_decide as H; destruct (decide (k = k')) as [<-|Hne];
    repeat (rewrite lookup_sub || rewrite lookup_delete_eq || (rewrite lookup_delete_ne by done)); by repeat case_decide.
Qed.

(** The branch of [p] a longer path belongs to. *)
Lemma path_branch (p k : path) : Forall nib k -> p `prefix_of` k -> p <> k ->
  exists i, (i < 16)%nat /\ k !! length p = Some (br i) /\ p ++ [br i] `prefix_of` k.
Proof.
  intros Hk Hp Hne. destruct (prefix_next p k Hp Hne) as (x & Hx & Hpx).
  assert (Hn : nib x) by (rewrite Forall_lookup in Hk; by eapply Hk). unfold nib in Hn.
  exists (Z.to_nat x). rewrite Z2Nat.id by lia. split_and!; [lia|done|done].
Qed.

Lemma branch_unique (p k : path) i j : p ++ [br i] `prefix_of` k -> p ++ [br j] `prefix_of` k -> i = j.
Proof. intros [_ H1]%prefix_snoc_lookup [_ H2]%prefix_snoc_lookup. rewrite H1 in H2. injection H2. lia. Qed.

Lemma snoc_not_prefix (p : path) x : ~ p ++ [x] `prefix_of` p.
Proof. intros H. apply prefix_length in H. rewrite length_app in H. cbn in H. lia. Qed.

Lemma NextBranch_path p k i : Forall nib k -> k !! length p = Some (br i) -> NextBranch (loc p) (loc k) = Returns i.
Proof. intros Hk Hi. rewrite (NextBranch_loc p k (br i)) by done. by rewrite Nat2Z.id. Qed.

Lemma under_insert p k v m : under p m -> p `prefix_of` k -> under p (<[k := v]> m).
Proof. intros H Hp k' v'. destruct (decide (k = k')) as [<-|]; [done|]. rewrite lookup_insert_ne by done. apply H. Qed.
Lemma keys_insert k v m : keys_ok m -> key k -> keys_ok (<[k := v]> m).
Proof. intros H Hk k' v'. destruct (decide (k = k')) as [<-|]; [done|]. rewrite lookup_insert_ne by done. apply H. Qed.

(** The entry [j] after [i] was changed. *)
Lemma info_insert_ne (l : list Child) i j e : i <> j -> default Child0 (<[i := e]> l !! j) = default Child0 (l !! j).
Proof. intros H. by rewrite list_lookup_insert_ne. Qed.
Lemma info_insert_eq (l : list Child) i e : (i < length l)%nat -> default Child0 (<[i := e]> l !! i) = e.
Proof. intros H. by rewrite list_lookup_insert_eq. Qed.

Section Ops.
Context `{P : TrieParams} (pfx : bytes) (R W : db).
Context (parse_serialize : forall info, length info = 17%nat -> ParseNode (SerializeNode info) = info).
Implicit Types (n c : NodeFrm) (p q k : path) (m : contents).
Abbreviation rep := (Rep pfx R W).

Lemma Rep_modified n p m : rep n p m -> rep (set_modified true n) p m.
Proof.
  intros (Hsh & [Hlf _] & Hun & Hld)%Rep_inv. apply Rep_intro; [exact Hsh|by split|exact Hun|].
  intros i c Hc. destruct (Hld i c Hc) as (q & HR & L1 & L2 & L3 & _). exists q. by split_and!.
Qed.

(** ** The value of a node *)

Lemma SetValue_Rep n p m v : rep n p m -> key p -> rep (SetValue v n) p (<[p := v]> m).
Proof.
  intros ((Hloc & Hn & Hl & Hli & Hu & Hk) & _ & Hun & Hld)%Rep_inv Hp.
  assert (Hbr : forall i, branch_of p (<[p := v]> m) i = branch_of p m i).
  { intros i. rewrite branch_insert, decide_False; [done|]. apply snoc_not_prefix. }
  assert (Hinfo : forall i, (i < 16)%nat -> info_at (SetValue v n) i = info_at n i).
  { intros i Hi. apply info_insert_ne. lia. }
  apply Rep_intro.
  - split_and!; try done; [by cbn; rewrite length_insert|by apply under_insert|by apply keys_insert].
  - split; [|done]. cbn. apply lookup_insert_eq.
  - intros i Hi. pose proof (lookup_lt_Some _ _ _ Hi) as Hlt. cbn in Hlt. unfold unloaded. rewrite Hbr, Hinfo by lia. by apply Hun.
  - intros i c Hc. pose proof (lookup_lt_Some _ _ _ Hc) as Hlt. cbn in Hlt. destruct (Hld i c Hc) as (q & HR & L1 & L2 & L3 & _).
    exists q. unfold loaded. rewrite Hbr, Hinfo by lia. by split_and!.
Qed.

Lemma MarkReopensesame_Rep n p m : rep n p m -> key p -> rep (MarkReopensesame n) p (delete p m).
Proof.
  intros ((Hloc & Hn & Hl & Hli & Hu & Hk) & _ & Hun & Hld)%Rep_inv Hp.
  assert (Hbr : forall i, branch_of p (delete p m) i = branch_of p m i).
  { intros i. rewrite branch_delete, decide_False; [done|]. apply snoc_not_prefix. }
  assert (Hinfo : forall i, (i < 16)%nat -> info_at (MarkReopensesame n) i = info_at n i).
  { intros i Hi. apply info_insert_ne. lia. }
  apply Rep_intro.
  - split_and!; try done; [by cbn; rewrite length_insert| |].
    + intros k v [_ ?]%lookup_delete_Some. by eapply Hu.
    + intros k v [_ ?]%lookup_delete_Some. by eapply Hk.
  - split; [|done]. cbn. by rewrite lookup_delete_eq.
  - intros i Hi. pose proof (lookup_lt_Some _ _ _ Hi) as Hlt. cbn in Hlt. unfold unloaded. rewrite Hbr, Hinfo by lia. by apply Hun.
  - intros i c Hc. pose proof (lookup_lt_Some _ _ _ Hc) as Hlt. cbn in Hlt. destruct (Hld i c Hc) as (q & HR & L1 & L2 & L3 & _).
    exists q. unfold loaded. rewrite Hbr, Hinfo by lia. by split_and!.
Qed.

(** ** New nodes above an existing one *)

(** No leaf of the store lies between the branch [s] and the child at [q]. *)
Definition gap s q : Prop := forall k, key k -> s `prefix_of` k -> ~ q `prefix_of` k -> W !! lkey pfx k = None.

Lemma branch_under r q m i : under q m -> r ++ [br i] `prefix_of` q -> branch_of r m i = m.
Proof. intros Hu Hr. apply sub_id. by eapply under_weaken. Qed.
Lemma branch_none r q m i : under q m -> r `prefix_of` q -> q !! length r <> Some (br i) -> r <> q -> branch_of r m i = ∅.
Proof.
  intros Hu Hr Hne Hrq. apply map_eq. intros k. unfold branch_of. rewrite lookup_sub, lookup_empty. case_decide as Hp; [|done].
  destruct (m !! k) as [v|] eqn:E; [|done]. exfalso. apply Hu in E. apply prefix_snoc_lookup in Hp as [_ Hx].
  destruct (prefix_next r q Hr Hrq) as (x & Hqx & _). destruct E as [t ->].
  rewrite lookup_app_l in Hx by (by eapply lookup_lt_Some). congruence.
Qed.

(** The item at [k] goes above the node at [q]. *)
Lemma above_Rep s k q m c child2 v b1 : key k -> rep c q m -> s `prefix_of` k -> gap s q ->
  k ++ [br b1] `prefix_of` q -> (b1 < 16)%nat -> (modified_ c = false -> Stored pfx W m child2) ->
  rep (set_info b1 child2 (SetChild b1 c (leaf_node (loc k) v))) k (<[k := v]> m).
Proof.
  intros Hk HR Hs Hgap Hq Hb1 Hst. pose proof (Rep_inv _ _ _ _ _ _ HR) as ((_ & Hnq & _ & _ & Hu & Hkm) & _).
  assert (Hkq : k `prefix_of` q) by (transitivity (k ++ [br b1]); [by eexists|done]).
  assert (Hne : k <> q) by (intros ->; by eapply snoc_not_prefix).
  apply prefix_snoc_lookup in Hq as Hq'. destruct Hq' as [_ Hqb].
  assert (Hbr : forall i, branch_of k (<[k := v]> m) i = branch_of k m i).
  { intros i. rewrite branch_insert, decide_False; [done|]. apply snoc_not_prefix. }
  apply Rep_intro.
  - split_and!; try done; [apply Hk|by cbn; rewrite ?length_insert..|by apply under_insert; [eapply under_weaken|]|by apply keys_insert].
  - split; [|done]. cbn. apply lookup_insert_eq.
  - intros i Hi. cbn [children_ set_info SetChild set_modified put_child leaf_node SetValue new_node] in Hi. apply list_lookup_insert_Some in Hi as [(_ & ? & _)|[Hib Hi]]; [done|].
    apply lookup_replicate in Hi as [_ Hi]. apply unloaded_empty.
    + rewrite Hbr. apply (branch_none k q); [done|done|rewrite Hqb; intros [= ?]; lia|done].
    + unfold info_at. cbn [info_ set_info SetChild]. rewrite !info_insert_ne by lia. unfold leaf_node, SetValue. cbn [info_ set_modified put_child].
      rewrite info_insert_ne by lia. by rewrite new_node_info by lia.
    + intros k' Hk' Hp. apply Hgap; [done|transitivity k; [done|transitivity (k ++ [br i]); [by eexists|done]]|].
      intros Hq'. apply Hib. eapply (branch_unique k k'); [by transitivity q|done].
  - intros i c' Hc'. cbn [children_ set_info SetChild set_modified put_child leaf_node SetValue new_node] in Hc'. apply list_lookup_insert_Some in Hc' as [(<- & [= <-] & _)|[Hib Hc']];
      [|by apply lookup_replicate in Hc' as [? _]].
    exists q. rewrite Hbr, (branch_under k q m b1 Hu Hq). split; [done|]. unfold loaded.
    rewrite Hbr, (branch_under k q m b1 Hu Hq). split_and!; [done| | |done].
    + intros k' Hk' Hp Hnq'. apply Hgap; [done|transitivity k; [done|transitivity (k ++ [br b1]); [by eexists|done]]|done].
    + intros Hm. unfold info_at. cbn [info_ set_info]. rewrite info_insert_eq; [by apply Hst|].
      cbn. rewrite !length_insert. cbn. lia.
Qed.

(** A fork at [r] for the item at [k] and the node at [q]. *)
Lemma fork_Rep s k q r m c child2 v b1 b2 : key k -> rep c q m -> s `prefix_of` r -> gap s q -> Forall nib r ->
  r ++ [br b1] `prefix_of` k -> r ++ [br b2] `prefix_of` q -> b1 <> b2 -> (b1 < 16)%nat -> (b2 < 16)%nat ->
  (modified_ c = false -> Stored pfx W m child2) ->
  rep (set_info b2 child2 (SetChild b2 c (SetChild b1 (leaf_node (loc k) v) (new_node (loc r))))) r (<[k := v]> m).
Proof.
  intros Hk HR Hs Hgap Hr Hrk Hrq Hb Hb1 Hb2 Hst. pose proof (Rep_inv _ _ _ _ _ _ HR) as ((_ & Hnq & _ & _ & Hu & Hkm) & _).
  assert (Hrk' : r `prefix_of` k) by (transitivity (r ++ [br b1]); [by eexists|done]).
  assert (Hrq' : r `prefix_of` q) by (transitivity (r ++ [br b2]); [by eexists|done]).
  assert (Hneq : r <> q) by (intros ->; by eapply snoc_not_prefix).
  apply prefix_snoc_lookup in Hrq as Hqb. destruct Hqb as [_ Hqb].
  assert (Hkq : forall x, k `prefix_of` x -> ~ q `prefix_of` x).
  { intros x H1 H2. apply Hb. eapply (branch_unique r x); by etransitivity. }
  assert (HW0 : forall k', key k' -> r `prefix_of` k' -> ~ q `prefix_of` k' -> W !! lkey pfx k' = None).
  { intros k' Hk' Hp Hnq'. apply Hgap; [done|by transitivity r|done]. }
  assert (Hrnq : ~ q `prefix_of` r).
  { intros H. apply Hneq. apply prefix_length_eq; [done|]. by apply prefix_length. }
  assert (Hbr1 : branch_of r (<[k := v]> m) b1 = {[ k := v ]}).
  { rewrite branch_insert, decide_True, (branch_none r q) by (done || (rewrite Hqb; intros [= ?]; lia)). done. }
  assert (Hbr2 : branch_of r (<[k := v]> m) b2 = m).
  { rewrite branch_insert, decide_False; [by apply (branch_under r q)|]. intros H. by apply Hb, (branch_unique r k). }
  apply Rep_intro.
  - split_and!; try done; [by cbn; rewrite ?length_insert|by cbn; rewrite ?length_insert|by apply under_insert; [eapply under_weaken|]|by apply keys_insert].
  - assert (Hmr : <[k := v]> m !! r = None).
    { rewrite lookup_insert_ne by (intros ->; by eapply snoc_not_prefix). destruct (m !! r) as [w|] eqn:E; [|done]. by apply Hu in E. }
    split; [|done]. cbn [leaf_deleted_ leaf_ set_info SetChild set_modified put_child new_node]. split.
    + rewrite Hmr. unfold info_at. cbn [info_ set_info SetChild set_modified put_child new_node]. by rewrite !info_insert_ne by lia.
    + intros He. rewrite Hmr. by apply HW0.
  - intros i Hi. cbn [children_ set_info SetChild set_modified put_child leaf_node SetValue new_node] in Hi. apply list_lookup_insert_Some in Hi as [(_ & ? & _)|[Hi2 Hi]]; [done|].
    apply list_lookup_insert_Some in Hi as [(_ & ? & _)|[Hi1 Hi]]; [done|]. apply lookup_replicate in Hi as [_ Hi].
    apply unloaded_empty.
    + rewrite branch_insert, decide_False by (intros H; by apply Hi1, (branch_unique r k)).
      apply (branch_none r q); [done|done|rewrite Hqb; intros [= ?]; lia|done].
    + unfold info_at. cbn [info_ set_info SetChild set_modified put_child new_node]. by rewrite !info_insert_ne, lookup_replicate_2 by lia.
    + intros k' Hk' Hp. apply HW0; [done|transitivity (r ++ [br i]); [by eexists|done]|].
      intros Hq'. apply Hi2. eapply (branch_unique r k'); [by transitivity q|done].
  - intros i c' Hc'. cbn [children_ set_info SetChild set_modified put_child leaf_node SetValue new_node] in Hc'. apply list_lookup_insert_Some in Hc' as [(<- & [= <-] & _)|[Hi2 Hc']];
      [|apply list_lookup_insert_Some in Hc' as [(<- & [= <-] & _)|[Hi1 Hc']]; [|by apply lookup_replicate in Hc' as [? _]]].
    + exists q. unfold loaded. rewrite Hbr2. split_and!; [done|done| | |done].
      * intros k' Hk' Hp Hnq'. apply HW0; [done|transitivity (r ++ [br b2]); [by eexists|done]|done].
      * intros Hm. unfold info_at. cbn [info_ set_info]. rewrite info_insert_eq; [by apply Hst|]. cbn. rewrite !length_insert. cbn. lia.
    + exists k. unfold loaded. rewrite Hbr1. split_and!; [|done| |done|done].
      * apply leaf_node_Rep; [done|]. intros k' Hk' Hp _. apply HW0; [done|by transitivity k|by apply Hkq].
      * intros k' Hk' Hp Hnk. apply HW0; [done|transitivity (r ++ [br b1]); [by eexists|done]|].
        intros Hq'. apply Hb. eapply (branch_unique r k'); [done|by transitivity q].
Qed.

(** ** [SetItem] *)

Lemma other_branches p k v m i : p ++ [br i] `prefix_of` k ->
  forall j, (j < 16)%nat -> j <> i -> branch_of p (<[k := v]> m) j = branch_of p m j.
Proof.
  intros Hi j _ Hj. rewrite branch_insert, decide_False; [done|]. intros H. by apply Hj, (branch_unique p k).
Qed.

(** A node whose branch [i] gets the changed child [c]. *)
Lemma set_branch n n' p m k v i c q : rep n p m -> key k -> p ++ [br i] `prefix_of` k -> (i < 16)%nat ->
  location_ n' = location_ n -> children_ n' = <[i := Some c]> (children_ n) ->
  leaf_deleted_ n' = leaf_deleted_ n -> leaf_ n' = leaf_ n -> length (info_ n') = 17%nat ->
  (forall j, j <> i -> info_ n' !! j = info_ n !! j) -> modified_ n' = true -> modified_ c = true ->
  rep c q (<[k := v]> (branch_of p m i)) -> p ++ [br i] `prefix_of` q -> gap (p ++ [br i]) q ->
  rep n' p (<[k := v]> m).
Proof.
  intros HR Hk Hi Hlt E1 E2 E3 E4 E5 E6 Hm Hmc Hc Hq Hgap.
  pose proof (Rep_inv _ _ _ _ _ _ HR) as ((_ & Hn & _ & _ & Hu & Hkm) & _).
  assert (Hpk : p `prefix_of` k) by (transitivity (p ++ [br i]); [by eexists|done]).
  assert (Hne : k <> p) by (intros ->; by eapply snoc_not_prefix).
  destruct (lookup_lt_is_Some_2 (info_ n') i) as [e He]; [lia|].
  eapply (Rep_put pfx R W n n' p m _ i c q e); try done.
  - by rewrite Hm.
  - by rewrite branch_insert, decide_True.
  - by apply under_insert.
  - by apply keys_insert.
  - by rewrite lookup_insert_ne.
  - by apply other_branches.
  - by rewrite Hmc.
Qed.

(** The item goes above the child of branch [i]. *)
Lemma set_above n p m k v i c q child2 : rep n p m -> key k -> p ++ [br i] `prefix_of` k -> (i < 16)%nat ->
  rep c q (branch_of p m i) -> p ++ [br i] `prefix_of` q -> gap (p ++ [br i]) q -> (modified_ c = false -> Stored pfx W (branch_of p m i) child2) ->
  k `prefix_of` q -> k <> q ->
  exists b1, NextBranch (loc k) (loc q) = Returns b1
    /\ forall e, rep (set_info i e (SetChild i (set_info b1 child2 (SetChild b1 c (leaf_node (loc k) v))) n)) p (<[k := v]> m).
Proof.
  intros HR Hk Hki Hi HRq Hq Hgap Hst Hkq Hkq'. destruct Hk as [Hkn Hke] eqn:EHk. pose proof (Rep_inv _ _ _ _ _ _ HRq) as ((Hlq & Hnq & _) & _).
  pose proof (Rep_inv _ _ _ _ _ _ HR) as ((_ & _ & Hlc & Hlinfo & _) & _).
  destruct (path_branch k q Hnq Hkq Hkq') as (b1 & Hb1 & Hqb & Hqb'). exists b1. split; [by apply NextBranch_path|]. intros e.
  eapply (set_branch n _ p m k v i _ k); try done.
  - cbn. by rewrite !length_insert.
  - intros j Hj. cbn. by rewrite !list_lookup_insert_ne by done.
  - by eapply (above_Rep (p ++ [br i]) k q).
  - intros k' Hk' Hp' Hnk. apply Hgap; [done|done|]. intros Hq'. apply Hnk. by transitivity q.
Qed.

(** The item and the child of branch [i] part at a new node. *)
Lemma set_fork n p m k v i c q child2 : rep n p m -> key k -> p ++ [br i] `prefix_of` k -> (i < 16)%nat ->
  rep c q (branch_of p m i) -> p ++ [br i] `prefix_of` q -> gap (p ++ [br i]) q -> (modified_ c = false -> Stored pfx W (branch_of p m i) child2) ->
  lcp k q <> k -> lcp k q <> q ->
  exists b1 b2, NextBranch (loc (lcp k q)) (loc k) = Returns b1 /\ NextBranch (loc (lcp k q)) (loc q) = Returns b2
    /\ rep (SetChild i (set_info b2 child2 (SetChild b2 c (SetChild b1 (leaf_node (loc k) v) (new_node (loc (lcp k q)))))) n) p (<[k := v]> m).
Proof.
  intros HR Hk Hki Hi HRq Hq Hgap Hst Hrk Hrq. destruct Hk as [Hkn Hke] eqn:EHk. pose proof (Rep_inv _ _ _ _ _ _ HRq) as ((Hlq & Hnq & _) & _).
  pose proof (Rep_inv _ _ _ _ _ _ HR) as ((_ & _ & Hlc & Hlinfo & _) & _).
  assert (Hrn : Forall nib (lcp k q)) by (eapply Forall_prefix; [apply lcp_prefix_l|done]).
  destruct (path_branch (lcp k q) k Hkn (lcp_prefix_l k q) Hrk) as (b1 & Hb1 & Hkb & Hkb').
  destruct (path_branch (lcp k q) q Hnq (lcp_prefix_r k q) Hrq) as (b2 & Hb2 & Hqb & Hqb'). exists b1, b2. split_and!; [by apply NextBranch_path..|].
  assert (Hb : b1 <> b2) by (intros ->; destruct (lcp_diverge k q Hrk Hrq) as (x & y & Hx & Hy & Hxy); congruence).
  assert (Hsr : p ++ [br i] `prefix_of` lcp k q) by by apply lcp_greatest.
  eapply (set_branch n _ p m k v i _ (lcp k q)); try done.
  - cbn. by rewrite !length_insert.
  - intros j Hj. cbn. by rewrite !list_lookup_insert_ne by done.
  - by eapply (fork_Rep (p ++ [br i]) k q (lcp k q)).
  - intros k' Hk' Hp' Hnr. apply Hgap; [done|done|]. intros Hq'. apply Hnr. transitivity q; [apply lcp_prefix_r|done].
Qed.

Lemma SetItem_run fuel : forall n p m k v, rep n p m -> key k -> p `prefix_of` k -> (length k - length p < fuel)%nat ->
  exists b n', SetItem R pfx fuel n (loc k) v = Returns (b, n') /\ rep n' p (<[k := v]> m) /\ modified_ n' = true
    /\ location_ n' = location_ n.
Proof.
  induction fuel as [|fuel IH]; intros n p m k v HR Hk Hp Hf; [lia|]. cbn [SetItem].
  apply Rep_modified in HR. set (n1 := set_modified true n) in *.
  pose proof (Rep_inv _ _ _ _ _ _ HR) as ((Hloc & Hn & _ & _ & Hu & Hkm) & _). destruct Hk as [Hkn Hke] eqn:EHk.
  change (location_ n) with (location_ n1). rewrite Hloc. case_bool_decide as Heq.
  { apply loc_inj in Heq as <-; [|done|done]. eexists _, _. split; [done|]. split_and!; [by apply SetValue_Rep|done|done]. }
  assert (Hne : p <> k) by congruence. rewrite (CommonPrefix_loc p k), (lcp_prefix p k) by done.
  destruct (path_branch p k Hkn Hp Hne) as (i & Hi & Hki & Hpi). rewrite (NextBranch_path p k i) by done. cbn [obind].
  destruct (ChildMayFromDB_run pfx parse_serialize R W n1 p m i HR Hi) as (o & n2 & -> & HR2 & Ho & Hl2 & Hi2 & Hm2 & Hnone & _).
  cbn [obind]. assert (Hm2' : modified_ n2 = true) by (by rewrite Hm2). pose proof (Rep_inv _ _ _ _ _ _ HR2) as ((_ & _ & Hlc & Hlinfo & _) & _ & Hun2 & Hld2).
  destruct o as [node2|].
  - destruct (Hld2 i node2 Ho) as (q & HRq & Hq & Hgap & Hst & _).
    pose proof (Rep_inv _ _ _ _ _ _ HRq) as ((Hlq & Hnq & _) & _). rewrite Hlq.
    rewrite (CommonPrefix_loc k q) by done. case_bool_decide as Hc1.
    { apply loc_inj in Hc1; [|by eapply Forall_prefix; [apply lcp_prefix_l|]|done].
      assert (Hqk : q `prefix_of` k) by (rewrite <- Hc1; apply lcp_prefix_l).
      assert (Hlt : (length p < length q)%nat) by (apply prefix_length in Hq; rewrite length_app in Hq; cbn in Hq; lia).
      apply prefix_length in Hqk as Hle.
      destruct (IH node2 q (branch_of p m i) k v HRq (conj Hkn Hke) Hqk) as (b & n3 & -> & HR3 & Hm3 & Hl3); [lia|].
      cbn [obind fst snd]. eexists _, _. split; [done|]. split_and!; [|exact Hm2'|rewrite <- Hloc; exact Hl2].
      eapply (set_branch n2 _ p m k v i n3 q); done. }
    case_bool_decide as Hc2.
    { assert (Hnib : Forall nib (lcp k q)) by (eapply Forall_prefix; [apply lcp_prefix_l|done]).
      apply loc_inj in Hc2; [|done|done]. assert (Hkq : k `prefix_of` q) by (rewrite <- Hc2; apply lcp_prefix_r). rewrite Hc2.
      destruct (set_above n2 p m k v i node2 q (info_at n2 i)) as (b1 & -> & HR'); try done; [congruence|].
      cbn [obind]. eexists _, _. split; [done|]. split_and!; [apply HR'|done|rewrite <- Hloc; exact Hl2]. }
    destruct (set_fork n2 p m k v i node2 q (info_at n2 i)) as (b1 & b2 & -> & -> & HR'); try done; [congruence..|].
    cbn [obind]. eexists _, _. split; [done|]. split_and!; [exact HR'|done|rewrite <- Hloc; exact Hl2].
  - destruct (Hun2 i Ho) as (_ & _ & HL). rewrite (Hnone eq_refl) in HL.
    assert (HW : forall k', key k' -> p ++ [br i] `prefix_of` k' -> W !! lkey pfx k' = None).
    { intros k' Hk' Hp'. by rewrite HL, lookup_empty. }
    eexists _, _. split; [done|]. split_and!; [|done|rewrite <- Hloc; exact Hl2].
    eapply (set_branch n2 _ p m k v i _ k); try done.
    + cbn. by rewrite !length_insert.
    + intros j Hj. cbn. by rewrite !list_lookup_insert_ne by done.
    + rewrite (Hnone eq_refl). apply leaf_node_Rep; [done|]. intros k' Hk' Hp' _. apply HW; [done|by transitivity k].
    + intros k' Hk' Hp' _. by apply HW.
Qed.

(** ** [DeleteItem] *)

Lemma length_loc_le (p k : path) : p `prefix_of` k -> (length (loc p) <= length (loc k))%nat.
Proof.
  intros H. apply prefix_length in H. unfold loc. cbn [length]. rewrite !length_pack.
  apply le_n_S, Nat.Div0.div_le_mono. lia.
Qed.

Lemma delete_branch n n' p m k i c q e : rep n p m -> p ++ [br i] `prefix_of` k -> (i < 16)%nat ->
  location_ n' = location_ n -> children_ n' = <[i := Some c]> (children_ n) ->
  leaf_deleted_ n' = leaf_deleted_ n -> leaf_ n' = leaf_ n -> info_ n' = info_ n -> info_ n !! i = Some e ->
  (modified_ n' = false -> modified_ n = false /\ modified_ c = false) ->
  rep c q (delete k (branch_of p m i)) -> p ++ [br i] `prefix_of` q -> gap (p ++ [br i]) q ->
  (modified_ c = false -> Stored pfx W (delete k (branch_of p m i)) e) ->
  rep n' p (delete k m).
Proof.
  intros HR Hi Hlt E1 E2 E3 E4 E5 He Hm Hc Hq Hgap Hst.
  pose proof (Rep_inv _ _ _ _ _ _ HR) as ((_ & Hn & _ & Hli & Hu & Hkm) & _).
  assert (Hne : k <> p) by (intros ->; by eapply snoc_not_prefix).
  assert (Hb : branch_of p (delete k m) i = delete k (branch_of p m i)) by by rewrite branch_delete, decide_True.
  eapply (Rep_put pfx R W n n' p m _ i c q e); try done.
  - by rewrite E5.
  - by rewrite E5.
  - by rewrite E5.
  - by rewrite Hb.
  - intros k' v [_ ?]%lookup_delete_Some. by eapply Hu.
  - intros k' v [_ ?]%lookup_delete_Some. by eapply Hkm.
  - by rewrite lookup_delete_ne.
  - intros j _ Hj. rewrite branch_delete, decide_False; [done|]. intros H. by apply Hj, (branch_unique p k).
  - by rewrite Hb.
Qed.

(** The result is false only where there was nothing; nothing is then marked. *)
Lemma DeleteItem_run fuel : forall n p m k, rep n p m -> key k -> p `prefix_of` k -> (length k - length p < fuel)%nat ->
  exists b n', DeleteItem R pfx fuel n (loc k) = Returns (b, n') /\ rep n' p (delete k m)
    /\ modified_ n' = modified_ n || b /\ location_ n' = location_ n /\ (b = false -> m !! k = None).
Proof.
  induction fuel as [|fuel IH]; intros n p m k HR Hk Hp Hf; [lia|]. cbn [DeleteItem].
  pose proof (Rep_inv _ _ _ _ _ _ HR) as ((Hloc & Hn & _ & _ & Hu & Hkm) & _). destruct Hk as [Hkn Hke] eqn:EHk.
  rewrite Hloc. pose proof (length_loc_le p k Hp) as Hle. destruct (Nat.ltb_spec (length (loc k)) (length (loc p))); [lia|].
  case_bool_decide as Heq.
  { symmetry in Heq. apply loc_inj in Heq as <-; [|done|done]. eexists _, _. split; [done|].
    split_and!; [by apply MarkReopensesame_Rep|cbn; by rewrite orb_true_r|done|done]. }
  assert (Hne : p <> k) by congruence. rewrite (CommonPrefix_loc p k), (lcp_prefix p k) by done.
  destruct (path_branch p k Hkn Hp Hne) as (i & Hi & Hki & Hpi). rewrite (NextBranch_path p k i) by done. cbn [obind].
  destruct (ChildMayFromDB_run pfx parse_serialize R W n p m i HR Hi) as (o & n2 & -> & HR2 & Ho & Hl2 & Hi2 & Hm2 & Hnone & _).
  cbn [obind]. assert (Hmk : m !! k = branch_of p m i !! k) by (unfold branch_of; by rewrite lookup_sub, decide_True).
  pose proof (Rep_inv _ _ _ _ _ _ HR2) as ((_ & _ & _ & Hli2 & _) & _ & _ & Hld2). rewrite <- Hloc.
  assert (Hnop : m !! k = None -> exists b n', Returns (false, n2) = Returns (b, n') /\ rep n' p (delete k m)
    /\ modified_ n' = modified_ n || b /\ location_ n' = location_ n /\ (b = false -> m !! k = None)).
  { intros Hk0. exists false, n2. rewrite delete_id by done. rewrite orb_false_r. by split_and!. }
  destruct o as [node2|]; [|apply Hnop; by rewrite Hmk, Hnone, lookup_empty].
  destruct (Hld2 i node2 Ho) as (q & HRq & Hq & Hgap & Hst & Hmm).
  pose proof (Rep_inv _ _ _ _ _ _ HRq) as ((Hlq & Hnq & _ & _ & Huq & _) & _). rewrite Hlq, (CommonPrefix_loc q k) by done.
  case_bool_decide as Hc; cbn [negb].
  2:{ apply Hnop. rewrite Hmk. destruct (branch_of p m i !! k) as [v|] eqn:E; [|done]. exfalso. apply Hc.
      rewrite (lcp_prefix q k); [done|]. by eapply Huq. }
  apply loc_inj in Hc; [|done|by eapply Forall_prefix; [apply lcp_prefix_l|]].
  assert (Hqk : q `prefix_of` k) by (rewrite Hc; apply lcp_prefix_r).
  assert (Hlt : (length p < length q)%nat) by (apply prefix_length in Hq; rewrite length_app in Hq; cbn in Hq; lia).
  apply prefix_length in Hqk as Hle2.
  destruct (IH node2 q (branch_of p m i) k HRq (conj Hkn Hke) Hqk) as (b & n3 & -> & HR3 & Hm3 & Hl3 & Hb3); [lia|].
  cbn [obind fst snd]. destruct (lookup_lt_is_Some_2 (info_ n2) i) as [e He]; [lia|].
  eexists b, _. split; [done|]. split_and!; [|cbn; by rewrite Hm2|exact Hl2|by rewrite Hmk].
  eapply (delete_branch n2 _ p m k i n3 q e); try done.
  - cbn. rewrite Hm3. intros [Hf1 ->]%orb_false_elim. rewrite orb_false_r. by split; [|apply Hmm].
  - intros Hm0. rewrite Hm3 in Hm0. apply orb_false_elim in Hm0 as [Hm0 ->].
    rewrite delete_id by by apply Hb3. specialize (Hst Hm0). unfold info_at in Hst. by rewrite He in Hst.
Qed.
End Ops.
