(* ===== verification/TrieHash.v ===== *)
(** * Hashing

    [update_hash] brings a node up to date: what it writes turns the store into one that
    holds the map of the node in canonical form, and it touches no record outside the node's
    own part of the store. *)
From S2P Require Import Prelude Trie TrieLoc TrieInv TrieRep TrieOps.

(** ** Batches *)
Definition write_key (w : write) : bytes := match w with Put k _ => k | Del k => k end.
Definition write_value (w : write) : option bytes := match w with Put _ v => Some v | Del _ => None end.

(** What a batch leaves at a key, where it writes it at all. *)
Fixpoint last_write (x : bytes) (ws : list write) : option (option bytes) :=
  match ws with
  | [] => None
  | w :: ws => match last_write x ws with
               | Some o => Some o
               | None => if decide (write_key w = x) then Some (write_value w) else None
               end
  end.

Lemma lookup_WriteBatch (ws : list write) (D : db) (x : bytes) :
  WriteBatch ws D !! x = match last_write x ws with Some o => o | None => D !! x end.
Proof.
  revert D. induction ws as [|w ws IH]; intros D; [done|]. cbn [WriteBatch foldl last_write]. fold (WriteBatch ws (apply_write D w)).
  rewrite IH. destruct (last_write x ws); [done|]. case_decide as E; destruct w as [k v|k]; cbn in *; subst.
  - by rewrite lookup_insert_eq.
  - by rewrite lookup_delete_eq.
  - by rewrite lookup_insert_ne.
  - by rewrite lookup_delete_ne.
Qed.

Lemma last_write_app (x : bytes) (ws ws' : list write) :
  last_write x (ws ++ ws') = match last_write x ws' with Some o => Some o | None => last_write x ws end.
Proof.
  induction ws as [|w ws IH]; cbn [last_write app]; [by destruct (last_write x ws')|]. rewrite IH. by destruct (last_write x ws').
Qed.

(** Every record a batch touches satisfies [Q]. *)
Definition touches (Q : bytes -> Prop) (ws : list write) : Prop := Forall (fun w => Q (write_key w)) ws.

Lemma last_write_touches Q ws x : touches Q ws -> ~ Q x -> last_write x ws = None.
Proof.
  intros H Hx. induction H as [|w ws Hw _ IH]; [done|]. cbn. rewrite IH. by rewrite decide_False by (intros <-; done).
Qed.

Lemma last_write_concat x (ls : list (list write)) i l : ls !! i = Some l ->
  (forall j l', ls !! j = Some l' -> j <> i -> last_write x l' = None) -> last_write x (concat ls) = last_write x l.
Proof.
  revert i. induction ls as [|a ls IH]; intros [|i] Hi Hj; [done..| |]; cbn [concat]; rewrite last_write_app.
  - injection Hi as ->. assert (Hn : last_write x (concat ls) = None); [|by rewrite Hn].
    assert (Hall : forall j l', ls !! j = Some l' -> last_write x l' = None) by (intros j l' H; by apply (Hj (S j))).
    clear -Hall. induction ls as [|b ls IH]; [done|]. cbn [concat]. rewrite last_write_app, IH by (intros j l' H; by apply (Hall (S j))).
    by apply (Hall 0%nat).
  - rewrite (IH i Hi); [|intros j l' H Hne; apply (Hj (S j) l'); [done|lia]].
    rewrite (Hj 0%nat a) by done. by destruct (last_write x l).
Qed.

Lemma last_write_concat_None x (ls : list (list write)) :
  (forall j l', ls !! j = Some l' -> last_write x l' = None) -> last_write x (concat ls) = None.
Proof.
  induction ls as [|b ls IH]; intros Hall; [done|]. cbn [concat]. rewrite last_write_app, IH by (intros j l' H; by apply (Hall (S j))).
  by apply (Hall 0%nat).
Qed.

(** ** The loop over the children *)
Section Hash.
Context `{P : TrieParams} (pfx : bytes).
Implicit Types (n c : NodeFrm) (p q : path) (m : contents) (R W D : db).

(** What becomes of one child: nothing, unless it was modified. *)
Definition kid (o : option NodeFrm) : option (Child * NodeFrm * list write) :=
  match o with Some c => if modified_ c then Some (update_hash pfx c) else None | None => None end.
Definition kid_node (o : option NodeFrm) : option NodeFrm := match kid o with Some (_, c, _) => Some c | None => o end.
Definition kid_entry (o : option NodeFrm) (e : Child) : Child := match kid o with Some (r, _, _) => r | None => e end.
Definition kid_writes (o : option NodeFrm) : list write := match kid o with Some (_, _, ws) => ws | None => [] end.

Fixpoint kids_info (i : nat) (l : list (option NodeFrm)) (info : Node) : Node :=
  match l with
  | [] => info
  | o :: l => kids_info (S i) l (match kid o with Some (r, _, _) => <[i := r]> info | None => info end)
  end.

Lemma update_hash_eq n :
  update_hash pfx n =
    let '(info, w1) := update_leaf pfx n in
    let n' := MkNode (location_ n) (map kid_node (children_ n)) (kids_info 0 (children_ n) info)
                (modified_ n) (leaf_deleted_ n) (leaf_ n) in
    let '(r, w3) := close_node pfx n' in
    (r, set_modified false n', w1 ++ concat (map kid_writes (children_ n)) ++ w3).
Proof.
  destruct n as [l cs info b d lf]. cbn [update_hash]. destruct (update_leaf pfx _) as [info1 w1].
  cbn [location_ children_ modified_ leaf_deleted_ leaf_].
  match goal with |- context [?g 0%nat cs info1] => set (go := g) end.
  assert (Hgo : forall l i info, go i l info = (map kid_node l, kids_info i l info, concat (map kid_writes l))).
  { clear. induction l as [|o l IH]; intros i info; [done|]. cbn [go map kids_info concat]. fold go.
    unfold kid_node at 1, kid_writes at 1, kid. destruct o as [c|]; [|by rewrite IH].
    destruct (modified_ c); [|by rewrite IH]. destruct (update_hash pfx c) as [[r c'] w]. by rewrite IH. }
  by rewrite Hgo.
Qed.

Lemma kids_info_lookup l : forall i info j,
  kids_info i l info !! j = if decide (i <= j)%nat then match l !! (j - i)%nat with Some o => kid_entry o <$> info !! j | None => info !! j end
                            else info !! j.
Proof.
  induction l as [|o l IH]; intros i info j; cbn [kids_info]; [by case_decide|]. rewrite IH.
  assert (Hne : i <> j -> (match kid o with Some (r, _, _) => <[i := r]> info | None => info end) !! j = info !! j).
  { intros Hij. destruct (kid o) as [[[r c] w]|]; [|done]. by apply list_lookup_insert_ne. }
  destruct (decide (i = j)) as [<-|Hij].
  - rewrite decide_False, decide_True, Nat.sub_diag by lia. cbn. unfold kid_entry. destruct (kid o) as [[[r c] w]|]; [|by destruct (info !! i)].
    destruct (info !! i) eqn:E; cbn; [apply list_lookup_insert_eq; by apply lookup_lt_Some in E|].
    apply lookup_ge_None in E. apply lookup_ge_None. by rewrite length_insert.
  - rewrite Hne by done. repeat case_decide; try done; try lia. replace (j - i)%nat with (S (j - S i)) by lia. done.
Qed.

Lemma kids_info_length l : forall i info, length (kids_info i l info) = length info.
Proof.
  induction l as [|o l IH]; intros i info; [done|]. cbn [kids_info]. rewrite IH.
  destruct (kid o) as [[[r c] w]|]; [apply length_insert|done].
Qed.

(** ** Where the writes go *)

Lemma region_snoc p i x : region pfx (p ++ [br i]) x -> region pfx p x /\ x <> nkey pfx p /\ (key p -> x <> lkey pfx p).
Proof.
  intros (r & Hr & Hx). split; [apply (region_weaken pfx p (p ++ [br i])); [by eexists|by exists r]|].
  assert (Hne : r <> p) by (intros ->; by eapply snoc_not_prefix).
  assert (Hp : forall Q : path -> Prop, Q r -> p `prefix_of` r) by (intros _ _; transitivity (p ++ [br i]); [by eexists|done]).
  destruct Hx as [[Hn ->]|[Hk ->]]; split.
  - intros E%nkey_inj; [done|done|by eapply Forall_prefix; [apply (Hp (fun _ => True))|]].
  - intros _. apply nkey_lkey.
  - intros E. by apply (nkey_lkey pfx p r).
  - intros Hkp E%lkey_inj; done.
Qed.

Lemma region_branch p i j x : region pfx (p ++ [br i]) x -> region pfx (p ++ [br j]) x -> i = j.
Proof.
  intros (r & Hr & Hx) (s & Hs & Hy). assert (r = s) as <-; [|by eapply branch_unique].
  destruct Hx as [[? ->]|[? ->]], Hy as [[? E]|[? E]]; [by apply nkey_inj in E|by apply nkey_lkey in E|..].
  - symmetry in E. by apply nkey_lkey in E.
  - by apply lkey_inj in E.
Qed.

Lemma region_lkey q k : key k -> region pfx q (lkey pfx k) -> q `prefix_of` k.
Proof.
  intros Hk (r & Hr & [[_ E]|[Hkr E]]); [symmetry in E; by apply nkey_lkey in E|]. by apply lkey_inj in E as ->.
Qed.

(** ** The leaf *)
Lemma update_leaf_spec W n p m : shape n p m -> leaf_ok pfx W n p m ->
  exists info w1, update_leaf pfx n = (info, w1) /\ length info = 17%nat
    /\ info !! 16%nat = Some (leaf_child p (m !! p)) /\ (forall j, j <> 16%nat -> info !! j = info_ n !! j)
    /\ touches (fun x => x = lkey pfx p /\ key p) w1
    /\ (Nat.Even (length p) -> WriteBatch w1 W !! lkey pfx p = m !! p).
Proof.
  intros (Hloc & Hn & _ & Hli & _ & Hk) [Hlf _]. unfold update_leaf. destruct (leaf_deleted_ n) eqn:Ed; cbn [negb].
  - destruct (leaf_ n); [done|]. destruct Hlf as [Hm Hkp]. eexists _, _. split; [done|]. split_and!.
    + by rewrite length_insert.
    + rewrite Hm. apply list_lookup_insert_eq. lia.
    + intros j Hj. by apply list_lookup_insert_ne.
    + constructor; [|constructor]. cbn. by rewrite Hloc.
    + intros _. cbn. rewrite Hloc. by rewrite lookup_delete_eq.
  - destruct (leaf_ n) as [v|].
    + eexists _, _. split; [done|]. rewrite Hloc, Hlf. split_and!.
      * by rewrite length_insert.
      * apply list_lookup_insert_eq. lia.
      * intros j Hj. by apply list_lookup_insert_ne.
      * constructor; [|constructor]. cbn. rewrite Hloc. split; [done|]. by eapply Hk.
      * intros _. cbn. rewrite Hloc. apply lookup_insert_eq.
    + destruct Hlf as [Hi He]. eexists _, _. split; [done|]. split_and!; try done; [|constructor].
      apply info_at_Some; [done|lia|done].
Qed.

(** ** The entry of a node whose entries are up to date *)

Lemma loc_rootl p : Forall nib p -> bool_decide (loc p = rootl) = bool_decide (p = []).
Proof. intros Hn. apply bool_decide_ext. split; [intros H; by apply (loc_inj p [])|by intros ->]. Qed.

Lemma parts_empty p m info : under p m -> keys_ok m ->
  (forall i, (i <= 16)%nat -> entry_ok (default Child0 (info !! i)) (part p m i)) ->
  forall b, (forall i, i ∈ branches info -> i = b) -> forall k v, m !! k = Some v -> (b <= 16)%nat /\ part p m b !! k = Some v.
Proof.
  intros Hu Hk Hok b Hb k v Hm. destruct (part_cover p m k v Hu Hk Hm) as (i & Hi & Hpi).
  assert (i = b) as <-; [|done]. apply Hb, branches_spec. split; [done|]. intros Hnone. apply Hok in Hnone; [|done].
  by rewrite Hnone, lookup_empty in Hpi.
Qed.

Lemma close_node_spec D n p m : shape n p m ->
  (forall i, (i < 16)%nat -> Stored pfx D (branch_of p m i) (info_at n i)) ->
  info_ n !! 16%nat = Some (leaf_child p (m !! p)) -> (Nat.Even (length p) -> D !! lkey pfx p = m !! p) ->
  exists r w, close_node pfx n = (r, [w]) /\ write_key w = nkey pfx p
    /\ (p <> [] -> D !! nkey pfx p = write_value w -> Stored pfx D m r)
    /\ (p = [] -> r = MkChild rootl (HashCrypto (SerializeNode (info_ n))) INNER /\ write_value w = Some (SerializeNode (info_ n))).
Proof.
  intros (Hloc & Hn & _ & Hli & Hu & Hk) Hi H16 Hev. unfold close_node. rewrite Hloc, loc_rootl by done.
  assert (Hok : forall i, (i <= 16)%nat -> entry_ok (default Child0 (info_ n !! i)) (part p m i)).
  { intros i Hle. unfold part. case_decide as E; [subst i; rewrite H16; apply leaf_child_ok|]. eapply Stored_entry, Hi. lia. }
  assert (Hlf : forall v, m !! p = Some v -> D !! lkey pfx p = Some v).
  { intros v Hv. rewrite <- Hv. apply Hev. by eapply Hk. }
  pose proof (parts_empty p m (info_ n) Hu Hk Hok) as Hpe.
  destruct (branches (info_ n)) as [|b [|b' bs]] eqn:Ebs; cbn [length Nat.eqb andb].
  - case_bool_decide as Hp; cbn [negb andb]; (eexists _, _; split; [done|]; split_and!; try done; try (by unfold nkey; rewrite <- Hloc)).
    { intros ->. by split. }
    intros _ _. assert (m = ∅) as ->; [|constructor]. apply map_empty. intros k. destruct (m !! k) as [v|] eqn:E; [|done].
    destruct (Hpe 17%nat ltac:(by intros i ?%not_elem_of_nil) k v E). lia.
  - case_bool_decide as Hp; cbn [negb andb]; (eexists _, _; split; [done|]; split_and!; try done; try (by unfold nkey; rewrite <- Hloc)).
    { intros ->. by split. }
    intros _ _. cbn [List.last].
    assert (Hall : forall k v, m !! k = Some v -> part p m b !! k = Some v).
    { intros k v E. eapply Hpe; [|exact E]. by intros i ->%list_elem_of_singleton. }
    assert (Hb : b ∈ branches (info_ n)) by (rewrite Ebs; by left).
    apply branches_spec in Hb as [Hb Hty]. assert (Hpm : part p m b = m).
    { apply map_eq. intros k. destruct (part p m b !! k) as [v|] eqn:E.
      - by apply part_key in E as [-> _].
      - destruct (m !! k) as [v|] eqn:E'; [|done]. apply Hall in E'. congruence. }
    unfold part in Hpm. unfold info_at. destruct (decide (b = 16)%nat) as [->|Hb16].
    + rewrite H16. cbn [default from_option id]. destruct (m !! p) as [v|] eqn:E; [|rewrite H16 in Hty; by cbn in Hty].
      rewrite <- Hpm. cbn. constructor. by apply Hlf.
    + rewrite <- Hpm. apply Hi. lia.
  - eexists _, _. split; [done|]. split_and!; try done; try (by unfold nkey; rewrite <- Hloc).
    + intros _ Hd. eapply St_inner; try done. rewrite Ebs. cbn. lia.
    + intros ->. by split.
Qed.

(** ** [update_hash] *)

Definition hashed R W p m (res : Child * NodeFrm * list write) : Prop :=
  let '(r, n', ws) := res in let W' := WriteBatch ws W in
  touches (region pfx p) ws /\ Rep pfx R W' n' p m /\ modified_ n' = false
  /\ (p <> [] -> Stored pfx W' m r)
  /\ (p = [] -> r = MkChild rootl (HashCrypto (SerializeNode (info_ n'))) INNER
      /\ W' !! nkey pfx [] = Some (SerializeNode (info_ n'))).

(** Branch [i] before the loop reaches it. *)
Definition slot R W n p m i (o : option NodeFrm) q : Prop :=
  match o with
  | None => unloaded pfx R W n p m i
  | Some c => Rep pfx R W c q (branch_of p m i) /\ loaded pfx W n p m i c q /\ hashed R W q (branch_of p m i) (update_hash pfx c)
  end.

Lemma touches_weaken (Q Q' : bytes -> Prop) ws : (forall x, Q x -> Q' x) -> touches Q ws -> touches Q' ws.
Proof. intros HQ H. eapply Forall_impl; [exact H|]. auto. Qed.

Lemma kid_touches R W n p m i o q : slot R W n p m i o q -> touches (region pfx (p ++ [br i])) (kid_writes o).
Proof.
  unfold slot, kid_writes, kid. destruct o as [c|]; [|constructor]. intros (_ & (Hq & _) & Hh).
  destruct (modified_ c); [|constructor]. destruct (update_hash pfx c) as [[r c'] ws]. destruct Hh as [Ht _].
  eapply touches_weaken; [|exact Ht]. intros x. by apply region_weaken.
Qed.

Lemma kid_gap R W n p m i o q k : slot R W n p m i o q -> key k -> ~ q `prefix_of` k ->
  WriteBatch (kid_writes o) W !! lkey pfx k = W !! lkey pfx k.
Proof.
  intros Hs Hk Hq. rewrite lookup_WriteBatch. unfold slot, kid_writes, kid in *. destruct o as [c|]; [|done].
  destruct (modified_ c); [|done]. destruct Hs as (_ & _ & Hh). destruct (update_hash pfx c) as [[r c'] ws]. destruct Hh as [Ht _].
  erewrite last_write_touches; [done|exact Ht|]. intros Hr. by apply Hq, region_lkey.
Qed.

(** Branch [i] after the loop, in a store that has what it wrote. *)
Lemma kid_after R W D n n' p m i o q : keys_ok m -> slot R W n p m i o q -> modified_ n' = false ->
  agree pfx (p ++ [br i]) (WriteBatch (kid_writes o) W) D -> info_at n' i = kid_entry o (info_at n i) ->
  Stored pfx D (branch_of p m i) (info_at n' i)
  /\ match kid_node o with
     | None => unloaded pfx R D n' p m i
     | Some c => Rep pfx R D c q (branch_of p m i) /\ loaded pfx D n' p m i c q
     end.
Proof.
  intros Hk Hs Hm Hag Hi. pose proof (fun k => kid_gap R W n p m i o q k Hs) as Hgap. rewrite Hi.
  assert (Hst : forall e, Stored pfx (WriteBatch (kid_writes o) W) (branch_of p m i) e -> Stored pfx D (branch_of p m i) e).
  { intros e He. eapply Stored_frame; [exact He|apply sub_under|by apply sub_keys|exact Hag]. }
  unfold slot, kid_writes, kid_entry, kid_node, kid in *. destruct o as [c|].
  2:{ destruct Hs as (U1 & U2 & U3). split; [by apply Hst|]. unfold unloaded. rewrite Hi. split_and!; [done|by apply Hst|].
      by eapply Leaves_frame. }
  destruct Hs as (HR & (L1 & L2 & L3 & L4) & Hh).
  assert (Hgap' : forall k, key k -> p ++ [br i] `prefix_of` k -> ~ q `prefix_of` k -> D !! lkey pfx k = None).
  { intros k K1 K2 K3. rewrite Hag; [rewrite Hgap by done; by apply L2|]. exists k. split; [done|]. by right. }
  destruct (modified_ c) eqn:Ec.
  - destruct (update_hash pfx c) as [[r c'] ws]. destruct Hh as (_ & HR' & Hm' & Hne & _). cbn in Hi, Hst, Hag. cbv beta iota.
    assert (Hr : Stored pfx D (branch_of p m i) r).
    { apply Hst, Hne. intros ->. by apply prefix_nil_inv, app_nil in L1 as [_ ?]. }
    split; [done|]. split; [eapply Rep_frame; [exact HR'|by eapply agree_weaken]|]. unfold loaded. rewrite Hi. by split_and!.
  - cbn in Hi, Hst, Hag. cbv beta iota. assert (Hr : Stored pfx D (branch_of p m i) (info_at n i)) by (apply Hst, L3; done).
    split; [done|]. split; [eapply Rep_frame; [exact HR|by eapply agree_weaken]|]. unfold loaded. rewrite Hi. by split_and!.
Qed.

(** The whole batch, seen from one part of the store. *)
Lemma batch_branch W ls w1 w3 p i l : ls !! i = Some l ->
  (forall j l', ls !! j = Some l' -> touches (region pfx (p ++ [br j])) l') ->
  touches (fun x => x = lkey pfx p /\ key p) w1 -> touches (fun x => x = nkey pfx p) w3 ->
  agree pfx (p ++ [br i]) (WriteBatch l W) (WriteBatch (w1 ++ concat ls ++ w3) W).
Proof.
  intros Hi Hls H1 H3 x Hx. destruct (region_snoc p i x Hx) as (_ & Hn & Hl). rewrite !lookup_WriteBatch, !last_write_app.
  rewrite (last_write_touches _ w3 x H3) by done. rewrite (last_write_concat x ls i l Hi).
  - rewrite (last_write_touches _ w1 x H1) by (intros [-> ?]; by apply Hl). by destruct (last_write x l).
  - intros j l' Hj Hne. eapply last_write_touches; [by apply (Hls j)|]. intros Hx'. by apply Hne, (region_branch p j i x).
Qed.

Lemma batch_own W ls w1 w3 p :
  (forall j l', ls !! j = Some l' -> touches (region pfx (p ++ [br j])) l') ->
  touches (fun x => x = nkey pfx p) w3 -> key p ->
  WriteBatch (w1 ++ concat ls ++ w3) W !! lkey pfx p = WriteBatch w1 W !! lkey pfx p.
Proof.
  intros Hls H3 Hk. rewrite !lookup_WriteBatch, !last_write_app.
  rewrite (last_write_touches _ w3 _ H3) by (intros E; by apply (nkey_lkey pfx p p)). rewrite last_write_concat_None; [done|].
  intros j l' Hj. eapply last_write_touches; [by apply (Hls j)|]. intros Hx. by apply region_snoc in Hx as (_ & _ & []).
Qed.

Lemma batch_touches ls w1 w3 p : Forall nib p ->
  (forall j l', ls !! j = Some l' -> touches (region pfx (p ++ [br j])) l') ->
  touches (fun x => x = lkey pfx p /\ key p) w1 -> touches (fun x => x = nkey pfx p) w3 ->
  touches (region pfx p) (w1 ++ concat ls ++ w3).
Proof.
  intros Hn Hls H1 H3. apply Forall_app. split; [|apply Forall_app; split].
  - eapply touches_weaken; [|exact H1]. intros x [-> Hk]. exists p. split; [done|]. by right.
  - apply Forall_concat, Forall_lookup. intros j l Hj. eapply touches_weaken; [|by apply (Hls j)].
    intros x. by intros [? _]%region_snoc.
  - eapply touches_weaken; [|exact H3]. intros x ->. exists p. split; [done|]. by left.
Qed.

(** Closing a node writes its entry and nothing else. *)
Lemma close_node_write n p r ws : location_ n = loc p -> close_node pfx n = (r, ws) -> exists w, ws = [w] /\ write_key w = nkey pfx p.
Proof. unfold close_node, nkey. intros <-. repeat case_match; intros [= <- <-]; by eexists. Qed.

(** A node all of whose branches are as [kid_after] leaves them. *)
Lemma Rep_after R D n1 p m qs kids : shape n1 p m -> leaf_ok pfx D n1 p m -> children_ n1 = map kid_node kids ->
  (forall i o, kids !! i = Some o -> match kid_node o with
     | None => unloaded pfx R D n1 p m i
     | Some c => Rep pfx R D c (qs i) (branch_of p m i) /\ loaded pfx D n1 p m i c (qs i)
     end) -> Rep pfx R D n1 p m.
Proof.
  intros Hsh Hl Ek Hk. apply (Rep_node pfx R D _ p m qs); [exact Hsh|exact Hl| | |].
  - intros i Hi. rewrite Ek in Hi. apply list_lookup_fmap_Some in Hi as (o & Ho & Hi2). specialize (Hk i o Hi2). by rewrite <- Ho in Hk.
  - intros i c Hi. rewrite Ek in Hi. apply list_lookup_fmap_Some in Hi as (o & Ho & Hi2). specialize (Hk i o Hi2). rewrite <- Ho in Hk. apply Hk.
  - intros i c Hi. rewrite Ek in Hi. apply list_lookup_fmap_Some in Hi as (o & Ho & Hi2). specialize (Hk i o Hi2). rewrite <- Ho in Hk. apply Hk.
Qed.

Theorem update_hash_spec R W n p m : Rep pfx R W n p m -> hashed R W p m (update_hash pfx n).
Proof.
  induction 1 as [n p m qs Hsh Hlf Hun HR IH Hld]. pose proof Hsh as (Hloc & Hn & Hlc & Hli & Hu & Hk).
  rewrite update_hash_eq. destruct (update_leaf_spec W n p m Hsh Hlf) as (info & w1 & -> & Hl1 & H16 & Hother & Hw1 & Hev).
  set (n1 := MkNode _ _ _ _ _ _). set (ls := map kid_writes (children_ n)).
  assert (Hslot : forall i o, children_ n !! i = Some o -> slot R W n p m i o (qs i)).
  { intros i [c|] Hi; [split_and!; [by apply HR|by apply Hld|by apply IH]|by apply Hun]. }
  assert (Hls : forall j l, ls !! j = Some l -> touches (region pfx (p ++ [br j])) l).
  { intros j l Hj. apply list_lookup_fmap_Some in Hj as (o & -> & Ho). by eapply kid_touches, Hslot. }
  assert (Hinfo : forall i o, children_ n !! i = Some o -> info_at n1 i = kid_entry o (info_at n i)).
  { intros i o Hi. pose proof (lookup_lt_Some _ _ _ Hi). unfold info_at, n1. cbn [info_]. rewrite kids_info_lookup, decide_True, Nat.sub_0_r by lia.
    rewrite Hi, Hother by lia. destruct (info_ n !! i) eqn:E; [done|]. apply lookup_ge_None in E. lia. }
  assert (H16' : info_ n1 !! 16%nat = Some (leaf_child p (m !! p))).
  { unfold n1. cbn [info_]. rewrite kids_info_lookup, decide_True, Nat.sub_0_r by lia. by rewrite (lookup_ge_None_2 (children_ n)) by lia. }
  assert (Hsh1 : shape n1 p m).
  { split_and!; try done; cbn; [by rewrite length_map|by rewrite kids_info_length]. }
  (* the writes of the node itself are known once its entries are *)
  assert (Hafter : forall w3, touches (fun x => x = nkey pfx p) w3 -> forall i o, children_ n !! i = Some o ->
    let D := WriteBatch (w1 ++ concat ls ++ w3) W in
    Stored pfx D (branch_of p m i) (info_at n1 i)
    /\ match kid_node o with
       | None => unloaded pfx R D (set_modified false n1) p m i
       | Some c => Rep pfx R D c (qs i) (branch_of p m i) /\ loaded pfx D (set_modified false n1) p m i c (qs i)
       end).
  { intros w3 Hw3 i o Hi. apply (kid_after R W _ n (set_modified false n1)); [done|by apply Hslot|done| |by apply Hinfo].
    apply batch_branch; [|done..]. by apply list_lookup_fmap_Some; exists o. }
  assert (Hat : forall i, (i < 16)%nat -> exists o, children_ n !! i = Some o).
  { intros i Hi. apply lookup_lt_is_Some_2. lia. }
  destruct (close_node pfx n1) as [r w3] eqn:Hcl. destruct (close_node_write n1 p r w3 Hloc Hcl) as (w & -> & Hw).
  assert (Hw3 : touches (fun x => x = nkey pfx p) [w]) by (by constructor). specialize (Hafter [w] Hw3). cbn zeta in Hafter.
  set (D := WriteBatch (w1 ++ concat ls ++ [w]) W) in *.
  assert (Hevn : Nat.Even (length p) -> D !! lkey pfx p = m !! p).
  { intros He. unfold D. rewrite batch_own by (done || by split). by apply Hev. }
  destruct (close_node_spec D n1 p m Hsh1) as (r' & w' & Hcl' & _ & Hne & Hroot); [|done|done|].
  { intros i Hi. destruct (Hat i Hi) as [o Ho]. by eapply Hafter. }
  rewrite Hcl in Hcl'. injection Hcl' as <- <-.
  assert (HDn : D !! nkey pfx p = write_value w).
  { unfold D. rewrite lookup_WriteBatch, !last_write_app. cbn [last_write]. by rewrite decide_True. }
  unfold hashed. rewrite Hcl. cbv beta iota zeta. fold D. split_and!.
  - by apply batch_touches.
  - assert (Hclean : leaf_clean pfx D (set_modified false n1) p m).
    { split; [unfold info_at; change (info_ (set_modified false n1)) with (info_ n1); by rewrite H16'|done]. }
    apply (Rep_after R D _ p m qs (children_ n)); [exact Hsh1| |done|by intros i o Hi; apply Hafter].
    split; [|done]. destruct Hlf as [Hlf _]. cbn. destruct (leaf_deleted_ n), (leaf_ n); done.
  - done.
  - intros Hp. by apply Hne.
  - intros ->. destruct (Hroot eq_refl) as [-> Hv]. split; [done|]. by rewrite HDn.
Qed.
End Hash.
