(* ===== verification/TrieRun.v ===== *)
(** * Reading, loading and freeing

    [Exists], [Load], [Release] and the walk of [StorageAssociated] over a trie that is up
    to date with its store; the values listed by [StorageAssociated] under a stored node
    and by [GetAllItem] under a prefix, both from the store alone. *)
From S2P Require Import Prelude Trie TrieLoc TrieInv TrieRep TrieOps.

Section Run.
Context `{P : TrieParams} (pfx : bytes).
Context (parse_serialize : forall info, length info = 17%nat -> ParseNode (SerializeNode info) = info).
Implicit Types (n c : NodeFrm) (p q k : path) (m : contents) (R W D : db).

(** ** A node that is up to date *)
Definition clean R n p m : Prop := Rep pfx R R (set_modified false n) p m.

Lemma clean_Rep R n p m : clean R n p m -> Rep pfx R R n p m.
Proof. intros H. destruct n as [l cs info [] d lf]; [|exact H]. by apply (Rep_modified pfx R R) in H. Qed.

Lemma Rep_clean_node R n p m : Rep pfx R R n p m -> modified_ n = false -> clean R n p m.
Proof. unfold clean. destruct n. cbn. by intros H ->. Qed.

Lemma clean_stored R n p m : clean R n p m -> forall i, (i < 16)%nat -> Stored pfx R (branch_of p m i) (info_at n i).
Proof. intros H. by destruct (Rep_clean _ _ _ _ _ _ H eq_refl) as [? _]. Qed.

(** The location of a stored entry is a prefix of every key, and extends what the keys share. *)
Lemma Stored_location D m (c : Child) : Stored pfx D m c -> childtype c <> NONE -> keys_ok m ->
  exists p, sublocation c = loc p /\ Forall nib p /\ under p m /\ (forall q, under q m -> q `prefix_of` p).
Proof.
  intros [[-> ->]|[(k & v & -> & -> & _)|(p & info & -> & Hn & _ & Hu & _ & Hs & _)]]%Stored_inv Hty Hk; [done| |].
  - exists k. split_and!; [done|by eapply Hk, lookup_singleton_eq| |].
    + by intros k' v' [<- <-]%lookup_singleton_Some.
    + intros q Hq. eapply Hq, lookup_singleton_eq.
  - exists p. split_and!; try done. intros q Hq. by eapply splits_under.
Qed.

(** ** Following a branch *)

Lemma ChildMayFromDB_flag R n b i o n2 : ChildMayFromDB R pfx (set_modified b n) i = Returns (o, n2) ->
  ChildMayFromDB R pfx n i = Returns (o, set_modified (modified_ n) n2).
Proof.
  unfold ChildMayFromDB. destruct n as [l cs info b' d lf]. unfold child_at, info_at. cbn. intros Hrun.
  destruct (mjoin (cs !! i)); [by injection Hrun as <- <-|].
  destruct (childtype _); [by injection Hrun as <- <-| |by injection Hrun as <- <-]. case_match; [by injection Hrun as <- <-|done].
Qed.

(** The child of a branch, and what putting another version of it back gives. *)
Definition follows R n p m i c q : Prop :=
  p ++ [br i] `prefix_of` q /\ under q (branch_of p m i) /\ clean R c q (branch_of p m i) /\ modified_ c = false
  /\ (forall c', clean R c' q (branch_of p m i) -> modified_ c' = false -> clean R (put_child i (Some c') n) p m).

Lemma clean_child R n p m i : clean R n p m -> (i < 16)%nat ->
  exists o n', ChildMayFromDB R pfx n i = Returns (o, n') /\ clean R n' p m
    /\ modified_ n' = modified_ n /\ info_ n' = info_ n
    /\ match o with None => branch_of p m i = ∅ | Some c => exists q, follows R n' p m i c q end.
Proof.
  intros Hcl Hi. destruct (ChildMayFromDB_run pfx parse_serialize R R _ p m i Hcl Hi) as (o & n2 & Hrun & HR2 & Ho & Hl & Hi2 & Hm2 & Hnone & _).
  eexists o, _. split; [by apply ChildMayFromDB_flag in Hrun|]. unfold clean in *. cbn in Hm2, Hi2.
  assert (E : set_modified false (set_modified (modified_ n) n2) = n2) by (destruct n2; cbn in *; by subst). rewrite E.
  split_and!; try done. pose proof (Rep_inv _ _ _ _ _ _ HR2) as ((_ & _ & Hlc & Hli & Hu & Hkm) & _ & _ & Hld). destruct o as [c|]; [|by apply Hnone].
  destruct (Hld i c Ho) as (q & HRq & Hq & Hgap & Hst & Hmm). specialize (Hmm Hm2).
  pose proof (Rep_inv _ _ _ _ _ _ HRq) as ((_ & _ & _ & _ & Huq & _) & _).
  exists q. split_and!; try done; [by apply Rep_clean_node|]. intros c' Hc' Hmc'. unfold clean.
  destruct (lookup_lt_is_Some_2 (info_ n2) i) as [e He]; [lia|]. specialize (Hst Hmm). unfold info_at in Hst. rewrite He in Hst.
  apply (Rep_put pfx R R n2 _ p m m i c' q e HR2); try done. by apply clean_Rep.
Qed.

(** ** [Exists] *)
Lemma Exists_run R fuel : forall n p m k, clean R n p m -> key k -> p `prefix_of` k -> (length k - length p < fuel)%nat ->
  exists b n', Exists R pfx fuel n (loc k) = Returns (b, n') /\ clean R n' p m
    /\ modified_ n' = modified_ n /\ info_ n' = info_ n /\ (b = false -> m !! k = None).
Proof.
  induction fuel as [|fuel IH]; intros n p m k Hcl Hk Hp Hf; [lia|]. cbn [Exists].
  pose proof (Rep_inv _ _ _ _ _ _ (clean_Rep _ _ _ _ Hcl)) as ((Hloc & Hn & _ & _ & Hu & Hkm) & _).
  pose proof Hk as [Hkn Hke]. rewrite Hloc. case_bool_decide as Heq.
  { exists true, n. by split_and!. }
  assert (Hne : p <> k) by congruence. rewrite (CommonPrefix_loc p k), (lcp_prefix p k) by done.
  destruct (path_branch p k Hkn Hp Hne) as (i & Hi & Hki & Hpi). rewrite (NextBranch_path p k i) by done. cbn [obind].
  pose proof (clean_stored _ _ _ _ Hcl i Hi) as Hst.
  assert (Hmk : m !! k = branch_of p m i !! k) by (unfold branch_of; by rewrite lookup_sub, decide_True). rewrite Hmk.
  assert (Hno : branch_of p m i !! k = None -> exists b n', Returns (false, n) = Returns (b, n') /\ clean R n' p m
    /\ modified_ n' = modified_ n /\ info_ n' = info_ n /\ (b = false -> branch_of p m i !! k = None)) by (intros; by exists false, n).
  case_bool_decide as Hty; [apply Hno; apply (Stored_entry pfx R) in Hst as [-> _]; by rewrite ?lookup_empty|].
  destruct (Stored_location R _ _ Hst Hty) as (p2 & Hl2 & Hn2 & Hu2 & Hmax); [by apply sub_keys|].
  rewrite Hl2, (CommonPrefix_loc p2 k) by done. case_bool_decide as Hc; cbn [negb].
  2:{ apply Hno. destruct (branch_of p m i !! k) as [v|] eqn:E; [|done]. exfalso. apply Hc. rewrite (lcp_prefix p2 k); [done|]. by eapply Hu2. }
  apply loc_inj in Hc; [|by eapply Forall_prefix; [apply lcp_prefix_l|]|done].
  destruct (clean_child R n p m i Hcl Hi) as ([c|] & n2 & -> & Hcl2 & Hm2 & Hi2 & Hch); cbn [obind].
  2:{ exfalso. by apply Hty, (Stored_entry pfx R _ _ Hst). }
  destruct Hch as (q & Hq & Huq & Hcq & Hmc & Hput).
  assert (Hqk : q `prefix_of` k) by (transitivity p2; [by apply Hmax|rewrite <- Hc; apply lcp_prefix_r]).
  assert (Hlt : (length p < length q)%nat) by (apply prefix_length in Hq; rewrite length_app in Hq; cbn in Hq; lia).
  apply prefix_length in Hqk as Hle.
  destruct (IH c q (branch_of p m i) k Hcq Hk Hqk) as (b & c' & -> & Hcc & Hmc' & Hic & Hb); [lia|].
  cbn [obind fst snd]. eexists b, _. split; [done|]. split_and!; [|done|done|done]. apply Hput; [done|congruence].
Qed.

(** ** [Load] *)
Definition load_children R (fuel : nat) : list nat -> NodeFrm -> outcome NodeFrm :=
  fix go (bs : list nat) (node : NodeFrm) : outcome NodeFrm :=
    match bs with
    | [] => Returns node
    | i :: bs' =>
        let* r := ChildMayFromDB R pfx node i in
        let '(child, node) := r in
        match child with
        | Some child => let* child := Load R pfx fuel child in go bs' (put_child i (Some child) node)
        | None => go bs' node
        end
    end.

Lemma Load_run R fuel : forall n p m, clean R n p m ->
  exists n', Load R pfx fuel n = Returns n' /\ clean R n' p m /\ modified_ n' = modified_ n /\ info_ n' = info_ n.
Proof.
  induction fuel as [|fuel IH]; intros n p m Hcl; [by exists n|]. change (Load R pfx (S fuel) n) with (load_children R fuel (seq 0 16) n).
  assert (Hbs : Forall (fun i => i < 16)%nat (seq 0 16)) by (apply Forall_forall; intros i Hi%elem_of_seq; lia).
  revert n Hcl. induction Hbs as [|i bs Hi _ IHb]; intros n Hcl; [by exists n|]. cbn [load_children].
  destruct (clean_child R n p m i Hcl Hi) as (o & n2 & -> & Hcl2 & Hm2 & Hi2 & Hch); cbn [obind].
  destruct o as [c|].
  - destruct Hch as (q & Hq & Huq & Hcq & Hmc & Hput). destruct (IH c q _ Hcq) as (c' & -> & Hcc & Hmc' & _). cbn [obind].
    destruct (IHb (put_child i (Some c') n2)) as (n3 & Hrun & Hcl3 & Hm3 & Hi3); [apply Hput; [done|congruence]|].
    exists n3. cbn in Hm3, Hi3. split_and!; [exact Hrun|done|congruence|congruence].
  - destruct (IHb n2 Hcl2) as (n3 & Hrun & Hcl3 & Hm3 & Hi3). exists n3. split_and!; [exact Hrun|done|congruence|congruence].
Qed.

(** ** [Release] *)
Lemma Release_Rep R n p m d : Rep pfx R R n p m -> modified_ n = false -> Rep pfx R R (Release n d) p m.
Proof.
  intros HR. revert d. induction HR as [n p m qs Hsh Hlf Hun HR IH Hld]; intros d Hm. pose proof Hsh as (Hloc & Hn & Hlc & Hli & Hu & Hk).
  assert (HRn : Rep pfx R R n p m) by by eapply Rep_node. destruct n as [l cs info b lf ld]. cbn [Release] in *.
  assert (Hcs : forall i o, (map (fun ch => match ch with
      | Some child => if d <=? 0 then None else Some (Release child (d - 1)) | None => None end) cs) !! i = Some o ->
    (exists c, cs !! i = Some (Some c) /\ o = if d <=? 0 then None else Some (Release c (d - 1))) \/ (cs !! i = Some None /\ o = None)).
  { intros i o (x & -> & Hx)%list_lookup_fmap_Some. destruct x as [c|]; [left; by exists c|by right]. }
  assert (Hlv : forall i, Leaves pfx R (p ++ [br i]) (branch_of p m i)).
  { intros i. eapply Leaves_branch; [by eapply Rep_leaves|done]. }
  assert (Hst : forall i, (i < 16)%nat -> Stored pfx R (branch_of p m i) (default Child0 (info !! i))).
  { apply (Rep_clean _ _ _ _ _ _ HRn Hm). }
  apply Rep_intro.
  - split_and!; try done. cbn. by rewrite length_map.
  - exact Hlf.
  - intros i Hi. cbn in Hi. pose proof (lookup_lt_Some _ _ _ Hi) as Hlt. rewrite length_map in Hlt. cbn in Hlc.
    assert (Hi' : (i < 16)%nat) by lia. unfold unloaded, info_at. cbn. split_and!; [by apply Hst|by apply Hst|by apply Hlv].
  - intros i c Hi. cbn in Hi. destruct (Hcs i _ Hi) as [(c0 & Hc0 & Ho)|[_ [=]]]. destruct (d <=? 0); [done|]. injection Ho as ->.
    exists (qs i). destruct (Hld i c0 Hc0) as (L1 & L2 & L3 & L4). split; [apply (IH i c0 Hc0); by apply L4|].
    assert (Hmr : modified_ (Release c0 (d - 1)) = modified_ c0) by (by destruct c0).
    unfold loaded. cbn. rewrite Hmr. by split_and!.
Qed.
End Run.

(** ** The values of a map *)
Definition values (m : contents) : list bytes := (map_to_list m).*2.

Lemma values_parts p m : under p m -> keys_ok m -> values m ≡ₚ (16%nat :: seq 0 16) ≫= (fun i => values (part p m i)).
Proof.
  intros Hu Hk. assert (H : map_to_list m ≡ₚ (16%nat :: seq 0 16) ≫= (fun i => map_to_list (part p m i))).
  { assert (Hin : forall i, i ∈ 16%nat :: seq 0 16 <-> (i <= 16)%nat).
    { intros i. rewrite elem_of_cons, elem_of_seq. lia. }
    apply NoDup_Permutation; [apply NoDup_map_to_list|apply NoDup_bind| ].
    - intros i j [k v] Hi%Hin Hj%Hin H1%elem_of_map_to_list H2%elem_of_map_to_list.
      apply part_key in H1 as (_ & _ & L1), H2 as (_ & _ & L2); [|done..]. rewrite L1 in L2.
      repeat case_decide; simplify_eq; lia.
    - intros i _. apply NoDup_map_to_list.
    - constructor; [|apply NoDup_seq]. rewrite elem_of_seq. lia.
    - intros [k v]. rewrite elem_of_map_to_list, list_elem_of_bind. split.
      + intros Hm. destruct (part_cover p m k v Hu Hk Hm) as (i & Hi & Hp). exists i. split; [by apply elem_of_map_to_list|by apply Hin].
      + intros (i & H%elem_of_map_to_list & Hi%Hin). by apply part_key in H as [? _]. }
  unfold values. rewrite H. clear. induction (16%nat :: seq 0 16) as [|i l IH]; [done|]. cbn. by rewrite fmap_app, IH.
Qed.

Lemma bind_perm {A B} (f g : A -> list B) (l : list A) : (forall a, a ∈ l -> f a ≡ₚ g a) -> l ≫= f ≡ₚ l ≫= g.
Proof.
  induction l as [|a l IH]; intros H; [done|]. cbn. rewrite H by left. f_equiv. apply IH. intros b Hb. apply H. by right.
Qed.

Lemma values_empty : values ∅ = [].
Proof. unfold values. by rewrite map_to_list_empty. Qed.
Lemma values_singleton k v : values {[ k := v ]} = [v].
Proof. unfold values. by rewrite map_to_list_singleton. Qed.

Section Scan.
Context `{P : TrieParams} (pfx : bytes) (D : db).
Context (parse_serialize : forall info, length info = 17%nat -> ParseNode (SerializeNode info) = info).
Implicit Types (p q k : path) (m : contents).

(** The record of a node, with any number of branches in use. *)
Definition node_at p m info : Prop :=
  Forall nib p /\ length info = 17%nat /\ under p m /\ keys_ok m /\ D !! nkey pfx p = Some (SerializeNode info)
  /\ (forall i, (i < 16)%nat -> Stored pfx D (branch_of p m i) (default Child0 (info !! i)))
  /\ info !! 16%nat = Some (leaf_child p (m !! p)) /\ (forall v, m !! p = Some v -> D !! lkey pfx p = Some v).

Lemma storage_load_at p m info : node_at p m info -> storage_load D pfx (loc p) = Some info.
Proof.
  intros (_ & Hl & _ & _ & Hd & _). unfold storage_load. fold (nkey pfx p). rewrite Hd. cbn. by rewrite parse_serialize.
Qed.

(** An inner entry leads to a record further down. *)
Lemma node_at_inner m c : Stored pfx D m c -> keys_ok m -> childtype c = INNER ->
  exists p info, sublocation c = loc p /\ node_at p m info /\ (forall q, under q m -> q `prefix_of` p).
Proof.
  intros [[-> ->]|[(k & v & -> & -> & _)|(p & info & -> & Hn & Hl & Hu & Hd & Hs & Hi & H16 & Hlf)]]%Stored_inv Hk; try done.
  intros _. exists p, info. split_and!; try done. intros q Hq. by eapply splits_under.
Qed.

(** Enough fuel for the keys below [p]. *)
Definition fuel_for (fuel : nat) p m : Prop := (0 < fuel)%nat /\ forall k v, m !! k = Some v -> (length k - length p < fuel)%nat.

Lemma fuel_down fuel p m i q : fuel_for (S fuel) p m -> p ++ [br i] `prefix_of` q -> under q (branch_of p m i) ->
  branch_of p m i <> ∅ -> fuel_for fuel q (branch_of p m i).
Proof.
  intros [_ Hf] Hq%prefix_length Hu Hne. rewrite length_app in Hq. cbn in Hq.
  assert (Hk : forall k v, branch_of p m i !! k = Some v -> (length k - length q < fuel)%nat).
  { intros k v E. pose proof (Hu k v E) as Hle%prefix_length. unfold branch_of in E. rewrite lookup_sub in E.
    case_decide; [|done]. specialize (Hf k v E). lia. }
  split; [|done]. apply map_choose in Hne as (k & v & E). specialize (Hk k v E). lia.
Qed.

Lemma StorageAssociated_run fuel : forall p m info, node_at p m info -> fuel_for fuel p m ->
  exists l, StorageAssociated D pfx fuel (loc p) = Returns l /\ l ≡ₚ values m.
Proof.
  induction fuel as [|fuel IH]; intros p m info Hat Hf; [by destruct Hf; lia|]. cbn [StorageAssociated].
  rewrite (storage_load_at p m info Hat). destruct Hat as (Hn & Hl & Hu & Hk & Hd & Hi & H16 & Hlf).
  match goal with |- context [?g (seq 0 16)] => set (go := g) end.
  assert (Hgo : forall bs, Forall (fun i => i < 16)%nat bs ->
    exists l, go bs = Returns l /\ l ≡ₚ bs ≫= (fun i => values (part p m i))).
  { induction 1 as [|i bs Hlt _ (l & IHb & Hperm)]; [by exists []|]. cbn [go mbind list_bind]. fold go. rewrite IHb.
    assert (Hpart : part p m i = branch_of p m i) by (unfold part; by rewrite decide_False by lia).
    assert (Hhere : exists h, (match childtype (default Child0 (info !! i)) with
        | NONE => Returns [] | INNER => StorageAssociated D pfx fuel (sublocation (default Child0 (info !! i)))
        | LEAF => Returns [default [] (StorageGetLeaf D pfx (sublocation (default Child0 (info !! i))))]
        end) = Returns h /\ h ≡ₚ values (part p m i)).
    { rewrite Hpart. pose proof (Hi i Hlt) as Hst. destruct (childtype (default Child0 (info !! i))) eqn:Ety.
      - apply (Stored_entry pfx D) in Hst as [Hst _]. rewrite Hst by done. exists []. by rewrite values_empty.
      - destruct (node_at_inner _ _ Hst (sub_keys _ _ Hk) Ety) as (q & info' & -> & Hat & Hmax). apply IH with info'; [done|].
        apply (fuel_down fuel p m i q); [done|apply Hmax, sub_under|by destruct Hat as (_ & _ & ? & _)|].
        intros E. apply (Stored_entry pfx D) in Hst as [_ Hst]. rewrite (Hst E) in Ety. done.
      - destruct (Stored_inv pfx D _ _ Hst) as [[_ E]|[(k & v & E & Ec & Hv)|(q & info' & E & _)]]; [by rewrite E in Ety| |by rewrite E in Ety].
        rewrite E, Ec. cbn [sublocation]. unfold StorageGetLeaf. fold (lkey pfx k). rewrite Hv. exists [v]. by rewrite values_singleton. }
    destruct Hhere as (h & -> & Hh). cbn [obind]. exists (h ++ l). split; [done|]. by rewrite Hh, Hperm. }
  destruct (Hgo (seq 0 16)) as (l & -> & Hl'); [apply Forall_forall; intros i ?%elem_of_seq; lia|]. cbn [obind].
  eexists. split; [done|]. rewrite (values_parts p m Hu Hk). cbn [mbind list_bind]. rewrite Hl'. f_equiv.
  unfold part. rewrite decide_True by done. rewrite H16. cbn [default from_option id]. destruct (m !! p) as [v|] eqn:E; cbn [leaf_child].
  - rewrite values_singleton, bool_decide_true by done. unfold StorageGetLeaf. fold (lkey pfx p). by rewrite (Hlf v).
  - by rewrite values_empty.
Qed.

(** ** [GetAllItem] *)

Lemma branch_sub p m i k : p ++ [br i] `prefix_of` k -> sub k (branch_of p m i) = sub k m.
Proof. apply sub_sub. Qed.

Lemma GetAllItem_run fuel : forall p m info k, node_at p m info -> Forall nib k -> fuel_for fuel p m ->
  (2 <= size (sub k m))%nat \/ k `prefix_of` p -> 
  exists l, GetAllItem D pfx (S fuel) (loc p) (loc k) = Returns l /\ l ≡ₚ values (sub k m).
Proof.
  induction fuel as [|fuel IH]; intros p m info k Hat Hkn Hf Hsz; [by destruct Hf; lia|]. cbn [GetAllItem].
  rewrite (storage_load_at p m info Hat). pose proof Hat as (Hn & Hl & Hu & Hk & Hd & Hi & H16 & Hlf).
  rewrite (CommonPrefix_loc p k) by done. assert (Hln : Forall nib (lcp p k)) by (eapply Forall_prefix; [apply lcp_prefix_l|done]).
  case_bool_decide as Hc1.
  { apply loc_inj in Hc1; [|done|done]. rewrite sub_id; [by eapply StorageAssociated_run|].
    eapply under_weaken; [|exact Hu]. rewrite <- Hc1. apply lcp_prefix_l. }
  destruct Hsz as [Hsz|Hkp]; [|by rewrite lcp_comm, (lcp_prefix k p) in Hc1].
  assert (Hex : exists k' v, m !! k' = Some v /\ k `prefix_of` k').
  { destruct (map_choose (sub k m)) as (k' & v & E); [intros E; rewrite E, map_size_empty in Hsz; lia|].
    exists k', v. rewrite lookup_sub in E. by case_decide. }
  destruct Hex as (k' & v & Ek' & Hkk'). pose proof (Hu k' v Ek') as Hpk'.
  assert (Hpk : p `prefix_of` k).
  { destruct (prefix_weak_total p k k' Hpk' Hkk') as [?|H]; [done|]. by rewrite lcp_comm, (lcp_prefix k p) in Hc1. }
  rewrite (lcp_prefix p k) by done. rewrite bool_decide_true by done. rewrite (lcp_prefix p k) in Hc1 by done.
  destruct (path_branch p k Hkn Hpk) as (i & Hlt & Hki & Hpi); [congruence|]. rewrite (NextBranch_path p k i) by done. cbn [obind].
  pose proof (Hi i Hlt) as Hst. rewrite <- (branch_sub p m i k Hpi) in Hsz |- *.
  assert (Hty : childtype (default Child0 (info !! i)) = INNER).
  { destruct (Stored_inv pfx D _ _ Hst) as [[E _]|[(k1 & v1 & E & _)|(q & info' & -> & _)]]; [| |done]; exfalso; rewrite E in Hsz.
    - assert (Hs : size (sub k (∅ : contents)) = 0%nat) by (apply map_size_empty_iff, map_eq; intros x; rewrite lookup_sub; by case_decide). lia.
    - assert (Hs : (size (sub k ({[k1 := v1]} : contents)) <= size ({[k1 := v1]} : contents))%nat) by apply map_subseteq_size, map_filter_subseteq.
      rewrite map_size_singleton in Hs. lia. }
  destruct (node_at_inner _ _ Hst (sub_keys _ _ Hk) Hty) as (q & info' & -> & Hat' & Hmax).
  apply IH with info'; [done|done| |by left].
  apply (fuel_down fuel p m i q); [done|apply Hmax, sub_under|by destruct Hat' as (_ & _ & ? & _)|].
  intros E. apply (Stored_entry pfx D) in Hst as [_ Hst]. rewrite (Hst E) in Hty. done.
Qed.
End Scan.
