(* ===== verification/TrieSys.v ===== *)
(** * The trie over its store

    What a [KVTrie] holds after any sequence of operations, over a store and a batch it
    shares with others: a finite map from keys to values. *)
From S2P Require Import Prelude Trie TrieLoc TrieInv TrieRep TrieOps TrieHash TrieRun.

#[export] Instance nibbles_Inj : Inj (=) (=) nibbles.
Proof.
  intros k. induction k as [|c k IH]; intros [|c' k'] H; try done. cbn in H. injection H as H1 H2 H3.
  f_equal; [|by apply IH]. rewrite (Z.div_mod c 16), (Z.div_mod c' 16) by lia. congruence.
Qed.

(** The contents by key, and by path. *)
Abbreviation table := (gmap bytes bytes).
Definition paths (M : table) : contents := kmap nibbles M.
Definition bytes_keys (M : table) : Prop := forall k v, M !! k = Some v -> is_bytes k.

Lemma paths_keys M : bytes_keys M -> keys_ok (paths M).
Proof.
  intros H k v. unfold paths. intros (k' & -> & Hk')%lookup_kmap_Some; [|apply _]. by destruct (loc_nibbles k' (H k' v Hk')).
Qed.
Lemma length_nibbles k : length (nibbles k) = (2 * length k)%nat.
Proof. induction k as [|c k IH]; [done|]. cbn. rewrite IH. lia. Qed.

Section Sys.
Context `{P : TrieParams}.
Context (parse_serialize : forall info, length info = 17%nat -> ParseNode (SerializeNode info) = info).
Implicit Types (t : KVTrie) (M : table).

(** The store once the batch is written, and the batches that leave a trie alone. *)
Definition pending t : db := WriteBatch (batch_ t) (mdb_ t).
Definition foreign (pfx : bytes) (ws : list write) : Prop := touches (fun x => ~ region pfx [] x) ws.

(** ** What a trie does over its life: new over a store without records of its prefix, the
    public operations, writes of others to the shared batch, and a trie opened anew on the
    store. The flag says that no item was changed since [UpdateHash]. *)
Inductive reach : KVTrie -> table -> bool -> Prop :=
| reach_new d batch pfx depth t : (forall x, region pfx [] x -> d !! x = None) -> foreign pfx batch ->
    Init d batch pfx depth = Returns t -> reach t ∅ false
| reach_set t M s k v b t' : reach t M s -> is_bytes k -> Set_ k v t = Returns (b, t') -> reach t' (<[k := v]> M) false
| reach_delete t M s k b t' : reach t M s -> is_bytes k -> Delete k t = Returns (b, t') -> reach t' (delete k M) false
| reach_hash t M s : reach t M s -> reach (UpdateHash t) M true
| reach_flush t M s : reach t M s -> reach (AddToDB t) M s
| reach_other t M s ws : reach t M s -> foreign (prefix_ t) ws ->
    reach (MkTrie (mdb_ t) (prefix_ t) (batch_ t ++ ws) (root_ t) (root_hash_ t)) M s
| reach_get t M k o t' : reach t M true -> batch_ t = [] -> is_bytes k -> Get k t = Returns (o, t') -> reach t' M true
| reach_free t M depth : reach t M true -> batch_ t = [] -> reach (FreeMemory depth t) M true
| reach_reload t M batch depth t' : reach t M true -> batch_ t = [] -> foreign (prefix_ t) batch ->
    Init (mdb_ t) batch (prefix_ t) depth = Returns t' -> reach t' M true.

(** ** The invariant *)
Definition trie_ok t M (s : bool) : Prop :=
  bytes_keys M
  /\ Rep (prefix_ t) (mdb_ t) (pending t) (root_ t) [] (paths M)
  /\ (s = true -> Rep (prefix_ t) (mdb_ t) (pending t) (set_modified false (root_ t)) [] (paths M)
       /\ pending t !! nkey (prefix_ t) [] = Some (SerializeNode (info_ (root_ t)))).

Lemma root_region pfx : region pfx [] (nkey pfx []).
Proof. exists []. split; [done|]. left. by split. Qed.

Lemma foreign_agree pfx ws D : foreign pfx ws -> agree pfx [] D (WriteBatch ws D).
Proof.
  intros H x Hx. rewrite lookup_WriteBatch. erewrite last_write_touches; [done|exact H|]. by intros ?.
Qed.

Lemma Rep_flush pfx R W n p m : Rep pfx R W n p m -> Rep pfx W W n p m.
Proof.
  induction 1 as [n p m qs Hsh Hlf Hun _ IH Hld]. apply (Rep_node pfx W W n p m qs); try done.
  intros i Hi. destruct (Hun i Hi) as (_ & U2 & U3). by split_and!.
Qed.

Lemma fresh_root_Rep pfx R W : (forall x, region pfx [] x -> W !! x = None) -> Rep pfx R W (new_node rootl) [] ∅.
Proof.
  intros HW. apply Rep_intro.
  - by split_and!.
  - split; [|done]. cbn. split; [done|]. intros _. apply HW. exists []. split; [done|]. right. split; [split; [done|by exists 0%nat]|done].
  - intros i Hi. apply lookup_replicate in Hi as [_ Hi]. apply unloaded_empty; [apply branch_empty| |].
    + unfold info_at. by rewrite new_node_info by lia.
    + intros k Hk _. apply HW. exists k. split; [apply prefix_nil|]. by right.
  - intros i c Hc. by apply lookup_replicate in Hc as [? _].
Qed.

(** Opening a trie over a store that holds one, up to date. *)
Lemma Init_run pfx d batch depth root M : Rep pfx d d root [] (paths M) -> modified_ root = false ->
  d !! nkey pfx [] = Some (SerializeNode (info_ root)) ->
  exists n, Init d batch pfx depth = Returns (MkTrie d pfx batch n []) /\ clean pfx d n [] (paths M) /\ info_ n = info_ root.
Proof.
  intros HR Hm Hd. pose proof (Rep_inv _ _ _ _ _ _ HR) as ((_ & _ & _ & Hli & Hu & Hk) & [_ Hlf] & _).
  destruct (Hlf Hm) as [H16 _]. pose proof (Rep_clean _ _ _ _ _ _ HR Hm) as [Hst _]. pose proof (Rep_leaves _ _ _ _ _ _ HR Hm) as HL.
  unfold Init, storage_load. fold (nkey pfx []). change (Location2DBkey pfx rootl false) with (nkey pfx []). rewrite Hd.
  cbn [fmap option_fmap option_map]. rewrite parse_serialize by done.
  destruct (Load_run pfx parse_serialize d (Z.to_nat (depth + 1)) (set_node_info (info_ root) (new_node rootl)) [] (paths M)) as (n & -> & Hcl & _ & Hi).
  { apply (inner_frame_Rep pfx d d [] [] (paths M) (info_ root)); try done.
    apply info_at_Some; [done|lia|done]. }
  by exists n.
Qed.

Lemma Init_fresh pfx d batch depth : (forall x, region pfx [] x -> d !! x = None) ->
  Init d batch pfx depth = Returns (MkTrie d pfx batch (new_node rootl) []).
Proof.
  intros Hd. unfold Init, storage_load. change (Location2DBkey pfx rootl false) with (nkey pfx []). by rewrite Hd by apply root_region.
Qed.

(** ** The operations keep the invariant *)

Lemma key_path k : is_bytes k -> key (nibbles k) /\ Key2Location k = loc (nibbles k) /\ (length (nibbles k) - 0 < depth_of (loc (nibbles k)))%nat.
Proof.
  intros Hk. destruct (loc_nibbles k Hk) as (Hl & Hn & He). split_and!; [by split|done|]. rewrite Hl. unfold depth_of, Key2Location.
  rewrite length_nibbles. cbn [length]. lia.
Qed.

Lemma Set_ok t M s k v : trie_ok t M s -> is_bytes k ->
  exists b t', Set_ k v t = Returns (b, t') /\ trie_ok t' (<[k := v]> M) false.
Proof.
  intros (Hb & HR & _) Hk. destruct (key_path k Hk) as (Hkey & Hloc & Hf). unfold Set_. rewrite Hloc.
  destruct (SetItem_run (prefix_ t) (mdb_ t) (pending t) parse_serialize (depth_of (loc (nibbles k))) (root_ t) [] (paths M) (nibbles k) v HR Hkey)
    as (b & n & -> & HR' & _); [apply prefix_nil|done|]. cbn [obind fst snd]. eexists b, _. split; [done|]. split_and!; [|..|done].
  - intros k' v'. destruct (decide (k = k')) as [<-|Hne]; [done|]. rewrite lookup_insert_ne by done. apply Hb.
  - unfold paths. rewrite kmap_insert by apply _. exact HR'.
Qed.

Lemma Delete_ok t M s k : trie_ok t M s -> is_bytes k ->
  exists b t', Delete k t = Returns (b, t') /\ trie_ok t' (delete k M) false /\ (b = false -> M !! k = None).
Proof.
  intros (Hb & HR & _) Hk. destruct (key_path k Hk) as (Hkey & Hloc & Hf). unfold Delete. rewrite Hloc.
  destruct (DeleteItem_run (prefix_ t) (mdb_ t) (pending t) parse_serialize (depth_of (loc (nibbles k))) (root_ t) [] (paths M) (nibbles k) HR Hkey)
    as (b & n & -> & HR' & _ & _ & Hnone); [apply prefix_nil|done|]. cbn [obind fst snd]. eexists b, _. split; [done|]. split; [split_and!; [|..|done]|].
  - intros k' v' [_ ?]%lookup_delete_Some. by eapply Hb.
  - unfold paths. rewrite kmap_delete by apply _. exact HR'.
  - intros ->. rewrite <- (lookup_kmap nibbles). by apply Hnone.
Qed.

Lemma pending_flushed t : batch_ t = [] -> pending t = mdb_ t.
Proof. unfold pending. by intros ->. Qed.

Lemma Get_ok t M k : trie_ok t M true -> batch_ t = [] -> is_bytes k ->
  exists t', Get k t = Returns (M !! k, t') /\ trie_ok t' M true.
Proof.
  intros (Hb & _ & Hs) Hbt Hk. destruct (Hs eq_refl) as [HR Hd]. unfold pending in *. rewrite Hbt in *. cbn [WriteBatch foldl] in *.
  destruct (key_path k Hk) as (Hkey & Hloc & Hf). unfold Get. rewrite Hloc.
  destruct (Exists_run (prefix_ t) parse_serialize (mdb_ t) (depth_of (loc (nibbles k))) (root_ t) [] (paths M) (nibbles k) HR Hkey)
    as (b & n & -> & Hcl & Hm & Hi & Hnone); [apply prefix_nil|done|]. cbn [obind fst snd].
  assert (Hlk : mdb_ t !! lkey (prefix_ t) (nibbles k) = M !! k).
  { rewrite (Rep_leaves _ _ _ _ _ _ HR eq_refl (nibbles k) Hkey) by apply prefix_nil. unfold paths. by rewrite lookup_kmap by apply _. }
  exists (set_root n t). split.
  - destruct b; cbn [negb]; [unfold StorageGetLeaf; cbn [set_root mdb_ prefix_]; fold (lkey (prefix_ t) (nibbles k)); by rewrite Hlk|].
    rewrite <- (lookup_kmap nibbles). unfold paths in Hnone. by rewrite Hnone.
  - unfold trie_ok, pending. cbn [set_root mdb_ prefix_ batch_ root_]. rewrite Hbt. cbn [WriteBatch foldl]. split_and!; [done|by apply clean_Rep|].
    intros _. split; [done|]. by rewrite Hi.
Qed.

Lemma UpdateHash_ok t M s : trie_ok t M s ->
  trie_ok (UpdateHash t) M true
  /\ GetRootHash (UpdateHash t) = HashCrypto (SerializeNode (info_ (root_ (UpdateHash t)))).
Proof.
  intros (Hb & HR & _). unfold UpdateHash. pose proof (update_hash_spec _ _ _ _ _ _ HR) as Hh.
  destruct (update_hash (prefix_ t) (root_ t)) as [[r n] ws]. destruct Hh as (_ & HR' & Hm & _ & Hroot).
  destruct (Hroot eq_refl) as [-> Hd]. unfold trie_ok, pending, GetRootHash. cbn [mdb_ prefix_ batch_ root_ root_hash_ hash].
  assert (E : WriteBatch (batch_ t ++ ws) (mdb_ t) = WriteBatch ws (pending t)) by (unfold WriteBatch; apply foldl_app). rewrite E.
  split_and!; [done|done| |done]. intros _. split; [|done]. destruct n; cbn in Hm; by subst.
Qed.

Lemma other_ok t M s ws : trie_ok t M s -> foreign (prefix_ t) ws ->
  trie_ok (MkTrie (mdb_ t) (prefix_ t) (batch_ t ++ ws) (root_ t) (root_hash_ t)) M s.
Proof.
  intros (Hb & HR & Hs) Hf. unfold trie_ok, pending. cbn [mdb_ prefix_ batch_ root_].
  assert (E : WriteBatch (batch_ t ++ ws) (mdb_ t) = WriteBatch ws (pending t)) by (unfold WriteBatch; apply foldl_app). rewrite E.
  pose proof (foreign_agree _ _ (pending t) Hf) as Hag. split_and!; [done|by eapply Rep_frame|]. intros Hst. destruct (Hs Hst) as [H1 H2].
  split; [by eapply Rep_frame|]. by rewrite Hag by apply root_region.
Qed.

Lemma AddToDB_ok t M s : trie_ok t M s -> trie_ok (AddToDB t) M s.
Proof.
  intros (Hb & HR & Hs). unfold trie_ok, pending, AddToDB. cbn [mdb_ prefix_ batch_ root_ WriteBatch foldl]. fold (WriteBatch (batch_ t) (mdb_ t)) (pending t).
  split_and!; [done|by eapply Rep_flush|]. intros Hst. destruct (Hs Hst) as [H1 H2]. split; [by eapply Rep_flush|done].
Qed.

Lemma Release_flag n b d : Release (set_modified b n) d = set_modified b (Release n d).
Proof. by destruct n. Qed.
Lemma Release_info n d : info_ (Release n d) = info_ n.
Proof. by destruct n. Qed.

Lemma FreeMemory_ok t M depth : trie_ok t M true -> batch_ t = [] -> trie_ok (FreeMemory depth t) M true.
Proof.
  intros (Hb & _ & Hs) Hbt. destruct (Hs eq_refl) as [HR Hd]. unfold trie_ok, pending, FreeMemory in *. cbn [set_root mdb_ prefix_ batch_ root_].
  rewrite Hbt in *. cbn [WriteBatch foldl] in *. apply (Release_Rep _ _ _ _ _ depth) in HR; [|done]. rewrite Release_flag in HR.
  split_and!; [done|by apply clean_Rep|]. intros _. by rewrite Release_info.
Qed.

Lemma Init_ok t M batch depth : trie_ok t M true -> batch_ t = [] -> foreign (prefix_ t) batch ->
  exists t', Init (mdb_ t) batch (prefix_ t) depth = Returns t' /\ trie_ok t' M true.
Proof.
  intros (Hb & _ & Hs) Hbt Hf. destruct (Hs eq_refl) as [HR Hd]. rewrite pending_flushed in * by done.
  destruct (Init_run (prefix_ t) (mdb_ t) batch depth (set_modified false (root_ t)) M HR eq_refl Hd) as (n & -> & Hcl & Hi). eexists. split; [done|].
  pose proof (foreign_agree _ _ (mdb_ t) Hf) as Hag. unfold trie_ok, pending. cbn [mdb_ prefix_ batch_ root_]. split_and!; [done| |].
  - eapply Rep_frame; [by apply clean_Rep|done].
  - intros _. split; [by eapply Rep_frame|]. by rewrite Hag, Hi by apply root_region.
Qed.

Theorem reach_ok t M s : reach t M s -> trie_ok t M s.
Proof.
  induction 1 as [d batch pfx depth t Hd Hf HI|t M s k v b t' _ IH Hk Hrun|t M s k b t' _ IH Hk Hrun|t M s _ IH|t M s _ IH
    |t M s ws _ IH Hf|t M k o t' _ IH Hbt Hk Hrun|t M depth _ IH Hbt|t M batch depth t' _ IH Hbt Hf Hrun].
  - rewrite Init_fresh in HI by done. injection HI as <-. split_and!; [done| |done]. apply fresh_root_Rep. unfold pending. cbn [mdb_ batch_].
    intros x Hx. rewrite (foreign_agree pfx batch d Hf x Hx). by apply Hd.
  - destruct (Set_ok t M s k v IH Hk) as (b' & t1 & E & H). rewrite Hrun in E. by injection E as <- <-.
  - destruct (Delete_ok t M s k IH Hk) as (b' & t1 & E & H & _). rewrite Hrun in E. by injection E as <- <-.
  - by apply (UpdateHash_ok t M s).
  - by apply AddToDB_ok.
  - by apply other_ok.
  - destruct (Get_ok t M k IH Hbt Hk) as (t1 & E & H). rewrite Hrun in E. by injection E as -> <-.
  - by apply FreeMemory_ok.
  - destruct (Init_ok t M batch depth IH Hbt Hf) as (t1 & E & H). rewrite Hrun in E. by injection E as <-.
Qed.
End Sys.
