(* ===== verification/TrieFacts.v ===== *)
(** * What the trie guarantees

    The theorems on [KVTrie]: it is a map with a round trip through the store, its root hash
    depends on the contents alone and determines them, and a scan lists what it
    should; and two defects of the scan by prefix and of the node query. *)
From S2P Require Import Prelude Trie TrieLoc TrieInv TrieRep TrieOps TrieHash TrieRun TrieSys.

(** ** Hashes determine contents *)
Section Auth.
Context `{P : TrieParams} {HashCrypto_Inj : Inj (=) (=) HashCrypto}.
Context (parse_serialize : forall info, length info = 17%nat -> ParseNode (SerializeNode info) = info).
Implicit Types (p q k : path) (m : contents).

Lemma SerializeNode_inj info info' : length info = 17%nat -> length info' = 17%nat -> SerializeNode info = SerializeNode info' -> info = info'.
Proof. intros H1 H2 H. rewrite <- (parse_serialize info), <- (parse_serialize info') by done. by rewrite H. Qed.

Lemma leaf_child_inj p o o' : leaf_child p o = leaf_child p o' -> o = o'.
Proof.
  destruct o as [v|], o' as [v'|]; cbn; intros H; try done. apply (f_equal hash) in H. cbn in H.
  by apply HashCrypto_Inj in H as ->.
Qed.

Lemma parts_eq p m m' : under p m -> under p m' -> keys_ok m -> keys_ok m' ->
  m !! p = m' !! p -> (forall i, (i < 16)%nat -> branch_of p m i = branch_of p m' i) -> m = m'.
Proof.
  intros Hu Hu' Hk Hk' Hp Hb. apply map_eq. intros k.
  assert (H : forall m1 m2 v, under p m1 -> keys_ok m1 -> m1 !! p = m2 !! p ->
    (forall i, (i < 16)%nat -> branch_of p m1 i = branch_of p m2 i) -> m1 !! k = Some v -> m2 !! k = Some v).
  { intros m1 m2 v U K E B H. destruct (decide (p = k)) as [<-|Hne]; [congruence|].
    destruct (path_branch p k) as (i & Hi & _ & Hpi); [by eapply K|by eapply U|done|].
    assert (E1 : branch_of p m1 i !! k = Some v) by (unfold branch_of; by rewrite lookup_sub, decide_True).
    rewrite B in E1 by done. unfold branch_of in E1. by rewrite lookup_sub, decide_True in E1. }
  destruct (m !! k) as [v|] eqn:E; [symmetry; by apply (H m m')|]. destruct (m' !! k) as [v|] eqn:E'; [|done].
  rewrite <- E. apply (H m' m); try done. intros i Hi. symmetry. by apply Hb.
Qed.

Lemma Stored_auth pfx pfx' D D' m m' c : Stored pfx D m c -> Stored pfx' D' m' c -> keys_ok m -> keys_ok m' -> m = m'.
Proof.
  intros H. revert m'. induction H as [|k v _|p m info Hn Hl Hu _ Hlen Hi IH H16 _]; intros m'
    [[-> E]|[(k2 & v2 & -> & E & _)|(p2 & info2 & E & Hn2 & Hl2 & Hu2 & _ & Hs2 & Hi2 & H162 & _)]]%Stored_inv Hk Hk'; try done.
  - pose proof (f_equal sublocation E) as El. pose proof (f_equal hash E) as Eh. cbn [sublocation hash] in El, Eh.
    apply HashCrypto_Inj in Eh as ->. apply loc_inj in El as ->; [done|by eapply Hk, lookup_singleton_eq|by eapply Hk', lookup_singleton_eq].
  - pose proof (f_equal sublocation E) as El. pose proof (f_equal hash E) as Eh. cbn [sublocation hash] in El, Eh.
    apply loc_inj in El as ->; [|done|done]. apply HashCrypto_Inj, SerializeNode_inj in Eh as ->; [|done|done].
    apply (parts_eq p2); try done.
    + rewrite H16 in H162. injection H162 as H162. by apply leaf_child_inj in H162.
    + intros i Hlt. apply (IH i Hlt); [by apply Hi2|by apply sub_keys|by apply sub_keys].
Qed.
End Auth.

Section Facts.
Context `{P : TrieParams}.
Context (parse_serialize : forall info, length info = 17%nat -> ParseNode (SerializeNode info) = info).
Implicit Types (t : KVTrie) (M : table).

(** The root of a trie that was just hashed. *)
Lemma hashed_root t M s : reach t M s -> let t' := UpdateHash t in
  GetRootHash t' = HashCrypto (SerializeNode (info_ (root_ t'))) /\ length (info_ (root_ t')) = 17%nat
  /\ info_ (root_ t') !! 16%nat = Some (leaf_child [] (paths M !! []))
  /\ (forall i, (i < 16)%nat -> Stored (prefix_ t) (pending t') (branch_of [] (paths M) i) (default Child0 (info_ (root_ t') !! i)))
  /\ keys_ok (paths M).
Proof.
  intros Hr t'. destruct (UpdateHash_ok t M s (reach_ok parse_serialize t M s Hr)) as ((Hb & _ & Hs) & Hh).
  destruct (Hs eq_refl) as [HR _]. fold t' in HR, Hh. assert (Hp : prefix_ t' = prefix_ t) by (unfold t', UpdateHash; by case_match; case_match).
  rewrite Hp in HR. pose proof (Rep_inv _ _ _ _ _ _ HR) as ((_ & _ & _ & Hli & _) & [_ Hlf] & _). destruct (Hlf eq_refl) as [H16 _].
  pose proof (Rep_clean _ _ _ _ _ _ HR eq_refl) as [Hst _]. split_and!; [done|done| |exact Hst|by apply paths_keys].
  apply (info_at_Some (root_ t')); [exact Hli|lia|exact H16].
Qed.

Lemma paths_inj M M' : paths M = paths M' -> M = M'.
Proof.
  intros H. apply map_eq. intros k. rewrite <- (lookup_kmap nibbles M), <- (lookup_kmap nibbles M'). fold (paths M) (paths M'). by rewrite H.
Qed.

(** C14: What a trie held is what can be read back from it once it was hashed and its batch written:
    the value last set under the key, or nothing, whatever the operations before. *)
Theorem trie_get t M s k : reach t M s -> is_bytes k ->
  exists t', Get k (AddToDB (UpdateHash t)) = Returns (M !! k, t') /\ reach t' M true.
Proof.
  intros Hr Hk. pose proof (reach_flush _ _ _ (reach_hash _ _ _ Hr)) as Hr'.
  destruct (Get_ok parse_serialize _ M k (reach_ok parse_serialize _ _ _ Hr') eq_refl Hk) as (t' & E & _).
  exists t'. split; [done|]. by eapply reach_get.
Qed.

(** C15: On every trie that can arise, setting and deleting an item return, and so does opening
    the store again to any depth once the trie was hashed and written: no operation runs
    into a node missing from the store or an index out of range. [Delete] says that there
    was nothing to delete only if so. *)
Theorem trie_operations_return t M s k v depth : reach t M s -> is_bytes k ->
  (exists b t', Set_ k v t = Returns (b, t'))
  /\ (exists b t', Delete k t = Returns (b, t') /\ (b = false -> M !! k = None))
  /\ (exists t', Init (mdb_ (AddToDB (UpdateHash t))) [] (prefix_ t) depth = Returns t' /\ reach t' M true).
Proof.
  intros Hr Hk. pose proof (reach_ok parse_serialize _ _ _ Hr) as Hok. split_and!.
  - destruct (Set_ok parse_serialize t M s k v Hok Hk) as (b & t' & E & _). by exists b, t'.
  - destruct (Delete_ok parse_serialize t M s k Hok Hk) as (b & t' & E & _ & Hb). by exists b, t'.
  - pose proof (reach_flush _ _ _ (reach_hash _ _ _ Hr)) as Hr'. pose proof (reach_ok parse_serialize _ _ _ Hr') as Hok'.
    assert (Hp : prefix_ (AddToDB (UpdateHash t)) = prefix_ t) by (unfold AddToDB, UpdateHash; cbn; by case_match; case_match).
    assert (Hf : foreign (prefix_ (AddToDB (UpdateHash t))) []) by constructor.
    destruct (Init_ok parse_serialize _ M [] depth Hok' eq_refl Hf) as (t' & E & _). rewrite Hp in E. exists t'. split; [done|].
    eapply (reach_reload _ M [] depth t' Hr' eq_refl Hf). by rewrite Hp.
Qed.

(** C13: The root hash depends on the contents alone: two tries with the same contents have
    the same root hash, whatever the operations, flushes, reloads and freed nodes that led
    there, and over whatever stores and prefixes. *)
Theorem trie_root_canonical t1 t2 M s1 s2 : reach t1 M s1 -> reach t2 M s2 ->
  GetRootHash (UpdateHash t1) = GetRootHash (UpdateHash t2).
Proof.
  intros H1 H2. destruct (hashed_root t1 M s1 H1) as (-> & L1 & E1 & S1 & _), (hashed_root t2 M s2 H2) as (-> & L2 & E2 & S2 & _).
  do 2 f_equal. apply (list_eq_same_length _ _ 17%nat); [done|done|]. intros i x y Hlt Hx Hy.
  destruct (decide (i = 16)%nat) as [->|]; [congruence|]. specialize (S1 i ltac:(lia)). specialize (S2 i ltac:(lia)).
  rewrite Hx in S1. rewrite Hy in S2. by eapply Stored_det.
Qed.

(** The root hash authenticates the contents: where hashing has no collisions, two tries
    with the same root hash hold the same items. *)
Theorem trie_authenticates t1 t2 M1 M2 s1 s2 : Inj (=) (=) HashCrypto -> reach t1 M1 s1 -> reach t2 M2 s2 ->
  GetRootHash (UpdateHash t1) = GetRootHash (UpdateHash t2) -> M1 = M2.
Proof.
  intros Hinj H1 H2 Hh. destruct (hashed_root t1 M1 s1 H1) as (E1 & L1 & P1 & S1 & K1), (hashed_root t2 M2 s2 H2) as (E2 & L2 & P2 & S2 & K2).
  rewrite E1, E2 in Hh. apply Hinj, SerializeNode_inj in Hh; [|done..]. apply paths_inj. apply (parts_eq []); try done.
  - intros k v _. apply prefix_nil.
  - intros k v _. apply prefix_nil.
  - rewrite Hh, P2 in P1. injection P1 as P1. by apply (leaf_child_inj (P := P)) in P1.
  - intros i Hi. specialize (S1 i Hi). specialize (S2 i Hi). rewrite Hh in S1.
    eapply (Stored_auth parse_serialize); [exact S1|exact S2|by apply sub_keys|by apply sub_keys].
Qed.

(** ** Scanning by prefix *)

Lemma prefix_nibbles k k' : nibbles k `prefix_of` nibbles k' <-> k `prefix_of` k'.
Proof.
  split.
  - revert k'. induction k as [|c k IH]; intros [|c' k'] H; try apply prefix_nil.
    + by apply prefix_nil_inv in H.
    + cbn in H. pose proof H as H0. apply prefix_cons_inv_1 in H as H1. apply prefix_cons_inv_2, prefix_cons_inv_1 in H as H2.
      apply prefix_cons_inv_2, prefix_cons_inv_2, IH in H0. rewrite (Z.div_mod c 16), (Z.div_mod c' 16), H1, H2 by lia. by apply prefix_cons.
  - intros [r ->]. exists (nibbles r). induction k as [|c k IH]; [done|]. cbn. by rewrite IH.
Qed.

(** The items under a prefix. *)
Definition matching (k : bytes) M : table := filter (fun kv => k `prefix_of` kv.1) M.

Lemma sub_paths k M : sub (nibbles k) (paths M) = paths (matching k M).
Proof.
  apply map_eq. intros x. rewrite lookup_sub. apply option_eq. intros v. unfold paths, matching.
  rewrite lookup_kmap_Some by apply _. setoid_rewrite map_lookup_filter_Some. case_decide as Hx.
  - rewrite lookup_kmap_Some by apply _. split.
    + intros (j & -> & E). exists j. split_and!; try done. by apply prefix_nibbles.
    + intros (j & -> & E & _). by exists j.
  - split; [done|]. intros (j & -> & _ & Hp). exfalso. by apply Hx, prefix_nibbles.
Qed.

Lemma values_paths M : values (paths M) ≡ₚ (map_to_list M).*2.
Proof.
  unfold values, paths, kmap. rewrite map_to_list_to_map.
  - rewrite <- list_fmap_compose. done.
  - assert (E : (prod_map nibbles id <$> map_to_list M).*1 = nibbles <$> (map_to_list M).*1) by (by rewrite <- !list_fmap_compose).
    rewrite E. apply NoDup_fmap_2; [apply _|]. apply NoDup_fst_map_to_list.
Qed.

Lemma size_paths M : size (paths M) = size M.
Proof. pose proof (Permutation_length (values_paths M)) as H. unfold values in H. rewrite !length_fmap, !length_map_to_list in H. exact H. Qed.

(** A scan of the store lists the values of the items whose keys extend a prefix, each item
    once, if the prefix is empty or at least two items match. The recursion ends: fuel
    beyond the length of the longest key in nibbles is enough. *)
Theorem trie_getall t M s k fuel : reach t M s -> is_bytes k ->
  (forall k' v, M !! k' = Some v -> 2 * length k' + 1 < fuel)%nat -> (1 < fuel)%nat ->
  k = [] \/ (2 <= size (matching k M))%nat ->
  exists l, GetAll fuel k (AddToDB (UpdateHash t)) = Returns l /\ l ≡ₚ (map_to_list (matching k M)).*2.
Proof.
  intros Hr Hk Hf Hf1 Hsz. set (t1 := AddToDB (UpdateHash t)).
  pose proof (reach_ok parse_serialize t1 M true (reach_flush _ _ _ (reach_hash _ _ _ Hr))) as (Hb & _ & Hs).
  destruct (Hs eq_refl) as [HR Hd]. rewrite pending_flushed in HR, Hd by done.
  pose proof (Rep_inv _ _ _ _ _ _ HR) as ((_ & _ & _ & Hli & Hu & Hkk) & [_ Hlf] & _). destruct (Hlf eq_refl) as [H16 _].
  pose proof (Rep_clean _ _ _ _ _ _ HR eq_refl) as [Hst _]. pose proof (Rep_leaves _ _ _ _ _ _ HR eq_refl) as HL.
  assert (Hat : node_at (prefix_ t1) (mdb_ t1) [] (paths M) (info_ (root_ t1))).
  { split_and!; try done.
    - apply (info_at_Some (root_ t1)); [exact Hli|lia|exact H16].
    - intros v Hv. rewrite HL; [done|by eapply Hkk|done]. }
  destruct (loc_nibbles k Hk) as (Hloc & Hnib & _). destruct fuel as [|fuel]; [lia|]. unfold GetAll. rewrite <- Hloc.
  destruct (GetAllItem_run (prefix_ t1) (mdb_ t1) parse_serialize fuel [] (paths M) (info_ (root_ t1)) (nibbles k) Hat Hnib) as (l & E & Hl).
  - split; [lia|]. intros k' v. unfold paths. intros (j & -> & E)%lookup_kmap_Some; [|apply _]. apply Hf in E. rewrite length_nibbles. cbn. lia.
  - rewrite sub_paths, size_paths. destruct Hsz as [->|?]; [by right|by left].
  - exists l. split; [exact E|]. by rewrite Hl, sub_paths, values_paths.
Qed.
End Facts.

(** ** A concrete store

    Nodes serialized as one number, and hashing without compression. *)
#[export] Instance CHILDTYPE_countable : Countable CHILDTYPE :=
  inj_countable' (fun t => match t with NONE => 0%nat | INNER => 1%nat | LEAF => 2%nat end)
    (fun n => match n with 0%nat => NONE | 1%nat => INNER | _ => LEAF end) ltac:(by intros []).
#[export] Instance Child_countable : Countable Child :=
  inj_countable' (fun c => (sublocation c, hash c, childtype c)) (fun x => MkChild x.1.1 x.1.2 x.2) ltac:(by intros []).

Module Sample.
#[export] Instance params : TrieParams := {|
  HashCrypto := fun x => x;
  SerializeNode := fun info => [Zpos (encode info)];
  ParseNode := fun b => match b with [Zpos x] => default [] (decode x) | _ => [] end |}.

Lemma parse_serialize info : length info = 17%nat -> ParseNode (SerializeNode info) = info.
Proof. intros _. cbn [ParseNode SerializeNode params]. by rewrite decode_encode. Qed.

Definition run {A} (d : A) (o : outcome A) : A := match o with Returns a => a | Throws _ => d end.
Definition empty : KVTrie := MkTrie ∅ [97] [] (new_node rootl) [].
Definition put (k v : bytes) (t : KVTrie) : KVTrie := (run (false, t) (Set_ k v t)).2.
Definition filled : KVTrie := put [18; 53] [3] (put [18; 52] [2] (put [32] [1] empty)).
Definition items : table := <[[18; 53] := [3]]> (<[[18; 52] := [2]]> (<[[32] := [1]]> ∅)).

Lemma empty_reach : reach empty ∅ false.
Proof. eapply (reach_new ∅ [] [97] 4); [by intros x _|constructor|reflexivity]. Qed.
Lemma put_reach t M s k v : reach t M s -> is_bytes k -> reach (put k v t) (<[k := v]> M) false.
Proof.
  intros Hr Hk. destruct (Set_ok parse_serialize t M s k v (reach_ok parse_serialize _ _ _ Hr) Hk) as (b & t' & E & _).
  unfold put. rewrite E. by eapply reach_set.
Qed.
Definition del (k : bytes) (t : KVTrie) : KVTrie := (run (false, t) (Delete k t)).2.
Lemma del_reach t M s k : reach t M s -> is_bytes k -> reach (del k t) (delete k M) false.
Proof.
  intros Hr Hk. destruct (Delete_ok parse_serialize t M s k (reach_ok parse_serialize _ _ _ Hr) Hk) as (b & t' & E & _).
  unfold del. rewrite E. by eapply reach_delete.
Qed.

Lemma filled_reach : reach filled items false.
Proof. repeat (eapply put_reach; [|by repeat constructor]). exact empty_reach. Qed.

(** The same items, set in another order, with one more that is deleted again after a flush. *)
Definition other_route : KVTrie :=
  put [32] [1] (put [18; 53] [3] (del [18] (AddToDB (UpdateHash (put [18] [9] (put [18; 52] [2] (put [18; 53] [8] empty))))))).

Lemma other_route_reach : reach other_route items false.
Proof.
  assert (E : items = <[[32] := [1]]> (<[[18; 53] := [3]]> (delete [18] (<[[18] := [9]]> (<[[18; 52] := [2]]> (<[[18; 53] := [8]]> ∅))))))
    by (vm_compute; reflexivity).
  rewrite E. eapply put_reach; [|by repeat constructor]. eapply put_reach; [|by repeat constructor]. eapply del_reach; [|by repeat constructor].
  eapply reach_flush, reach_hash. repeat (eapply put_reach; [|by repeat constructor]). exact empty_reach.
Qed.
End Sample.

Import Sample.

Lemma trie_get_witness : is_bytes [18; 52] /\ exists t', Get [18; 52] (AddToDB (UpdateHash filled)) = Returns (Some [2], t') /\ reach t' items true.
Proof.
  split; [by repeat constructor|]. change (Some [2]) with (items !! [18; 52]).
  apply (trie_get parse_serialize filled items false [18; 52] filled_reach). by repeat constructor.
Defined.

Lemma trie_operations_return_witness :
  (exists b t', Set_ [18] [7] filled = Returns (b, t'))
  /\ (exists b t', Delete [18] filled = Returns (b, t') /\ (b = false -> items !! [18] = None))
  /\ (exists t', Init (mdb_ (AddToDB (UpdateHash filled))) [] (prefix_ filled) 4 = Returns t' /\ reach t' items true).
Proof. apply (trie_operations_return parse_serialize filled items false [18] [7] 4 filled_reach). by repeat constructor. Defined.

Lemma trie_root_canonical_witness : GetRootHash (UpdateHash filled) = GetRootHash (UpdateHash other_route).
Proof. apply (trie_root_canonical parse_serialize filled other_route items false false filled_reach other_route_reach). Defined.

Lemma trie_authenticates_witness : items = items.
Proof.
  apply (trie_authenticates parse_serialize filled other_route items items false false); [by intros x y|exact filled_reach|exact other_route_reach|].
  vm_compute. reflexivity.
Defined.

Lemma trie_getall_witness : exists l, GetAll 6 [18] (AddToDB (UpdateHash filled)) = Returns l /\ l ≡ₚ (map_to_list (matching [18] items)).*2.
Proof.
  apply (trie_getall parse_serialize filled items false [18] 6 filled_reach); [by repeat constructor| |lia|right; vm_compute; lia].
  intros k' v Hk. unfold items in Hk. repeat (apply lookup_insert_Some in Hk as [[<- _]|[_ Hk]]; [cbn; lia|]). by rewrite lookup_empty in Hk.
Defined.

(** ** Two defects *)

(** A location above a node, but not the node's own, has no next nibble. *)
Lemma getNode_above (D : db) (pfx : bytes) fuel n (k q : path) : location_ n = loc q -> key k -> Forall nib q -> k `prefix_of` q -> k <> q ->
  getNode D pfx (S fuel) n (loc k) = Throws RangeError.
Proof.
  intros Hl [Hk He] Hq Hp Hne. cbn [getNode]. rewrite Hl. rewrite bool_decide_false by (intros E%loc_inj; congruence).
  rewrite (CommonPrefix_loc k q), (lcp_prefix k q) by done. unfold NextBranch, at_.
  assert (Ho : forall x, loc k !! 0%nat = Some x -> x = EVEN_PREFIX).
  { unfold loc. cbn. intros x [= <-]. apply Nat.even_spec in He as ->. done. }
  destruct (loc k !! 0%nat) as [x|] eqn:E; [|done]. rewrite (Ho x eq_refl). cbn [obind EVEN_PREFIX ODD_PREFIX Z.eqb].
  by rewrite (lookup_ge_None_2 (loc k)) by lia.
Qed.

(** A scan for a prefix with one match finds nothing: the walk ends at the entry of a leaf and
    looks for an inner node there, so that the scan for the full key of a stored item is
    empty while [Get] finds the item. And the node query throws out of range at a location
    that lies between two nodes. *)
Theorem trie_query_defects :
  let t := AddToDB (UpdateHash filled) in
  items !! [32] = Some [1] /\ (exists t', Get [32] t = Returns (Some [1], t')) /\ GetAll 6 [32] t = Returns []
  /\ GetNode [EVEN_PREFIX; 18] t = Throws RangeError
  /\ (forall n fuel k q, location_ n = loc q -> key k -> Forall nib q -> k `prefix_of` q -> k <> q ->
       getNode (mdb_ t) (prefix_ t) (S fuel) n (loc k) = Throws RangeError).
Proof.
  intros t. split_and!; [reflexivity|eexists; vm_compute; reflexivity|vm_compute; reflexivity|vm_compute; reflexivity|].
  intros n fuel k q. apply getNode_above.
Qed.
