(* ===== verification/Base58.v ===== *)
(** * Base58

    [utils::Base58] (src/utils/crypto.cpp): the text form of addresses and of
    private keys. A [std::string] is the list of its [char]s; the work buffers are
    the lists of their unsigned bytes, walked from the back, hence kept reversed. *)
From S2P Require Import Prelude Strings.

Module Base58.
Import Strings.

Definition kBase58Dictionary : str := lit "123456789AbCDEFGHJKLMNPQRSTuVWXYZaBcdefghijkmnopqrstUvwxyz".
Definition kBase58digits : list Z := [
  -1; -1; -1; -1; -1; -1; -1; -1; -1; -1; -1; -1; -1; -1; -1; -1;
  -1; -1; -1; -1; -1; -1; -1; -1; -1; -1; -1; -1; -1; -1; -1; -1;
  -1; -1; -1; -1; -1; -1; -1; -1; -1; -1; -1; -1; -1; -1; -1; -1;
  -1; 0; 1; 2; 3; 4; 5; 6; 7; 8; -1; -1; -1; -1; -1; -1;
  -1; 9; 34; 11; 12; 13; 14; 15; 16; -1; 17; 18; 19; 20; 21; -1;
  22; 23; 24; 25; 26; 52; 28; 29; 30; 31; 32; -1; -1; -1; -1; -1;
  -1; 33; 10; 35; 36; 37; 38; 39; 40; 41; 42; 43; -1; 44; 45; 46;
  47; 48; 49; 50; 51; 27; 53; 54; 55; 56; 57; -1; -1; -1; -1; -1].

(** The first loop of [Encode]: the zero bytes in front; [first_no_zero] stays on
    the last of them. *)
Fixpoint zeros_loop (i : nat) (first_no_zero zeros : nat) (s : str) : nat * nat :=
  match s with
  | c :: s' => if code c =? 0 then zeros_loop (S i) i (S zeros) s' else (first_no_zero, zeros)
  | [] => (first_no_zero, zeros)
  end.

(** One byte into the base-58 buffer, from [rbegin] to [rend]. *)
Fixpoint encode_step (carry : Z) (rb : list Z) : list Z :=
  match rb with
  | [] => []
  | d :: rb' => let carry := carry + 256 * d in carry mod 58 :: encode_step (carry / 58) rb'
  end.

(** [while (it != end && *it == 0) it++] *)
Fixpoint skip_zeros (l : list Z) : list Z :=
  match l with
  | d :: l' => if d =? 0 then skip_zeros l' else l
  | [] => []
  end.

Definition dict (d : Z) : ascii := nth (Z.to_nat d) kBase58Dictionary NUL.

Definition Encode (str_in : str) : str :=
  let '(first_no_zero, zeros) := zeros_loop 0 0 0 str_in in
  let b58 := repeat 0 (length str_in * 138 / 100 + 1) in
  let b58 := rev (fold_left (fun rb c => encode_step (Z.land (schar c) 255) rb)
                            (drop first_no_zero str_in) (rev b58)) in
  repeat "1"%char zeros ++ map dict (skip_zeros b58).

(** [size_t(left_size * log2(58.0) / 8 + 2)] *)
Definition new_size (left_size : Z) : Z :=
  truncate (dadd (ddiv (dmul (of_int left_size) log2_58) d8) d2).

(** [kBase58digits[strIn[i]]]: the index is a signed [char], and reading before the
    array is undefined; [-1] becomes 255 as an unsigned [char]. *)
Definition digit58 (c : ascii) : outcome Z :=
  if schar c <? 0 then Throws Trap
  else Returns (u8 (nth (Z.to_nat (schar c)) kBase58digits 0)).

(** One digit into the base-256 buffer, from [new_size - 1] down to 0. *)
Fixpoint decode_step (carry : Z) (rb : list Z) : list Z :=
  match rb with
  | [] => []
  | b :: rb' => let tmp := b * 58 + carry in tmp mod 256 :: decode_step (tmp / 256) rb'
  end.

Fixpoint decode_loop (rb : list Z) (s : str) : outcome (list Z) :=
  match s with
  | [] => Returns rb
  | c :: s' => let* carry := digit58 c in decode_loop (decode_step carry rb) s'
  end.

Fixpoint ones (s : str) : nat :=
  match s with
  | c :: s' => if is_ch "1" c then S (ones s') else 0
  | [] => 0
  end.

(** [Decode(strIn, strout)]: the returned length and the bytes. *)
Definition Decode (strIn : str) : outcome (Z * str) :=
  let nZeros := ones strIn in
  let left_size := (length strIn - nZeros)%nat in
  let size := Z.to_nat (new_size (Z.of_nat left_size)) in
  let* rb := decode_loop (repeat 0 size) (drop nZeros strIn) in
  let rest := skip_zeros (rev rb) in
  Returns (Z.of_nat nZeros + Z.of_nat (length rest), repeat NUL nZeros ++ map chr rest).

(** The overload that returns the bytes. *)
Definition Decode_str (strIn : str) : outcome str := let* r := Decode strIn in Returns (snd r).

End Base58.
