(* ===== verification/Base58Facts.v ===== *)
(** * What Base58 does

    Numbers as digit lists, the two conversion loops as one multiply-and-add pass,
    the contracts of [Encode] and [Decode], that each inverts the other, and the
    texts outside the alphabet that [Decode] takes for others. *)
From S2P Require Import Prelude Strings Base58.

Import Strings Base58.

(** ** Digit lists, most significant digit first ([bval]) and last ([lval]) *)

Definition bval (b : Z) (l : list Z) : Z := fold_left (fun a d => a * b + d) l 0.
Fixpoint lval (b : Z) (l : list Z) : Z :=
  match l with
  | [] => 0
  | d :: l' => d + b * lval b l'
  end.
Abbreviation digits_in b l := (Forall (fun d : Z => 0 <= d < b) l).
Definition no_lead (l : list Z) : Prop := head l <> Some 0.

Lemma lval_app b l1 l2 : lval b (l1 ++ l2) = lval b l1 + b ^ Z.of_nat (length l1) * lval b l2.
Proof.
  induction l1 as [|d l IH]; cbn [app lval length]; [lia|].
  rewrite IH, Nat2Z.inj_succ, Z.pow_succ_r by lia. ring.
Qed.

Lemma bval_from b l : forall a, fold_left (fun a d => a * b + d) l a = lval b (rev l) + b ^ Z.of_nat (length l) * a.
Proof.
  induction l as [|d l IH]; intros a; cbn [fold_left rev length]; [cbn; lia|].
  rewrite IH, lval_app, length_rev, Nat2Z.inj_succ, Z.pow_succ_r by lia. cbn [lval]. ring.
Qed.

Lemma bval_lval b l : bval b l = lval b (rev l).
Proof. unfold bval. rewrite bval_from. lia. Qed.

Lemma lval_range b l : 0 < b -> digits_in b l -> 0 <= lval b l < b ^ Z.of_nat (length l).
Proof.
  intros Hb. induction 1 as [|d l Hd _ IH]; cbn [lval length]; [lia|].
  rewrite Nat2Z.inj_succ, Z.pow_succ_r by lia. nia.
Qed.

Lemma lval_pos b l : 0 < b -> digits_in b l -> last l <> Some 0 -> l <> [] -> 0 < lval b l.
Proof.
  intros Hb Hl. induction Hl as [|d l Hd Hl IH]; intros Hn Hne; [done|].
  destruct l as [|d' l].
  - cbn in *. assert (d <> 0) by congruence. lia.
  - assert (Hv : 0 < lval b (d' :: l)) by (apply IH; [exact Hn|done]).
    change (0 < d + b * lval b (d' :: l)). nia.
Qed.

(** The digits of a number without zeros in front are unique. *)
Lemma lval_inj b l1 : 0 < b -> digits_in b l1 -> last l1 <> Some 0 ->
  forall l2, digits_in b l2 -> last l2 <> Some 0 -> lval b l1 = lval b l2 -> l1 = l2.
Proof.
  intros Hb H1. induction H1 as [|d1 l1 Hd1 H1 IH]; intros N1 l2 H2 N2 E.
  - destruct l2 as [|d l]; [done|]. pose proof (lval_pos b (d :: l) Hb H2 N2 ltac:(done)). cbn in *. lia.
  - destruct l2 as [|d2 l2].
    { pose proof (lval_pos b (d1 :: l1) Hb ltac:(by constructor) N1 ltac:(done)). cbn in *. lia. }
    apply Forall_cons in H2 as [Hd2 H2]. cbn [lval] in E.
    assert (d1 = d2 /\ lval b l1 = lval b l2) as [-> E'].
    { pose proof (Z.mod_unique (d1 + b * lval b l1) b (lval b l1) d1 ltac:(left; lia) ltac:(lia)) as M1.
      pose proof (Z.mod_unique (d1 + b * lval b l1) b (lval b l2) d2 ltac:(left; lia) ltac:(lia)) as M2.
      split; [congruence|nia]. }
    f_equal. apply IH; try done; [destruct l1|destruct l2]; done.
Qed.

Lemma last_rev {A} (l : list A) : last (rev l) = head l.
Proof. rewrite rev_alt. apply last_reverse. Qed.

Lemma bval_inj b l1 l2 : 0 < b -> digits_in b l1 -> no_lead l1 -> digits_in b l2 -> no_lead l2 ->
  bval b l1 = bval b l2 -> l1 = l2.
Proof.
  intros Hb H1 N1 H2 N2 E. rewrite !bval_lval in E.
  rewrite <- (rev_involutive l1), <- (rev_involutive l2). f_equal.
  apply (lval_inj b); try done; try (by apply List.Forall_rev); by rewrite last_rev.
Qed.

Lemma bval_app b l1 l2 : bval b (l1 ++ l2) = bval b l2 + b ^ Z.of_nat (length l2) * bval b l1.
Proof. rewrite !bval_lval, rev_app_distr, lval_app, length_rev. lia. Qed.

Lemma bval_zeros b n l : bval b (repeat 0 n ++ l) = bval b l.
Proof.
  rewrite bval_app. assert (bval b (repeat 0 n) = 0) as ->; [|lia].
  induction n as [|n IH]; [done|]. exact IH.
Qed.

Lemma bval_range b l : 0 < b -> digits_in b l -> 0 <= bval b l < b ^ Z.of_nat (length l).
Proof. intros Hb H. rewrite bval_lval, <- (length_rev l). apply lval_range; [lia|by apply List.Forall_rev]. Qed.

Lemma bval_lead b l : 0 < b -> digits_in b l -> no_lead l -> l <> [] -> b ^ (Z.of_nat (length l) - 1) <= bval b l.
Proof.
  intros Hb H N Hne. destruct l as [|d l]; [done|]. apply Forall_cons in H as [Hd H]. change (d :: l) with ([d] ++ l).
  rewrite bval_app. cbn [length app]. replace (Z.of_nat (S (length l)) - 1) with (Z.of_nat (length l)) by lia.
  pose proof (bval_range b l Hb H). assert (d <> 0) by (intros ->; by apply N). unfold bval at 2. cbn [fold_left].
  pose proof (Z.pow_pos_nonneg b (Z.of_nat (length l)) ltac:(lia) ltac:(lia)). nia.
Qed.

(** ** One pass: multiply the number in a buffer and add to it *)

Fixpoint muladd (m B carry : Z) (rb : list Z) : list Z :=
  match rb with
  | [] => []
  | d :: rb' => (carry + m * d) mod B :: muladd m B ((carry + m * d) / B) rb'
  end.

Lemma encode_step_muladd rb : forall c, encode_step c rb = muladd 256 58 c rb.
Proof. induction rb as [|d rb IH]; intros c; cbn; [done|]. by rewrite IH. Qed.

Lemma decode_step_muladd rb : forall c, decode_step c rb = muladd 58 256 c rb.
Proof.
  induction rb as [|d rb IH]; intros c; cbn [decode_step muladd]; [done|].
  by rewrite IH, (Z.mul_comm d), (Z.add_comm c).
Qed.

Lemma skip_zeros_spec l : exists n, l = repeat 0 n ++ skip_zeros l /\ no_lead (skip_zeros l).
Proof.
  induction l as [|d l (n & E & N)]; [by exists 0%nat|]. cbn [skip_zeros].
  destruct (Z.eqb_spec d 0) as [->|Hd]; [exists (S n); cbn [repeat app]; by rewrite <- E|].
  exists 0%nat. split; [done|]. unfold no_lead. cbn. congruence.
Qed.

Section Pass.
Variables m B : Z.
Hypotheses (Hm : 0 <= m) (HB : 1 < B).

Lemma muladd_spec rb : digits_in B rb -> forall c, 0 <= c ->
  digits_in B (muladd m B c rb) /\ length (muladd m B c rb) = length rb /\
  lval B (muladd m B c rb) = (m * lval B rb + c) mod B ^ Z.of_nat (length rb).
Proof.
  induction 1 as [|d rb Hd _ IH]; intros c Hc; cbn [muladd lval length].
  { repeat split; [constructor|]. change (B ^ Z.of_nat 0) with 1. by rewrite Z.mod_1_r. }
  set (x := c + m * d). assert (Hx : 0 <= x) by (unfold x; nia).
  destruct (IH (x / B) ltac:(apply Z.div_pos; lia)) as (F & L & V).
  repeat split; [constructor; [apply Z.mod_pos_bound; lia|done]|by rewrite L|].
  rewrite V, Nat2Z.inj_succ, Z.pow_succ_r by lia.
  set (p := B ^ Z.of_nat (length rb)). assert (Hp : 0 < p) by (apply Z.pow_pos_nonneg; lia).
  replace (m * (d + B * lval B rb) + c) with (x + B * (m * lval B rb)) by (unfold x; ring).
  rewrite (Z.rem_mul_r (x + B * (m * lval B rb)) B p) by lia.
  rewrite (Z.mul_comm B (m * _)), Z.mod_add, Z.div_add by lia.
  by rewrite (Z.add_comm (x / B)).
Qed.

Lemma pass_spec ds : Forall (fun d => 0 <= d) ds -> forall rb, digits_in B rb ->
  let rb' := fold_left (fun rb d => muladd m B d rb) ds rb in
  digits_in B rb' /\ length rb' = length rb /\
  lval B rb' = fold_left (fun a d => a * m + d) ds (lval B rb) mod B ^ Z.of_nat (length rb).
Proof.
  induction 1 as [|d ds Hd _ IH]; intros rb Hrb; cbn [fold_left].
  { repeat split; [done|]. rewrite Z.mod_small; [done|apply lval_range; [lia|done]]. }
  destruct (muladd_spec rb Hrb d Hd) as (F & L & V). destruct (IH _ F) as (F' & L' & V').
  repeat split; [done|congruence|]. rewrite V', L, V, !bval_from.
  rewrite <- (Z.add_mod_idemp_r (lval m (rev ds))), Z.mul_mod_idemp_r by (apply Z.pow_nonzero; lia).
  rewrite Z.add_mod_idemp_r by (apply Z.pow_nonzero; lia). do 3 f_equal. ring.
Qed.

(** From an empty buffer that is large enough, the digits of the number. *)
Lemma pass_value ds n : Forall (fun d => 0 <= d) ds -> bval m ds < B ^ Z.of_nat n ->
  exists out, skip_zeros (rev (fold_left (fun rb d => muladd m B d rb) ds (repeat 0 n))) = out /\
    digits_in B out /\ no_lead out /\ (length out <= n)%nat /\ bval B out = bval m ds.
Proof.
  intros Hds Hlt. assert (Hz : digits_in B (repeat 0 n)) by (apply Forall_forall; intros x ->%list_elem_of_In%repeat_spec; lia).
  destruct (pass_spec ds Hds _ Hz) as (F & L & V). rewrite repeat_length in L, V.
  assert (lval B (repeat 0 n) = 0) as Z0 by (clear; induction n as [|n IH]; cbn; [done|rewrite IH; lia]).
  rewrite Z0 in V. fold (bval m ds) in V. set (rb := fold_left _ _ _) in *.
  destruct (skip_zeros_spec (rev rb)) as (k & E & N). eexists. split; [done|].
  apply List.Forall_rev in F. rewrite E in F. apply Forall_app in F as [_ F].
  repeat split; [done|done| |].
  - apply (f_equal length) in E. rewrite length_rev, length_app in E. lia.
  - rewrite <- (bval_zeros B k), <- E, bval_lval, rev_involutive, V. apply Z.mod_small. split; [|done].
    rewrite bval_lval. clear -Hds Hm. apply List.Forall_rev in Hds. induction Hds; cbn [lval]; nia.
Qed.
End Pass.

(** ** Encode *)

Lemma zeros_loop_spec k t : no_lead (map code t) -> forall i f z,
  zeros_loop i f z (repeat NUL k ++ t) = (if (k =? 0)%nat then f else (i + k - 1)%nat, (z + k)%nat).
Proof.
  intros N. induction k as [|k IH]; intros i f z; cbn [repeat app].
  - replace (z + 0)%nat with z by lia. destruct t as [|c t]; cbn in *; [done|].
    destruct (Z.eqb_spec (code c) 0) as [E|]; [|done]. by destruct N; rewrite <- E.
  - cbn [zeros_loop Nat.eqb]. change (code NUL =? 0) with true. cbv iota. rewrite IH.
    destruct k; cbn [Nat.eqb]; f_equal; lia.
Qed.

Lemma zeros_split s : exists z t, s = repeat NUL z ++ t /\ no_lead (map code t).
Proof.
  induction s as [|c s (z & t & -> & N)]; [by exists 0%nat, []|].
  destruct (decide (c = NUL)) as [->|Hc]; [by exists (S z), t|].
  exists 0%nat, (c :: repeat NUL z ++ t). split; [done|]. intros [=E]. apply Hc, code_inj. exact E.
Qed.

Lemma encode_capacity n : 256 ^ Z.of_nat n <= 58 ^ Z.of_nat (n * 138 / 100 + 1).
Proof.
  apply (Z.pow_le_mono_l_iff _ _ 100); [lia || (apply Z.pow_nonneg; lia)..|].
  rewrite <- !Z.pow_mul_r by lia.
  transitivity (58 ^ (138 * Z.of_nat n)).
  - rewrite Z.mul_comm, !Z.pow_mul_r by lia. apply Z.pow_le_mono_l. split; [apply Z.pow_nonneg; lia|].
    by apply Z.leb_le.
  - apply Z.pow_le_mono_r; [lia|]. pose proof (Nat.div_mod_eq (n * 138) 100).
    pose proof (Nat.mod_upper_bound (n * 138) 100 ltac:(done)). lia.
Qed.

Lemma land_schar c : Z.land (schar c) 255 = code c.
Proof.
  change 255 with (Z.ones 8). rewrite Z.land_ones by lia. unfold schar. pose proof (code_range c).
  change (2 ^ 8) with 256. destruct (_ <? _); mod_lia.
Qed.

(** [Encode] keeps the zero bytes in front as ones and writes the number of the rest. *)
Lemma Encode_spec z t : no_lead (map code t) -> exists ds,
  Encode (repeat NUL z ++ t) = repeat "1"%char z ++ map dict ds /\ digits_in 58 ds /\ no_lead ds /\
  (length ds <= (z + length t) * 138 / 100 + 1)%nat /\ bval 58 ds = bval 256 (map code t).
Proof.
  intros N. set (s := repeat NUL z ++ t). unfold Encode. unfold s at 1. rewrite zeros_loop_spec by done. cbn [Nat.add].
  set (f := if (z =? 0)%nat then 0%nat else (z - 1)%nat).
  assert (exists k, map code (drop f s) = repeat 0 k ++ map code t) as [k Hd].
  { unfold s, f. destruct z as [|z]; [by exists 0%nat|]. exists 1%nat. cbn [Nat.eqb].
    replace (S z - 1)%nat with (length (repeat NUL z)) by (rewrite repeat_length; lia).
    cbn [repeat]. by rewrite repeat_cons, <- app_assoc, drop_app_length. }
  set (n := (length s * 138 / 100 + 1)%nat).
  assert (Hf : fold_left (fun rb c => encode_step (Z.land (schar c) 255) rb) (drop f s) (rev (repeat 0 n)) =
               fold_left (fun rb d => muladd 256 58 d rb) (map code (drop f s)) (repeat 0 n)).
  { rewrite rev_repeat. generalize (repeat 0 n). clear. induction (drop f s) as [|c l IH]; intros rb; [done|].
    cbn [fold_left map]. by rewrite land_schar, encode_step_muladd, IH. }
  rewrite Hf. destruct (pass_value 256 58 ltac:(lia) ltac:(lia) (map code (drop f s)) n) as (ds & -> & F & N' & L & V).
  - apply Forall_map, Forall_true. intros c. apply code_range.
  - rewrite Hd, bval_zeros. eapply Z.lt_le_trans, encode_capacity.
    eapply Z.lt_le_trans; [rewrite bval_lval; apply lval_range; [lia|]|].
    + apply List.Forall_rev, Forall_map, Forall_true. intros c. apply code_range.
    + rewrite length_rev, length_map. apply Z.pow_le_mono_r; [lia|]. unfold s. rewrite length_app. lia.
  - exists ds. rewrite Hd, bval_zeros in V. repeat split; try done.
    unfold n, s in L. by rewrite length_app, repeat_length in L.
Qed.

(** ** Decode *)

(** The buffer of [Decode] holds [length + 1] digits of any size: checked for the
    lengths texts of 256 bytes can have. *)
Fixpoint sizes_ok (k : nat) (n acc : Z) : bool :=
  match k with
  | O => true
  | S k' => (0 <=? new_size n) && (Z.log2 acc + 8 <? 8 * new_size n) && sizes_ok k' (n + 1) (58 * acc)
  end.

Lemma sizes_ok_spec k : forall n i, 0 <= n -> sizes_ok k n (58 ^ n) = true -> n <= i < n + Z.of_nat k ->
  0 <= new_size i /\ 58 ^ i * 256 <= 256 ^ new_size i.
Proof.
  induction k as [|k IH]; intros n i Hn H Hi; [lia|]. cbn [sizes_ok] in H.
  apply andb_true_iff in H as [[H0 H1]%andb_true_iff H2]. apply Z.leb_le in H0. apply Z.ltb_lt in H1.
  destruct (decide (i = n)) as [->|Hne].
  - split; [done|]. change 256 with (2 ^ 8). rewrite <- Z.pow_mul_r by lia.
    pose proof (Z.log2_spec (58 ^ n) ltac:(apply Z.pow_pos_nonneg; lia)) as [_ Hlt].
    transitivity (2 ^ Z.succ (Z.log2 (58 ^ n)) * 2 ^ 8); [nia|].
    pose proof (Z.log2_nonneg (58 ^ n)). rewrite <- Z.pow_add_r by lia. apply Z.pow_le_mono_r; lia.
  - apply (IH (n + 1)); [lia| |lia]. by rewrite Z.pow_add_r, Z.mul_comm by lia.
Qed.

Lemma decode_capacity i : 0 <= i < 355 -> 0 <= new_size i /\ 58 ^ i * 256 <= 256 ^ new_size i.
Proof. intros Hi. apply (sizes_ok_spec 355 0 i); [lia|by vm_compute|lia]. Qed.

(** The text [s] has the digits [ds], where a character outside the alphabet is 255. *)
Definition reads (s : str) (ds : list Z) : Prop := mapM (fun c => match digit58 c with Returns d => Some d | _ => None end) s = Some ds.

Lemma reads_cons c s d ds : digit58 c = Returns d -> reads s ds -> reads (c :: s) (d :: ds).
Proof. intros H R. unfold reads in *. cbn. by rewrite H, R. Qed.

Lemma decode_loop_spec s : forall ds rb, reads s ds ->
  decode_loop rb s = Returns (fold_left (fun rb d => muladd 58 256 d rb) ds rb).
Proof.
  induction s as [|c s IH]; intros ds rb H; unfold reads in H; cbn in H.
  - by injection H as <-.
  - destruct (digit58 c) as [d|] eqn:E; [|done]. cbn in H. destruct (mapM _ s) as [ds'|] eqn:E'; [|done].
    injection H as <-. cbn. rewrite E. cbn. rewrite decode_step_muladd. by apply IH.
Qed.

Lemma digit58_range c d : digit58 c = Returns d -> 0 <= d <= 255.
Proof. unfold digit58, u8. destruct (_ <? _); [done|]. intros [= <-]. mod_lia. Qed.

Lemma reads_range s ds : reads s ds -> Forall (fun d => 0 <= d <= 255) ds /\ length ds = length s.
Proof.
  intros H. apply mapM_Some in H. split; [|by apply Forall2_length in H].
  induction H as [|c d s ds E _ IH]; constructor; [|done].
  destruct (digit58 c) eqn:E'; [|done]. injection E as <-. by apply (digit58_range c).
Qed.

Lemma bval_bytes ds : Forall (fun d => 0 <= d <= 255) ds -> 0 <= bval 58 ds <= 5 * 58 ^ Z.of_nat (length ds) - 5.
Proof.
  intros H. rewrite bval_lval, <- (length_rev ds). apply List.Forall_rev in H.
  induction H as [|d l Hd _ IH]; cbn [lval length]; [lia|]. rewrite Nat2Z.inj_succ, Z.pow_succ_r by lia. lia.
Qed.

Lemma ones_spec z u : head u <> Some "1"%char -> ones (repeat "1"%char z ++ u) = z.
Proof.
  intros N. induction z as [|z IH]; cbn; [|by rewrite IH].
  destruct u as [|c u]; [done|]. cbn. unfold is_ch. by rewrite bool_decide_eq_false_2 by (intros E; apply N; by rewrite <- E).
Qed.

(** [Decode] turns the ones in front into zero bytes and writes the number of the rest. *)
Lemma Decode_spec z u ds : head u <> Some "1"%char -> reads u ds -> (length u < 355)%nat -> exists bs,
  Decode_str (repeat "1"%char z ++ u) = Returns (repeat NUL z ++ map chr bs) /\
  digits_in 256 bs /\ no_lead bs /\ bval 256 bs = bval 58 ds.
Proof.
  intros N R L. destruct (reads_range _ _ R) as [F Len]. unfold Decode_str, Decode.
  rewrite ones_spec, length_app, repeat_length by done.
  rewrite drop_app_length' by (by rewrite repeat_length).
  rewrite (decode_loop_spec _ ds) by done.
  replace (z + length u - z)%nat with (length u) by lia.
  destruct (decode_capacity (Z.of_nat (length u)) ltac:(lia)) as [S0 S1].
  pose proof (bval_bytes ds F) as V. rewrite Len in V.
  destruct (pass_value 58 256 ltac:(lia) ltac:(lia) ds (Z.to_nat (new_size (Z.of_nat (length u))))) as (bs & E & Fb & Nb & _ & Vb).
  - eapply Forall_impl; [exact F|]. cbn. lia.
  - rewrite Z2Nat.id by done. pose proof (Z.pow_pos_nonneg 58 (Z.of_nat (length u)) ltac:(lia) ltac:(lia)). lia.
  - exists bs. cbn [obind snd]. by rewrite E.
Qed.

(** ** Round trips *)

Definition in_alphabet (c : ascii) : bool := existsb (is_ch c) kBase58Dictionary.

Lemma dict_digit d : 0 <= d < 58 -> digit58 (dict d) = Returns d /\ in_alphabet (dict d) = true
  /\ (dict d = "1"%char -> d = 0).
Proof.
  intros Hd. apply (forall_range 58 (fun d => bool_decide (digit58 (dict d) = Returns d) && in_alphabet (dict d)
    && (negb (is_ch (dict d) "1") || (d =? 0)))) in Hd; [|by vm_compute].
  apply andb_true_iff in Hd as [[H1%bool_decide_eq_true H2]%andb_true_iff H3]. repeat split; [done|done|].
  intros E. rewrite E in H3. by apply Z.eqb_eq.
Qed.

Lemma alphabet_digit c : in_alphabet c = true -> exists d, 0 <= d < 58 /\ c = dict d.
Proof.
  intros H. apply existsb_exists in H as (c' & Hin & E%bool_decide_eq_true). subst c'.
  apply In_nth with (d := NUL) in Hin as (n & Hn & <-). exists (Z.of_nat n).
  split; [change (length kBase58Dictionary) with 58%nat in Hn; lia|]. unfold dict. by rewrite Nat2Z.id.
Qed.

Lemma reads_dict ds : digits_in 58 ds -> reads (map dict ds) ds.
Proof. induction 1; [done|]. apply reads_cons; [by apply dict_digit|done]. Qed.

Lemma head_dict ds : digits_in 58 ds -> no_lead ds -> head (map dict ds) <> Some "1"%char.
Proof. intros [|d l Hd _] N; [done|]. cbn. intros [= E%dict_digit]; [|done]. by apply N; rewrite E. Qed.

Lemma map_chr_code s : map chr (map code s) = s.
Proof. rewrite map_map. rewrite <- (map_id s) at 2. apply map_ext. apply chr_code. Qed.

Lemma map_code_chr bs : digits_in 256 bs -> map code (map chr bs) = bs.
Proof. induction 1 as [|b bs Hb _ IH]; [done|]. cbn. rewrite IH, code_chr, Z.mod_small by lia. done. Qed.

Lemma codes_in s : digits_in 256 (map code s).
Proof. apply Forall_map, Forall_true. intros c. apply code_range. Qed.

Lemma Decode_Encode s : (length s <= 256)%nat -> Decode_str (Encode s) = Returns s.
Proof.
  intros Hs. destruct (zeros_split s) as (z & t & -> & N). rewrite length_app, repeat_length in Hs.
  destruct (Encode_spec z t N) as (ds & -> & F & Nd & L & V).
  destruct (Decode_spec z (map dict ds) ds) as (bs & -> & Fb & Nb & Vb).
  - by apply head_dict.
  - by apply reads_dict.
  - rewrite length_map. assert ((z + length t) * 138 / 100 < 354)%nat; [|lia].
    apply Nat.Div0.div_lt_upper_bound. lia.
  - do 2 f_equal. rewrite (bval_inj 256 bs (map code t)); try done; [apply map_chr_code|apply codes_in|congruence].
Qed.

Lemma ones_split s : exists z u, s = repeat "1"%char z ++ u /\ head u <> Some "1"%char.
Proof.
  induction s as [|c s (z & u & -> & N)]; [by exists 0%nat, []|].
  destruct (decide (c = "1"%char)) as [->|Hc]; [by exists (S z), u|].
  exists 0%nat, (c :: repeat "1"%char z ++ u). split; [done|]. cbn. congruence.
Qed.

Lemma Encode_Decode t : (length t < 355)%nat -> forallb in_alphabet t = true ->
  exists s, Decode_str t = Returns s /\ Encode s = t.
Proof.
  intros L H. destruct (ones_split t) as (z & u & -> & N). rewrite length_app in L.
  rewrite forallb_app in H. apply andb_true_iff in H as [_ H].
  assert (exists ds, digits_in 58 ds /\ u = map dict ds) as (ds & F & ->).
  { clear -H. induction u as [|c u IH]; [by exists []|]. apply andb_true_iff in H as [(d & Hd & ->)%alphabet_digit H].
    destruct (IH H) as (ds & F & ->). exists (d :: ds). split; [by constructor|done]. }
  assert (Nd : no_lead ds) by (intros E; apply N; destruct ds; cbn in *; [done|by injection E as ->]).
  destruct (Decode_spec z (map dict ds) ds N (reads_dict ds F) ltac:(lia)) as (bs & -> & Fb & Nb & Vb).
  eexists. split; [done|]. destruct (Encode_spec z (map chr bs)) as (ds' & -> & F' & N' & _ & V').
  { by rewrite map_code_chr. }
  rewrite map_code_chr in V' by done. by rewrite (bval_inj 58 ds' ds) by (done || congruence).
Qed.

(** ** Texts that decode alike *)

(** A character outside the alphabet counts 255 = 4 * 58 + 23. *)
Lemma bval_alias p d q : bval 58 (p ++ [d; 255] ++ q) = bval 58 (p ++ [d + 4; 23] ++ q).
Proof. rewrite !bval_app, !length_app. f_equal. f_equal. f_equal. unfold bval. cbn. lia. Qed.

Lemma reads_app s1 s2 d1 d2 : reads s1 d1 -> reads s2 d2 -> reads (s1 ++ s2) (d1 ++ d2).
Proof.
  unfold reads. intros H1 H2. apply mapM_Some in H1, H2. apply mapM_Some. by apply Forall2_app.
Qed.

(** The bytes of a text depend on the number of its digits alone. *)
Lemma Decode_same u1 u2 ds1 ds2 : head u1 <> Some "1"%char -> head u2 <> Some "1"%char ->
  reads u1 ds1 -> reads u2 ds2 -> (length u1 < 355)%nat -> (length u2 < 355)%nat ->
  bval 58 ds1 = bval 58 ds2 -> Decode_str u1 = Decode_str u2.
Proof.
  intros N1 N2 R1 R2 L1 L2 E.
  destruct (Decode_spec 0 u1 ds1 N1 R1 L1) as (b1 & E1 & F1 & M1 & V1).
  destruct (Decode_spec 0 u2 ds2 N2 R2 L2) as (b2 & E2 & F2 & M2 & V2).
  cbn in E1, E2. rewrite E1, E2. by rewrite (bval_inj 256 b1 b2) by (try done; congruence).
Qed.
