(* ===== verification/Sm3.v ===== *)
(** * SM3

    [utils::Sm3] (src/utils/sm3.cpp), the hash behind the keys and addresses of
    type sm2: the compression function, the buffering of [sm3_update], the padding
    of [sm3_finish] and the keyed form. Bytes and 32-bit words are integers; the
    fields [total] of the context are 64-bit [unsigned long]s. *)
From S2P Require Import Prelude Strings.

Module Sm3.
Import Strings.

Record sm3_context := MkCtx {
  total0 : Z; total1 : Z;
  state : list Z;
  buffer : list Z;
  ipad : list Z; opad : list Z }.

Definition set_total (t0 t1 : Z) (c : sm3_context) : sm3_context := MkCtx t0 t1 (state c) (buffer c) (ipad c) (opad c).
Definition set_state (s : list Z) (c : sm3_context) : sm3_context := MkCtx (total0 c) (total1 c) s (buffer c) (ipad c) (opad c).
Definition set_buffer (b : list Z) (c : sm3_context) : sm3_context := MkCtx (total0 c) (total1 c) (state c) b (ipad c) (opad c).
Definition set_pads (i o : list Z) (c : sm3_context) : sm3_context := MkCtx (total0 c) (total1 c) (state c) (buffer c) i o.

Definition get (l : list Z) (i : nat) : Z := nth i l 0.

(** The macros. A shift by a count outside 0..31 is undefined in C++; the count is
    taken modulo 32, as the shift instruction takes it. [ROTL(T[j], j)] relies on
    it for j = 0 and j > 31. *)
Definition GET_ULONG_BE (b : list Z) (i : nat) : Z :=
  Z.lor (Z.lor (Z.lor (Z.shiftl (get b i) 24) (Z.shiftl (get b (i + 1)) 16)) (Z.shiftl (get b (i + 2)) 8)) (get b (i + 3)).
Definition PUT_ULONG_BE (n : Z) : list Z := [u8 (Z.shiftr n 24); u8 (Z.shiftr n 16); u8 (Z.shiftr n 8); u8 n].

Definition FF0 (x y z : Z) : Z := Z.lxor (Z.lxor x y) z.
Definition FF1 (x y z : Z) : Z := Z.lor (Z.lor (Z.land x y) (Z.land x z)) (Z.land y z).
Definition GG0 (x y z : Z) : Z := Z.lxor (Z.lxor x y) z.
Definition GG1 (x y z : Z) : Z := Z.lor (Z.land x y) (Z.land (u32 (Z.lnot x)) z).
Definition SHL (x n : Z) : Z := u32 (Z.shiftl (Z.land x 4294967295) (n mod 32)).
Definition ROTL (x n : Z) : Z := Z.lor (SHL x n) (Z.shiftr x ((32 - n) mod 32)).
Definition P0 (x : Z) : Z := Z.lxor (Z.lxor x (ROTL x 9)) (ROTL x 17).
Definition P1 (x : Z) : Z := Z.lxor (Z.lxor x (ROTL x 15)) (ROTL x 23).

(** ** [sm3_starts] *)
Definition iv : list Z := [0x7380166F; 0x4914B2B9; 0x172442D7; 0xDA8A0600; 0xA96F30BC; 0x163138AA; 0xE38DEE4D; 0xB0FB0E4E].
Definition sm3_starts (ctx : sm3_context) : sm3_context := set_state iv (set_total 0 0 ctx).

(** ** [sm3_process] *)

(** The words [W[16..67]], one round after the other. *)
Definition expand (W : list Z) (j : nat) : list Z :=
  let Temp1 := Z.lxor (get W (j - 16)) (get W (j - 9)) in
  let Temp2 := ROTL (get W (j - 3)) 15 in
  let Temp3 := Z.lxor Temp1 Temp2 in
  let Temp4 := P1 Temp3 in
  let Temp5 := Z.lxor (ROTL (get W (j - 13)) 7) (get W (j - 6)) in
  W ++ [Z.lxor Temp4 Temp5].

Record regs := Regs { rA : Z; rB : Z; rC : Z; rD : Z; rE : Z; rF : Z; rG : Z; rH : Z }.

Definition T (j : nat) : Z := if (j <? 16)%nat then 0x79CC4519 else 0x7A879D8A.

(** The bodies of the two loops over [j], which differ in [FF] and [GG]. *)
Definition round (FF GG : Z -> Z -> Z -> Z) (W W1 : list Z) (r : regs) (j : nat) : regs :=
  let 'Regs A B C D E F G H := r in
  let SS1 := ROTL (u32 (ROTL A 12 + E + ROTL (T j) (Z.of_nat j))) 7 in
  let SS2 := Z.lxor SS1 (ROTL A 12) in
  let TT1 := u32 (FF A B C + D + SS2 + get W1 j) in
  let TT2 := u32 (GG E F G + H + SS1 + get W j) in
  Regs TT1 A (ROTL B 9) C (P0 TT2) E (ROTL F 19) G.

Definition sm3_process (ctx : sm3_context) (data : list Z) : sm3_context :=
  let W := map (fun j => GET_ULONG_BE data (4 * j)) (seq 0 16) in
  let W := fold_left expand (seq 16 52) W in
  let W1 := map (fun j => Z.lxor (get W j) (get W (j + 4))) (seq 0 64) in
  let s := state ctx in
  let r := Regs (get s 0) (get s 1) (get s 2) (get s 3) (get s 4) (get s 5) (get s 6) (get s 7) in
  let r := fold_left (round FF0 GG0 W W1) (seq 0 16) r in
  let 'Regs A B C D E F G H := fold_left (round FF1 GG1 W W1) (seq 16 48) r in
  set_state [Z.lxor (get s 0) A; Z.lxor (get s 1) B; Z.lxor (get s 2) C; Z.lxor (get s 3) D;
             Z.lxor (get s 4) E; Z.lxor (get s 5) F; Z.lxor (get s 6) G; Z.lxor (get s 7) H] ctx.

(** ** [sm3_update] *)

(** [memcpy(dst + at, src, n)] *)
Definition memcpy (dst : list Z) (at_ : nat) (src : list Z) (n : nat) : list Z :=
  take at_ dst ++ take n src ++ drop (at_ + n) dst.

(** [while (ilen >= 64)]; one round per 64 bytes. *)
Fixpoint blocks (fuel : nat) (ctx : sm3_context) (input : list Z) (ilen : Z) : sm3_context * list Z * Z :=
  match fuel with
  | S f => if 64 <=? ilen then blocks f (sm3_process ctx (take 64 input)) (drop 64 input) (ilen - 64)
           else (ctx, input, ilen)
  | O => (ctx, input, ilen)
  end.

Definition sm3_update (ctx : sm3_context) (input : list Z) (ilen : Z) : sm3_context :=
  if ilen <=? 0 then ctx
  else
    let left_ := Z.land (total0 ctx) 63 in
    let fill := 64 - left_ in
    let t0 := Z.land (u64 (total0 ctx + ilen)) 4294967295 in
    let t1 := if t0 <? ilen then u64 (total1 ctx + 1) else total1 ctx in
    let ctx := set_total t0 t1 ctx in
    let '(ctx, input, ilen, left_) :=
      if negb (left_ =? 0) && (fill <=? ilen) then
        let ctx := set_buffer (memcpy (buffer ctx) (Z.to_nat left_) input (Z.to_nat fill)) ctx in
        (sm3_process ctx (buffer ctx), drop (Z.to_nat fill) input, ilen - fill, 0)
      else (ctx, input, ilen, left_) in
    let '(ctx, input, ilen) := blocks (Z.to_nat (ilen / 64)) ctx input ilen in
    if 0 <? ilen then set_buffer (memcpy (buffer ctx) (Z.to_nat left_) input (Z.to_nat ilen)) ctx else ctx.

(** ** [sm3_finish] *)

Definition sm3_padding : list Z := 128 :: repeat 0 63.

Definition sm3_finish (ctx : sm3_context) : sm3_context * list Z :=
  let high := u32 (Z.lor (Z.shiftr (total0 ctx) 29) (u64 (Z.shiftl (total1 ctx) 3))) in
  let low := u32 (Z.shiftl (total0 ctx) 3) in
  let msglen := PUT_ULONG_BE high ++ PUT_ULONG_BE low in
  let last := Z.land (total0 ctx) 63 in
  let padn := if last <? 56 then 56 - last else 120 - last in
  let ctx := sm3_update ctx sm3_padding padn in
  let ctx := sm3_update ctx msglen 8 in
  (ctx, map (get (state ctx)) (seq 0 8) ≫= PUT_ULONG_BE).

(** ** The class

    A length is passed as [int]; [new_ctx] is the uninitialised context. *)
Definition new_ctx (garbage : list Z) : sm3_context := MkCtx 0 0 (take 8 garbage) (take 64 garbage) (take 64 garbage) (take 64 garbage).
Definition bytes (s : str) : list Z := map code s.

Definition Update (ctx : sm3_context) (input : str) : sm3_context :=
  sm3_update ctx (bytes input) (s32 (Z.of_nat (length input))).
Definition Final (ctx : sm3_context) : str := map chr (snd (sm3_finish ctx)).
Definition Crypto (garbage : list Z) (input : str) : str :=
  Final (Update (sm3_starts (new_ctx garbage)) input).

(** [sm3]: hash of a byte array *)
Definition sm3 (garbage input : list Z) : list Z :=
  snd (sm3_finish (sm3_update (sm3_starts (new_ctx garbage)) input (Z.of_nat (length input)))).

(** ** The keyed form *)

Definition sm3_hmac_starts (garbage : list Z) (ctx : sm3_context) (key : list Z) : sm3_context :=
  let key := if (64 <? length key)%nat then sm3 garbage key else key in
  let pad x := zip_with Z.lxor (repeat x (length key)) key ++ repeat x (64 - length key) in
  let ctx := set_pads (map u8 (pad 0x36)) (map u8 (pad 0x5C)) ctx in
  sm3_update (sm3_starts ctx) (ipad ctx) 64.

Definition sm3_hmac_update (ctx : sm3_context) (input : list Z) (ilen : Z) : sm3_context := sm3_update ctx input ilen.

Definition sm3_hmac_finish (ctx : sm3_context) : list Z :=
  let '(ctx, tmpbuf) := sm3_finish ctx in
  let ctx := sm3_starts ctx in
  let ctx := sm3_update ctx (opad ctx) 64 in
  let ctx := sm3_update ctx tmpbuf 32 in
  snd (sm3_finish ctx).

Definition sm3_hmac (garbage key input : list Z) : list Z :=
  let ctx := sm3_hmac_starts garbage (new_ctx garbage) key in
  let ctx := sm3_hmac_update ctx input (Z.of_nat (length input)) in
  sm3_hmac_finish ctx.

End Sm3.
