(* ===== verification/Sm3Facts.v ===== *)
(** * SM3 computes the standard's hash

    The hash of the standard as a function of the whole message, and that the
    code, which takes the message in pieces through a buffer, computes it. *)
From S2P Require Import Prelude Strings StringsFacts Sm3.

Import Strings Sm3.

(** ** The standard *)

Definition rotl (x n : Z) : Z := (x * 2 ^ (n mod 32) + x / 2 ^ (32 - n mod 32)) mod W32.
Definition ref_P0 (x : Z) : Z := Z.lxor (Z.lxor x (rotl x 9)) (rotl x 17).
Definition ref_P1 (x : Z) : Z := Z.lxor (Z.lxor x (rotl x 15)) (rotl x 23).
Definition ref_FF (j : nat) (x y z : Z) : Z :=
  if (j <? 16)%nat then Z.lxor (Z.lxor x y) z else Z.lor (Z.lor (Z.land x y) (Z.land x z)) (Z.land y z).
Definition ref_GG (j : nat) (x y z : Z) : Z :=
  if (j <? 16)%nat then Z.lxor (Z.lxor x y) z else Z.lor (Z.land x y) (Z.land (W32 - 1 - x) z).
Definition ref_T (j : nat) : Z := if (j <? 16)%nat then 0x79CC4519 else 0x7A879D8A.

(** A word is four bytes, the first the most significant. *)
Definition ref_word (b : list Z) (i : nat) : Z :=
  ((get b (4 * i) * 256 + get b (4 * i + 1)) * 256 + get b (4 * i + 2)) * 256 + get b (4 * i + 3).

Definition ref_expand (W : list Z) (j : nat) : list Z :=
  W ++ [Z.lxor (Z.lxor (ref_P1 (Z.lxor (Z.lxor (get W (j - 16)) (get W (j - 9))) (rotl (get W (j - 3)) 15)))
                       (rotl (get W (j - 13)) 7)) (get W (j - 6))].

Definition ref_round (W : list Z) (r : regs) (j : nat) : regs :=
  let 'Regs A B C D E F G H := r in
  let SS1 := rotl ((rotl A 12 + E + rotl (ref_T j) (Z.of_nat j)) mod W32) 7 in
  let SS2 := Z.lxor SS1 (rotl A 12) in
  let TT1 := (ref_FF j A B C + D + SS2 + Z.lxor (get W j) (get W (j + 4))) mod W32 in
  let TT2 := (ref_GG j E F G + H + SS1 + get W j) mod W32 in
  Regs TT1 A (rotl B 9) C (ref_P0 TT2) E (rotl F 19) G.

(** The compression function on a state of eight words and a block of 64 bytes. *)
Definition ref_CF (s block : list Z) : list Z :=
  let W := fold_left ref_expand (seq 16 52) (map (ref_word block) (seq 0 16)) in
  let r := Regs (get s 0) (get s 1) (get s 2) (get s 3) (get s 4) (get s 5) (get s 6) (get s 7) in
  let 'Regs A B C D E F G H := fold_left (ref_round W) (seq 0 64) r in
  zip_with Z.lxor s [A; B; C; D; E; F; G; H].

(** The first [n] blocks of a message. *)
Fixpoint ref_blocks (n : nat) (s m : list Z) : list Z :=
  match n with
  | O => s
  | S n' => ref_blocks n' (ref_CF s (take 64 m)) (drop 64 m)
  end.

(** A number of [n] bytes, the first the most significant. *)
Fixpoint ref_be (n : nat) (z : Z) : list Z :=
  match n with
  | O => []
  | S n' => ref_be n' (z / 256) ++ [z mod 256]
  end.

(** A one bit, zeros up to eight bytes before the end of a block, the length in bits. *)
Definition ref_pad (len : nat) : list Z :=
  128 :: repeat 0 (Z.to_nat ((55 - Z.of_nat len) mod 64)) ++ ref_be 8 (8 * Z.of_nat len).

Definition ref_sm3 (m : list Z) : list Z :=
  let p := m ++ ref_pad (length m) in
  ref_blocks (length p / 64) iv p ≫= ref_be 4.

(** ** Words of 32 bits *)

Definition in32 (z : Z) : Prop := 0 <= z < W32.
Definition in8 (z : Z) : Prop := 0 <= z < 256.

Lemma u32_in z : in32 (u32 z).
Proof. unfold in32, u32. mod_lia. Qed.

Lemma land_in x y : in32 x -> in32 y -> in32 (Z.land x y).
Proof.
  unfold in32. intros Hx Hy. split; [apply Z.land_nonneg; lia|].
  change W32 with (2 ^ 32). destruct (Z.eq_dec (Z.land x y) 0) as [->|]; [lia|].
  apply Z.log2_lt_pow2; [pose proof (Z.land_nonneg x y); lia|].
  eapply Z.le_lt_trans; [apply Z.log2_land; lia|]. apply Z.min_lt_iff. left.
  destruct (Z.eq_dec x 0) as [->|]; [done|]. apply Z.log2_lt_pow2; lia.
Qed.

Lemma lxor_range k x y : 0 <= k -> 0 <= x < 2 ^ k -> 0 <= y < 2 ^ k -> 0 <= Z.lxor x y < 2 ^ k.
Proof.
  intros Hk Hx Hy. assert (E : Z.lxor x y = Z.lxor x y mod 2 ^ k).
  { rewrite <- !Z.land_ones by lia. apply Z.bits_inj'. intros n Hn. rewrite Z.land_spec, Z.lxor_spec.
    rewrite Z.testbit_ones_nonneg by lia. destruct (Z.ltb_spec n k); [by rewrite andb_true_r|].
    rewrite andb_false_r, <- (Z.mod_small x (2 ^ k)), <- (Z.mod_small y (2 ^ k)) by done.
    by rewrite !Z.mod_pow2_bits_high by lia. }
  rewrite E. apply Z.mod_pos_bound, Z.pow_pos_nonneg; lia.
Qed.

Lemma lxor_in x y : in32 x -> in32 y -> in32 (Z.lxor x y).
Proof. apply (lxor_range 32); lia. Qed.

Lemma lor_in x y : in32 x -> in32 y -> in32 (Z.lor x y).
Proof. apply (lor_range 32); lia. Qed.

Lemma ROTL_rotl x n : in32 x -> ROTL x n = rotl x n /\ in32 (rotl x n).
Proof.
  unfold in32. intros Hx. split; [|unfold rotl; mod_lia].
  unfold ROTL, SHL, rotl, u32. change 4294967295 with (Z.ones 32).
  rewrite Z.land_ones, (Z.mod_small x (2 ^ 32)) by lia. rewrite Z.shiftl_mul_pow2 by mod_lia. rewrite Z.shiftr_div_pow2 by mod_lia.
  destruct (Z.eq_dec (n mod 32) 0) as [E|E].
  - replace ((32 - n) mod 32) with 0 by mod_lia. rewrite E. change (2 ^ 0) with 1.
    rewrite Z.mul_1_r, Z.div_1_r, (Z.mod_small x) by lia. rewrite Z.lor_diag.
    rewrite (Z.div_small x) by (change (2 ^ (32 - 0)) with W32; lia). rewrite Z.add_0_r, Z.mod_small by lia. done.
  - set (k := n mod 32) in *. assert (Hk : 0 < k < 32) by (unfold k; mod_lia).
    replace ((32 - n) mod 32) with (32 - k) by (unfold k; mod_lia).
    assert (Hp : 2 ^ k * 2 ^ (32 - k) = W32) by (rewrite <- Z.pow_add_r by lia; by replace (k + (32 - k)) with 32 by lia).
    assert (0 < 2 ^ k) by (apply Z.pow_pos_nonneg; lia). assert (0 < 2 ^ (32 - k)) by (apply Z.pow_pos_nonneg; lia).
    assert (Hq : 0 <= x / 2 ^ (32 - k) < 2 ^ k) by (split; [apply Z.div_pos; lia|apply Z.div_lt_upper_bound; nia]).
    assert (Hm : (x * 2 ^ k) mod W32 = (x mod 2 ^ (32 - k)) * 2 ^ k)
      by (rewrite <- Hp, (Z.mul_comm (2 ^ k) (2 ^ (32 - k))); apply Z.mul_mod_distr_r; lia).
    rewrite Hm, (lor_add _ _ k) by (try lia; apply Z.mod_mul; lia).
    rewrite Z.add_mod, Hm by lia. rewrite (Z.mod_small (x / _)) by nia.
    pose proof (Z.mod_pos_bound x (2 ^ (32 - k)) ltac:(lia)). symmetry. apply Z.mod_small. nia.
Qed.

(** ** The compression function *)

(** Properties of every element of a list that is written out. *)
Ltac forall_cons := hnf; repeat apply List.Forall_cons; try apply List.Forall_nil.

Lemma get_in32 l i : Forall in32 l -> in32 (get l i).
Proof.
  intros H. unfold get. destruct (nth_in_or_default i l 0) as [Hin| ->]; [|unfold in32; lia].
  by apply (proj1 (List.Forall_forall _ _) H).
Qed.

Lemma get_in8 l i : Forall in8 l -> in8 (get l i).
Proof.
  intros H. unfold get. destruct (nth_in_or_default i l 0) as [Hin| ->]; [|unfold in8; lia].
  by apply (proj1 (List.Forall_forall _ _) H).
Qed.

Lemma word_eq b i : Forall in8 b -> GET_ULONG_BE b (4 * i) = ref_word b i /\ in32 (ref_word b i).
Proof.
  intros H. unfold GET_ULONG_BE, ref_word. pose proof (get_in8 b (4 * i) H). pose proof (get_in8 b (4 * i + 1) H).
  pose proof (get_in8 b (4 * i + 2) H). pose proof (get_in8 b (4 * i + 3) H). unfold in8, in32 in *.
  split; [|lia]. rewrite !Z.shiftl_mul_pow2 by lia.
  rewrite (lor_add (_ * 2 ^ 24) _ 24), (lor_add (_ + _) _ 16), (lor_add (_ + _) _ 8); try lia; mod_lia.
Qed.

#[local] Hint Resolve lxor_in land_in lor_in u32_in get_in32 : in32.

Lemma P1_eq x : in32 x -> P1 x = ref_P1 x /\ in32 (ref_P1 x).
Proof.
  intros H. unfold P1, ref_P1. destruct (ROTL_rotl x 15 H) as [-> ?], (ROTL_rotl x 23 H) as [-> ?]. auto with in32.
Qed.

Lemma P0_eq x : in32 x -> P0 x = ref_P0 x /\ in32 (ref_P0 x).
Proof.
  intros H. unfold P0, ref_P0. destruct (ROTL_rotl x 9 H) as [-> ?], (ROTL_rotl x 17 H) as [-> ?]. auto with in32.
Qed.

Lemma expand_eq W j : Forall in32 W -> expand W j = ref_expand W j /\ Forall in32 (ref_expand W j).
Proof.
  intros H. unfold expand, ref_expand.
  destruct (ROTL_rotl (get W (j - 3)) 15 ltac:(auto with in32)) as [-> H1].
  destruct (ROTL_rotl (get W (j - 13)) 7 ltac:(auto with in32)) as [-> H2].
  destruct (P1_eq (Z.lxor (Z.lxor (get W (j - 16)) (get W (j - 9))) (rotl (get W (j - 3)) 15)) ltac:(auto with in32)) as [-> H3].
  split; [do 2 f_equal; symmetry; apply Z.lxor_assoc|]. apply Forall_app. split; [done|]. constructor; [auto with in32|constructor].
Qed.

Definition regs_in (r : regs) : Prop :=
  let 'Regs A B C D E F G H := r in Forall in32 [A; B; C; D; E; F; G; H].

Lemma FFGG_in j x y z : in32 x -> in32 y -> in32 z -> in32 (ref_FF j x y z) /\ in32 (ref_GG j x y z).
Proof.
  intros. unfold ref_FF, ref_GG. assert (in32 (W32 - 1 - x)) by (unfold in32 in *; lia).
  destruct (_ <? _)%nat; auto 7 with in32.
Qed.

Lemma lnot_u32 x : in32 x -> u32 (Z.lnot x) = W32 - 1 - x.
Proof. unfold in32, u32, Z.lnot. intros. mod_lia. Qed.

Lemma T_in j : in32 (T j).
Proof. unfold T, in32. destruct (_ <? _)%nat; lia. Qed.

Lemma round_eq FF GG W W1 r j : Forall in32 W -> regs_in r ->
  (forall x y z, in32 x -> FF x y z = ref_FF j x y z /\ GG x y z = ref_GG j x y z) ->
  get W1 j = Z.lxor (get W j) (get W (j + 4)) ->
  round FF GG W W1 r j = ref_round W r j /\ regs_in (ref_round W r j).
Proof.
  intros HW Hr HF HW1. destruct r as [A B C D E F G H]. unfold regs_in in Hr.
  repeat match goal with Hf : Forall _ (_ :: _) |- _ => apply Forall_cons in Hf as [? Hf] end.
  cbn [round ref_round].
  destruct (HF A B C) as [-> _]; [done|]. destruct (HF E F G) as [_ ->]; [done|]. rewrite HW1.
  destruct (ROTL_rotl A 12) as [-> ?]; [done|]. destruct (ROTL_rotl (T j) (Z.of_nat j)) as [-> ?]; [apply T_in|].
  destruct (ROTL_rotl B 9) as [-> ?]; [done|]. destruct (ROTL_rotl F 19) as [-> ?]; [done|].
  change (T j) with (ref_T j). unfold u32.
  destruct (ROTL_rotl ((rotl A 12 + E + rotl (ref_T j) (Z.of_nat j)) mod W32) 7) as [-> ?]; [apply u32_in|].
  set (t := (ref_GG j E F G + _ + _ + _) mod W32). destruct (P0_eq t) as [-> ?]; [apply u32_in|].
  split; [done|]. forall_cons; try done; apply u32_in.
Qed.

Lemma fold_in {A B} (f g : A -> B -> A) (P : A -> Prop) l : forall a, P a ->
  (forall a b, P a -> b ∈ l -> f a b = g a b /\ P (g a b)) -> fold_left f l a = fold_left g l a /\ P (fold_left g l a).
Proof.
  induction l as [|b l IH]; intros a Ha H; [done|]. cbn [fold_left].
  destruct (H a b Ha (list_elem_of_here _ _)) as [-> Hb]. apply IH; [done|].
  intros a' b' Ha' Hin. apply H; [done|by apply list_elem_of_further].
Qed.

Definition is_state (s : list Z) : Prop := length s = 8%nat /\ Forall in32 s.

Lemma xor_state s A B C D E F G H : is_state s -> Forall in32 [A; B; C; D; E; F; G; H] ->
  zip_with Z.lxor s [A; B; C; D; E; F; G; H] =
    [Z.lxor (get s 0) A; Z.lxor (get s 1) B; Z.lxor (get s 2) C; Z.lxor (get s 3) D;
     Z.lxor (get s 4) E; Z.lxor (get s 5) F; Z.lxor (get s 6) G; Z.lxor (get s 7) H] /\
  is_state (zip_with Z.lxor s [A; B; C; D; E; F; G; H]).
Proof.
  intros [Hl Hs] Hr. destruct s as [|s0 [|s1 [|s2 [|s3 [|s4 [|s5 [|s6 [|s7 [|]]]]]]]]]; try discriminate Hl.
  split; [reflexivity|]. split; [reflexivity|].
  repeat match goal with Hf : Forall _ (_ :: _) |- _ => apply Forall_cons in Hf as [? Hf] end.
  cbn [zip_with]. forall_cons; by apply lxor_in.
Qed.

Lemma process_eq ctx d : is_state (state ctx) -> Forall in8 d ->
  sm3_process ctx d = set_state (ref_CF (state ctx) d) ctx /\ is_state (ref_CF (state ctx) d).
Proof.
  intros [Hl Hs] Hd. unfold sm3_process, ref_CF.
  assert (HW0 : map (fun j => GET_ULONG_BE d (4 * j)) (seq 0 16) = map (ref_word d) (seq 0 16)).
  { apply map_ext. intros j. by apply word_eq. }
  rewrite HW0. destruct (fold_in expand ref_expand (Forall in32) (seq 16 52) (map (ref_word d) (seq 0 16))) as [-> HW].
  { apply Forall_map, Forall_true. intros j. by apply word_eq. }
  { intros W j H _. by apply expand_eq. }
  set (W := fold_left ref_expand _ _) in *. set (W1 := map _ (seq 0 64)).
  assert (HW1 : forall j, j ∈ seq 0 64 -> get W1 j = Z.lxor (get W j) (get W (j + 4))).
  { intros j Hj%elem_of_seq. unfold W1, get at 1.
    rewrite (nth_indep _ _ (Z.lxor (get W 0) (get W (0 + 4)))) by (rewrite length_map, length_seq; lia).
    rewrite (map_nth (fun j => Z.lxor (get W j) (get W (j + 4))) (seq 0 64) 0%nat j), seq_nth by lia. done. }
  set (r0 := Regs (get (state ctx) 0) _ _ _ _ _ _ _).
  assert (Hr0 : regs_in r0) by (unfold r0; forall_cons; by apply get_in32).
  change (seq 0 64) with (seq 0 16 ++ seq 16 48). rewrite fold_left_app.
  destruct (fold_in (round FF0 GG0 W W1) (ref_round W) regs_in (seq 0 16) r0 Hr0) as [-> Hr1].
  { intros r j H Hj%elem_of_seq. apply round_eq; [done|done| |apply HW1, elem_of_seq; lia].
    intros x y z _. unfold ref_FF, ref_GG. by rewrite (proj2 (Nat.ltb_lt j 16)) by lia. }
  destruct (fold_in (round FF1 GG1 W W1) (ref_round W) regs_in (seq 16 48) _ Hr1) as [-> Hr2].
  { intros r j H Hj%elem_of_seq. apply round_eq; [done|done| |apply HW1, elem_of_seq; lia].
    intros x y z Hx. unfold ref_FF, ref_GG, FF1, GG1. rewrite (proj2 (Nat.ltb_ge j 16)) by lia.
    rewrite (lnot_u32 x Hx). split; reflexivity. }
  destruct (fold_left _ (seq 16 48) _) as [A B C D E F G H].
  apply (xor_state _ _ _ _ _ _ _ _ _ (conj Hl Hs)) in Hr2 as [-> Hr2]. by split.
Qed.

(** ** Taking the message in pieces *)

Lemma ref_blocks_app q : forall n s m0 x, length m0 = (64 * q)%nat ->
  ref_blocks (q + n) s (m0 ++ x) = ref_blocks n (ref_blocks q s m0) x.
Proof.
  induction q as [|q IH]; intros n s m0 x L.
  - by destruct m0; [|cbn in L; lia].
  - cbn [ref_blocks Nat.add]. rewrite take_app_le, drop_app_le by lia. apply IH. rewrite length_drop. lia.
Qed.

Lemma process_pads c d : opad (sm3_process c d) = opad c.
Proof.
  unfold sm3_process. cbv zeta. generalize (fold_left expand (seq 16 52) (map (fun j => GET_ULONG_BE d (4 * j)) (seq 0 16))).
  intros W. set (r := fold_left _ (seq 16 48) _). destruct r. reflexivity.
Qed.

Lemma set_state_twice a b c : set_state a (set_state b c) = set_state a c.
Proof. done. Qed.

#[local] Opaque ref_CF sm3_process.

Lemma blocks_eq n : forall ctx p, is_state (state ctx) -> Forall in8 p -> (64 * n <= length p)%nat ->
  forall ilen, n = Z.to_nat (ilen / 64) -> 0 <= ilen ->
  blocks n ctx p ilen = (set_state (ref_blocks n (state ctx) (take (64 * n) p)) ctx, drop (64 * n) p, ilen mod 64) /\
  is_state (ref_blocks n (state ctx) (take (64 * n) p)).
Proof.
  induction n as [|n IH]; intros ctx p Hs Hp L ilen Hn Hi; cbn [blocks].
  - rewrite Z.mod_small by mod_lia. rewrite Nat.mul_0_r, drop_0. cbn [ref_blocks take]. by destruct ctx.
  - rewrite (proj2 (Z.leb_le 64 ilen)) by mod_lia.
    destruct (process_eq ctx (take 64 p) Hs ltac:(by apply Forall_take)) as [-> Hs'].
    destruct (IH (set_state (ref_CF (state ctx) (take 64 p)) ctx) (drop 64 p)) with (ilen := ilen - 64) as [-> Hs''];
      try done; [by apply Forall_drop|rewrite length_drop; lia|mod_lia|mod_lia|].
    cbn [state set_state total0 total1 buffer ipad opad] in *.
    assert (E : ref_blocks n (ref_CF (state ctx) (take 64 p)) (take (64 * n) (drop 64 p)) =
                ref_blocks (S n) (state ctx) (take (64 * S n) p)).
    { cbn [ref_blocks]. rewrite take_take, Nat.min_l, take_drop_commute by lia. do 2 f_equal. f_equal. lia. }
    rewrite E, set_state_twice, drop_drop in *. split; [|done].
    replace ((ilen - 64) mod 64) with (ilen mod 64) by mod_lia. by replace (64 + 64 * n)%nat with (64 * S n)%nat by lia.
Qed.

(** What the context holds after the message [m]: the state after the whole blocks,
    the rest at the front of the buffer. *)
Definition absorbed (ctx : sm3_context) (m : list Z) : Prop :=
  Forall in8 m /\ length (buffer ctx) = 64%nat /\ is_state (state ctx) /\
  exists q m0 t, m = m0 ++ t /\ length m0 = (64 * q)%nat /\ (length t < 64)%nat /\
    state ctx = ref_blocks q iv m0 /\ take (length t) (buffer ctx) = t.

Lemma memcpy_length d a s n : length d = 64%nat -> (a + n <= 64)%nat -> (n <= length s)%nat ->
  length (memcpy d a s n) = 64%nat.
Proof. intros. unfold memcpy. rewrite !length_app, length_take, length_take, length_drop. lia. Qed.

Lemma memcpy_take d a s n : length d = 64%nat -> (a + n <= 64)%nat -> (n <= length s)%nat ->
  take (a + n) (memcpy d a s n) = take a d ++ take n s.
Proof.
  intros. unfold memcpy. rewrite app_assoc, take_app_length'; [done|]. rewrite length_app, !length_take. lia.
Qed.

(** A piece that fits the rest of the buffer. *)
Lemma absorb_buffer ctx m p k : absorbed ctx m -> Forall in8 p -> (k <= length p)%nat -> (length m mod 64 + k < 64)%nat ->
  absorbed (set_buffer (memcpy (buffer ctx) (length m mod 64) p k) ctx) (m ++ take k p).
Proof.
  intros (Hm & Hb & Hs & q & m0 & t & -> & L & Lt & E & Ht) Hp Hk Hfit.
  assert (El : (length (m0 ++ t) mod 64)%nat = length t).
  { rewrite length_app, L, Nat.add_comm, Nat.mul_comm, Nat.Div0.mod_add. by apply Nat.mod_small. }
  rewrite El in *. repeat split.
  - apply Forall_app. split; [done|by apply Forall_take].
  - apply memcpy_length; [done|lia|done].
  - apply Hs.
  - apply Hs.
  - exists q, m0, (t ++ take k p). assert (Hl : length (t ++ take k p) = (length t + k)%nat) by (rewrite length_app, length_take; lia).
    repeat split; [by rewrite app_assoc|done|lia|done|]. cbn [buffer set_buffer].
    rewrite Hl, memcpy_take by (done || lia). by rewrite Ht.
Qed.

(** A piece that completes the block in the buffer. *)
Lemma absorb_fill ctx m p : absorbed ctx m -> Forall in8 p -> let l := (length m mod 64)%nat in (64 - l <= length p)%nat ->
  let ctx' := set_buffer (memcpy (buffer ctx) l p (64 - l)) ctx in
  let r := sm3_process ctx' (buffer ctx') in
  absorbed r (m ++ take (64 - l) p) /\ total0 r = total0 ctx /\ total1 r = total1 ctx.
Proof.
  intros (Hm & Hb & Hs & q & m0 & t & -> & L & Lt & E & Ht) Hp l Hk. apply Forall_app in Hm as [Hm0 Hmt].
  assert (El : l = length t).
  { unfold l. rewrite length_app, L, Nat.add_comm, Nat.mul_comm, Nat.Div0.mod_add. by apply Nat.mod_small. }
  clearbody l. subst l. cbv zeta. set (b := memcpy (buffer ctx) (length t) p (64 - length t)).
  assert (Lb : length b = 64%nat) by (apply memcpy_length; lia).
  assert (Eb : b = t ++ take (64 - length t) p).
  { rewrite <- (firstn_all2 (n := 64) b) by lia. unfold b. replace 64%nat with (length t + (64 - length t))%nat at 1 by lia.
    rewrite memcpy_take by (done || lia). by rewrite Ht. }
  assert (Fb : Forall in8 b) by (rewrite Eb; apply Forall_app; split; [done|by apply Forall_take]).
  cbn [buffer set_buffer].
  destruct (process_eq (set_buffer b ctx) b Hs Fb) as [-> Hs']. cbn [total0 total1 set_state set_buffer].
  split; [|done]. split; [|split; [done|split; [done|]]].
  - rewrite <- app_assoc, <- Eb. by apply Forall_app.
  - exists (S q), (m0 ++ b), []. rewrite app_nil_r, <- app_assoc, <- Eb. repeat split; [rewrite length_app; lia|cbn; lia|].
    cbn [state set_state set_buffer]. replace (S q) with (q + 1)%nat by lia. rewrite ref_blocks_app by done.
    cbn [ref_blocks]. rewrite <- E, firstn_all2 by lia. done.
Qed.

(** Whole blocks from the input. *)
Lemma absorb_blocks ctx m p ilen : absorbed ctx m -> Forall in8 p -> (length m mod 64 = 0)%nat ->
  0 <= ilen <= Z.of_nat (length p) ->
  let n := Z.to_nat (ilen / 64) in
  exists ctx', blocks n ctx p ilen = (ctx', drop (64 * n) p, ilen mod 64) /\ absorbed ctx' (m ++ take (64 * n) p) /\
    total0 ctx' = total0 ctx /\ total1 ctx' = total1 ctx.
Proof.
  intros (Hm & Hb & Hs & q & m0 & t & -> & L & Lt & E & Ht) Hp H0 Hi n.
  assert (t = []) as ->.
  { apply nil_length_inv. rewrite length_app, L, Nat.add_comm, Nat.mul_comm, Nat.Div0.mod_add, Nat.mod_small in H0; done. }
  assert (Hn : (64 * n <= length p)%nat) by (unfold n; mod_lia).
  destruct (blocks_eq n ctx p Hs Hp Hn ilen eq_refl) as [-> Hs']; [lia|].
  eexists. split; [done|]. split; [|done]. rewrite app_nil_r in *.
  split; [apply Forall_app; split; [done|by apply Forall_take]|]. split; [done|]. split; [done|].
  exists (q + n)%nat, (m0 ++ take (64 * n) p), []. rewrite app_nil_r.
  repeat split; [rewrite length_app, length_take; lia|cbn; lia|]. cbn [state set_state].
  by rewrite ref_blocks_app, <- E.
Qed.

Definition holds (ctx : sm3_context) (m : list Z) : Prop :=
  absorbed ctx m /\ total0 ctx = Z.of_nat (length m) mod W32 /\ total1 ctx = Z.of_nat (length m) / W32 mod W64.

Lemma land_63 z : Z.land z 63 = z mod 64.
Proof. change 63 with (Z.ones 6). by rewrite Z.land_ones. Qed.

(** The counters: [total[0]] and [total[1]] together count the bytes. *)
Lemma totals_step L n : 0 <= L -> 0 < n < 2 ^ 31 ->
  let t0 := Z.land (u64 (L mod W32 + n)) 4294967295 in
  t0 = (L + n) mod W32 /\
  (if t0 <? n then u64 (L / W32 mod W64 + 1) else L / W32 mod W64) = (L + n) / W32 mod W64.
Proof.
  intros HL Hn t0. assert (E : t0 = (L + n) mod W32).
  { unfold t0, u64. change 4294967295 with (Z.ones 32). rewrite Z.land_ones by lia. change (2 ^ 32) with W32.
    rewrite (Z.mod_small (L mod W32 + n)) by mod_lia. by rewrite Z.add_mod_idemp_l by lia. }
  split; [done|]. rewrite E. clear t0 E. unfold u64.
  pose proof (Z.div_mod L W32 ltac:(lia)) as EL. pose proof (Z.mod_pos_bound L W32 ltac:(lia)) as BL.
  set (q := L / W32) in *. set (r := L mod W32) in *.
  destruct (Z_lt_ge_dec (r + n) W32) as [Hc|Hc].
  - assert ((L + n) mod W32 = r + n) as -> by (symmetry; apply (Z.mod_unique _ _ q); lia).
    assert ((L + n) / W32 = q) as -> by (symmetry; apply (Z.div_unique _ _ _ (r + n)); lia).
    by rewrite (proj2 (Z.ltb_ge _ _)) by lia.
  - assert ((L + n) mod W32 = r + n - W32) as -> by (symmetry; apply (Z.mod_unique _ _ (q + 1)); lia).
    assert ((L + n) / W32 = q + 1) as -> by (symmetry; apply (Z.div_unique _ _ _ (r + n - W32)); lia).
    rewrite (proj2 (Z.ltb_lt _ _)) by lia. by rewrite Z.add_mod_idemp_l by lia.
Qed.

Lemma take_plus {A} (a b : nat) (l : list A) : take (a + b) l = take a l ++ take b (drop a l).
Proof. rewrite <- (take_drop a l) at 1. rewrite take_app. f_equal; [by rewrite take_take, Nat.min_r by lia|].
  destruct (decide (a <= length l)%nat) as [H|H].
  - f_equal. rewrite length_take. lia.
  - rewrite (skipn_all2 l) by lia. by rewrite !take_nil.
Qed.

(** The last step of [sm3_update]: what is left goes to the buffer. *)
Lemma absorb_rest ctx m p k : absorbed ctx m -> Forall in8 p -> 0 <= k <= Z.of_nat (length p) ->
  (length m mod 64 + Z.to_nat k < 64)%nat ->
  absorbed (if 0 <? k then set_buffer (memcpy (buffer ctx) (length m mod 64) p (Z.to_nat k)) ctx else ctx)
           (m ++ take (Z.to_nat k) p).
Proof.
  intros H Hp Hk Hfit. destruct (Z.ltb_spec 0 k).
  - apply absorb_buffer; [done|done|lia|done].
  - assert (k = 0) as -> by lia. by rewrite take_0, app_nil_r.
Qed.

(** From a buffer at a block boundary: blocks, then the rest. *)
Lemma absorb_aligned ctx m p ilen : absorbed ctx m -> Forall in8 p -> (length m mod 64 = 0)%nat ->
  0 <= ilen <= Z.of_nat (length p) ->
  let r := let '(ctx, input, ilen) := blocks (Z.to_nat (ilen / 64)) ctx p ilen in
           if 0 <? ilen then set_buffer (memcpy (buffer ctx) 0 input (Z.to_nat ilen)) ctx else ctx in
  absorbed r (m ++ take (Z.to_nat ilen) p) /\ total0 r = total0 ctx /\ total1 r = total1 ctx.
Proof.
  intros H Hp H0 Hi. destruct (absorb_blocks ctx m p ilen H Hp H0 Hi) as (c1 & -> & Ha & T0 & T1).
  set (n := Z.to_nat (ilen / 64)) in *.
  assert (Hl : (length (m ++ take (64 * n) p) mod 64 = 0)%nat).
  { rewrite length_app, length_take, Nat.min_l by (unfold n; mod_lia).
    by rewrite Nat.mul_comm, Nat.Div0.mod_add. }
  split; [|destruct (0 <? ilen mod 64); done].
  replace (Z.to_nat ilen) with (64 * n + Z.to_nat (ilen mod 64))%nat by (unfold n; mod_lia).
  rewrite take_plus, app_assoc. rewrite <- Hl at 1. apply absorb_rest; try done.
  - by apply Forall_drop.
  - rewrite length_drop. unfold n. mod_lia.
  - rewrite Hl. mod_lia.
Qed.

Lemma update_holds ctx m p ilen : holds ctx m -> Forall in8 p -> 0 <= ilen <= Z.of_nat (length p) -> ilen < 2 ^ 31 ->
  holds (sm3_update ctx p ilen) (m ++ take (Z.to_nat ilen) p).
Proof.
  intros (Ha & T0 & T1) Hp Hi Hmax. unfold sm3_update. destruct (Z.leb_spec ilen 0) as [H0|H0].
  { assert (ilen = 0) as -> by lia. by rewrite take_0, app_nil_r. }
  rewrite T0, T1. destruct (totals_step (Z.of_nat (length m)) ilen ltac:(lia) ltac:(lia)) as [E0 E1].
  cbv zeta in E0, E1 |- *. rewrite E1, E0. clear E0 E1.
  set (L := Z.of_nat (length m)) in *. set (c0 := set_total _ _ ctx).
  assert (Ha0 : absorbed c0 m) by exact Ha.
  assert (EL : Z.of_nat (length (m ++ take (Z.to_nat ilen) p)) = L + ilen) by (rewrite length_app, length_take; lia).
  enough (Hr : forall r, absorbed r (m ++ take (Z.to_nat ilen) p) /\ total0 r = total0 c0 /\ total1 r = total1 c0 ->
               holds r (m ++ take (Z.to_nat ilen) p)).
  2: { intros r (Hx & Y0 & Y1). split; [done|]. rewrite EL, Y0, Y1. done. }
  rewrite land_63. replace (L mod W32 mod 64) with (Z.of_nat (length m mod 64)) by (rewrite Nat2Z.inj_mod; fold L; mod_lia).
  set (l := (length m mod 64)%nat) in *.
  destruct (Z.eqb_spec (Z.of_nat l) 0) as [El|El]; cbn [negb andb].
  { apply Hr. replace (Z.to_nat (Z.of_nat l)) with 0%nat by lia. apply absorb_aligned; [done|done|unfold l in *; lia|lia]. }
  rewrite Nat2Z.id. destruct (Z.leb_spec (64 - Z.of_nat l) ilen) as [Hf|Hf].
  - assert (Hl : (l < 64)%nat) by (apply Nat.mod_upper_bound; done).
    replace (Z.to_nat (64 - Z.of_nat l)) with (64 - l)%nat by lia.
    destruct (absorb_fill c0 m p Ha0 Hp) as (Ha1 & X0 & X1); [fold l; lia|]. fold l in Ha1, X0, X1.
    set (c1 := sm3_process _ _) in *. apply Hr. rewrite <- X0, <- X1.
    replace (Z.to_nat ilen) with ((64 - l) + Z.to_nat (ilen - (64 - Z.of_nat l)))%nat by lia.
    rewrite take_plus, app_assoc. apply absorb_aligned; [done|by apply Forall_drop| |rewrite length_drop; lia].
    rewrite length_app, length_take, Nat.min_l by lia.
    unfold l. pose proof (Nat.div_mod_eq (length m) 64). 
    replace (length m + (64 - length m mod 64))%nat with ((length m / 64 + 1) * 64)%nat by lia. apply Nat.Div0.mod_mul.
  - rewrite Z.div_small by lia. change (Z.to_nat 0) with 0%nat. cbn [blocks]. rewrite Nat2Z.id.
    apply Hr. split; [|by destruct (0 <? ilen)].
    apply absorb_rest; try done. fold l. lia.
Qed.

(** ** Padding and the digest *)

Lemma PUT_be n : PUT_ULONG_BE n = ref_be 4 n.
Proof. unfold PUT_ULONG_BE, u8. cbn [ref_be app]. rewrite !Z.shiftr_div_pow2, !Z.div_div by lia. done. Qed.

Lemma be_mod n : forall z, ref_be n (z mod 256 ^ Z.of_nat n) = ref_be n z.
Proof.
  induction n as [|n IH]; intros z; [done|]. cbn [ref_be]. rewrite Nat2Z.inj_succ, Z.pow_succ_r by lia.
  assert (Hp : 0 < 256 ^ Z.of_nat n) by (apply Z.pow_pos_nonneg; lia).
  rewrite Z.rem_mul_r by lia. f_equal.
  - rewrite (Z.mul_comm 256), Z.div_add, (Z.div_small (z mod 256)) by mod_lia. apply IH.
  - rewrite (Z.mul_comm 256), Z.mod_add by lia. by rewrite Z.mod_mod.
Qed.

Lemma be_app a : forall b z, ref_be (b + a) z = ref_be b (z / 256 ^ Z.of_nat a) ++ ref_be a z.
Proof.
  induction a as [|a IH]; intros b z; [by rewrite Nat.add_0_r, Z.div_1_r, app_nil_r|].
  rewrite Nat.add_succ_r. cbn [ref_be]. rewrite IH, Z.div_div, <- app_assoc by lia.
  by rewrite Nat2Z.inj_succ, Z.pow_succ_r by lia.
Qed.

Lemma be_length n z : length (ref_be n z) = n.
Proof. revert z. induction n; intros z; [done|]. cbn [ref_be]. rewrite length_app, IHn. cbn. lia. Qed.

Lemma be_in8 n z : Forall in8 (ref_be n z).
Proof.
  revert z. induction n as [|n IH]; intros z; [constructor|]. cbn [ref_be]. apply Forall_app. split; [apply IH|].
  constructor; [unfold in8; mod_lia|constructor].
Qed.

Lemma msglen_eq L : 0 <= L ->
  let t0 := L mod W32 in let t1 := L / W32 mod W64 in
  PUT_ULONG_BE (u32 (Z.lor (Z.shiftr t0 29) (u64 (Z.shiftl t1 3)))) ++ PUT_ULONG_BE (u32 (Z.shiftl t0 3)) = ref_be 8 (8 * L).
Proof.
  intros HL t0 t1. rewrite !PUT_be. change 8%nat with (4 + 4)%nat. rewrite be_app. change (256 ^ Z.of_nat 4) with W32.
  pose proof (be_mod 4) as M. change (256 ^ Z.of_nat 4) with W32 in M.
  rewrite <- (M (8 * L / W32)), <- (M (8 * L)). unfold u32, u64. f_equal; f_equal.
  - rewrite Z.shiftr_div_pow2, Z.shiftl_mul_pow2 by lia. rewrite Z.lor_comm.
    assert (H1 : 0 <= t0 / 2 ^ 29 < 2 ^ 3) by (unfold t0; mod_lia).
    rewrite (lor_add _ _ 3) by (try lia; unfold t1; mod_lia).
    replace (8 * L / W32) with (L / W32 * 2 ^ 3 + t0 / 2 ^ 29).
    2: { unfold t0. apply (Z.div_unique _ _ _ ((8 * (L mod W32)) mod W32)); mod_lia. }
    rewrite <- Z.add_mod_idemp_l by lia. rewrite <- (Z.add_mod_idemp_l (L / W32 * 2 ^ 3)) by lia. do 2 f_equal.
    unfold t1. generalize (L / W32). intros q. mod_lia.
  - rewrite Z.shiftl_mul_pow2 by lia. unfold t0. rewrite Z.mul_mod_idemp_l by lia. f_equal. lia.
Qed.

Lemma pad_eq len : let last := Z.of_nat len mod 64 in
  let padn := if last <? 56 then 56 - last else 120 - last in
  0 <= padn <= 64 /\ take (Z.to_nat padn) sm3_padding ++ ref_be 8 (8 * Z.of_nat len) = ref_pad len /\
  ((length (ref_pad len) + len) mod 64 = 0)%nat.
Proof.
  intros last padn. assert (E : padn = 1 + (55 - Z.of_nat len) mod 64).
  { unfold padn, last. destruct (Z.ltb_spec (Z.of_nat len mod 64) 56); mod_lia. }
  split; [unfold padn, last; destruct (_ <? _) eqn:?; mod_lia|].
  set (k := (55 - Z.of_nat len) mod 64) in *. assert (Hk : 0 <= k < 64) by (apply Z.mod_pos_bound; lia).
  unfold ref_pad. fold k. split.
  - rewrite E. replace (Z.to_nat (1 + k)) with (S (Z.to_nat k)) by lia. unfold sm3_padding. cbn [take app]. f_equal. f_equal.
    replace 63%nat with (Z.to_nat k + (63 - Z.to_nat k))%nat by lia. rewrite repeat_app. apply take_app_length'. by rewrite repeat_length.
  - cbn [length]. rewrite length_app, repeat_length, be_length. apply Nat2Z.inj. rewrite Nat2Z.inj_mod. unfold k. mod_lia.
Qed.

Lemma finish_absorbs ctx m : holds ctx m -> holds (sm3_finish ctx).1 (m ++ ref_pad (length m)).
Proof.
  intros H. pose proof H as ((Hm & _) & T0 & T1). unfold sm3_finish. cbn [fst]. rewrite T0, T1.
  rewrite msglen_eq, land_63 by lia. replace (Z.of_nat (length m) mod W32 mod 64) with (Z.of_nat (length m) mod 64) by mod_lia.
  destruct (pad_eq (length m)) as (Hp & Epad & Hal). cbv zeta in *. set (padn := if _ <? _ then _ else _) in *.
  assert (H1 : holds (sm3_update ctx sm3_padding padn) (m ++ take (Z.to_nat padn) sm3_padding)).
  { apply update_holds; [done| |change (length sm3_padding) with 64%nat; lia|lia].
    constructor; [unfold in8; lia|]. apply Forall_forall. intros x ->%list_elem_of_In%repeat_spec. unfold in8. lia. }
  apply (update_holds _ _ (ref_be 8 (8 * Z.of_nat (length m))) 8) in H1; [|apply be_in8|rewrite be_length; lia|lia].
  rewrite (firstn_all2 (ref_be 8 _)) in H1 by (by rewrite be_length). by rewrite <- app_assoc, Epad in H1.
Qed.

Lemma finish_output ctx : (sm3_finish ctx).2 = map (get (state (sm3_finish ctx).1)) (seq 0 8) ≫= PUT_ULONG_BE.
Proof. done. Qed.

Lemma finish_holds ctx m : holds ctx m -> (sm3_finish ctx).2 = ref_sm3 m.
Proof.
  intros H%finish_absorbs. rewrite finish_output. destruct (pad_eq (length m)) as (_ & _ & Hal).
  destruct H as ((_ & _ & [Hs8 _] & q & m0 & t & Em & L & Lt & Est & _) & _).
  assert (t = []) as ->.
  { apply nil_length_inv. apply (f_equal length) in Em. rewrite !length_app, L in Em.
    rewrite Nat.add_comm, Em, Nat.add_comm, Nat.mul_comm, Nat.Div0.mod_add, Nat.mod_small in Hal; done. }
  rewrite app_nil_r in Em. unfold ref_sm3. rewrite Em, L, Nat.mul_comm, Nat.div_mul, <- Est by done.
  destruct (state _) as [|s0 [|s1 [|s2 [|s3 [|s4 [|s5 [|s6 [|s7 [|]]]]]]]]]; try discriminate Hs8.
  cbn [map seq mbind list_bind get nth]. by rewrite !PUT_be.
Qed.

(** ** The class *)

Lemma starts_holds ctx : length (buffer ctx) = 64%nat -> holds (sm3_starts ctx) [].
Proof.
  intros Hb. split; [|done]. split; [constructor|]. split; [done|]. split.
  - split; [done|]. unfold iv, in32. forall_cons; lia.
  - exists 0%nat, [], []. by cbn; repeat split; lia.
Qed.

Lemma bytes_in8 s : Forall in8 (bytes s).
Proof. apply Forall_map, Forall_true. intros c. apply code_range. Qed.

(** One piece that fits, after a message. *)
Lemma update_all ctx m p : holds ctx m -> Forall in8 p -> Z.of_nat (length p) < 2 ^ 31 ->
  holds (sm3_update ctx p (Z.of_nat (length p))) (m ++ p).
Proof.
  intros H Hp L. pose proof (update_holds ctx m p (Z.of_nat (length p)) H Hp) as U.
  rewrite Nat2Z.id, firstn_all in U. apply U; lia.
Qed.

Lemma Update_holds ctx m s : holds ctx m -> Z.of_nat (length s) < 2 ^ 31 -> holds (Update ctx s) (m ++ bytes s).
Proof.
  intros H L. unfold Update. replace (s32 _) with (Z.of_nat (length (bytes s)))
    by (unfold bytes, s32; rewrite length_map; mod_lia).
  apply update_all; [done|apply bytes_in8|unfold bytes; by rewrite length_map].
Qed.

Lemma Update_pieces pieces : forall ctx m, holds ctx m -> Forall (fun s => Z.of_nat (length s) < 2 ^ 31) pieces ->
  holds (fold_left Update pieces ctx) (m ++ bytes (concat pieces)).
Proof.
  induction pieces as [|s l IH]; intros ctx m H F; cbn [fold_left concat]; [by rewrite app_nil_r|].
  apply Forall_cons in F as [L F]. unfold bytes. rewrite map_app, app_assoc. apply IH; [by apply Update_holds|done].
Qed.

Lemma sm3_ref garbage m : length garbage = 64%nat -> Forall in8 m -> Z.of_nat (length m) < 2 ^ 31 -> sm3 garbage m = ref_sm3 m.
Proof.
  intros Hg Hm L. apply finish_holds.
  apply (update_all _ []); [apply starts_holds; cbn; rewrite length_take; lia|done|done].
Qed.

Lemma ref_sm3_bytes m : Forall in8 (ref_sm3 m).
Proof.
  unfold ref_sm3. apply Forall_forall. intros x Hx. apply list_elem_of_bind in Hx as (w & Hx & _).
  pose proof (be_in8 4 w) as F. by apply (proj1 (Forall_forall _ _) F).
Qed.

Lemma ref_blocks_state n : forall s m, is_state s -> Forall in8 m -> is_state (ref_blocks n s m).
Proof.
  induction n as [|n IH]; intros s m Hs Hm; [done|]. cbn [ref_blocks]. apply IH; [|by apply Forall_drop].
  apply (process_eq (MkCtx 0 0 s [] [] []) (take 64 m) Hs). by apply Forall_take.
Qed.

Lemma ref_sm3_length m : Forall in8 m -> length (ref_sm3 m) = 32%nat.
Proof.
  intros Hm. unfold ref_sm3. set (p := m ++ _). assert (Hp : Forall in8 p).
  { apply Forall_app. split; [done|]. constructor; [unfold in8; lia|]. apply Forall_app. split; [|apply be_in8].
    apply Forall_forall. intros x ->%list_elem_of_In%repeat_spec. unfold in8. lia. }
  destruct (ref_blocks_state (length p / 64) iv p) as [Hl _]; [|done|].
  { split; [done|]. unfold iv, in32. forall_cons; lia. }
  destruct (ref_blocks _ _ _) as [|s0 [|s1 [|s2 [|s3 [|s4 [|s5 [|s6 [|s7 [|]]]]]]]]]; try discriminate Hl. done.
Qed.

(** The keyed hash: the key, or its hash when it is longer than a block, is combined with the
    two pads. *)
Definition ref_key (key : list Z) : list Z :=
  let k := if (64 <? length key)%nat then ref_sm3 key else key in k ++ repeat 0 (64 - length k).
Definition ref_hmac (key m : list Z) : list Z :=
  ref_sm3 (map (Z.lxor 0x5C) (ref_key key) ++ ref_sm3 (map (Z.lxor 0x36) (ref_key key) ++ m)).

Lemma pads_eq x key : in8 x -> Forall in8 key ->
  map u8 (zip_with Z.lxor (repeat x (length key)) key ++ repeat x (64 - length key)) =
  map (Z.lxor x) (key ++ repeat 0 (64 - length key)).
Proof.
  intros Hx Hk. rewrite !map_app. f_equal.
  - induction Hk as [|b k Hb _ IH]; [done|]. cbn. rewrite IH. f_equal. unfold u8. apply Z.mod_small. by apply (lxor_range 8).
  - generalize (64 - length key)%nat. intros n. induction n as [|n IH]; [done|]. cbn. rewrite IH, Z.lxor_0_r. f_equal.
    by apply Z.mod_small.
Qed.

Lemma ref_key_spec key : Forall in8 key -> Forall in8 (ref_key key) /\ length (ref_key key) = 64%nat.
Proof.
  intros Hk. unfold ref_key. set (k := if (64 <? length key)%nat then _ else _). assert (Forall in8 k /\ length k <= 64)%nat as [F L].
  { unfold k. destruct (Nat.ltb_spec 64 (length key)); [|done]. split; [apply ref_sm3_bytes|]. rewrite ref_sm3_length; [lia|done]. }
  split; [|rewrite length_app, repeat_length; lia]. apply Forall_app. split; [done|].
  apply Forall_forall. intros x ->%list_elem_of_In%repeat_spec. unfold in8. lia.
Qed.

Lemma map_xor_in8 x l : in8 x -> Forall in8 l -> Forall in8 (map (Z.lxor x) l).
Proof. intros Hx H. apply Forall_map. eapply Forall_impl; [exact H|]. intros y Hy. by apply (lxor_range 8). Qed.

(** The pads of the context outlive the hashing. *)
Lemma blocks_pads n : forall c p i, opad (blocks n c p i).1.1 = opad c.
Proof.
  induction n as [|n IH]; intros c p i; cbn [blocks]; [done|]. destruct (64 <=? i); [|done]. by rewrite IH, process_pads.
Qed.

Lemma update_pads c p i : opad (sm3_update c p i) = opad c.
Proof.
  unfold sm3_update. destruct (i <=? 0); [done|]. cbv zeta. set (t0 := Z.land _ 4294967295). set (t1 := if t0 <? i then _ else _).
  destruct (negb _ && _).
  all: match goal with |- context [blocks ?n ?c' ?p' ?i'] => pose proof (blocks_pads n c' p' i') as E;
    destruct (blocks n c' p' i') as [[c'' input] z]; cbn [fst] in E end.
  all: try rewrite process_pads in E; destruct (0 <? z); exact E.
Qed.

Lemma finish_context ctx m : holds ctx m ->
  length (buffer (sm3_finish ctx).1) = 64%nat /\ opad (sm3_finish ctx).1 = opad ctx.
Proof.
  intros H. split; [apply finish_absorbs in H as ((_ & Hb & _) & _); exact Hb|].
  unfold sm3_finish. cbn [fst]. by rewrite !update_pads.
Qed.

Lemma hmac_ref garbage key m : length garbage = 64%nat -> Forall in8 key -> Forall in8 m ->
  Z.of_nat (length key) < 2 ^ 31 -> Z.of_nat (length m) < 2 ^ 31 -> sm3_hmac garbage key m = ref_hmac key m.
Proof.
  intros Hg Hk Hm Lk Lm. unfold sm3_hmac, sm3_hmac_starts, sm3_hmac_update.
  set (k := if (64 <? length key)%nat then sm3 garbage key else key).
  assert (Ek : k = (if (64 <? length key)%nat then ref_sm3 key else key))
    by (unfold k; destruct (_ <? _)%nat; [by apply sm3_ref|done]).
  assert (Fk : Forall in8 k) by (rewrite Ek; destruct (_ <? _)%nat; [apply ref_sm3_bytes|done]).
  cbv zeta. rewrite !pads_eq by (done || (unfold in8; lia)). rewrite Ek. fold (ref_key key).
  destruct (ref_key_spec key Hk) as [Fr Lr]. set (ip := map (Z.lxor 0x36) (ref_key key)). set (op := map (Z.lxor 0x5C) (ref_key key)).
  assert (Fi : Forall in8 ip) by (apply map_xor_in8; [unfold in8; lia|done]).
  assert (Fo : Forall in8 op) by (apply map_xor_in8; [unfold in8; lia|done]).
  assert (Li : Z.of_nat (length ip) = 64) by (unfold ip; rewrite length_map; lia).
  assert (Lo : Z.of_nat (length op) = 64) by (unfold op; rewrite length_map; lia).
  set (c0 := set_pads ip op (new_ctx garbage)). cbn [ipad c0 set_pads].
  assert (H0 : holds (sm3_starts c0) []) by (apply starts_holds; cbn; rewrite length_take; lia).
  rewrite <- Li. pose proof (update_all _ _ ip H0 Fi ltac:(lia)) as H1. cbn [app] in H1.
  pose proof (update_all _ _ m H1 Hm Lm) as H2. set (c2 := sm3_update (sm3_update _ _ _) _ _) in *.
  unfold sm3_hmac_finish. pose proof (finish_holds c2 _ H2) as Ef. destruct (finish_context c2 _ H2) as [Bf Of].
  destruct (sm3_finish c2) as [c3 tmp]. cbn [fst snd] in *.
  assert (Oc : opad c2 = op) by (unfold c2; by rewrite !update_pads).
  replace (opad (sm3_starts c3)) with op by (change (opad (sm3_starts c3)) with (opad c3); by rewrite Of, Oc). rewrite <- Lo.
  pose proof (update_all _ _ op (starts_holds c3 Bf) Fo ltac:(lia)) as H4.
  assert (Ft : Forall in8 tmp) by (rewrite Ef; apply ref_sm3_bytes).
  assert (Lt : length tmp = 32%nat) by (rewrite Ef; apply ref_sm3_length, Forall_app; done).
  pose proof (update_all _ _ tmp H4 Ft ltac:(lia)) as H5. rewrite Lt in H5. change (Z.of_nat 32) with 32 in H5.
  apply finish_holds in H5. rewrite H5. unfold ref_hmac. by rewrite Ef.
Qed.

(** The digest of the standard's first example. *)
Example sm3_abc : ref_sm3 (bytes (lit "abc")) = bytes (HexStringToBin
  (lit "66c7f0f462eeedd9d1f2d46bdc10e4e24167c4875cf2f7a2297da02b8f4ba8e0") false).
Proof. vm_compute. reflexivity. Qed.

(** C30: [Sm3] computes the hash of the standard: whatever the uninitialised context holds and in
    whatever pieces shorter than 2^31 bytes the message arrives through [Update], [Final] returns
    the hash of the whole message, and [sm3_hmac] the keyed hash over it. A piece of
    2^31 bytes or more and less than 2^32 is ignored, because its length is passed as [int]. *)
Theorem sm3_equals_standard (garbage : list Z) :
  length garbage = 64%nat ->
  (forall pieces, Forall (fun s => Z.of_nat (length s) < 2 ^ 31) pieces ->
     Final (fold_left Update pieces (sm3_starts (new_ctx garbage))) = map chr (ref_sm3 (bytes (concat pieces)))) /\
  (forall key m, Forall in8 key -> Forall in8 m -> Z.of_nat (length key) < 2 ^ 31 -> Z.of_nat (length m) < 2 ^ 31 ->
     sm3_hmac garbage key m = ref_hmac key m) /\
  (forall ctx s, 2 ^ 31 <= Z.of_nat (length s) < 2 ^ 32 -> Update ctx s = ctx).
Proof.
  intros Hg. split; [|split].
  - intros pieces F. unfold Final. erewrite finish_holds; [done|].
    apply (Update_pieces pieces _ []); [|done]. apply starts_holds. cbn. rewrite length_take. lia.
  - intros. by apply hmac_ref.
  - intros ctx s L. unfold Update, sm3_update. destruct (Z.leb_spec (s32 (Z.of_nat (length s))) 0); [done|].
    unfold s32 in *. mod_lia.
Qed.

Lemma sm3_equals_standard_witness :
  Final (fold_left Update [lit "a"; lit "bc"] (sm3_starts (new_ctx (repeat 7 64)))) = map chr (ref_sm3 (bytes (lit "abc"))).
Proof.
  apply (proj1 (sm3_equals_standard (repeat 7 64) eq_refl) [lit "a"; lit "bc"]).
  repeat (apply List.Forall_cons; [by apply Z.ltb_lt|]). apply List.Forall_nil.
Defined.
