(* ===== verification/Keys.v ===== *)
(** * Keys and addresses

    [PublicKey] and [PrivateKey] (src/common/private_key.cpp): the encodings of
    addresses, public keys and private keys with their checksums, signing and
    verification. SHA-256, the Ed25519 and the SM2 primitives and the random
    source are parameters; SM3, Base58 and hexadecimal are the modelled ones. *)
From S2P Require Import Prelude Strings Base58 Sm3.

Module Keys.
Import Strings.

(** [SignatureType], [PrivateKeyPrefix] and the key lengths (private_key.h). An
    enumeration holds what it was cast from. *)
Definition SIGNTYPE_NONE : Z := 0.
Definition SIGNTYPE_ED25519 : Z := 1.
Definition SIGNTYPE_CFCASM2 : Z := 2.
Definition ADDRESS_PREFIX : Z := 0xa0.
Definition PUBLICKEY_PREFIX : Z := 0xb0.
Definition PRIVATEKEY_PREFIX : Z := 0xc0.
Definition ED25519_ADDRESS_LENGTH : Z := 20.
Definition ED25519_PUBLICKEY_LENGTH : Z := 32.
Definition ED25519_PRIVATEKEY_LENGTH : Z := 32.
Definition SM2_ADDRESS_LENGTH : Z := 20.
Definition SM2_PUBLICKEY_LENGTH : Z := 65.
Definition SM2_PRIVATEKEY_LENGTH : Z := 32.

(** What the code calls outside: OpenSSL, ed25519-donna, the SM2 curve, the random
    bytes of the system, and the contents of an uninitialised SM3 context. *)
Class KeyParams := {
  Sha256_Crypto : str -> str;
  ed25519_publickey : str -> str;
  ed25519_sign : str -> str -> str -> str;               (* message, secret key, public key *)
  ed25519_sign_open : str -> str -> str -> Z;            (* message, public key, signature *)
  sm2_public : str -> str;                               (* From(skey).GetPublicKey() *)
  sm2_sign : str -> str -> str;                          (* secret key, message *)
  sm2_verify : str -> str -> str -> Z;                   (* public key, message, signature *)
  GetStrongRandBytes : option str;                       (* 32 bytes *)
  sm2_random : str;                                      (* NewRandom().getSkeyBin() *)
  uninitialised : list Z }.

(** [PublicKey]: [raw_pub_key_], [valid_], [type_]. *)
Record PublicKey := MkPublicKey { raw_pub_key_ : str; pub_valid_ : bool; pub_type_ : Z }.
(** [PrivateKey]: [raw_priv_key_], [valid_], [type_], [pub_key_]. *)
Record PrivateKey := MkPrivateKey { raw_priv_key_ : str; valid_ : bool; type_ : Z; pub_key_ : PublicKey }.

Section Keys.
Context `{KP : KeyParams}.

(** ** Encodings *)

Definition EncodeAddress (address : str) : str := Base58.Encode address.
Definition DecodeAddress (address : str) : outcome str := Base58.Decode_str address.
Definition EncodePublicKey (key : str) : str := BinToHexString key.
Definition DecodePublicKey (key : str) : str := HexStringToBin key false.
Definition EncodePrivateKey (key : str) : str := Base58.Encode key.
Definition DecodePrivateKey (key : str) : outcome str := Base58.Decode_str key.

Definition CalcHash (value : str) (sign_type : Z) : str :=
  if sign_type =? SIGNTYPE_CFCASM2 then Sm3.Crypto uninitialised value else Sha256_Crypto value.

(** The checksum: four bytes of the hash of the hash. *)
Definition checksum (value : str) (sign_type : Z) : str := take 4 (CalcHash (CalcHash value sign_type) sign_type).

Definition at_ (s : str) (i : nat) : Z := code (nth i s NUL).
Definition size (s : str) : Z := Z.of_nat (length s).

(** The last four bytes are the checksum of the ones before. *)
Definition checksum_ok (buff : str) (sign_type : Z) : bool :=
  bool_decide (drop (length buff - 4) buff = checksum (take (length buff - 4) buff) sign_type).

(** [GetPublicKeyElement]: prefix, type and raw key when it returns true. *)
Definition GetPublicKeyElement (encode_pub_key : str) : option (Z * Z * str) :=
  let buff := DecodePublicKey encode_pub_key in
  if size buff <? 6 then None
  else
    let a := at_ buff 0 in
    let b := at_ buff 1 in
    if negb (a =? PUBLICKEY_PREFIX) then None
    else
      let datalen := size buff - 6 in
      let ret := if b =? SIGNTYPE_ED25519 then ED25519_PUBLICKEY_LENGTH =? datalen
                 else if b =? SIGNTYPE_CFCASM2 then SM2_PUBLICKEY_LENGTH =? datalen
                 else false in
      if ret then
        if checksum_ok buff b then Some (a, b, substr 2 (length buff - 6) buff) else None
      else None.

(** [GetKeyElement]: an address or a private key. *)
Definition GetKeyElement (encode_key : str) : outcome (option (Z * Z * str)) :=
  let* buff := DecodeAddress encode_key in
  let prefix_tmp :=
    if (size buff =? 27) && (at_ buff 0 =? 0x01) && (at_ buff 1 =? 0x56) then Some ADDRESS_PREFIX
    else if (size buff =? 41) && (at_ buff 0 =? 0xDA) && (at_ buff 1 =? 0x37) && (at_ buff 2 =? 0x9F) then Some PRIVATEKEY_PREFIX
    else None in
  match prefix_tmp with
  | None => Returns None
  | Some prefix_tmp =>
      let '(sign_type_tmp, ret) :=
        if prefix_tmp =? ADDRESS_PREFIX then
          let a := at_ buff 2 in
          let datalen := size buff - 7 in
          (a, if a =? SIGNTYPE_ED25519 then ED25519_ADDRESS_LENGTH =? datalen
              else if a =? SIGNTYPE_CFCASM2 then SM2_ADDRESS_LENGTH =? datalen else false)
        else
          let a := at_ buff 3 in
          let datalen := size buff - 9 in
          (a, if a =? SIGNTYPE_ED25519 then ED25519_PRIVATEKEY_LENGTH =? datalen
              else if a =? SIGNTYPE_CFCASM2 then SM2_PRIVATEKEY_LENGTH =? datalen else false) in
      if ret then
        if checksum_ok buff sign_type_tmp then
          Returns (Some (prefix_tmp, sign_type_tmp,
            if prefix_tmp =? ADDRESS_PREFIX then substr 3 (length buff - 7) buff else substr 4 (length buff - 9) buff))
        else Returns None
      else Returns None
  end.

Definition GetSignTypeDesc (type : Z) : str :=
  if type =? SIGNTYPE_CFCASM2 then lit "sm2" else if type =? SIGNTYPE_ED25519 then lit "ed25519" else [].
Definition GetSignTypeByDesc (desc : str) : Z :=
  if bool_decide (desc = lit "sm2") then SIGNTYPE_CFCASM2
  else if bool_decide (desc = lit "ed25519") then SIGNTYPE_ED25519 else SIGNTYPE_NONE.

(** ** [PublicKey] *)

Definition PublicKey_new : PublicKey := MkPublicKey [] false SIGNTYPE_ED25519.
Definition PublicKey_of (encode_pub_key : str) : PublicKey :=
  match GetPublicKeyElement encode_pub_key with
  | Some (prefix, t, raw) => MkPublicKey raw (prefix =? PUBLICKEY_PREFIX) t
  | None => PublicKey_new
  end.

Definition IsAddressValid (encode_address : str) : outcome bool :=
  let* e := GetKeyElement encode_address in
  Returns (match e with Some (prefix, _, _) => prefix =? ADDRESS_PREFIX | None => false end).

Definition GetEncAddress (k : PublicKey) : str :=
  let str_result := [chr 0x01; chr 0x56] ++ [chr (pub_type_ k)] ++ drop 12 (CalcHash (raw_pub_key_ k) (pub_type_ k)) in
  EncodeAddress (str_result ++ checksum str_result (pub_type_ k)).

Definition GetEncPublicKey (k : PublicKey) : str :=
  let str_result := [chr PUBLICKEY_PREFIX] ++ [chr (pub_type_ k)] ++ raw_pub_key_ k in
  EncodePublicKey (str_result ++ checksum str_result (pub_type_ k)).

Definition Verify (data signature encode_public_key : str) : bool :=
  match GetPublicKeyElement encode_public_key with
  | None => false
  | Some (prefix, sign_type, raw_pubkey) =>
      if negb (prefix =? PUBLICKEY_PREFIX) then false
      else if negb (size signature =? 64) then false
      else if sign_type =? SIGNTYPE_ED25519 then ed25519_sign_open data raw_pubkey signature =? 0
      else if sign_type =? SIGNTYPE_CFCASM2 then sm2_verify raw_pubkey data signature =? 1
      else false
  end.

(** ** [PrivateKey] *)

(** The constructor that makes a key pair. *)
Definition PrivateKey_generate (type : Z) : PrivateKey :=
  if type =? SIGNTYPE_ED25519 then
    match GetStrongRandBytes with
    | None => MkPrivateKey (repeat NUL 32) false type PublicKey_new
    | Some raw => MkPrivateKey raw true type (MkPublicKey (ed25519_publickey raw) true type)
    end
  else if type =? SIGNTYPE_CFCASM2 then
    MkPrivateKey sm2_random true type (MkPublicKey (sm2_public sm2_random) true type)
  else MkPrivateKey [] true type (MkPublicKey [] true type).

(** [From]; the fields are kept where the text is no key. *)
Definition From (k : PrivateKey) (encode_private_key : str) : outcome (bool * PrivateKey) :=
  let* e := GetKeyElement encode_private_key in
  Returns match e with
  | None => (false, MkPrivateKey (raw_priv_key_ k) false (type_ k) (pub_key_ k))
  | Some (prefix, type, raw) =>
      if negb (prefix =? PRIVATEKEY_PREFIX) then (false, MkPrivateKey raw false type (pub_key_ k))
      else
        let tmp := if type =? SIGNTYPE_ED25519 then ed25519_publickey raw
                   else if type =? SIGNTYPE_CFCASM2 then sm2_public raw else [] in
        (true, MkPrivateKey raw true type (MkPublicKey tmp true type))
  end.

(** The constructor from a text; [type] is what the uninitialised field holds. *)
Definition PrivateKey_of (type : Z) (encode_private_key : str) : outcome PrivateKey :=
  let* r := From (MkPrivateKey [] false type PublicKey_new) encode_private_key in Returns (snd r).

Definition Sign (k : PrivateKey) (input : str) : str :=
  if type_ k =? SIGNTYPE_ED25519 then ed25519_sign input (raw_priv_key_ k) (raw_pub_key_ (pub_key_ k))
  else if type_ k =? SIGNTYPE_CFCASM2 then sm2_sign (raw_priv_key_ k) input
  else [].

Definition GetEncPrivateKey (k : PrivateKey) : str :=
  let str_result := [chr 0xDA; chr 0x37; chr 0x9F] ++ [chr (type_ k)] ++ raw_priv_key_ k ++ [NUL] in
  EncodePrivateKey (str_result ++ checksum str_result (type_ k)).

Definition Private_GetEncAddress (k : PrivateKey) : str := GetEncAddress (pub_key_ k).
Definition Private_GetEncPublicKey (k : PrivateKey) : str := GetEncPublicKey (pub_key_ k).
Definition Private_GetRawPublicKey (k : PrivateKey) : str := raw_pub_key_ (pub_key_ k).

End Keys.
End Keys.
