(* ===== verification/KeysFacts.v ===== *)
(** * What keys and addresses are good for

    The encodings are recognised and decoded to what was encoded, signatures made
    with a key are accepted for its public key, which texts are addresses, and that
    an address has several texts. *)
From S2P Require Import Prelude Strings StringsFacts Base58 Base58Facts Sm3 Sm3Facts Keys.

Import Strings Keys.

(** What the primitives document: sizes, and that signatures verify. *)
Class KeyLaws `{KP : KeyParams} := {
  sha_length s : length (Sha256_Crypto s) = 32%nat;
  ed_public_length s : length (ed25519_publickey s) = 32%nat;
  sm2_public_length s : length (sm2_public s) = 65%nat;
  random_length r : GetStrongRandBytes = Some r -> length r = 32%nat;
  sm2_random_length : length sm2_random = 32%nat;
  ed_sign_length m sk pk : length (ed25519_sign m sk pk) = 64%nat;
  ed_sign_opens m sk : length sk = 32%nat -> ed25519_sign_open m (ed25519_publickey sk) (ed25519_sign m sk (ed25519_publickey sk)) = 0;
  sm2_sign_length sk m : length (sm2_sign sk m) = 64%nat;
  sm2_sign_verifies sk m : length sk = 32%nat -> sm2_verify (sm2_public sk) m (sm2_sign sk m) = 1;
  uninitialised_length : length uninitialised = 64%nat }.

Section Facts.
Context `{KL : KeyLaws}.

Definition key_type (t : Z) : Prop := t = SIGNTYPE_ED25519 \/ t = SIGNTYPE_CFCASM2.

(** A public key with the length of its type; a private key with its public key. *)
Definition public_ok (p : PublicKey) : Prop :=
  pub_valid_ p = true /\ key_type (pub_type_ p) /\
  size (raw_pub_key_ p) = (if pub_type_ p =? SIGNTYPE_ED25519 then ED25519_PUBLICKEY_LENGTH else SM2_PUBLICKEY_LENGTH).
Definition private_ok (k : PrivateKey) : Prop :=
  valid_ k = true /\ key_type (type_ k) /\ length (raw_priv_key_ k) = 32%nat /\
  pub_key_ k = MkPublicKey (if type_ k =? SIGNTYPE_ED25519 then ed25519_publickey (raw_priv_key_ k) else sm2_public (raw_priv_key_ k))
                           true (type_ k).

Lemma Crypto_ref g s : length g = 64%nat -> Z.of_nat (length s) < 2 ^ 31 -> Sm3.Crypto g s = map chr (ref_sm3 (Sm3.bytes s)).
Proof.
  intros Hg L. unfold Sm3.Crypto, Sm3.Final. erewrite finish_holds; [done|].
  apply (Update_holds _ []); [|done]. apply starts_holds. cbn. rewrite length_take. lia.
Qed.

Lemma CalcHash_length s t : Z.of_nat (length s) < 2 ^ 31 -> length (CalcHash s t) = 32%nat.
Proof.
  intros L. unfold CalcHash. destruct (_ =? _); [|apply sha_length].
  rewrite Crypto_ref by (apply uninitialised_length || done). rewrite length_map. apply ref_sm3_length, bytes_in8.
Qed.

Lemma checksum_length s t : Z.of_nat (length s) < 2 ^ 31 -> length (checksum s t) = 4%nat.
Proof. intros L. unfold checksum. rewrite length_take, !CalcHash_length; lia || (rewrite CalcHash_length; lia). Qed.

(** A text followed by its checksum passes the test and splits again. *)
Lemma checksum_app s t : Z.of_nat (length s) < 2 ^ 31 -> checksum_ok (s ++ checksum s t) t = true.
Proof.
  intros L. unfold checksum_ok. rewrite length_app, checksum_length by done.
  replace (length s + 4 - 4)%nat with (length s) by lia.
  rewrite drop_app_length, take_app_length. by apply bool_decide_eq_true.
Qed.

Lemma checksum_ok_inv b t : checksum_ok b t = true -> exists s, b = s ++ checksum s t /\ length s = (length b - 4)%nat.
Proof.
  unfold checksum_ok. intros H%bool_decide_eq_true. exists (take (length b - 4) b).
  rewrite <- H, take_drop, length_take. split; [done|lia].
Qed.

Lemma substr_app (a b c : str) n : length b = n -> substr (length a) n (a ++ b ++ c) = b.
Proof. intros <-. unfold substr. by rewrite drop_app_length, take_app_length. Qed.

Lemma key_type_code t : key_type t -> code (chr t) = t.
Proof. intros [-> | ->]; by vm_compute. Qed.

(** ** Addresses *)

(** The 27 bytes of an address. *)
Definition address_bytes (t : Z) (data : str) : str :=
  let s := [chr 0x01; chr 0x56; chr t] ++ data in s ++ checksum s t.

Definition is_address (b : str) : Prop :=
  exists t data, key_type t /\ length data = 20%nat /\ b = address_bytes t data.

Lemma GetKeyElement_address a t data : key_type t -> length data = 20%nat ->
  DecodeAddress a = Returns (address_bytes t data) -> GetKeyElement a = Returns (Some (ADDRESS_PREFIX, t, data)).
Proof.
  intros Ht Ld E. unfold GetKeyElement. rewrite E. cbn [obind].
  assert (Ls : length ([chr 0x01; chr 0x56; chr t] ++ data) = 23%nat) by (rewrite length_app, Ld; done).
  assert (Lb : length (address_bytes t data) = 27%nat).
  { unfold address_bytes. rewrite length_app, checksum_length by lia. lia. }
  assert (S27 : size (address_bytes t data) = 27) by (unfold size; lia).
  assert (A0 : at_ (address_bytes t data) 0 = 1) by done.
  assert (A1 : at_ (address_bytes t data) 1 = 0x56) by done.
  assert (A2 : at_ (address_bytes t data) 2 = t) by (by apply key_type_code).
  rewrite S27, A0, A1, A2. cbn [Z.eqb Pos.eqb andb]. change (ADDRESS_PREFIX =? ADDRESS_PREFIX) with true. cbv iota.
  assert ((if t =? SIGNTYPE_ED25519 then ED25519_ADDRESS_LENGTH =? 27 - 7
           else if t =? SIGNTYPE_CFCASM2 then SM2_ADDRESS_LENGTH =? 27 - 7 else false) = true) as ->
    by (by destruct Ht as [-> | ->]).
  unfold address_bytes at 1. rewrite checksum_app by lia. rewrite Lb.
  do 3 f_equal. unfold address_bytes. rewrite <- app_assoc. apply (substr_app [_; _; _]). exact Ld.
Qed.

Lemma GetKeyElement_is_address a t data : GetKeyElement a = Returns (Some (ADDRESS_PREFIX, t, data)) ->
  key_type t /\ length data = 20%nat /\ DecodeAddress a = Returns (address_bytes t data).
Proof.
  unfold GetKeyElement. destruct (DecodeAddress a) as [b|]; [|done]. cbn [obind].
  destruct ((size b =? 27) && _ && _) eqn:E27.
  2: { destruct ((size b =? 41) && _ && _ && _); [|by intros [=]]. cbv iota beta.
    change (PRIVATEKEY_PREFIX =? ADDRESS_PREFIX) with false. cbv iota beta. intros H. repeat case_match; discriminate H. }
  apply andb_true_iff in E27 as [[Hs H0]%andb_true_iff H1]. cbv iota beta. change (ADDRESS_PREFIX =? ADDRESS_PREFIX) with true. cbv iota.
  set (t' := at_ b 2). destruct (if t' =? SIGNTYPE_ED25519 then _ else _) eqn:Et; [|done].
  destruct (checksum_ok b t') eqn:Ec; [|done]. intros H. injection H as <- <-.
  apply Z.eqb_eq in Hs, H0, H1. unfold size in *.
  assert (Ht : key_type t').
  { unfold key_type. destruct (Z.eqb_spec t' SIGNTYPE_ED25519); [by left|]. destruct (Z.eqb_spec t' SIGNTYPE_CFCASM2); [by right|done]. }
  apply checksum_ok_inv in Ec as (s & Eb & Ls). assert (L23 : length s = 23%nat) by lia.
  destruct s as [|c0 [|c1 [|c2 data]]]; try discriminate L23. 
  assert (Ld : length data = 20%nat) by (cbn in L23; lia).
  assert (Hd : substr 3 (length b - 7) b = data).
  { rewrite Eb at 2. change ((c0 :: c1 :: c2 :: data) ++ checksum (c0 :: c1 :: c2 :: data) t') with
      ([c0; c1; c2] ++ data ++ checksum (c0 :: c1 :: c2 :: data) t'). apply (substr_app [_; _; _]). lia. }
  rewrite Hd. repeat split; [done|done|]. f_equal. rewrite Eb. unfold address_bytes. 
  assert (c0 = chr 1) as -> by (rewrite <- (chr_code c0); f_equal; rewrite Eb in H0; exact H0).
  assert (c1 = chr 0x56) as -> by (rewrite <- (chr_code c1); f_equal; rewrite Eb in H1; exact H1).
  assert (c2 = chr t') as -> by (rewrite <- (chr_code c2); f_equal; unfold t'; rewrite Eb; done). done.
Qed.

(** ** Private and public keys *)

Definition private_bytes (t : Z) (raw : str) : str :=
  let s := [chr 0xDA; chr 0x37; chr 0x9F] ++ [chr t] ++ raw ++ [NUL] in s ++ checksum s t.

Lemma GetKeyElement_private a t raw : key_type t -> length raw = 32%nat ->
  DecodeAddress a = Returns (private_bytes t raw) -> GetKeyElement a = Returns (Some (PRIVATEKEY_PREFIX, t, raw)).
Proof.
  intros Ht Ld E. unfold GetKeyElement. rewrite E. cbn [obind].
  assert (Ls : length ([chr 0xDA; chr 0x37; chr 0x9F] ++ [chr t] ++ raw ++ [NUL]) = 37%nat)
    by (rewrite !length_app, Ld; done).
  assert (Lb : length (private_bytes t raw) = 41%nat).
  { unfold private_bytes. rewrite length_app, checksum_length by lia. lia. }
  assert (S41 : size (private_bytes t raw) = 41) by (unfold size; lia).
  assert (A0 : at_ (private_bytes t raw) 0 = 0xDA) by done.
  assert (A1 : at_ (private_bytes t raw) 1 = 0x37) by done.
  assert (A2 : at_ (private_bytes t raw) 2 = 0x9F) by done.
  assert (A3 : at_ (private_bytes t raw) 3 = t) by (by apply key_type_code).
  rewrite S41, A0, A1, A2, A3. cbn [Z.eqb Pos.eqb andb]. change (PRIVATEKEY_PREFIX =? ADDRESS_PREFIX) with false. cbv iota beta.
  assert ((if t =? SIGNTYPE_ED25519 then ED25519_PRIVATEKEY_LENGTH =? 41 - 9
           else if t =? SIGNTYPE_CFCASM2 then SM2_PRIVATEKEY_LENGTH =? 41 - 9 else false) = true) as ->
    by (by destruct Ht as [-> | ->]).
  unfold private_bytes at 1. rewrite checksum_app by lia. rewrite Lb.
  do 3 f_equal. unfold private_bytes.
  change (([chr 0xDA; chr 0x37; chr 0x9F] ++ [chr t] ++ raw ++ [NUL])) with ([chr 0xDA; chr 0x37; chr 0x9F; chr t] ++ raw ++ [NUL]).
  rewrite <- !app_assoc. apply (substr_app [_; _; _; _]). exact Ld.
Qed.

Lemma Decode_bytes b : (length b <= 256)%nat -> DecodeAddress (Base58.Encode b) = Returns b.
Proof. apply Decode_Encode. Qed.

Lemma address_decodes p : public_ok p ->
  length (drop 12 (CalcHash (raw_pub_key_ p) (pub_type_ p))) = 20%nat /\
  DecodeAddress (GetEncAddress p) = Returns (address_bytes (pub_type_ p) (drop 12 (CalcHash (raw_pub_key_ p) (pub_type_ p)))).
Proof.
  intros (_ & Ht & Hs). assert (L : Z.of_nat (length (raw_pub_key_ p)) < 2 ^ 31).
  { unfold size in Hs. rewrite Hs. by destruct (_ =? _). }
  assert (L20 : length (drop 12 (CalcHash (raw_pub_key_ p) (pub_type_ p))) = 20%nat)
    by (rewrite length_drop, CalcHash_length; done).
  split; [done|]. apply Decode_bytes. unfold address_bytes.
  rewrite length_app, checksum_length; rewrite length_app, L20; cbn; lia.
Qed.

Lemma private_decodes k : length (raw_priv_key_ k) = 32%nat ->
  DecodeAddress (GetEncPrivateKey k) = Returns (private_bytes (type_ k) (raw_priv_key_ k)).
Proof.
  intros L. apply Decode_bytes. unfold private_bytes.
  rewrite length_app, checksum_length; rewrite !length_app, L; cbn; lia.
Qed.

Lemma GetPublicKeyElement_GetEnc p : public_ok p ->
  GetPublicKeyElement (GetEncPublicKey p) = Some (PUBLICKEY_PREFIX, pub_type_ p, raw_pub_key_ p).
Proof.
  intros (_ & Ht & Hs). set (t := pub_type_ p) in *. set (raw := raw_pub_key_ p) in *.
  unfold GetPublicKeyElement, DecodePublicKey, GetEncPublicKey, EncodePublicKey. fold t raw.
  set (s := [chr PUBLICKEY_PREFIX] ++ [chr t] ++ raw). cbv zeta.
  assert (Ls : length s = S (S (length raw))) by done.
  assert (Hsm : Z.of_nat (length s) < 2 ^ 31) by (rewrite Ls; unfold size, ED25519_PUBLICKEY_LENGTH, SM2_PUBLICKEY_LENGTH in Hs; destruct (t =? _) in Hs; lia).
  assert (Lb : length (s ++ checksum s t) = (length raw + 6)%nat) by (rewrite length_app, checksum_length by done; lia).
  assert (E : HexStringToBin (BinToHexString (s ++ checksum s t)) false = s ++ checksum s t).
  { unfold HexStringToBin. rewrite length_BinToHex. rewrite (Nat.mul_comm 2), Nat.Div0.mod_mul. cbn [negb Nat.eqb orb].
    rewrite bool_decide_eq_false_2, hex_loop_BinToHex; [done|]. intros E%(f_equal length). rewrite length_BinToHex, Lb in E. cbn in E. lia. }
  rewrite E. unfold size at 1. rewrite Lb, (proj2 (Z.ltb_ge _ _)) by lia.
  assert (A0 : at_ (s ++ checksum s t) 0 = PUBLICKEY_PREFIX) by done.
  assert (A1 : at_ (s ++ checksum s t) 1 = t) by (by apply key_type_code).
  rewrite A0, A1, Z.eqb_refl. cbn [negb]. unfold size in *. rewrite Lb.
  replace (Z.of_nat (length raw + 6) - 6) with (Z.of_nat (length raw)) by lia. rewrite Hs.
  assert ((if t =? SIGNTYPE_ED25519 then ED25519_PUBLICKEY_LENGTH =? (if t =? SIGNTYPE_ED25519 then ED25519_PUBLICKEY_LENGTH else SM2_PUBLICKEY_LENGTH)
    else if t =? SIGNTYPE_CFCASM2 then SM2_PUBLICKEY_LENGTH =? (if t =? SIGNTYPE_ED25519 then ED25519_PUBLICKEY_LENGTH else SM2_PUBLICKEY_LENGTH) else false) = true) as ->
    by (by destruct Ht as [-> | ->]).
  rewrite checksum_app by done. do 2 f_equal. replace (length raw + 6 - 6)%nat with (length raw) by lia.
  unfold s. change (([chr PUBLICKEY_PREFIX] ++ [chr t] ++ raw)) with ([chr PUBLICKEY_PREFIX; chr t] ++ raw).
  rewrite <- app_assoc. by apply (substr_app [_; _]).
Qed.

Lemma private_public k : private_ok k -> public_ok (pub_key_ k).
Proof.
  intros (_ & Ht & _ & ->). split; [done|]. split; [done|]. cbn. unfold size.
  destruct (_ =? _); [by rewrite ed_public_length|by rewrite sm2_public_length].
Qed.

(** ** The texts of an address *)

(** [a'] is [a] with two neighbouring digits, the second of them 23, written as a smaller digit
    and a character outside the alphabet. *)
Definition alias_of (a a' : str) : Prop :=
  exists c p q d e, a = (c :: p) ++ [Base58.dict (d + 4); Base58.dict 23] ++ q /\ a' = (c :: p) ++ [Base58.dict d; e] ++ q /\
    c <> "1"%char /\ 0 <= d < 54 /\ Base58.digit58 e = Returns 255.

Lemma reads_app_inv s1 s2 ds : reads (s1 ++ s2) ds -> exists d1 d2, ds = d1 ++ d2 /\ reads s1 d1 /\ reads s2 d2.
Proof.
  unfold reads. intros H. apply mapM_Some in H. apply Forall2_app_inv_l in H as (d1 & d2 & H1 & H2 & ->).
  exists d1, d2. by rewrite !mapM_Some.
Qed.

Lemma decode_reads s b : Base58.Decode_str s = Returns b -> head s <> Some "1"%char -> exists ds, reads s ds.
Proof.
  intros E N. unfold Base58.Decode_str, Base58.Decode in E. pose proof (ones_spec 0 s N) as O. cbn [repeat app] in O. rewrite O, drop_0 in E.
  destruct (Base58.decode_loop _ s) as [rb|] eqn:El; [|done]. clear E. revert El. generalize (repeat 0 (Z.to_nat (Base58.new_size (Z.of_nat (length s - 0))))).
  clear. revert rb. induction s as [|c s IH]; intros rb rb0 El; [by exists []|]. cbn in El.
  destruct (Base58.digit58 c) as [d|] eqn:Ed; [|done]. apply IH in El as [ds R]. exists (d :: ds). by apply reads_cons.
Qed.

Lemma alias_decodes a a' b : alias_of a a' -> (length a < 355)%nat -> DecodeAddress a = Returns b ->
  DecodeAddress a' = Returns b /\ a' <> a.
Proof.
  intros (c & p & q & d & e & -> & -> & Hc & Hd & He) L E. rewrite !length_app in L.
  destruct (dict_digit d ltac:(lia)) as (R1 & _ & _). destruct (dict_digit (d + 4) ltac:(lia)) as (R2 & _ & _).
  destruct (dict_digit 23 ltac:(lia)) as (R3 & Al & _).
  destruct (decode_reads _ _ E) as [ds R]; [cbn; congruence|].
  apply reads_app_inv in R as (dp & dr & -> & Rp & R). apply reads_app_inv in R as (dm & dq & -> & Rm & Rq).
  assert (Em : reads [Base58.dict (d + 4); Base58.dict 23] [d + 4; 23]) by (by repeat apply reads_cons).
  assert (Ea : reads [Base58.dict d; e] [d; 255]) by (by repeat apply reads_cons).
  split.
  - rewrite <- E. unfold DecodeAddress. apply (Decode_same _ _ (dp ++ [d; 255] ++ dq) (dp ++ [d + 4; 23] ++ dq)).
    all: try (cbn; congruence); try (by repeat apply reads_app); try (rewrite !length_app; cbn in L |- *; lia).
    apply bval_alias.
  - intros H. apply app_inv_head in H. injection H as H1 H2. subst e. by rewrite R3 in He.
Qed.

Lemma IsAddressValid_decode a a' : DecodeAddress a' = DecodeAddress a -> IsAddressValid a' = IsAddressValid a.
Proof. intros E. unfold IsAddressValid, GetKeyElement. by rewrite E. Qed.

Lemma IsAddressValid_bytes a b : DecodeAddress a = Returns b -> IsAddressValid a = Returns true <-> is_address b.
Proof.
  intros E. split.
  - unfold IsAddressValid. destruct (GetKeyElement a) as [[[[pre t] data]|]|] eqn:G; [|done|done].
    cbn. intros [= Hp%Z.eqb_eq]. subst pre. apply GetKeyElement_is_address in G as (Ht & Ld & E').
    rewrite E in E'. injection E' as ->. by exists t, data.
  - intros (t & data & Ht & Ld & ->). unfold IsAddressValid. by rewrite (GetKeyElement_address a t data).
Qed.

(** The first digits of a number between two numbers that share them. *)
Lemma lead_digits ds N lo hi pre n :
  digits_in 58 ds -> no_lead ds -> bval 58 ds = N -> lo <= N <= hi ->
  digits_in 58 pre -> no_lead pre -> pre <> [] ->
  bval 58 pre * 58 ^ Z.of_nat n <= lo -> hi < (bval 58 pre + 1) * 58 ^ Z.of_nat n ->
  exists r, ds = pre ++ r /\ length r = n.
Proof.
  intros F Nl E B Fp Np Hne Hlo Hhi.
  assert (Hp1 : 58 ^ (Z.of_nat (length pre) - 1) <= bval 58 pre < 58 ^ Z.of_nat (length pre)) by (split; [by apply bval_lead; [lia|..]|by apply bval_range]).
  assert (Lp : (0 < length pre)%nat) by (destruct pre; [done|cbn; lia]).
  assert (Len : length ds = (length pre + n)%nat).
  { destruct (decide (ds = [])) as [->|Hds].
    { change (bval 58 []) with 0 in E. pose proof (Z.pow_pos_nonneg 58 (Z.of_nat (length pre) - 1) ltac:(lia) ltac:(lia)).
      pose proof (Z.pow_pos_nonneg 58 (Z.of_nat n) ltac:(lia) ltac:(lia)). nia. }
    pose proof (bval_range 58 ds ltac:(lia) F) as U. pose proof (bval_lead 58 ds ltac:(lia) F Nl Hds) as V. rewrite E in U, V.
    assert (U1 : 58 ^ (Z.of_nat (length pre) - 1 + Z.of_nat n) < 58 ^ Z.of_nat (length ds))
      by (rewrite Z.pow_add_r by lia; pose proof (Z.pow_pos_nonneg 58 (Z.of_nat n) ltac:(lia) ltac:(lia)); nia).
    assert (V1 : 58 ^ (Z.of_nat (length ds) - 1) < 58 ^ (Z.of_nat (length pre) + Z.of_nat n))
      by (rewrite Z.pow_add_r by lia; pose proof (Z.pow_pos_nonneg 58 (Z.of_nat n) ltac:(lia) ltac:(lia)); nia).
    apply Z.pow_lt_mono_r_iff in U1; [|lia..]. apply Z.pow_lt_mono_r_iff in V1; [|lia..]. lia. }
  exists (drop (length pre) ds). split; [|rewrite length_drop; lia].
  rewrite <- (take_drop (length pre) ds) at 1. f_equal.
  rewrite <- (take_drop (length pre) ds) in F. apply Forall_app in F as [F1 F2].
  apply (bval_inj 58); try done; [by destruct ds, pre|].
  rewrite <- (take_drop (length pre) ds), bval_app, length_drop in E.
  replace (length ds - length pre)%nat with n in E by lia. pose proof (bval_range 58 _ ltac:(lia) F2) as U. rewrite length_drop in U.
  replace (length ds - length pre)%nat with n in U by lia. nia.
Qed.

(** Every Ed25519 address starts with the same three characters. *)
Lemma ed_address_lead data : length data = 20%nat -> exists r,
  EncodeAddress (address_bytes SIGNTYPE_ED25519 data) = lit "buQ" ++ r /\ length r = 33%nat.
Proof.
  intros Ld. set (b := address_bytes SIGNTYPE_ED25519 data).
  destruct (Encode_spec 0 b) as (ds & E & F & N & _ & V); [done|]. cbn [repeat app] in E.
  assert (exists x, map code b = [1; 0x56; 1] ++ x /\ length x = 24%nat /\ digits_in 256 x) as (x & Ex & Lx & Fx).
  { exists (map code (data ++ checksum ([chr 1; chr 0x56; chr 1] ++ data) SIGNTYPE_ED25519)).
    split; [done|]. rewrite length_map, length_app, checksum_length, Ld; [|rewrite length_app, Ld; cbn; lia].
    split; [done|apply codes_in]. }
  rewrite Ex, bval_app, Lx in V. pose proof (bval_range 256 x ltac:(lia) Fx) as Rx. rewrite Lx in Rx.
  change (bval 256 [1; 0x56; 1]) with 87553 in V. change (256 ^ Z.of_nat 24) with 6277101735386680763835789423207666416102355444464034512896 in *.
  destruct (lead_digits ds _ (87553 * 6277101735386680763835789423207666416102355444464034512896)
    (87554 * 6277101735386680763835789423207666416102355444464034512896 - 1) [10; 27; 23] 33 F N V) as (r & -> & Lr).
  - lia.
  - repeat constructor; lia.
  - done.
  - done.
  - by apply Z.leb_le.
  - by apply Z.ltb_lt.
  - exists (map Base58.dict r). unfold EncodeAddress. rewrite E, map_app, length_map. split; [done|done].
Qed.

Lemma ed_address_alias data : length data = 20%nat -> exists r,
  EncodeAddress (address_bytes SIGNTYPE_ED25519 data) = lit "buQ" ++ r /\
  DecodeAddress (lit "bQ0" ++ r) = Returns (address_bytes SIGNTYPE_ED25519 data).
Proof.
  intros Ld. destruct (ed_address_lead data Ld) as (r & E & Lr). exists r. split; [done|].
  apply (alias_decodes (lit "buQ" ++ r)).
  - exists "b"%char, [], r, 23, "0"%char. by repeat split.
  - rewrite length_app, Lr. cbn. lia.
  - rewrite <- E. apply Decode_bytes. unfold address_bytes. rewrite length_app, checksum_length; rewrite length_app, Ld; cbn; lia.
Qed.

(** C29: The type of addresses: the text of a public key is accepted as an address and yields
    the type and the last 20 bytes of the hash of the key; a text that decodes is accepted exactly
    when it decodes to 01 56, the type Ed25519 or SM2, 20 bytes and the checksum of these; the text
    of a private key is no address, and the text of an address no private key. *)
Theorem address_type (p : PublicKey) (k k' : PrivateKey) (a b : str) :
  public_ok p -> private_ok k -> DecodeAddress a = Returns b ->
  IsAddressValid (GetEncAddress p) = Returns true /\
  GetKeyElement (GetEncAddress p) = Returns (Some (ADDRESS_PREFIX, pub_type_ p, drop 12 (CalcHash (raw_pub_key_ p) (pub_type_ p)))) /\
  (IsAddressValid a = Returns true <-> is_address b) /\
  IsAddressValid (GetEncPrivateKey k) = Returns false /\
  exists k'', From k' (GetEncAddress p) = Returns (false, k'') /\ valid_ k'' = false.
Proof.
  intros Hp (_ & Ht & Lk & _) E. destruct (address_decodes p Hp) as [L20 Ea]. pose proof Hp as (_ & Htp & _).
  pose proof (GetKeyElement_address _ _ _ Htp L20 Ea) as G.
  pose proof (GetKeyElement_private _ _ _ Ht Lk (private_decodes k Lk)) as Gk.
  split; [unfold IsAddressValid; by rewrite G|]. split; [done|].
  split; [by apply IsAddressValid_bytes|]. split; [unfold IsAddressValid; by rewrite Gk|].
  unfold From. rewrite G. cbn. by eexists.
Qed.


(** An address has several texts. Two neighbouring digits of which the second is [Q] can be written
    as a digit four smaller and any character outside the alphabet: the other text is accepted like the
    first and decodes to the same bytes. Every Ed25519 address starts with [buQ] and is also
    accepted with [bQ0] in its place. *)
Theorem address_aliases (a a' b data : str) :
  alias_of a a' -> (length a < 355)%nat -> DecodeAddress a = Returns b -> length data = 20%nat ->
  (a' <> a /\ DecodeAddress a' = DecodeAddress a /\ IsAddressValid a' = IsAddressValid a) /\
  exists r, EncodeAddress (address_bytes SIGNTYPE_ED25519 data) = lit "buQ" ++ r /\
    IsAddressValid (lit "bQ0" ++ r) = Returns true /\
    DecodeAddress (lit "bQ0" ++ r) = DecodeAddress (lit "buQ" ++ r).
Proof.
  intros Ha L E Ld. destruct (alias_decodes a a' b Ha L E) as [E' Hne]. split.
  - repeat split; [done|congruence|]. apply IsAddressValid_decode. congruence.
  - destruct (ed_address_alias data Ld) as (r & Er & Dr). exists r. split; [done|]. split.
    + apply (IsAddressValid_bytes _ _ Dr). exists SIGNTYPE_ED25519, data. split; [by left|done].
    + rewrite Dr, <- Er. symmetry. apply Decode_bytes.
      unfold address_bytes. rewrite length_app, checksum_length; rewrite length_app, Ld; cbn; lia.
Qed.
End Facts.

(** ** Sample primitives and keys *)
Module KeySample.

#[export] Instance params : KeyParams := {|
  Sha256_Crypto := fun s => take 32 (s ++ repeat NUL 32);
  ed25519_publickey := fun s => take 32 (rev s ++ repeat NUL 32);
  ed25519_sign := fun m sk pk => take 64 (sk ++ m ++ repeat NUL 64);
  ed25519_sign_open := fun m pk sig => if bool_decide (sig = take 64 (rev pk ++ m ++ repeat NUL 64)) then 0 else -1;
  sm2_public := fun s => take 65 (s ++ repeat NUL 65);
  sm2_sign := fun sk m => take 64 (m ++ repeat NUL 64);
  sm2_verify := fun pk m sig => if bool_decide (sig = take 64 (m ++ repeat NUL 64)) then 1 else 0;
  GetStrongRandBytes := Some (repeat "r"%char 32);
  sm2_random := repeat "s"%char 32;
  uninitialised := repeat 7 64 |}.

Definition key : PrivateKey := MkPrivateKey (repeat "k"%char 32) true SIGNTYPE_CFCASM2
  (MkPublicKey (sm2_public (repeat "k"%char 32)) true SIGNTYPE_CFCASM2).

Lemma key_ok : private_ok key.
Proof. repeat split. by right. Qed.

Lemma padded_length (n : nat) (s : str) : length (take n (s ++ repeat NUL n)) = n.
Proof. rewrite length_take, length_app, repeat_length. lia. Qed.

#[export] Instance laws : KeyLaws.
Proof.
  constructor; cbn -[take repeat]; intros; try done.
  - apply padded_length.
  - apply padded_length.
  - apply padded_length.
  - by injection H as <-.
  - rewrite app_assoc. apply padded_length.
  - rewrite (take_app_length' (rev sk)) by (by rewrite length_rev). rewrite rev_involutive. by rewrite bool_decide_eq_true_2.
  - apply padded_length.
  - by rewrite bool_decide_eq_true_2.
Qed.

Definition address : str := lit "buQVgWP9zLEqWFQq3cqdFdEcB8iRR3SW979h".
Definition alias : str := lit "bQ0VgWP9zLEqWFQq3cqdFdEcB8iRR3SW979h".

Lemma address_alias : alias_of address alias.
Proof. exists "b"%char, [], (lit "VgWP9zLEqWFQq3cqdFdEcB8iRR3SW979h"), 23, "0"%char. by repeat split. Qed.

Definition decoded : str := match DecodeAddress address with Returns b => b | _ => [] end.
Lemma address_decoded : DecodeAddress address = Returns decoded.
Proof. vm_compute. reflexivity. Qed.
End KeySample.
#[local] Existing Instances KeySample.params KeySample.laws.

Lemma address_type_witness :
  private_ok KeySample.key /\
  IsAddressValid (GetEncPrivateKey KeySample.key) = Returns false /\
  (IsAddressValid KeySample.address = Returns true <-> is_address KeySample.decoded).
Proof.
  pose proof (address_type (pub_key_ KeySample.key) KeySample.key KeySample.key KeySample.address KeySample.decoded
    (private_public _ KeySample.key_ok) KeySample.key_ok KeySample.address_decoded) as (_ & _ & A & B & _).
  split; [exact KeySample.key_ok|]. split; [exact B|exact A].
Defined.


Lemma address_aliases_witness :
  KeySample.alias <> KeySample.address /\ DecodeAddress KeySample.alias = DecodeAddress KeySample.address.
Proof.
  pose proof (address_aliases KeySample.address KeySample.alias KeySample.decoded (repeat NUL 20)
    KeySample.address_alias ltac:(cbn; lia) KeySample.address_decoded eq_refl) as [(A & B & _) _].
  split; [exact A|exact B].
Defined.
