(* ===== verification/TxQueue.v ===== *)
(** * The transaction pool

    [TransactionQueue] (src/glue/transaction_queue.h, src/glue/transaction_queue.cpp): the
    transactions waiting for a block, in four indexes that are kept together: a multiset
    by priority, a multiset by time of arrival, a map by account and nonce with an
    iterator into each, and a map by hash. *)
From S2P Require Import Prelude.

(** [TransactionFrm], as far as the pool looks at it. *)
Record Tx := MkTx {
  GetSourceAddress : string; GetNonce : Z; GetGasPrice : Z; GetInComingTime : Z; body : Z }.
#[export] Instance Tx_eq_dec : EqDecision Tx.
Proof. solve_decision. Defined.

(** The hash of the content of a transaction, its size in bytes and that of a set, and where a
    multiset puts an element when its elements are not in order. *)
Class QueueParams := {
  GetContentHash : Tx -> string;
  ByteSize : Tx -> Z;
  SetByteSize : list Tx -> Z;
  misplace : list Tx -> Tx -> nat }.

(** ** Multisets

    A [std::multiset] as the sequence of its elements, each in a node of its own; an iterator is
    the name of a node. *)
Abbreviation iterator := nat.
Abbreviation multiset := (list (nat * Tx)).

Definition deref (it : iterator) (l : multiset) : outcome Tx :=
  match find (fun e => bool_decide (e.1 = it)) l with Some e => Returns e.2 | None => Throws Trap end.

(** Erasing through an iterator that is not in the multiset is undefined. *)
Definition erase (it : iterator) (l : multiset) : outcome multiset :=
  if bool_decide (it ∈ l.*1) then Returns (filter (fun e => e.1 <> it) l) else Throws Trap.

Section Multiset.
Context (cmp : Tx -> Tx -> bool).

Fixpoint ordered (l : list Tx) : bool :=
  match l with [] => true | x :: l' => forallb (fun y => negb (cmp y x)) l' && ordered l' end.

(** The first element that is greater. *)
Fixpoint upper_bound (l : list Tx) (x : Tx) : nat :=
  match l with [] => 0 | y :: l' => if cmp x y then 0 else S (upper_bound l' x) end.

(** [emplace]: after the elements that are not greater. *)
Definition emplace `{QueueParams} (it : iterator) (x : Tx) (l : multiset) : multiset :=
  let i := if ordered l.*2 then upper_bound l.*2 x else misplace l.*2 x in take i l ++ (it, x) :: drop i l.
End Multiset.

(** ** The state *)
Record TransactionQueue := MkQueue {
  queue_ : multiset;
  time_queue_ : multiset;
  queue_by_address_and_nonce_ : gmap string (gmap Z (iterator * iterator));
  queue_by_hash_ : gmap string Tx;
  account_nonce_ : gmap string Z;
  queue_limit_ : nat;
  account_txs_limit_ : nat;
  next_node : nat }.

Definition new_queue (queue_limit account_txs_limit : nat) : TransactionQueue :=
  MkQueue [] [] ∅ ∅ ∅ queue_limit account_txs_limit 0.

Definition set_account_nonce (m : gmap string Z) (q : TransactionQueue) : TransactionQueue :=
  MkQueue (queue_ q) (time_queue_ q) (queue_by_address_and_nonce_ q) (queue_by_hash_ q) m (queue_limit_ q) (account_txs_limit_ q) (next_node q).

(** [PriorityCompare] and [TimePriorityCompare]: by the distance of the nonce to that of the
    account, then by price; by time of arrival. *)
Definition nonce_of (m : gmap string Z) (a : string) : Z := default 0 (m !! a).
Definition PriorityCompare (m : gmap string Z) (first second : Tx) : bool :=
  let height1 := GetNonce first - nonce_of m (GetSourceAddress first) in
  let height2 := GetNonce second - nonce_of m (GetSourceAddress second) in
  (height1 <? height2) || ((height1 =? height2) && (GetGasPrice second <? GetGasPrice first)).
Definition TimePriorityCompare (first second : Tx) : bool := GetInComingTime first <? GetInComingTime second.

Section Queue.
Context `{QueueParams}.

(** ** [Reopensesame] *)

(** The overload that has found the transaction. *)
Definition Reopensesame_at (account_address : string) (txs : gmap Z (iterator * iterator)) (nonce : Z) (its : iterator * iterator)
    (q : TransactionQueue) : outcome (Tx * TransactionQueue) :=
  let* ptr := deref its.1 (queue_ q) in
  let* queue := erase its.1 (queue_ q) in
  let* time_queue := erase its.2 (time_queue_ q) in
  let txs := delete nonce txs in
  let empty := bool_decide (txs = ∅) in
  Returns (ptr, MkQueue queue time_queue
    (if empty then delete account_address (queue_by_address_and_nonce_ q) else <[account_address := txs]> (queue_by_address_and_nonce_ q))
    (delete (GetContentHash ptr) (queue_by_hash_ q))
    (if empty then delete account_address (account_nonce_ q) else account_nonce_ q)
    (queue_limit_ q) (account_txs_limit_ q) (next_node q)).

Definition Reopensesame (account_address : string) (nonce : Z) (q : TransactionQueue) : outcome (option Tx * TransactionQueue) :=
  match queue_by_address_and_nonce_ q !! account_address with
  | None => Returns (None, q)
  | Some txs =>
      match txs !! nonce with
      | None => Returns (None, q)
      | Some its => let* r := Reopensesame_at account_address txs nonce its q in Returns (Some r.1, r.2)
      end
  end.

(** ** [Insert] *)
Definition Insert (tx : Tx) (q : TransactionQueue) : TransactionQueue :=
  let left := next_node q in
  let right := next_node q in
  let txs := default ∅ (queue_by_address_and_nonce_ q !! GetSourceAddress tx) in
  MkQueue (emplace (PriorityCompare (account_nonce_ q)) left tx (queue_ q))
    (emplace TimePriorityCompare right tx (time_queue_ q))
    (<[GetSourceAddress tx := <[GetNonce tx := (left, right)]> txs]> (queue_by_address_and_nonce_ q))
    (<[GetContentHash tx := tx]> (queue_by_hash_ q))
    (account_nonce_ q) (queue_limit_ q) (account_txs_limit_ q) (S (next_node q)).

(** ** [Import] *)

(** A tenth more than the price [p], in double precision. *)
Definition outbids (price p : Z) : bool := dle (dmul (of_int p) d0_1) (of_int (price - p)).

(** [while (queue_.size() > queue_limit_)]: the flag says that the transaction is still in. *)
Fixpoint evict (fuel : nat) (tx : Tx) (inserted : bool) (q : TransactionQueue) : outcome (bool * TransactionQueue) :=
  if (queue_limit_ q <? length (queue_ q))%nat then
    match fuel with
    | O => Throws OutOfFuel
    | S fuel =>
        match last (queue_ q) with
        | None => Throws Trap
        | Some (_, t) =>
            let* r := Reopensesame (GetSourceAddress t) (GetNonce t) q in
            evict fuel tx (inserted && negb (bool_decide (GetContentHash t = GetContentHash tx))) r.2
        end
    end
  else Returns (inserted, q).

(** The second half of [Import], once a transaction that is replaced was erased. The result is
    whether the transaction was inserted; whenever it is not, the error code is
    [ERRCODE_TX_INSERT_QUEUE_FAIL]. *)
Definition import_new (tx : Tx) (replace : bool) (account_txs_size : nat) (q : TransactionQueue) : outcome (bool * TransactionQueue) :=
  let* r := if replace || (account_txs_size <? account_txs_limit_ q)%nat
            then let q := Insert tx q in evict (length (queue_ q)) tx true q
            else Returns (false, q) in
  Returns (r.1 && (account_txs_size <? account_txs_limit_ q)%nat, r.2).

Definition Import (tx : Tx) (cur_source_nonce : Z) (q : TransactionQueue) : outcome (bool * TransactionQueue) :=
  let a := GetSourceAddress tx in
  let q := set_account_nonce (<[a := cur_source_nonce]> (account_nonce_ q)) q in
  match queue_by_address_and_nonce_ q !! a with
  | None => import_new tx false 0 q
  | Some txs =>
      let account_txs_size := size txs in
      match txs !! GetNonce tx with
      | None => import_new tx false account_txs_size q
      | Some its =>
          let* old := deref its.1 (queue_ q) in
          if outbids (GetGasPrice tx) (GetGasPrice old) then
            let* r := Reopensesame_at a txs (GetNonce tx) its q in
            import_new tx true (account_txs_size - 1)%nat (set_account_nonce (<[a := cur_source_nonce]> (account_nonce_ r.2)) r.2)
          else Returns (false, q)
      end
  end.

(** ** [TopTransaction] *)
Definition TXSET_LIMIT_SIZE : Z := 16 * 1048576.

Fixpoint top_loop (nonces : gmap string Z) (limit : nat) (l : list Tx) (set : list Tx) (set_size : Z)
    (topic_seqs break_nonce_accounts : gmap string Z) : list Tx :=
  match l with
  | [] => set
  | tx :: l' =>
      if negb (length set <? limit)%nat then set
      else if (TXSET_LIMIT_SIZE <=? Z.of_nat (length set) + set_size + ByteSize tx)
              && (TXSET_LIMIT_SIZE <=? SetByteSize set + ByteSize tx) then set
      else
      let set_size := set_size + ByteSize tx in
      let a := GetSourceAddress tx in
      match break_nonce_accounts !! a with
      | Some _ => top_loop nonces limit l' set set_size topic_seqs break_nonce_accounts
      | None =>
          let last_seq := default (nonce_of nonces a) (topic_seqs !! a) in
          if last_seq + 1 <? GetNonce tx
          then top_loop nonces limit l' set set_size topic_seqs (<[a := last_seq + 1]> break_nonce_accounts)
          else top_loop nonces limit l' (set ++ [tx]) set_size (<[a := GetNonce tx]> topic_seqs) break_nonce_accounts
      end
  end.

Definition TopTransaction (limit : nat) (q : TransactionQueue) : list Tx :=
  top_loop (account_nonce_ q) limit (queue_ q).*2 [] 0 ∅ ∅.

(** ** [ReopensesameTxs] *)

(** The transactions of a closed block or of a set, by account and nonce; the number erased. *)
Fixpoint ReopensesameTxs (set : list (string * Z)) (close_ledger : bool) (q : TransactionQueue) : outcome (nat * TransactionQueue) :=
  match set with
  | [] => Returns (0%nat, q)
  | (source_address, nonce) :: set' =>
      let* r := Reopensesame source_address nonce q in
      let q := r.2 in
      let q := match account_nonce_ q !! source_address with
               | Some n => if close_ledger && (n <? nonce)
                           then set_account_nonce (<[source_address := nonce]> (account_nonce_ q)) q else q
               | None => q
               end in
      let* r' := ReopensesameTxs set' close_ledger q in
      Returns ((if r.1 then 1 else 0) + r'.1, r'.2)%nat
  end.

Definition SafeReopensesameTx (account_address : string) (nonce : Z) (q : TransactionQueue) : outcome TransactionQueue :=
  let* r := Reopensesame account_address nonce q in Returns r.2.

(** ** Timeouts *)
Definition QUEUE_TRANSACTION_TIMEOUT : Z := 600 * 1000000.
(** [TransactionFrm::CheckTimeout] *)
Definition CheckTimeout_tx (expire_time : Z) (tx : Tx) : bool := GetInComingTime tx <? expire_time.

Fixpoint timeout_prefix (expire_time : Z) (l : list Tx) : list Tx :=
  match l with
  | [] => []
  | tx :: l' => if CheckTimeout_tx expire_time tx then tx :: timeout_prefix expire_time l' else []
  end.
Definition CheckTimeout (current_time : Z) (q : TransactionQueue) : list Tx :=
  timeout_prefix (current_time - QUEUE_TRANSACTION_TIMEOUT) (time_queue_ q).*2.

Fixpoint timeout_loop (fuel : nat) (expire_time : Z) (q : TransactionQueue) : outcome (list Tx * TransactionQueue) :=
  match time_queue_ q with
  | [] => Returns ([], q)
  | (_, tx) :: _ =>
      if negb (CheckTimeout_tx expire_time tx) then Returns ([], q)
      else
      match fuel with
      | O => Throws OutOfFuel
      | S fuel =>
          let* r := Reopensesame (GetSourceAddress tx) (GetNonce tx) q in
          let* r' := timeout_loop fuel expire_time r.2 in
          Returns (tx :: r'.1, r'.2)
      end
  end.
Definition CheckTimeoutAndDel (current_time : Z) (q : TransactionQueue) : outcome (list Tx * TransactionQueue) :=
  timeout_loop (length (time_queue_ q)) (current_time - QUEUE_TRANSACTION_TIMEOUT) q.

(** ** Queries *)
Definition IsExist (tx : Tx) (q : TransactionQueue) : outcome bool :=
  match queue_by_address_and_nonce_ q !! GetSourceAddress tx with
  | None => Returns false
  | Some txs =>
      match txs !! GetNonce tx with
      | None => Returns false
      | Some its => let* t := deref its.1 (queue_ q) in Returns (bool_decide (GetContentHash t = GetContentHash tx))
      end
  end.
Definition IsExist_hash (hash : string) (q : TransactionQueue) : bool := bool_decide (is_Some (queue_by_hash_ q !! hash)).
Definition Size (q : TransactionQueue) : nat := length (queue_ q).
Definition Query (num : nat) (q : TransactionQueue) : list Tx := take num (queue_ q).*2.
Definition Query_hash (hash : string) (q : TransactionQueue) : option Tx := queue_by_hash_ q !! hash.
End Queue.
