(* ===== verification/TxQueueInv.v ===== *)
(** * The indexes of the pool

    The invariant that ties the four indexes of [TransactionQueue] together, and that
    erasing, inserting and evicting transactions keep it. *)
From Stdlib Require Import Sorting.Sorted.
From S2P Require Import Prelude TxQueue.

Definition key (tx : Tx) : string * Z := (GetSourceAddress tx, GetNonce tx).

(** ** Multisets as lists *)

Lemma find_in (l : multiset) i tx : NoDup l.*1 -> (i, tx) ∈ l -> find (fun e => bool_decide (e.1 = i)) l = Some (i, tx).
Proof.
  induction l as [|[j t] l IH]; intros Hnd Hin; [by apply not_elem_of_nil in Hin|]. cbn in *. apply NoDup_cons in Hnd as [Hn Hnd].
  apply elem_of_cons in Hin as [[= <- <-]|Hin]; [by rewrite bool_decide_true|]. rewrite bool_decide_false; [by apply IH|].
  intros ->. apply Hn. apply list_elem_of_fmap. by exists (i, tx).
Qed.

Lemma deref_in (l : multiset) i tx : NoDup l.*1 -> (i, tx) ∈ l -> deref i l = Returns tx.
Proof. intros Hnd Hin. unfold deref. by rewrite (find_in l i tx). Qed.

Lemma erase_in (l : multiset) i tx : (i, tx) ∈ l -> erase i l = Returns (filter (fun e => e.1 <> i) l).
Proof. intros Hin. unfold erase. rewrite bool_decide_true; [done|]. apply list_elem_of_fmap. by exists (i, tx). Qed.

Lemma list_filter_ext_in {A} (P Q : A -> Prop) `{!forall x, Decision (P x), !forall x, Decision (Q x)} (l : list A) :
  (forall x, x ∈ l -> P x <-> Q x) -> filter P l = filter Q l.
Proof.
  induction l as [|a l IH]; intros HPQ; [done|]. rewrite !filter_cons, IH by (intros x Hx; apply HPQ; by right).
  pose proof (HPQ a ltac:(left)). repeat case_decide; naive_solver.
Qed.

Lemma insert_perm {A} (i : nat) (x : A) l : take i l ++ x :: drop i l ≡ₚ x :: l.
Proof. rewrite <- (take_drop i l) at 3. symmetry. apply Permutation_middle. Qed.

Lemma emplace_perm `{QueueParams} cmp it x l : emplace cmp it x l ≡ₚ (it, x) :: l.
Proof. apply insert_perm. Qed.

(** ** Order *)
Section Order.
Context (cmp : Tx -> Tx -> bool).
Context (cmp_irrefl : forall x, cmp x x = false).
Context (cmp_trans : forall x y z, cmp y x = false -> cmp z y = false -> cmp z x = false).
Context (cmp_asym : forall x y, cmp x y = true -> cmp y x = false).

Lemma ordered_spec l : ordered cmp l = true <-> StronglySorted (fun x y => cmp y x = false) l.
Proof.
  induction l as [|x l IH]; cbn [ordered]; [split; [constructor|done]|]. rewrite andb_true_iff, IH, forallb_forall. split.
  - intros [H1 H2]. constructor; [done|]. apply Forall_forall. intros y Hy. apply negb_true_iff, H1. by apply list_elem_of_In.
  - intros HS. inversion_clear HS as [|? ? H1 H2]. split; [|done]. intros y Hy. apply negb_true_iff. rewrite Forall_forall in H2.
    apply H2. by apply list_elem_of_In.
Qed.

Lemma upper_bound_sorted l x : StronglySorted (fun a b => cmp b a = false) l ->
  StronglySorted (fun a b => cmp b a = false) (take (upper_bound cmp l x) l ++ x :: drop (upper_bound cmp l x) l).
Proof.
  induction 1 as [|y l Hl IH Hy]; cbn [upper_bound take drop app]; [repeat constructor|].
  destruct (cmp x y) eqn:E; cbn [take drop app].
  - constructor; [by constructor|]. constructor; [by apply cmp_asym|]. rewrite Forall_forall in Hy |- *. intros z Hz.
    apply (cmp_trans x y z); [by apply cmp_asym|by apply Hy].
  - constructor; [done|]. rewrite Forall_forall in Hy |- *. intros z Hz. rewrite insert_perm in Hz.
    apply elem_of_cons in Hz as [->|Hz]; [done|by apply Hy].
Qed.

Lemma emplace_ordered `{QueueParams} it x (l : multiset) : ordered cmp l.*2 = true -> ordered cmp (emplace cmp it x l).*2 = true.
Proof.
  intros Ho. unfold emplace. rewrite Ho. rewrite fmap_app, fmap_cons, fmap_take, fmap_drop. cbn.
  apply ordered_spec, upper_bound_sorted. by apply ordered_spec.
Qed.
End Order.

Lemma time_order it x `{QueueParams} (l : multiset) : ordered TimePriorityCompare l.*2 = true ->
  ordered TimePriorityCompare (emplace TimePriorityCompare it x l).*2 = true.
Proof.
  apply emplace_ordered; unfold TimePriorityCompare.
  - intros a b c H1%Z.ltb_ge H2%Z.ltb_ge. apply Z.ltb_ge. lia.
  - intros a b H1%Z.ltb_lt. apply Z.ltb_ge. lia.
Qed.

Lemma priority_order m it x `{QueueParams} (l : multiset) : ordered (PriorityCompare m) l.*2 = true ->
  ordered (PriorityCompare m) (emplace (PriorityCompare m) it x l).*2 = true.
Proof.
  apply emplace_ordered; unfold PriorityCompare.
  - intros a b c. rewrite !orb_false_iff, !andb_false_iff, !Z.ltb_ge, !Z.eqb_neq. lia.
  - intros a b. rewrite orb_true_iff, orb_false_iff, andb_true_iff, andb_false_iff, !Z.ltb_lt, !Z.ltb_ge, Z.eqb_eq, Z.eqb_neq. lia.
Qed.

Lemma sorted_filter {A} (R : A -> A -> Prop) (P : A -> Prop) `{!forall x, Decision (P x)} l :
  StronglySorted R l -> StronglySorted R (filter P l).
Proof.
  induction 1 as [|x l Hl IH Hx]; [constructor|]. rewrite filter_cons. case_decide; [|done]. constructor; [done|].
  rewrite Forall_forall in Hx |- *. intros y [_ Hy]%list_elem_of_filter. by apply Hx.
Qed.

Lemma ordered_filter cmp (P : nat * Tx -> Prop) `{!forall x, Decision (P x)} (l : multiset) :
  ordered cmp l.*2 = true -> ordered cmp (filter P l).*2 = true.
Proof.
  rewrite !ordered_spec. intros Hs.
  assert (Hsl : StronglySorted (fun a b : nat * Tx => cmp b.2 a.2 = false) l).
  { induction l as [|e l IH]; [constructor|]. cbn in Hs. apply StronglySorted_inv in Hs as [H1 H2]. constructor; [by apply IH|].
    rewrite Forall_forall in H2. apply Forall_forall. intros y Hy. apply H2, list_elem_of_fmap. by exists y. }
  apply (sorted_filter _ P) in Hsl. induction Hsl as [|e l' _ IH He]; cbn; constructor; [done|].
  rewrite Forall_forall in He. apply Forall_forall. intros y (z & -> & Hz)%list_elem_of_fmap. by apply He.
Qed.

(** ** The invariant *)
Section Inv.
Context `{QueueParams}.
(** The content of a transaction includes its account and its nonce. *)
Context (hash_content : forall t1 t2, GetContentHash t1 = GetContentHash t2 -> key t1 = key t2).
Implicit Types (q : TransactionQueue) (tx : Tx).

Definition idx q (a : string) (n : Z) : option (iterator * iterator) := queue_by_address_and_nonce_ q !! a ≫= (fun txs => txs !! n).

Record coherent q : Prop := {
  co_nodup : NoDup (queue_ q).*1;
  co_fresh : forall i tx, (i, tx) ∈ queue_ q -> (i < next_node q)%nat;
  co_time : queue_ q ≡ₚ time_queue_ q;
  co_order : ordered TimePriorityCompare (time_queue_ q).*2 = true;
  co_idx : forall i tx, (i, tx) ∈ queue_ q -> idx q (GetSourceAddress tx) (GetNonce tx) = Some (i, i);
  co_back : forall a n its, idx q a n = Some its -> exists tx, (its.1, tx) ∈ queue_ q /\ key tx = (a, n);
  co_nonempty : forall a txs, queue_by_address_and_nonce_ q !! a = Some txs -> txs <> ∅;
  co_hash : forall h tx, queue_by_hash_ q !! h = Some tx <-> GetContentHash tx = h /\ exists i, (i, tx) ∈ queue_ q;
  co_nonce : forall i tx, (i, tx) ∈ queue_ q -> is_Some (account_nonce_ q !! GetSourceAddress tx) }.

Lemma node_unique q i t1 t2 : coherent q -> (i, t1) ∈ queue_ q -> (i, t2) ∈ queue_ q -> t1 = t2.
Proof.
  intros Hc H1 H2. pose proof (find_in _ _ _ (co_nodup q Hc) H1) as E1. rewrite (find_in _ _ _ (co_nodup q Hc) H2) in E1. by injection E1.
Qed.
Lemma key_unique q i j t1 t2 : coherent q -> (i, t1) ∈ queue_ q -> (j, t2) ∈ queue_ q -> key t1 = key t2 -> i = j /\ t1 = t2.
Proof.
  intros Hc H1 H2 [= Ha Hn]. pose proof (co_idx q Hc i t1 H1) as E1. pose proof (co_idx q Hc j t2 H2) as E2.
  rewrite Ha, Hn, E2 in E1. injection E1 as ->. split; [done|]. by eapply node_unique.
Qed.

(** The pool as a map from account and nonce. *)
Definition pool q : gmap (string * Z) Tx := list_to_map ((fun tx => (key tx, tx)) <$> (queue_ q).*2).

Lemma pool_nodup q : coherent q -> NoDup ((fun tx => (key tx, tx)) <$> (queue_ q).*2).*1.
Proof.
  intros Hc. rewrite <- list_fmap_compose. change (compose fst (fun tx => (key tx, tx))) with key. rewrite <- list_fmap_compose.
  assert (Hk : forall i j t1 t2, (i, t1) ∈ queue_ q -> (j, t2) ∈ queue_ q -> key t1 = key t2 -> (i, t1) = (j, t2)).
  { intros i j t1 t2 H1 H2 E. by destruct (key_unique q i j t1 t2 Hc H1 H2 E) as [-> ->]. }
  apply NoDup_fmap_2_strong; [|by eapply NoDup_fmap_1, co_nodup]. intros [i t1] [j t2] H1 H2 E. by apply Hk.
Qed.

Lemma pool_lookup q k tx : coherent q -> pool q !! k = Some tx <-> key tx = k /\ exists i, (i, tx) ∈ queue_ q.
Proof.
  intros Hc. unfold pool. rewrite <- elem_of_list_to_map by by apply pool_nodup. rewrite list_elem_of_fmap. split.
  - intros (t & [= -> ->] & ([i t'] & -> & Hin)%list_elem_of_fmap). split; [done|]. by exists i.
  - intros (<- & i & Hin). exists tx. split; [done|]. apply list_elem_of_fmap. by exists (i, tx).
Qed.

Lemma pool_index q a n : coherent q -> idx q a n = None <-> pool q !! (a, n) = None.
Proof.
  intros Hc. split; intros E.
  - destruct (pool q !! (a, n)) as [tx|] eqn:E'; [|done]. apply pool_lookup in E' as ([= <- <-] & i & Hin); [|done].
    by rewrite (co_idx q Hc i tx Hin) in E.
  - destruct (idx q a n) as [its|] eqn:E'; [|done]. destruct (co_back q Hc a n its E') as (tx & Hin & Hk).
    assert (pool q !! (a, n) = Some tx) by (apply pool_lookup; [done|]; by eauto). congruence.
Qed.

Lemma pool_size q : coherent q -> size (pool q) = length (queue_ q).
Proof.
  intros Hc. unfold pool. rewrite map_size_list_to_map by by apply pool_nodup. by rewrite !length_fmap.
Qed.
End Inv.

(** ** Erasing, inserting and evicting *)
Lemma NoDup_filter_fst (P : nat * Tx -> Prop) `{!forall x, Decision (P x)} (l : multiset) : NoDup l.*1 -> NoDup (filter P l).*1.
Proof.
  induction l as [|e l IH]; intros Hn; [done|]. cbn in Hn. apply NoDup_cons in Hn as [Hn Hl]. rewrite filter_cons.
  case_decide; [|by apply IH]. cbn. apply NoDup_cons. split; [|by apply IH]. intros (x & Ex & [_ Hx]%list_elem_of_filter)%list_elem_of_fmap.
  apply Hn, list_elem_of_fmap. by exists x.
Qed.

Section Ops.
Context `{QueueParams}.
Context (hash_content : forall t1 t2, GetContentHash t1 = GetContentHash t2 -> key t1 = key t2).
Implicit Types (q : TransactionQueue) (tx : Tx).

(** The queue without the transaction of an account and nonce. *)
Definition without (k : string * Z) (l : multiset) : multiset := filter (fun e => key e.2 <> k) l.

Definition same_limits q q' : Prop := queue_limit_ q' = queue_limit_ q /\ account_txs_limit_ q' = account_txs_limit_ q.

(** What erasing the transaction at [a], [n] leaves. *)
Definition erased q q' (a : string) (n : Z) : Prop :=
  coherent q' /\ queue_ q' = without (a, n) (queue_ q) /\ same_limits q q'
  /\ (forall a', a' <> a -> queue_by_address_and_nonce_ q' !! a' = queue_by_address_and_nonce_ q !! a' /\ account_nonce_ q' !! a' = account_nonce_ q !! a')
  /\ queue_by_address_and_nonce_ q' !! a = (txs ← queue_by_address_and_nonce_ q !! a; if bool_decide (delete n txs = ∅) then None else Some (delete n txs))
  /\ (is_Some (queue_by_address_and_nonce_ q' !! a) -> account_nonce_ q' !! a = account_nonce_ q !! a)
  /\ next_node q' = next_node q /\ time_queue_ q' = without (a, n) (time_queue_ q).

(** Erasing a nonce from the index by address, and the address with its last nonce. *)
Lemma index_erase (m : gmap string (gmap Z (iterator * iterator))) a txs n a' n' : m !! a = Some txs ->
  (if bool_decide (delete n txs = ∅) then delete a m else <[a := delete n txs]> m) !! a' ≫= (fun l => l !! n')
  = if decide ((a', n') = (a, n)) then None else m !! a' ≫= (fun l => l !! n').
Proof.
  intros Ha. destruct (decide (a' = a)) as [->|Hne].
  - rewrite Ha. cbn. case_bool_decide as He.
    + rewrite lookup_delete_eq. cbn. case_decide as Hd; [done|]. assert (Hne : n <> n') by congruence.
      rewrite <- (lookup_delete_ne txs n n') by done. by rewrite He, lookup_empty.
    + rewrite lookup_insert_eq. cbn. case_decide as Hd; [injection Hd as ->; by rewrite lookup_delete_eq|]. rewrite lookup_delete_ne; [done|congruence].
  - rewrite decide_False by congruence. case_bool_decide; [by rewrite lookup_delete_ne|by rewrite lookup_insert_ne].
Qed.

Lemma Reopensesame_at_run q a txs n its : coherent q -> queue_by_address_and_nonce_ q !! a = Some txs -> txs !! n = Some its ->
  exists tx q', Reopensesame_at a txs n its q = Returns (tx, q') /\ deref its.1 (queue_ q) = Returns tx
    /\ pool q !! (a, n) = Some tx /\ erased q q' a n.
Proof.
  intros Hc Ha Hn. assert (Hidx : idx q a n = Some its) by (unfold idx; by rewrite Ha).
  destruct (co_back q Hc a n its Hidx) as (tx & Hin & Hk). pose proof (co_idx q Hc _ _ Hin) as Hi.
  injection Hk as Hk1 Hk2. rewrite Hk1, Hk2, Hidx in Hi. injection Hi as ->. set (i := its.1) in *. cbn [fst snd].
  assert (Hk : key tx = (a, n)) by (unfold key; by rewrite Hk1, Hk2).
  assert (Hf : forall l, (forall e, e ∈ l -> e ∈ queue_ q) -> filter (fun e : nat * Tx => e.1 <> i) l = without (a, n) l).
  { intros l Hl. apply list_filter_ext_in. intros [j t] He%Hl. cbn. split.
    - intros Hne E. apply Hne. rewrite <- Hk in E. by destruct (key_unique q j i t tx Hc He Hin E).
    - intros Hne ->. apply Hne. by rewrite (node_unique q i t tx Hc He Hin). }
  assert (Hint : (i, tx) ∈ time_queue_ q) by by rewrite <- (co_time q Hc).
  pose proof (deref_in _ _ _ (co_nodup q Hc) Hin) as Hd.
  unfold Reopensesame_at. cbn [fst snd]. rewrite Hd, (erase_in _ _ _ Hin), (erase_in _ _ _ Hint). cbn [obind].
  rewrite !Hf by (done || intros e He; by rewrite (co_time q Hc)). eexists tx, _. split; [done|]. split; [done|].
  split; [apply pool_lookup; [done|]; by eauto|]. set (q' := MkQueue _ _ _ _ _ _ _ _).
  assert (Hidx' : forall a' n', idx q' a' n' = if decide ((a', n') = (a, n)) then None else idx q a' n').
  { intros a' n'. unfold idx, q'. cbn [queue_by_address_and_nonce_]. by apply index_erase. }
  assert (Hsub : forall e, e ∈ without (a, n) (queue_ q) <-> key e.2 <> (a, n) /\ e ∈ queue_ q) by (intros e; unfold without; by rewrite list_elem_of_filter).
  split_and!; [|done|done| | | |done|done].
  - split; unfold q'; cbn [queue_ time_queue_ queue_by_address_and_nonce_ queue_by_hash_ account_nonce_ next_node].
    + by apply NoDup_filter_fst, co_nodup.
    + intros j t [_ Ht]%Hsub. by eapply co_fresh.
    + apply filter_Permutation, (co_time q Hc).
    + apply ordered_filter, (co_order q Hc).
    + intros j t [Hne Ht]%Hsub. rewrite Hidx'. rewrite decide_False by exact Hne. by apply co_idx.
    + intros a' n' its'. rewrite Hidx'. case_decide as Hd'; [done|]. intros Hi'. destruct (co_back q Hc a' n' its' Hi') as (t & Ht & Hkt).
      exists t. split; [|done]. apply Hsub. split; [|done]. cbn. congruence.
    + intros a' txs'. case_bool_decide as He.
      * intros [_ Hl]%lookup_delete_Some. by eapply co_nonempty.
      * intros [[_ <-]|[_ Hl]]%lookup_insert_Some; [done|by eapply co_nonempty].
    + intros h t. rewrite lookup_delete_Some, (co_hash q Hc). split.
      * intros (Hne & <- & j & Hj). split; [done|]. exists j. apply Hsub. split; [|done]. cbn. intros Hkt. apply Hne.
        rewrite <- Hk in Hkt. by destruct (key_unique q j i t tx Hc Hj Hin Hkt) as [_ ->].
      * intros (<- & j & [Hne Hj]%Hsub). split_and!; [|done|by exists j]. intros E%hash_content. apply Hne. cbn. congruence.
    + intros j t [Hne Ht]%Hsub. pose proof (co_nonce q Hc j t Ht) as Hs. case_bool_decide as He; [|done].
      destruct (decide (GetSourceAddress t = a)) as [Ea|]; [|by rewrite lookup_delete_ne].
      pose proof (co_idx q Hc j t Ht) as Hi. unfold idx in Hi. rewrite Ea, Ha in Hi. cbn in Hi.
      rewrite <- (lookup_delete_ne txs n) in Hi; [by rewrite He, lookup_empty in Hi|]. intros ->. apply Hne. unfold key. cbn. by rewrite Ea.
  - intros a' Hne. unfold q'. cbn. case_bool_decide; [by rewrite !lookup_delete_ne|by rewrite lookup_insert_ne].
  - unfold q'. cbn. rewrite Ha. cbn. case_bool_decide; [by rewrite lookup_delete_eq|by rewrite lookup_insert_eq].
  - unfold q'. cbn. case_bool_decide; [|done]. rewrite lookup_delete_eq. by intros [? ?].
Qed.

Lemma without_id k (l : multiset) : (forall e, e ∈ l -> key e.2 <> k) -> without k l = l.
Proof.
  unfold without. induction l as [|e l IH]; intros Hne; [done|]. rewrite filter_cons_True by (apply Hne; left).
  rewrite IH; [done|]. intros x Hx. apply Hne. by right.
Qed.

Lemma without_absent q k : coherent q -> pool q !! k = None -> without k (queue_ q) = queue_ q /\ without k (time_queue_ q) = time_queue_ q.
Proof.
  intros Hc Hk. assert (Hne : forall e, e ∈ queue_ q -> key e.2 <> k).
  { intros [i t] Hin E. cbn in E. assert (pool q !! k = Some t) by (apply pool_lookup; [done|]; by eauto). congruence. }
  split; apply without_id; [done|]. intros e He. apply Hne. by rewrite (co_time q Hc).
Qed.

Lemma without_unique (l1 l2 : multiset) i t : NoDup ((fun e => key e.2) <$> (l1 ++ (i, t) :: l2)) -> without (key t) (l1 ++ (i, t) :: l2) = l1 ++ l2.
Proof.
  rewrite fmap_app, fmap_cons. intros (_ & Hd & Hn)%NoDup_app. apply NoDup_cons in Hn as [Hn _].
  unfold without. rewrite filter_app, filter_cons_False by (cbn; tauto). fold (without (key t) l1) (without (key t) l2).
  rewrite !without_id; [done| |].
  - intros e He E. apply Hn. apply list_elem_of_fmap. by exists e.
  - intros e He E. apply (Hd (key e.2)); [apply list_elem_of_fmap; by exists e|]. rewrite E. by left.
Qed.

Lemma keys_nodup q : coherent q -> NoDup ((fun e => key e.2) <$> queue_ q).
Proof.
  intros Hc. pose proof (pool_nodup q Hc) as Hn. by rewrite <- !list_fmap_compose in Hn.
Qed.

Lemma Reopensesame_run q a n : coherent q ->
  exists q', Reopensesame a n q = Returns (pool q !! (a, n), q') /\ erased q q' a n.
Proof.
  intros Hc. unfold Reopensesame. destruct (queue_by_address_and_nonce_ q !! a) as [txs|] eqn:Ha; [destruct (txs !! n) as [its|] eqn:Hn|].
  - destruct (Reopensesame_at_run q a txs n its Hc Ha Hn) as (tx & q' & -> & _ & -> & He). cbn [obind fst snd]. by exists q'.
  - assert (Hp : pool q !! (a, n) = None) by (apply pool_index; [done|]; unfold idx; rewrite Ha; exact Hn).
    exists q. rewrite Hp. split; [done|]. destruct (without_absent q _ Hc Hp). split_and!; try done.
    rewrite Ha. cbn. rewrite delete_id, bool_decide_false by (done || by eapply co_nonempty). done.
  - assert (Hp : pool q !! (a, n) = None) by (apply pool_index; [done|]; unfold idx; by rewrite Ha).
    exists q. rewrite Hp. split; [done|]. destruct (without_absent q _ Hc Hp). split_and!; try done. by rewrite Ha.
Qed.

Lemma erased_pool q q' a n : coherent q -> erased q q' a n -> pool q' = delete (a, n) (pool q).
Proof.
  intros Hc (Hc' & Hq & _). apply map_eq. intros k. apply option_eq. intros tx. rewrite lookup_delete_Some, !pool_lookup by done.
  rewrite Hq. unfold without. setoid_rewrite list_elem_of_filter. cbn. split.
  - intros (<- & i & Hne & Hin). split_and!; [congruence|done|by exists i].
  - intros (Hne & <- & i & Hin). split; [done|]. exists i. split; [congruence|done].
Qed.

(** ** [Insert] *)
Lemma Insert_run q tx : coherent q -> pool q !! key tx = None -> is_Some (account_nonce_ q !! GetSourceAddress tx) ->
  coherent (Insert tx q) /\ pool (Insert tx q) = <[key tx := tx]> (pool q).
Proof.
  intros Hc Hp Hn. set (q' := Insert tx q).
  assert (Hin : forall e, e ∈ queue_ q' <-> e = (next_node q, tx) \/ e ∈ queue_ q).
  { intros e. unfold q', Insert. cbn. by rewrite emplace_perm, elem_of_cons. }
  assert (Hfresh : forall i t, (i, t) ∈ queue_ q -> key t <> key tx).
  { intros i t Ht E. assert (pool q !! key tx = Some t) by (apply pool_lookup; [done|]; by eauto). congruence. }
  assert (Hidx : forall a n, idx q' a n = if decide ((a, n) = key tx) then Some (next_node q, next_node q) else idx q a n).
  { intros a n. unfold idx, q', Insert, key. cbn. destruct (decide (a = GetSourceAddress tx)) as [->|Hne].
    - rewrite lookup_insert_eq. cbn. case_decide as Hd; [injection Hd as ->; by rewrite lookup_insert_eq|].
      rewrite lookup_insert_ne by congruence. by destruct (queue_by_address_and_nonce_ q !! GetSourceAddress tx).
    - rewrite decide_False by congruence. by rewrite lookup_insert_ne. }
  assert (Hc' : coherent q').
  { split.
    - unfold q', Insert. cbn. rewrite emplace_perm. cbn. apply NoDup_cons. split; [|by apply co_nodup].
      intros ([i t] & E & Ht)%list_elem_of_fmap. cbn in E. apply (co_fresh q Hc) in Ht. lia.
    - intros i t [[= -> ->]|Ht]%Hin; [cbn; lia|]. apply (co_fresh q Hc) in Ht. cbn. lia.
    - unfold q', Insert. cbn. by rewrite !emplace_perm, (co_time q Hc).
    - apply time_order, (co_order q Hc).
    - intros i t [[= -> ->]|Ht]%Hin; rewrite Hidx; [by rewrite decide_True|]. rewrite decide_False; [by apply co_idx|]. by eapply Hfresh.
    - intros a n its. rewrite Hidx. case_decide as Hd.
      + intros [= <-]. exists tx. split; [apply Hin; by left|done].
      + intros Hi. destruct (co_back q Hc a n its Hi) as (t & Ht & Hk). exists t. split; [apply Hin; by right|done].
    - intros a txs. unfold q', Insert. cbn. intros [[_ <-]|[_ Hl]]%lookup_insert_Some; [apply insert_non_empty|by eapply co_nonempty].
    - intros h t. change (queue_by_hash_ q') with (<[GetContentHash tx := tx]> (queue_by_hash_ q)). rewrite lookup_insert_Some, (co_hash q Hc). setoid_rewrite Hin. split.
      + intros [[<- <-]|(Hne & <- & i & Ht)]; (split; [done|]); eexists; [by left|by right].
      + intros (<- & i & [[= -> ->]|Ht]); [by left|]. right. split_and!; [|done|by exists i].
        intros E%hash_content. by apply (Hfresh i t Ht).
    - intros i t [[= -> ->]|Ht]%Hin; cbn; [done|]. by eapply co_nonce. }
  split; [done|]. apply map_eq. intros k. apply option_eq. intros t. rewrite lookup_insert_Some, !pool_lookup by done. setoid_rewrite Hin. split.
  - intros (<- & i & [[= -> ->]|Ht]); [by left|]. right. split_and!; [|done|by exists i]. intros E. by apply (Hfresh i t Ht).
  - intros [[<- <-]|(Hne & <- & i & Ht)]; (split; [done|]); eexists; [by left|by right].
Qed.

Lemma nonce_coherent q m : coherent q -> (forall a, is_Some (account_nonce_ q !! a) -> is_Some (m !! a)) -> coherent (set_account_nonce m q).
Proof.
  intros [H1 H2 H3 H4 H5 H6 H7 H8 H9] Hm. split; cbn; try done. intros i tx Hi. by eapply Hm, H9.
Qed.
Lemma pool_nonce q m : pool (set_account_nonce m q) = pool q.
Proof. done. Qed.

(** ** Limits *)
Definition count q (a : string) : nat := match queue_by_address_and_nonce_ q !! a with Some txs => size txs | None => 0%nat end.
Definition account_ok q : Prop := forall a, (count q a <= account_txs_limit_ q)%nat.

Lemma erased_count q q' a n : erased q q' a n -> forall a',
  count q' a' = if decide (a' = a) then size (delete n (default ∅ (queue_by_address_and_nonce_ q !! a))) else count q a'.
Proof.
  intros (_ & _ & _ & Ho & Hs & _) a'. unfold count. case_decide as Hd; [subst a'|by destruct (Ho a' Hd) as [-> _]].
  rewrite Hs. destruct (queue_by_address_and_nonce_ q !! a) as [txs|]; cbn; [|by rewrite delete_empty, map_size_empty].
  case_bool_decide as He; [by rewrite He, map_size_empty|done].
Qed.
Lemma erased_account_ok q q' a n : erased q q' a n -> account_ok q -> account_ok q'.
Proof.
  intros He Hok a'. rewrite (erased_count _ _ _ _ He a'). specialize (Hok a'). destruct He as (_ & _ & [_ ->] & _). case_decide; [subst a'|done].
  unfold count in Hok. rewrite map_size_delete. destruct (queue_by_address_and_nonce_ q !! a) as [txs|]; cbn; [case_match; cbn; lia|].
  rewrite lookup_empty, map_size_empty. cbn. lia.
Qed.

(** ** [evict] *)
Lemma last_without q l i t : coherent q -> queue_ q = l ++ [(i, t)] -> without (key t) (queue_ q) = l.
Proof. intros Hc Hq. pose proof (keys_nodup q Hc) as Hn. rewrite Hq in Hn |- *. rewrite without_unique by done. by rewrite app_nil_r. Qed.

Lemma evict_run tx fuel : forall ins q, coherent q -> (length (queue_ q) - queue_limit_ q <= fuel)%nat ->
  exists q', evict fuel tx ins q = Returns (ins && forallb (fun e => negb (bool_decide (GetContentHash e.2 = GetContentHash tx))) (drop (queue_limit_ q) (queue_ q)), q')
    /\ coherent q' /\ queue_ q' = take (queue_limit_ q) (queue_ q) /\ same_limits q q' /\ (account_ok q -> account_ok q').
Proof.
  induction fuel as [|fuel IH]; intros ins q Hc Hf; cbn [evict]; (destruct (Nat.ltb_spec (queue_limit_ q) (length (queue_ q))) as [Hlt|Hge]; [try lia|
    exists q; rewrite drop_ge, take_ge by lia; cbn; rewrite andb_true_r; by split_and!]).
  destruct (queue_ q) as [|e l] eqn:Eq using rev_ind; [cbn in Hlt; lia|]. clear IHl. rewrite last_snoc. destruct e as [i t].
  destruct (Reopensesame_run q (GetSourceAddress t) (GetNonce t) Hc) as (q1 & -> & He). cbn [obind snd].
  pose proof He as (Hc1 & Hq1 & [Hl1 Hl2] & _). fold (key t) in Hq1. rewrite (last_without q l i t Hc Eq) in Hq1.
  rewrite length_app in Hlt, Hf. cbn [length] in Hlt, Hf.
  destruct (IH (ins && negb (bool_decide (GetContentHash t = GetContentHash tx))) q1 Hc1) as (q2 & -> & Hc2 & Hq2 & [Hl3 Hl4] & Hok); [rewrite Hq1, Hl1; lia|].
  rewrite Hq1, Hl1 in Hq2 |- *. exists q2. split.
  - rewrite drop_app_le by lia. rewrite forallb_app. cbn. rewrite andb_true_r. do 2 f_equal.
    destruct ins; cbn; [|done]. by rewrite andb_comm.
  - rewrite take_app_le by lia. split_and!; [done|done|split; congruence|]. intros Hok0. by apply Hok, (erased_account_ok _ _ _ _ He).
Qed.

(** ** [Import] *)

(** The transaction that has the place is outbid, or the account has room for one more. *)
Definition admitted q tx : bool :=
  match pool q !! key tx with
  | Some old => outbids (GetGasPrice tx) (GetGasPrice old)
  | None => (count q (GetSourceAddress tx) <? account_txs_limit_ q)%nat
  end.

(** The queue with the transaction in its place. *)
Definition placed q tx (cur_source_nonce : Z) : multiset :=
  emplace (PriorityCompare (<[GetSourceAddress tx := cur_source_nonce]> (account_nonce_ q))) (next_node q) tx (without (key tx) (queue_ q)).

Lemma insert_evict q tx : coherent q -> pool q !! key tx = None -> is_Some (account_nonce_ q !! GetSourceAddress tx) ->
  (count q (GetSourceAddress tx) < account_txs_limit_ q)%nat -> account_ok q ->
  exists q', evict (length (queue_ (Insert tx q))) tx true (Insert tx q) = Returns (bool_decide (pool q' !! key tx = Some tx), q')
    /\ coherent q' /\ account_ok q' /\ same_limits q q'
    /\ queue_ q' = take (queue_limit_ q) (emplace (PriorityCompare (account_nonce_ q)) (next_node q) tx (queue_ q)).
Proof.
  intros Hc Hp Hn Hcnt Hok. destruct (Insert_run q tx Hc Hp Hn) as [Hc1 Hp1].
  destruct (evict_run tx (length (queue_ (Insert tx q))) true (Insert tx q) Hc1) as (q' & -> & Hc' & Hq' & [Hl1 Hl2] & Hok'); [lia|].
  cbn [andb]. change (queue_limit_ (Insert tx q)) with (queue_limit_ q) in *. exists q'. split_and!; [|done| |done..].
  - do 2 f_equal. apply Bool.eq_iff_eq_true. rewrite forallb_forall, bool_decide_eq_true, pool_lookup by done.
    assert (Hin : (next_node q, tx) ∈ queue_ (Insert tx q)) by (cbn; rewrite emplace_perm; by left).
    rewrite Hq'. pose proof (take_drop (queue_limit_ q) (queue_ (Insert tx q))) as Htd. split.
    + intros Hall. split; [done|]. exists (next_node q). rewrite <- Htd in Hin. apply elem_of_app in Hin as [Hin|Hin]; [done|].
      apply list_elem_of_In, Hall in Hin. cbn in Hin. by rewrite bool_decide_true in Hin.
    + intros (_ & i & Hi) [j t] Hj%list_elem_of_In. cbn. rewrite bool_decide_false; [done|]. intros E%hash_content.
      assert (Hi' : (i, tx) ∈ queue_ (Insert tx q)) by (rewrite <- Htd; apply elem_of_app; by left).
      assert (Hj' : (j, t) ∈ queue_ (Insert tx q)) by (rewrite <- Htd; apply elem_of_app; by right).
      destruct (key_unique _ _ _ _ _ Hc1 Hj' Hi' E) as [-> ->]. pose proof (co_nodup _ Hc1) as Hnd.
      rewrite <- Htd, fmap_app in Hnd. apply NoDup_app in Hnd as (_ & Hd & _). apply (Hd i); apply list_elem_of_fmap; by exists (i, tx).
  - apply Hok'. intros a. unfold count, Insert. cbn. destruct (decide (a = GetSourceAddress tx)) as [->|Hne].
    + rewrite lookup_insert_eq. unfold count in Hcnt. rewrite map_size_insert.
      destruct (queue_by_address_and_nonce_ q !! GetSourceAddress tx) as [txs|]; cbn [default from_option id].
      * destruct (txs !! GetNonce tx); cbn; lia.
      * rewrite lookup_empty, map_size_empty. cbn. lia.
    + rewrite lookup_insert_ne by done. apply Hok.
Qed.

(** What is left of a pool after [import_new], over a pool [q] without the transaction. *)
Definition imported q tx (ok : bool) (res : outcome (bool * TransactionQueue)) : Prop :=
  exists b q', res = Returns (b, q') /\ coherent q' /\ account_ok q' /\ same_limits q q'
    /\ (if ok then queue_ q' = take (queue_limit_ q) (emplace (PriorityCompare (account_nonce_ q)) (next_node q) tx (queue_ q))
                  /\ b = bool_decide (pool q' !! key tx = Some tx)
        else queue_ q' = queue_ q /\ b = false).

Lemma import_new_run q tx replace size : coherent q -> account_ok q -> pool q !! key tx = None ->
  is_Some (account_nonce_ q !! GetSourceAddress tx) -> count q (GetSourceAddress tx) = size ->
  (replace = true -> (size < account_txs_limit_ q)%nat) ->
  imported q tx (size <? account_txs_limit_ q)%nat (import_new tx replace size q).
Proof.
  intros Hc Hok Hp Hn Hs Hr. unfold import_new, imported.
  assert (E : replace || (size <? account_txs_limit_ q)%nat = (size <? account_txs_limit_ q)%nat).
  { destruct replace; [|done]. symmetry. by apply Nat.ltb_lt, Hr. }
  rewrite E. destruct (Nat.ltb_spec size (account_txs_limit_ q)) as [Hlt|Hge].
  - destruct (insert_evict q tx Hc Hp Hn) as (q' & -> & H1 & H2 & H3 & H4); [by rewrite Hs|done|]. cbn [obind fst snd]. rewrite andb_true_r.
    eexists _, q'. by split_and!.
  - cbn [obind fst snd]. eexists _, q. by split_and!.
Qed.

(** [Import] returns; it places the transaction where it belongs and drops the tail of the queue,
    or leaves the queue alone. *)
Lemma Import_run q tx cur : coherent q -> account_ok q ->
  exists b q', Import tx cur q = Returns (b, q') /\ coherent q' /\ account_ok q' /\ same_limits q q'
    /\ (if admitted q tx then queue_ q' = take (queue_limit_ q) (placed q tx cur) /\ b = bool_decide (pool q' !! key tx = Some tx)
        else queue_ q' = queue_ q /\ b = false).
Proof.
  intros Hc Hok. set (a := GetSourceAddress tx). set (m := <[a := cur]> (account_nonce_ q)). set (q0 := set_account_nonce m q).
  assert (Hset : forall q1, coherent q1 -> coherent (set_account_nonce (<[a := cur]> (account_nonce_ q1)) q1)).
  { intros q1 H1. apply nonce_coherent; [done|]. intros a' Hs. destruct (decide (a' = a)) as [->|]; [by rewrite lookup_insert_eq|by rewrite lookup_insert_ne]. }
  pose proof (Hset q Hc) as Hc0. fold m q0 in Hc0.
  assert (Hm : is_Some (m !! a)) by (exists cur; apply lookup_insert_eq). unfold Import. fold a. fold m. fold q0.
  assert (Hnew : pool q !! key tx = None -> imported q0 tx (admitted q tx) (import_new tx false (count q a) q0) ->
    exists b q', import_new tx false (count q a) q0 = Returns (b, q') /\ coherent q' /\ account_ok q' /\ same_limits q q'
    /\ (if admitted q tx then queue_ q' = take (queue_limit_ q) (placed q tx cur) /\ b = bool_decide (pool q' !! key tx = Some tx)
        else queue_ q' = queue_ q /\ b = false)).
  { intros Hp. unfold placed. destruct (without_absent q _ Hc Hp) as [-> _]. done. }
  assert (Hrun : pool q !! key tx = None -> imported q0 tx (admitted q tx) (import_new tx false (count q a) q0)).
  { intros Hp. unfold admitted. rewrite Hp. change (account_txs_limit_ q) with (account_txs_limit_ q0). by apply import_new_run. }
  change (queue_by_address_and_nonce_ q0) with (queue_by_address_and_nonce_ q).
  assert (Hidx : idx q a (GetNonce tx) = None -> pool q !! key tx = None) by (intros E; by apply pool_index).
  destruct (queue_by_address_and_nonce_ q !! a) as [txs|] eqn:Ea; [destruct (txs !! GetNonce tx) as [its|] eqn:En|].
  2, 3: assert (Hp : pool q !! key tx = None) by (apply Hidx; unfold idx; by rewrite Ea);
    specialize (Hnew Hp (Hrun Hp)); unfold count in Hnew; by rewrite Ea in Hnew.
  destruct (Reopensesame_at_run q0 a txs (GetNonce tx) its Hc0 Ea En) as (old & q1 & Hr & Hd & Hp & He).
  change (pool q0 !! (a, GetNonce tx)) with (pool q !! key tx) in Hp. unfold admitted. rewrite Hd, Hp. cbn [obind].
  destruct (outbids (GetGasPrice tx) (GetGasPrice old)); [|eexists _, q0; by split_and!].
  rewrite Hr. cbn [obind fst snd]. pose proof He as (Hc1 & Hq1 & [Hl1 Hl2] & Ho & _ & _ & Hnx & _).
  set (q2 := set_account_nonce (<[a := cur]> (account_nonce_ q1)) q1).
  assert (Em : account_nonce_ q2 = m).
  { apply map_eq. intros a'. unfold q2, m. cbn. destruct (decide (a' = a)) as [->|Hne]; [by rewrite !lookup_insert_eq|].
    rewrite !lookup_insert_ne by done. destruct (Ho a' Hne) as [_ ->]. cbn. unfold m. by rewrite lookup_insert_ne. }
  assert (Hcnt : count q2 a = (size txs - 1)%nat /\ (size txs - 1 < account_txs_limit_ q2)%nat).
  { change (count q2 a) with (count q1 a). rewrite (erased_count _ _ _ _ He a), decide_True by done.
    change (queue_by_address_and_nonce_ q0) with (queue_by_address_and_nonce_ q). rewrite Ea. cbn. rewrite map_size_delete, En.
    specialize (Hok a). unfold count in Hok. rewrite Ea in Hok. rewrite Hl2. cbn.
    assert (size txs <> 0%nat) by (intros E0%map_size_empty_inv; by rewrite E0, lookup_empty in En). lia. }
  destruct Hcnt as [Hcnt Hlt]. destruct (import_new_run q2 tx true (size txs - 1)) as (b & q' & -> & H1 & H2 & [H3 H3'] & H4); try done.
  - by apply Hset.
  - by apply (erased_account_ok _ _ _ _ He).
  - change (pool q2) with (pool q1). rewrite (erased_pool q0 q1 _ _ Hc0 He). apply lookup_delete_eq.
  - by rewrite Em.
  - apply Nat.ltb_lt in Hlt. rewrite Hlt, Em in H4. exists b, q'. unfold q2 in H3, H3', H4. cbn in H3, H3', H4.
    rewrite Hl1 in H3, H4. rewrite Hl2 in H3'. rewrite Hq1, Hnx in H4. split_and!; try done. apply H4. apply H4.
Qed.
End Ops.
