(* ===== verification/TxQueueFacts.v ===== *)
(** * What the pool guarantees

    The indexes of [TransactionQueue] stay together under every operation, the limits hold, the
    operations have the effect they should on the pool as a map from account and
    nonce, and a block takes consecutive nonces; and how the priority order is lost. *)
From Stdlib Require Import Sorting.Sorted.
From stdpp Require Import pretty.
From S2P Require Import Prelude TxQueue TxQueueInv.

Section Facts.
Context `{QueueParams}.
Context (hash_content : forall t1 t2, GetContentHash t1 = GetContentHash t2 -> key t1 = key t2).
Implicit Types (q : TransactionQueue) (tx : Tx).

Lemma filter_filter {A} (P Q R : A -> Prop) `{!forall x, Decision (P x), !forall x, Decision (Q x), !forall x, Decision (R x)} (l : list A) :
  (forall x, x ∈ l -> R x <-> P x /\ Q x) -> filter P (filter Q l) = filter R l.
Proof.
  induction l as [|a l IH]; intros HR; [done|]. pose proof (HR a ltac:(left)) as Ha.
  assert (E : filter P (filter Q l) = filter R l) by (apply IH; intros x Hx; apply HR; by right).
  rewrite (filter_cons Q), (filter_cons R). destruct (decide (Q a)); [rewrite filter_cons; destruct (decide (P a))|];
    destruct (decide (R a)); rewrite ?E; tauto.
Qed.

(** ** [ReopensesameTxs] *)
Lemma ReopensesameTxs_run set close : forall q, coherent q ->
  exists n q', ReopensesameTxs set close q = Returns (n, q') /\ coherent q' /\ same_limits q q' /\ (account_ok q -> account_ok q')
    /\ queue_ q' = filter (fun e => key e.2 ∉ set) (queue_ q) /\ (n + length (queue_ q') = length (queue_ q))%nat.
Proof.
  induction set as [|[a nn] set IH]; intros q Hc.
  { exists 0%nat, q. cbn [ReopensesameTxs]. split_and!; try done. symmetry. clear. induction (queue_ q) as [|e l IH]; [done|].
    by rewrite filter_cons_True, IH by apply not_elem_of_nil. }
  cbn [ReopensesameTxs]. destruct (Reopensesame_run hash_content q a nn Hc) as (q1 & -> & He). cbn [obind fst snd].
  pose proof He as (Hc1 & Hq1 & Hl1 & _). set (q2 := match account_nonce_ q1 !! a with Some n => _ | None => q1 end).
  assert (Hq2 : coherent q2 /\ queue_ q2 = queue_ q1 /\ same_limits q1 q2 /\ (account_ok q1 -> account_ok q2)).
  { unfold q2. destruct (account_nonce_ q1 !! a) as [n|] eqn:En; [|done]. destruct (close && (n <? nn)); [|done]. split_and!; try done.
    apply nonce_coherent; [done|]. intros a' Hs. destruct (decide (a' = a)) as [->|]; [by rewrite lookup_insert_eq|by rewrite lookup_insert_ne]. }
  destruct Hq2 as (Hc2 & Eq2 & Hl2 & Hok2). destruct (IH q2 Hc2) as (n & q' & -> & Hc' & Hl' & Hok' & Hq' & Hn). cbn [obind fst snd].
  eexists _, q'. split; [done|]. split_and!; [done| | | |].
  - unfold same_limits in *. intuition congruence.
  - intros Hok. apply Hok', Hok2. by apply (erased_account_ok q q1 a nn).
  - rewrite Hq', Eq2, Hq1. apply filter_filter. intros e _. rewrite not_elem_of_cons. tauto.
  - rewrite <- (pool_size q), <- (pool_size q') in * by done. rewrite Eq2, <- (pool_size q1) in Hn by done.
    rewrite (erased_pool q q1 a nn Hc He), map_size_delete in Hn. destruct (pool q !! (a, nn)) eqn:E; cbn in *; [|lia].
    assert (size (pool q) <> 0%nat) by (intros E0%map_size_empty_inv; by rewrite E0, lookup_empty in E). lia.
Qed.

(** ** [CheckTimeoutAndDel] *)
Lemma timeout_loop_run t fuel : forall q, coherent q -> (length (time_queue_ q) <= fuel)%nat ->
  exists q', timeout_loop fuel t q = Returns (filter (fun tx => CheckTimeout_tx t tx = true) (time_queue_ q).*2, q')
    /\ coherent q' /\ same_limits q q' /\ (account_ok q -> account_ok q')
    /\ queue_ q' = filter (fun e => CheckTimeout_tx t e.2 = false) (queue_ q).
Proof.
  assert (Hstop : forall q, coherent q -> (forall e, e ∈ time_queue_ q -> CheckTimeout_tx t e.2 = false) ->
    filter (fun tx => CheckTimeout_tx t tx = true) (time_queue_ q).*2 = [] /\ queue_ q = filter (fun e => CheckTimeout_tx t e.2 = false) (queue_ q)).
  { intros q Hc Hall. split.
    - induction (time_queue_ q) as [|e l IH]; [done|]. rewrite fmap_cons, filter_cons_False by (rewrite Hall by left; done). apply IH. intros x Hx. apply Hall. by right.
    - assert (Hq : forall e, e ∈ queue_ q -> CheckTimeout_tx t e.2 = false) by (intros e He; apply Hall; by rewrite <- (co_time q Hc)).
      clear Hall Hc. induction (queue_ q) as [|e l IH]; [done|]. rewrite filter_cons_True by (apply Hq; left). f_equal. apply IH. intros x Hx. apply Hq. by right. }
  induction fuel as [|fuel IH]; intros q Hc Hf; pose proof (co_order q Hc) as Ho; apply ordered_spec in Ho;
    destruct (time_queue_ q) as [|[i tx] l] eqn:Et; cbn [timeout_loop]; rewrite Et; try (cbn in Hf; lia);
    try (destruct (Hstop q Hc) as [_ E]; [rewrite Et; by intros e ?%not_elem_of_nil|]; exists q; by split_and!).
  cbn in Ho. apply StronglySorted_inv in Ho as [_ Hfa]. destruct (CheckTimeout_tx t tx) eqn:Ex; cbn [negb].
  - destruct (Reopensesame_run hash_content q (GetSourceAddress tx) (GetNonce tx) Hc) as (q1 & -> & He). cbn [obind fst snd].
    pose proof He as (Hc1 & Hq1 & Hl1 & _ & _ & _ & _ & Ht1). fold (key tx) in Hq1, Ht1.
    assert (Hl : time_queue_ q1 = l).
    { rewrite Ht1, Et. apply (without_unique [] l i tx). rewrite app_nil_l, <- Et, <- (co_time q Hc). by apply keys_nodup. }
    destruct (IH q1 Hc1) as (q' & -> & Hc' & Hl' & Hok' & Hq'); [rewrite Hl; cbn in Hf; lia|]. cbn [obind fst snd].
    exists q'. rewrite Hl, fmap_cons, filter_cons_True by done. split_and!; [done|done| | |].
    + unfold same_limits in *. intuition congruence.
    + intros Hok. apply Hok'. by apply (erased_account_ok q q1 _ _ He).
    + rewrite Hq', Hq1. apply filter_filter. intros [j e] Hje. cbn. split; [|tauto]. intros Hfe. split; [done|]. intros E.
      assert (Hin : (i, tx) ∈ queue_ q) by (rewrite (co_time q Hc), Et; by left).
      destruct (key_unique q j i e tx Hc Hje Hin E) as [_ ->]. congruence.
  - assert (Hall : forall e, e ∈ time_queue_ q -> CheckTimeout_tx t e.2 = false).
    { rewrite Et. intros e [->|He]%elem_of_cons; [done|]. rewrite Forall_forall in Hfa.
      specialize (Hfa e.2). unfold CheckTimeout_tx, TimePriorityCompare in *. rewrite !Z.ltb_ge in *.
      assert (GetInComingTime tx <= GetInComingTime e.2) by (apply Hfa, list_elem_of_fmap; by exists e). lia. }
    destruct (Hstop q Hc Hall) as [E1 E2]. rewrite Et in E1. exists q. rewrite E1. by split_and!.
Qed.

(** ** The life of a pool *)
Inductive reach (queue_limit account_limit : nat) : TransactionQueue -> Prop :=
| reach_new : reach queue_limit account_limit (new_queue queue_limit account_limit)
| reach_import q tx cur b q' : reach queue_limit account_limit q -> Import tx cur q = Returns (b, q') -> reach queue_limit account_limit q'
| reach_remove q set close n q' : reach queue_limit account_limit q -> ReopensesameTxs set close q = Returns (n, q') -> reach queue_limit account_limit q'
| reach_timeout q t l q' : reach queue_limit account_limit q -> CheckTimeoutAndDel t q = Returns (l, q') -> reach queue_limit account_limit q'.

Lemma new_coherent ql al : coherent (new_queue ql al).
Proof.
  split; cbn; try done; try (by intros ? ? ?%not_elem_of_nil); [constructor|].
  intros h tx. rewrite lookup_empty. split; [done|]. by intros (_ & i & ?%not_elem_of_nil).
Qed.

Definition pool_ok (ql al : nat) q : Prop :=
  coherent q /\ account_ok q /\ queue_limit_ q = ql /\ account_txs_limit_ q = al /\ (length (queue_ q) <= ql)%nat.

Lemma pool_reach_ok ql al q : reach ql al q -> pool_ok ql al q.
Proof.
  induction 1 as [|q tx cur b q' _ (Hc & Ho & <- & <- & Hl) E|q set close n q' _ (Hc & Ho & <- & <- & Hl) E|q t l q' _ (Hc & Ho & <- & <- & Hl) E].
  - split_and!; [apply new_coherent|intros a; unfold count; cbn; rewrite lookup_empty; lia|done|done|cbn; lia].
  - destruct (Import_run hash_content q tx cur Hc Ho) as (b1 & q1 & E1 & Hc1 & Ho1 & [Hl1 Hl2] & Hq). rewrite E in E1. injection E1 as <- <-.
    split_and!; try done. destruct (admitted q tx); [|destruct Hq as [-> _]; lia]. destruct Hq as [-> _]. rewrite length_take. lia.
  - destruct (ReopensesameTxs_run set close q Hc) as (n1 & q1 & E1 & Hc1 & [Hl1 Hl2] & Ho1 & _ & Hn). rewrite E in E1. injection E1 as <- <-.
    split_and!; try done; [by apply Ho1|lia].
  - destruct (timeout_loop_run (t - QUEUE_TRANSACTION_TIMEOUT) (length (time_queue_ q)) q Hc) as (q1 & E1 & Hc1 & [Hl1 Hl2] & Ho1 & Hq); [lia|].
    unfold CheckTimeoutAndDel in E. rewrite E in E1. injection E1 as _ <-. split_and!; try done; [by apply Ho1|].
    rewrite Hq. pose proof (length_filter (fun e : nat * Tx => CheckTimeout_tx (t - QUEUE_TRANSACTION_TIMEOUT) e.2 = false) (queue_ q)). lia.
Qed.

(** ** [TopTransaction] *)
Definition of_account (a : string) (l : list Tx) : list Tx := filter (fun tx => GetSourceAddress tx = a) l.
Definition by_nonce (x y : Tx) : Prop := GetSourceAddress x = GetSourceAddress y -> GetNonce x < GetNonce y.

Lemma ordered_by_nonce q : coherent q -> ordered (PriorityCompare (account_nonce_ q)) (queue_ q).*2 = true ->
  StronglySorted by_nonce (queue_ q).*2.
Proof.
  intros Hc Ho%ordered_spec. pose proof (keys_nodup q Hc) as Hn. change (fun e : nat * Tx => key e.2) with (key ∘ (@snd nat Tx)) in Hn.
  rewrite list_fmap_compose in Hn. induction Ho as [|x l Hl IH Hx]; [constructor|].
  cbn in Hn. apply NoDup_cons in Hn as [Hn1 Hn]. constructor; [by apply IH|]. rewrite Forall_forall in Hx |- *. intros y Hy Ha.
  specialize (Hx y Hy). unfold PriorityCompare in Hx. rewrite Ha in Hx. apply orb_false_iff in Hx as [Hx _]. apply Z.ltb_ge in Hx.
  assert (GetNonce x <> GetNonce y); [|lia]. intros E. apply Hn1, list_elem_of_fmap. exists y. split; [|done]. unfold key. by rewrite Ha, E.
Qed.

(** What the loop knows about the accounts: the nonces taken, and those still to come. *)
Definition top_inv (N : gmap string Z) (l set : list Tx) (T B : gmap string Z) : Prop :=
  (forall a n, T !! a = Some n -> nonce_of N a < n /\ GetNonce <$> of_account a set = seqZ (nonce_of N a + 1) (n - nonce_of N a))
  /\ (forall a, T !! a = None -> of_account a set = [])
  /\ (forall tx, tx ∈ l -> B !! GetSourceAddress tx = None -> default (nonce_of N (GetSourceAddress tx)) (T !! GetSourceAddress tx) < GetNonce tx).

Lemma top_inv_skip N tx l set T B B' : (forall a, B' !! a = None -> B !! a = None) -> top_inv N (tx :: l) set T B -> top_inv N l set T B'.
Proof. intros HB (H1 & H2 & H3). split_and!; [done|done|]. intros t Ht Hb. apply H3; [by right|by apply HB]. Qed.

Lemma top_inv_take N tx l set T B : top_inv N (tx :: l) set T B -> Forall (by_nonce tx) l -> B !! GetSourceAddress tx = None ->
  GetNonce tx <= default (nonce_of N (GetSourceAddress tx)) (T !! GetSourceAddress tx) + 1 ->
  top_inv N l (set ++ [tx]) (<[GetSourceAddress tx := GetNonce tx]> T) B.
Proof.
  intros (H1 & H2 & H3) Hs Hb Hle. pose proof (H3 tx ltac:(left) Hb) as Hlt. set (a := GetSourceAddress tx) in *.
  assert (Hother : forall a', a' <> a -> of_account a' (set ++ [tx]) = of_account a' set).
  { intros a' Hne. unfold of_account. by rewrite filter_app, filter_cons_False, app_nil_r. }
  assert (Hown : of_account a (set ++ [tx]) = of_account a set ++ [tx]) by (unfold of_account; by rewrite filter_app, filter_cons_True).
  split_and!.
  - intros a' n [[<- <-]|[Hne Hn]]%lookup_insert_Some; [|rewrite Hother by done; by apply H1]. rewrite Hown, fmap_app. cbn.
    destruct (T !! a) as [n|] eqn:ET; cbn [default from_option id] in Hle, Hlt.
    + destruct (H1 a n ET) as [Hn ->]. split; [lia|]. replace (GetNonce tx - nonce_of N a) with (n - nonce_of N a + 1) by lia.
      rewrite seqZ_app by lia. f_equal. apply (f_equal (fun z => [z])). lia.
    + rewrite (H2 a ET). split; [lia|]. cbn. replace (GetNonce tx - nonce_of N a) with 1 by lia. apply (f_equal (fun z => [z])). lia.
  - intros a' Hn. apply lookup_insert_None in Hn as [Hn Hne]. rewrite Hother by done. by apply H2.
  - intros t Ht Hbt. destruct (decide (GetSourceAddress t = a)) as [E|Hne].
    + rewrite E, lookup_insert_eq. cbn. rewrite Forall_forall in Hs. by apply (Hs t Ht).
    + rewrite lookup_insert_ne by done. apply H3; [by right|done].
Qed.

Lemma top_loop_run N limit l : forall set size T B, top_inv N l set T B -> StronglySorted by_nonce l -> (length set <= limit)%nat ->
  let r := top_loop N limit l set size T B in
  (length r <= limit)%nat /\ (exists r', r = set ++ r' /\ r' `sublist_of` l)
  /\ (forall a, exists n, GetNonce <$> of_account a r = seqZ (nonce_of N a + 1) n).
Proof.
  assert (Hdone : forall l set T B, top_inv N l set T B -> (length set <= limit)%nat ->
    (length set <= limit)%nat /\ (exists r', set = set ++ r' /\ r' `sublist_of` l)
    /\ (forall a, exists n, GetNonce <$> of_account a set = seqZ (nonce_of N a + 1) n)).
  { clear l. intros l set T B (H1 & H2 & _) Hl. split_and!; [done|exists []; rewrite app_nil_r; split; [done|apply sublist_nil_l]|]. intros a.
    destruct (T !! a) as [n|] eqn:E; [by destruct (H1 a n E) as [_ ?]; eexists|]. exists 0. by rewrite (H2 a E). }
  induction l as [|tx l IH]; intros set size T B Hi Hs Hl r; [by eapply Hdone|]. unfold r. cbn [top_loop].
  apply StronglySorted_inv in Hs as [Hs Hx]. destruct (Nat.ltb_spec (length set) limit) as [Hlt|Hge]; cbn [negb]; [|by eapply Hdone].
  destruct (_ && _); [by eapply Hdone|]. cbv zeta.
  assert (Hskip : forall B', (forall a, B' !! a = None -> B !! a = None) -> let r := top_loop N limit l set (size + ByteSize tx) T B' in
    (length r <= limit)%nat /\ (exists r', r = set ++ r' /\ r' `sublist_of` tx :: l) /\ (forall a, exists n, GetNonce <$> of_account a r = seqZ (nonce_of N a + 1) n)).
  { intros B' HB. destruct (IH set (size + ByteSize tx) T B') as (L & (r' & E & Hr) & Hn); [by eapply top_inv_skip|done|done|].
    split_and!; [done| |done]. exists r'. split; [done|]. by constructor. }
  destruct (B !! GetSourceAddress tx) as [b|] eqn:EB; [by apply Hskip|].
  destruct (Z.ltb_spec (default (nonce_of N (GetSourceAddress tx)) (T !! GetSourceAddress tx) + 1) (GetNonce tx)) as [Hgt|Hle].
  - apply Hskip. intros a Ha. by apply lookup_insert_None in Ha as [? _].
  - destruct (IH (set ++ [tx]) (size + ByteSize tx) (<[GetSourceAddress tx := GetNonce tx]> T) B) as (L & (r' & E & Hr) & Hn);
      [by apply top_inv_take|done|rewrite length_app; cbn; lia|]. split_and!; [done| |done]. exists (tx :: r'). rewrite E, <- app_assoc. split; [done|by constructor].
Qed.

(** C21: The indexes of the pool agree after any operations: the priority queue and the time queue hold
    the same nodes, the index by account and nonce points to exactly the queued transactions, of
    which no two share account and nonce, the index by hash holds exactly them, every
    account that has one has a nonce; and the limits of the pool and of every account hold. *)
Theorem pool_indexes_agree ql al q : reach ql al q -> pool_ok ql al q.
Proof. apply pool_reach_ok. Qed.

(** [Import] returns. A transaction is admitted if it outbids the one with its account and
    nonce, or if there is none and the account has room; it then replaces that one, stands
    after the transactions that do not come after it, and the queue is cut at its limit; the
    result says whether the transaction is in. Otherwise the queue stays as it is. *)
Theorem pool_import ql al q tx cur : reach ql al q ->
  exists b q', Import tx cur q = Returns (b, q')
    /\ (if admitted q tx then queue_ q' = take ql (placed q tx cur) /\ b = bool_decide (pool q' !! key tx = Some tx)
        else queue_ q' = queue_ q /\ b = false)
    /\ (ordered (PriorityCompare (<[GetSourceAddress tx := cur]> (account_nonce_ q))) (queue_ q).*2 = true ->
        ordered (PriorityCompare (<[GetSourceAddress tx := cur]> (account_nonce_ q))) (placed q tx cur).*2 = true).
Proof.
  intros Hr. destruct (pool_reach_ok ql al q Hr) as (Hc & Ho & <- & _). destruct (Import_run hash_content q tx cur Hc Ho) as (b & q' & E & _ & _ & _ & Hq).
  exists b, q'. split_and!; [done|done|]. intros Hord. apply priority_order. by apply ordered_filter.
Qed.

(** Removing the transactions of a block and removing those that waited too long return and
    remove exactly these: nothing else leaves the pool, and the count is the number removed. *)
Theorem pool_removals ql al q set close t : reach ql al q ->
  (exists n q', ReopensesameTxs set close q = Returns (n, q')
     /\ queue_ q' = filter (fun e => key e.2 ∉ set) (queue_ q) /\ (n + length (queue_ q') = length (queue_ q))%nat)
  /\ (exists q', CheckTimeoutAndDel t q = Returns (filter (fun tx => CheckTimeout_tx (t - QUEUE_TRANSACTION_TIMEOUT) tx = true) (time_queue_ q).*2, q')
     /\ queue_ q' = filter (fun e => CheckTimeout_tx (t - QUEUE_TRANSACTION_TIMEOUT) e.2 = false) (queue_ q)).
Proof.
  intros Hr. destruct (pool_reach_ok ql al q Hr) as (Hc & _). split.
  - destruct (ReopensesameTxs_run set close q Hc) as (n & q' & E & _ & _ & _ & Hq & Hn). by exists n, q'.
  - destruct (timeout_loop_run (t - QUEUE_TRANSACTION_TIMEOUT) (length (time_queue_ q)) q Hc) as (q' & E & _ & _ & _ & Hq); [lia|]. by exists q'.
Qed.

End Facts.

(** ** A pool *)
Module Sample.
#[export] Instance params : QueueParams := {|
  GetContentHash := fun tx => pretty (Npos (encode (key tx)));
  ByteSize := fun _ => 300;
  SetByteSize := fun l => 303 * Z.of_nat (length l);
  misplace := fun l _ => length l |}.

Lemma hash_content t1 t2 : GetContentHash t1 = GetContentHash t2 -> key t1 = key t2.
Proof. cbn. intros E%(inj pretty). injection E as E. by apply (inj encode) in E. Qed.

Definition run {A} (d : A) (o : outcome A) : A := match o with Returns a => a | Throws _ => d end.
Definition import (tx : Tx) (cur : Z) (q : TransactionQueue) : TransactionQueue := (run (false, q) (Import tx cur q)).2.

Definition A6 := MkTx "A" 6 10 1000 0.
Definition A7 := MkTx "A" 7 100 2000 0.
Definition B1 := MkTx "B" 1 5 3000 0.
Definition A7' := MkTx "A" 7 110 4000 0.
Definition filled : TransactionQueue := import B1 0 (import A7 5 (import A6 5 (new_queue 3 2))).
Definition closed : TransactionQueue := (run (0%nat, filled) (ReopensesameTxs [("A"%string, 6)] true filled)).2.

Lemma import_reach ql al q tx cur : reach ql al q -> reach ql al (import tx cur q).
Proof.
  intros Hr. destruct (pool_reach_ok hash_content ql al q Hr) as (Hc & Ho & _). destruct (Import_run hash_content q tx cur Hc Ho) as (b & q' & E & _).
  unfold import. rewrite E. by eapply reach_import.
Qed.
Lemma pool_filled_reach : reach 3 2 filled.
Proof. repeat apply import_reach. apply reach_new. Qed.
End Sample.
Import Sample.

Lemma pool_indexes_agree_witness : pool_ok 3 2 filled.
Proof. apply (pool_indexes_agree hash_content 3 2 filled pool_filled_reach). Defined.

Lemma pool_import_witness : admitted filled A7' = true /\ exists b q', Import A7' 5 filled = Returns (b, q').
Proof.
  split; [vm_compute; reflexivity|]. destruct (pool_import hash_content 3 2 filled A7' 5 pool_filled_reach) as (b & q' & E & _). by exists b, q'.
Defined.

Lemma pool_removals_witness : exists n q', ReopensesameTxs [("A"%string, 6)] true filled = Returns (n, q') /\ (n + length (queue_ q') = 3)%nat.
Proof.
  destruct (pool_removals hash_content 3 2 filled [("A"%string, 6)] true 0 pool_filled_reach) as [(n & q' & E & _ & Hn) _]. by exists n, q'.
Defined.


(** The priority order is lost when a block is closed: the nonce of an account moves on and with
    it the place of its transactions, but the queue is not rearranged. A transaction that
    is next for its account and pays twenty times as much then waits behind another, and
    later insertions search a tree that is not in order. *)
Theorem pool_order_lost :
  ordered (PriorityCompare (account_nonce_ filled)) (queue_ filled).*2 = true
  /\ (queue_ closed).*2 = [B1; A7] /\ ordered (PriorityCompare (account_nonce_ closed)) (queue_ closed).*2 = false
  /\ nonce_of (account_nonce_ closed) "A" + 1 = GetNonce A7 /\ nonce_of (account_nonce_ closed) "B" + 1 = GetNonce B1
  /\ 20 * GetGasPrice B1 = GetGasPrice A7 /\ TopTransaction 1 closed = [B1].
Proof. split_and!; vm_compute; reflexivity. Qed.

