(* ===== verification/LedgerUpgrade.v ===== *)
(** * Votes on ledger upgrades

    [LedgerUpgrade] (src/glue/ledger_upgrade.h, src/glue/ledger_upgrade.cpp): validators
    announce the ledger version they are ready for; the leader proposes an upgrade once enough
    validators announce the same. *)
From S2P Require Import Prelude Strings OrdMap PbftData Pbft.

(** [protocol::LedgerUpgrade] and [protocol::LedgerUpgradeNotify] *)
Record Upgrade := MkUpgrade { new_ledger_version : Z; new_validator : string; chain_id : Z }.
Definition Upgrade0 : Upgrade := MkUpgrade 0 "" 0.
Record LedgerUpgradeNotify := MkNotify { nt_nonce : Z; nt_upgrade : Upgrade; nt_signature : Signature }.

Record LedgerUpgradeFrm := MkUpgradeFrm { recv_time_ : Z; address_ : string; msg_ : LedgerUpgradeNotify }.

Record LedgerUpgrade := MkLedgerUpgrade {
  last_send_time_ : Z; local_state_ : Upgrade; current_states_ : ordmap string LedgerUpgradeFrm }.
Definition LedgerUpgrade_init : LedgerUpgrade := MkLedgerUpgrade 0 Upgrade0 [].

(** The serialization of an upgrade. *)
Class UpgradeParams := { SerializeUpgrade : Upgrade -> string }.

Section Upgrades.
Context `{PbftParams} `{UpgradeParams}.
Implicit Types (st : LedgerUpgrade).

Definition set_states (m : ordmap string LedgerUpgradeFrm) st : LedgerUpgrade :=
  MkLedgerUpgrade (last_send_time_ st) (local_state_ st) m.

(** What is signed: the upgrade, and the nonce in decimal. *)
Definition raw_data (u : Upgrade) (nonce : Z) : string := (SerializeUpgrade u ++ String.string_of_list_ascii (Strings.ToString nonce))%string.

(** [LedgerUpgrade::Recv] at time [now] *)
Definition Recv (now : Z) (msg : LedgerUpgradeNotify) st : LedgerUpgrade :=
  let upgrade := nt_upgrade msg in
  let sig := nt_signature msg in
  if negb (Verify (raw_data upgrade (nt_nonce msg)) (sign_data sig) (public_key sig)) then st
  else if negb (chain_id upgrade =? self_chain_id) then st
  else
    let frm := MkUpgradeFrm now (EncAddress (public_key sig)) msg in
    set_states (om_set (current_states_ st) (address_ frm) frm) st.

Definition MICRO_UNITS_PER_SEC : Z := 1000000.

(** [LedgerUpgrade::OnTimer]: the message it broadcasts; [now] is the time of the message a validator
    receives from itself. *)
Definition OnTimer (current_time now : Z) (is_validator : bool) st : option LedgerUpgradeNotify * LedgerUpgrade :=
  let st := set_states (om_erase_if (fun _ frm => recv_time_ frm + 300 * MICRO_UNITS_PER_SEC <? current_time) (current_states_ st)) st in
  if (30 * MICRO_UNITS_PER_SEC <? current_time - last_send_time_ st) && (0 <? new_ledger_version (local_state_ st)) then
    let raw := raw_data (local_state_ st) current_time in
    let notify := MkNotify current_time (local_state_ st) (MkSignature self_public_key (Sign raw)) in
    let st := MkLedgerUpgrade current_time (local_state_ st) (current_states_ st) in
    if is_validator then (Some notify, Recv now notify st) else (None, st)
  else (None, st).

(** [GetValid]: the votes are counted by the serialization of the upgrade; the key of a count is the
    first vote for it. *)
Definition count_vote (validator_set : gset string) (counter : ordmap string (LedgerUpgradeFrm * nat)) (frm : LedgerUpgradeFrm) :
    ordmap string (LedgerUpgradeFrm * nat) :=
  let k := SerializeUpgrade (nt_upgrade (msg_ frm)) in
  let counter := match om_find counter k with None => om_set counter k (frm, 0%nat) | Some _ => counter end in
  if bool_decide (address_ frm ∈ validator_set) then
    match om_find counter k with
    | Some (first, n) => om_set counter k (first, S n)
    | None => counter
    end
  else counter.

Fixpoint first_quorum (quorum_size : nat) (counter : ordmap string (LedgerUpgradeFrm * nat)) : option Upgrade :=
  match counter with
  | [] => None
  | (_, (frm, n)) :: counter' => if (quorum_size <=? n)%nat then Some (nt_upgrade (msg_ frm)) else first_quorum quorum_size counter'
  end.

Definition GetValid (validators : list string) (quorum_size : nat) st : option Upgrade :=
  if (length (current_states_ st) =? 0)%nat then None
  else first_quorum quorum_size (foldl (count_vote (list_to_set validators)) [] (map snd (current_states_ st))).

Definition ConfNewVersion (new_version : Z) st : LedgerUpgrade :=
  MkLedgerUpgrade (last_send_time_ st) (MkUpgrade new_version (new_validator (local_state_ st)) self_chain_id) (current_states_ st).
Definition GetLocalState st : Upgrade := local_state_ st.
Definition LedgerHasUpgrade st : LedgerUpgrade := MkLedgerUpgrade (last_send_time_ st) Upgrade0 [].
End Upgrades.
