(* ===== verification/LedgerUpgradeFacts.v ===== *)
(** * What an upgrade needs

    An upgrade is proposed only with the authentic votes of a quorum of validators, and found
    whenever they are there; votes can be replayed. *)
From S2P Require Import Prelude Strings OrdMap PbftData Pbft LedgerUpgrade.

Section Facts.
Context `{PbftParams} `{UpgradeParams}.
Implicit Types (st : LedgerUpgrade) (V : gset string) (l : list LedgerUpgradeFrm).

(** What a vote is for. *)
Definition choice (frm : LedgerUpgradeFrm) : string := SerializeUpgrade (nt_upgrade (msg_ frm)).
Definition votes V (s : string) l : nat := length (filter (fun f => choice f = s /\ address_ f ∈ V) l).

(** ** Counting *)
Lemma votes_snoc V s l f : votes V s (l ++ [f]) = (votes V s l + if decide (choice f = s /\ address_ f ∈ V) then 1 else 0)%nat.
Proof.
  unfold votes. rewrite filter_app, length_app. f_equal. rewrite filter_cons. by case_decide.
Qed.

Lemma votes_none V s l : filter (fun f => choice f = s) l = [] -> votes V s l = 0%nat.
Proof.
  intros E. unfold votes. destruct (filter (fun f => choice f = s /\ address_ f ∈ V) l) as [|g rest] eqn:Eg; [done|]. exfalso.
  assert (Hg : g ∈ filter (fun f => choice f = s /\ address_ f ∈ V) l) by (rewrite Eg; left).
  apply list_elem_of_filter in Hg as [[? _] ?]. assert (Hg : g ∈ filter (fun f => choice f = s) l) by by apply list_elem_of_filter.
  rewrite E in Hg. by apply not_elem_of_nil in Hg.
Qed.

Lemma filter_snoc_head (s : string) l f : filter (fun f => choice f = s) (l ++ [f]) =
  filter (fun f => choice f = s) l ++ (if decide (choice f = s) then [f] else []).
Proof. rewrite filter_app, filter_cons. by case_decide. Qed.

Lemma count_votes V l : let c := foldl (count_vote V) [] l in
  om_sorted c /\ forall s, om_find c s = (fun f => (f, votes V s l)) <$> head (filter (fun f => choice f = s) l).
Proof.
  induction l as [|f l [IHs IH]] using rev_ind; [by split|]. cbv zeta. rewrite foldl_app. cbn [foldl]. set (c := foldl (count_vote V) [] l) in *.
  unfold count_vote. change (SerializeUpgrade (nt_upgrade (msg_ f))) with (choice f).
  set (c1 := match om_find c (choice f) with Some _ => c | None => om_set c (choice f) (f, 0%nat) end).
  assert (Hs1 : om_sorted c1) by (unfold c1; destruct (om_find c (choice f)); [done|by apply om_set_sorted]).
  assert (H1 : forall s, om_find c1 s = if decide (s = choice f) then
      Some (default f (head (filter (fun g => choice g = choice f) l)), votes V (choice f) l) else om_find c s).
  { intros s. unfold c1. pose proof (IH (choice f)) as Hf. destruct (filter (fun g => choice g = choice f) l) as [|g rest] eqn:El; cbn in Hf; rewrite Hf.
    - rewrite om_find_set. case_decide as Hd; destruct (key_eqb_spec s (choice f)); try done.
      by rewrite (votes_none V _ _ El).
    - case_decide as Hd; [subst s; by rewrite Hf|done]. }
  assert (Hne : forall s, s <> choice f -> (fun g => (g, votes V s l)) <$> head (filter (fun g => choice g = s) l)
    = (fun g => (g, votes V s (l ++ [f]))) <$> head (filter (fun g => choice g = s) (l ++ [f]))).
  { intros s Hs. rewrite votes_snoc, filter_snoc_head, !decide_False by naive_solver. by rewrite app_nil_r, Nat.add_0_r. }
  assert (Heq : head (filter (fun g => choice g = choice f) (l ++ [f])) = Some (default f (head (filter (fun g => choice g = choice f) l)))).
  { rewrite filter_snoc_head, decide_True by done. by destruct (filter _ l). }
  case_bool_decide as Hv.
  - rewrite H1, decide_True by done. split; [by apply om_set_sorted|]. intros s. rewrite om_find_set.
    destruct (key_eqb_spec s (choice f)) as [->|Hs].
    + rewrite Heq, votes_snoc, decide_True by done. cbn. do 2 f_equal. lia.
    + by rewrite H1, decide_False, IH, Hne.
  - split; [done|]. intros s. rewrite H1. case_decide as Hs; [subst s|by rewrite IH, Hne].
    rewrite Heq, votes_snoc, decide_False by tauto. cbn. do 2 f_equal. lia.
Qed.

Lemma first_quorum_Some q c u : first_quorum q c = Some u -> exists s frm n, (s, (frm, n)) ∈ c /\ (q <= n)%nat /\ u = nt_upgrade (msg_ frm).
Proof.
  induction c as [|[s [frm n]] c IH]; [done|]. cbn. destruct (Nat.leb_spec q n) as [Hle|Hlt].
  - intros [= <-]. exists s, frm, n. split_and!; [left|done|done].
  - intros E. destruct (IH E) as (s' & frm' & n' & Hin & ?). exists s', frm', n'. split; [by right|done].
Qed.
Lemma first_quorum_None q c s frm n : first_quorum q c = None -> (s, (frm, n)) ∈ c -> (n < q)%nat.
Proof.
  induction c as [|[s0 [frm0 n0]] c IH]; [by intros _ ?%not_elem_of_nil|]. cbn. destruct (Nat.leb_spec q n0); [done|].
  intros E [[= -> -> ->]|Hin]%elem_of_cons; [done|by apply IH].
Qed.

(** ** The votes a node holds *)
Definition authentic_vote (a : string) (frm : LedgerUpgradeFrm) : Prop :=
  let m := msg_ frm in
  address_ frm = a /\ EncAddress (public_key (nt_signature m)) = a /\ chain_id (nt_upgrade m) = self_chain_id
  /\ Verify (raw_data (nt_upgrade m) (nt_nonce m)) (sign_data (nt_signature m)) (public_key (nt_signature m)) = true.

Inductive reach : LedgerUpgrade -> Prop :=
| reach_init : reach LedgerUpgrade_init
| reach_recv st now msg : reach st -> reach (Recv now msg st)
| reach_timer st t now v : reach st -> reach (OnTimer t now v st).2
| reach_conf st v : reach st -> reach (ConfNewVersion v st)
| reach_done st : reach st -> reach (LedgerHasUpgrade st).

Definition states_ok st : Prop :=
  om_sorted (current_states_ st) /\ Forall (fun e => authentic_vote e.1 e.2) (current_states_ st).

Lemma Recv_ok now msg st : states_ok st -> states_ok (Recv now msg st).
Proof.
  intros [Hs Ha]. unfold Recv. destruct (Verify _ _ _) eqn:Ev; cbn [negb]; [|done]. destruct (Z.eqb_spec (chain_id (nt_upgrade msg)) self_chain_id); cbn [negb]; [|done].
  split; [by apply om_set_sorted|]. apply om_set_forall; [done|]. by split_and!.
Qed.

Lemma reach_states st : reach st -> states_ok st.
Proof.
  induction 1 as [|st now msg _ IH|st t now v _ IH|st v _ IH|st _ IH]; [by split|by apply Recv_ok| |exact IH|by split].
  unfold OnTimer. set (st1 := set_states _ st). assert (H1 : states_ok st1).
  { destruct IH. split; [by apply om_erase_if_sorted|by apply om_erase_if_forall]. }
  destruct (_ && _); [|done]. destruct v; [|done]. by apply Recv_ok.
Qed.

(** The validators that vote for [s]. *)
Definition voters V (s : string) st : list string := map address_ (filter (fun f => choice f = s /\ address_ f ∈ V) (map snd (current_states_ st))).

Lemma states_addresses st : states_ok st -> map address_ (map snd (current_states_ st)) = map fst (current_states_ st).
Proof.
  intros [_ Ha]. rewrite map_map. apply map_ext_in. intros [a frm] Hin%list_elem_of_In. rewrite Forall_forall in Ha.
  by destruct (Ha _ Hin) as [E _].
Qed.

Lemma voters_nodup V s st : states_ok st -> NoDup (voters V s st).
Proof.
  intros Hok. unfold voters. pose proof (om_keys_nodup _ (proj1 Hok)) as Hn. rewrite <- (states_addresses st Hok) in Hn.
  revert Hn. generalize (map snd (current_states_ st)). intros l. induction l as [|f l IH]; [done|]. cbn [map]. intros [Hf Hl]%NoDup_cons.
  rewrite filter_cons. case_decide; [|by apply IH]. cbn [map]. apply NoDup_cons. split; [|by apply IH].
  intros (g & E & [_ Hg]%list_elem_of_filter)%list_elem_of_fmap. apply Hf, list_elem_of_fmap. by exists g.
Qed.

(** C23: An upgrade is proposed exactly when some choice has the votes of a quorum: the proposed one has
    at least that many different validators behind it, each with a vote that it signed for this
    chain, and no choice has as many when none is proposed. Where a quorum is more than
    half of the validators the choice is unique. *)
Theorem upgrade_has_quorum st validators quorum : reach st -> (0 < quorum)%nat ->
  let V := list_to_set validators : gset string in
  match GetValid validators quorum st with
  | Some u =>
      let who := voters V (SerializeUpgrade u) st in
      NoDup who /\ (quorum <= length who)%nat
      /\ (forall a, a ∈ who -> a ∈ validators /\ exists frm, om_find (current_states_ st) a = Some frm /\ choice frm = SerializeUpgrade u /\ authentic_vote a frm)
      /\ (forall u', (size V < 2 * quorum)%nat -> (quorum <= length (voters V (SerializeUpgrade u') st))%nat -> SerializeUpgrade u' = SerializeUpgrade u)
  | None => forall u', (length (voters V (SerializeUpgrade u') st) < quorum)%nat
  end.
Proof.
  intros Hr Hq V. pose proof (reach_states st Hr) as Hok. pose proof Hok as [Hsort Hauth]. set (l := map snd (current_states_ st)).
  destruct (count_votes V l) as [Hcs Hc]. assert (Hlen : forall s, length (voters V s st) = votes V s l) by (intros s; apply length_map).
  unfold GetValid. fold V. fold l. destruct (Nat.eqb_spec (length (current_states_ st)) 0) as [Hz|_].
  { intros u'. rewrite Hlen. apply length_zero_iff_nil in Hz. unfold l. rewrite Hz. exact Hq. }
  destruct (first_quorum quorum (foldl (count_vote V) [] l)) as [u|] eqn:E.
  - apply first_quorum_Some in E as (s & frm & n & Hin & Hn & ->). apply (om_in_find _ _ _ Hcs) in Hin. rewrite Hc in Hin.
    destruct (filter (fun f => choice f = s) l) as [|f rest] eqn:Ef; [done|]. cbn in Hin. injection Hin as -> <-.
    assert (Hfs : frm ∈ filter (fun f => choice f = s) l) by (rewrite Ef; left). apply list_elem_of_filter in Hfs as [<- _].
    change (SerializeUpgrade (nt_upgrade (msg_ frm))) with (choice frm). split_and!; [by apply voters_nodup|by rewrite Hlen| |].
    + intros a (g & -> & [[Hg1 Hg2] Hg3]%list_elem_of_filter)%list_elem_of_fmap. split; [by apply elem_of_list_to_set in Hg2|].
      apply list_elem_of_fmap in Hg3 as ([a g'] & -> & Hin). cbn in *. rewrite Forall_forall in Hauth. pose proof (Hauth _ Hin) as Hav.
      cbn in Hav. pose proof Hav as (Ea & _). rewrite Ea. exists g'. split_and!; [by apply om_in_find|done|done].
    + intros u' Hsz Hq'. destruct (decide (SerializeUpgrade u' = choice frm)) as [|Hne]; [done|]. exfalso.
      assert (Hdisj : NoDup (voters V (SerializeUpgrade u') st ++ voters V (choice frm) st)).
      { apply NoDup_app. split_and!; [by apply voters_nodup| |by apply voters_nodup].
        intros a (g & -> & [[Hg1 _] Hg3]%list_elem_of_filter)%list_elem_of_fmap (h & Eh & [[Hh1 _] Hh3]%list_elem_of_filter)%list_elem_of_fmap.
        apply list_elem_of_fmap in Hg3 as ([a1 g'] & -> & Hg), Hh3 as ([a2 h'] & -> & Hh). cbn in *. rewrite Forall_forall in Hauth.
        destruct (Hauth _ Hg) as [E1 _], (Hauth _ Hh) as [E2 _]. cbn in E1, E2. assert (a1 = a2) as <- by congruence.
        apply (om_in_find _ _ _ Hsort) in Hg, Hh. congruence. }
      assert (Hsub : (list_to_set (voters V (SerializeUpgrade u') st ++ voters V (choice frm) st) : gset string) ⊆ V).
      { intros a. rewrite elem_of_list_to_set, elem_of_app. intros [Ha|Ha]; by apply list_elem_of_fmap in Ha as (g & -> & [[_ ?] _]%list_elem_of_filter). }
      apply subseteq_size in Hsub. rewrite size_list_to_set in Hsub by done. rewrite length_app, !Hlen in *. lia.
  - intros u'. rewrite Hlen. destruct (decide (votes V (SerializeUpgrade u') l = 0)%nat) as [->|Hv]; [done|].
    specialize (Hc (SerializeUpgrade u')). destruct (filter (fun f => choice f = SerializeUpgrade u') l) as [|f rest] eqn:Ef.
    + exfalso. by apply Hv, votes_none.
    + cbn in Hc. apply om_find_in in Hc. by eapply first_quorum_None.
Qed.

(** A vote can be replayed: the nonce of a message is part of what is signed but is compared with
    nothing, so that an old message of a validator, sent again by anyone at any later time,
    takes the place of its newer one and counts as received now. *)
Theorem upgrade_vote_replay st old new now1 now2 :
  let a := EncAddress (public_key (nt_signature new)) in
  public_key (nt_signature old) = public_key (nt_signature new) -> nt_nonce old < nt_nonce new ->
  (forall m, m = old \/ m = new -> chain_id (nt_upgrade m) = self_chain_id
     /\ Verify (raw_data (nt_upgrade m) (nt_nonce m)) (sign_data (nt_signature m)) (public_key (nt_signature m)) = true) ->
  om_find (current_states_ (Recv now1 new st)) a = Some (MkUpgradeFrm now1 a new)
  /\ om_find (current_states_ (Recv now2 old (Recv now1 new st))) a = Some (MkUpgradeFrm now2 a old).
Proof.
  intros a Hk _ Hm. destruct (Hm old ltac:(by left)) as [Hc1 Hv1], (Hm new ltac:(by right)) as [Hc2 Hv2].
  assert (Hr : forall m now st, m = old \/ m = new -> om_find (current_states_ (Recv now m st)) a = Some (MkUpgradeFrm now a m)).
  { intros m now st0 Hmm. destruct (Hm m Hmm) as [Hc Hv]. unfold Recv. rewrite Hv. cbn [negb]. rewrite Hc, Z.eqb_refl. cbn [negb].
    assert (Ha : EncAddress (public_key (nt_signature m)) = a) by (unfold a; destruct Hmm as [->| ->]; [by rewrite Hk|done]).
    cbn. rewrite Ha. apply om_find_set_eq. }
  split; apply Hr; tauto.
Qed.
End Facts.

(** ** An example: three of four validators are ready for version 2 *)
Module Sample.
Open Scope string_scope.
#[export] Instance pbft_params : PbftParams := {|
  Hash := fun s => s; Serialize := fun _ => ""; Sign := fun d => "k0:" ++ d;
  Verify := fun d s k => bool_decide (s = k ++ ":" ++ d); EncAddress := fun k => "a" ++ k;
  self_public_key := "k0"; self_address := "ak0"; self_chain_id := 7;
  CheckValue := fun _ => CHECK_VALUE_VALID; ParseProof := fun _ => None |}.
#[export] Instance upgrade_params : UpgradeParams := {|
  SerializeUpgrade := fun u => String.string_of_list_ascii (Strings.ToString (new_ledger_version u)) ++ "," ++ new_validator u |}.
Definition vote (k : string) (nonce version : Z) : LedgerUpgradeNotify :=
  let u := MkUpgrade version "" 7 in MkNotify nonce u (MkSignature k (k ++ ":" ++ raw_data u nonce)).
Definition votes3 : LedgerUpgrade := Recv 30 (vote "k2" 3 2) (Recv 20 (vote "k1" 2 2) (Recv 10 (vote "k0" 1 2) LedgerUpgrade_init)).
Definition nodes : list string := ["ak0"; "ak1"; "ak2"; "ak3"].
End Sample.
Import Sample.

Lemma upgrade_has_quorum_witness :
  GetValid nodes 3 votes3 = Some (MkUpgrade 2 "" 7) /\ (3 <= length (voters (list_to_set nodes) (SerializeUpgrade (MkUpgrade 2 "" 7)) votes3))%nat.
Proof.
  split; [vm_compute; reflexivity|]. assert (Hr : reach votes3) by (repeat apply reach_recv; apply reach_init).
  pose proof (upgrade_has_quorum votes3 nodes 3 Hr ltac:(lia)) as Hu. cbv zeta in Hu.
  replace (GetValid nodes 3 votes3) with (Some (MkUpgrade 2 "" 7)) in Hu by (vm_compute; reflexivity). apply Hu.
Defined.

Lemma upgrade_vote_replay_witness :
  om_find (current_states_ (Recv 900 (vote "k1" 2 2) (Recv 800 (vote "k1" 700 3) votes3))) "ak1" = Some (MkUpgradeFrm 900 "ak1" (vote "k1" 2 2)).
Proof.
  refine (proj2 (upgrade_vote_replay votes3 (vote "k1" 2 2) (vote "k1" 700 3) 800 900 eq_refl _ _)); [done|].
  intros m [->| ->]; split; vm_compute; reflexivity.
Defined.
