(* ===== verification/Glue.v ===== *)
(** * The glue manager

    [GlueManager] (src/glue/glue_manager.cpp) and [TransactionSetFrm]
    (src/glue/transaction_set.cpp): transactions enter the pool, the leader makes a proposal of
    them, replicas check proposals and blocks, and a closed block leaves the pool. *)
From S2P Require Import Prelude Strings OrdMap PbftData Pbft TxQueue LedgerUpgrade.

(** The parts of [protocol::LedgerHeader] and [protocol::ConsensusValue] used here. *)
Record LedgerHeader := MkHeader {
  lh_seq : Z; lh_hash : string; lh_close_time : Z; lh_version : Z; lh_consensus_value_hash : string }.
Record ConsensusValue := MkConsensusValue {
  txset : list Tx; close_time : Z; ledger_seq : Z; previous_ledger_hash : string; previous_proof : string;
  ledger_upgrade : option Upgrade; validation : option (list Z * list Z) }.

(** [ProposeTxsResult] (src/ledger/ledger_frm.h) *)
Record ProposeTxsResult := MkProposeResult {
  block_timeout_ : bool; tx_execute_count_ : Z; need_dropped_tx_ : gset nat; expire_tx_ids : list Z; error_tx_ids : list Z }.

(** The protobuf encoding of values; the execution of a proposal, which may come out differently
    each time it is tried; and the checks a new transaction has to pass, with the nonce of its account. *)
Class GlueParams := {
  ParseValue : string -> option ConsensusValue;
  SerializeValue : ConsensusValue -> string;
  ValueByteSize : ConsensusValue -> Z;
  SyncPreProcess : nat -> ConsensusValue -> ProposeTxsResult;
  SyncCheck : ConsensusValue -> bool;
  CheckValid : Tx -> option Z }.

(** What a node knows: its last closed ledger, its configuration, the validators of a ledger and the
    last proof from the database. *)
Record GlueEnv := MkEnv {
  lcl : LedgerHeader; close_interval_ : Z; max_trans_per_ledger_ : nat; hardfork_points_ : gset string;
  GetValidators : Z -> option (list string); LAST_PROOF : string }.

Definition LEDGER_VERSION : Z := 1003.

Section Glue.
Context `{PbftParams} `{UpgradeParams} `{QueueParams} `{GlueParams}.

(** ** Checking values *)

Definition is_hardfork (env : GlueEnv) (h : string) : bool := bool_decide (h ∈ hardfork_points_ env).

(** [has_ledger_upgrade]: the version is new and known, and a new validator is only for a hard fork. *)
Definition check_upgrade (env : GlueEnv) (v : ConsensusValue) (upgrade : Upgrade) : bool :=
  (if negb (new_ledger_version upgrade =? 0) then
     negb (new_ledger_version upgrade <=? lh_version (lcl env)) && negb (LEDGER_VERSION <? new_ledger_version upgrade)
   else true)
  && negb (negb (is_hardfork env (Hash (SerializeValue v))) && negb (bool_decide (new_validator upgrade = "")%string)).

Definition CheckValueHelper (env : GlueEnv) (v : ConsensusValue) (now : Z) : CheckValueResult :=
  let l := lcl env in
  if TXSET_LIMIT_SIZE + 2 * 1048576 <=? ValueByteSize v then CHECK_VALUE_MAYVALID
  else if negb (ledger_seq v =? lh_seq l + 1) then CHECK_VALUE_MAYVALID
  else if negb (bool_decide (previous_ledger_hash v = lh_hash l)) then CHECK_VALUE_MAYVALID
  else if negb (now =? -1)
          && negb ((close_time v - MICRO_UNITS_PER_SEC <? now) && (lh_close_time l + close_interval_ env <=? close_time v))
  then CHECK_VALUE_MAYVALID
  else if match ledger_upgrade v with Some u => negb (check_upgrade env v u) | None => false end then CHECK_VALUE_MAYVALID
  else if (lh_seq l =? 1) && negb (bool_decide (previous_proof v = "")%string) then CHECK_VALUE_MAYVALID
  else if 1 <? lh_seq l then
    match GetValidators env (ledger_seq v - 2) with
    | None => CHECK_VALUE_MAYVALID
    | Some set =>
        if negb (is_hardfork env (lh_consensus_value_hash l)) && negb (CheckProof set (lh_consensus_value_hash l) (previous_proof v))
        then CHECK_VALUE_MAYVALID else CHECK_VALUE_VALID
    end
  else CHECK_VALUE_VALID.

Definition CheckValue (env : GlueEnv) (value : string) (now : Z) : CheckValueResult :=
  match ParseValue value with
  | None => CHECK_VALUE_MAYVALID
  | Some v =>
      match CheckValueHelper env v now with
      | CHECK_VALUE_VALID => if SyncCheck v then CHECK_VALUE_VALID else CHECK_VALUE_MAYVALID
      | r => r
      end
  end.

Definition CheckValueAndProof (env : GlueEnv) (consensus_value proof : string) : bool :=
  match ParseValue consensus_value with
  | None => false
  | Some v =>
      match GetValidators env (ledger_seq v - 1) with
      | None => false
      | Some set =>
          bool_decide (CheckValueHelper env v (-1) = CHECK_VALUE_VALID)
          && (CheckProof set (Hash consensus_value) proof || is_hardfork env (Hash consensus_value))
      end
  end.

(** ** Proposing *)

(** The number of transactions to try after a timeout: 0.7 of them, rounded. *)
Definition next_tx_size (total_tx_count : Z) : Z := truncate (dadd (dmul (of_int total_tx_count) d0_7) d0_5).

Definition propose_value (env : GlueEnv) (next_close_time : Z) (upgrade : option Upgrade) (txs : list Tx) : ConsensusValue :=
  MkConsensusValue txs next_close_time (lh_seq (lcl env) + 1) (lh_hash (lcl env)) (LAST_PROOF env) upgrade None.

(** The upgrade to propose, from the votes. *)
Definition proposed_upgrade (env : GlueEnv) (validators : list string) (quorum_size : nat) (up : LedgerUpgrade) : option Upgrade :=
  match GetValid validators (quorum_size + 1) up with
  | Some u => if (lh_version (lcl env) <? new_ledger_version u) && (new_ledger_version u <=? LEDGER_VERSION) then Some u else None
  | None => None
  end.

(** The transactions kept and dropped, by their index. *)
Definition kept_txs (dropped : gset nat) (txs : list Tx) : list Tx := (filter (fun e => e.1 ∉ dropped) (zip (seq 0 (length txs)) txs)).*2.
Definition dropped_txs (dropped : gset nat) (txs : list Tx) : list Tx := (filter (fun e => e.1 ∈ dropped) (zip (seq 0 (length txs)) txs)).*2.

Definition with_txset (txs : list Tx) (v : ConsensusValue) : ConsensusValue :=
  MkConsensusValue txs (close_time v) (ledger_seq v) (previous_ledger_hash v) (previous_proof v) (ledger_upgrade v) (validation v).
Definition with_validation (x : list Z * list Z) (v : ConsensusValue) : ConsensusValue :=
  MkConsensusValue (txset v) (close_time v) (ledger_seq v) (previous_ledger_hash v) (previous_proof v) (ledger_upgrade v) (Some x).

(** [do { ... } while (true)]: try, and on a timeout again with fewer transactions. *)
Fixpoint propose_loop (fuel : nat) (env : GlueEnv) (next_close_time : Z) (upgrade : option Upgrade) (attempt : nat) (txset_raw : list Tx)
    (q : TransactionQueue) : outcome (ConsensusValue * TransactionQueue) :=
  match fuel with
  | O => Throws OutOfFuel
  | S fuel =>
      let v := propose_value env next_close_time upgrade txset_raw in
      let r := SyncPreProcess attempt v in
      let txs_size := Z.of_nat (length txset_raw) in
      if block_timeout_ r then
        let total_tx_count := if tx_execute_count_ r =? 0 then txs_size else Z.min (tx_execute_count_ r) txs_size in
        let n := next_tx_size total_tx_count in
        if txs_size <? n then Throws RangeError
        else propose_loop fuel env next_close_time upgrade (S attempt) (take (Z.to_nat n) txset_raw) q
      else
        let* vq := if bool_decide (need_dropped_tx_ r = ∅) then Returns (v, q)
                   else let* rq := ReopensesameTxs (map (fun tx => (GetSourceAddress tx, GetNonce tx)) (dropped_txs (need_dropped_tx_ r) txset_raw)) false q in
                        Returns (with_txset (kept_txs (need_dropped_tx_ r) txset_raw) v, rq.2) in
        let v := if (0 <? length (error_tx_ids r))%nat || (0 <? length (expire_tx_ids r))%nat
                 then with_validation (expire_tx_ids r, error_tx_ids r) vq.1 else vq.1 in
        Returns (v, vq.2)
  end.

(** [StartConsensus] at time [now]: the request made to the consensus, if any. [up], [validators] and
    [quorum_size] are the votes on upgrades and what [GetValidation] gives. *)
Definition StartConsensus (fuel : nat) (env : GlueEnv) (now : Z) (is_leader : bool) (up : LedgerUpgrade) (validators : list string) (quorum_size : nat)
    (last_consvalue : string) (q : TransactionQueue) : outcome (option string * TransactionQueue) :=
  if negb is_leader then Returns (None, q)
  else
    let txset_raw := TopTransaction (max_trans_per_ledger_ env) q in
    let next_close_time := Z.max now (lh_close_time (lcl env) + close_interval_ env) in
    let take_last := negb (bool_decide (last_consvalue = "")%string)
                     && bool_decide (CheckValue env last_consvalue now = CHECK_VALUE_VALID) in
    match (if take_last then ParseValue last_consvalue else None) with
    | Some v => Returns (Some (SerializeValue v), q)
    | None =>
        let* r := propose_loop fuel env next_close_time (proposed_upgrade env validators quorum_size up) 0 txset_raw q in
        Returns (Some (SerializeValue r.1), r.2)
    end.

(** ** Events *)

Inductive TxError := ALREADY_EXIST | CHECK_FAILED | TX_INSERT_QUEUE_FAIL.

(** [OnTransaction]: the error, [None] for success. *)
Definition OnTransaction (tx : Tx) (q : TransactionQueue) : outcome (option TxError * TransactionQueue) :=
  if IsExist_hash (GetContentHash tx) q then Returns (Some ALREADY_EXIST, q)
  else match CheckValid tx with
       | None => Returns (Some CHECK_FAILED, q)
       | Some nonce => let* r := Import tx nonce q in Returns (if r.1 then None else Some TX_INSERT_QUEUE_FAIL, r.2)
       end.

(** [OnTimer] *)
Definition OnTimer_glue (current_time now : Z) (is_validator : bool) (q : TransactionQueue) (up : LedgerUpgrade) :
    outcome (option LedgerUpgradeNotify * TransactionQueue * LedgerUpgrade) :=
  let* r := CheckTimeoutAndDel current_time q in
  let '(notify, up) := OnTimer current_time now is_validator up in
  Returns (notify, r.2, up).

(** [OnValueCommited]: what it does to the pool. *)
Definition OnValueCommited (value : string) (q : TransactionQueue) : outcome TransactionQueue :=
  let txs := match ParseValue value with Some v => txset v | None => [] end in
  let* r := ReopensesameTxs (map (fun tx => (GetSourceAddress tx, GetNonce tx)) txs) true q in Returns r.2.

(** ** [TransactionSetFrm] *)
Record TransactionSetFrm := MkTxSet { raw_txs_ : list Tx; topic_seqs_ : gmap string Z }.

(** [Add]: 1 when added, 0 when it does not fit or is too far ahead, -1 when it is too old. *)
Definition Add (AccountNonce : string -> option Z) (tx : Tx) (s : TransactionSetFrm) : Z * TransactionSetFrm :=
  if TXSET_LIMIT_SIZE <=? SetByteSize (raw_txs_ s) + ByteSize tx then (0, s)
  else
    let a := GetSourceAddress tx in
    let last_seq := match topic_seqs_ s !! a with Some n => n | None => default 0 (AccountNonce a) end in
    if last_seq + 1 <? GetNonce tx then (0, s)
    else if GetNonce tx <=? last_seq then (-1, s)
    else (1, MkTxSet (raw_txs_ s ++ [tx]) (<[a := GetNonce tx]> (topic_seqs_ s))).
End Glue.
