(* ===== verification/GlueFacts.v ===== *)
(** * What the glue manager guarantees

    Proposals of an honest leader pass the checks of the replicas, blocks that are taken over have a
    certificate, and when making a proposal ends. *)
From S2P Require Import Prelude Strings OrdMap PbftData Pbft PbftChecks PbftFacts TxQueue TxQueueInv TxQueueFacts LedgerUpgrade Glue.

Section Facts.
Context {PB : PbftParams} {UP : UpgradeParams} {QP : QueueParams} {GP : GlueParams}.
Implicit Types (env : GlueEnv) (v : ConsensusValue) (q : TransactionQueue).

(** ** The proposal loop *)

(** The value a proposal has, whatever was dropped. *)
Definition proposal env (ct : Z) (up : option Upgrade) v : Prop :=
  close_time v = ct /\ ledger_seq v = lh_seq (lcl env) + 1 /\ previous_ledger_hash v = lh_hash (lcl env)
  /\ previous_proof v = LAST_PROOF env /\ ledger_upgrade v = up.

Lemma propose_loop_value fuel env ct up : forall attempt txs q v q',
  propose_loop fuel env ct up attempt txs q = Returns (v, q') -> proposal env ct up v.
Proof.
  induction fuel as [|fuel IH]; intros attempt txs q v q'; cbn [propose_loop]; [done|]. set (r := SyncPreProcess _ _).
  destruct (block_timeout_ r).
  - destruct (_ <? _); [done|]. apply IH.
  - assert (Hv : forall v0 q0, (if bool_decide (need_dropped_tx_ r = ∅) then Returns (propose_value env ct up txs, q)
        else let* rq := ReopensesameTxs (map (fun tx => (GetSourceAddress tx, GetNonce tx)) (dropped_txs (need_dropped_tx_ r) txs)) false q in
             Returns (with_txset (kept_txs (need_dropped_tx_ r) txs) (propose_value env ct up txs), rq.2)) = Returns (v0, q0) -> proposal env ct up v0).
    { intros v0 q0. case_bool_decide; [by intros [= <- <-]|]. destruct (ReopensesameTxs _ false q); [|done]. cbn. by intros [= <- <-]. }
    destruct (if bool_decide _ then _ else _) as [[v0 q0]|] eqn:E; [|done]. cbn [obind fst snd]. specialize (Hv v0 q0 eq_refl).
    destruct (_ || _); intros [= <- <-]; exact Hv.
Qed.

(** Fewer than before from two on, and never more; but one stays one. *)
Lemma next_tx_size_spec t : 0 <= t <= 2000 -> 0 <= next_tx_size t /\ (if t <=? 1 then next_tx_size t = t else next_tx_size t < t).
Proof.
  intros Ht. pose proof (forall_range 2001 (fun t => (0 <=? next_tx_size t) && (if t <=? 1 then next_tx_size t =? t else next_tx_size t <? t))) as Hf.
  assert (Hc : forallb (fun t => (0 <=? next_tx_size t) && (if t <=? 1 then next_tx_size t =? t else next_tx_size t <? t)) (map Z.of_nat (seq 0 2001)) = true)
    by (vm_compute; reflexivity).
  specialize (Hf Hc t ltac:(lia)). cbn beta in Hf. apply andb_true_iff in Hf as [H1 H2]. apply Z.leb_le in H1. split; [done|].
  destruct (t <=? 1); [by apply Z.eqb_eq|by apply Z.ltb_lt].
Qed.

(** The result of a try counts transactions. *)
Context (execute_count : forall n v, 0 <= tx_execute_count_ (SyncPreProcess n v)).

Lemma next_total n v (txs : list Tx) : (length txs <= 2000)%nat -> let r := SyncPreProcess n v in
  let total := if tx_execute_count_ r =? 0 then Z.of_nat (length txs) else Z.min (tx_execute_count_ r) (Z.of_nat (length txs)) in
  0 <= next_tx_size total <= Z.of_nat (length txs) /\ ((1 < length txs)%nat -> next_tx_size total < Z.of_nat (length txs))
  /\ (length txs = 1%nat -> next_tx_size total = 1).
Proof.
  intros Hl r total. pose proof (execute_count n v) as He. fold r in He.
  assert (Ht : 0 <= total <= Z.of_nat (length txs)) by (unfold total; case_match; lia).
  assert (H1 : (length txs = 1)%nat -> total = 1) by (unfold total; intros E; rewrite E in *; destruct (Z.eqb_spec (tx_execute_count_ r) 0); lia).
  destruct (next_tx_size_spec total ltac:(lia)) as [H2 H3]. destruct (Z.leb_spec total 1); split_and!; lia.
Qed.

Context (hash_content : forall t1 t2, GetContentHash t1 = GetContentHash t2 -> key t1 = key t2).

Lemma propose_loop_ends fuel env ct up : forall attempt txs q, coherent q -> (length txs <= 2000)%nat -> (length txs < fuel)%nat ->
  (forall n v, (length (txset v) <= 1)%nat -> block_timeout_ (SyncPreProcess n v) = false) ->
  exists v q', propose_loop fuel env ct up attempt txs q = Returns (v, q') /\ coherent q'.
Proof.
  induction fuel as [|fuel IH]; intros attempt txs q Hc Hl Hf Hnt; [lia|]. cbn [propose_loop].
  set (v := propose_value env ct up txs). destruct (block_timeout_ (SyncPreProcess attempt v)) eqn:Et.
  - destruct (next_total attempt v txs Hl) as (Hb & Hlt & _). destruct (Nat.leb_spec (length txs) 1) as [H1|H1]; [by rewrite Hnt in Et|].
    specialize (Hlt H1). set (n := next_tx_size _) in *. destruct (Z.ltb_spec (Z.of_nat (length txs)) n); [lia|].
    apply IH; [done| | |done]; rewrite length_take; lia.
  - case_bool_decide.
    + cbn [obind fst snd]. by eexists _, q.
    + destruct (ReopensesameTxs_run hash_content (map (fun tx => (GetSourceAddress tx, GetNonce tx)) (dropped_txs (need_dropped_tx_ (SyncPreProcess attempt v)) txs)) false q Hc)
        as (k & q' & -> & Hc' & _). cbn [obind fst snd]. by eexists _, q'.
Qed.


(** ** Events *)

(** The events a node handles return and leave a pool in order; a transaction that is answered with success
    is in the pool. *)
Theorem events_keep_pool ql al q : reach ql al q ->
  (forall tx, exists e q', OnTransaction tx q = Returns (e, q') /\ reach ql al q' /\ (e = None -> pool q' !! key tx = Some tx))
  /\ (forall t now b up, exists n q' up', OnTimer_glue t now b q up = Returns (n, q', up') /\ reach ql al q')
  /\ (forall value, exists q', OnValueCommited value q = Returns q' /\ reach ql al q').
Proof.
  intros Hr. destruct (pool_reach_ok hash_content ql al q Hr) as (Hc & Ho & _). split_and!.
  - intros tx. unfold OnTransaction. destruct (IsExist_hash _ q); [by exists (Some ALREADY_EXIST), q|].
    destruct (CheckValid tx) as [nonce|]; [|by exists (Some CHECK_FAILED), q].
    destruct (Import_run hash_content q tx nonce Hc Ho) as (b & q' & E & _ & _ & _ & Hq). rewrite E. cbn [obind fst snd]. eexists _, q'.
    split; [done|]. split; [by eapply reach_import|]. destruct b; [|done]. intros _. destruct (admitted q tx); [|by destruct Hq].
    destruct Hq as [_ Hb]. symmetry in Hb. by apply bool_decide_eq_true in Hb.
  - intros t now b up. unfold OnTimer_glue.
    destruct (timeout_loop_run hash_content (t - QUEUE_TRANSACTION_TIMEOUT) (length (time_queue_ q)) q Hc) as (q' & E & _); [lia|].
    unfold CheckTimeoutAndDel. rewrite E. cbn [obind fst snd]. destruct (OnTimer t now b up) as [n up']. eexists n, q', up'. split; [done|]. by eapply reach_timeout.
  - intros value. unfold OnValueCommited. set (txs := match ParseValue value with Some v => txset v | None => [] end).
    destruct (ReopensesameTxs_run hash_content (map (fun tx => (GetSourceAddress tx, GetNonce tx)) txs) true q Hc) as (n & q' & E & _). rewrite E.
    exists q'. split; [done|]. by eapply reach_remove.
Qed.

(** A transaction set takes the nonces of an account one after the other. *)
Lemma Add_next nonces tx s n s' : Add nonces tx s = (n, s') ->
  let a := GetSourceAddress tx in let last := match topic_seqs_ s !! a with Some n => n | None => default 0 (nonces a) end in
  (n = 1 /\ GetNonce tx = last + 1 /\ raw_txs_ s' = (raw_txs_ s ++ [tx])%list /\ topic_seqs_ s' !! a = Some (GetNonce tx)) \/ (n <> 1 /\ s' = s).
Proof.
  intros E a last. unfold Add in E. fold a in E. fold last in E. destruct (_ <=? SetByteSize _ + _); [right; by injection E as <- <-|].
  destruct (Z.ltb_spec (last + 1) (GetNonce tx)); [right; by injection E as <- <-|]. destruct (Z.leb_spec (GetNonce tx) last); [right; by injection E as <- <-|].
  left. injection E as <- <-. split_and!; [done|lia|done|apply lookup_insert_eq].
Qed.

(** ** Checks *)

(** What a replica needs in common with the leader to accept its proposal. *)
Definition agrees env env' : Prop := lcl env' = lcl env /\ close_interval_ env' = close_interval_ env.

(** The value a leader requests is accepted by every replica that has the same last ledger and
    interval, holds it for not too large and its clock for at most a second behind the close time, and
    finds the leader's proof of the last block valid; voted upgrades without a new validator
    are no obstacle. *)
Theorem proposal_passes_checks fuel env env' now now' up validators quorum q s q' :
  StartConsensus fuel env now true up validators quorum "" q = Returns (Some s, q') -> agrees env env' ->
  exists v, s = SerializeValue v /\ close_time v = Z.max now (lh_close_time (lcl env) + close_interval_ env)
  /\ (ValueByteSize v < TXSET_LIMIT_SIZE + 2 * 1048576 -> close_time v - MICRO_UNITS_PER_SEC < now' ->
      (forall u, proposed_upgrade env validators quorum up = Some u -> new_validator u = ""%string /\ new_ledger_version u <> 0) ->
      (lh_seq (lcl env) = 1 -> LAST_PROOF env = ""%string) ->
      (1 < lh_seq (lcl env) -> exists set, GetValidators env' (lh_seq (lcl env) - 1) = Some set
         /\ CheckProof set (lh_consensus_value_hash (lcl env)) (LAST_PROOF env) = true) ->
      CheckValueHelper env' v now' = CHECK_VALUE_VALID).
Proof.
  intros Hs [El Ei]. unfold StartConsensus in Hs. cbn [negb] in Hs. rewrite (bool_decide_true (""%string = ""%string)) in Hs by done. cbn [negb andb] in Hs.
  destruct (propose_loop _ _ _ _ _ _ _) as [[v q1]|] eqn:E; [|done]. cbn in Hs. injection Hs as <- <-.
  apply propose_loop_value in E as (H1 & H2 & H3 & H4 & H5). exists v. split_and!; [done|done|].
  intros Hsz Hnow Hup H1p Hproof. unfold CheckValueHelper. rewrite El, Ei. destruct (Z.leb_spec (TXSET_LIMIT_SIZE + 2 * 1048576) (ValueByteSize v)); [lia|].
  rewrite H2, Z.eqb_refl, H3, (bool_decide_true (lh_hash (lcl env) = _)) by done. cbn [negb].
  assert (Ht : (close_time v - MICRO_UNITS_PER_SEC <? now') && (lh_close_time (lcl env) + close_interval_ env <=? close_time v) = true).
  { apply andb_true_iff. rewrite Z.ltb_lt, Z.leb_le. lia. }
  rewrite Ht. cbn [negb]. rewrite andb_false_r.
  assert (Hu : (match ledger_upgrade v with Some u => negb (check_upgrade env' v u) | None => false end) = false).
  { rewrite H5. destruct (proposed_upgrade env validators quorum up) as [u|] eqn:Eu; [|done]. destruct (Hup u eq_refl) as [Hnv Hnz]. unfold check_upgrade. rewrite El, Hnv.
    rewrite (bool_decide_true (""%string = ""%string)) by done. cbn [negb]. rewrite andb_false_r. cbn [negb]. rewrite andb_true_r.
    unfold proposed_upgrade in Eu. destruct (GetValid _ _ _) as [u0|]; [|done]. destruct ((_ <? _) && (_ <=? _)) eqn:Eb; [|done]. injection Eu as ->.
    apply andb_true_iff in Eb as [Hb1 Hb2]. apply Z.ltb_lt in Hb1. apply Z.leb_le in Hb2.
    destruct (Z.eqb_spec (new_ledger_version u) 0); [done|]. cbn [negb]. apply negb_false_iff, andb_true_iff. rewrite !negb_true_iff, Z.leb_gt, Z.ltb_ge. lia. }
  rewrite Hu, H4. destruct (Z.eqb_spec (lh_seq (lcl env)) 1) as [E1|E1].
  - rewrite (H1p E1), bool_decide_true by done. cbn [negb andb]. rewrite E1. done.
  - cbn [andb]. destruct (Z.ltb_spec 1 (lh_seq (lcl env))) as [Hlt|]; [|done]. destruct (Hproof Hlt) as (set & Hset & Hcp).
    replace (lh_seq (lcl env) + 1 - 2) with (lh_seq (lcl env) - 1) by lia. rewrite Hset, Hcp. cbn [negb]. by rewrite andb_false_r.
Qed.

(** C24: A block that a node takes over from others extends its last ledger, and unless it is a fork
    point that was configured, it comes with commits for its hash that are signed by a
    quorum of different validators. *)
Theorem taken_block_is_certified env value proof :
  CheckValueAndProof env value proof = true -> Hash value ∉ hardfork_points_ env ->
  exists v set commits, ParseValue value = Some v /\ GetValidators env (ledger_seq v - 1) = Some set /\ ParseProof proof = Some commits
    /\ ledger_seq v = lh_seq (lcl env) + 1 /\ previous_ledger_hash v = lh_hash (lcl env)
    /\ Forall (fun m => authentic (number_validators set 0 ∅) m /\ pb_type (env_pbft m) = PBFT_TYPE_COMMIT
                /\ c_value_digest (pb_commit (env_pbft m)) = Hash value) commits
    /\ NoDup (map sender commits) /\ GetQuorumSize (vsize (number_validators set 0 ∅)) + 1 <= Z.of_nat (length commits).
Proof.
  unfold CheckValueAndProof. destruct (ParseValue value) as [v|] eqn:Ev; [|done]. destruct (GetValidators env (ledger_seq v - 1)) as [set|] eqn:Es; [|done].
  intros [Hv Hp]%andb_true_iff Hh. apply bool_decide_eq_true in Hv. apply orb_true_iff in Hp as [Hp|Hp]; [|by apply bool_decide_eq_true in Hp].
  destruct (ParseProof proof) as [commits|] eqn:Ep; [|unfold CheckProof in Hp; by rewrite Ep in Hp].
  exists v, set, commits. apply (CheckProof_exact set (Hash value) proof commits Ep) in Hp as (H1 & H2 & H3).
  assert (Hseq : ledger_seq v = lh_seq (lcl env) + 1 /\ previous_ledger_hash v = lh_hash (lcl env)).
  { unfold CheckValueHelper in Hv. destruct (_ <=? _); [done|]. destruct (Z.eqb_spec (ledger_seq v) (lh_seq (lcl env) + 1)) as [E|]; cbn [negb] in Hv; [|done].
    case_bool_decide; cbn [negb] in Hv; [by split|done]. }
  destruct Hseq as [Hs1 Hs2]. by split_and!.
Qed.
End Facts.

(** ** A leader and a replica *)
Module Sample.
Open Scope string_scope.
#[export] Instance pbft_params : PbftParams := proof_params.
#[export] Instance upgrade_params : UpgradeParams := {| SerializeUpgrade := fun u => new_validator u |}.
#[export] Instance queue_params : QueueParams := TxQueueFacts.Sample.params.
Definition header := MkHeader 1 "g" 1000000 1000 "".
Definition value : ConsensusValue := MkConsensusValue [] 12000000 2 "g" "" None None.
(** Blocks with more than one transaction take too long. *)
#[export] Instance glue_params : GlueParams := {|
  ParseValue := fun _ => Some value; SerializeValue := fun _ => "x"; ValueByteSize := fun _ => 1000;
  SyncPreProcess := fun _ v => MkProposeResult (1 <? length (txset v))%nat 0 ∅ [] [];
  SyncCheck := fun _ => true; CheckValid := fun _ => Some 0 |}.
Definition node : GlueEnv := MkEnv header 10000000 2000 ∅ (fun _ => Some ["n0"; "n1"; "n2"; "n3"]) "".
Definition pool3 : TransactionQueue := TxQueueFacts.Sample.filled.
End Sample.
Import Sample.


Lemma proposal_passes_checks_witness :
  exists v, CheckValueHelper node v 12000000 = CHECK_VALUE_VALID /\ close_time v = 12000000.
Proof.
  destruct (StartConsensus 4 node 12000000 true LedgerUpgrade_init [] 0 "" pool3) as [[o q']|] eqn:E; [|vm_compute in E; done].
  assert (Eo : o = Some "x"%string).
  { assert (Ho : match StartConsensus 4 node 12000000 true LedgerUpgrade_init [] 0 "" pool3 with Returns (o, _) => o | Throws _ => None end = Some "x"%string) by (vm_compute; reflexivity).
    by rewrite E in Ho. }
  subst o. destruct (proposal_passes_checks 4 node node 12000000 12000000 LedgerUpgrade_init [] 0 pool3 "x" q' E) as (v & _ & Hc & Hv); [by split|].
  exists v. split; [|exact Hc]. apply Hv; [vm_compute; reflexivity|rewrite Hc; vm_compute; reflexivity|by vm_compute|done|done].
Defined.

Lemma taken_block_is_certified_witness : CheckValueAndProof node "x" "p" = true
  /\ exists commits, ParseProof "p" = Some commits /\ NoDup (map sender commits).
Proof.
  assert (Hc : CheckValueAndProof node "x" "p" = true) by (vm_compute; reflexivity). split; [exact Hc|].
  destruct (taken_block_is_certified node "x" "p" Hc) as (v & set & commits & _ & _ & Hp & _ & _ & _ & Hn & _); [by apply not_elem_of_empty|].
  by exists commits.
Defined.
