(* ===== verification/LedgerContext.v ===== *)
(** * Pre-execution of blocks

    [LedgerContext] and [LedgerContextManager] (src/ledger/ledgercontext_manager.h and .cpp): a
    value is executed in a context of its own, by the leader before it proposes it and by a
    replica before it accepts it. A completed context is kept under the hash of its value, and
    closing the ledger takes the block from it.

    The execution itself is behind an interface, [Executor]; [ExecutorLaws] is what closing a
    ledger relies on. *)
From S2P Require Import Prelude Strings OrdMap PbftData Pbft TxQueue LedgerUpgrade Glue.

(** [protocol::LedgerHeader] *)
Record Header := MkFullHeader {
  hd_seq : Z; hd_hash : string; hd_previous_hash : string; hd_account_tree_hash : string; hd_close_time : Z;
  hd_consensus_value_hash : string; hd_version : Z; hd_tx_count : Z; hd_validators_hash : string; hd_fees_hash : string;
  hd_reserve : string; hd_chain_id : Z }.
#[export] Instance Header_eq_dec : EqDecision Header.
Proof. solve_decision. Defined.

(** What the glue manager reads of it. *)
Definition glue_header (h : Header) : LedgerHeader :=
  MkHeader (hd_seq h) (hd_hash h) (hd_close_time h) (hd_version h) (hd_consensus_value_hash h).

(** [protocol::ValidatorSet]: the addresses and their pledges; [protocol::FeeConfig] *)
Abbreviation ValidatorSet := (list (string * Z)).
Record FeeConfig := MkFees { gas_price : Z; base_reserve : Z }.
#[export] Instance FeeConfig_eq_dec : EqDecision FeeConfig.
Proof. solve_decision. Defined.

(** ** The settings of an environment

    The [settings_] map of [Environment]: the fees a contract set, by the number of their kind
    in decimal, and the validators, with their pledges in decimal. *)
Record Settings := MkSettings { set_fees : option (ordmap string Z); set_validators : option (list (string * string)) }.
Definition no_settings : Settings := MkSettings None None.

Definition UpdateFeeConfig (feeConfig : ordmap string Z) (s : Settings) : Settings :=
  MkSettings (Some match set_fees s with
                   | None => feeConfig
                   | Some fees => foldl (fun m e => om_set m e.1 e.2) fees feeConfig
                   end) (set_validators s).

Definition UpdateNewValidators (validators : list (string * string)) (s : Settings) : Settings :=
  MkSettings (set_fees s) (Some validators).

(** [GetValidators]: the voted validators, at first those of the last ledger, which it then stores. *)
Definition GetValidators_settings (current : ValidatorSet) (s : Settings) : list (string * string) * Settings :=
  match set_validators s with
  | Some validators => (validators, s)
  | None => let validators := map (fun e => (e.1, String.string_of_list_ascii (Strings.ToString e.2))) current in
            (validators, MkSettings (set_fees s) (Some validators))
  end.

(** One entry: its name says which fee it sets. *)
Definition vote_fee (fee : FeeConfig) (e : string * Z) : FeeConfig :=
  let fee_type := Strings.Stoi (String.list_ascii_of_string e.1) in
  if fee_type =? 1 then MkFees e.2 (base_reserve fee)
  else if fee_type =? 2 then MkFees (gas_price fee) e.2
  else fee.

(** Whether an entry changes the fees it finds. *)
Fixpoint fee_changes (fee : FeeConfig) (l : ordmap string Z) : bool :=
  match l with
  | [] => false
  | e :: l' => negb (bool_decide (vote_fee fee e = fee)) || fee_changes (vote_fee fee e) l'
  end.

(** [GetVotedFee]: whether they change, and the new fees. *)
Definition GetVotedFee (s : Settings) (old_fee : FeeConfig) : bool * FeeConfig :=
  match set_fees s with
  | None => (false, old_fee)
  | Some fees => (fee_changes old_fee fees, foldl vote_fee old_fee fees)
  end.

(** [GetVotedValidators], called with an empty set. *)
Definition GetVotedValidators (s : Settings) (old_validator : ValidatorSet) : bool * ValidatorSet :=
  match set_validators s with
  | None => (false, old_validator)
  | Some validators => (true, map (fun e => (e.1, Strings.Stoi64 (String.list_ascii_of_string e.2))) validators)
  end.

(** ** The block that is being closed

    Of an applied transaction: its result, fee limit, gas and the transactions its contracts
    triggered, each with its result. *)
Record AppliedTx := MkApplied { ap_tx : Tx; ap_code : Z; ap_fee_limit : Z; ap_actual_gas : Z; ap_instructions : list (Tx * Z) }.

(** [LedgerFrm] after it was applied: [apply_tx_frms_] (whose transactions are the
    [transaction_envs] of the ledger), the accounts to write into the tree with their keys, and the settings. *)
Record Closing := MkClosing { apply_tx_frms_ : list AppliedTx; cl_entries : list (string * string); cl_settings : Settings }.
Definition transaction_envs (c : Closing) : list Tx := map ap_tx (apply_tx_frms_ c).
Definition GetTxCount (c : Closing) : Z := Z.of_nat (length (apply_tx_frms_ c)).

(** Putting items into a store, the later ones over the earlier ones. *)
Definition put_all (l : list (string * string)) (m : gmap string string) : gmap string string := foldl (fun m e => <[e.1 := e.2]> m) m l.

(** [LedgerFrm::Commit] on the contents of the account tree. *)
Definition Commit (c : Closing) (tree : gmap string string) : gmap string string := put_all (cl_entries c) tree.

(** ** Executing a value

    What an execution reads: the last closed header, the accounts, the validators and the fees. *)
Record View := MkView {
  vw_header : Header; vw_tree : gmap string string; vw_validators : ValidatorSet; vw_fees : FeeConfig }.

Inductive APPLY_MODE := APPLY_MODE_PROPOSE | APPLY_MODE_CHECK | APPLY_MODE_FOLLOW.

(** The block, whether the execution succeeded and what a proposer learns. *)
Record Run := MkRun { run_closing : Closing; exec_result_ : bool; run_result : ProposeTxsResult }.
Definition no_result : ProposeTxsResult := MkProposeResult false 0 ∅ [] [].

(** [ApplyPropose], [ApplyCheck] and [ApplyFollow]. The number stands for what differs from
    one execution to another: the clock and the cancelling of contracts. *)
Class Executor := { Execute : APPLY_MODE -> nat -> View -> ConsensusValue -> Run }.

(** Two executions come to the same block. *)
Definition same_block (w : View) (c1 c2 : Closing) : Prop :=
  transaction_envs c1 = transaction_envs c2 /\ Commit c1 (vw_tree w) = Commit c2 (vw_tree w) /\ cl_settings c1 = cl_settings c2.

(** A proposal in which nothing was dropped, expired or failed. *)
Definition clean (r : ProposeTxsResult) : bool :=
  bool_decide (need_dropped_tx_ r = ∅) && bool_decide (expire_tx_ids r = []) && bool_decide (error_tx_ids r = []).

(** Following depends on nothing but the view and the value; a value that was checked, or
    proposed without anything to drop or to report, is followed to the same block; a value
    without transactions makes a block without transactions and settings. *)
Class ExecutorLaws `{Executor} : Prop := {
  follow_again n m w v : Execute APPLY_MODE_FOLLOW n w v = Execute APPLY_MODE_FOLLOW m w v;
  check_follow n w v : exec_result_ (Execute APPLY_MODE_CHECK n w v) = true ->
    exec_result_ (Execute APPLY_MODE_FOLLOW 0 w v) = true
    /\ same_block w (run_closing (Execute APPLY_MODE_CHECK n w v)) (run_closing (Execute APPLY_MODE_FOLLOW 0 w v));
  propose_follow n w v : exec_result_ (Execute APPLY_MODE_PROPOSE n w v) = true -> clean (run_result (Execute APPLY_MODE_PROPOSE n w v)) = true ->
    exec_result_ (Execute APPLY_MODE_FOLLOW 0 w v) = true
    /\ same_block w (run_closing (Execute APPLY_MODE_PROPOSE n w v)) (run_closing (Execute APPLY_MODE_FOLLOW 0 w v));
  empty_block mode n w v : txset v = [] -> apply_tx_frms_ (run_closing (Execute mode n w v)) = [] /\ cl_settings (run_closing (Execute mode n w v)) = no_settings }.

(** ** Contexts

    [ctx_id] is the address of the object. *)
Record LedgerContext := MkContext {
  ctx_id : nat; ctx_hash : string; consensus_value_ : ConsensusValue; apply_mode_ : APPLY_MODE; ctx_run : Run; start_time_ : Z }.

Record LedgerContextManager := MkManager {
  running_ctxs_ : list (string * LedgerContext); completed_ctxs_ : gmap string LedgerContext;
  delete_ctxs_ : list (Z * LedgerContext); next_ctx : nat }.
Definition no_contexts : LedgerContextManager := MkManager [] ∅ [] 0.

Section Contexts.
Context `{PbftParams} `{UpgradeParams} `{QueueParams} `{GlueParams} `{Executor}.
Implicit Types (m : LedgerContextManager) (c : LedgerContext) (v : ConsensusValue) (w : View).

(** [HashWrapper::Crypto(consensus_value.SerializeAsString())] *)
Definition value_hash v : string := Hash (SerializeValue v).

(** [CheckExpire] at time [now] *)
Definition CheckExpire (now total_timeout : Z) c : bool := total_timeout <=? now - start_time_ c.

Definition drop_running (id : nat) m : list (string * LedgerContext) := List.filter (fun e => negb (ctx_id e.2 =? id)%nat) (running_ctxs_ m).

Definition opensesameRunningToDelete (now : Z) c m : LedgerContextManager :=
  MkManager (drop_running (ctx_id c) m) (completed_ctxs_ m) (delete_ctxs_ m ++ [(now + 5 * MICRO_UNITS_PER_SEC, c)])%list (next_ctx m).

(** [insert] keeps an entry that is there. *)
Definition opensesameRunningToComplete c m : LedgerContextManager :=
  MkManager (drop_running (ctx_id c) m)
    (match completed_ctxs_ m !! ctx_hash c with Some _ => completed_ctxs_ m | None => <[ctx_hash c := c]> (completed_ctxs_ m) end)
    (delete_ctxs_ m) (next_ctx m).

(** [LedgerContext::Do] of a context of the manager: executed, it is completed or deleted later. *)
Definition Do (now : Z) c m : LedgerContextManager :=
  if exec_result_ (ctx_run c) then opensesameRunningToComplete c m else opensesameRunningToDelete now c m.

(** [CheckComplete]: -1 when there is no such context. *)
Definition CheckComplete (chash : string) m : Z :=
  match completed_ctxs_ m !! chash with
  | Some c => if exec_result_ (ctx_run c) then 1 else 0
  | None => -1
  end.

(** [SyncPreProcess] with the result, what it tells the proposer and the contexts. [started] says
    whether the thread starts, [timeout] whether it takes too long; the thread is waited for in
    any case. *)
Definition SyncPreProcess_ctx (started timeout : bool) (n : nat) (now : Z) w v (propose : bool) m : bool * ProposeTxsResult * LedgerContextManager :=
  let chash := value_hash v in
  let check_complete := CheckComplete chash m in
  if 0 <? check_complete then (check_complete =? 1, no_result, m)
  else if negb started then (false, MkProposeResult true 0 ∅ [] [], m)
  else
    let mode := if propose then APPLY_MODE_PROPOSE else APPLY_MODE_CHECK in
    let c := MkContext (next_ctx m) chash v mode (Execute mode n w v) now in
    let m := Do now c (MkManager (running_ctxs_ m) (completed_ctxs_ m) (delete_ctxs_ m) (S (next_ctx m))) in
    if timeout then (false, MkProposeResult true (GetTxCount (run_closing (ctx_run c))) ∅ [] [], m)
    else (exec_result_ (ctx_run c), run_result (ctx_run c), m).

(** [SyncProcess]: the block to close, from a completed context or by following the value. *)
Definition SyncProcess (n : nat) w v m : option Closing :=
  match completed_ctxs_ m !! value_hash v with
  | Some c => Some (run_closing (ctx_run c))
  | None =>
      let r := Execute APPLY_MODE_FOLLOW n w v in
      if exec_result_ r then Some (run_closing r) else None
  end.

Definition ReopensesameCompleted (seq : Z) m : LedgerContextManager :=
  MkManager (running_ctxs_ m) (filter (fun e => seq < ledger_seq (consensus_value_ e.2)) (completed_ctxs_ m)) (delete_ctxs_ m) (next_ctx m).

(** [OnTimer]: the contexts that are cancelled and deleted, and those that are left. *)
Definition OnTimer_ctx (current_time now : Z) m : list LedgerContext * LedgerContextManager :=
  let expired e := CheckExpire now (5 * MICRO_UNITS_PER_SEC) (snd e : LedgerContext) in
  let due (e : Z * LedgerContext) := e.1 <? current_time in
  ((List.filter expired (running_ctxs_ m)).*2 ++ (List.filter due (delete_ctxs_ m)).*2,
   MkManager (List.filter (fun e => negb (expired e)) (running_ctxs_ m)) (completed_ctxs_ m)
     (List.filter (fun e => negb (due e)) (delete_ctxs_ m)) (next_ctx m))%list.
End Contexts.
