(* ===== verification/LedgerManager.v ===== *)
(** * Closing, storing and exchanging ledgers

    [LedgerManager] (src/ledger/ledger_manager.h and .cpp) with the parts of [LedgerFrm] that
    store a ledger (src/ledger/ledger_frm.cpp): a decided value is checked, executed and
    written to the two databases; nodes that are behind ask their peers for values; a node
    that starts reads its state from the databases or creates the genesis ledger. *)
From S2P Require Import Prelude Strings OrdMap PbftData Pbft TxQueue LedgerUpgrade Glue LedgerContext Uint128.

(** ** Messages *)

(** [protocol::TransactionEnvStore], as it is stored. *)
Record TransactionEnvStore := MkEnvStore {
  es_tx : Tx; es_ledger_seq : Z; es_close_time : Z; es_error_code : Z; es_actual_fee : Z; es_hash : string; es_contract_tx_hashes : list string }.

Record GetLedgers := MkGetLedgers { gl_begin : Z; gl_end : Z; gl_timestamp : Z; gl_chain_id : Z }.
Record Ledgers := MkLedgers { lg_values : list ConsensusValue; lg_max_seq : Z; lg_chain_id : Z; lg_proof : string }.

(** What is sent: a reply or a request to a peer, and the validators for the consensus. *)
Inductive Message :=
| SendLedgers (peer : Z) (l : Ledgers)
| SendRequest (peer : Z) (gl : GetLedgers)
| PostUpdateValidators (set : ValidatorSet) (proof : string) (has_upgrade : bool).

(** Protocol buffers, hashes of ledgers and trees, the encoding of addresses and new accounts, and
    the configuration. [ParseHeader] is what [ParseFromString] leaves in a header. *)
Class ManagerParams := {
  SerializeHeader : Header -> string; ParseHeader : string -> Header;
  SerializeValidators : ValidatorSet -> string; ParseValidators : string -> option ValidatorSet;
  SerializeFees : FeeConfig -> string; ParseFees : string -> option FeeConfig;
  SerializeStore : TransactionEnvStore -> string;
  SerializeEntries : list string -> string; ParseEntries : string -> list string;
  LedgerHash : Header -> list Tx -> string;
  RootHash : gmap string string -> string;
  DecodeAddress : string -> string; NewAccount : string -> Z -> string;
  hardfork_points : gset string; close_interval : Z; max_trans_per_ledger : nat;
  genesis_account : string; genesis_validators : list string; genesis_fees : FeeConfig; genesis_slogan : string;
  OS_LINUX : bool }.

(** ** State *)

(** The account database: the keys outside the tree, and the contents of the tree. *)
Record AccountDb := MkAccountDb { ad_kv : gmap string string; ad_tree : gmap string string }.
Record Disk := MkDisk { ledger_db : gmap string string; account_db : AccountDb }.
Definition no_disk : Disk := MkDisk ∅ (MkAccountDb ∅ ∅).

Record SyncStat := MkSyncStat { send_time_ : Z; gl_ : GetLedgers; probation_ : Z }.
Definition SyncStat0 : SyncStat := MkSyncStat 0 (MkGetLedgers 0 0 0 0) 0.
Record Sync := MkSync { update_time_ : Z; peers_ : ordmap Z SyncStat }.

Record LedgerManager := MkLedgerManager {
  last_closed_ledger_ : Header; lcl_header_ : Header; tree_ : gmap string string; validators_ : ValidatorSet; fees_ : FeeConfig;
  proof_ : string; chain_max_ledger_probaly_ : Z; sync_ : Sync; context_manager_ : LedgerContextManager; disk : Disk }.

Definition set_sync (y : Sync) (st : LedgerManager) : LedgerManager :=
  MkLedgerManager (last_closed_ledger_ st) (lcl_header_ st) (tree_ st) (validators_ st) (fees_ st) (proof_ st) (chain_max_ledger_probaly_ st) y (context_manager_ st) (disk st).
Definition set_peers (m : ordmap Z SyncStat) (st : LedgerManager) : LedgerManager := set_sync (MkSync (update_time_ (sync_ st)) m) st.
Definition set_contexts (m : LedgerContextManager) (st : LedgerManager) : LedgerManager :=
  MkLedgerManager (last_closed_ledger_ st) (lcl_header_ st) (tree_ st) (validators_ st) (fees_ st) (proof_ st) (chain_max_ledger_probaly_ st) (sync_ st) m (disk st).
Definition set_chain_max (x : Z) (st : LedgerManager) : LedgerManager :=
  MkLedgerManager (last_closed_ledger_ st) (lcl_header_ st) (tree_ st) (validators_ st) (fees_ st) (proof_ st) x (sync_ st) (context_manager_ st) (disk st).

(** ** Keys *)
Definition KEY_LEDGER_SEQ : string := "max_seq".
Definition KEY_GENE_ACCOUNT : string := "genesis_account".
Definition LAST_TX_HASHS : string := "last_tx_hashs".
Definition KEY_LAST_PROOF : string := "last_proof".
Definition LAST_TX_HASHS_LIMIT : nat := 100.
Definition int_text (n : Z) : string := String.string_of_list_ascii (Strings.ToString n).
Definition text_int (s : string) : Z := Strings.Stoi64 (String.list_ascii_of_string s).
Definition ComposePrefix (prefix value : string) : string := (prefix ++ "_" ++ value)%string.
Definition hex (s : string) : string := String.string_of_list_ascii (Strings.BinToHexString (String.list_ascii_of_string s)).
Definition header_key (seq : Z) : string := ComposePrefix "ldg" (int_text seq).
Definition value_key (seq : Z) : string := ComposePrefix "cosv" (int_text seq).
Definition tx_key (hash : string) : string := ComposePrefix "tx" hash.
Definition txs_key (seq : Z) : string := ComposePrefix "lgtx" (int_text seq).
Definition validators_key (hash : string) : string := ("validators-" ++ hex hash)%string.
Definition fees_key (hash : string) : string := ("fees-" ++ hex hash)%string.

Section Manager.
Context `{PbftParams} `{UpgradeParams} `{QueueParams} `{GlueParams} `{Executor} `{MP : ManagerParams}.
Implicit Types (st : LedgerManager) (d : Disk) (v : ConsensusValue) (c : Closing) (h : Header).

(** ** Reading the databases *)

Definition LoadFromDb d (seq : Z) : option Header := ParseHeader <$> ledger_db d !! header_key seq.
Definition ValidatorsGet d (hash : string) : option ValidatorSet := ad_kv (account_db d) !! validators_key hash ≫= ParseValidators.
Definition FeesConfigGet d (hash : string) : option FeeConfig := ad_kv (account_db d) !! fees_key hash ≫= ParseFees.
Definition GetValidators_db d (seq : Z) : option ValidatorSet := h ← LoadFromDb d seq; ValidatorsGet d (hd_validators_hash h).
Definition ConsensusValueFromDB d (seq : Z) : option ConsensusValue := ledger_db d !! value_key seq ≫= ParseValue.
Definition GetMaxLedger d : Z := match ledger_db d !! KEY_LEDGER_SEQ with Some s => text_int s | None => 0 end.
Definition last_proof d : string := default ""%string (ad_kv (account_db d) !! KEY_LAST_PROOF).

(** ** Writing the databases *)

Definition ValidatorsSet (set : ValidatorSet) : string * string := (validators_key (Hash (SerializeValidators set)), SerializeValidators set).
Definition FeesConfigSet (fees : FeeConfig) : string * string := (fees_key (Hash (SerializeFees fees)), SerializeFees fees).

(** The fee a transaction is stored with. The gas is not negative, so that the multiplication does not trap. *)
Definition actual_fee (t : AppliedTx) : Z :=
  if negb (ap_code t =? 0) then ap_fee_limit t
  else match U128.SafeIntMul (ap_actual_gas t) (GetGasPrice (ap_tx t)) 0 with Returns r => r.2 | Throws _ => 0 end.

(** The transactions it triggered, stored if it succeeded. *)
Definition triggered (t : AppliedTx) : list (Tx * Z) := if ap_code t =? 0 then ap_instructions t else [].

Definition tx_puts h (t : AppliedTx) : list (string * string) :=
  map (fun i => (tx_key (GetContentHash i.1),
                 SerializeStore (MkEnvStore i.1 (hd_seq h) (hd_close_time h) i.2 0 (GetContentHash i.1) []))) (triggered t)
  ++ [(tx_key (GetContentHash (ap_tx t)),
       SerializeStore (MkEnvStore (ap_tx t) (hd_seq h) (hd_close_time h) (ap_code t) (actual_fee t) ""
                         (map (fun i => GetContentHash i.1) (triggered t))))].

(** The hashes of the transactions of a ledger. *)
Definition tx_hashes c : list string :=
  flat_map (fun t => GetContentHash (ap_tx t) :: map (fun i => GetContentHash i.1) (triggered t)) (apply_tx_frms_ c).

(** The hashes of the last transactions, the latest first. *)
Definition last_hashes (hashes exist : list string) : list string :=
  if (length hashes <? LAST_TX_HASHS_LIMIT)%nat then rev hashes ++ take (LAST_TX_HASHS_LIMIT - length hashes) exist
  else take LAST_TX_HASHS_LIMIT (rev hashes).

(** The batch of [AddToDb]. *)
Definition AddToDb_puts (db : gmap string string) h c : list (string * string) :=
  let hashes := tx_hashes c in
  [(KEY_LEDGER_SEQ, int_text (hd_seq h)); (header_key (hd_seq h), SerializeHeader h)]
  ++ flat_map (tx_puts h) (apply_tx_frms_ c)
  ++ [(txs_key (hd_seq h), SerializeEntries hashes)]
  ++ (if bool_decide (hashes = []) then []
      else [(LAST_TX_HASHS, SerializeEntries (last_hashes hashes (from_option ParseEntries [] (db !! LAST_TX_HASHS))))]).

(** ** Closing a ledger *)

(** What [CheckValueAndProof] and the other checks of the glue manager see of a node. *)
Definition glue_env st : GlueEnv :=
  MkEnv (glue_header (lcl_header_ st)) close_interval max_trans_per_ledger hardfork_points
    (fun seq => map fst <$> GetValidators_db (disk st) seq) (last_proof (disk st)).

Definition view st : View := MkView (last_closed_ledger_ st) (tree_ st) (validators_ st) (fees_ st).

Definition new_version (w : View) v : Z :=
  match ledger_upgrade v with
  | Some u => if 0 <? new_ledger_version u then new_ledger_version u else hd_version (vw_header w)
  | None => hd_version (vw_header w)
  end.

(** Whether there are new validators, and the validators from now on: those of a hard fork, or those
    the contracts voted for. *)
Definition new_validators (w : View) v c : bool * ValidatorSet :=
  match ledger_upgrade v with
  | Some u => if bool_decide (new_validator u = "")%string then GetVotedValidators (cl_settings c) (vw_validators w)
              else (true, [(new_validator u, 0)])
  | None => GetVotedValidators (cl_settings c) (vw_validators w)
  end.

Definition new_fees (w : View) c : bool * FeeConfig := GetVotedFee (cl_settings c) (vw_fees w).

(** The header, first with an empty hash, then with the hash of the ledger. *)
Definition set_hash (hash : string) h : Header :=
  MkFullHeader (hd_seq h) hash (hd_previous_hash h) (hd_account_tree_hash h) (hd_close_time h) (hd_consensus_value_hash h) (hd_version h) (hd_tx_count h)
    (hd_validators_hash h) (hd_fees_hash h) (hd_reserve h) (hd_chain_id h).

Definition closing_header (w : View) v c : Header :=
  let h := MkFullHeader (ledger_seq v) "" (previous_ledger_hash v) (RootHash (Commit c (vw_tree w))) (close_time v) (value_hash v) (new_version w v)
             (hd_tx_count (vw_header w) + Z.of_nat (length (transaction_envs c)))
             (Hash (SerializeValidators (new_validators w v c).2))
             (Hash (SerializeFees (if (new_fees w c).1 then (new_fees w c).2 else vw_fees w))) "" self_chain_id in
  set_hash (LedgerHash h (transaction_envs c)) h.

(** The view after the ledger is closed. *)
Definition next_view (w : View) v c : View :=
  MkView (closing_header w v c) (Commit c (vw_tree w))
    (if (new_validators w v c).1 then (new_validators w v c).2 else vw_validators w)
    (if (new_fees w c).1 then (new_fees w c).2 else vw_fees w).

(** The two batches. *)
Definition ledger_batch d (w : View) v c : list (string * string) :=
  (value_key (ledger_seq v), SerializeValue v) :: AddToDb_puts (ledger_db d) (closing_header w v c) c.
Definition account_batch (w : View) v c (proof : string) : list (string * string) :=
  [(KEY_LEDGER_SEQ, int_text (ledger_seq v))]
  ++ (if (new_validators w v c).1 then [ValidatorsSet (new_validators w v c).2] else [])
  ++ (if (new_fees w c).1 then [FeesConfigSet (new_fees w c).2] else [])
  ++ [(KEY_LAST_PROOF, proof)].

(** The ledger database is written first, then the account database. *)
Definition write_ledger_db (w : View) v c d : Disk := MkDisk (put_all (ledger_batch d w v c) (ledger_db d)) (account_db d).
Definition write_account_db (w : View) v c (proof : string) d : Disk :=
  MkDisk (ledger_db d) (MkAccountDb (put_all (account_batch w v c proof) (ad_kv (account_db d))) (Commit c (vw_tree w))).
Definition write_disk (w : View) v c (proof : string) d : Disk := write_account_db w v c proof (write_ledger_db w v c d).

(** [NotifyLedgerClose], as far as it changes the node: what it posts for the consensus, the header
    others read, and the contexts that are done with. *)
Definition NotifyLedgerClose (has_upgrade : bool) st : LedgerManager * list Message :=
  (MkLedgerManager (last_closed_ledger_ st) (last_closed_ledger_ st) (tree_ st) (validators_ st) (fees_ st) (proof_ st) (chain_max_ledger_probaly_ st) (sync_ st)
     (ReopensesameCompleted (hd_seq (last_closed_ledger_ st)) (context_manager_ st)) (disk st),
   [PostUpdateValidators (validators_ st) (proof_ st) has_upgrade]).

(** [CloseLedger]: [None] when it returns false, which it does before any change. *)
Definition CloseLedger (n : nat) v (proof : string) st : option (LedgerManager * list Message) :=
  if negb (CheckValueAndProof (glue_env st) (SerializeValue v) proof) then None
  else
    match SyncProcess n (view st) v (context_manager_ st) with
    | None => None
    | Some c =>
        let w := view st in
        let w' := next_view w v c in
        Some (NotifyLedgerClose (bool_decide (is_Some (ledger_upgrade v)))
                (MkLedgerManager (vw_header w') (lcl_header_ st) (vw_tree w') (vw_validators w') (vw_fees w') proof
                   (chain_max_ledger_probaly_ st) (sync_ st) (context_manager_ st) (write_disk w v c proof (disk st))))
    end.

(** [OnConsent]: 1 for a value that is not new. A value further ahead is ignored. *)
Definition OnConsent (n : nat) (now : Z) v (proof : string) st : Z * LedgerManager * list Message :=
  if ledger_seq v <=? hd_seq (last_closed_ledger_ st) then (1, st, [])
  else if hd_seq (last_closed_ledger_ st) + 1 =? ledger_seq v then
    let st := set_sync (MkSync now (peers_ (sync_ st))) st in
    let '(st, out) := default (st, []) (CloseLedger n v proof st) in (0, st, out)
  else (0, st, []).

(** ** Exchanging ledgers *)

(** [RequestConsensusValues] *)
Definition RequestConsensusValues (pid : Z) (gl : GetLedgers) (time : Z) st : LedgerManager * list Message :=
  let peer := default SyncStat0 (om_find (peers_ (sync_ st)) pid) in
  (set_sync (MkSync time (om_set (peers_ (sync_ st)) pid (MkSyncStat time gl (probation_ peer)))) st, [SendRequest pid gl]).

(** Peers that are asked at time [current_time]: those not on probation and without an open request;
    a request older than 30 seconds is forgotten. *)
Definition refresh_peer (current_time : Z) (p : SyncStat) : SyncStat :=
  if 30 * MICRO_UNITS_PER_SEC <? current_time - send_time_ p then MkSyncStat 0 (gl_ p) (probation_ p) else p.
Definition peer_enabled (current_time : Z) (p : SyncStat) : bool :=
  negb (current_time <? probation_ p) && (send_time_ p =? 0).

Fixpoint request_all (l : list Z) (gl : GetLedgers) (time : Z) st : LedgerManager * list Message :=
  match l with
  | [] => (st, [])
  | pid :: l' => let '(st, out) := RequestConsensusValues pid gl time st in let '(st, out') := request_all l' gl time st in (st, out ++ out')
  end.

(** [OnTimer]; [active_peers] in increasing order. *)
Definition OnTimer_manager (current_time : Z) (active_peers : list Z) st : LedgerManager * list Message :=
  if current_time - update_time_ (sync_ st) <=? 30 * MICRO_UNITS_PER_SEC then (st, [])
  else
    let peers := om_erase_if (fun pid _ => negb (bool_decide (pid ∈ active_peers))) (peers_ (sync_ st)) in
    let peers := map (fun e => (e.1, refresh_peer current_time e.2)) peers in
    let next_seq := hd_seq (last_closed_ledger_ st) + 1 in
    let enable_peers := List.filter (fun pid => match om_find peers pid with Some p => peer_enabled current_time p | None => true end) active_peers in
    request_all enable_peers (MkGetLedgers next_seq next_seq current_time self_chain_id) current_time (set_sync (MkSync current_time peers) st).

(** The values [begin], [begin + 1], ...: [None] when one is missing. *)
Fixpoint load_values d (begin : Z) (count : nat) : option (list ConsensusValue) :=
  match count with
  | O => Some []
  | S k => v ← ConsensusValueFromDB d begin; l ← load_values d (begin + 1) k; Some (v :: l)
  end.

(** [OnRequestLedgers]: the difference of the bounds is computed in 64 bits. *)
Definition OnRequestLedgers (message : GetLedgers) (peer_id : Z) st : list Message :=
  let last := hd_seq (last_closed_ledger_ st) in
  if negb (gl_chain_id message =? self_chain_id) then []
  else if 5 <? s64 (s64 (gl_end message - gl_begin message) + 1) then []
  else if s64 (gl_end message - gl_begin message) <? 0 then []
  else if last <? gl_end message then []
  else
    match load_values (disk st) (gl_begin message) (Z.to_nat (gl_end message - gl_begin message + 1)) with
    | None => []
    | Some values =>
        let proof := if gl_end message =? last then proof_ st
                     else from_option previous_proof ""%string (ConsensusValueFromDB (disk st) (gl_end message + 1)) in
        [SendLedgers peer_id (MkLedgers values last self_chain_id proof)]
    end.

(** The loop of [OnReceiveLedgers]: the proof of a value is in the next one, that of the last one comes
    with the message. [None] for the flag when a value could not be closed, otherwise whether one was. *)
Fixpoint close_values (n : nat) (proof : string) (valid : bool) (l : list ConsensusValue) st : option bool * LedgerManager * list Message :=
  match l with
  | [] => (Some valid, st, [])
  | v :: l' =>
      if ledger_seq v =? hd_seq (last_closed_ledger_ st) + 1 then
        match CloseLedger n v (match l' with v' :: _ => previous_proof v' | [] => proof end) st with
        | None => (None, st, [])
        | Some (st, out) => let '(valid, st, out') := close_values n proof true l' st in (valid, st, out ++ out')
        end
      else close_values n proof valid l' st
  end.

(** [OnReceiveLedgers] *)
Definition OnReceiveLedgers (n : nat) (now : Z) (ledgers : Ledgers) (peer_id : Z) st : LedgerManager * list Message :=
  if negb (lg_chain_id ledgers =? self_chain_id) then (st, [])
  else
    match head (lg_values ledgers), last (lg_values ledgers), om_find (peers_ (sync_ st)) peer_id with
    | Some first, Some final, Some itm =>
        let put p st := set_peers (om_set (peers_ (sync_ st)) peer_id p) st in
        let gl := MkGetLedgers 0 0 (gl_timestamp (gl_ itm)) (gl_chain_id (gl_ itm)) in
        let late := now + 60 * MICRO_UNITS_PER_SEC in
        if negb (ledger_seq first =? gl_begin (gl_ itm)) || negb (ledger_seq final =? gl_end (gl_ itm)) then (put (MkSyncStat 0 gl late) st, [])
        else
          let st0 := put (MkSyncStat 0 gl (probation_ itm)) st in
          let '(valid, st, out) := close_values n (lg_proof ledgers) false (lg_values ledgers) st0 in
          match valid with
          | None => (put (MkSyncStat 0 gl late) st, out)
          | Some false => (st, out)
          | Some true =>
            let next := hd_seq (last_closed_ledger_ st) + 1 in
            let '(st, out') := if next <=? lg_max_seq ledgers
                               then RequestConsensusValues peer_id (MkGetLedgers next (Z.min (lg_max_seq ledgers) (next + 4)) now self_chain_id) now st
                               else (st, []) in
            (if chain_max_ledger_probaly_ st <? lg_max_seq ledgers then set_chain_max (lg_max_seq ledgers) st else st, out ++ out')
          end
    | _, _, _ => (st, [])
    end.

(** ** Starting *)

(** [CreateGenesisAccount]: [None] when a validator is the genesis account. *)
Definition genesis_set : ValidatorSet := map (fun a => (a, 0)) genesis_validators.
Definition genesis_tree : gmap string string :=
  put_all ((DecodeAddress genesis_account, NewAccount genesis_account 100000000000000000) :: map (fun a => (DecodeAddress a, NewAccount a 0)) genesis_validators) ∅.
Definition genesis_value : ConsensusValue := MkConsensusValue [] 0 0 "" "" (Some (MkUpgrade 1000 "" 0)) None.
Definition genesis_header : Header :=
  let h := MkFullHeader 1 "" "" (RootHash genesis_tree) 0 (value_hash genesis_value) 1000 0 (Hash (SerializeValidators genesis_set))
             (Hash (SerializeFees genesis_fees)) genesis_slogan self_chain_id in
  set_hash (LedgerHash h []) h.
Definition no_txs : Closing := MkClosing [] [] no_settings.
Definition CreateGenesisAccount : option Disk :=
  if bool_decide (genesis_account ∈ genesis_validators) then None
  else Some (MkDisk (put_all (AddToDb_puts ∅ genesis_header no_txs) ∅)
         (MkAccountDb (put_all [(KEY_LEDGER_SEQ, "1"%string); (KEY_GENE_ACCOUNT, genesis_account); ValidatorsSet genesis_set; FeesConfigSet genesis_fees] ∅) genesis_tree)).

(** [CheckAndRepairLedgerSeq]: on Linux it does nothing. *)
Definition CheckAndRepairLedgerSeq d : option Disk :=
  if OS_LINUX then Some d
  else
    match ledger_db d !! KEY_LEDGER_SEQ, ad_kv (account_db d) !! KEY_LEDGER_SEQ with
    | None, None => Some d
    | Some ledger_db_seq, Some account_db_seq =>
        if text_int account_db_seq =? text_int ledger_db_seq then Some d
        else if negb (text_int account_db_seq =? text_int ledger_db_seq - 1) then None
        else Some (MkDisk (<[KEY_LEDGER_SEQ := account_db_seq]> (ledger_db d)) (account_db d))
    | _, _ => None
    end.

(** The last closed ledger: loaded, or just created. *)
Definition load_or_create d : option (Header * Disk) :=
  match ad_kv (account_db d) !! KEY_LEDGER_SEQ with
  | Some _ => h ← LoadFromDb d (GetMaxLedger d); Some (h, d)
  | None => d ← CreateGenesisAccount; Some (genesis_header, d)
  end.

(** [CreateHardforkLedger] on a node that was initialized, once it is confirmed: the node with the address [this]
    makes itself the only validator with an empty block. [None] when the last ledger cannot be loaded. *)
Definition hardfork_value (this : string) h (proof : string) : ConsensusValue :=
  MkConsensusValue [] (hd_close_time h + close_interval) (hd_seq h + 1) (hd_hash h) proof (Some (MkUpgrade 0 this 0)) None.
Definition hardfork_header (this : string) h v c (tree : gmap string string) : Header :=
  let x := MkFullHeader (ledger_seq v) "" (hd_hash h) (RootHash (Commit c tree)) (close_time v) (value_hash v) (hd_version h) (hd_tx_count h)
             (Hash (SerializeValidators [(this, 0)])) (hd_fees_hash h) "" (hd_chain_id h) in
  set_hash (LedgerHash x (transaction_envs c)) x.
Definition CreateHardforkLedger (n : nat) (this : string) st : option Disk :=
  let d := disk st in
  h ← LoadFromDb d (from_option text_int 0 (ad_kv (account_db d) !! KEY_LEDGER_SEQ));
  let v := hardfork_value this h (last_proof d) in
  let c := run_closing (Execute APPLY_MODE_PROPOSE n (view st) v) in
  let header := hardfork_header this h v c (tree_ st) in
  Some (MkDisk
    (put_all [(KEY_LEDGER_SEQ, int_text (hd_seq header)); (header_key (hd_seq header), SerializeHeader header); (value_key (hd_seq header), SerializeValue v)] (ledger_db d))
    (MkAccountDb (put_all [(KEY_LEDGER_SEQ, int_text (hd_seq header)); (KEY_LAST_PROOF, ""%string); ValidatorsSet [(this, 0)]] (ad_kv (account_db d)))
       (Commit c (tree_ st)))).

(** [Initialize]: [None] when it returns false or exits because the ledger is too new for the software. *)
Definition Initialize_manager d : option (LedgerManager * list Message) :=
  d ← CheckAndRepairLedgerSeq d;
  hd ← load_or_create d;
  let '(h, d) := hd : Header * Disk in
  validators ← ValidatorsGet d (hd_validators_hash h);
  fees ← FeesConfigGet d (hd_fees_hash h);
  let tree := ad_tree (account_db d) in
  if negb (bool_decide (hd_account_tree_hash h = RootHash tree)) then None
  else if LEDGER_VERSION <? hd_version h then None
  else Some (MkLedgerManager h h tree validators fees (last_proof d) 0 (MkSync 0 []) no_contexts d,
             [PostUpdateValidators validators (last_proof d) false]).
End Manager.
