(* ===== verification/LedgerManagerInv.v ===== *)
(** * What the databases of a node hold

    The keys of the two databases do not collide, so that closing a ledger adds the ledger and
    keeps the older ones; and the chain of a node as a replay of its values. *)
From S2P Require Import Prelude Strings StringsFacts OrdMap PbftData Pbft TxQueue LedgerUpgrade Glue LedgerContext LedgerManager.

(** ** Keys *)

Lemma text_int_text n : is_s64 n -> text_int (int_text n) = n.
Proof. intros Hn. unfold text_int, int_text. rewrite String.list_ascii_of_string_of_list_ascii. by apply Stoi64_ToString. Qed.

Lemma int_text_inj n m : is_s64 n -> is_s64 m -> int_text n = int_text m -> n = m.
Proof. intros Hn Hm E. by rewrite <- (text_int_text n), <- (text_int_text m), E. Qed.

Lemma append_inj a (s t : string) : (a ++ s)%string = (a ++ t)%string -> s = t.
Proof. induction a as [|x a IH]; cbn; [done|]. intros [= E]. by apply IH. Qed.

Lemma hex_inj s t : hex s = hex t -> s = t.
Proof.
  unfold hex. intros E. apply (f_equal String.list_ascii_of_string) in E. rewrite !String.list_ascii_of_string_of_list_ascii in E.
  apply (f_equal (Strings.hex_loop true)) in E. rewrite !hex_loop_BinToHex in E. injection E as E.
  by rewrite <- (String.string_of_list_ascii_of_string s), E, String.string_of_list_ascii_of_string.
Qed.

Lemma header_key_inj n m : is_s64 n -> is_s64 m -> header_key n = header_key m -> n = m.
Proof. unfold header_key, ComposePrefix. cbn. intros Hn Hm [= E]. by apply int_text_inj. Qed.

Lemma value_key_inj n m : is_s64 n -> is_s64 m -> value_key n = value_key m -> n = m.
Proof. unfold value_key, ComposePrefix. cbn. intros Hn Hm [= E]. by apply int_text_inj. Qed.

Lemma validators_key_inj s t : validators_key s = validators_key t -> s = t.
Proof. unfold validators_key. intros E%append_inj. by apply hex_inj. Qed.

Lemma fees_key_inj s t : fees_key s = fees_key t -> s = t.
Proof. unfold fees_key. intros E%append_inj. by apply hex_inj. Qed.

(** ** Batches *)

Lemma put_all_app l1 l2 m : put_all (l1 ++ l2) m = put_all l2 (put_all l1 m).
Proof. apply foldl_app. Qed.

Lemma lookup_put_all_ne l m k : k ∉ l.*1 -> put_all l m !! k = m !! k.
Proof.
  revert m. induction l as [|[k' x] l IH]; intros m Hk; [done|]. cbn in Hk |- *. apply not_elem_of_cons in Hk as [Hne Hk].
  unfold put_all in IH. rewrite IH by done. by rewrite lookup_insert_ne.
Qed.

(** A put that is there or not. *)
Lemma opt_put_ne (b : bool) e m k : k <> e.1 -> put_all (if b then [e] else []) m !! k = m !! k.
Proof. intros Hk. apply lookup_put_all_ne. destruct b; cbn; [by rewrite list_elem_of_singleton|apply not_elem_of_nil]. Qed.

Lemma opt_put_get (b : bool) e m k x : (m !! k = Some x /\ (e.1 = k -> e.2 = x)) \/ (b = true /\ e = (k, x)) ->
  put_all (if b then [e] else []) m !! k = Some x.
Proof.
  destruct e as [k' x']; cbn. intros [[Hm He]|[-> [= -> ->]]]; [|cbn; by rewrite lookup_insert_eq]. destruct b; cbn; [|done].
  destruct (decide (k' = k)) as [->|]; [rewrite lookup_insert_eq; f_equal; by apply He|by rewrite lookup_insert_ne].
Qed.

(** Keys of [AddToDb] besides the number of the ledger and its header. *)
Definition record_key (k : string) : Prop := (exists x, k = tx_key x) \/ (exists n, k = txs_key n) \/ k = LAST_TX_HASHS.

Ltac not_record := let E := fresh in intros [[? E]|[[? E]|E]]; discriminate E.

Lemma max_not_record : ~ record_key KEY_LEDGER_SEQ.
Proof. not_record. Qed.
Lemma header_not_record n : ~ record_key (header_key n).
Proof. not_record. Qed.
Lemma value_not_record n : ~ record_key (value_key n).
Proof. not_record. Qed.
#[export] Hint Resolve max_not_record header_not_record value_not_record : ledger_keys.

Section Batches.
Context `{PbftParams} `{UpgradeParams} `{QueueParams} `{GlueParams} `{Executor} `{MP : ManagerParams}.
Implicit Types (st : LedgerManager) (d : Disk) (v : ConsensusValue) (c : Closing) (h : Header) (w : View).

Lemma AddToDb_lookup db h c m k : ~ record_key k ->
  put_all (AddToDb_puts db h c) m !! k = put_all [(KEY_LEDGER_SEQ, int_text (hd_seq h)); (header_key (hd_seq h), SerializeHeader h)] m !! k.
Proof.
  intros Hk. unfold AddToDb_puts. rewrite put_all_app. apply lookup_put_all_ne. contradict Hk.
  rewrite !fmap_app, !elem_of_app in Hk. destruct Hk as [Hk|[Hk|Hk]].
  - left. apply list_elem_of_fmap in Hk as (e & -> & He%list_elem_of_In%in_flat_map). destruct He as (t & _ & He%list_elem_of_In).
    unfold tx_puts in He. apply elem_of_app in He as [He|He%list_elem_of_singleton].
    + apply list_elem_of_In, in_map_iff in He as (i & <- & _). by eexists.
    + subst e. by eexists.
  - apply list_elem_of_singleton in Hk. right. left. by eexists.
  - right. right. case_bool_decide; [by apply elem_of_nil in Hk|]. by apply list_elem_of_singleton in Hk.
Qed.

Lemma hd_seq_closing w v c : hd_seq (closing_header w v c) = ledger_seq v.
Proof. done. Qed.

Lemma ledger_db_max w v c d : ledger_db (write_ledger_db w v c d) !! KEY_LEDGER_SEQ = Some (int_text (ledger_seq v)).
Proof.
  cbn [write_ledger_db ledger_db]. unfold ledger_batch. change (put_all (?a :: ?l) ?m) with (put_all l (<[a.1 := a.2]> m)).
  rewrite AddToDb_lookup by auto with ledger_keys. cbn. rewrite lookup_insert_ne by done. by rewrite lookup_insert_eq.
Qed.

Lemma ledger_db_header w v c d n : is_s64 n -> is_s64 (ledger_seq v) ->
  ledger_db (write_ledger_db w v c d) !! header_key n
  = if decide (n = ledger_seq v) then Some (SerializeHeader (closing_header w v c)) else ledger_db d !! header_key n.
Proof.
  intros Hn Hv. cbn [write_ledger_db ledger_db]. unfold ledger_batch. change (put_all (?a :: ?l) ?m) with (put_all l (<[a.1 := a.2]> m)).
  rewrite AddToDb_lookup by auto with ledger_keys. cbn [put_all foldl fst snd]. rewrite hd_seq_closing. case_decide as E.
  - subst n. by rewrite lookup_insert_eq.
  - rewrite lookup_insert_ne by (intros ?%header_key_inj; congruence). by rewrite !lookup_insert_ne by done.
Qed.

Lemma ledger_db_value w v c d n : is_s64 n -> is_s64 (ledger_seq v) ->
  ledger_db (write_ledger_db w v c d) !! value_key n = if decide (n = ledger_seq v) then Some (SerializeValue v) else ledger_db d !! value_key n.
Proof.
  intros Hn Hv. cbn [write_ledger_db ledger_db]. unfold ledger_batch. change (put_all (?a :: ?l) ?m) with (put_all l (<[a.1 := a.2]> m)).
  rewrite AddToDb_lookup by auto with ledger_keys. cbn [put_all foldl fst snd]. rewrite !(lookup_insert_ne _ _ (value_key n)) by done. case_decide as E.
  - subst n. by rewrite lookup_insert_eq.
  - by rewrite lookup_insert_ne by (intros ?%value_key_inj; congruence).
Qed.

(** The account database: the number, the proof, and the validators and fees under their hashes. *)
Lemma account_db_lookup w v c proof d k : k <> KEY_LAST_PROOF ->
  ad_kv (account_db (write_account_db w v c proof d)) !! k
  = put_all (if (new_fees w c).1 then [FeesConfigSet (new_fees w c).2] else [])
      (put_all (if (new_validators w v c).1 then [ValidatorsSet (new_validators w v c).2] else [])
        (<[KEY_LEDGER_SEQ := int_text (ledger_seq v)]> (ad_kv (account_db d)))) !! k.
Proof. intros Hk. cbn [write_account_db account_db ad_kv]. unfold account_batch. rewrite !put_all_app. by apply (lookup_insert_ne _ KEY_LAST_PROOF). Qed.

Lemma account_db_max w v c proof d : ad_kv (account_db (write_account_db w v c proof d)) !! KEY_LEDGER_SEQ = Some (int_text (ledger_seq v)).
Proof. rewrite account_db_lookup by done. rewrite !opt_put_ne by done. by rewrite lookup_insert_eq. Qed.

Lemma account_db_proof w v c proof d : last_proof (write_account_db w v c proof d) = proof.
Proof.
  unfold last_proof. cbn [write_account_db account_db ad_kv]. unfold account_batch. rewrite !put_all_app. cbn [put_all foldl fst snd]. by rewrite lookup_insert_eq.
Qed.

Context (hash_inj : Inj (=) (=) Hash).
Context (parse_validators : forall x, ParseValidators (SerializeValidators x) = Some x) (parse_fees : forall x, ParseFees (SerializeFees x) = Some x).

(** The validators [x] are in the database under their hash. *)
Definition has_validators d (x : ValidatorSet) : Prop := ad_kv (account_db d) !! validators_key (Hash (SerializeValidators x)) = Some (SerializeValidators x).
Definition has_fees d (x : FeeConfig) : Prop := ad_kv (account_db d) !! fees_key (Hash (SerializeFees x)) = Some (SerializeFees x).

Lemma has_validators_get d x : has_validators d x -> ValidatorsGet d (Hash (SerializeValidators x)) = Some x.
Proof. unfold has_validators, ValidatorsGet. intros ->. apply parse_validators. Qed.

Lemma has_fees_get d x : has_fees d x -> FeesConfigGet d (Hash (SerializeFees x)) = Some x.
Proof. unfold has_fees, FeesConfigGet. intros ->. apply parse_fees. Qed.

Lemma account_db_validators w v c proof d x :
  has_validators d x \/ ((new_validators w v c).1 = true /\ x = (new_validators w v c).2) -> has_validators (write_account_db w v c proof d) x.
Proof.
  intros Hx. unfold has_validators. rewrite account_db_lookup by done. rewrite opt_put_ne by done. apply opt_put_get. destruct Hx as [Hx|[Hb ->]]; [left|by right].
  rewrite lookup_insert_ne by done. split; [done|]. cbn. by intros ->%validators_key_inj%hash_inj.
Qed.

Lemma account_db_fees w v c proof d x :
  has_fees d x \/ ((new_fees w c).1 = true /\ x = (new_fees w c).2) -> has_fees (write_account_db w v c proof d) x.
Proof.
  intros Hx. unfold has_fees. rewrite account_db_lookup by done. apply opt_put_get. destruct Hx as [Hx|[Hb ->]]; [left|by right].
  rewrite opt_put_ne by done. rewrite lookup_insert_ne by done. split; [done|]. cbn. by intros ->%fees_key_inj%hash_inj.
Qed.
End Batches.
