(* ===== verification/LedgerChain.v ===== *)
(** * The chain of a node

    The abstract chain: a list of values, replayed from the genesis view. [chain_of] says that a
    node implements it: its state is the result of the replay, its databases hold every ledger
    and value of it, and every value was certified by the validators of the ledger before. *)
From S2P Require Import Prelude Strings OrdMap PbftData Pbft TxQueue LedgerUpgrade Glue LedgerContext LedgerManager LedgerManagerInv.

Section Chain.
Context `{PbftParams} `{UpgradeParams} `{QueueParams} `{GlueParams} `{Executor} `{MP : ManagerParams}.
Implicit Types (st : LedgerManager) (d : Disk) (v : ConsensusValue) (c : Closing) (h : Header) (w : View) (vs : list ConsensusValue) (k n : nat).

(** ** The specification *)

Definition genesis_view : View := MkView genesis_header genesis_tree genesis_set genesis_fees.

(** The view after following a value. *)
Definition spec_close w v : option View :=
  let r := Execute APPLY_MODE_FOLLOW 0 w v in if exec_result_ r then Some (next_view w v (run_closing r)) else None.

Fixpoint replay w vs : option View :=
  match vs with
  | [] => Some w
  | v :: vs' => w' ← spec_close w v; replay w' vs'
  end.

(** The view after the first [k] values, that of ledger [k + 1]. *)
Definition view_at vs k : option View := replay genesis_view (take k vs).

(** What a node that closed ledger [k + 1] knows when it checks the next value. *)
Definition env_at vs k w : GlueEnv :=
  MkEnv (glue_header (vw_header w)) close_interval max_trans_per_ledger hardfork_points
    (fun seq => if (1 <=? seq) && (seq <=? Z.of_nat k + 1) then (fun w => map fst (vw_validators w)) <$> view_at vs (Z.to_nat (seq - 1)) else None) "".

(** The validators of [w] certify [v], or it is a configured fork point. *)
Definition certified w v (proof : string) : Prop :=
  CheckProof (map fst (vw_validators w)) (value_hash v) proof = true \/ value_hash v ∈ hardfork_points.

(** A completed context belongs to a value for the next ledger and holds an execution of it in the
    present view. *)
Definition context_ok st (hash : string) (c : LedgerContext) : Prop :=
  value_hash (consensus_value_ c) = hash /\ ledger_seq (consensus_value_ c) = hd_seq (last_closed_ledger_ st) + 1
  /\ exec_result_ (ctx_run c) = true /\ apply_mode_ c <> APPLY_MODE_FOLLOW
  /\ exists n, ctx_run c = Execute (apply_mode_ c) n (view st) (consensus_value_ c).

(** Value [k] of a chain extends the ledger before it and is certified. *)
Definition link vs k v : Prop :=
  exists w, view_at vs k = Some w /\ ledger_seq v = Z.of_nat k + 2 /\ previous_ledger_hash v = hd_hash (vw_header w)
    /\ CheckValueHelper (env_at vs k w) v (-1) = CHECK_VALUE_VALID /\ exists proof, certified w v proof.

(** The databases hold the chain. *)
Record stored vs d : Prop := {
  st_headers : forall k, (k <= length vs)%nat ->
    exists w, view_at vs k = Some w /\ LoadFromDb d (Z.of_nat k + 1) = Some (vw_header w) /\ has_validators d (vw_validators w);
  st_values : forall k v, vs !! k = Some v -> ConsensusValueFromDB d (Z.of_nat k + 2) = Some v;
  st_ledger_seq : ledger_db d !! KEY_LEDGER_SEQ = Some (int_text (Z.of_nat (length vs) + 1));
  st_account_seq : ad_kv (account_db d) !! KEY_LEDGER_SEQ = Some (int_text (Z.of_nat (length vs) + 1)) }.

Record chain_of vs st : Prop := {
  ch_view : replay genesis_view vs = Some (view st);
  ch_links : forall k v, vs !! k = Some v -> link vs k v;
  ch_proof : forall k v w, vs !! k = Some v -> S k = length vs -> view_at vs k = Some w -> certified w v (proof_ st);
  ch_stored : stored vs (disk st);
  ch_range : is_s64 (Z.of_nat (length vs) + 1);
  ch_lcl : lcl_header_ st = last_closed_ledger_ st;
  ch_fees : has_fees (disk st) (fees_ st);
  ch_tree : ad_tree (account_db (disk st)) = tree_ st;
  ch_last : last_proof (disk st) = proof_ st;
  ch_contexts : forall hash (c : LedgerContext), completed_ctxs_ (context_manager_ st) !! hash = Some c -> context_ok st hash c }.

(** ** Replaying *)

Lemma replay_app w vs1 vs2 : replay w (vs1 ++ vs2) = replay w vs1 ≫= fun w' => replay w' vs2.
Proof. revert w. induction vs1 as [|v vs1 IH]; intros w; [done|]. cbn. destruct (spec_close w v); cbn; [apply IH|done]. Qed.

Lemma view_at_app vs v k : (k <= length vs)%nat -> view_at (vs ++ [v]) k = view_at vs k.
Proof. intros Hk. unfold view_at. rewrite take_app_le by done. done. Qed.

Lemma view_at_all vs : view_at vs (length vs) = replay genesis_view vs.
Proof. unfold view_at. by rewrite firstn_all. Qed.

Lemma view_at_succ vs k v w : vs !! k = Some v -> view_at vs k = Some w -> view_at vs (S k) = spec_close w v.
Proof.
  intros Hv Hw. unfold view_at. rewrite (take_S_r _ _ _ Hv), replay_app. unfold view_at in Hw. rewrite Hw. cbn. by destruct (spec_close w v).
Qed.

Lemma env_at_app vs v k w seq : (k <= length vs)%nat -> GetValidators (env_at (vs ++ [v]) k w) seq = GetValidators (env_at vs k w) seq.
Proof.
  intros Hk. cbn. destruct (Z.leb_spec 1 seq), (Z.leb_spec seq (Z.of_nat k + 1)); cbn; [|done..]. by rewrite view_at_app by lia.
Qed.

(** ** Headers *)

(** A header names the tree, the validators and the fees. *)
Definition sealed w : Prop :=
  hd_account_tree_hash (vw_header w) = RootHash (vw_tree w)
  /\ hd_validators_hash (vw_header w) = Hash (SerializeValidators (vw_validators w))
  /\ hd_fees_hash (vw_header w) = Hash (SerializeFees (vw_fees w)).

Lemma genesis_sealed : sealed genesis_view.
Proof. done. Qed.

Lemma voted_validators s old : (GetVotedValidators s old).1 = false -> (GetVotedValidators s old).2 = old.
Proof. unfold GetVotedValidators. by destruct (set_validators s). Qed.

Lemma next_validators w v c : vw_validators (next_view w v c) = (new_validators w v c).2.
Proof.
  cbn. destruct (new_validators w v c).1 eqn:E; [done|]. symmetry. unfold new_validators in *. destruct (ledger_upgrade v) as [u|]; [|by apply voted_validators].
  case_bool_decide; [by apply voted_validators|done].
Qed.

Lemma next_sealed w v c : sealed (next_view w v c).
Proof. split_and!; [done| |done]. by rewrite next_validators. Qed.

Lemma replay_sealed w vs w' : sealed w -> replay w vs = Some w' -> sealed w'.
Proof.
  revert w. induction vs as [|v vs IH]; cbn; intros w Hs E; [by injection E as <-|]. unfold spec_close in E. destruct (exec_result_ _); [|done].
  cbn in E. eapply IH; [|exact E]. apply next_sealed.
Qed.

Lemma next_view_same w v c1 c2 : same_block w c1 c2 -> next_view w v c1 = next_view w v c2.
Proof. intros (E1 & E2 & E3). unfold next_view, closing_header, new_validators, new_fees. by rewrite E1, E2, E3. Qed.

(** ** Checks *)

Lemma CheckValueHelper_cong env1 env2 v : lcl env1 = lcl env2 -> hardfork_points_ env1 = hardfork_points_ env2 ->
  (ledger_seq v = lh_seq (lcl env1) + 1 -> 1 < lh_seq (lcl env1) -> GetValidators env1 (ledger_seq v - 2) = GetValidators env2 (ledger_seq v - 2)) ->
  CheckValueHelper env1 v (-1) = CheckValueHelper env2 v (-1).
Proof.
  intros El Eh Hv. unfold CheckValueHelper. rewrite <- El.
  assert (Eu : forall u, check_upgrade env1 v u = check_upgrade env2 v u) by (intros u; unfold check_upgrade, is_hardfork; by rewrite El, Eh).
  assert (Es : match ledger_upgrade v with Some u => negb (check_upgrade env1 v u) | None => false end
               = match ledger_upgrade v with Some u => negb (check_upgrade env2 v u) | None => false end) by (destruct (ledger_upgrade v); [by rewrite Eu|done]).
  rewrite Es. destruct (_ <=? _); [done|]. destruct (Z.eqb_spec (ledger_seq v) (lh_seq (lcl env1) + 1)) as [E|]; [|done].
  cbn [negb andb]. destruct (Z.ltb_spec 1 (lh_seq (lcl env1))); [|done]. unfold is_hardfork. by rewrite Eh, Hv by done.
Qed.

Lemma link_app vs v0 k v : (k < length vs)%nat -> link vs k v -> link (vs ++ [v0]) k v.
Proof.
  intros Hk (w & Hw & Hs & Hp & Hc & Hx). exists w. rewrite view_at_app by lia. split_and!; [done..| |done].
  rewrite <- Hc. apply CheckValueHelper_cong; [done|done|]. intros _ _. apply env_at_app. lia.
Qed.

Lemma CheckValueHelper_spec env v : CheckValueHelper env v (-1) = CHECK_VALUE_VALID ->
  ledger_seq v = lh_seq (lcl env) + 1 /\ previous_ledger_hash v = lh_hash (lcl env)
  /\ (match ledger_upgrade v with Some u => check_upgrade env v u = true | None => True end)
  /\ (1 < lh_seq (lcl env) -> exists set, GetValidators env (ledger_seq v - 2) = Some set
        /\ (CheckProof set (lh_consensus_value_hash (lcl env)) (previous_proof v) = true \/ lh_consensus_value_hash (lcl env) ∈ hardfork_points_ env)).
Proof.
  unfold CheckValueHelper. destruct (_ <=? _); [done|]. destruct (Z.eqb_spec (ledger_seq v) (lh_seq (lcl env) + 1)); [|done].
  case_bool_decide as Hp; [|done]. cbn [negb andb].
  destruct (match ledger_upgrade v with Some _ => _ | None => _ end) eqn:Eu; [done|]. destruct ((lh_seq (lcl env) =? 1) && _); [done|]. intros Hv. split_and!; [done..| |].
  - destruct (ledger_upgrade v); [by apply negb_false_iff in Eu|done].
  - intros Hl%Z.ltb_lt. rewrite Hl in Hv. revert Hv. destruct (GetValidators env (ledger_seq v - 2)) as [set|]; [|done]. intros Hv. exists set. split; [done|].
    revert Hv. unfold is_hardfork. destruct (CheckProof _ _ _); [by left|]. case_bool_decide; [by right|done].
Qed.

(** ** The node and the specification see the same *)

Context (parse_value : forall x, ParseValue (SerializeValue x) = Some x) (parse_header : forall x, ParseHeader (SerializeHeader x) = x).
Context (parse_validators : forall x, ParseValidators (SerializeValidators x) = Some x) (parse_fees : forall x, ParseFees (SerializeFees x) = Some x).
Context (hash_inj : Inj (=) (=) Hash).

Lemma view_at_sealed vs k w : view_at vs k = Some w -> sealed w.
Proof. apply replay_sealed, genesis_sealed. Qed.

Lemma stored_GetValidators vs d k : stored vs d -> (k <= length vs)%nat -> GetValidators_db d (Z.of_nat k + 1) = vw_validators <$> view_at vs k.
Proof.
  intros Hs Hk. destruct (st_headers _ _ Hs k Hk) as (w & Hw & Hl & Hv). unfold GetValidators_db. rewrite Hl, Hw. cbn.
  destruct (view_at_sealed _ _ _ Hw) as (_ & -> & _). by apply has_validators_get.
Qed.

Lemma chain_env vs st seq : chain_of vs st -> 1 <= seq <= Z.of_nat (length vs) + 1 ->
  GetValidators (glue_env st) seq = GetValidators (env_at vs (length vs) (view st)) seq.
Proof.
  intros Hc Hr. cbn. destruct (Z.leb_spec 1 seq), (Z.leb_spec seq (Z.of_nat (length vs) + 1)); try lia. cbn.
  replace seq with (Z.of_nat (Z.to_nat (seq - 1)) + 1) at 1 by lia. rewrite (stored_GetValidators vs) by first [apply Hc|lia].
  by destruct (view_at vs _).
Qed.

Lemma chain_seq vs st : chain_of vs st -> hd_seq (last_closed_ledger_ st) = Z.of_nat (length vs) + 1.
Proof.
  intros Hc. pose proof (ch_view _ _ Hc) as Hv. destruct vs as [|v l _] using rev_ind; [cbn in Hv; by injection Hv as <-|].
  destruct (ch_links _ _ Hc (length l) v) as (w & Hw & Hs & _); [by rewrite lookup_app_r, Nat.sub_diag by lia|].
  rewrite replay_app in Hv. unfold view_at in Hw. rewrite take_app_length in Hw. rewrite Hw in Hv. cbn in Hv. unfold spec_close in Hv.
  destruct (exec_result_ _); [|done]. injection Hv as <- _ _ _. rewrite length_app. cbn. lia.
Qed.

Lemma chain_helper vs st v : chain_of vs st -> CheckValueHelper (glue_env st) v (-1) = CheckValueHelper (env_at vs (length vs) (view st)) v (-1).
Proof.
  intros Hc. pose proof (chain_seq _ _ Hc) as Hs. apply CheckValueHelper_cong; cbn [lcl glue_env env_at]; rewrite ?(ch_lcl _ _ Hc); [done..|].
  cbn [glue_header lh_seq]. intros -> Hl. apply chain_env; [done|]. lia.
Qed.

(** ** Closing a ledger *)

(** A proposal of this node is only closed as it is if nothing of it was dropped, expired or failed. *)
Definition undisputed st v : Prop :=
  forall c : LedgerContext, completed_ctxs_ (context_manager_ st) !! value_hash v = Some c -> apply_mode_ c = APPLY_MODE_PROPOSE -> clean (run_result (ctx_run c)) = true.

Lemma value_hash_inj v1 v2 : value_hash v1 = value_hash v2 -> v1 = v2.
Proof. intros E%hash_inj. apply (f_equal ParseValue) in E. rewrite !parse_value in E. by injection E. Qed.

Lemma SyncProcess_spec `{!ExecutorLaws} vs st v n c : chain_of vs st -> undisputed st v -> SyncProcess n (view st) v (context_manager_ st) = Some c ->
  spec_close (view st) v = Some (next_view (view st) v c).
Proof.
  intros Hc Hu. unfold SyncProcess, spec_close. destruct (completed_ctxs_ _ !! _) as [x|] eqn:Ex.
  - intros [= <-]. destruct (ch_contexts _ _ Hc _ _ Ex) as (Eh & _ & Hr & Hm & m & Em). apply value_hash_inj in Eh. rewrite Eh in Em.
    assert (exec_result_ (Execute APPLY_MODE_FOLLOW 0 (view st) v) = true
            /\ same_block (view st) (run_closing (ctx_run x)) (run_closing (Execute APPLY_MODE_FOLLOW 0 (view st) v))) as [-> Hs].
    { specialize (Hu x Ex). rewrite Em in *. destruct (apply_mode_ x); [apply propose_follow; auto|by apply check_follow|done]. }
    by rewrite (next_view_same _ _ _ _ Hs).
  - rewrite (follow_again n 0). destruct (exec_result_ _); [|done]. by intros [= <-].
Qed.

Lemma CheckValueAndProof_spec vs st v proof : chain_of vs st -> CheckValueAndProof (glue_env st) (SerializeValue v) proof = true <->
  CheckValueHelper (env_at vs (length vs) (view st)) v (-1) = CHECK_VALUE_VALID /\ certified (view st) v proof.
Proof.
  intros Hc. unfold CheckValueAndProof, certified, is_hardfork. rewrite parse_value, (chain_helper vs) by done.
  assert (HG : CheckValueHelper (env_at vs (length vs) (view st)) v (-1) = CHECK_VALUE_VALID -> GetValidators (glue_env st) (ledger_seq v - 1) = Some (map fst (vw_validators (view st)))).
  { intros (Hs & _)%CheckValueHelper_spec. cbn in Hs. rewrite (chain_seq vs) in Hs by done. rewrite (chain_env vs) by first [done|lia]. cbn.
    destruct (Z.leb_spec 1 (ledger_seq v - 1)), (Z.leb_spec (ledger_seq v - 1) (Z.of_nat (length vs) + 1)); try lia. cbn.
    replace (Z.to_nat (ledger_seq v - 1 - 1)) with (length vs) by lia. by rewrite view_at_all, (ch_view _ _ Hc). }
  split.
  - destruct (GetValidators (glue_env st) _) as [set|]; [|done]. intros [Hv%bool_decide_eq_true Hp]%andb_true_iff. split; [done|].
    specialize (HG Hv). injection HG as ->. apply orb_true_iff in Hp as [Hp|Hp]; [by left|right]. by apply bool_decide_eq_true in Hp.
  - intros [Hv Hp]. rewrite (HG Hv). rewrite bool_decide_true by done. cbn [andb]. fold (value_hash v). destruct Hp as [-> |Hp]; [done|]. apply orb_true_iff. right. by apply bool_decide_eq_true.
Qed.

(** Databases to which the ledger of one more value was added. *)
Record extended d d' v w : Prop := {
  ex_headers : forall i, is_s64 i -> ledger_db d' !! header_key i = if decide (i = ledger_seq v) then Some (SerializeHeader (vw_header w)) else ledger_db d !! header_key i;
  ex_values : forall i, is_s64 i -> ledger_db d' !! value_key i = if decide (i = ledger_seq v) then Some (SerializeValue v) else ledger_db d !! value_key i;
  ex_ledger_seq : ledger_db d' !! KEY_LEDGER_SEQ = Some (int_text (ledger_seq v));
  ex_account_seq : ad_kv (account_db d') !! KEY_LEDGER_SEQ = Some (int_text (ledger_seq v));
  ex_old_validators : forall x, has_validators d x -> has_validators d' x;
  ex_validators : has_validators d' (vw_validators w) }.

Lemma stored_extend vs d d' w v w' : stored vs d -> replay genesis_view vs = Some w -> spec_close w v = Some w' ->
  ledger_seq v = Z.of_nat (length vs) + 2 -> is_s64 (ledger_seq v) -> extended d d' v w' -> stored (vs ++ [v]) d'.
Proof.
  intros Hs Hw Hn Hq Hr Hx. assert (Hl : forall i, 0 <= i <= ledger_seq v -> is_s64 i) by (unfold is_s64, int64_min, int64_max in *; lia).
  split.
  - intros k Hk. rewrite length_app in Hk. cbn in Hk. unfold LoadFromDb. rewrite (ex_headers _ _ _ _ Hx) by (apply Hl; lia).
    destruct (decide (k = S (length vs))) as [->|Hne].
    + exists w'. rewrite decide_True by lia. cbn [fmap option_fmap option_map]. rewrite parse_header. split_and!; [|done|exact (ex_validators _ _ _ _ Hx)].
      rewrite <- Hn. apply view_at_succ; [by rewrite lookup_app_r, Nat.sub_diag by lia|]. by rewrite view_at_app, view_at_all by lia.
    + rewrite decide_False by lia. rewrite view_at_app by lia. destruct (st_headers _ _ Hs k ltac:(lia)) as (w0 & ? & ? & ?). exists w0.
      split_and!; [done..|]. by apply (ex_old_validators _ _ _ _ Hx).
  - intros k v' Hk. pose proof (lookup_lt_Some _ _ _ Hk) as Hlt. rewrite length_app in Hlt. cbn in Hlt.
    unfold ConsensusValueFromDB. rewrite (ex_values _ _ _ _ Hx) by (apply Hl; lia). destruct (decide (k = length vs)) as [->|Hne].
    + rewrite lookup_app_r, Nat.sub_diag in Hk by lia. injection Hk as <-. rewrite decide_True by lia. apply parse_value.
    + rewrite lookup_app_l in Hk by lia. rewrite decide_False by lia. by apply (st_values _ _ Hs).
  - rewrite (ex_ledger_seq _ _ _ _ Hx), length_app. do 2 f_equal. cbn. lia.
  - rewrite (ex_account_seq _ _ _ _ Hx), length_app. do 2 f_equal. cbn. lia.
Qed.

Lemma stored_validators vs d w : stored vs d -> replay genesis_view vs = Some w -> has_validators d (vw_validators w).
Proof. intros Hs Hw. destruct (st_headers _ _ Hs (length vs) ltac:(lia)) as (w' & E & _ & Hv). rewrite view_at_all, Hw in E. by injection E as <-. Qed.

(** [CloseLedger] adds the ledger. *)
Lemma write_extended d w v c proof : has_validators d (vw_validators w) -> is_s64 (ledger_seq v) -> extended d (write_disk w v c proof d) v (next_view w v c).
Proof.
  intros Hv Hr. split; unfold write_disk.
  - intros i Hi. cbn [write_account_db ledger_db]. by rewrite ledger_db_header.
  - intros i Hi. cbn [write_account_db ledger_db]. by rewrite ledger_db_value.
  - cbn [write_account_db ledger_db]. apply ledger_db_max.
  - apply account_db_max.
  - intros x Hx. by apply account_db_validators; [done|left].
  - apply account_db_validators; [done|]. rewrite next_validators. destruct (new_validators w v c).1 eqn:Eb; [by right|left].
    pose proof (next_validators w v c) as En. cbn in En. rewrite Eb in En. by rewrite <- En.
Qed.

Lemma chain_extend vs st v w' st' : chain_of vs st -> is_s64 (ledger_seq v) ->
  CheckValueHelper (env_at vs (length vs) (view st)) v (-1) = CHECK_VALUE_VALID -> certified (view st) v (proof_ st') -> spec_close (view st) v = Some w' ->
  view st' = w' -> lcl_header_ st' = last_closed_ledger_ st' -> extended (disk st) (disk st') v w' -> has_fees (disk st') (fees_ st') ->
  ad_tree (account_db (disk st')) = tree_ st' -> last_proof (disk st') = proof_ st' -> completed_ctxs_ (context_manager_ st') = ∅ -> chain_of (vs ++ [v]) st'.
Proof.
  intros Hc Hr Hh Hp Hn Ew El Hx Hf Ht Hl Hm. pose proof (ch_view _ _ Hc) as Hw. destruct (CheckValueHelper_spec _ _ Hh) as (Hq & Hprev & _). cbn in Hq, Hprev.
  rewrite (chain_seq vs) in Hq by done. split; try done.
  - rewrite replay_app, Hw. cbn. by rewrite Hn, Ew.
  - intros k v' Hk. pose proof (lookup_lt_Some _ _ _ Hk) as Hlt. rewrite length_app in Hlt. cbn in Hlt. destruct (decide (k = length vs)) as [->|Hne].
    + rewrite lookup_app_r, Nat.sub_diag in Hk by lia. injection Hk as <-. exists (view st). rewrite view_at_app, view_at_all by lia. split_and!; [done|lia|done| |by eexists].
      rewrite <- Hh. apply CheckValueHelper_cong; [done|done|]. intros _ _. apply env_at_app. lia.
    + rewrite lookup_app_l in Hk by lia. apply link_app; [lia|]. by apply (ch_links _ _ Hc).
  - intros k v' w0 Hk HS Hw0. rewrite length_app in HS. cbn in HS. assert (k = length vs) as -> by lia.
    rewrite lookup_app_r, Nat.sub_diag in Hk by lia. injection Hk as <-. rewrite view_at_app, view_at_all, Hw in Hw0 by lia. by injection Hw0 as <-.
  - apply (stored_extend vs (disk st) _ (view st) v w'); [apply Hc|done|done|lia|done|done].
  - rewrite length_app. cbn. replace (Z.of_nat (length vs + 1) + 1) with (ledger_seq v) by lia. done.
  - intros hash x E. by rewrite Hm, lookup_empty in E.
Qed.

(** Closing the next ledger leaves no context. *)
Lemma contexts_done vs st v : chain_of vs st -> ledger_seq v = Z.of_nat (length vs) + 2 -> completed_ctxs_ (ReopensesameCompleted (ledger_seq v) (context_manager_ st)) = ∅.
Proof.
  intros Hc Hq. apply map_empty. intros hash. cbn. apply eq_None_not_Some. intros [x Hx]. apply map_lookup_filter_Some in Hx as [Hx Hlt]. cbn in Hlt.
  destruct (ch_contexts _ _ Hc _ _ Hx) as (_ & E & _). rewrite (chain_seq vs) in E by done. lia.
Qed.

Lemma chain_close vs st v c proof y m : chain_of vs st -> is_s64 (ledger_seq v) ->
  CheckValueHelper (env_at vs (length vs) (view st)) v (-1) = CHECK_VALUE_VALID -> certified (view st) v proof ->
  spec_close (view st) v = Some (next_view (view st) v c) ->
  chain_of (vs ++ [v]) (MkLedgerManager (closing_header (view st) v c) (closing_header (view st) v c) (vw_tree (next_view (view st) v c))
    (vw_validators (next_view (view st) v c)) (vw_fees (next_view (view st) v c)) proof m y (ReopensesameCompleted (ledger_seq v) (context_manager_ st))
    (write_disk (view st) v c proof (disk st))).
Proof.
  intros Hc Hr Hh Hp Hn. destruct (CheckValueHelper_spec _ _ Hh) as (Hq & _). cbn in Hq. rewrite (chain_seq vs) in Hq by done.
  apply (chain_extend vs st v (next_view (view st) v c)); try done.
  - apply write_extended; [|done]. by apply (stored_validators vs); apply Hc.
  - apply account_db_fees; [done|]. cbn. destruct (new_fees (view st) c).1 eqn:Eb; [by right|left]. apply Hc.
  - apply account_db_proof.
  - apply (contexts_done vs); [done|lia].
Qed.
End Chain.
