(* ===== verification/LedgerSync.v ===== *)
(** * The life of a node

    What the operations of [LedgerManager] do to the chain of a node: closing, synchronising,
    executing in advance, starting; and the reachable nodes as a step relation. *)
From S2P Require Import Prelude Strings OrdMap PbftData Pbft TxQueue LedgerUpgrade Glue LedgerContext LedgerManager LedgerManagerInv LedgerChain.

Section Sync.
Context `{PbftParams} `{UpgradeParams} `{QueueParams} `{GlueParams} `{Executor} `{MP : ManagerParams} `{!ExecutorLaws}.
Implicit Types (st : LedgerManager) (d : Disk) (v : ConsensusValue) (w : View) (vs : list ConsensusValue) (k n : nat).

(** An int64 field of a message. *)
Definition typed v : Prop := is_s64 (ledger_seq v).

(** ** Steps *)

Inductive step : LedgerManager -> LedgerManager -> Prop :=
| step_preprocess started timeout n now v propose st : ledger_seq v = hd_seq (last_closed_ledger_ st) + 1 ->
    step st (set_contexts (SyncPreProcess_ctx started timeout n now (view st) v propose (context_manager_ st)).2 st)
| step_contexts current_time now st : step st (set_contexts (OnTimer_ctx current_time now (context_manager_ st)).2 st)
| step_consent n now v proof st : typed v -> undisputed st v -> step st (OnConsent n now v proof st).1.2
| step_receive n now ledgers peer st : Forall typed (lg_values ledgers) -> Forall (undisputed st) (lg_values ledgers) ->
    step st (OnReceiveLedgers n now ledgers peer st).1
| step_timer current_time active st : step st (OnTimer_manager current_time active st).1
| step_restart st st' out : Initialize_manager (disk st) = Some (st', out) -> step st st'.

Inductive reach : LedgerManager -> Prop :=
| reach_start st out : Initialize_manager no_disk = Some (st, out) -> reach st
| reach_step st st' : reach st -> step st st' -> reach st'.

Context (parse_value : forall x, ParseValue (SerializeValue x) = Some x) (parse_header : forall x, ParseHeader (SerializeHeader x) = x).
Context (parse_validators : forall x, ParseValidators (SerializeValidators x) = Some x) (parse_fees : forall x, ParseFees (SerializeFees x) = Some x).
Context (hash_inj : Inj (=) (=) Hash).

(** ** Frames *)

Lemma chain_sync vs y st : chain_of vs st -> chain_of vs (set_sync y st).
Proof. intros [? ? ? ? ? ? ? ? ? ?]. by split. Qed.

Lemma chain_peers vs m st : chain_of vs st -> chain_of vs (set_peers m st).
Proof. apply chain_sync. Qed.

Lemma chain_max vs x st : chain_of vs st -> chain_of vs (set_chain_max x st).
Proof. intros [? ? ? ? ? ? ? ? ? ?]. by split. Qed.

Lemma chain_contexts vs m st : chain_of vs st -> (forall hash c, completed_ctxs_ m !! hash = Some c -> context_ok st hash c) -> chain_of vs (set_contexts m st).
Proof. intros [? ? ? ? ? ? ? ? ? ?] Hm. by split. Qed.

Lemma undisputed_sub st st' v : completed_ctxs_ (context_manager_ st') ⊆ completed_ctxs_ (context_manager_ st) -> undisputed st v -> undisputed st' v.
Proof. intros Hs Hu c Hx. apply Hu. by eapply lookup_weaken. Qed.

(** ** Closing *)

Lemma CloseLedger_chain vs st n v proof st' out : chain_of vs st -> typed v -> undisputed st v -> CloseLedger n v proof st = Some (st', out) ->
  chain_of (vs ++ [v]) st' /\ sync_ st' = sync_ st /\ completed_ctxs_ (context_manager_ st') ⊆ completed_ctxs_ (context_manager_ st).
Proof.
  intros Hc Ht Hu. unfold CloseLedger. destruct (CheckValueAndProof _ _ _) eqn:Ep; [|done]. cbn [negb].
  apply (CheckValueAndProof_spec parse_value parse_validators vs) in Ep as [Hh Hp]; [|done].
  destruct (SyncProcess _ _ _ _) as [c|] eqn:Ec; [|done]. intros [= <- _].
  pose proof (SyncProcess_spec parse_value hash_inj vs st v n c Hc Hu Ec) as Hn. split_and!; [|done|apply map_filter_subseteq].
  by apply (chain_close parse_value parse_header hash_inj).
Qed.

Lemma CloseLedger_run vs st n v proof w : chain_of vs st -> typed v -> undisputed st v ->
  CheckValueHelper (env_at vs (length vs) (view st)) v (-1) = CHECK_VALUE_VALID -> certified (view st) v proof -> spec_close (view st) v = Some w ->
  exists st' out, CloseLedger n v proof st = Some (st', out).
Proof.
  intros Hc Ht Hu Hh Hp Hn. unfold CloseLedger. rewrite (proj2 (CheckValueAndProof_spec parse_value parse_validators vs st v proof Hc)) by done. cbn [negb].
  unfold SyncProcess. destruct (completed_ctxs_ _ !! _); [by do 2 eexists|]. rewrite (follow_again n 0). unfold spec_close in Hn.
  destruct (exec_result_ _); [by do 2 eexists|done].
Qed.

Lemma OnConsent_chain vs st n now v proof : chain_of vs st -> typed v -> undisputed st v ->
  chain_of vs (OnConsent n now v proof st).1.2 \/ chain_of (vs ++ [v]) (OnConsent n now v proof st).1.2.
Proof.
  intros Hc Ht Hu. unfold OnConsent. destruct (_ <=? _); [by left|]. destruct (_ =? _); [|by left].
  destruct (CloseLedger _ _ _ _) as [[st' out]|] eqn:E; cbn; [right|left; by apply chain_sync].
  by apply (CloseLedger_chain vs) in E as [? _]; [|by apply chain_sync|..].
Qed.

Lemma close_values_chain vs n proof l valid st r st' out : chain_of vs st -> Forall typed l -> Forall (undisputed st) l ->
  close_values n proof valid l st = (r, st', out) -> exists vs', chain_of (vs ++ vs') st' /\ vs' `sublist_of` l.
Proof.
  revert vs valid st r st' out. induction l as [|v l IH]; intros vs valid st r st' out Hc Ht Hu; cbn [close_values].
  { intros [= <- <- <-]. exists []. by rewrite app_nil_r. }
  apply Forall_cons in Ht as [Ht Htl], Hu as [Hu Hul]. destruct (_ =? _).
  - destruct (CloseLedger _ _ _ _) as [[st1 o]|] eqn:E; [|intros [= <- <- <-]; exists []; rewrite app_nil_r; split; [done|apply sublist_nil_l]].
    destruct (CloseLedger_chain vs _ _ _ _ _ _ Hc Ht Hu E) as (Hc1 & _ & Hsub). destruct (close_values n proof true l st1) as [[r1 st2] o2] eqn:E2. intros [= <- <- <-].
    destruct (IH _ _ _ _ _ _ Hc1 Htl (Forall_impl _ _ _ Hul (fun v' => undisputed_sub st st1 v' Hsub)) E2) as (vs' & Hc2 & Hs). exists (v :: vs'). rewrite <- app_assoc in Hc2. split; [done|by constructor].
  - intros E. destruct (IH _ _ _ _ _ _ Hc Htl Hul E) as (vs' & ? & ?). exists vs'. split; [done|by constructor].
Qed.

Lemma RequestConsensusValues_chain vs pid gl time st : chain_of vs st -> chain_of vs (RequestConsensusValues pid gl time st).1.
Proof. apply chain_sync. Qed.

Lemma OnReceiveLedgers_chain vs st n now ledgers peer : chain_of vs st -> Forall typed (lg_values ledgers) -> Forall (undisputed st) (lg_values ledgers) ->
  exists vs', chain_of (vs ++ vs') (OnReceiveLedgers n now ledgers peer st).1 /\ vs' `sublist_of` lg_values ledgers.
Proof.
  intros Hc Ht Hu. assert (Hsame : forall st', chain_of vs st' -> exists vs', chain_of (vs ++ vs') st' /\ vs' `sublist_of` lg_values ledgers)
    by (intros st' ?; exists []; rewrite app_nil_r; split; [done|apply sublist_nil_l]).
  unfold OnReceiveLedgers. destruct (negb _); [by apply Hsame|]. destruct (head _) as [first|]; [|by apply Hsame]. destruct (last _) as [final|]; [|by apply Hsame].
  destruct (om_find _ _) as [itm|]; [|by apply Hsame]. cbv zeta. destruct (_ || _); [by apply Hsame, chain_peers|].
  destruct (close_values _ _ _ _ _) as [[r st1] out] eqn:E.
  apply (close_values_chain vs) in E as (vs' & Hc1 & Hs); [|by apply chain_peers|done|done]. exists vs'. split; [|done].
  destruct r as [[]|]; [|done|by apply chain_peers]. destruct (_ <=? _); cbn [fst RequestConsensusValues]; (destruct (_ <? _); [apply chain_max|]); by try apply chain_sync.
Qed.

Lemma request_all_chain vs l gl time st : chain_of vs st -> chain_of vs (request_all l gl time st).1.
Proof.
  revert st. induction l as [|pid l IH]; intros st Hc; [done|]. cbn [request_all RequestConsensusValues].
  specialize (IH _ (chain_sync vs (MkSync time (om_set (peers_ (sync_ st)) pid (MkSyncStat time gl (probation_ (default SyncStat0 (om_find (peers_ (sync_ st)) pid)))))) st Hc)).
  by destruct (request_all l gl time _).
Qed.

Lemma OnTimer_chain vs now active st : chain_of vs st -> chain_of vs (OnTimer_manager now active st).1.
Proof. intros Hc. unfold OnTimer_manager. destruct (_ <=? _); [done|]. by apply request_all_chain, chain_sync. Qed.

(** ** Executing in advance *)

Lemma preprocess_chain vs started timeout n now v propose st : chain_of vs st -> ledger_seq v = hd_seq (last_closed_ledger_ st) + 1 ->
  chain_of vs (set_contexts (SyncPreProcess_ctx started timeout n now (view st) v propose (context_manager_ st)).2 st).
Proof.
  intros Hc Hs. apply chain_contexts; [done|]. intros hash c. unfold SyncPreProcess_ctx.
  destruct (0 <? _); [by apply (ch_contexts _ _ Hc)|]. destruct started; [cbn [negb]|by apply (ch_contexts _ _ Hc)].
  set (x := MkContext _ _ _ _ _ _). intros Hx. assert (Hd : completed_ctxs_ (Do now x (MkManager (running_ctxs_ (context_manager_ st)) (completed_ctxs_ (context_manager_ st)) (delete_ctxs_ (context_manager_ st)) (S (next_ctx (context_manager_ st))))) !! hash = Some c) by (destruct timeout; exact Hx).
  revert Hd. clear Hx. unfold Do. destruct (exec_result_ (ctx_run x)) eqn:Er; cbn [completed_ctxs_ opensesameRunningToComplete opensesameRunningToDelete]; [|by apply (ch_contexts _ _ Hc)].
  destruct (completed_ctxs_ _ !! ctx_hash x); [by apply (ch_contexts _ _ Hc)|].
  destruct (decide (hash = ctx_hash x)) as [->|Hne]; [|rewrite lookup_insert_ne by done; by apply (ch_contexts _ _ Hc)]. rewrite lookup_insert_eq. intros [= <-].
  split_and!; [done|done|done|by destruct propose|by exists n].
Qed.

(** ** Starting *)

Lemma view_version vs k w : (forall k v, vs !! k = Some v -> link vs k v) -> (k <= length vs)%nat -> view_at vs k = Some w -> hd_version (vw_header w) <= LEDGER_VERSION.
Proof.
  intros Hl. revert w. induction k as [|k IH]; intros w Hk Hw; [by injection Hw as <-|].
  destruct (lookup_lt_is_Some_2 vs k) as [v Hv]; [lia|]. destruct (Hl k v Hv) as (w0 & Hw0 & _ & _ & Hc & _). specialize (IH w0 ltac:(lia) Hw0).
  rewrite (view_at_succ vs k v w0) in Hw by done. unfold spec_close in Hw. destruct (exec_result_ _); [|done]. injection Hw as <-.
  apply CheckValueHelper_spec in Hc as (_ & _ & Hu & _). cbn. unfold new_version. destruct (ledger_upgrade v) as [u|]; [|done]. destruct (Z.ltb_spec 0 (new_ledger_version u)); [|done].
  unfold check_upgrade in Hu. destruct (Z.eqb_spec (new_ledger_version u) 0); [lia|]. cbn [negb] in Hu. rewrite !andb_true_iff, !negb_true_iff in Hu.
  destruct Hu as [[_ Hu%Z.ltb_ge] _]. done.
Qed.

(** A node that holds the view [w] with nothing else in memory. *)
Definition started w (proof : string) d : LedgerManager :=
  MkLedgerManager (vw_header w) (vw_header w) (vw_tree w) (vw_validators w) (vw_fees w) proof 0 (MkSync 0 []) no_contexts d.

Lemma view_started w proof d : view (started w proof d) = w.
Proof. by destruct w. Qed.

Lemma load_chain vs d w : stored vs d -> is_s64 (Z.of_nat (length vs) + 1) -> replay genesis_view vs = Some w -> load_or_create d = Some (vw_header w, d).
Proof.
  intros Hs Hr Hw. unfold load_or_create, GetMaxLedger. rewrite (st_account_seq _ _ Hs), (st_ledger_seq _ _ Hs), text_int_text by done.
  destruct (st_headers _ _ Hs (length vs) ltac:(lia)) as (w' & E & Hl & _). rewrite view_at_all, Hw in E. injection E as <-. rewrite Hl. done.
Qed.

Lemma repair_chain vs d : stored vs d -> is_s64 (Z.of_nat (length vs) + 1) -> CheckAndRepairLedgerSeq d = Some d.
Proof.
  intros Hs Hr. unfold CheckAndRepairLedgerSeq. destruct OS_LINUX; [done|]. by rewrite (st_account_seq _ _ Hs), (st_ledger_seq _ _ Hs), Z.eqb_refl.
Qed.

(** Starting from databases that hold a chain, after any repair. *)
Lemma Initialize_stored vs d d0 w : CheckAndRepairLedgerSeq d0 = Some d -> stored vs d -> is_s64 (Z.of_nat (length vs) + 1) -> replay genesis_view vs = Some w ->
  (forall k v, vs !! k = Some v -> link vs k v) -> has_fees d (vw_fees w) -> ad_tree (account_db d) = vw_tree w ->
  Initialize_manager d0 = Some (started w (last_proof d) d, [PostUpdateValidators (vw_validators w) (last_proof d) false]).
Proof.
  intros Hd Hs Hr Hw Hl Hf Ht. destruct (replay_sealed _ _ _ genesis_sealed Hw) as (E1 & E2 & E3). unfold Initialize_manager. rewrite Hd. cbn [mbind option_bind].
  rewrite (load_chain vs d w) by done. cbn [mbind option_bind]. rewrite E2, E3.
  destruct (st_headers _ _ Hs (length vs) ltac:(lia)) as (w' & E & _ & Hv). rewrite view_at_all, Hw in E. injection E as <-.
  rewrite (has_validators_get parse_validators) by done. cbn [mbind option_bind]. rewrite (has_fees_get parse_fees) by done. cbn [mbind option_bind].
  rewrite Ht, E1, bool_decide_true by done. cbn [negb]. rewrite <- view_at_all in Hw. pose proof (view_version vs (length vs) w Hl ltac:(lia) Hw) as Hver.
  destruct (Z.ltb_spec LEDGER_VERSION (hd_version (vw_header w))); [lia|done].
Qed.

Lemma Initialize_chain vs st : chain_of vs st ->
  Initialize_manager (disk st) = Some (started (view st) (proof_ st) (disk st), [PostUpdateValidators (validators_ st) (proof_ st) false]).
Proof.
  intros Hc. rewrite <- (ch_last _ _ Hc). apply (Initialize_stored vs); try apply Hc. apply (repair_chain vs); apply Hc.
Qed.

Lemma started_chain vs st : chain_of vs st -> chain_of vs (started (view st) (proof_ st) (disk st)).
Proof. intros [? ? ? ? ? ? ? ? ? ?]. split; try done. Qed.

Lemma genesis_stored d : CreateGenesisAccount = Some d -> stored [] d /\ has_fees d genesis_fees /\ ad_tree (account_db d) = genesis_tree /\ last_proof d = ""%string.
Proof.
  unfold CreateGenesisAccount. case_bool_decide; [done|]. intros E. apply (inj Some) in E. subst d.
  assert (Hk : forall (key : string) m, key <> fees_key (Hash (SerializeFees genesis_fees))
     -> put_all [(KEY_LEDGER_SEQ, "1"%string); (KEY_GENE_ACCOUNT, genesis_account); ValidatorsSet genesis_set; FeesConfigSet genesis_fees] m !! key
        = put_all [(KEY_LEDGER_SEQ, "1"%string); (KEY_GENE_ACCOUNT, genesis_account); ValidatorsSet genesis_set] m !! key).
  { intros key m Hk. cbn. by rewrite lookup_insert_ne. }
  split_and!; [split| |done|].
  - intros k Hle. cbn in Hle. assert (k = 0%nat) as -> by lia. exists genesis_view. split_and!; [done| |].
    + unfold LoadFromDb. cbn [ledger_db]. rewrite AddToDb_lookup by auto with ledger_keys. cbn [put_all foldl fst snd]. change (Z.of_nat 0 + 1) with (hd_seq genesis_header).
      rewrite lookup_insert_eq. cbn. by rewrite parse_header.
    + unfold has_validators. cbn [account_db ad_kv]. rewrite Hk by done. cbn. by rewrite lookup_insert_eq.
  - done.
  - cbn [ledger_db]. rewrite AddToDb_lookup by auto with ledger_keys. cbn [put_all foldl fst snd]. rewrite lookup_insert_ne by done. by rewrite lookup_insert_eq.
  - cbn [account_db ad_kv]. rewrite Hk by done. cbn. rewrite !lookup_insert_ne by done. by rewrite lookup_insert_eq.
  - unfold has_fees. cbn [account_db ad_kv]. cbn. by rewrite lookup_insert_eq.
  - unfold last_proof. cbn [account_db ad_kv]. rewrite Hk by done. cbn. by rewrite !lookup_insert_ne by done.
Qed.

Lemma Initialize_genesis st out : Initialize_manager no_disk = Some (st, out) -> chain_of [] st.
Proof.
  unfold Initialize_manager. assert (CheckAndRepairLedgerSeq no_disk = Some no_disk) as -> by (unfold CheckAndRepairLedgerSeq; by destruct OS_LINUX).
  cbn [mbind option_bind]. unfold load_or_create. cbn [no_disk account_db ad_kv]. rewrite lookup_empty. destruct CreateGenesisAccount as [d|] eqn:Ed; [|done].
  destruct (genesis_stored d Ed) as (Hs & Hf & Ht & Hp). cbn [mbind option_bind].
  destruct (st_headers _ _ Hs 0 ltac:(done)) as (w & [= <-] & _ & Hv). cbn [genesis_view vw_validators] in Hv.
  assert (ValidatorsGet d (hd_validators_hash genesis_header) = Some genesis_set) as -> by (by apply (has_validators_get parse_validators)).
  assert (FeesConfigGet d (hd_fees_hash genesis_header) = Some genesis_fees) as -> by (by apply (has_fees_get parse_fees)).
  cbn [mbind option_bind]. destruct (negb _); [done|]. destruct (_ <? _); [done|]. intros [= <- _].
  split; try done. cbn. by rewrite Ht.
Qed.

(** ** Reachable nodes have a chain *)

Lemma step_chain vs st st' : chain_of vs st -> step st st' -> exists vs', chain_of (vs ++ vs') st'.
Proof.
  intros Hc Hs. assert (Hsame : chain_of vs st' -> exists vs', chain_of (vs ++ vs') st') by (exists []; by rewrite app_nil_r).
  destruct Hs as [? ? ? ? ? ? ? E|? ? ?|n now v proof st Ht Hu|n now l peer st Ht Hu|? ? ?|st st' out E].
  - by apply Hsame, preprocess_chain.
  - apply Hsame, chain_contexts; [done|]. apply (ch_contexts _ _ Hc).
  - destruct (OnConsent_chain vs st n now v proof Hc Ht Hu); [by apply Hsame|by exists [v]].
  - destruct (OnReceiveLedgers_chain vs st n now l peer Hc Ht Hu) as (vs' & ? & _). by exists vs'.
  - by apply Hsame, OnTimer_chain.
  - apply Hsame. rewrite (Initialize_chain vs) in E by done. injection E as <- _. by apply started_chain.
Qed.

Lemma reach_chain st : reach st -> exists vs, chain_of vs st.
Proof.
  induction 1 as [st out E|st st' _ [vs Hc] Hs]; [exists []; by eapply Initialize_genesis|]. destruct (step_chain vs st st' Hc Hs) as [vs' ?]. by eexists.
Qed.
End Sync.
