(* ===== verification/LedgerCatchUp.v ===== *)
(** * Catching up

    A node that is behind asks a peer for the next values and closes their ledgers; rounds of it
    end with the ledger of the peer. *)
From S2P Require Import Prelude Strings OrdMap PbftData Pbft TxQueue LedgerUpgrade Glue LedgerContext LedgerManager LedgerManagerInv LedgerChain LedgerSync.

Section CatchUp.
Context `{PbftParams} `{UpgradeParams} `{QueueParams} `{GlueParams} `{Executor} `{MP : ManagerParams} `{!ExecutorLaws}.
Context (parse_value : forall x, ParseValue (SerializeValue x) = Some x) (parse_header : forall x, ParseHeader (SerializeHeader x) = x).
Context (parse_validators : forall x, ParseValidators (SerializeValidators x) = Some x) (parse_fees : forall x, ParseFees (SerializeFees x) = Some x).
Context (hash_inj : Inj (=) (=) Hash).
Implicit Types (st sv cl : LedgerManager) (d : Disk) (v : ConsensusValue) (w : View) (vs : list ConsensusValue) (k n cnt : nat).

(** ** The values of a chain *)

Lemma chain_view_at vs st k : chain_of vs st -> (k <= length vs)%nat -> exists w, view_at vs k = Some w.
Proof. intros Hc Hk. destruct (st_headers _ _ (ch_stored _ _ Hc) k Hk) as (w & Hw & _). by exists w. Qed.

Lemma chain_value_seq vs st k v : chain_of vs st -> vs !! k = Some v -> ledger_seq v = Z.of_nat k + 2 /\ typed v.
Proof.
  intros Hc Hv. destruct (ch_links _ _ Hc k v Hv) as (_ & _ & E & _). split; [done|]. pose proof (ch_range _ _ Hc) as Hr. apply lookup_lt_Some in Hv.
  unfold typed, is_s64, int64_min, int64_max in *. lia.
Qed.

Lemma view_at_take vs k j : (j <= k)%nat -> view_at (take k vs) j = view_at vs j.
Proof. intros Hj. unfold view_at. by rewrite take_take, Nat.min_l. Qed.

(** The next value carries the proof of a value. *)
Lemma next_certifies vs st k v v' w : chain_of vs st -> vs !! k = Some v -> vs !! S k = Some v' -> view_at vs k = Some w -> certified w v (previous_proof v').
Proof.
  intros Hc Hv Hv' Hw. destruct (ch_links _ _ Hc _ _ Hv') as (w' & Hw' & Hs' & _ & Hh & _). destruct (chain_value_seq _ _ _ _ Hc Hv) as [Hs _].
  pose proof Hw' as Hn. rewrite (view_at_succ vs k v w) in Hn by done. unfold spec_close in Hn. destruct (exec_result_ _); [|done]. injection Hn as <-.
  apply CheckValueHelper_spec in Hh as (_ & _ & _ & Hh). cbn in Hh. rewrite Hs, Hs' in Hh. destruct Hh as (set & Hset & Hp); [lia|].
  destruct (Z.leb_spec 1 (Z.of_nat (S k) + 2 - 2)), (Z.leb_spec (Z.of_nat (S k) + 2 - 2) (Z.of_nat (S k) + 1)); try lia. cbn in Hset.
  replace (Z.to_nat _) with k in Hset by lia. rewrite Hw in Hset. cbn in Hset. injection Hset as <-. exact Hp.
Qed.

Lemma load_values_chain vs d k cnt : stored vs d -> (k + cnt <= length vs)%nat -> load_values d (Z.of_nat k + 2) cnt = Some (take cnt (drop k vs)).
Proof.
  intros Hs. revert k. induction cnt as [|cnt IH]; intros k Hk; [done|]. destruct (lookup_lt_is_Some_2 vs k) as [v Hv]; [lia|]. cbn [load_values].
  rewrite (st_values _ _ Hs k v Hv). cbn [mbind option_bind]. rewrite (drop_S vs v k) by done. replace (Z.of_nat k + 2 + 1) with (Z.of_nat (S k) + 2) by lia.
  rewrite IH by lia. done.
Qed.

(** ** The peer that has the values *)

(** The proof that goes with values up to ledger [e]. *)
Definition reply_proof vs sv (e : nat) : string :=
  if decide (e = length vs) then proof_ sv else from_option previous_proof ""%string (vs !! e).

Lemma reply_certified vs sv e v w : chain_of vs sv -> vs !! e = Some v -> view_at vs e = Some w -> certified w v (reply_proof vs sv (S e)).
Proof.
  intros Hc Hv Hw. pose proof (lookup_lt_Some _ _ _ Hv) as Hlt. unfold reply_proof. case_decide as E; [by eapply (ch_proof _ _ Hc)|].
  destruct (lookup_lt_is_Some_2 vs (S e)) as [v' Hv']; [lia|]. rewrite Hv'. cbn. by apply (next_certifies vs sv e v v' w).
Qed.

Lemma OnRequestLedgers_run vs sv client gl k cnt : chain_of vs sv -> gl_chain_id gl = self_chain_id -> gl_begin gl = Z.of_nat k + 2 -> gl_end gl = Z.of_nat (k + cnt) + 1 ->
  (1 <= cnt <= 5)%nat -> (k + cnt <= length vs)%nat ->
  OnRequestLedgers gl client sv = [SendLedgers client (MkLedgers (take cnt (drop k vs)) (Z.of_nat (length vs) + 1) self_chain_id (reply_proof vs sv (k + cnt)))].
Proof.
  intros Hc Hi Hb He Hcnt Hle. unfold OnRequestLedgers. rewrite Hi, Z.eqb_refl, Hb, He, (chain_seq vs) by done. cbn [negb].
  replace (Z.of_nat (k + cnt) + 1 - (Z.of_nat k + 2)) with (Z.of_nat cnt - 1) by lia.
  rewrite !s64_id by (unfold is_s64, int64_min, int64_max; rewrite ?s64_id by (unfold is_s64, int64_min, int64_max; lia); lia).
  destruct (Z.ltb_spec 5 (Z.of_nat cnt - 1 + 1)); [lia|]. destruct (Z.ltb_spec (Z.of_nat cnt - 1) 0); [lia|]. destruct (Z.ltb_spec (Z.of_nat (length vs) + 1) (Z.of_nat (k + cnt) + 1)); [lia|].
  replace (Z.to_nat (Z.of_nat cnt - 1 + 1)) with cnt by lia. rewrite (load_values_chain vs) by first [apply Hc|done]. do 3 f_equal. unfold reply_proof.
  destruct (Z.eqb_spec (Z.of_nat (k + cnt) + 1) (Z.of_nat (length vs) + 1)); [by rewrite decide_True by lia|]. rewrite decide_False by lia.
  destruct (lookup_lt_is_Some_2 vs (k + cnt)) as [v Hv]; [lia|]. replace (Z.of_nat (k + cnt) + 1 + 1) with (Z.of_nat (k + cnt) + 2) by lia.
  by rewrite (st_values _ _ (ch_stored _ _ Hc) _ _ Hv), Hv.
Qed.

(** ** The node that is behind *)

(** It can close the next ledger of the chain. *)
Lemma close_next vs sv cl k v n proof w : chain_of vs sv -> chain_of (take k vs) cl -> vs !! k = Some v -> undisputed cl v -> view_at vs k = Some w -> certified w v proof ->
  exists cl' out, CloseLedger n v proof cl = Some (cl', out) /\ chain_of (take (S k) vs) cl' /\ sync_ cl' = sync_ cl
    /\ completed_ctxs_ (context_manager_ cl') ⊆ completed_ctxs_ (context_manager_ cl).
Proof.
  intros Hs Hc Hv Hu Hw Hp. pose proof (lookup_lt_Some _ _ _ Hv) as Hlt. destruct (chain_value_seq _ _ _ _ Hs Hv) as [Eq Ht].
  assert (view cl = w) as Ew by (pose proof (ch_view _ _ Hc) as E; unfold view_at in Hw; congruence).
  destruct (chain_view_at vs sv (S k) Hs ltac:(lia)) as [w' Hw']. pose proof Hw' as Hn. rewrite (view_at_succ vs k v w) in Hn by done.
  destruct (CloseLedger_run parse_value parse_validators (take k vs) cl n v proof w') as (cl' & out & E); [done|done|done| |by rewrite Ew..|].
  { destruct (ch_links _ _ Hs k v Hv) as (w0 & Hw0 & _ & _ & Hh & _). assert (w0 = w) as -> by congruence. rewrite <- Hh, Ew, length_take, Nat.min_l by lia.
    apply CheckValueHelper_cong; [done|done|]. intros _ _. cbn. destruct (Z.leb_spec 1 (ledger_seq v - 2)), (Z.leb_spec (ledger_seq v - 2) (Z.of_nat k + 1)); cbn; [|done..].
    by rewrite view_at_take by lia. }
  exists cl', out. split; [done|]. destruct (CloseLedger_chain parse_value parse_header parse_validators hash_inj _ _ _ _ _ _ _ Hc Ht Hu E) as (? & ? & ?).
  by rewrite (take_S_r vs k v).
Qed.

Lemma close_values_run vs sv n proof cnt : chain_of vs sv -> forall k cl valid, chain_of (take k vs) cl -> (k + cnt <= length vs)%nat ->
  Forall (undisputed cl) (take cnt (drop k vs)) ->
  (forall v w, cnt <> 0%nat -> vs !! (k + cnt - 1)%nat = Some v -> view_at vs (k + cnt - 1) = Some w -> certified w v proof) ->
  exists cl' out, close_values n proof valid (take cnt (drop k vs)) cl = (Some (valid || (0 <? cnt)%nat), cl', out) /\ chain_of (take (k + cnt) vs) cl' /\ sync_ cl' = sync_ cl
    /\ completed_ctxs_ (context_manager_ cl') ⊆ completed_ctxs_ (context_manager_ cl).
Proof.
  intros Hs. induction cnt as [|cnt IH]; intros k cl valid Hc Hle Hu Hp.
  { exists cl, []. rewrite Nat.add_0_r, orb_false_r. done. }
  destruct (lookup_lt_is_Some_2 vs k) as [v Hv]; [lia|]. destruct (chain_view_at vs sv k Hs ltac:(lia)) as [w Hw].
  rewrite (drop_S vs v k) in * by done. cbn [take close_values] in *. apply Forall_cons in Hu as [Hu Hul]. destruct (chain_value_seq _ _ _ _ Hs Hv) as [Eq _].
  pose proof (chain_seq _ _ Hc) as Hq. rewrite length_take, Nat.min_l in Hq by lia.
  destruct (Z.eqb_spec (ledger_seq v) (hd_seq (last_closed_ledger_ cl) + 1)); [|lia].
  assert (Hpv : certified w v (match take cnt (drop (S k) vs) with v' :: _ => previous_proof v' | [] => proof end)).
  { destruct cnt as [|cnt]; [cbn; apply Hp; [done|by replace (k + 1 - 1)%nat with k by lia..]|].
    destruct (lookup_lt_is_Some_2 vs (S k)) as [v' Hv']; [lia|]. rewrite (drop_S vs v' (S k)) by done. cbn. by apply (next_certifies vs sv k v v' w). }
  destruct (close_next vs sv cl k v n _ w Hs Hc Hv Hu Hw Hpv) as (cl1 & o1 & E1 & Hc1 & Hy1 & Hx1). rewrite E1.
  destruct (IH (S k) cl1 true Hc1 ltac:(lia)) as (cl2 & o2 & E2 & Hc2 & Hy2 & Hx2).
  - eapply Forall_impl; [exact Hul|]. intros v' Hv'. by eapply undisputed_sub.
  - intros v' w' Hne Hv' Hw'. replace (S k + cnt - 1)%nat with (k + S cnt - 1)%nat in * by lia. by apply Hp.
  - rewrite E2. exists cl2, (o1 ++ o2). cbn [orb]. rewrite orb_true_r, Nat.add_succ_r. split_and!; [done|done|congruence|by etrans].
Qed.

(** ** Rounds *)

(** The open request of [cl] to [server] is for [cnt] values after the first [k]. *)
Definition asks cl (server : Z) k cnt : Prop :=
  exists p, om_find (peers_ (sync_ cl)) server = Some p /\ gl_chain_id (gl_ p) = self_chain_id /\ gl_begin (gl_ p) = Z.of_nat k + 2 /\ gl_end (gl_ p) = Z.of_nat (k + cnt) + 1.

(** A round: the open request is answered and the answer is received. *)
Definition exchange n (now server client : Z) sv cl : LedgerManager :=
  match om_find (peers_ (sync_ cl)) server with
  | Some p => match OnRequestLedgers (gl_ p) client sv with
              | SendLedgers _ l :: _ => (OnReceiveLedgers n now l server cl).1
              | _ => cl
              end
  | None => cl
  end.

Lemma undisputed_peers m cl v : undisputed cl v -> undisputed (set_peers m cl) v.
Proof. done. Qed.

Lemma exchange_run vs sv cl n now server client k cnt : chain_of vs sv -> chain_of (take k vs) cl -> asks cl server k cnt -> (1 <= cnt <= 5)%nat -> (k + cnt <= length vs)%nat ->
  Forall (undisputed cl) vs ->
  let cl' := exchange n now server client sv cl in
  chain_of (take (k + cnt) vs) cl' /\ ((k + cnt < length vs)%nat -> asks cl' server (k + cnt) (Nat.min 5 (length vs - (k + cnt)))) /\ Forall (undisputed cl') vs.
Proof.
  intros Hs Hc (p & Hp & Hi & Hb & He) Hcnt Hle Hu. unfold exchange. rewrite Hp, (OnRequestLedgers_run vs sv client (gl_ p) k cnt) by done.
  unfold OnReceiveLedgers. cbn [lg_chain_id lg_values lg_proof lg_max_seq]. rewrite Z.eqb_refl. cbn [negb].
  destruct (lookup_lt_is_Some_2 vs k) as [v Hv]; [lia|]. destruct (lookup_lt_is_Some_2 vs (k + cnt - 1)) as [v' Hv']; [lia|].
  assert (head (take cnt (drop k vs)) = Some v) as -> by (rewrite (drop_S vs v k) by done; by destruct cnt; [lia|]).
  assert (last (take cnt (drop k vs)) = Some v') as ->.
  { rewrite last_lookup, length_take, length_drop, Nat.min_l by lia. rewrite lookup_take_lt by lia. rewrite lookup_drop. by replace (k + pred cnt)%nat with (k + cnt - 1)%nat by lia. }
  rewrite Hp. cbv zeta. destruct (chain_value_seq _ _ _ _ Hs Hv) as [-> _], (chain_value_seq _ _ _ _ Hs Hv') as [-> _]. rewrite Hb, He.
  destruct (Z.eqb_spec (Z.of_nat k + 2) (Z.of_nat k + 2)); [|lia]. destruct (Z.eqb_spec (Z.of_nat (k + cnt - 1) + 2) (Z.of_nat (k + cnt) + 1)); [|lia]. cbn [negb orb].
  set (cl0 := set_peers _ cl).
  destruct (close_values_run vs sv n (reply_proof vs sv (k + cnt)) cnt Hs k cl0 false) as (cl1 & out & E & Hc1 & Hy & Hx); [by apply chain_peers|done|..].
  - eapply Forall_impl; [apply Forall_take, Forall_drop, Hu|]. intros x. apply undisputed_peers.
  - intros x w _ Hx Hw. pose proof (reply_certified vs sv (k + cnt - 1) x w Hs Hx Hw) as Hr. by replace (S (k + cnt - 1)) with (k + cnt)%nat in Hr by lia.
  - rewrite E. destruct cnt as [|cnt]; [lia|]. cbn [orb Nat.ltb Nat.leb].
    assert (Hu1 : Forall (undisputed cl1) vs) by (eapply Forall_impl; [exact Hu|]; intros x; by apply (undisputed_sub cl cl1)).
    pose proof (chain_seq _ _ Hc1) as Hq. rewrite length_take, Nat.min_l in Hq by lia. rewrite Hq.
    destruct (Z.leb_spec (Z.of_nat (k + S cnt) + 1 + 1) (Z.of_nat (length vs) + 1)) as [Hl|Hl]; cbn [fst RequestConsensusValues].
    + split_and!; [destruct (_ <? _); [apply chain_max|]; by apply chain_sync| |by destruct (_ <? _)]. intros _.
      exists (MkSyncStat now (MkGetLedgers (Z.of_nat (k + S cnt) + 1 + 1) (Z.min (Z.of_nat (length vs) + 1) (Z.of_nat (k + S cnt) + 1 + 1 + 4)) now self_chain_id)
        (probation_ (default SyncStat0 (om_find (peers_ (sync_ cl1)) server)))).
      split_and!; [destruct (_ <? _); apply om_find_set_eq|done|cbn [gl_ gl_begin gl_end]; lia|cbn [gl_ gl_begin gl_end]; lia].
    + split_and!; [destruct (_ <? _); [by apply chain_max|done]|lia|by destruct (_ <? _)].
Qed.

(** ** The timer *)

Lemma om_find_erase_key m (q : Z -> bool) pid : q pid = false -> om_find (om_erase_if (fun (j : Z) (_ : SyncStat) => q j) m) pid = om_find m pid.
Proof.
  intros Hq. unfold om_erase_if. induction m as [|[k x] m IH]; [done|]. cbn [List.filter fst snd om_find]. destruct (key_eqb_spec pid k) as [<-|].
  - rewrite Hq. cbn. by rewrite key_eqb_refl.
  - destruct (q k); cbn [negb om_find]; [done|]. by destruct (key_eqb_spec pid k).
Qed.

Lemma om_find_map (f : SyncStat -> SyncStat) (m : ordmap Z SyncStat) pid : om_find (map (fun e => (e.1, f e.2)) m) pid = f <$> om_find m pid.
Proof. induction m as [|[k x] m IH]; [done|]. cbn. by destruct (key_eqb pid k). Qed.

Lemma request_all_asks l gl time st pid : pid ∈ l -> exists p, om_find (peers_ (sync_ (request_all l gl time st).1)) pid = Some p /\ gl_ p = gl.
Proof.
  assert (Hkeep : forall l st, (exists p, om_find (peers_ (sync_ st)) pid = Some p /\ gl_ p = gl) -> exists p, om_find (peers_ (sync_ (request_all l gl time st).1)) pid = Some p /\ gl_ p = gl).
  { clear l st. induction l as [|q l IH]; intros st Hp; [done|]. cbn [request_all RequestConsensusValues]. destruct (request_all l gl time _) as [st' o] eqn:E.
    cbn [fst]. change st' with ((st', o).1). rewrite <- E. apply IH. cbn. rewrite om_find_set. destruct (key_eqb pid q); [by eexists|done]. }
  revert st. induction l as [|q l IH]; intros st Hin; [by apply elem_of_nil in Hin|]. cbn [request_all RequestConsensusValues].
  destruct (request_all l gl time _) as [st' o] eqn:E. cbn [fst]. change st' with ((st', o).1). rewrite <- E. apply elem_of_cons in Hin as [->|Hin]; [|by apply IH].
  apply Hkeep. cbn. rewrite om_find_set_eq. by eexists.
Qed.

(** When the timer is due, an active peer that is not on probation and has no open request is asked for the next value. *)
Lemma OnTimer_asks vs cl time active server : chain_of vs cl -> 30 * MICRO_UNITS_PER_SEC < time - update_time_ (sync_ cl) -> server ∈ active ->
  (forall p, om_find (peers_ (sync_ cl)) server = Some p -> peer_enabled time (refresh_peer time p) = true) ->
  asks (OnTimer_manager time active cl).1 server (length vs) 1.
Proof.
  intros Hc Ht Hin Hp. unfold OnTimer_manager. destruct (Z.leb_spec (time - update_time_ (sync_ cl)) (30 * MICRO_UNITS_PER_SEC)); [lia|].
  rewrite (chain_seq vs) by done. edestruct request_all_asks as (p & E & Eg); [|exists p; split; [exact E|rewrite Eg; cbn; split_and!; lia]].
  apply list_elem_of_In, filter_In. split; [by apply list_elem_of_In|]. rewrite om_find_map, (om_find_erase_key _ (fun pid => negb (bool_decide (pid ∈ active)))) by (by rewrite bool_decide_true).
  destruct (om_find _ server) as [q|]; [|done]. cbn. by apply Hp.
Qed.

(** Full requests: five values at a time. *)
Lemma exchange_rounds vs sv n now server client m : chain_of vs sv -> forall cl k, chain_of (take k vs) cl -> m = (length vs - k)%nat -> (0 < m)%nat ->
  asks cl server k (Nat.min 5 m) -> Forall (undisputed cl) vs ->
  exists r, (5 * r < m + 5)%nat /\ chain_of vs (Nat.iter r (exchange n now server client sv) cl).
Proof.
  intros Hs. induction (lt_wf m) as [m _ IH]; intros cl k Hc Hm H0m Ha Hu.
  destruct (exchange_run vs sv cl n now server client k (Nat.min 5 m) Hs Hc Ha ltac:(lia) ltac:(lia) Hu) as (Hc' & Ha' & Hu').
  destruct (decide (m <= 5)%nat) as [Hle|Hgt].
  - exists 1%nat. split; [lia|]. cbn. rewrite firstn_all2 in Hc' by lia. done.
  - destruct (IH (m - 5)%nat ltac:(lia) (exchange n now server client sv cl) (k + 5)%nat) as (r & Hr & Hcr); [by replace (Nat.min 5 m) with 5%nat in Hc' by lia|lia|lia| |done|].
    + replace (Nat.min 5 m) with 5%nat in Ha' by lia. replace (m - 5)%nat with (length vs - (k + 5))%nat by lia. apply Ha'. lia.
    + exists (S r). split; [lia|]. by rewrite Nat.iter_succ_r.
Qed.
End CatchUp.
