(* ===== verification/LedgerManagerFacts.v ===== *)
(** * Theorems about the chain of a node

    What a reachable node holds, restarting and crashing, catching up with a peer, and what the
    hash of the last ledger says. *)
From S2P Require Import Prelude Strings OrdMap PbftData Pbft PbftFacts TxQueue TxQueueFacts LedgerUpgrade Glue LedgerContext LedgerManager LedgerManagerInv LedgerChain LedgerSync LedgerCatchUp.
From stdpp Require Import countable.

Open Scope Z_scope.

Section Facts.
Context `{PbftParams} `{UpgradeParams} `{QueueParams} `{GlueParams} `{Executor} `{MP : ManagerParams} `{!ExecutorLaws}.
Context (parse_value : forall x, ParseValue (SerializeValue x) = Some x) (parse_header : forall x, ParseHeader (SerializeHeader x) = x).
Context (parse_validators : forall x, ParseValidators (SerializeValidators x) = Some x) (parse_fees : forall x, ParseFees (SerializeFees x) = Some x).
Context (hash_inj : Inj (=) (=) Hash).
Implicit Types (st sv cl : LedgerManager) (d : Disk) (v : ConsensusValue) (c : Closing) (w : View) (vs : list ConsensusValue) (k n : nat).

(** ** Requests *)

Lemma load_values_length d b m vs : load_values d b m = Some vs -> (length vs <= m)%nat.
Proof.
  revert b vs. induction m as [|m IH]; intros b vs; cbn [load_values]; [by intros [= <-]|]. destruct (ConsensusValueFromDB d b); [|done]. cbn [mbind option_bind].
  destruct (load_values d (b + 1) m) as [vs'|] eqn:E; [|done]. cbn [mbind option_bind]. intros [= <-]. cbn. specialize (IH _ _ E). lia.
Qed.

(** Five values at most go out, whatever 64-bit bounds a peer sends; only for bounds that are exactly
    2^63 - 1 apart the count overflows and the guard lets them pass. *)
Theorem request_bounded (gl : GetLedgers) peer st p l : is_s64 (gl_begin gl) -> is_s64 (gl_end gl) -> gl_end gl - gl_begin gl <> int64_max ->
  In (SendLedgers p l) (OnRequestLedgers gl peer st) -> (length (lg_values l) <= 5)%nat.
Proof.
  intros Hb He Hm. unfold OnRequestLedgers. destruct (negb _); [done|]. destruct (Z.ltb_spec 5 (s64 (s64 (gl_end gl - gl_begin gl) + 1))) as [|Hfive]; [done|].
  destruct (Z.ltb_spec (s64 (gl_end gl - gl_begin gl)) 0) as [|Hneg]; [done|]. destruct (_ <? _); [done|].
  assert (Hr : gl_end gl - gl_begin gl + 1 <= 5).
  { revert Hfive Hneg. unfold is_s64, s64, int64_min, int64_max in *. mod_lia. }
  destruct (load_values _ _ _) as [vs|] eqn:E; [|done]. intros [[= <- <-]|[]]. cbn. assert (length vs <= Z.to_nat (gl_end gl - gl_begin gl + 1))%nat; [|lia].
  by eapply load_values_length.
Qed.

Lemma OnTimer_frame time active st : let st' := (OnTimer_manager time active st).1 in
  context_manager_ st' = context_manager_ st /\ last_closed_ledger_ st' = last_closed_ledger_ st.
Proof.
  assert (E : forall l gl t st, context_manager_ (request_all l gl t st).1 = context_manager_ st /\ last_closed_ledger_ (request_all l gl t st).1 = last_closed_ledger_ st).
  { induction l as [|pid l IH]; intros gl t st'; [done|]. cbn [request_all RequestConsensusValues]. destruct (request_all l gl t _) as [st1 o] eqn:E.
    cbn [fst]. change st1 with ((st1, o).1). rewrite <- E. apply (IH gl t (set_sync _ st')). }
  unfold OnTimer_manager. destruct (_ <=? _); [done|]. apply (E _ _ _ (set_sync _ st)).
Qed.

(** ** Crashes *)

(** When only the ledger database was written, repairing it restores the chain. *)
Lemma repaired_stored vs d w v c : stored vs d -> is_s64 (Z.of_nat (length vs) + 1) -> ledger_seq v = Z.of_nat (length vs) + 2 -> is_s64 (ledger_seq v) ->
  stored vs (MkDisk (<[KEY_LEDGER_SEQ := int_text (Z.of_nat (length vs) + 1)]> (ledger_db (write_ledger_db w v c d))) (account_db d)).
Proof.
  intros Hs Hr Hq Ht. assert (Hl : forall i, 0 <= i <= ledger_seq v -> is_s64 i) by (unfold is_s64, int64_min, int64_max in *; lia). split.
  - intros k Hk. destruct (st_headers _ _ Hs k Hk) as (w' & Hw & Hh & Hv). exists w'. split_and!; [done| |done]. unfold LoadFromDb. cbn [ledger_db].
    rewrite lookup_insert_ne by done. rewrite (ledger_db_header w v c d) by first [done|apply Hl; lia]. by rewrite decide_False by lia.
  - intros k v' Hk. pose proof (lookup_lt_Some _ _ _ Hk). unfold ConsensusValueFromDB. cbn [ledger_db]. rewrite lookup_insert_ne by done.
    rewrite (ledger_db_value w v c d) by first [done|apply Hl; lia]. rewrite decide_False by lia. by apply (st_values _ _ Hs).
  - cbn. by rewrite lookup_insert_eq.
  - apply Hs.
Qed.

(** A crash between the two writes of [CloseLedger] is repaired only where the repair is compiled
    in. The ledger database then already has the new ledger and the account database has not.
    [CheckAndRepairLedgerSeq] sets the ledger back, and the node starts as it was before
    the block. On Linux the function returns at once: [Initialize] loads the new
    header, whose account tree is not there, and fails. *)
Theorem crash_between_writes st n v c proof : reach st -> typed v -> CheckValueAndProof (glue_env st) (SerializeValue v) proof = true ->
  SyncProcess n (view st) v (context_manager_ st) = Some c -> RootHash (Commit c (tree_ st)) <> RootHash (tree_ st) ->
  let d := write_ledger_db (view st) v c (disk st) in
  if OS_LINUX then Initialize_manager d = None
  else exists d' out, Initialize_manager d = Some (started (view st) (proof_ st) d', out).
Proof.
  intros Hr Ht Hcv _ Hroot d. destruct (reach_chain parse_value parse_header parse_validators parse_fees hash_inj st Hr) as [vs Hc].
  apply (CheckValueAndProof_spec parse_value parse_validators vs) in Hcv as [(Hq & _)%CheckValueHelper_spec _]; [|done]. cbn in Hq. rewrite (chain_seq vs) in Hq by done.
  pose proof (ch_stored _ _ Hc) as Hs. pose proof (ch_range _ _ Hc) as Hrange.
  destruct OS_LINUX eqn:El.
  - unfold Initialize_manager, CheckAndRepairLedgerSeq. rewrite El. cbn [mbind option_bind]. unfold load_or_create, GetMaxLedger. unfold d. cbn [account_db write_ledger_db].
    rewrite (st_account_seq _ _ Hs). fold (write_ledger_db (view st) v c (disk st)). rewrite ledger_db_max, text_int_text by done. unfold LoadFromDb. rewrite ledger_db_header, decide_True by done.
    cbn [fmap option_fmap option_map mbind option_bind]. rewrite parse_header. destruct (ValidatorsGet _ _) as [set|]; [|done]. destruct (FeesConfigGet _ _) as [fees|]; [|done]. cbn [mbind option_bind].
    cbn [account_db write_ledger_db]. rewrite (ch_tree _ _ Hc). cbn [hd_account_tree_hash closing_header set_hash]. by rewrite bool_decide_false.
  - set (d' := MkDisk (<[KEY_LEDGER_SEQ := int_text (Z.of_nat (length vs) + 1)]> (ledger_db d)) (account_db (disk st))).
    assert (Hrep : CheckAndRepairLedgerSeq d = Some d').
    { unfold CheckAndRepairLedgerSeq. rewrite El. unfold d. rewrite ledger_db_max. cbn [account_db write_ledger_db]. rewrite (st_account_seq _ _ Hs), !text_int_text by done.
      destruct (Z.eqb_spec (Z.of_nat (length vs) + 1) (ledger_seq v)); [lia|]. by destruct (Z.eqb_spec (Z.of_nat (length vs) + 1) (ledger_seq v - 1)); [|lia]. }
    rewrite <- (ch_last _ _ Hc). exists d'. eexists. apply (Initialize_stored parse_validators parse_fees vs d' d (view st)); [done| |done|apply Hc|apply Hc|apply Hc|apply Hc].
    apply repaired_stored; [done|done|lia|done].
Qed.

(** ** The claims *)




(** ** Hashes of ledgers *)

Definition linked vs : Prop :=
  forall k v, vs !! k = Some v -> exists w, view_at vs k = Some w /\ ledger_seq v = Z.of_nat k + 2 /\ previous_ledger_hash v = hd_hash (vw_header w).

Lemma chain_linked vs st : chain_of vs st -> linked vs.
Proof. intros Hc k v Hv. destruct (ch_links _ _ Hc k v Hv) as (w & ? & ? & ? & _). by exists w. Qed.

Lemma linked_prefix vs v : linked (vs ++ [v]) -> linked vs.
Proof.
  intros Hl k v' Hk. pose proof (lookup_lt_Some _ _ _ Hk). destruct (Hl k v') as (w & Hw & ? & ?); [by rewrite lookup_app_l|]. exists w. by rewrite view_at_app in Hw by lia.
Qed.

Lemma linked_last vs v w : linked (vs ++ [v]) -> replay genesis_view (vs ++ [v]) = Some w ->
  exists w0 c, replay genesis_view vs = Some w0 /\ w = next_view w0 v c /\ ledger_seq v = Z.of_nat (length vs) + 2 /\ previous_ledger_hash v = hd_hash (vw_header w0).
Proof.
  intros Hl Hw. destruct (Hl (length vs) v) as (w0 & Hw0 & ? & ?); [by rewrite lookup_app_r, Nat.sub_diag by lia|]. rewrite view_at_app, view_at_all in Hw0 by lia.
  rewrite replay_app, Hw0 in Hw. cbn in Hw. unfold spec_close in Hw. destruct (exec_result_ _); [|done]. cbn in Hw. injection Hw as <-. eexists w0, _. by split_and!.
Qed.

Lemma closing_header_inj w1 v1 c1 w2 v2 c2 : (forall h1 t1 h2 t2, LedgerHash h1 t1 = LedgerHash h2 t2 -> h1 = h2 /\ t1 = t2) ->
  hd_hash (closing_header w1 v1 c1) = hd_hash (closing_header w2 v2 c2) -> v1 = v2 /\ previous_ledger_hash v1 = previous_ledger_hash v2.
Proof.
  intros Hinj E. cbn in E. apply Hinj in E as [E _]. apply (f_equal hd_consensus_value_hash) in E as E1. cbn in E1. apply (value_hash_inj parse_value hash_inj) in E1 as ->. done.
Qed.

(** C18: The hash of the last ledger determines the chain: where hashing has no collisions, two nodes whose
    last closed ledgers have the same hash have closed the same values, and have the same
    accounts, validators, fees and header. *)
Theorem same_hash_same_chain vs1 vs2 st1 st2 : chain_of vs1 st1 -> chain_of vs2 st2 ->
  (forall h1 t1 h2 t2, LedgerHash h1 t1 = LedgerHash h2 t2 -> h1 = h2 /\ t1 = t2) ->
  hd_hash (last_closed_ledger_ st1) = hd_hash (last_closed_ledger_ st2) -> vs1 = vs2 /\ view st1 = view st2.
Proof.
  intros Hc1 Hc2 Hinj Eh. assert (E : vs1 = vs2); [|subst; split; [done|]; pose proof (ch_view _ _ Hc1); pose proof (ch_view _ _ Hc2); congruence].
  pose proof (chain_linked _ _ Hc1) as L1. pose proof (chain_linked _ _ Hc2) as L2. pose proof (ch_view _ _ Hc1) as V1. pose proof (ch_view _ _ Hc2) as V2.
  assert (Eh' : hd_hash (vw_header (view st1)) = hd_hash (vw_header (view st2))) by done. revert L1 V1 Eh' L2 V2. generalize (view st1), (view st2). clear Hc1 Hc2 Eh st1 st2.
  revert vs2. induction vs1 as [|v1 l1 IH] using rev_ind; intros vs2 w1 w2 L1 V1 Eh L2 V2; destruct vs2 as [|v2 l2 _] using rev_ind; [done|..].
  - destruct (linked_last _ _ _ L2 V2) as (w0 & c & _ & -> & Hq & _). cbn in V1. injection V1 as <-. cbn in Eh. apply Hinj in Eh as [Eh _]. apply (f_equal hd_seq) in Eh. cbn in Eh. lia.
  - destruct (linked_last _ _ _ L1 V1) as (w0 & c & _ & -> & Hq & _). cbn in V2. injection V2 as <-. cbn in Eh. apply Hinj in Eh as [Eh _]. apply (f_equal hd_seq) in Eh. cbn in Eh. lia.
  - destruct (linked_last _ _ _ L1 V1) as (w01 & c1 & V01 & -> & _ & P1), (linked_last _ _ _ L2 V2) as (w02 & c2 & V02 & -> & _ & P2).
    cbn [next_view vw_header] in Eh. apply closing_header_inj in Eh as [-> _]; [|done]. f_equal.
    apply (IH l2 w01 w02); [by eapply linked_prefix|done|congruence|by eapply linked_prefix|done].
Qed.

(** ** Hard forks *)

Lemma replay_chain_id w vs w' : hd_chain_id (vw_header w) = self_chain_id -> replay w vs = Some w' -> hd_chain_id (vw_header w') = self_chain_id.
Proof.
  revert w. induction vs as [|v vs IH]; cbn; intros w Hs E; [by injection E as <-|]. unfold spec_close in E. destruct (exec_result_ _); [|done].
  cbn in E. eapply IH; [|exact E]. done.
Qed.

(** The header of the fork is the one that closing its value makes. *)
Lemma hardfork_header_closing vs st this n : chain_of vs st -> this <> ""%string ->
  let v := hardfork_value this (last_closed_ledger_ st) (proof_ st) in
  let c := run_closing (Execute APPLY_MODE_PROPOSE n (view st) v) in
  hardfork_header this (last_closed_ledger_ st) v c (tree_ st) = closing_header (view st) v c
  /\ vw_validators (next_view (view st) v c) = [(this, 0)] /\ vw_fees (next_view (view st) v c) = fees_ st.
Proof.
  intros Hc Hthis v c. destruct (empty_block APPLY_MODE_PROPOSE n (view st) v eq_refl) as [Et Es]. fold c in Et, Es.
  destruct (replay_sealed _ _ _ genesis_sealed (ch_view _ _ Hc)) as (_ & _ & Ef). cbn in Ef.
  pose proof (replay_chain_id genesis_view vs (view st) eq_refl (ch_view _ _ Hc)) as Ei. cbn in Ei.
  unfold next_view, hardfork_header, closing_header, new_validators, new_fees, GetVotedFee. rewrite Es. cbn [ledger_upgrade v hardfork_value new_validator set_fees no_settings fst snd].
  rewrite bool_decide_false by done. cbn [vw_validators vw_fees fst snd view]. split_and!; [|done|done]. unfold new_version. cbn. unfold transaction_envs. rewrite Et, Ef, Ei. cbn. by rewrite Z.add_0_r.
Qed.

Lemma hardfork_extended vs st this n d : chain_of vs st -> this <> ""%string -> is_s64 (hd_seq (last_closed_ledger_ st) + 1) ->
  let v := hardfork_value this (last_closed_ledger_ st) (proof_ st) in
  let w := next_view (view st) v (run_closing (Execute APPLY_MODE_PROPOSE n (view st) v)) in
  CreateHardforkLedger n this st = Some d ->
  extended (disk st) d v w /\ has_fees d (fees_ st) /\ ad_tree (account_db d) = vw_tree w /\ last_proof d = ""%string.
Proof.
  intros Hc Hthis Hr v w. destruct (hardfork_header_closing vs st this n Hc Hthis) as (Eh & Ev & Ef). unfold CreateHardforkLedger.
  rewrite (st_account_seq _ _ (ch_stored _ _ Hc)). cbn [from_option]. rewrite text_int_text by apply Hc.
  destruct (st_headers _ _ (ch_stored _ _ Hc) (length vs) ltac:(lia)) as (w0 & E0 & -> & _). rewrite view_at_all, (ch_view _ _ Hc) in E0. injection E0 as <-.
  cbn [mbind option_bind]. rewrite (ch_last _ _ Hc). cbn [vw_header view]. rewrite Eh. intros E. apply (inj Some) in E. subst d. split_and!.
  - assert (Hq : is_s64 (ledger_seq v)) by exact Hr. rewrite hd_seq_closing. fold v. split; cbn [ledger_db account_db ad_kv]; [intros i Hi|intros i Hi| | |intros x Hx|].
    + cbn [put_all foldl fst snd]. rewrite lookup_insert_ne by done. case_decide as Ei; [subst i; by rewrite lookup_insert_eq|]. rewrite lookup_insert_ne by (intros ?%header_key_inj; congruence). by rewrite lookup_insert_ne.
    + cbn [put_all foldl fst snd]. case_decide as Ei; [subst i; by rewrite lookup_insert_eq|]. rewrite lookup_insert_ne by (intros ?%value_key_inj; congruence). by rewrite !lookup_insert_ne.
    + cbn [put_all foldl fst snd]. rewrite !lookup_insert_ne by done. by rewrite lookup_insert_eq.
    + cbn [put_all foldl fst snd]. rewrite !lookup_insert_ne by done. by rewrite lookup_insert_eq.
    + unfold has_validators. cbn [account_db ad_kv]. apply (opt_put_get true). left. split; [cbn; by rewrite !lookup_insert_ne|]. cbn. by intros ->%validators_key_inj%hash_inj.
    + unfold w, v. rewrite Ev. unfold has_validators. cbn. by rewrite lookup_insert_eq.
  - unfold has_fees. cbn. rewrite !lookup_insert_ne by done. apply Hc.
  - done.
  - unfold last_proof. cbn. rewrite lookup_insert_ne by done. by rewrite lookup_insert_eq.
Qed.

(** The value of a fork passes the checks of every node on the chain that has it configured. *)
Lemma hardfork_value_ok vs st this : chain_of vs st -> vs <> [] -> 
  let v := hardfork_value this (last_closed_ledger_ st) (proof_ st) in
  value_hash v ∈ hardfork_points -> ValueByteSize v < TXSET_LIMIT_SIZE + 2 * 1048576 ->
  CheckValueHelper (env_at vs (length vs) (view st)) v (-1) = CHECK_VALUE_VALID.
Proof.
  intros Hc Hvs v Hf Hb. pose proof (chain_seq _ _ Hc) as Hq. destruct vs as [|v0 l _] using rev_ind; [done|]. rewrite length_app in Hq. cbn in Hq.
  assert (Hv0 : (l ++ [v0]) !! length l = Some v0) by (by rewrite lookup_app_r, Nat.sub_diag by lia).
  destruct (ch_links _ _ Hc _ _ Hv0) as (w0 & Hw0 & _). pose proof (ch_proof _ _ Hc _ _ _ Hv0 ltac:(rewrite length_app; cbn; lia) Hw0) as Hp.
  assert (El : hd_consensus_value_hash (last_closed_ledger_ st) = value_hash v0).
  { pose proof (ch_view _ _ Hc) as E. rewrite <- view_at_all, length_app, Nat.add_1_r in E. rewrite (view_at_succ _ _ v0 w0) in E by done. unfold spec_close in E. destruct (exec_result_ _); [|done]. by injection E as <- _ _ _. }
  unfold CheckValueHelper. destruct (Z.leb_spec (TXSET_LIMIT_SIZE + 2 * 1048576) (ValueByteSize v)); [lia|].
  cbn [env_at lcl glue_header lh_seq lh_hash vw_header view v hardfork_value ledger_seq previous_ledger_hash ledger_upgrade previous_proof lh_consensus_value_hash].
  rewrite Z.eqb_refl, bool_decide_true by done. cbn [negb andb Z.eqb Pos.eqb]. unfold check_upgrade. cbn [new_ledger_version Z.eqb negb andb]. unfold is_hardfork. cbn [hardfork_points_].
  fold (value_hash v). rewrite (bool_decide_true (value_hash v ∈ _)) by done. cbn [negb andb].
  destruct (Z.eqb_spec (hd_seq (last_closed_ledger_ st)) 1); [lia|]. cbn [andb]. destruct (Z.ltb_spec 1 (hd_seq (last_closed_ledger_ st))); [|lia].
  rewrite Hq, length_app. cbn [length env_at GetValidators hardfork_points_].
  destruct (Z.leb_spec 1 (Z.of_nat (length l + 1) + 1 + 1 - 2)), (Z.leb_spec (Z.of_nat (length l + 1) + 1 + 1 - 2) (Z.of_nat (length l + 1) + 1)); try lia. cbn [andb].
  replace (Z.to_nat _) with (length l) by lia. rewrite Hw0. cbn [fmap option_fmap option_map]. rewrite El. destruct Hp as [-> |Hp]; [by rewrite andb_false_r|]. by rewrite bool_decide_true.
Qed.

(** A hard fork. The ledger that [CreateHardforkLedger] writes is the one every other node on the chain
    closes when the hash of its value is configured as a fork point, whatever the proof; and
    the node itself starts from it as the only validator. *)
Theorem hardfork_ledger_followed vs st n this : chain_of vs st -> vs <> [] -> this <> ""%string -> is_s64 (hd_seq (last_closed_ledger_ st) + 1) ->
  let v := hardfork_value this (last_closed_ledger_ st) (proof_ st) in
  let r := Execute APPLY_MODE_PROPOSE n (view st) v in
  exec_result_ r = true -> clean (run_result r) = true -> value_hash v ∈ hardfork_points -> ValueByteSize v < TXSET_LIMIT_SIZE + 2 * 1048576 ->
  exists d st' out, CreateHardforkLedger n this st = Some d /\ Initialize_manager d = Some (st', out) /\ chain_of (vs ++ [v]) st' /\ validators_ st' = [(this, 0)]
    /\ forall cl m proof, chain_of vs cl -> undisputed cl v -> exists cl' out', CloseLedger m v proof cl = Some (cl', out') /\ view cl' = view st'.
Proof.
  intros Hc Hvs Hthis Hr v r He Hcl Hf Hb. pose proof (hardfork_value_ok vs st this Hc Hvs Hf Hb) as Hh.
  destruct (propose_follow n (view st) v He Hcl) as [Hfol Hsame]. set (c := run_closing r). set (w := next_view (view st) v c).
  assert (Hn : spec_close (view st) v = Some w) by (unfold spec_close; rewrite Hfol; by rewrite <- (next_view_same _ _ _ _ Hsame)).
  assert (exists d, CreateHardforkLedger n this st = Some d) as [d Hd].
  { unfold CreateHardforkLedger. rewrite (st_account_seq _ _ (ch_stored _ _ Hc)). cbn [from_option]. rewrite text_int_text by apply Hc.
    destruct (st_headers _ _ (ch_stored _ _ Hc) (length vs) ltac:(lia)) as (w0 & _ & -> & _). by eexists. }
  destruct (hardfork_extended vs st this n d Hc Hthis Hr Hd) as (Hx & Hfees & Ht & Hl). destruct (hardfork_header_closing vs st this n Hc Hthis) as (_ & Ev & Ef).
  assert (Hc' : chain_of (vs ++ [v]) (started w ""%string d)).
  { apply (chain_extend parse_value parse_header vs st v w); try done; [by right|]. change (has_fees d (vw_fees w)). assert (vw_fees w = fees_ st) as -> by exact Ef. exact Hfees. }
  exists d, (started w ""%string d), [PostUpdateValidators (vw_validators w) ""%string false]. split_and!; [done| |done|exact Ev|].
  - exact (Initialize_chain parse_validators parse_fees _ _ Hc').
  - intros cl m proof Hcc Hu. assert (Ew : view cl = view st) by (pose proof (ch_view _ _ Hc); pose proof (ch_view _ _ Hcc); congruence).
    destruct (CloseLedger_run parse_value parse_validators vs cl m v proof w) as (cl' & out' & E); [done|exact Hr|done|by rewrite Ew|by right|by rewrite Ew|]. exists cl', out'. split; [done|].
    destruct (CloseLedger_chain parse_value parse_header parse_validators hash_inj vs cl m v proof cl' out' Hcc Hr Hu E) as (Hcc' & _). pose proof (ch_view _ _ Hcc'). pose proof (ch_view _ _ Hc'). congruence.
Qed.
End Facts.

(** ** Two small chains *)
Module Sample.
Open Scope string_scope.

(** Texts of countable data. *)
Fixpoint pos_text (p : positive) : string := match p with xH => "" | xO p => String "0" (pos_text p) | xI p => String "1" (pos_text p) end.
Fixpoint text_pos (s : string) : positive := match s with EmptyString => xH | String c s' => if bool_decide (c = "1"%char) then xI (text_pos s') else xO (text_pos s') end.
Lemma text_pos_text p : text_pos (pos_text p) = p.
Proof. induction p as [p IH|p IH|]; cbn; [by rewrite IH..|done]. Qed.
Definition to_text {A} `{Countable A} (x : A) : string := pos_text (encode x).
Definition of_text {A} `{Countable A} (s : string) : option A := decode (text_pos s).
Lemma of_to_text {A} `{Countable A} (x : A) : of_text (to_text x) = Some x.
Proof. unfold of_text, to_text. rewrite text_pos_text. apply decode_encode. Qed.

#[export] Instance Tx_countable : Countable Tx.
Proof. refine (inj_countable' (fun t => (GetSourceAddress t, GetNonce t, GetGasPrice t, GetInComingTime t, body t)) (fun '(a, b, c, d, e) => MkTx a b c d e) _). by intros []. Defined.
#[export] Instance Upgrade_eq_dec : EqDecision Upgrade.
Proof. solve_decision. Defined.
#[export] Instance Upgrade_countable : Countable Upgrade.
Proof. refine (inj_countable' (fun u => (new_ledger_version u, new_validator u, chain_id u)) (fun '(a, b, c) => MkUpgrade a b c) _). by intros []. Defined.
#[export] Instance Value_eq_dec : EqDecision ConsensusValue.
Proof. solve_decision. Defined.
#[export] Instance Value_countable : Countable ConsensusValue.
Proof.
  refine (inj_countable' (fun v => (txset v, close_time v, ledger_seq v, previous_ledger_hash v, previous_proof v, ledger_upgrade v, validation v))
    (fun '(a, b, c, d, e, f, g) => MkConsensusValue a b c d e f g) _). by intros [].
Defined.
#[export] Instance Header_countable : Countable Header.
Proof.
  refine (inj_countable (fun h => ([hd_seq h; hd_close_time h; hd_version h; hd_tx_count h; hd_chain_id h],
      [hd_hash h; hd_previous_hash h; hd_account_tree_hash h; hd_consensus_value_hash h; hd_validators_hash h; hd_fees_hash h; hd_reserve h]))
    (fun e => match e with ([a; e; g; h; l], [b; c; d; f; i; j; k]) => Some (MkFullHeader a b c d e f g h i j k l) | _ => None end) _). by intros [].
Defined.
#[export] Instance Fees_countable : Countable FeeConfig.
Proof. refine (inj_countable' (fun f => (gas_price f, base_reserve f)) (fun '(a, b) => MkFees a b) _). by intros []. Defined.

(** Ledgers two and three, and a value with a transaction that is not valid. *)
Definition pay1 := MkTx "A" 1 10 0 0.
Definition pay2 := MkTx "B" 1 10 0 0.
Definition bad := MkTx "C" (-1) 10 0 0.
Definition v2 := MkConsensusValue [pay1] 10 2 "L1" "" None None.
Definition v3 := MkConsensusValue [pay2] 20 3 "L2" "p2" None None.
Definition vbad := MkConsensusValue [bad; pay1] 10 2 "L1" "" None None.
Definition vfork := MkConsensusValue [] 20 3 "L2" "p2" (Some (MkUpgrade 0 "n9" 0)) None.

(** Short texts for the values of the example, long ones for all others. *)
Definition value_text (v : ConsensusValue) : string :=
  if decide (v = v2) then "v2" else if decide (v = v3) then "v3" else if decide (v = vbad) then "vbad"
  else if decide (v = vfork) then "vfork" else "0" ++ to_text v.
Definition text_value (s : string) : option ConsensusValue :=
  if decide (s = "v2") then Some v2 else if decide (s = "v3") then Some v3 else if decide (s = "vbad") then Some vbad
  else if decide (s = "vfork") then Some vfork
  else match s with String _ s' => of_text s' | EmptyString => None end.
Lemma value_round v : text_value (value_text v) = Some v.
Proof.
  unfold value_text. destruct (decide (v = v2)) as [->|]; [done|]. destruct (decide (v = v3)) as [->|]; [done|]. destruct (decide (v = vbad)) as [->|]; [done|]. destruct (decide (v = vfork)) as [->|]; [done|].
  unfold text_value. cbn [String.append]. rewrite !decide_False by done. apply of_to_text.
Qed.

Definition proof_of (s : string) : list PbftEnv := [Toy.commit_msg 0 0 2 s; Toy.commit_msg 1 0 2 s; Toy.commit_msg 2 0 2 s].
#[export] Instance pbft_params : PbftParams :=
  let P := Toy.params 3 in
  {| Hash := @Hash P; Serialize := @Serialize P; Sign := @Sign P; Verify := @Verify P; EncAddress := @EncAddress P; self_public_key := @self_public_key P;
     self_address := @self_address P; self_chain_id := @self_chain_id P; Pbft.CheckValue := @Pbft.CheckValue P;
     ParseProof := fun s => if decide (s = "p2") then Some (proof_of "v2") else if decide (s = "p3") then Some (proof_of "v3")
                            else if decide (s = "pbad") then Some (proof_of "vbad") else None |}.
#[export] Instance upgrade_params : UpgradeParams := {| SerializeUpgrade := fun u => new_validator u |}.
#[export] Instance queue_params : QueueParams := TxQueueFacts.Sample.params.
#[export] Instance glue_params : GlueParams := {|
  ParseValue := text_value; SerializeValue := value_text; ValueByteSize := fun _ => 1000;
  SyncPreProcess := fun _ _ => no_result; SyncCheck := fun _ => true; CheckValid := fun _ => Some 0 |}.

(** A transaction is valid if its nonce is not negative; it writes its account. Following does not check. *)
Definition tx_valid (t : Tx) : bool := (0 <=? GetNonce t)%Z.
Definition block (l : list Tx) : Closing :=
  MkClosing (map (fun t => MkApplied t 0 100 7 []) l) (map (fun t => (GetSourceAddress t, int_text (GetNonce t))) l) no_settings.
Definition bad_ids (l : list Tx) : gset nat := list_to_set (map fst (List.filter (fun e => negb (tx_valid e.2)) (zip (seq 0 (length l)) l))).
#[export] Instance executor : Executor := {| Execute mode _ _ v :=
  match mode with
  | APPLY_MODE_FOLLOW => MkRun (block (txset v)) true no_result
  | APPLY_MODE_CHECK => MkRun (block (txset v)) (forallb tx_valid (txset v)) no_result
  | APPLY_MODE_PROPOSE => MkRun (block (List.filter tx_valid (txset v))) true (MkProposeResult false 0 (bad_ids (txset v)) [] [])
  end |}.

Lemma bad_ids_none l i : list_to_set (map fst (List.filter (fun e => negb (tx_valid e.2)) (zip (seq i (length l)) l))) = (∅ : gset nat) -> List.filter tx_valid l = l.
Proof.
  revert i. induction l as [|t l IH]; intros i; [done|]. cbn. destruct (tx_valid t); cbn; [intros E; f_equal; by eapply IH|]. set_solver.
Qed.

#[export] Instance executor_laws : ExecutorLaws.
Proof.
  split; [done|by intros| |by intros [] n w v E; cbn; rewrite E]. intros n w v _ Hc. split; [done|]. cbn in *. unfold clean in Hc. cbn in Hc. rewrite !andb_true_iff in Hc. destruct Hc as [[Hc%bool_decide_eq_true _] _].
  unfold bad_ids in Hc. by rewrite (bad_ids_none _ _ Hc).
Qed.

Section Params.
Context (ledger_hash : Header -> list Tx -> string) (forks : gset string) (linux : bool).
Definition params : ManagerParams := {|
  SerializeHeader := to_text; ParseHeader := fun s => default (MkFullHeader 0 "" "" "" 0 "" 0 0 "" "" "" 0) (of_text s);
  SerializeValidators := to_text; ParseValidators := of_text; SerializeFees := to_text; ParseFees := of_text;
  SerializeStore := fun s => es_hash s; SerializeEntries := to_text; ParseEntries := fun s => default [] (of_text s);
  LedgerHash := ledger_hash; RootHash := fun m => int_text (Z.of_nat (base.size m)); DecodeAddress := id; NewAccount := fun a _ => a;
  hardfork_points := forks; close_interval := 10; max_trans_per_ledger := 10; genesis_account := "g"; genesis_validators := ["n0"; "n1"; "n2"; "n3"];
  genesis_fees := MkFees 1000 100; genesis_slogan := ""; OS_LINUX := linux |}.
Lemma header_round x : @ParseHeader params (@SerializeHeader params x) = x.
Proof. cbn. by rewrite of_to_text. Qed.
Lemma validators_round x : @ParseValidators params (@SerializeValidators params x) = Some x.
Proof. apply of_to_text. Qed.
Lemma fees_round x : @ParseFees params (@SerializeFees params x) = Some x.
Proof. apply of_to_text. Qed.
End Params.
Lemma value_parses x : ParseValue (SerializeValue x) = Some x.
Proof. apply value_round. Qed.
Lemma hash_injective : Inj (=) (=) Hash.
Proof. intros s t. cbn. intros E. by injection E. Qed.

(** The node at genesis, and after the next two ledgers. *)
Definition genesis (P : ManagerParams) : LedgerManager := default (started genesis_view "" no_disk) (fst <$> Initialize_manager no_disk).
Definition node2 (P : ManagerParams) : LedgerManager := (OnConsent 0 5 v2 "p2" (genesis P)).1.2.
Definition node3 (P : ManagerParams) : LedgerManager := (OnConsent 0 6 v3 "p3" (node2 P)).1.2.
Definition short_hash (h : Header) (_ : list Tx) : string := "L" ++ int_text (hd_seq h).
Definition linux : ManagerParams := params short_hash ∅ true.
Definition other_os : ManagerParams := params short_hash ∅ false.
Definition forked : ManagerParams := params short_hash {[ value_hash vfork ]} true.
Definition long_hash : ManagerParams := params (fun h l => to_text (h, l)) ∅ true.

Lemma genesis_start (P : ManagerParams) : match Initialize_manager no_disk with Some _ => true | None => false end = true -> exists out, Initialize_manager no_disk = Some (genesis P, out).
Proof. unfold genesis. destruct (Initialize_manager no_disk) as [[st out]|]; [by exists out|done]. Qed.
Lemma genesis_reach (P : ManagerParams) : match Initialize_manager no_disk with Some _ => true | None => false end = true -> reach (genesis P).
Proof. intros [out E]%genesis_start. by eapply reach_start. Qed.
Lemma no_context st v : completed_ctxs_ (context_manager_ st) !! value_hash v = None -> undisputed st v.
Proof. intros E c Hc. by rewrite E in Hc. Qed.
Lemma small_typed v : 0 <= ledger_seq v <= 3 -> typed v.
Proof. unfold typed, is_s64, int64_min, int64_max. lia. Qed.

Lemma node3_reach : reach (MP := linux) (node3 linux).
Proof.
  apply (reach_step (node2 linux)); [apply (reach_step (genesis linux)); [by apply genesis_reach; vm_compute|]|]; apply step_consent.
  1,3: by apply small_typed. 1,2: apply no_context; vm_compute; reflexivity.
Qed.

Lemma consent_chain forks vs st n now v proof : let P := params short_hash forks true in chain_of (MP := P) vs st -> 0 <= ledger_seq v <= 3 -> completed_ctxs_ (context_manager_ st) !! value_hash v = None ->
  hd_seq (last_closed_ledger_ (OnConsent (MP := P) n now v proof st).1.2) = Z.of_nat (length vs) + 2 -> chain_of (MP := P) (vs ++ [v]) (OnConsent (MP := P) n now v proof st).1.2.
Proof.
  intros P Hc Ht Hx Hs. destruct (OnConsent_chain (MP := P) value_parses (header_round _ _ _) (validators_round _ _ _) hash_injective vs st n now v proof Hc) as [Hc'|Hc']; [by apply small_typed|by apply no_context| |done].
  pose proof (chain_seq _ _ Hc') as E. rewrite Hs in E. lia.
Qed.

Lemma genesis_chain (P : ManagerParams) : (forall x, ParseHeader (SerializeHeader x) = x) -> (forall x, ParseValidators (SerializeValidators x) = Some x) -> (forall x, ParseFees (SerializeFees x) = Some x) ->
  match Initialize_manager no_disk with Some _ => true | None => false end = true -> chain_of [] (genesis P).
Proof. intros H1 H2 H3 [out E]%genesis_start. by eapply Initialize_genesis. Qed.

Lemma linux_chain : chain_of (MP := linux) [] (genesis linux).
Proof. apply genesis_chain; [apply header_round|apply validators_round|apply fees_round|by vm_compute]. Qed.

Lemma node3_chain : chain_of (MP := linux) [v2; v3] (node3 linux).
Proof.
  apply (consent_chain ∅ [v2]); [|done|vm_compute; reflexivity|vm_compute; reflexivity].
  apply (consent_chain ∅ []); [apply linux_chain|done|vm_compute; reflexivity|vm_compute; reflexivity].
Qed.

Lemma forked_chain : chain_of (MP := forked) [v2] (node2 forked).
Proof.
  apply (consent_chain {[ value_hash vfork ]} []); [|done|vm_compute; reflexivity|vm_compute; reflexivity].
  apply genesis_chain; [apply header_round|apply validators_round|apply fees_round|by vm_compute].
Qed.
End Sample.
Import Sample.



Lemma crash_between_writes_witness :
  Initialize_manager (MP := linux) (write_ledger_db (MP := linux) (view (genesis linux)) v2 (block [pay1]) (disk (genesis linux))) = None
  /\ exists d' out, Initialize_manager (MP := other_os) (write_ledger_db (MP := other_os) (view (genesis other_os)) v2 (block [pay1]) (disk (genesis other_os)))
       = Some (started (view (genesis other_os)) (proof_ (genesis other_os)) d', out).
Proof.
  split.
  - apply (crash_between_writes (MP := linux) value_parses (header_round _ _ _) (validators_round _ _ _) (fees_round _ _ _) hash_injective (genesis linux) 0 v2 (block [pay1]) "p2").
    + by apply genesis_reach; vm_compute.
    + by apply small_typed.
    + by vm_compute.
    + by vm_compute.
    + by vm_compute.
  - apply (crash_between_writes (MP := other_os) value_parses (header_round _ _ _) (validators_round _ _ _) (fees_round _ _ _) hash_injective (genesis other_os) 0 v2 (block [pay1]) "p2").
    + by apply genesis_reach; vm_compute.
    + by apply small_typed.
    + by vm_compute.
    + by vm_compute.
    + by vm_compute.
Defined.


Lemma same_hash_same_chain_witness : exists st : LedgerManager, update_time_ (sync_ st) = 40000000 /\ view st = view (genesis long_hash).
Proof.
  assert (Hc : chain_of (MP := long_hash) [] (genesis long_hash)) by (apply genesis_chain; [apply header_round|apply validators_round|apply fees_round|by vm_compute]).
  exists (OnTimer_manager 40000000 [7] (genesis long_hash)).1. split; [vm_compute; reflexivity|].
  apply (same_hash_same_chain (MP := long_hash) value_parses hash_injective [] []).
  - apply OnTimer_chain, Hc.
  - exact Hc.
  - intros h1 t1 h2 t2 E. cbn in E. apply (f_equal (of_text (A := Header * list Tx))) in E. rewrite !of_to_text in E. by injection E as -> ->.
  - by rewrite (proj2 (OnTimer_frame _ _ _)).
Defined.


Lemma hardfork_ledger_followed_witness : exists d st' out, CreateHardforkLedger (MP := forked) 0 "n9" (node2 forked) = Some d
  /\ Initialize_manager (MP := forked) d = Some (st', out) /\ validators_ st' = [("n9"%string, 0)].
Proof.
  destruct (hardfork_ledger_followed (MP := forked) value_parses (header_round _ _ _) (validators_round _ _ _) (fees_round _ _ _) hash_injective [v2] (node2 forked) 0 "n9") as (d & st' & out & E1 & E2 & _ & E3 & _).
  - apply forked_chain.
  - discriminate.
  - discriminate.
  - rewrite (chain_seq _ _ forked_chain). cbn. unfold is_s64, int64_min, int64_max. lia.
  - vm_compute. reflexivity.
  - vm_compute. reflexivity.
  - assert (E : hardfork_value (MP := forked) "n9" (last_closed_ledger_ (node2 forked)) (proof_ (node2 forked)) = vfork) by (vm_compute; reflexivity). rewrite E.
    change (value_hash vfork ∈ ({[ value_hash vfork ]} : gset string)). by apply elem_of_singleton.
  - cbn. unfold TXSET_LIMIT_SIZE. lia.
  - exists d, st', out. split; [exact E1|split; [exact E2|exact E3]].
Defined.
