(* ===== verification/LedgerCommit.v ===== *)
(** * Writing a closed block to the tree

    [LedgerFrm::Commit] (src/ledger/ledger_frm.cpp): the accounts of the
    environment are written to the account tree in the order of their address
    texts, under the bytes the texts decode to, and each account writes its
    assets and metadata. Of a trie only the contents are kept here. *)
From S2P Require Import Prelude Strings OrdMap AtomMap Account Chain Base58 Keys.

Open Scope string_scope.
Open Scope Z_scope.

Abbreviation index := (list ascii).
Abbreviation tries := (gmap AssetKey AssetStore * gmap string KeyPair)%type.

(** The account tree, and the tries of the accounts by decoded address. *)
Record Trees := MkTrees {
  tree_ : gmap index Account;
  account_tries_ : gmap index tries;
  new_count : Z; change_count : Z }.

(** [DecodeAddress] of an address text. *)
Definition decode (address : string) : outcome index := Keys.DecodeAddress (lit address).

(** [Environment::AccountFromDB] on a tree: what [account_tree] stands for. *)
Definition tree_lookup (t : gmap index Account) (address : string) : option Account :=
  match decode address with Returns i => t !! i | Throws _ => None end.

(** The address check of the ledger. *)
Definition address_check `{Keys.KeyParams} (address : string) : bool :=
  match Keys.IsAddressValid (lit address) with Returns b => b | Throws _ => false end.

Section Commit.
(** The root hashes of the tries of an account. *)
Context (asset_root : gmap AssetKey AssetStore -> string) (metadata_root : gmap string KeyPair -> string).

(** The entries of a [std::map<std::string, Record>] in iteration order. *)
Definition in_order (m : gmap string Rec) : ordmap string Rec :=
  foldr (fun kr o => om_set o kr.1 kr.2) [] (map_to_list m).

(** One entry of the loop. *)
Definition commit_entry (heap : gmap loc AccountFrm) (ts : Trees) (entry : string * Rec) : outcome Trees :=
  let '(key, r) := entry in
  if decide (type_ r = DEL) then Returns ts
  else
    match ptr_ r ≫= fun l => heap !! l with
    | None => Throws Trap
    | Some account =>
        let* own := decode (GetAccountAddress account) in
        let '(t', account) := UpdateHash asset_root metadata_root (default (∅, ∅) (account_tries_ ts !! own)) account in
        let* i := decode key in
        let is_new := negb (bool_decide (is_Some (tree_ ts !! i))) in
        Returns (MkTrees (<[i := account_info_ account]> (tree_ ts)) (<[own := t']> (account_tries_ ts))
                   (if is_new then new_count ts + 1 else new_count ts)
                   (if is_new then change_count ts else change_count ts + 1))
    end.

Fixpoint commit_loop (heap : gmap loc AccountFrm) (l : list (string * Rec)) (ts : Trees) : outcome Trees :=
  match l with
  | [] => Returns ts
  | e :: l' => let* ts' := commit_entry heap ts e in commit_loop heap l' ts'
  end.

(** [LedgerFrm::Commit] on the environment of the block. *)
Definition CommitTree (env : Store string AccountFrm) (ts : Trees) : outcome Trees :=
  commit_loop (heap_ env) (in_order (GetData 0 env)) ts.
End Commit.
