(* ===== verification/LedgerCommitFacts.v ===== *)
(** * What reaches the account tree

    Which account the tree holds after a block is written, that the coins of the
    tree change as those of the environment when no two texts of the environment
    are the same address, and a block that mints coins because two are. *)
From S2P Require Import Prelude Uint128 Strings OrdMap AtomMap AtomMapFacts Account Chain TxFrame Operation Transaction Ledger EnvFacts LedgerSpec CoinFacts BlockSpec Base58 Keys KeysFacts LedgerCommit.

Open Scope string_scope.
Open Scope Z_scope.

(** ** Iteration order *)

Lemma in_order_sorted m : om_sorted (in_order m).
Proof. unfold in_order. induction (map_to_list m) as [|[k r] l IH]; [done|]. cbn. by apply om_set_sorted. Qed.

Lemma in_order_find m k : om_find (in_order m) k = m !! k.
Proof.
  unfold in_order. rewrite <- (list_to_map_to_list m) at 2.
  induction (map_to_list m) as [|[k' r] l IH]; [done|]. cbn. rewrite om_find_set.
  destruct (key_eqb_spec k k') as [->|Hne]; [by rewrite lookup_insert_eq|]. by rewrite lookup_insert_ne.
Qed.

Lemma in_order_elem m k r : (k, r) ∈ in_order m <-> m !! k = Some r.
Proof.
  rewrite <- in_order_find. split; [by apply om_in_find, in_order_sorted|apply om_find_in].
Qed.

(** ** Totals of a tree *)

Definition total (t : gmap index Account) : Z := map_fold (fun _ a s => ac_balance a + s) 0 t.
Definition balance_at (t : gmap index Account) (i : index) : Z := from_option ac_balance 0 (t !! i).

Lemma total_insert_new t i a : t !! i = None -> total (<[i := a]> t) = ac_balance a + total t.
Proof. intros H. unfold total. rewrite map_fold_insert_L; [done| |done]. intros. lia. Qed.

Lemma total_insert t i a : total (<[i := a]> t) = total t - balance_at t i + ac_balance a.
Proof.
  unfold balance_at. destruct (t !! i) as [b|] eqn:E; cbn [from_option].
  - rewrite <- (insert_delete_id t i b E) at 2. rewrite <- insert_delete_eq, !total_insert_new by apply lookup_delete_eq. lia.
  - rewrite total_insert_new by done. lia.
Qed.

(** ** The loop *)

Section Loop.
Context (asset_root : gmap AssetKey AssetStore -> string) (metadata_root : gmap string KeyPair -> string).
Context (heap : gmap loc AccountFrm).

Definition live (e : string * Rec) (a : AccountFrm) : Prop :=
  type_ e.2 <> DEL /\ ptr_ e.2 ≫= (fun l => heap !! l) = Some a.

(** What an entry does to the tree. *)
Lemma entry_spec e ts ts' : commit_entry asset_root metadata_root heap ts e = Returns ts' ->
  (type_ e.2 = DEL /\ ts' = ts) \/
  (exists a i mh ah, live e a /\ decode e.1 = Returns i /\
     tree_ ts' = <[i := set_hashes mh ah (account_info_ a)]> (tree_ ts)).
Proof.
  destruct e as [k r]. unfold commit_entry. case_decide as Hd; [intros [= ->]; by left|].
  destruct (ptr_ r ≫= _) as [a|] eqn:Ea; [|done]. destruct (decode (GetAccountAddress a)) as [own|]; [|done]. cbn [obind].
  unfold UpdateHash. destruct (decode k) as [i|] eqn:Ei; [|done]. cbn [obind]. intros [= <-]. right.
  exists a, i. do 2 eexists. split; [by split|]. split; [done|]. done.
Qed.

(** The text [k] writes under the index [i]. *)
Definition writes (l : list (string * Rec)) (k : string) (i : index) : Prop :=
  exists r a, (k, r) ∈ l /\ live (k, r) a /\ decode k = Returns i.

Lemma loop_untouched l : forall ts ts' i, commit_loop asset_root metadata_root heap l ts = Returns ts' ->
  (forall k, ~ writes l k i) -> tree_ ts' !! i = tree_ ts !! i.
Proof.
  induction l as [|e l IH]; intros ts ts' i H Hn; cbn in H; [by injection H as ->|].
  destruct (commit_entry _ _ heap ts e) as [ts1|] eqn:E; [|done]. cbn in H.
  rewrite (IH _ _ _ H).
  2: { intros k (r & a & Hin & Hr). apply (Hn k). exists r, a. split; [by right|done]. }
  apply entry_spec in E as [[_ ->]|(a & j & mh & ah & Hl & Hj & ->)]; [done|].
  rewrite lookup_insert_ne; [done|]. intros <-. destruct e as [k r]. apply (Hn k). exists r, a. split; [by left|done].
Qed.

(** The last text that decodes to an index decides. *)
Lemma loop_last l : om_sorted l -> forall ts ts' k r a i, commit_loop asset_root metadata_root heap l ts = Returns ts' ->
  (k, r) ∈ l -> live (k, r) a -> decode k = Returns i ->
  (forall k', writes l k' i -> k' = k \/ string_ltb k' k = true) ->
  exists mh ah, tree_ ts' !! i = Some (set_hashes mh ah (account_info_ a)).
Proof.
  induction l as [|e l IH]; intros Hs ts ts' k r a i H Hin Hl Hi Hlast; [by apply elem_of_nil in Hin|].
  cbn in H. destruct (commit_entry _ _ heap ts e) as [ts1|] eqn:E; [|done]. cbn in H.
  pose proof Hs as Hs'. destruct e as [k0 r0]. cbn in Hs'. destruct Hs' as [Hlt Hs'].
  apply elem_of_cons in Hin as [[= <- <-]|Hin].
  - apply entry_spec in E as [[Hd _]|(a' & j & mh & ah & Hl' & Hj & Et)]; [by destruct Hl|].
    cbn in Hj. rewrite Hi in Hj. injection Hj as <-. destruct Hl as [_ Hl], Hl' as [_ Hl']. rewrite Hl in Hl'. injection Hl' as <-.
    exists mh, ah. rewrite (loop_untouched _ _ _ i H), Et; [by rewrite lookup_insert_eq|].
    intros k' (r' & a' & Hin' & Hr'). rewrite Forall_forall in Hlt. specialize (Hlt _ Hin'). cbn in Hlt.
    destruct (Hlast k') as [->|Hk']; [exists r', a'; split; [by right|done]| |].
    + pose proof (key_irrefl k) as Irr. cbn in Irr, Hlt. congruence.
    + pose proof (key_trans k k' k Hlt Hk') as Tr. pose proof (key_irrefl k). congruence.
  - apply (IH Hs' ts1 ts' k r a i H Hin Hl Hi). intros k' (r' & a' & Hin' & Hr').
    apply Hlast. exists r', a'. split; [by right|done].
Qed.
End Loop.

(** ** Coins *)

Definition dec (k : string) : index := match decode k with Returns i => i | Throws _ => [] end.
Definition entry_balance (heap : gmap loc AccountFrm) (e : string * Rec) : Z :=
  from_option GetAccountBalance 0 (ptr_ e.2 ≫= fun l => heap !! l).

(** Without two texts of one address every entry changes its own leaf. *)
Lemma loop_total ar mr heap l : forall ts ts', NoDup (map fst l) ->
  (forall k k' i, writes heap l k i -> writes heap l k' i -> k = k') -> Forall (fun e => type_ e.2 <> DEL) l ->
  commit_loop ar mr heap l ts = Returns ts' ->
  total (tree_ ts') = total (tree_ ts) + sumZ (map (fun e => entry_balance heap e - balance_at (tree_ ts) (dec e.1)) l)
  /\ Forall (fun e => exists i a, decode e.1 = Returns i /\ live heap e a) l.
Proof.
  induction l as [|e l IH]; intros ts ts' Hnd Hinj Hdel H; cbn in H; [injection H as ->; cbn; split; [lia|constructor]|].
  destruct (commit_entry _ _ heap ts e) as [ts1|] eqn:E; [|done]. cbn in H.
  apply Forall_cons in Hdel as [Hd Hdel]. apply NoDup_cons in Hnd as [Hni Hnd].
  apply entry_spec in E as [[Hd' _]|(a & i & mh & ah & Hl & Hi & Et)]; [done|].
  destruct (IH ts1 ts' Hnd) as [HT HF]; [|done|done|].
  { intros k k' j (r & b & Hin & Hw) (r' & b' & Hin' & Hw'). apply (Hinj k k' j).
    - exists r, b. split; [by right|done].
    - exists r', b'. split; [by right|done]. }
  split; [|constructor; [by exists i, a|done]]. cbn [map]. unfold sumZ in *. cbn [foldr].
  assert (Ee : entry_balance heap e = GetAccountBalance a) by (unfold entry_balance; by destruct Hl as [_ ->]).
  assert (Ed : dec e.1 = i) by (unfold dec; by rewrite Hi).
  rewrite HT, Et, total_insert, Ee, Ed.
  assert (Em : map (fun e' => entry_balance heap e' - balance_at (<[i := set_hashes mh ah (account_info_ a)]> (tree_ ts)) (dec e'.1)) l =
               map (fun e' => entry_balance heap e' - balance_at (tree_ ts) (dec e'.1)) l).
  2: { rewrite Em. change (ac_balance (set_hashes mh ah (account_info_ a))) with (GetAccountBalance a). lia. }
  apply map_ext_in. intros [k' r'] Hin'%list_elem_of_In. f_equal. unfold balance_at. rewrite lookup_insert_ne; [done|].
  intros Heq. cbn in Heq. rewrite Forall_forall in HF, Hdel. destruct (HF _ Hin') as (j & a' & Hj & Hl'). cbn in Hj.
  unfold dec in Heq. rewrite Hj in Heq. subst j.
  apply Hni. assert (e.1 = k') as ->; [|apply list_elem_of_In, in_map_iff; exists (k', r'); split; [done|by apply list_elem_of_In]].
  destruct e as [k r]. cbn. apply (Hinj k k' i); [exists r, a; split; [by left|done]|].
  exists r', a'. split; [by right|done].
Qed.

(** Two views that differ at the keys of a list. *)
Lemma coins_split D k v : k ∈ D -> coins D v = bal v k + coins (D ∖ {[ k ]}) v.
Proof.
  intros Hk. rewrite <- coins_insert by set_solver. f_equal. by apply union_difference_L; set_solver.
Qed.

Lemma coins_keys (ks : list string) v v' : NoDup ks -> forall D, (forall k, k ∈ ks -> k ∈ D) ->
  (forall k, k ∈ D -> k ∉ ks -> bal v' k = bal v k) ->
  coins D v' = coins D v + sumZ (map (fun k => bal v' k - bal v k) ks).
Proof.
  induction 1 as [|k ks Hk _ IH]; intros D Hsub Heq.
  - cbn. rewrite Z.add_0_r. apply coins_ext. intros k Hk. apply Heq; [done|apply not_elem_of_nil].
  - assert (HkD : k ∈ D) by (apply Hsub; by left).
    rewrite (coins_split D k v' HkD), (coins_split D k v HkD), (IH (D ∖ {[ k ]})).
    + unfold sumZ. cbn. lia.
    + intros k' Hk'. assert (k' <> k) by (by intros ->). specialize (Hsub k' ltac:(by right)). set_solver.
    + intros k' HD Hk'. apply Heq; [set_solver|]. rewrite elem_of_cons. set_solver.
Qed.

Lemma moved_unique v v' δ (ks : list string) : NoDup ks -> (forall k, k ∉ ks -> bal v' k = bal v k) -> moved v v' δ ->
  δ = sumZ (map (fun k => bal v' k - bal v k) ks).
Proof.
  intros Hnd Heq [D0 H]. specialize (H (D0 ∪ list_to_set ks) ltac:(set_solver)).
  rewrite (coins_keys ks v v' Hnd) in H; [lia| |].
  - intros k Hk. apply elem_of_union_r, elem_of_list_to_set, Hk.
  - intros k _ Hk. by apply Heq.
Qed.

(** ** Theorems *)

(** The texts of the environment under which an account is kept, and no two of them one address. *)
Definition no_alias (env : Store string AccountFrm) : Prop :=
  forall k k' i, is_Some (GetData 0 env !! k) -> is_Some (GetData 0 env !! k') ->
    decode k = Returns i -> decode k' = Returns i -> k = k'.
Definition no_deletions (env : Store string AccountFrm) : Prop :=
  forall k r, GetData 0 env !! k = Some r -> type_ r <> DEL.

Lemma content_entry (env : Store string AccountFrm) k a : content env 0 k = Some (Some a) ->
  exists r, GetData 0 env !! k = Some r /\ live (heap_ env) (k, r) a.
Proof.
  unfold content, GetData. destruct (map_at env 0 !! k) as [r|]; [|done]. cbn. intros H. exists r. split; [done|].
  unfold live. cbn. case_decide; [done|]. by injection H as H.
Qed.

Lemma entry_content (env : Store string AccountFrm) k r a : GetData 0 env !! k = Some r -> live (heap_ env) (k, r) a ->
  content env 0 k = Some (Some a).
Proof. intros Hr [Hd Hl]. unfold content, GetData in *. rewrite Hr. cbn in *. rewrite decide_False by done. by rewrite Hl. Qed.

Lemma view_outside `{P : LedgerParams} s k : k ∉ map fst (in_order (GetData 0 (env_ s))) ->
  bal (VB 0 s) k = bal AccountFromDB k.
Proof.
  intros Hk. unfold bal, VB, base_view, content. destruct (map_at (env_ s) 0 !! k) as [r|] eqn:E; [|done].
  destruct Hk. apply list_elem_of_In, in_map_iff. exists (k, r). split; [done|]. by apply list_elem_of_In, in_order_elem.
Qed.


(** ** A block that mints coins *)
Module MintSample.
#[local] Existing Instance KeySample.params.

(** Two texts of one SM2 address; the second sorts after the first. *)
Definition first_text : string := "buR5bM1z14EjTiB5WitJj4fcXPKF38YQt464".
Definition second_text : string := "buR5bM1z14EjTiB5WitJj4fcXPKF38u0t464".

Definition holder : Account := MkAccount first_text 4 (MkPriv 1 [] None) "" "" None 100000000.
Definition tree0 : gmap index Account := {[ dec first_text := holder ]}.
Definition trees0 : Trees := MkTrees tree0 ∅ 0 0.

Definition params : LedgerParams := {|
  IsAddressValid := address_check;
  account_tree := tree_lookup tree0;
  asset_trie := fun _ _ => None; metadata_trie := fun _ _ => None;
  ledger_version := 1003; last_closed_seq := 9; cfg_base_reserve := 10; cfg_gas_price := 1;
  forbid_addrs := []; self_chain_id := 1; SourceCodeCheck := fun _ _ => 0;
  contract_address := fun a _ _ => (a ++ "-contract")%string;
  ByteSize := fun _ => 200; tx_hash := fun _ => "hash";
  pubkey_valid := fun _ => true; pubkey_address := fun k => k;
  Chain.Verify := fun _ sign key => bool_decide (sign = key);
  clock := fun n => Z.of_nat n; GetValidators := fun _ => Some []; Execute := fun _ => mret 0; stack_repeats := 0 |}.

(** The holder pays 60,000,000 to the other text of its own address. *)
Definition pay : Operation :=
  MkOperation PAY_COIN "" "" (MkCreateAccount "" 0 "" None [] 0 "") (MkIssueAsset "" 0)
    (MkPayAsset "" None "") (MkSetMetadata "" "" 0 false) (MkSetSignerWeight 0 []) (MkSetThreshold 0 [])
    (MkPayCoin second_text 60000000 "") (MkLog "" []) (MkSetPrivilege "" [] "" []).
Definition tx : TransactionEnv :=
  MkTxEnv (MkTransaction first_text 5 1000 1 0 "" [pay] 1) [MkSignature first_text first_text].
Definition block : BlockInfo := MkBlock 10 777 10 false.
Definition value : ConsensusValue := MkValue [tx] (Some (MkValidation [] [])).
Definition start : LState := MkLState empty_store [] 0 0 empty_store JNull.

Definition run : option (BlockLog * LState * Trees) :=
  match @ApplyFollow params block value start with
  | Returns (Some b, s, []) =>
      match CommitTree (fun _ => "") (fun _ => "") (env_ s) trees0 with Returns ts => Some (b, s, ts) | _ => None end
  | _ => None
  end.
Definition run_ok : bool :=
  match run with
  | Some (b, s, ts) => bool_decide (error_txs b = ∅) && bool_decide (expire_txs b = ∅) &&
      (length (applied b) =? 1)%nat && (total (tree_ ts) =? total tree0 + 60000000)
  | None => false
  end.
Lemma run_is_ok : run_ok = true.
Proof. vm_compute. reflexivity. Qed.
Lemma texts_valid : address_check first_text && address_check second_text && string_ltb first_text second_text = true.
Proof. vm_compute. reflexivity. Qed.

Lemma texts_ordered : string_ltb first_text second_text = true.
Proof. vm_compute. reflexivity. Qed.
Lemma second_decodes : decode second_text = Returns (dec second_text).
Proof. vm_compute. reflexivity. Qed.

(** The environment of the block holds the two texts, nothing deleted. *)
Definition entries_ok : bool :=
  match run with
  | Some (b, s, ts) =>
      bool_decide (map_Forall (fun _ r => type_ r <> DEL) (GetData 0 (env_ s))) &&
      bool_decide (map_Forall (fun k _ => k = first_text \/ k = second_text) (GetData 0 (env_ s))) &&
      match content (env_ s) 0 second_text with Some (Some a) => GetAccountBalance a =? 160000000 | _ => false end
  | None => false
  end.
Lemma entries_are_ok : entries_ok = true.
Proof. vm_compute. reflexivity. Qed.

Lemma run_commits b s ts : run = Some (b, s, ts) -> CommitTree (fun _ => "") (fun _ => "") (env_ s) trees0 = Returns ts.
Proof.
  unfold run. destruct (ApplyFollow _ _ _) as [[[[b'|] s'] [|? ?]]|]; try discriminate.
  destruct (CommitTree _ _ _ _) as [ts'|] eqn:E; [|discriminate]. intros H. injection H as <- <- <-. exact E.
Qed.
End MintSample.


