(* ===== verification/Broadcast.v ===== *)
(** * Broadcasting

    [Broadcast] (src/overlay/broadcast.cpp): which peers know which message. A
    message is known by its hash; [records_couple_] lists the hashes by the time
    the record was made, for the timer that forgets them. *)
From S2P Require Import Prelude OrdMap.

Open Scope Z_scope.

Definition MICRO_UNITS_PER_SEC : Z := 1000000.

(** [BroadcastRecord] *)
Record BroadcastRecord := MkBRecord { br_type_ : Z; time_stamp_ : Z; peers_ : gset Z }.

(** [Broadcast] *)
Record Broadcast := MkBroadcast {
  records_couple_ : ordmap Z string;
  records_ : gmap string BroadcastRecord }.
Definition Broadcast_init : Broadcast := MkBroadcast [] ∅.

(** What the code calls: the hash. *)
Class BroadcastParams := { Crypto : string -> string }.

(** A request handed to the driver. *)
Record BSend := MkBSend { bs_peer : Z; bs_type : Z; bs_data : string }.

Section Broadcast.
Context `{BP : BroadcastParams}.
Implicit Types (b : Broadcast) (now peer_id type : Z) (data hash : string).

Definition new_record hash (r : BroadcastRecord) b : Broadcast :=
  MkBroadcast (om_set (records_couple_ b) (time_stamp_ r) hash) (<[hash := r]> (records_ b)).

(** [Add]; [now] is the clock read by the constructor of the record. *)
Definition Add now type data peer_id b : bool * Broadcast :=
  let hash := Crypto data in
  match records_ b !! hash with
  | None => (true, new_record hash (MkBRecord type now {[ peer_id ]}) b)
  | Some r => (false, MkBroadcast (records_couple_ b) (<[hash := MkBRecord (br_type_ r) (time_stamp_ r) ({[ peer_id ]} ∪ peers_ r)]> (records_ b)))
  end.

Definition IsQueued type data b : bool := bool_decide (is_Some (records_ b !! Crypto data)).

(** [Send]; [active] is what [GetActivePeerIds] returns, in the order of a [std::set]. *)
Definition Send now type data (active : list Z) b : Broadcast * list BSend :=
  let hash := Crypto data in
  match records_ b !! hash with
  | None =>
      (new_record hash (MkBRecord type now ({[ 0 ]} ∪ list_to_set active)) b,
       map (fun p => MkBSend p type data) active)
  | Some r =>
      let untold := filter (fun p => p ∉ peers_ r) active in
      (MkBroadcast (records_couple_ b)
         (<[hash := MkBRecord (br_type_ r) (time_stamp_ r) (list_to_set untold ∪ peers_ r)]> (records_ b)),
       map (fun p => MkBSend p type data) untold)
  end.

(** [OnTimer]: the loop over the expired entries, then over the oldest half. *)
Fixpoint expire_loop (current_time : Z) (couples : ordmap Z string) (recs : gmap string BroadcastRecord)
  : ordmap Z string * gmap string BroadcastRecord :=
  match couples with
  | (t, hash) :: l =>
      if t + 3600 * MICRO_UNITS_PER_SEC <? current_time then expire_loop current_time l (delete hash recs)
      else (couples, recs)
  | [] => ([], recs)
  end.

Fixpoint halve_loop (n : nat) (couples : ordmap Z string) (recs : gmap string BroadcastRecord)
  : ordmap Z string * gmap string BroadcastRecord :=
  match n, couples with
  | S n', (_, hash) :: l => halve_loop n' l (delete hash recs)
  | _, _ => (couples, recs)
  end.

Definition max_size : Z := 1000 * 1000.

Definition OnTimer_broadcast (current_time : Z) b : Broadcast :=
  let '(couples, recs) := expire_loop current_time (records_couple_ b) (records_ b) in
  let '(couples, recs) :=
    if max_size <? Z.of_nat (length couples) then halve_loop (Z.to_nat (max_size / 2)) couples recs
    else (couples, recs) in
  MkBroadcast couples recs.

Definition GetRecordSize b : Z := Z.of_nat (size (records_ b)).
End Broadcast.
