(* ===== verification/Gossip.v ===== *)
(** * How a message spreads

    The handlers of broadcast messages in [PeerNetwork] (src/overlay/peer_network.cpp:
    OnMethodTransaction, OnMethodPbft, OnMethodLedgerUpNotify, BroadcastMsg,
    ReceiveBroadcastMsg), and a network of nodes that run them on one message:
    copies under way on the connections, tasks posted to the main threads, and
    the broadcast records of every node, which no timer has forgotten. *)
From S2P Require Import Prelude OrdMap Broadcast.

Open Scope Z_scope.

Definition OVERLAY_MSGTYPE_LEDGER_UPGRADE_NOTIFY : Z := 7.

Section Handlers.
Context `{BP : BroadcastParams}.
Implicit Types (b : Broadcast) (now conn_id type : Z) (data : string).

(** [BroadcastMsg], [ReceiveBroadcastMsg] *)
Definition BroadcastMsg now type data (active : list Z) b : Broadcast * list BSend := Send now type data active b.
Definition ReceiveBroadcastMsg now type data conn_id b : bool * Broadcast := Add now type data conn_id b.

(** The common part of [OnMethodTransaction] and [OnMethodPbft]: a message that is queued is dropped, another
    one is posted to the main thread. *)
Definition OnMethodPosted type data conn_id b : option (Z * string) :=
  if IsQueued type data b then None else Some (conn_id, data).

Definition BYTES_PER_MEGA : Z := 1024 * 1024.
Definition OVERLAY_MSGTYPE_TRANSACTION : Z := 4.
Definition OVERLAY_MSGTYPE_PBFT : Z := 6.

(** [OnMethodTransaction]; [parses] says whether the data is a transaction envelope. *)
Definition OnMethodTransaction (parses : bool) data conn_id b : bool * option (Z * string) :=
  if BYTES_PER_MEGA + 2 * BYTES_PER_MEGA <? Z.of_nat (String.length data) then (false, None)
  else
    match OnMethodPosted OVERLAY_MSGTYPE_TRANSACTION data conn_id b with
    | None => (true, None)
    | Some t => if parses then (true, Some t) else (false, None)
    end.

(** [OnMethodPbft]; the flags say whether the envelope holds a message and whether its sender is a validator. *)
Definition OnMethodPbft (has_pbft validator : bool) data conn_id b : bool * option (Z * string) :=
  if 16 * BYTES_PER_MEGA + 2 * BYTES_PER_MEGA <? Z.of_nat (String.length data) then (false, None)
  else if negb has_pbft then (false, None)
  else if negb validator then (true, None)
  else (true, OnMethodPosted OVERLAY_MSGTYPE_PBFT data conn_id b).

(** The posted task: [accepted] is what [GlueManager::OnTransaction] or [OnConsensus] returned. *)
Definition RunPosted now type data conn_id (active : list Z) (accepted : bool) b : Broadcast * list BSend :=
  if accepted then
    let '(_, b) := ReceiveBroadcastMsg now type data conn_id b in
    BroadcastMsg now type data active b
  else (b, []).

(** [OnMethodLedgerUpNotify] after its validator check; the flag says that
    [GlueManager::OnRecvLedgerUpMsg] is called. *)
Definition OnMethodLedgerUpNotify now data conn_id (active : list Z) b : Broadcast * list BSend * bool :=
  let '(fresh, b) := ReceiveBroadcastMsg now OVERLAY_MSGTYPE_LEDGER_UPGRADE_NOTIFY data conn_id b in
  if fresh then
    let '(b, out) := BroadcastMsg now OVERLAY_MSGTYPE_LEDGER_UPGRADE_NOTIFY data active b in (b, out, true)
  else (b, [], false).
End Handlers.

(** ** A network of nodes *)

Section Network.
Context `{BP : BroadcastParams} {Node : Type} `{EqDecision Node}.

(** The nodes; the ids of a node's active connections; where a connection leads: the other node
    and its id of the connection. *)
Record Topology := MkTopology {
  nodes : list Node;
  active : Node -> list Z;
  link : Node -> Z -> option (Node * Z);
  nodes_nodup : NoDup nodes;
  nodes_all : forall i, i ∈ nodes;
  active_nodup : forall i, NoDup (active i);
  active_link : forall i p, p ∈ active i <-> is_Some (link i p);
  link_sym : forall i p j q, link i p = Some (j, q) -> link j q = Some (i, p) }.

Context (T : Topology) (type : Z) (data : string).
(** What the node's main thread says of the message. *)
Context (accepts : Node -> bool).

(** Copies under way and posted tasks, by receiver and its connection; the nodes that acted on a
    notification. *)
Record Gossip := MkGossip {
  g_node : Node -> Broadcast;
  g_flight : list (Node * Z);
  g_tasks : list (Node * Z);
  g_acted : list Node }.

Definition set_node (i : Node) (b : Broadcast) (g : Node -> Broadcast) : Node -> Broadcast :=
  fun j => if decide (i = j) then b else g j.

(** The copies a node's sends put under way. *)
Definition deliveries (i : Node) (out : list BSend) : list (Node * Z) :=
  omap (fun s => link T i (bs_peer s)) out.

Definition is_notify : bool := type =? OVERLAY_MSGTYPE_LEDGER_UPGRADE_NOTIFY.

(** A node sends the message of its own accord. *)
Definition originate (now : Z) (i : Node) (g : Gossip) : Gossip :=
  let '(b, out) := BroadcastMsg now type data (active T i) (g_node g i) in
  MkGossip (set_node i b (g_node g)) (deliveries i out ++ g_flight g) (g_tasks g) (g_acted g).

(** A copy arrives at node [i] on connection [p]; [rest] is still under way. *)
Definition arrive (now : Z) (i : Node) (p : Z) (rest : list (Node * Z)) (g : Gossip) : Gossip :=
  if is_notify then
    let '(b, out, acted) := OnMethodLedgerUpNotify now data p (active T i) (g_node g i) in
    MkGossip (set_node i b (g_node g)) (deliveries i out ++ rest) (g_tasks g)
      (if acted then i :: g_acted g else g_acted g)
  else
    match OnMethodPosted type data p (g_node g i) with
    | Some (conn_id, _) => MkGossip (g_node g) rest ((i, conn_id) :: g_tasks g) (g_acted g)
    | None => MkGossip (g_node g) rest (g_tasks g) (g_acted g)
    end.

(** The main thread of node [i] runs a task; [rest] are the other tasks. *)
Definition run_task (now : Z) (i : Node) (p : Z) (rest : list (Node * Z)) (g : Gossip) : Gossip :=
  let '(b, out) := RunPosted now type data p (active T i) (accepts i) (g_node g i) in
  MkGossip (set_node i b (g_node g)) (deliveries i out ++ g_flight g) rest (g_acted g).

(** Copies and tasks are taken in any order. *)
Inductive spread : Gossip -> Gossip -> Prop :=
| spread_arrive now i p rest g : g_flight g ≡ₚ (i, p) :: rest -> spread g (arrive now i p rest g)
| spread_task now i p rest g : g_tasks g ≡ₚ (i, p) :: rest -> spread g (run_task now i p rest g).

Inductive gossip_step : Gossip -> Gossip -> Prop :=
| step_spread g g' : spread g g' -> gossip_step g g'
| step_originate now i g : gossip_step g (originate now i g).

(** Nobody knows the message; every node may know others. *)
Definition silent (g : Gossip) : Prop :=
  (forall i, records_ (g_node g i) !! Crypto data = None) /\ g_flight g = [] /\ g_tasks g = [] /\ g_acted g = [].

Inductive gossip_reach (g0 : Gossip) : Gossip -> Prop :=
| gr_start : gossip_reach g0 g0
| gr_step g g' : gossip_reach g0 g -> gossip_step g g' -> gossip_reach g0 g'.
End Network.

Arguments Topology : clear implicits.
Arguments Gossip : clear implicits.
