(* ===== verification/GossipFacts.v ===== *)
(** * Broadcasts reach everybody and stop

    What the records of a node say, the invariant of a spreading message, a measure
    that every step of the network decreases, and the life of the records under the
    timer. *)
From S2P Require Import Prelude OrdMap Broadcast Gossip.

Open Scope Z_scope.

Section Node.
Context `{BP : BroadcastParams} (data : string).
Implicit Types (b : Broadcast).

Definition knows_data b : Prop := is_Some (records_ b !! Crypto data).
Definition told b : gset Z := from_option peers_ ∅ (records_ b !! Crypto data).

#[export] Instance knows_data_dec b : Decision (knows_data b).
Proof. unfold knows_data. apply _. Defined.

Lemma Send_spec now type act b : let '(b', out) := Send now type data act b in
  knows_data b' /\ (forall p, p ∈ act -> p ∈ told b') /\
  map bs_peer out = filter (fun p => p ∉ told b) act.
Proof.
  unfold Send, knows_data, told. destruct (records_ b !! Crypto data) as [r|]; cbn.
  - rewrite lookup_insert_eq. cbn. split; [done|]. split.
    + intros p Hp. destruct (decide (p ∈ peers_ r)); [set_solver|]. apply elem_of_union_l, elem_of_list_to_set, list_elem_of_filter. done.
    + rewrite map_map. cbn. apply map_id.
  - rewrite lookup_insert_eq. cbn. split; [done|]. split; [set_solver|].
    rewrite map_map. cbn. rewrite map_id. symmetry. induction act as [|p l IH]; [done|].
    rewrite filter_cons_True by set_solver. by rewrite IH.
Qed.

Lemma Add_spec now type p b : let '(fresh, b') := Add now type data p b in
  knows_data b' /\ told b' = {[ p ]} ∪ told b /\ (fresh = true <-> ~ knows_data b).
Proof.
  unfold Add, knows_data, told. destruct (records_ b !! Crypto data) as [r|] eqn:E; cbn; rewrite lookup_insert_eq; cbn.
  - split; [done|]. split; [done|]. split; [done|]. intros H. by destruct H.
  - split; [done|]. split; [set_solver|]. split; [|done]. by intros _ [? ?].
Qed.

(** Learning the message from connection [p] and passing it on. *)
Lemma learn_spec now type p act b :
  let '(b', out) := Send now type data act (Add now type data p b).2 in
  knows_data b' /\ (forall x, x ∈ act -> x ∈ told b') /\
  map bs_peer out = filter (fun x => x ∉ {[ p ]} ∪ told b) act.
Proof.
  pose proof (Add_spec now type p b) as HA. destruct (Add now type data p b) as [fresh b1]. destruct HA as (_ & Ht & _).
  cbn [snd]. pose proof (Send_spec now type act b1) as HS. destruct (Send now type data act b1) as [b2 out].
  destruct HS as (K & A & O). split; [done|]. split; [done|]. by rewrite O, Ht.
Qed.

Lemma IsQueued_spec type b : IsQueued type data b = bool_decide (knows_data b).
Proof. done. Qed.
End Node.

Section Spread.
Context `{BP : BroadcastParams} {Node : Type} `{EqDecision Node} (T : Topology Node).
Context (type : Z) (data : string) (accepts : Node -> bool).
Implicit Types (g : Gossip Node) (i j : Node) (p q : Z).

Definition knows g i : Prop := knows_data data (g_node g i).
Definition told_by g i : gset Z := told data (g_node g i).
(** A node that passes the message on when it gets it. *)
Definition relays i : bool := is_notify type || accepts i.

Record spreading g : Prop := {
  sp_active : forall i p, knows g i -> p ∈ active T i -> p ∈ told_by g i;
  sp_told : forall i p j q, knows g i -> link T i p = Some (j, q) ->
    knows g j \/ (j, q) ∈ g_flight g ++ g_tasks g \/ relays j = false;
  sp_from : forall i p, (i, p) ∈ g_flight g ++ g_tasks g -> exists j q, link T i p = Some (j, q) /\ knows g j }.

Lemma deliveries_elem i out j q : (j, q) ∈ deliveries T i out <-> exists p, p ∈ map bs_peer out /\ link T i p = Some (j, q).
Proof.
  unfold deliveries. rewrite list_elem_of_omap. split.
  - intros (s & Hs & E). exists (bs_peer s). split; [|done]. apply list_elem_of_In, in_map. by apply list_elem_of_In.
  - intros (p & Hp & E). apply list_elem_of_In, in_map_iff in Hp as (s & <- & Hs). exists s. split; [by apply list_elem_of_In|done].
Qed.

Lemma set_node_same i b f : set_node i b f i = b.
Proof. unfold set_node. by rewrite decide_True. Qed.
Lemma set_node_other i j b f : i <> j -> set_node i b f j = f j.
Proof. intros. unfold set_node. by rewrite decide_False. Qed.

(** Node [i] comes to know the message, or did already, and sends to the active connections it
    has not told, those in [Y] apart, whose other ends know it. *)
Lemma spreading_update g i b out (Y : gset Z) rest tasks acted :
  spreading g -> knows_data data b -> (forall p, p ∈ active T i -> p ∈ told data b) ->
  map bs_peer out = filter (fun p => p ∉ Y ∪ told_by g i) (active T i) ->
  (forall p j q, p ∈ Y -> link T i p = Some (j, q) -> knows g j) ->
  (forall x, x ∈ rest ++ tasks -> x ∈ g_flight g ++ g_tasks g) ->
  (forall x, x ∈ g_flight g ++ g_tasks g -> x.1 = i \/ x ∈ rest ++ tasks) ->
  (~ knows g i -> told_by g i = ∅) ->
  spreading (MkGossip (set_node i b (g_node g)) (deliveries T i out ++ rest) tasks acted).
Proof.
  intros [HA HT HF] Kb Ab Eo HY Hsub Hsup Hun.
  assert (Hk : forall j, knows g j -> knows (MkGossip (set_node i b (g_node g)) (deliveries T i out ++ rest) tasks acted) j).
  { intros j Kj. unfold knows. cbn. destruct (decide (i = j)) as [->|]; [by rewrite set_node_same|by rewrite set_node_other]. }
  assert (Hki : knows (MkGossip (set_node i b (g_node g)) (deliveries T i out ++ rest) tasks acted) i)
    by (unfold knows; cbn; by rewrite set_node_same).
  split.
  - intros j p. unfold knows, told_by. cbn. destruct (decide (i = j)) as [->|Hne].
    + rewrite set_node_same. intros _. apply Ab.
    + rewrite set_node_other by done. apply HA.
  - intros j p j' q Kj Hl. destruct (decide (j' = i)) as [->|Hj']; [by left|].
    assert (Hold : knows g j' \/ (j', q) ∈ g_flight g ++ g_tasks g \/ relays j' = false \/ (j', q) ∈ deliveries T i out).
    { unfold knows in Kj. cbn in Kj. destruct (decide (i = j)) as [<-|Hne].
      - assert (Hp : p ∈ active T i) by (apply active_link; by eexists).
        destruct (decide (p ∈ Y)) as [HpY|HpY]; [left; by apply (HY p j' q)|].
        destruct (decide (p ∈ told_by g i)) as [Ht|Ht].
        + destruct (decide (knows g i)) as [Ki|Ki]; [|rewrite (Hun Ki) in Ht; set_solver].
          destruct (HT i p j' q Ki Hl) as [|[|]]; tauto.
        + do 3 right. apply deliveries_elem. exists p. split; [|done]. rewrite Eo. apply list_elem_of_filter. set_solver.
      - rewrite set_node_other in Kj by done. destruct (HT j p j' q Kj Hl) as [|[|]]; tauto. }
    destruct Hold as [Hold|[Hold|[Hold|Hold]]].
    + left. by apply Hk.
    + apply Hsup in Hold as [Hold|Hold]; [done|]. right. left. cbn. set_solver.
    + by do 2 right.
    + right. left. cbn. set_solver.
  - cbn. intros j p Hin. rewrite <- app_assoc in Hin. apply elem_of_app in Hin as [Hin|Hin].
    + apply deliveries_elem in Hin as (p' & _ & Hl). exists i, p'. split; [by apply link_sym|done].
    + apply Hsub, HF in Hin as (j' & q & Hl & Kj). exists j', q. split; [done|by apply Hk].
Qed.

Lemma told_unknown g i : ~ knows g i -> told_by g i = ∅.
Proof. unfold knows, told_by, knows_data, told. destruct (_ !! _); [|done]. intros H. by destruct H. Qed.

(** Nothing is sent by a node that knows the message. *)
Lemma nothing_untold g i (Y : gset Z) : spreading g -> knows g i -> filter (fun p => p ∉ Y ∪ told_by g i) (active T i) = [].
Proof.
  intros H K. destruct (filter _ _) as [|x l] eqn:E; [done|]. exfalso.
  assert (Hx : x ∈ filter (fun p => p ∉ Y ∪ told_by g i) (active T i)) by (rewrite E; by left).
  apply list_elem_of_filter in Hx as [Hx Ha]. apply Hx. apply elem_of_union_r, (sp_active g H); done.
Qed.

(** A copy or task of node [i] disappears while everybody keeps what they know. *)
Lemma spreading_drop g i p fl ta acted :
  spreading g -> g_flight g ++ g_tasks g ≡ₚ (i, p) :: fl ++ ta -> (knows g i \/ relays i = false) ->
  spreading (MkGossip (g_node g) fl ta acted).
Proof.
  intros [HA HT HF] HP Hi. split.
  - apply HA.
  - intros j x j' q Kj Hl. destruct (HT j x j' q Kj Hl) as [|[Hin|]]; [by left| |by do 2 right].
    rewrite HP in Hin. apply elem_of_cons in Hin as [[= -> ->]|Hin]; [|by right; left].
    destruct Hi; [by left|by do 2 right].
  - intros j x Hin. apply HF. rewrite HP. by right.
Qed.

(** The same with the copy turned into a task. *)
Lemma spreading_move g fl ta acted : spreading g -> g_flight g ++ g_tasks g ≡ₚ fl ++ ta ->
  spreading (MkGossip (g_node g) fl ta acted).
Proof.
  intros [HA HT HF] HP. split; [apply HA| |].
  - intros j x j' q Kj Hl. destruct (HT j x j' q Kj Hl) as [|[Hin|]]; [by left|right; left; cbn; by rewrite <- HP|by do 2 right].
  - intros j x Hin. apply HF. rewrite HP. exact Hin.
Qed.

Lemma link_knows g i p rest others : spreading g -> g_flight g ++ g_tasks g ≡ₚ (i, p) :: rest ++ others ->
  forall x j q, x ∈ ({[ p ]} : gset Z) -> link T i x = Some (j, q) -> knows g j.
Proof.
  intros H HP x j q Hx%elem_of_singleton Hl. subst x. destruct (sp_from g H i p) as (j' & q' & Hl' & K); [rewrite HP; by left|].
  rewrite Hl in Hl'. by injection Hl' as <- <-.
Qed.

Lemma spreading_ext g g' : spreading g -> (forall j, g_node g' j = g_node g j) -> g_flight g' = g_flight g -> g_tasks g' = g_tasks g ->
  spreading g'.
Proof.
  intros [HA HT HF] Hn Hf Ht. split; unfold knows, told_by in *.
  - intros i p. rewrite Hn. apply HA.
  - intros i p j q. rewrite !Hn, Hf, Ht. apply HT.
  - intros i p. rewrite Hf, Ht. intros Hin. destruct (HF i p Hin) as (j & q & Hl & K). exists j, q. by rewrite Hn.
Qed.

(** Node [i] takes the copy or task [(i, p)] and passes the message on. *)
Lemma spreading_learn now g i p fl ta acted :
  spreading g -> g_flight g ++ g_tasks g ≡ₚ (i, p) :: fl ++ ta ->
  let '(b, out) := Send now type data (active T i) (Add now type data p (g_node g i)).2 in
  spreading (MkGossip (set_node i b (g_node g)) (deliveries T i out ++ fl) ta acted) /\
  (knows g i -> out = []).
Proof.
  intros H HP. pose proof (learn_spec data now type p (active T i) (g_node g i)) as L.
  destruct (Send _ _ _ _ _) as [b out]. destruct L as (K & A & O). split.
  - apply (spreading_update g i b out {[ p ]}); try done.
    + by apply (link_knows g i p fl ta).
    + intros x Hx. rewrite HP. by right.
    + intros x Hx. rewrite HP in Hx. apply elem_of_cons in Hx as [->|Hx]; [by left|by right].
    + apply told_unknown.
  - intros Ki. fold (told_by g i) in O. rewrite (nothing_untold g i {[ p ]} H Ki) in O. by destruct out.
Qed.

Lemma originate_ok now g i : spreading g ->
  spreading (originate T type data now i g) /\ (knows g i -> g_flight (originate T type data now i g) = g_flight g).
Proof.
  intros H. unfold originate, BroadcastMsg. pose proof (Send_spec data now type (active T i) (g_node g i)) as L.
  destruct (Send _ _ _ _ _) as [b out]. destruct L as (K & A & O).
  assert (O' : map bs_peer out = filter (fun p => p ∉ ∅ ∪ told_by g i) (active T i)) by (by rewrite (left_id_L ∅ (∪))).
  split.
  - apply (spreading_update g i b out ∅); try done; [intros x Hx; by right|apply told_unknown].
  - intros Ki. rewrite (nothing_untold g i ∅ H Ki) in O'. by destruct out.
Qed.

Lemma arrive_ok now g i p rest : spreading g -> g_flight g ≡ₚ (i, p) :: rest -> spreading (arrive T type data now i p rest g).
Proof.
  intros H HP. assert (HP' : g_flight g ++ g_tasks g ≡ₚ (i, p) :: rest ++ g_tasks g) by (by rewrite HP).
  unfold arrive. destruct (is_notify type) eqn:En.
  - unfold OnMethodLedgerUpNotify, ReceiveBroadcastMsg, BroadcastMsg.
    assert (type = OVERLAY_MSGTYPE_LEDGER_UPGRADE_NOTIFY) as <- by (by apply Z.eqb_eq).
    pose proof (Add_spec data now type p (g_node g i)) as HA.
    pose proof (spreading_learn now g i p rest (g_tasks g)) as HL.
    destruct (Add now type data p (g_node g i)) as [[|] b1]; cbn [snd] in *; destruct HA as (K1 & T1 & F1).
    + specialize (HL (i :: g_acted g) H HP'). destruct (Send _ _ _ _ _) as [b2 out]. apply HL.
    + assert (Ki : knows g i) by (destruct (decide (knows_data data (g_node g i))) as [|Hn]; [done|by apply F1 in Hn]).
      apply (spreading_update g i b1 [] {[ p ]}); try done.
      * intros x Hx. rewrite T1. apply elem_of_union_r, (sp_active g H); done.
      * by rewrite (nothing_untold g i {[ p ]} H Ki).
      * by apply (link_knows g i p rest (g_tasks g)).
      * intros x Hx. rewrite HP'. by right.
      * intros x Hx. rewrite HP' in Hx. apply elem_of_cons in Hx as [->|Hx]; [by left|by right].
  - unfold OnMethodPosted. rewrite IsQueued_spec. case_bool_decide as Hk.
    + apply (spreading_drop g i p); [done|done|by left].
    + apply spreading_move; [done|]. rewrite HP'. apply Permutation_middle.
Qed.

Lemma task_ok now g i p rest : spreading g -> is_notify type = false -> g_tasks g ≡ₚ (i, p) :: rest ->
  spreading (run_task T type data accepts now i p rest g).
Proof.
  intros H En HP. assert (HP' : g_flight g ++ g_tasks g ≡ₚ (i, p) :: g_flight g ++ rest).
  { rewrite HP. symmetry. apply Permutation_middle. }
  unfold run_task, RunPosted. destruct (accepts i) eqn:Ea.
  - unfold ReceiveBroadcastMsg, BroadcastMsg. pose proof (spreading_learn now g i p (g_flight g) rest (g_acted g) H HP') as HL.
    destruct (Add now type data p (g_node g i)) as [fresh b1]. cbn [snd] in HL. destruct (Send _ _ _ _ _) as [b2 out]. apply HL.
  - apply (spreading_drop g i p (g_flight g) rest (g_acted g)) in HP' as [HA HT HF]; [|done|right; unfold relays; by rewrite En].
    apply (spreading_ext (MkGossip (g_node g) (g_flight g) rest (g_acted g))); [by split| |done|done].
    intros j. cbn. destruct (decide (i = j)) as [->|]; [by rewrite set_node_same|by rewrite set_node_other].
Qed.

Lemma spreading_step g g' : spreading g -> (is_notify type = true -> g_tasks g = []) -> gossip_step T type data accepts g g' ->
  spreading g' /\ (is_notify type = true -> g_tasks g' = []).
Proof.
  intros H Hn Hs. destruct Hs as [g g' [now i p rest g0 HP|now i p rest g0 HP]|now i g].
  - split; [by apply arrive_ok|]. intros En. unfold arrive. rewrite En. destruct (OnMethodLedgerUpNotify _ _ _ _ _) as [[b out] ac]. by apply Hn.
  - destruct (is_notify type) eqn:En; [|split; [by apply task_ok|done]]. rewrite (Hn eq_refl) in HP. by apply Permutation_nil_cons in HP.
  - split; [by apply originate_ok|]. intros En. unfold originate. destruct (BroadcastMsg _ _ _ _ _). by apply Hn.
Qed.

Lemma silent_spreading g : silent data g -> spreading g.
Proof.
  intros (Hs & Hf & Ht & _). split.
  - intros i p [r Hr]. by rewrite Hs in Hr.
  - intros i p j q [r Hr]. by rewrite Hs in Hr.
  - rewrite Hf, Ht. intros i p Hin. by apply elem_of_nil in Hin.
Qed.

Lemma reach_spreading g0 g : silent data g0 -> gossip_reach T type data accepts g0 g ->
  spreading g /\ (is_notify type = true -> g_tasks g = []).
Proof.
  intros Hs. induction 1 as [|g g' _ [IH1 IH2] Hst]; [split; [by apply silent_spreading|intros _; apply Hs]|].
  by apply spreading_step in Hst.
Qed.

(** ** The measure *)

(** Three for every connection that a node may still use, two for a copy under way, one for a task. *)
Definition unsent g i : nat := if decide (knows g i) then 0%nat else length (active T i).
Definition work g : nat := (3 * list_sum (map (unsent g) (nodes T)) + 2 * length (g_flight g) + length (g_tasks g))%nat.

Lemma sum_change (f f' : Node -> nat) i (l : list Node) : NoDup l -> i ∈ l -> (forall j, j <> i -> f' j = f j) ->
  (list_sum (map f' l) + f i = list_sum (map f l) + f' i)%nat.
Proof.
  unfold list_sum. induction 1 as [|x l Hx _ IH]; intros Hi Hf; [by apply elem_of_nil in Hi|]. cbn [map fold_right].
  destruct (decide (x = i)) as [->|Hne].
  - assert (map f' l = map f l) as -> by (apply map_ext_in; intros j Hj; apply Hf; intros ->; by apply Hx, list_elem_of_In). lia.
  - rewrite (Hf x Hne). apply elem_of_cons in Hi as [->|Hi]; [done|]. specialize (IH Hi Hf). lia.
Qed.

Lemma deliveries_length i out : (length (deliveries T i out) <= length out)%nat.
Proof.
  unfold deliveries. induction out as [|s l IH]; [done|].
  change (omap (fun s => link T i (bs_peer s)) (s :: l)) with
    (match link T i (bs_peer s) with Some y => y :: omap (fun s => link T i (bs_peer s)) l | None => omap (fun s => link T i (bs_peer s)) l end).
  destruct (link T i (bs_peer s)); cbn [length]; lia.
Qed.

(** Node [i] passes the message on: what it sends was counted. *)
Lemma work_learn g i b out fl ta acted (Y : gset Z) :
  knows_data data b -> map bs_peer out = filter (fun x => x ∉ Y ∪ told_by g i) (active T i) -> (knows g i -> out = []) ->
  (work (MkGossip (set_node i b (g_node g)) (deliveries T i out ++ fl) ta acted) <=
   3 * list_sum (map (unsent g) (nodes T)) + 2 * length fl + length ta)%nat.
Proof.
  intros Kb O Hknown. unfold work. cbn [g_flight g_tasks]. rewrite length_app. set (g' := MkGossip _ _ _ _).
  assert (Hs := sum_change (unsent g) (unsent g') i (nodes T) (nodes_nodup T) (nodes_all T i)).
  assert (Hi : unsent g' i = 0%nat) by (unfold unsent, knows; cbn; rewrite decide_True; [done|by rewrite set_node_same]).
  rewrite Hi in Hs. specialize (Hs ltac:(intros j Hj; unfold unsent, knows; cbn; by rewrite set_node_other)).
  pose proof (deliveries_length i out) as Hd.
  assert (Ho : (length out <= unsent g i)%nat); [|lia].
  unfold unsent. destruct (decide (knows g i)) as [K|K]; [rewrite (Hknown K); cbn; lia|].
  rewrite <- (length_map bs_peer), O. apply length_filter.
Qed.

Lemma work_take now g i p fl ta acted : spreading g -> g_flight g ++ g_tasks g ≡ₚ (i, p) :: fl ++ ta ->
  let '(b, out) := Send now type data (active T i) (Add now type data p (g_node g i)).2 in
  (work (MkGossip (set_node i b (g_node g)) (deliveries T i out ++ fl) ta acted) <=
   3 * list_sum (map (unsent g) (nodes T)) + 2 * length fl + length ta)%nat.
Proof.
  intros H HP. pose proof (learn_spec data now type p (active T i) (g_node g i)) as L.
  pose proof (spreading_learn now g i p fl ta acted H HP) as HS.
  destruct (Send _ _ _ _ _) as [b out]. destruct L as (K & _ & O), HS as [_ HS]. by apply (work_learn g i b out fl ta acted {[ p ]}).
Qed.

Lemma unsent_same g i b fl ta acted : (knows_data data b <-> knows g i) ->
  map (unsent (MkGossip (set_node i b (g_node g)) fl ta acted)) (nodes T) = map (unsent g) (nodes T).
Proof.
  intros Hb. apply map_ext. intros j. unfold unsent, knows. cbn. destruct (decide (i = j)) as [->|]; [|by rewrite set_node_other].
  rewrite set_node_same. unfold knows in Hb. by destruct (decide (knows_data data b)), (decide (knows_data data (g_node g j))); tauto.
Qed.

Lemma spread_work g g' : spreading g -> (is_notify type = true -> g_tasks g = []) -> spread T type data accepts g g' ->
  (work g' < work g)%nat.
Proof.
  intros H Hn Hs. destruct Hs as [now i p rest g HP|now i p rest g HP].
  - assert (Hl : length (g_flight g) = S (length rest)) by (by rewrite HP).
    assert (HP' : g_flight g ++ g_tasks g ≡ₚ (i, p) :: rest ++ g_tasks g) by (by rewrite HP).
    unfold arrive. destruct (is_notify type) eqn:En.
    + unfold OnMethodLedgerUpNotify, ReceiveBroadcastMsg, BroadcastMsg.
      assert (type = OVERLAY_MSGTYPE_LEDGER_UPGRADE_NOTIFY) as <- by (by apply Z.eqb_eq).
      pose proof (Add_spec data now type p (g_node g i)) as HA. pose proof (work_take now g i p rest (g_tasks g)) as HW.
      destruct (Add now type data p (g_node g i)) as [[|] b1]; cbn [snd] in *; destruct HA as (K1 & _ & F1).
      * specialize (HW (i :: g_acted g) H HP'). destruct (Send _ _ _ _ _) as [b2 out]. unfold work at 2. lia.
      * assert (Ki : knows g i) by (destruct (decide (knows_data data (g_node g i))) as [|Hx]; [done|by apply F1 in Hx]).
        unfold work. cbn [g_flight g_tasks deliveries omap list_omap app]. rewrite unsent_same by done. lia.
    + destruct (OnMethodPosted _ _ _ _) as [[c d]|]; unfold work; cbn [g_flight g_tasks length];
        change (unsent (MkGossip (g_node g) ?a ?b ?c)) with (unsent g); lia.
  - assert (Hl : length (g_tasks g) = S (length rest)) by (by rewrite HP).
    assert (HP' : g_flight g ++ g_tasks g ≡ₚ (i, p) :: g_flight g ++ rest) by (rewrite HP; symmetry; apply Permutation_middle).
    unfold run_task, RunPosted. destruct (accepts i).
    + unfold ReceiveBroadcastMsg, BroadcastMsg. pose proof (work_take now g i p (g_flight g) rest (g_acted g) H HP') as HW.
      destruct (Add now type data p (g_node g i)) as [fresh b1]. cbn [snd] in HW. destruct (Send _ _ _ _ _) as [b2 out].
      unfold work at 2. lia.
    + unfold work. cbn [g_flight g_tasks deliveries omap list_omap app]. rewrite unsent_same by done. lia.
Qed.

(** ** Everybody gets it *)

(** The message can go from [i] to [j]. *)
Definition hands i j : Prop := exists p q, link T i p = Some (j, q) /\ relays j = true.
Definition quiet g : Prop := g_flight g = [] /\ g_tasks g = [].

Lemma quiet_closed g i j : spreading g -> quiet g -> rtc hands i j -> knows g i -> knows g j.
Proof.
  intros H [Hf Ht]. induction 1 as [|i k j (p & q & Hl & Hr) _ IH]; [done|]. intros Ki. apply IH.
  destruct (sp_told g H i p k q Ki Hl) as [|[Hin|]]; [done| |congruence]. rewrite Hf, Ht in Hin. by apply elem_of_nil in Hin.
Qed.

Lemma set_node_knows g i b fl ta acted j : knows_data data b \/ (i <> j) -> knows g j ->
  knows (MkGossip (set_node i b (g_node g)) fl ta acted) j.
Proof.
  unfold knows. cbn. intros Hb K. destruct (decide (i = j)) as [->|]; [|by rewrite set_node_other].
  rewrite set_node_same. by destruct Hb.
Qed.

Lemma step_knows g g' : gossip_step T type data accepts g g' ->
  (forall j, knows g j -> knows g' j) /\
  (g_acted g' = g_acted g \/ exists i, g_acted g' = i :: g_acted g /\ ~ knows g i /\ knows g' i).
Proof.
  intros Hs. destruct Hs as [g g' Hsp|now i g]; [destruct Hsp as [now i p rest g HP|now i p rest g HP]|].
  - unfold arrive. destruct (is_notify type) eqn:En.
    + unfold OnMethodLedgerUpNotify, ReceiveBroadcastMsg, BroadcastMsg.
      assert (type = OVERLAY_MSGTYPE_LEDGER_UPGRADE_NOTIFY) as <- by (by apply Z.eqb_eq).
      pose proof (Add_spec data now type p (g_node g i)) as HA. pose proof (learn_spec data now type p (active T i) (g_node g i)) as HL.
      destruct (Add now type data p (g_node g i)) as [[|] b1]; cbn [snd] in *; destruct HA as (K1 & _ & F1).
      * destruct (Send _ _ _ _ _) as [b2 out]. destruct HL as (K2 & _ & _).
        split; [intros j; apply set_node_knows; by left|]. right. exists i. split; [done|]. split; [by apply F1|].
        unfold knows. cbn. by rewrite set_node_same.
      * split; [intros j; apply set_node_knows; by left|by left].
    + destruct (OnMethodPosted _ _ _ _) as [[c d]|]; (split; [done|by left]).
  - unfold run_task, RunPosted. destruct (accepts i).
    + unfold ReceiveBroadcastMsg, BroadcastMsg. pose proof (learn_spec data now type p (active T i) (g_node g i)) as HL.
      destruct (Add now type data p (g_node g i)) as [fresh b1]. cbn [snd] in HL. destruct (Send _ _ _ _ _) as [b2 out].
      split; [intros j; apply set_node_knows; left; apply HL|by left].
    + split; [|by left]. intros j Kj. destruct (decide (i = j)) as [->|]; apply set_node_knows; auto.
  - unfold originate, BroadcastMsg. pose proof (Send_spec data now type (active T i) (g_node g i)) as HL.
    destruct (Send _ _ _ _ _) as [b out]. split; [intros j; apply set_node_knows; left; apply HL|by left].
Qed.

Lemma reach_acted g0 g : silent data g0 -> gossip_reach T type data accepts g0 g ->
  NoDup (g_acted g) /\ forall i, i ∈ g_acted g -> knows g i.
Proof.
  intros Hs. induction 1 as [|g g' _ [IHn IHk] Hst].
  - destruct Hs as (_ & _ & _ & ->). split; [constructor|]. intros i Hi. by apply elem_of_nil in Hi.
  - apply step_knows in Hst as [Hk [->|(i & -> & Hn & Hi)]]; [split; [done|auto]|]. split.
    + constructor; [|done]. intros Hin. by apply Hn, IHk.
    + intros j [->|Hj]%elem_of_cons; auto.
Qed.

Lemma spreads_reach g0 g g' : gossip_reach T type data accepts g0 g -> rtc (spread T type data accepts) g g' ->
  gossip_reach T type data accepts g0 g'.
Proof. intros H. induction 1 as [|g x g' Hs _ IH]; [done|]. apply IH. eapply gr_step; [done|by apply step_spread]. Qed.

(** Something can happen until the network is quiet. *)
Lemma spread_or_quiet g : quiet g \/ exists g', spread T type data accepts g g'.
Proof.
  destruct (g_flight g) as [|[i p] l] eqn:Ef; [|right; eexists; by apply (spread_arrive _ _ _ _ 0 i p l); rewrite Ef].
  destruct (g_tasks g) as [|[i p] l] eqn:Et; [by left|right; eexists; by apply (spread_task _ _ _ _ 0 i p l); rewrite Et].
Qed.

Lemma spreads_bounded g0 n : forall g g', silent data g0 -> gossip_reach T type data accepts g0 g ->
  nsteps (spread T type data accepts) n g g' -> (n + work g' <= work g)%nat.
Proof.
  induction n as [|n IH]; intros g g' Hs Hr Hn; [by inversion_clear Hn|].
  inversion Hn as [|? ? x ? Hsp Hn']; subst. destruct (reach_spreading g0 g Hs Hr) as [H1 H2].
  pose proof (spread_work g x H1 H2 Hsp). assert (gossip_reach T type data accepts g0 x) as Hx by (eapply gr_step; [done|by apply step_spread]).
  specialize (IH x g' Hs Hx Hn'). lia.
Qed.

Lemma becomes_quiet g0 w : forall g, silent data g0 -> gossip_reach T type data accepts g0 g -> (work g <= w)%nat ->
  exists g', rtc (spread T type data accepts) g g' /\ quiet g'.
Proof.
  induction w as [|w IH]; intros g Hs Hr Hw; destruct (spread_or_quiet g) as [Hq|[x Hx]]; try (by exists g).
  - destruct (reach_spreading g0 g Hs Hr) as [H1 H2]. pose proof (spread_work g x H1 H2 Hx). lia.
  - destruct (reach_spreading g0 g Hs Hr) as [H1 H2]. pose proof (spread_work g x H1 H2 Hx).
    destruct (IH x Hs) as (g' & Hg & Hq); [eapply gr_step; [done|by apply step_spread]|lia|].
    exists g'. split; [by eapply rtc_l|done].
Qed.
End Spread.


(** ** A line of three nodes *)
Module GossipSample.
Inductive node := A | B | C.
#[export] Instance node_eq_dec : EqDecision node.
Proof. solve_decision. Defined.
#[export] Instance params : BroadcastParams := {| Crypto := fun d => d |}.

Definition active_of (i : node) : list Z := match i with A => [1] | B => [1; 2] | C => [5] end.
Definition link_of (i : node) (p : Z) : option (node * Z) :=
  match i with
  | A => if decide (p = 1) then Some (B, 1) else None
  | B => if decide (p = 1) then Some (A, 1) else if decide (p = 2) then Some (C, 5) else None
  | C => if decide (p = 5) then Some (B, 2) else None
  end.

Definition line : Topology node.
Proof.
  refine (MkTopology [A; B; C] active_of link_of _ _ _ _ _).
  - repeat constructor; rewrite ?elem_of_cons, ?elem_of_nil; intuition congruence.
  - intros []; set_solver.
  - intros []; repeat constructor; rewrite ?elem_of_cons, ?elem_of_nil; intuition congruence.
  - intros i p. destruct i; unfold link_of, active_of; repeat case_decide; subst;
      (split; [intros Hx; try done; exfalso; set_solver|intros [? Hx]; set_solver]).
  - intros i p j q. destruct i; unfold link_of; repeat case_decide; intros H'; try discriminate H'; injection H' as <- <-; subst; done.
Defined.

Definition start : Gossip node := MkGossip (fun _ => Broadcast_init) [] [] [].
Definition told_a : Gossip node := originate line 4 "tx" 100 A start.
End GossipSample.
#[local] Existing Instances GossipSample.params GossipSample.node_eq_dec.


(** ** The life of a record *)

Section Timer.
Context `{BP : BroadcastParams}.
Implicit Types (b : Broadcast).

(** The two indexes agree. *)
Record indexed (couples : ordmap Z string) (recs : gmap string BroadcastRecord) : Prop := {
  ix_sorted : om_sorted couples;
  ix_couple : forall t h, (t, h) ∈ couples -> exists r, recs !! h = Some r /\ time_stamp_ r = t;
  ix_record : forall h r, recs !! h = Some r -> (time_stamp_ r, h) ∈ couples }.
Definition indexed_b b : Prop := indexed (records_couple_ b) (records_ b).

Lemma indexed_new b h r : indexed_b b -> records_ b !! h = None -> om_find (records_couple_ b) (time_stamp_ r) = None ->
  indexed_b (new_record h r b).
Proof.
  intros [S C R] Hh Ht. split; cbn.
  - by apply om_set_sorted.
  - intros t h' Hin. apply om_in_find in Hin; [|by apply om_set_sorted]. rewrite om_find_set in Hin.
    destruct (key_eqb_spec t (time_stamp_ r)) as [->|Hne].
    + injection Hin as <-. exists r. by rewrite lookup_insert_eq.
    + apply om_find_in in Hin. destruct (C t h' Hin) as (r' & Hr' & Et). exists r'. split; [|done].
      rewrite lookup_insert_ne; [done|]. intros <-. by rewrite Hh in Hr'.
  - intros h' r' H'. apply om_find_in. rewrite om_find_set. destruct (key_eqb_spec (time_stamp_ r') (time_stamp_ r)) as [E|Hne].
    + apply lookup_insert_Some in H' as [[<- <-]|[Hn H']]; [done|]. apply R in H'. rewrite E in H'.
      by apply (om_find_none _ _ Ht) in H'.
    + apply lookup_insert_Some in H' as [[<- <-]|[Hn H']]; [done|]. apply om_in_find; [done|]. by apply R.
Qed.

(** Marking peers as told keeps the indexes. *)
Lemma indexed_told b h r ps : indexed_b b -> records_ b !! h = Some r ->
  indexed_b (MkBroadcast (records_couple_ b) (<[h := MkBRecord (br_type_ r) (time_stamp_ r) ps]> (records_ b))).
Proof.
  intros [S C R] Hh. split; cbn; [done| |].
  - intros t h' Hin. destruct (C t h' Hin) as (r' & Hr' & Et). destruct (decide (h = h')) as [<-|Hne].
    + rewrite lookup_insert_eq. eexists. split; [done|]. rewrite Hh in Hr'. by injection Hr' as <-.
    + rewrite lookup_insert_ne by done. eauto.
  - intros h' r' H'. apply lookup_insert_Some in H' as [[<- <-]|[_ H']]; [cbn; by apply R|by apply R].
Qed.

Lemma indexed_tail t h l recs : indexed ((t, h) :: l) recs -> indexed l (delete h recs) /\
  (forall h', h' <> h -> delete h recs !! h' = recs !! h').
Proof.
  intros [S C R]. split; [|intros h' Hne; by rewrite lookup_delete_ne].
  cbn in S. destruct S as [Hlt S]. rewrite Forall_forall in Hlt. split; [done| |].
  - intros t' h' Hin. destruct (C t' h') as (r & Hr & Et); [by right|]. exists r. split; [|done].
    rewrite lookup_delete_ne; [done|]. intros <-. destruct (C t h) as (r' & Hr' & Et'); [by left|]. rewrite Hr in Hr'. injection Hr' as <-.
    specialize (Hlt _ Hin). cbn [fst] in Hlt. assert (t' = t) as -> by congruence. by rewrite Z.ltb_irrefl in Hlt.
  - intros h' r H'. apply lookup_delete_Some in H' as [Hne H']. apply R in H'. apply elem_of_cons in H' as [[= _ ->]|]; done.
Qed.

Lemma expire_spec now couples : forall recs, indexed couples recs ->
  let '(c, r) := expire_loop now couples recs in
  indexed c r /\ forall h x, r !! h = Some x <-> recs !! h = Some x /\ now <= time_stamp_ x + 3600 * MICRO_UNITS_PER_SEC.
Proof.
  induction couples as [|[t h] l IH]; intros recs H; cbn [expire_loop].
  - split; [done|]. intros h x. split; [|by intros [? _]]. intros Hx. apply (ix_record _ _ H) in Hx. by apply elem_of_nil in Hx.
  - destruct (Z.ltb_spec (t + 3600 * MICRO_UNITS_PER_SEC) now) as [Hlt|Hge].
    + destruct (indexed_tail t h l recs H) as [H' Hd]. specialize (IH _ H'). destruct (expire_loop now l (delete h recs)) as [c r].
      destruct IH as [IH1 IH2]. split; [done|]. intros h' x. rewrite IH2.
      destruct (decide (h' = h)) as [->|Hne]; [|by rewrite Hd].
      rewrite lookup_delete_eq. split; [by intros [? _]|]. intros [Hx Hn].
      destruct (ix_couple _ _ H t h) as (y & Hy & Et); [by left|]. rewrite Hx in Hy. injection Hy as <-. lia.
    + split; [done|]. intros h' x. split; [|by intros [? _]]. intros Hx. split; [done|].
      apply (ix_record _ _ H) in Hx. pose proof (ix_sorted _ _ H) as [Hl _]. rewrite Forall_forall in Hl.
      apply elem_of_cons in Hx as [[= -> _]|Hx]; [done|]. apply Hl in Hx. cbn in Hx. apply Z.ltb_lt in Hx. lia.
Qed.

Lemma halve_spec n : forall couples recs, indexed couples recs ->
  let '(c, r) := halve_loop n couples recs in indexed c r /\ length c = (length couples - n)%nat.
Proof.
  induction n as [|n IH]; intros [|[t h] l] recs H; cbn [halve_loop]; try (split; [done|cbn; lia]).
  destruct (indexed_tail t h l recs H) as [H' _]. specialize (IH l _ H'). destruct (halve_loop n l (delete h recs)) as [c r].
  destruct IH as [I1 I2]. split; [done|]. cbn. lia.
Qed.

Lemma indexed_size couples : forall recs, indexed couples recs -> size recs = length couples.
Proof.
  induction couples as [|[t h] l IH]; intros recs H.
  - assert (recs = ∅) as ->; [|done]. apply map_eq. intros h. rewrite lookup_empty. destruct (recs !! h) as [r|] eqn:E; [|done].
    apply (ix_record _ _ H) in E. by apply elem_of_nil in E.
  - destruct (ix_couple _ _ H t h) as (r & Hr & _); [by left|]. destruct (indexed_tail t h l recs H) as [H' _].
    rewrite <- (insert_delete_id recs h r Hr), map_size_insert_None by apply lookup_delete_eq. cbn. f_equal. by apply IH.
Qed.

Lemma halve_sub n : forall couples recs h x, (halve_loop n couples recs).2 !! h = Some x -> recs !! h = Some x.
Proof.
  induction n as [|n IH]; intros [|[t k] l] recs h x; cbn [halve_loop]; try done.
  intros Hx%IH. by apply lookup_delete_Some in Hx as [_ ?].
Qed.

(** One pass of the timer. *)
Lemma OnTimer_spec now b : indexed_b b -> let b' := OnTimer_broadcast now b in
  indexed_b b' /\ GetRecordSize b' <= Z.max max_size (GetRecordSize b - max_size / 2) /\
  (forall h x, records_ b' !! h = Some x -> records_ b !! h = Some x /\ now <= time_stamp_ x + 3600 * MICRO_UNITS_PER_SEC) /\
  (GetRecordSize b <= max_size -> forall h x, records_ b !! h = Some x -> now <= time_stamp_ x + 3600 * MICRO_UNITS_PER_SEC ->
     records_ b' !! h = Some x).
Proof.
  intros H b'. unfold OnTimer_broadcast in b'. pose proof (expire_spec now (records_couple_ b) (records_ b) H) as HE.
  destruct (expire_loop now (records_couple_ b) (records_ b)) as [c r]. destruct HE as [Hi HE].
  assert (Hsz : Z.of_nat (length c) <= GetRecordSize b).
  { rewrite <- (indexed_size _ _ Hi). unfold GetRecordSize. apply inj_le, map_subseteq_size.
    apply map_subseteq_spec. intros h x Hx. by apply HE in Hx as [? _]. }
  destruct (Z.ltb_spec max_size (Z.of_nat (length c))) as [Hbig|Hsmall].
  - pose proof (halve_spec (Z.to_nat (max_size / 2)) c r Hi) as HH. pose proof (halve_sub (Z.to_nat (max_size / 2)) c r) as HS.
    destruct (halve_loop _ c r) as [c' r']. destruct HH as [Hi' Hl']. unfold b', indexed_b. cbn [records_ records_couple_].
    split; [done|]. unfold GetRecordSize at 1. cbn [records_]. rewrite (indexed_size _ _ Hi'), Hl'.
    split; [unfold max_size in *; lia|]. split; [|lia]. intros h x Hx%HS. by apply HE.
  - unfold b', indexed_b. cbn [records_ records_couple_]. split; [done|].
    unfold GetRecordSize at 1. cbn [records_]. rewrite (indexed_size _ _ Hi). split; [lia|].
    split; [intros h x Hx; by apply HE|]. intros _ h x Hx Hn. by apply HE.
Qed.

(** A record that the index by time does not list survives every pass. *)
Definition orphan h (couples : ordmap Z string) (recs : gmap string BroadcastRecord) : Prop :=
  is_Some (recs !! h) /\ Forall (fun c => c.2 <> h) couples.

Lemma orphan_tail h t k l recs : orphan h ((t, k) :: l) recs -> orphan h l (delete k recs).
Proof. intros [Hr [Hk Hl]%Forall_cons]. split; [|done]. by rewrite lookup_delete_ne. Qed.

Lemma orphan_expire h now couples : forall recs, orphan h couples recs ->
  let '(c, r) := expire_loop now couples recs in orphan h c r.
Proof.
  induction couples as [|[t k] l IH]; intros recs H; cbn [expire_loop]; [done|].
  destruct (_ <? _); [|done]. by apply IH, orphan_tail with t.
Qed.

Lemma orphan_halve h n : forall couples recs, orphan h couples recs ->
  let '(c, r) := halve_loop n couples recs in orphan h c r.
Proof.
  induction n as [|n IH]; intros [|[t k] l] recs H; cbn [halve_loop]; try done. by apply IH, orphan_tail with t.
Qed.

Lemma orphan_OnTimer h now b : orphan h (records_couple_ b) (records_ b) ->
  orphan h (records_couple_ (OnTimer_broadcast now b)) (records_ (OnTimer_broadcast now b)).
Proof.
  intros H. unfold OnTimer_broadcast. pose proof (orphan_expire h now _ _ H) as HE. destruct (expire_loop _ _ _) as [c r].
  destruct (_ <? _); [|done]. pose proof (orphan_halve h (Z.to_nat (max_size / 2)) c r HE) as HH.
  by destruct (halve_loop _ c r) as [c' r'].
Qed.

(** The second of two records made in the same microsecond takes the first one's place in the index. *)
Lemma same_time_orphan b now type peer data data' : indexed_b b -> Crypto data <> Crypto data' ->
  records_ b !! Crypto data = None -> records_ b !! Crypto data' = None ->
  let b2 := (Add now type data' peer (Add now type data peer b).2).2 in
  orphan (Crypto data) (records_couple_ b2) (records_ b2).
Proof.
  intros [S C R] Hne H1 H2. unfold Add at 1. unfold Add. rewrite H1. cbn [snd new_record records_ records_couple_ time_stamp_].
  rewrite lookup_insert_ne by done. rewrite H2. cbn [snd new_record records_ records_couple_ time_stamp_]. split.
  - rewrite lookup_insert_ne by done. by rewrite lookup_insert_eq.
  - apply Forall_forall. intros [t h] Hin E. cbn in E. subst h.
    apply om_in_find in Hin; [|by apply om_set_sorted, om_set_sorted]. rewrite !om_find_set in Hin.
    destruct (key_eqb t now); [congruence|]. apply om_find_in in Hin. destruct (C t _ Hin) as (r & Hr & _). congruence.
Qed.
End Timer.

(** C: The broadcast records under the timer. The two indexes of the records stay in step as long as no two records
    are made in the same microsecond; then the timer forgets every record older than an hour, keeps the
    others unless there are more than a million, and leaves at most a million or half a million
    fewer. When two records are made in the same microsecond, the first is lost to the index by time
    and no timer pass ever forgets it. *)
Theorem broadcast_records_expire `{BP : BroadcastParams} (b : Broadcast) (now type peer : Z) (data data' : string) (act : list Z) :
  indexed_b b -> Crypto data <> Crypto data' ->
  records_ b !! Crypto data = None -> records_ b !! Crypto data' = None -> om_find (records_couple_ b) now = None ->
  indexed_b (Add now type data peer b).2 /\ indexed_b (Send now type data act b).1 /\
  (forall t, let b' := OnTimer_broadcast t b in
     indexed_b b' /\ GetRecordSize b' <= Z.max max_size (GetRecordSize b - max_size / 2) /\
     (forall h x, records_ b' !! h = Some x -> records_ b !! h = Some x /\ t <= time_stamp_ x + 3600 * MICRO_UNITS_PER_SEC) /\
     (GetRecordSize b <= max_size -> forall h x, records_ b !! h = Some x -> t <= time_stamp_ x + 3600 * MICRO_UNITS_PER_SEC ->
        records_ b' !! h = Some x)) /\
  (let b2 := (Add now type data' peer (Add now type data peer b).2).2 in
   forall times, is_Some (records_ (foldr OnTimer_broadcast b2 times) !! Crypto data)).
Proof.
  intros Hi Hne H1 H2 Ht. split; [|split; [|split]].
  - unfold Add. rewrite H1. by apply indexed_new.
  - unfold Send. rewrite H1. by apply indexed_new.
  - intros t. by apply OnTimer_spec.
  - intros b2 times. pose proof (same_time_orphan b now type peer data data' Hi Hne H1 H2) as HO. fold b2 in HO.
    assert (HF : orphan (Crypto data) (records_couple_ (foldr OnTimer_broadcast b2 times)) (records_ (foldr OnTimer_broadcast b2 times))).
    { induction times as [|t times IH]; [done|]. by apply orphan_OnTimer. }
    by destruct HF.
Qed.

Lemma broadcast_records_expire_witness :
  indexed_b (Add 7 4 "tx" 1 Broadcast_init).2 /\
  is_Some (records_ (OnTimer_broadcast (10 ^ 18) (Add 7 4 "other" 1 (Add 7 4 "tx" 1 Broadcast_init).2).2) !! Crypto "tx").
Proof.
  destruct (broadcast_records_expire Broadcast_init 7 4 1 "tx" "other" [1]) as (H1 & _ & _ & H2).
  - split; [exact I|intros t h Hin; by apply elem_of_nil in Hin|intros h r Hr; cbn in Hr; by rewrite lookup_empty in Hr].
  - discriminate.
  - reflexivity.
  - reflexivity.
  - reflexivity.
  - split; [exact H1|]. exact (H2 [10 ^ 18]).
Defined.
