(* ===== verification/PeerTable.v ===== *)
(** * The table of known peers

    The functions of [PeerNetwork] (src/overlay/peer_network.cpp) on the record
    "peers_table" of the key-value database, and [utils::InetAddress]
    (src/utils/net.cpp). The database may fail, and what it holds may not parse. *)
From stdpp Require Import pretty.
From S2P Require Import Prelude Broadcast.

Open Scope Z_scope.

(** ** [utils::InetAddress]: the address of a [sockaddr_in] in host order, and its port *)
Record InetAddress := MkInetAddress { ip_ : Z; port_ : Z }.
#[export] Instance InetAddress_eq_dec : EqDecision InetAddress.
Proof. solve_decision. Defined.

(** [ToIp]: [inet_ntoa] *)
Definition ToIp (a : InetAddress) : string :=
  let b (n : Z) := pretty (Z.land (Z.shiftr (ip_ a) n) 255) in
  (b 24 +:+ "." +:+ b 16 +:+ "." +:+ b 8 +:+ "." +:+ b 0)%string.
Definition ToIpPort (a : InetAddress) : string := (ToIp a +:+ ":" +:+ pretty (port_ a))%string.
Definition address_eqb (a b : InetAddress) : bool := String.eqb (ToIpPort a) (ToIpPort b).
Definition IsAny (a : InetAddress) : bool := ip_ a =? 0.
Definition IsNone (a : InetAddress) : bool := ip_ a =? 0xFFFFFFFF.
Definition Any : InetAddress := MkInetAddress 0 0.
Definition SetPort (port : Z) (a : InetAddress) : InetAddress := MkInetAddress (ip_ a) port.

(** ** [protocol::Peer] and what the database holds *)
Record PeerRow := MkRow {
  ip : string; port : Z; num_failures : Z; next_attempt_time : Z; active_time : Z; connection_id : Z }.

Inductive stored := Absent | Garbage | Table (l : list PeerRow).

(** The database answers the n-th call or fails. *)
Class PeerDbParams := {
  get_ok : nat -> bool;
  put_ok : nat -> bool;
  file_count : Z }.          (* max_connection_ of the configuration, not negative *)

Record PeerDb := MkPeerDb {
  peers_table : stored;
  db_calls : nat;
  total_peers_count_ : Z;
  db_peer_cache_ : list PeerRow;
  last_update_peercache_time_ : Z }.

Definition PEER_DB_COUNT : Z := 1000.

Section Table.
Context `{PD : PeerDbParams}.
Implicit Types (d : PeerDb) (all : list PeerRow) (address : InetAddress) (record : PeerRow).

Definition set_table (t : stored) d : PeerDb := MkPeerDb t (db_calls d) (total_peers_count_ d) (db_peer_cache_ d) (last_update_peercache_time_ d).
Definition set_total_peers (n : Z) d : PeerDb := MkPeerDb (peers_table d) (db_calls d) n (db_peer_cache_ d) (last_update_peercache_time_ d).
Definition set_cache all (t : Z) d : PeerDb := MkPeerDb (peers_table d) (db_calls d) (total_peers_count_ d) all t.
Definition call d : PeerDb := MkPeerDb (peers_table d) (S (db_calls d)) (total_peers_count_ d) (db_peer_cache_ d) (last_update_peercache_time_ d).
Definition rows all : Z := Z.of_nat (length all).

(** [db->Get(PEERS_TABLE, peers)] and [all.ParseFromString(peers)] *)
Inductive answer := GetFails | GetNothing | GetGarbage | GetRows (l : list PeerRow).
Definition db_Get d : answer * PeerDb :=
  (if get_ok (db_calls d) then
     match peers_table d with Absent => GetNothing | Garbage => GetGarbage | Table l => GetRows l end
   else GetFails, call d).

(** [if (count < 0) ...; if (!all.ParseFromString(peers)) ...]: nothing stored is an empty table. *)
Definition answer_rows (a : answer) : option (list PeerRow) :=
  match a with GetFails | GetGarbage => None | GetNothing => Some [] | GetRows l => Some l end.

(** [db->Put(PEERS_TABLE, all.SerializeAsString())] *)
Definition db_Put all d : bool * PeerDb :=
  if put_ok (db_calls d) then (true, call (set_table (Table all) d)) else (false, call d).

Definition same_place address record : bool := String.eqb (ip record) (ToIp address) && (port record =? port_ address).

Definition QueryItem address d : Z * list PeerRow * PeerDb :=
  let '(a, d) := db_Get d in
  match a with
  | GetFails => (-1, [], d)
  | GetNothing => (0, [], d)
  | GetGarbage => (-1, [], d)
  | GetRows all =>
      let d := set_total_peers (rows all) d in
      let found := List.filter (same_place address) all in
      (rows found, found, d)
  end.

(** The fields of [record] that are not negative replace those of the row. *)
Definition update_row record (r : PeerRow) : PeerRow :=
  let pick (new old : Z) := if 0 <=? new then new else old in
  MkRow (ip r) (port r) (pick (num_failures record) (num_failures r)) (pick (next_attempt_time record) (next_attempt_time r))
    (pick (active_time record) (active_time r)) (pick (connection_id record) (connection_id r)).

Fixpoint update_rows address record all : list PeerRow * Z :=
  match all with
  | [] => ([], 0)
  | r :: l =>
      let '(l', n) := update_rows address record l in
      if same_place address r || IsAny address then (update_row record r :: l', n + 1) else (r :: l', n)
  end.

(** The loop of [CheckPeerPoolValid]: the rows that stay, and the number that go. *)
Fixpoint prune (deleted_num : Z) all : list PeerRow * Z :=
  match all with
  | [] => ([], deleted_num)
  | r :: l =>
      if 10 <? deleted_num then let '(l', n) := prune deleted_num l in (r :: l', n)
      else if negb (active_time r =? 0) then let '(l', n) := prune deleted_num l in (r :: l', n)
      else prune (deleted_num + 1) l
  end.

Definition max_address_cnt : Z := if PEER_DB_COUNT <? file_count then file_count else PEER_DB_COUNT.

Definition CheckPeerPoolValid (total : Z) all : option (list PeerRow) :=
  if total <? max_address_cnt then Some all
  else
    let '(new_all, deleted_num) := prune 0 all in
    if deleted_num =? 0 then None else Some new_all.

Definition UpdateItem address record d : bool * PeerDb :=
  let '(a, d) := db_Get d in
  match answer_rows a with
  | None => (false, d)
  | Some all =>
      let d := set_total_peers (rows all) d in
      let '(all, peer_count) := update_rows address record all in
      match (if (peer_count =? 0) && negb (IsAny address) then
               match CheckPeerPoolValid (total_peers_count_ d) all with
               | Some all => Some (all ++ [record])%list
               | None => None
               end
             else Some all) with
      | None => (false, d)
      | Some all =>
          let '(ret, d) := db_Put all d in
          (ret, set_total_peers (rows all) d)
      end
  end.

Definition CreatePeerIfNotExist address d : bool * PeerDb :=
  if IsAny address || (port_ address =? 0) then (false, d)
  else
    let '(peer_count, _, d) := QueryItem address d in
    if peer_count <? 0 then (false, d)
    else if 0 <? peer_count then (true, d)
    else UpdateItem address (MkRow (ToIp address) (port_ address) 0 0 0 0) d.

Definition ResetPeerInActive d : bool * PeerDb := UpdateItem Any (MkRow "" 0 (-1) (-1) 0 0) d.

Definition is_connected address (conn_id : Z) record : bool := same_place address record && (connection_id record =? conn_id).

Definition UpdateItemDisconnect address (conn_id : Z) d : bool * PeerDb :=
  let '(a, d) := db_Get d in
  match answer_rows a with
  | None => (false, d)
  | Some all =>
      let d := set_total_peers (rows all) d in
      let new_all := map (fun r => if is_connected address conn_id r
                                   then MkRow (ip r) (port r) (num_failures r) (next_attempt_time r) 0 0 else r) all in
      if existsb (is_connected address conn_id) all then
        let '(ret, d) := db_Put new_all d in
        if ret then (true, set_total_peers (rows new_all) d) else (false, d)
      else (true, set_total_peers (rows new_all) d)
  end.

(** [std::multimap<int64_t, Peer>]: equal keys stay in the order of insertion. *)
Fixpoint multimap_insert record all : list PeerRow :=
  match all with
  | [] => [record]
  | r :: l => if num_failures record <? num_failures r then record :: r :: l else r :: multimap_insert record l
  end.
Definition sorted_records all : list PeerRow := fold_left (fun m r => multimap_insert r m) all [].

Definition wanted (active : bool) (attempt_time : Z) record : bool :=
  eqb active (0 <? active_time record) && ((attempt_time <? 0) || (next_attempt_time record <? attempt_time)).

Fixpoint top_loop (active : bool) (limit attempt_time : Z) (peer_count : Z) all : list PeerRow :=
  match all with
  | [] => []
  | r :: l =>
      if wanted active attempt_time r && (peer_count <? limit) then r :: top_loop active limit attempt_time (peer_count + 1) l
      else top_loop active limit attempt_time peer_count l
  end.

Definition QueryTopItem (active : bool) (limit attempt_time : Z) d : Z * list PeerRow * PeerDb :=
  let '(a, d) := db_Get d in
  match a with
  | GetFails | GetGarbage => (-1, [], d)
  | GetNothing => (0, [], d)
  | GetRows all =>
      let d := set_total_peers (rows all) d in
      let records := top_loop active limit attempt_time 0 (sorted_records all) in
      (rows records, records, d)
  end.

(** [GetActivePeers]; [cur_time] is the clock it reads. *)
Definition GetActivePeers (cur_time max : Z) d : bool * PeerDb :=
  if (rows (db_peer_cache_ d) =? 0) || (last_update_peercache_time_ d =? 0)
     || (10 * MICRO_UNITS_PER_SEC <? cur_time - last_update_peercache_time_ d) then
    let d := set_cache [] cur_time d in
    let '(row_count, peers, d) := QueryTopItem true max (-1) d in
    if row_count <? 0 then (false, d) else (true, set_cache peers (last_update_peercache_time_ d) d)
  else (true, d).

Definition CleanNotActivePeers d : PeerDb :=
  let '(a, d) := db_Get d in
  match answer_rows a with
  | None => d
  | Some all =>
      let d := set_total_peers (rows all) d in
      let new_all := List.filter (fun r => num_failures r <? 50) all in
      let d := if rows new_all <? rows all then snd (db_Put new_all d) else d in
      set_total_peers (rows new_all) d
  end.
End Table.
