(* ===== verification/PeerTableFacts.v ===== *)
(** * The table of known peers: proofs

    The table never holds an address twice and never grows beyond its bound; rows
    of active peers are not dropped to make room; the peers to connect to are the ones with
    the fewest failures. *)
From stdpp Require Import sorting.
From S2P Require Import Prelude PeerTable.

Open Scope Z_scope.

Definition place (r : PeerRow) : string * Z := (ip r, port r).
Definition place_of (a : InetAddress) : string * Z := (ToIp a, port_ a).

Lemma same_place_spec a r : same_place a r = true <-> place r = place_of a.
Proof.
  unfold same_place, place, place_of. rewrite andb_true_iff, String.eqb_eq, Z.eqb_eq.
  split; [intros [-> ->]; done|by intros [= -> ->]].
Qed.

Section Facts.
Context `{PD : PeerDbParams}.
Implicit Types (d : PeerDb) (all l : list PeerRow) (r : PeerRow) (a : InetAddress).

Definition rows_ok l : Prop := NoDup (map place l) /\ rows l <= max_address_cnt.
Definition table_ok d : Prop := match peers_table d with Table l => rows_ok l | _ => True end.

Lemma max_address_pos : 1 <= max_address_cnt.
Proof. unfold max_address_cnt, PEER_DB_COUNT. destruct (Z.ltb_spec 1000 file_count); lia. Qed.

(** ** Rows *)

Lemma update_rows_places a rec l : map place (update_rows a rec l).1 = map place l.
Proof.
  induction l as [|r l IH]; cbn [update_rows]; [done|].
  destruct (update_rows a rec l) as [l' n]. cbn [fst] in IH. destruct (_ || _); cbn [map fst]; by rewrite IH.
Qed.

Lemma update_rows_count a rec l : IsAny a = false ->
  let n := (update_rows a rec l).2 in 0 <= n /\ (n = 0 -> place_of a ∉ map place l).
Proof.
  intros HA. induction l as [|r l IH]; cbn [update_rows]; [split; [cbn; lia|intros _; apply not_elem_of_nil]|].
  destruct (update_rows a rec l) as [l' n]. cbn [snd] in IH. rewrite HA, orb_false_r.
  destruct (same_place a r) eqn:E; cbn [snd map]; [lia|]. destruct IH as [Hn IH]. split; [done|].
  intros H0 [H|H]%elem_of_cons; [|by apply IH]. symmetry in H. apply same_place_spec in H. congruence.
Qed.

Lemma update_rows_length a rec l : length (update_rows a rec l).1 = length l.
Proof. rewrite <- (length_map place (update_rows a rec l).1), update_rows_places. apply length_map. Qed.

Lemma prune_spec l : forall k, 0 <= k <= 11 ->
  let '(l', n) := prune k l in
  sublist l' l /\ k <= n <= 11 /\ rows l' = rows l - (n - k) /\ (forall r, r ∈ l -> active_time r <> 0 -> r ∈ l').
Proof.
  unfold rows. induction l as [|r l IH]; intros k Hk; cbn [prune].
  - split; [done|]. split; [lia|]. split; [cbn; lia|done].
  - assert (Hkeep : let '(l', n) := prune k l in sublist (r :: l') (r :: l) /\ k <= n <= 11 /\
      Z.of_nat (length (r :: l')) = Z.of_nat (length (r :: l)) - (n - k) /\
      (forall r', r' ∈ r :: l -> active_time r' <> 0 -> r' ∈ r :: l')).
    { specialize (IH k Hk). destruct (prune k l) as [l' n]. destruct IH as (I1 & I2 & I3 & I4).
      split; [by apply sublist_skip|]. split; [lia|]. split; [cbn [length]; lia|].
      intros r' [->|H]%elem_of_cons Hr; [by left|right; auto]. }
    destruct (Z.ltb_spec 10 k) as [H10|H10]; [by destruct (prune k l)|].
    destruct (Z.eqb_spec (active_time r) 0) as [Ha|Ha]; cbn [negb]; [|by destruct (prune k l)].
    clear Hkeep. specialize (IH (k + 1) ltac:(lia)). destruct (prune (k + 1) l) as [l' n]. destruct IH as (I1 & I2 & I3 & I4).
    split; [by apply sublist_cons|]. split; [lia|]. split; [cbn [length]; lia|].
    intros r' [->|H]%elem_of_cons Hr; [done|auto].
Qed.

(** Making room: at most eleven rows go, none of them of an active peer. *)
Lemma CheckPeerPoolValid_spec l l' : rows l <= max_address_cnt -> CheckPeerPoolValid (rows l) l = Some l' ->
  sublist l' l /\ rows l' < max_address_cnt /\ rows l - 11 <= rows l' /\ (forall r, r ∈ l -> active_time r <> 0 -> r ∈ l').
Proof.
  intros Hl. unfold CheckPeerPoolValid. destruct (Z.ltb_spec (rows l) max_address_cnt) as [Hlt|Hge].
  - intros [= <-]. split; [done|]. split; [lia|]. split; [lia|done].
  - pose proof (prune_spec l 0 ltac:(lia)) as HP. destruct (prune 0 l) as [new_all n]. destruct HP as (H1 & H2 & H3 & H4).
    destruct (Z.eqb_spec n 0); [done|]. intros [= <-]. split; [done|]. split; [lia|]. split; [lia|done].
Qed.

Lemma places_sublist l l' : sublist l' l -> NoDup (map place l) -> NoDup (map place l').
Proof. intros Hs. by apply sublist_nodup, sublist_map. Qed.

(** ** Operations *)

Lemma db_Get_ok d : table_ok d -> let '(x, d') := db_Get d in
  table_ok d' /\ forall l, answer_rows x = Some l -> rows_ok l /\ (peers_table d = Table l \/ peers_table d = Absent /\ l = []).
Proof.
  intros H. unfold db_Get. split; [exact H|]. unfold table_ok in H. intros l.
  destruct (get_ok _), (peers_table d) as [| |l0]; cbn; intros [= <-]; try (by auto).
  split; [|by right]. split; [constructor|unfold rows; cbn; pose proof max_address_pos; lia].
Qed.

Lemma db_Put_ok l d : rows_ok l -> table_ok d -> let '(_, d') := db_Put l d in table_ok d'.
Proof. unfold db_Put. by destruct (put_ok _). Qed.

Lemma update_rows_ok a rec l : rows_ok l -> rows_ok (update_rows a rec l).1.
Proof. intros [H1 H2]. split; [by rewrite update_rows_places|]. unfold rows in *. by rewrite update_rows_length. Qed.

(** Adding a row for an address that has none. *)
Lemma add_row_ok a rec l l' : rows_ok l -> place_of a ∉ map place l -> place rec = place_of a ->
  CheckPeerPoolValid (rows l) l = Some l' -> rows_ok (l' ++ [rec]).
Proof.
  intros [H1 H2] Hno Hp HC. destruct (CheckPeerPoolValid_spec l l' H2 HC) as (C1 & C2 & _).
  split; [|unfold rows in *; rewrite length_app; cbn; lia].
  rewrite map_app. cbn [map]. rewrite Hp. apply NoDup_app. split; [by eapply places_sublist|].
  split; [|apply NoDup_singleton]. intros x Hx ->%list_elem_of_singleton. apply Hno.
  by eapply elem_of_submseteq, sublist_submseteq, sublist_map.
Qed.

Lemma UpdateItem_ok a rec d : table_ok d -> IsAny a = true \/ place rec = place_of a -> table_ok (UpdateItem a rec d).2.
Proof.
  intros H HA. unfold UpdateItem. pose proof (db_Get_ok d H) as HG. destruct (db_Get d) as [x d']. destruct HG as [Hd HR].
  destruct (answer_rows x) as [l|] eqn:Ex; [|done]. destruct (HR l eq_refl) as [Hl _]. cbn [total_peers_count_ set_total_peers].
  pose proof (update_rows_ok a rec l Hl) as HU. pose proof (update_rows_count a rec l) as HC.
  pose proof (update_rows_length a rec l) as HL. rewrite <- (update_rows_places a rec l) in HC.
  destruct (update_rows a rec l) as [l2 n]. cbn [fst snd] in *.
  replace (rows l) with (rows l2) by (unfold rows; by rewrite HL).
  assert (HP : forall l3, rows_ok l3 -> table_ok (let '(ret, d) := db_Put l3 (set_total_peers (rows l2) d') in (ret, set_total_peers (rows l3) d)).2).
  { intros l3 H3. pose proof (db_Put_ok l3 (set_total_peers (rows l2) d') H3 Hd). by destruct (db_Put l3 _). }
  destruct ((n =? 0) && negb (IsAny a)) eqn:E; [|by apply HP].
  apply andb_true_iff in E as [->%Z.eqb_eq E%negb_true_iff]. destruct (HC E) as [_ Hno]. destruct HA as [HA|HA]; [congruence|].
  destruct (CheckPeerPoolValid (rows l2) l2) as [l3|] eqn:EC; [|done]. apply HP. by eapply add_row_ok; [..|exact EC]; auto.
Qed.

Lemma QueryItem_ok a d : table_ok d -> table_ok (QueryItem a d).2.
Proof. intros H. unfold QueryItem, db_Get. by destruct (get_ok _), (peers_table d). Qed.

Lemma CreatePeer_ok a d : table_ok d -> table_ok (CreatePeerIfNotExist a d).2.
Proof.
  intros H. unfold CreatePeerIfNotExist. destruct (_ || _); [done|]. pose proof (QueryItem_ok a d H) as HQ.
  destruct (QueryItem a d) as [[n found] d']. destruct (n <? 0); [done|]. destruct (0 <? n); [done|].
  apply UpdateItem_ok; [done|by right].
Qed.

Lemma Disconnect_ok a c d : table_ok d -> table_ok (UpdateItemDisconnect a c d).2.
Proof.
  intros H. unfold UpdateItemDisconnect. pose proof (db_Get_ok d H) as HG. destruct (db_Get d) as [x d']. destruct HG as [Hd HR].
  destruct (answer_rows x) as [l|] eqn:Ex; [|done]. destruct (HR l eq_refl) as [Hl _].
  set (l' := map _ l). assert (Hl' : rows_ok l').
  { destruct Hl as [H1 H2]. split; [|unfold rows, l' in *; by rewrite length_map]. replace (map place l') with (map place l); [done|].
    unfold l'. rewrite map_map. apply map_ext. intros r. by destruct (is_connected a c r). }
  destruct (existsb _ l); [|done]. pose proof (db_Put_ok l' (set_total_peers (rows l) d') Hl' Hd). by destruct (db_Put l' _) as [[] ?].
Qed.

Lemma QueryTop_ok act limit t d : table_ok d -> table_ok (QueryTopItem act limit t d).2.
Proof. intros H. unfold QueryTopItem, db_Get. by destruct (get_ok _), (peers_table d). Qed.

Lemma GetActivePeers_ok now max d : table_ok d -> table_ok (GetActivePeers now max d).2.
Proof.
  intros H. unfold GetActivePeers. destruct (_ || _); [|done].
  pose proof (QueryTop_ok true max (-1) (set_cache [] now d) H). destruct (QueryTopItem _ _ _ _) as [[n l] d']. by destruct (n <? 0).
Qed.

Lemma Clean_ok d : table_ok d -> table_ok (CleanNotActivePeers d).
Proof.
  intros H. unfold CleanNotActivePeers. pose proof (db_Get_ok d H) as HG. destruct (db_Get d) as [x d']. destruct HG as [Hd HR].
  destruct (answer_rows x) as [l|] eqn:Ex; [|done]. destruct (HR l eq_refl) as [[H1 H2] _].
  set (l' := List.filter _ l). assert (Hs : sublist l' l).
  { unfold l'. clear. induction l as [|r l IH]; cbn; [done|]. destruct (_ <? 50); by constructor. }
  assert (Hl' : rows_ok l').
  { split; [by eapply places_sublist|]. apply sublist_length in Hs. unfold rows in *. lia. }
  destruct (rows l' <? rows l); [|done]. pose proof (db_Put_ok l' (set_total_peers (rows l) d') Hl' Hd). by destruct (db_Put l' _).
Qed.

(** ** The peers to connect to *)

Lemma multimap_perm r l : multimap_insert r l ≡ₚ r :: l.
Proof.
  induction l as [|x l IH]; cbn [multimap_insert]; [done|]. destruct (_ <? _); [done|]. rewrite IH. apply Permutation_swap.
Qed.

Definition fewer (r s : PeerRow) : Prop := num_failures r <= num_failures s.

Lemma multimap_sorted r l : StronglySorted fewer l -> StronglySorted fewer (multimap_insert r l).
Proof.
  induction 1 as [|x l Hs IH Hx]; cbn [multimap_insert]; [repeat constructor|].
  destruct (Z.ltb_spec (num_failures r) (num_failures x)) as [Hlt|Hge].
  - constructor; [by constructor|]. constructor; [unfold fewer; lia|].
    eapply Forall_impl; [exact Hx|]. unfold fewer. intros; lia.
  - constructor; [done|]. rewrite multimap_perm. constructor; [unfold fewer; lia|done].
Qed.

Lemma sorted_records_spec l : sorted_records l ≡ₚ l /\ StronglySorted fewer (sorted_records l).
Proof.
  unfold sorted_records. assert (G : forall m, StronglySorted fewer m ->
    let x := fold_left (fun m r => multimap_insert r m) l m in x ≡ₚ m ++ l /\ StronglySorted fewer x).
  { induction l as [|r l IH]; intros m Hm; cbn [fold_left]; [split; [by rewrite app_nil_r|done]|].
    destruct (IH (multimap_insert r m)) as [H1 H2]; [by apply multimap_sorted|]. split; [|done].
    rewrite H1, multimap_perm. cbn. apply Permutation_middle. }
  apply G. constructor.
Qed.

Lemma top_loop_take act limit t l : forall n, 0 <= n ->
  top_loop act limit t n l = take (Z.to_nat (limit - n)) (List.filter (wanted act t) l).
Proof.
  induction l as [|r l IH]; intros n Hn; cbn [top_loop List.filter]; [by rewrite take_nil|].
  destruct (wanted act t r); cbn [andb]; [|by apply IH].
  destruct (Z.ltb_spec n limit) as [Hlt|Hge].
  - rewrite (IH (n + 1)) by lia. replace (Z.to_nat (limit - n)) with (S (Z.to_nat (limit - (n + 1)))) by lia. done.
  - rewrite (IH n) by lia. by replace (Z.to_nat (limit - n)) with 0%nat by lia.
Qed.

Lemma filter_sorted (p : PeerRow -> bool) l : StronglySorted fewer l -> StronglySorted fewer (List.filter p l).
Proof.
  induction 1 as [|x l Hs IH Hx]; cbn; [constructor|]. destruct (p x); [|done]. constructor; [done|].
  rewrite Forall_forall in *. intros y Hy. apply Hx. apply list_elem_of_In, filter_In in Hy as [Hy _]. by apply list_elem_of_In.
Qed.
End Facts.

(** ** Runs *)

(** What the network does to the table; an update names the row it is for, or all rows. *)
Inductive table_op :=
| OpUpdate (a : InetAddress) (rec : PeerRow)
| OpCreate (a : InetAddress)
| OpReset
| OpDisconnect (a : InetAddress) (conn_id : Z)
| OpActive (now max : Z)
| OpTop (active : bool) (limit attempt_time : Z)
| OpClean.

Definition well_addressed (o : table_op) : Prop :=
  match o with OpUpdate a rec => IsAny a = true \/ place rec = place_of a | _ => True end.

Definition run_op `{PeerDbParams} (o : table_op) (d : PeerDb) : PeerDb :=
  match o with
  | OpUpdate a rec => (UpdateItem a rec d).2
  | OpCreate a => (CreatePeerIfNotExist a d).2
  | OpReset => (ResetPeerInActive d).2
  | OpDisconnect a c => (UpdateItemDisconnect a c d).2
  | OpActive now max => (GetActivePeers now max d).2
  | OpTop active limit t => (QueryTopItem active limit t d).2
  | OpClean => CleanNotActivePeers d
  end.

Lemma run_op_ok `{PeerDbParams} o d : well_addressed o -> table_ok d -> table_ok (run_op o d).
Proof.
  destruct o; cbn [well_addressed run_op]; intros Hw Hd.
  - by apply UpdateItem_ok.
  - by apply CreatePeer_ok.
  - apply UpdateItem_ok; [done|by left].
  - by apply Disconnect_ok.
  - by apply GetActivePeers_ok.
  - by apply QueryTop_ok.
  - by apply Clean_ok.
Qed.

(** An update that succeeds leaves a row for its address. *)
Lemma UpdateItem_present `{PeerDbParams} a rec d d' : IsAny a = false -> place rec = place_of a ->
  UpdateItem a rec d = (true, d') -> exists l, peers_table d' = Table l /\ place_of a ∈ map place l.
Proof.
  intros HA Hp. unfold UpdateItem. destruct (db_Get d) as [x d1]. destruct (answer_rows x) as [l|]; [|done].
  pose proof (update_rows_count a rec l HA) as [Hn _]. pose proof (update_rows_places a rec l) as Hpl.
  assert (HC : (update_rows a rec l).2 <> 0 -> place_of a ∈ map place l).
  { clear -HA. induction l as [|r l IH]; cbn [update_rows]; [done|]. destruct (update_rows a rec l) as [l' n]. cbn [snd] in IH.
    rewrite HA, orb_false_r. destruct (same_place a r) eqn:E; cbn [snd map].
    - intros _. apply same_place_spec in E. rewrite <- E. by left.
    - intros Hn. right. by apply IH. }
  destruct (update_rows a rec l) as [l2 n]. cbn [fst snd] in *. rewrite HA, andb_true_r.
  assert (HP : forall l3 d1 d', (let '(ret, d) := db_Put l3 d1 in (ret, set_total_peers (rows l3) d)) = (true, d') -> peers_table d' = Table l3).
  { intros l3 d2 d3. unfold db_Put. destruct (put_ok _); intros [= <-]; done. }
  destruct (Z.eqb_spec n 0) as [->|Hn0].
  - destruct (CheckPeerPoolValid _ l2) as [l3|]; [|done]. intros ->%HP. exists (l3 ++ [rec])%list. split; [done|].
    rewrite map_app. apply elem_of_app. right. cbn. rewrite Hp. by left.
  - intros ->%HP. exists l2. split; [done|]. rewrite Hpl. by apply HC.
Qed.

Lemma CreatePeer_present `{PeerDbParams} a d d' : CreatePeerIfNotExist a d = (true, d') ->
  exists l, peers_table d' = Table l /\ place_of a ∈ map place l.
Proof.
  unfold CreatePeerIfNotExist. destruct (IsAny a) eqn:EA; cbn [orb]; [done|]. destruct (port_ a =? 0); [done|].
  destruct (QueryItem a d) as [[n found] d1] eqn:EQ. destruct (n <? 0); [done|]. destruct (Z.ltb_spec 0 n) as [Hn|_].
  - intros [= <-]. revert EQ. unfold QueryItem, db_Get. destruct (get_ok _), (peers_table d) as [| |l] eqn:Et; intros [= <- <- <-]; try lia.
    exists l. split; [done|]. unfold rows in Hn. destruct (List.filter (same_place a) l) as [|r f] eqn:Ef; [cbn in Hn; lia|].
    assert (Hr : In r (List.filter (same_place a) l)) by (rewrite Ef; by left). apply filter_In in Hr as [Hr Hs%same_place_spec].
    rewrite <- Hs. by apply list_elem_of_In, in_map.
  - by apply UpdateItem_present.
Qed.

(** The table of known peers. Over any sequence of the network's operations on it, with a database that may
    fail at any call, no address has two rows and the table stays within its bound; a
    [CreatePeerIfNotExist] that succeeds leaves a row for its address; and when room is made in a full table at most
    eleven rows go, none of them of an active peer. *)
Theorem peer_table_kept `{PeerDbParams} (ops : list table_op) (d : PeerDb) :
  Forall well_addressed ops -> table_ok d ->
  let d' := foldr run_op d ops in
  table_ok d' /\
  (forall a d'', CreatePeerIfNotExist a d' = (true, d'') ->
     exists l, peers_table d'' = Table l /\ place_of a ∈ map place l /\ NoDup (map place l)) /\
  (forall l l', peers_table d' = Table l -> CheckPeerPoolValid (rows l) l = Some l' ->
     rows l' < max_address_cnt /\ rows l - 11 <= rows l' /\ forall r, r ∈ l -> active_time r <> 0 -> r ∈ l').
Proof.
  intros Hw Hd d'. assert (H' : table_ok d').
  { unfold d'. clear d'. induction Hw as [|o ops Ho Hw IH]; cbn [foldr]; [done|by apply run_op_ok]. }
  split; [done|]. split.
  - intros a d'' HC. destruct (CreatePeer_present a d' d'' HC) as (l & Hl & Hin). exists l. split; [done|]. split; [done|].
    pose proof (CreatePeer_ok a d' H') as HO. rewrite HC in HO. unfold table_ok in HO. cbn [snd] in HO. rewrite Hl in HO. by destruct HO.
  - intros l l' Hl HC. unfold table_ok in H'. rewrite Hl in H'. destruct H' as [_ H2].
    by destruct (CheckPeerPoolValid_spec l l' H2 HC) as (_ & C2 & C3 & C4).
Qed.

(** C: The peers to connect to. [QueryTopItem] returns rows of the table that are wanted, in the order of their
    failures, as many as the limit allows, and none that has more failures than a wanted row it leaves out. *)
Theorem peers_to_try `{PeerDbParams} (active : bool) (limit attempt_time : Z) (d : PeerDb) (l : list PeerRow) :
  get_ok (db_calls d) = true -> peers_table d = Table l ->
  exists chosen rest d', QueryTopItem active limit attempt_time d = (rows chosen, chosen, d') /\
    List.filter (wanted active attempt_time) l ≡ₚ (chosen ++ rest)%list /\
    StronglySorted fewer chosen /\ rows chosen <= Z.max 0 limit /\
    (rest <> [] -> rows chosen = Z.max 0 limit) /\ forall r s, r ∈ chosen -> s ∈ rest -> fewer r s.
Proof.
  intros Hg Ht. unfold QueryTopItem, db_Get. rewrite Hg, Ht. destruct (sorted_records_spec l) as [HP HS].
  set (sorted := sorted_records l) in *. apply (filter_sorted (wanted active attempt_time)) in HS.
  rewrite top_loop_take by lia. rewrite Z.sub_0_r. set (f := List.filter (wanted active attempt_time) sorted) in *.
  exists (take (Z.to_nat limit) f), (drop (Z.to_nat limit) f). eexists. split; [reflexivity|]. rewrite take_drop.
  split; [unfold f; symmetry; clear -HP; induction HP as [|x l l' HP IH|x y l|l l' l'' _ IH1 _ IH2]; cbn;
    [done|destruct (wanted _ _ x); [by constructor|done]|destruct (wanted _ _ x), (wanted _ _ y); (done || apply Permutation_swap)|by etrans]|].
  rewrite <- (take_drop (Z.to_nat limit) f) in HS at 1. apply StronglySorted_app in HS as (Hx & H1 & _).
  split; [done|]. unfold rows. rewrite length_take. split; [lia|]. split.
  - intros Hne. destruct (le_lt_dec (length f) (Z.to_nat limit)) as [Hle|Hgt]; [|lia].
    exfalso. apply Hne. by apply drop_ge.
  - intros r s Hr Hs. by apply Hx.
Qed.

(** ** A table of three rows *)
Module TableSample.
#[export] Instance params : PeerDbParams := {| get_ok := fun _ => true; put_ok := fun _ => true; file_count := 2000 |}.
Definition addr (n : Z) : InetAddress := MkInetAddress (0x0A000000 + n) 16001.
Definition start : PeerDb := MkPeerDb Absent 0 0 [] 0.
Definition ops : list table_op :=
  [OpClean; OpUpdate (addr 2) (MkRow (ToIp (addr 2)) 16001 3 50 (-1) 0); OpCreate (addr 1); OpCreate (addr 2); OpCreate (addr 3)].
End TableSample.
#[local] Existing Instance TableSample.params.

Lemma peer_table_kept_witness :
  table_ok (foldr run_op TableSample.start TableSample.ops) /\
  match peers_table (foldr run_op TableSample.start TableSample.ops) with Table l => map ip l = ["10.0.0.3"; "10.0.0.2"; "10.0.0.1"]%string | _ => False end.
Proof.
  split; [|vm_compute; reflexivity].
  destruct (peer_table_kept TableSample.ops TableSample.start) as [H _]; [|exact I|exact H].
  constructor; [exact I|]. constructor; [right; reflexivity|repeat constructor].
Defined.

Lemma peers_to_try_witness :
  exists chosen rest, List.filter (wanted false 100) [MkRow "10.0.0.3" 16001 0 0 0 0; MkRow "10.0.0.2" 16001 3 50 0 0; MkRow "10.0.0.1" 16001 0 0 0 0]
    ≡ₚ (chosen ++ rest)%list /\ rows chosen = 2.
Proof.
  destruct (peers_to_try false 2 100 (foldr run_op TableSample.start TableSample.ops)
    [MkRow "10.0.0.3" 16001 0 0 0 0; MkRow "10.0.0.2" 16001 3 50 0 0; MkRow "10.0.0.1" 16001 0 0 0 0])
    as (chosen & rest & d' & HQ & HP & _).
  - reflexivity.
  - vm_compute. reflexivity.
  - vm_compute in HQ. injection HQ as H1 <- _. eexists _, _. split; [exact HP|reflexivity].
Defined.
