(* ===== verification/Network.v ===== *)
(** * Connections

    [Connection] and [Network] (src/common/network.cpp, network.h): the objects of
    the connections, the three maps that hold them, and what the network thread does with
    them. The objects live in a store and the maps hold pointers to them: an
    access to an object that was deleted, or through a null pointer, is a fault. A
    derived class of [Network] and [Connection] is given by its fields and
    its overridden functions. The plain and the TLS variant of every call are
    the same calls on two libraries; counters of 64 bits that grow by one are
    not wrapped. *)
From S2P Require Import Prelude OrdMap Broadcast PeerTable.

Open Scope Z_scope.

Definition OVERLAY_PING : Z := 1.

(** [protocol::WsMessage] *)
Record WsMessage := MkWs { ws_type : Z; ws_request : bool; ws_sequence : Z; ws_data : string }.

(** [Connection]; [ext_] are the fields of the derived class. *)
Record Connection (X : Type) := MkConnection {
  handle_ : Z; uri_ : string; id_ : Z; in_bound_ : bool; peer_address_ : InetAddress;
  connect_start_time_ : Z; connect_end_time_ : Z; last_receive_time_ : Z; last_send_time_ : Z; sequence_ : Z;
  ext_ : X }.
Arguments MkConnection {X}.
Arguments handle_ {X}. Arguments uri_ {X}. Arguments id_ {X}. Arguments in_bound_ {X}. Arguments peer_address_ {X}.
Arguments connect_start_time_ {X}. Arguments connect_end_time_ {X}. Arguments last_receive_time_ {X}.
Arguments last_send_time_ {X}. Arguments sequence_ {X}. Arguments ext_ {X}.

(** What is handed to the websocket library. *)
Inductive Out := OSend (handle : Z) (m : WsMessage) | OClose (handle : Z) | OConnect (handle : Z).

(** Pointers to connection objects: the object made with identifier [n] is at [n]. *)
Abbreviation ptr := Z (only parsing).

(** [Network]; [ticks] counts the readings of the clock, [app_] are the fields of the derived class. *)
Record NetState (X App : Type) := MkNet {
  heap : gmap ptr (Connection X);
  connections_ : ordmap Z ptr;
  connections_delete_ : ordmap Z ptr;
  connection_handles_ : gmap Z Z;
  next_id_ : Z;
  last_check_time : Z;
  ticks : nat;
  sent_ : list Out;
  app_ : App }.
Arguments MkNet {X App}.
Arguments heap {X App}. Arguments connections_ {X App}. Arguments connections_delete_ {X App}.
Arguments connection_handles_ {X App}. Arguments next_id_ {X App}. Arguments last_check_time {X App}.
Arguments ticks {X App}. Arguments sent_ {X App}. Arguments app_ {X App}.

(** The clock, the websocket library and the serialisation of the messages of the base class. *)
Class NetParams := {
  clock : nat -> Z;
  con_address : Z -> InetAddress;             (* the other end of a connection *)
  send_ok : nat -> bool;                      (* whether the n-th call to the library succeeds *)
  get_connection : nat -> string -> option Z; (* a handle for a uri *)
  ParseWs : string -> WsMessage;
  SerPing : Z -> string;
  ParsePing : string -> option Z;
  SerPong : Z -> string;
  ParsePong : string -> option Z }.

(** ** State and faults *)
Inductive fault := NullPointer | DeletedObject.

Definition net (X App A : Type) : Type := NetState X App -> (A * NetState X App) + fault.
#[export] Instance net_ret {X App} : MRet (net X App) := fun A a s => inl (a, s).
#[export] Instance net_bind {X App} : MBind (net X App) := fun A B k m s =>
  match m s with inl (a, s') => k a s' | inr f => inr f end.

Section Monad.
Context {X App : Type} `{NP : NetParams}.
Implicit Types (s : NetState X App) (p : ptr) (c : Connection X).

Definition gets {A} (f : NetState X App -> A) : net X App A := fun s => inl (f s, s).
Definition crash {A} (f : fault) : net X App A := fun _ => inr f.

Definition upd_heap (h : gmap ptr (Connection X)) s := MkNet h (connections_ s) (connections_delete_ s) (connection_handles_ s) (next_id_ s) (last_check_time s) (ticks s) (sent_ s) (app_ s).
Definition upd_maps cs cd ch s : NetState X App := MkNet (heap s) cs cd ch (next_id_ s) (last_check_time s) (ticks s) (sent_ s) (app_ s).
Definition upd_next n s : NetState X App := MkNet (heap s) (connections_ s) (connections_delete_ s) (connection_handles_ s) n (last_check_time s) (ticks s) (sent_ s) (app_ s).
Definition upd_check t s : NetState X App := MkNet (heap s) (connections_ s) (connections_delete_ s) (connection_handles_ s) (next_id_ s) t (ticks s) (sent_ s) (app_ s).
Definition upd_ticks n s : NetState X App := MkNet (heap s) (connections_ s) (connections_delete_ s) (connection_handles_ s) (next_id_ s) (last_check_time s) n (sent_ s) (app_ s).
Definition upd_sent o s : NetState X App := MkNet (heap s) (connections_ s) (connections_delete_ s) (connection_handles_ s) (next_id_ s) (last_check_time s) (ticks s) o (app_ s).
Definition upd_app a s : NetState X App := MkNet (heap s) (connections_ s) (connections_delete_ s) (connection_handles_ s) (next_id_ s) (last_check_time s) (ticks s) (sent_ s) a.
Definition puts (f : NetState X App -> NetState X App) : net X App unit := fun s => inl (tt, f s).

(** [utils::Timestamp::HighResolution()] *)
Definition HighResolution : net X App Z := fun s => inl (clock (ticks s), upd_ticks (S (ticks s)) s).

(** Reading and writing the object at a pointer, [new] and [delete]. *)
Definition deref p : net X App (Connection X) := fun s =>
  match heap s !! p with Some c => inl (c, s) | None => inr DeletedObject end.
Definition store p (f : Connection X -> Connection X) : net X App unit :=
  c ← deref p; puts (fun s => upd_heap (<[p := f c]> (heap s)) s).
Definition delete_object p : net X App unit :=
  _ ← deref p; puts (fun s => upd_heap (delete p (heap s)) s).

(** A call to the websocket library: what it is asked, and whether it succeeds. *)
Definition library (o : Out) : net X App bool := fun s => inl (send_ok (length (sent_ s)), upd_sent (sent_ s ++ [o])%list s).

(** ** [Connection] *)

Definition set_times (connect_end last_receive : Z) c : Connection X :=
  MkConnection (handle_ c) (uri_ c) (id_ c) (in_bound_ c) (peer_address_ c) (connect_start_time_ c) connect_end last_receive (last_send_time_ c) (sequence_ c) (ext_ c).
Definition set_last_send (t : Z) c : Connection X :=
  MkConnection (handle_ c) (uri_ c) (id_ c) (in_bound_ c) (peer_address_ c) (connect_start_time_ c) (connect_end_time_ c) (last_receive_time_ c) t (sequence_ c) (ext_ c).
Definition set_sequence (n : Z) c : Connection X :=
  MkConnection (handle_ c) (uri_ c) (id_ c) (in_bound_ c) (peer_address_ c) (connect_start_time_ c) (connect_end_time_ c) (last_receive_time_ c) (last_send_time_ c) n (ext_ c).
Definition set_ext (x : X) c : Connection X :=
  MkConnection (handle_ c) (uri_ c) (id_ c) (in_bound_ c) (peer_address_ c) (connect_start_time_ c) (connect_end_time_ c) (last_receive_time_ c) (last_send_time_ c) (sequence_ c) x.

(** The constructor; [in_bound] says that a server object is given. *)
Definition Connection_new (x : X) (in_bound : bool) (handle : Z) (uri : string) (id : Z) : net X App ptr :=
  now ← HighResolution;
  let c := MkConnection handle uri id in_bound (con_address handle) now (if in_bound then now else 0) now 0 0 x in
  _ ← puts (fun s => upd_heap (<[id := c]> (heap s)) s);
  mret id.

Definition TouchReceiveTime p : net X App unit :=
  now ← HighResolution; store p (fun c => set_times (connect_end_time_ c) now c).

Definition SetConnectTime p : net X App unit :=
  now ← HighResolution; store p (set_times now now).

Definition NeedPing (interval : Z) p : net X App bool :=
  c ← deref p;
  if 0 <? connect_end_time_ c then now ← HighResolution; mret (interval <? now - last_send_time_ c) else mret false.

Definition IsDataExpired (time_out : Z) p : net X App bool :=
  c ← deref p;
  if 0 <? connect_end_time_ c then now ← HighResolution; mret (time_out <? now - last_receive_time_ c) else mret false.

Definition IsConnectExpired (time_out : Z) p : net X App bool :=
  c ← deref p;
  if connect_end_time_ c =? 0 then now ← HighResolution; mret ((time_out <? now - connect_start_time_ c) && negb (in_bound_ c)) else mret false.

Definition SendByteMessage p (m : WsMessage) : net X App bool :=
  c ← deref p; library (OSend (handle_ c) m).

Definition SendMsg p (type : Z) (request : bool) (sequence : Z) (data : string) : net X App bool :=
  SendByteMessage p (MkWs type request sequence data).

Definition SendRequest p (type : Z) (data : string) : net X App bool :=
  c ← deref p;
  _ ← store p (set_sequence (sequence_ c + 1));
  SendByteMessage p (MkWs type true (sequence_ c) data).

Definition SendResponse p (req_message : WsMessage) (data : string) : net X App bool :=
  SendMsg p (ws_type req_message) false (ws_sequence req_message) data.

(** [PingCustom]; nothing uses its result. *)
Definition PingCustom p : net X App unit :=
  nonce ← HighResolution;
  _ ← SendRequest p OVERLAY_PING (SerPing nonce);
  now ← HighResolution;
  store p (set_last_send now).

Definition Close p : net X App bool := c ← deref p; library (OClose (handle_ c)).
End Monad.

(** ** What a derived class overrides

    The fields of a new object, the virtual functions, the handlers of requests and
    responses by type, and the calls other threads make. *)
Class NetHooks `{NP : NetParams} (X App : Type) := {
  new_ext : X;
  OnConnectOpen : ptr -> net X App bool;
  OnDisconnect : ptr -> net X App unit;
  OnNetworkTimer : Z -> Connection X -> bool;
  methods : bool -> Z -> option (WsMessage -> Z -> net X App bool);
  Task : Type;
  run_task : Task -> net X App unit }.

(** ** [Network]: the parts that the overriding functions call *)
Section Base.
Context {X App : Type} `{NP : NetParams}.

Definition connect_time_out_ : Z := 60 * MICRO_UNITS_PER_SEC.

Definition GetConnection (id : Z) : net X App (option ptr) := gets (fun s => om_find (connections_ s) id).
Definition GetConnection_hdl (hdl : Z) : net X App (option ptr) :=
  i ← gets (fun s => connection_handles_ s !! hdl);
  match i with Some id => GetConnection id | None => mret None end.

Definition ReopensesameConnection (conn : ptr) : net X App unit :=
  c ← deref conn;
  _ ← Close conn;
  now ← HighResolution;
  puts (fun s => upd_maps (om_erase (connections_ s) (id_ c)) (om_insert (connections_delete_ s) (now + 5 * MICRO_UNITS_PER_SEC) conn)
                          (delete (handle_ c) (connection_handles_ s)) s).

Definition ReopensesameConnection_id (conn_id : Z) : net X App unit :=
  conn ← GetConnection conn_id;
  match conn with Some p => ReopensesameConnection p | None => mret tt end.

(** A new object, entered in the maps. *)
Definition enter (x : X) (in_bound : bool) (handle : Z) (uri : string) : net X App ptr :=
  new_id ← gets next_id_;
  _ ← puts (upd_next (new_id + 1));
  p ← Connection_new x in_bound handle uri new_id;
  _ ← puts (fun s => upd_maps (om_insert (connections_ s) new_id p) (connections_delete_ s)
       (match connection_handles_ s !! handle with Some _ => connection_handles_ s | None => <[handle := new_id]> (connection_handles_ s) end) s);
  mret p.

Definition Connect (x : X) (uri : string) : net X App bool :=
  h ← gets (fun s => get_connection (length (sent_ s)) uri);
  match h with
  | None => mret false
  | Some handle =>
      _ ← enter x false handle uri;
      _ ← library (OConnect handle);
      mret true
  end.

Definition OnRequestPing (message : WsMessage) (conn_id : Z) : net X App bool :=
  match ParsePing (ws_data message) with
  | None => mret false
  | Some nonce =>
      conn ← GetConnection conn_id;
      match conn with
      | None => mret false
      | Some p => SendResponse p message (SerPong nonce)
      end
  end.

Definition OnResponsePing (message : WsMessage) (conn_id : Z) : net X App bool :=
  match ParsePong (ws_data message) with
  | None => mret false
  | Some _ =>
      conn ← GetConnection conn_id;
      match conn with
      | None => mret true
      | Some p => _ ← TouchReceiveTime p; mret true
      end
  end.
End Base.

(** ** [Network]: events *)
Section Events.
Context `{NP : NetParams} {X App : Type} `{!NetHooks X App}.

Definition OnOpen (hdl : Z) : net X App unit :=
  conn ← enter new_ext true hdl "";
  ok ← OnConnectOpen conn;
  if ok : bool then mret tt else _ ← Close conn; ReopensesameConnection conn.

(** [OnClose] and [OnFailed] *)
Definition OnClose (hdl : Z) : net X App unit :=
  conn ← GetConnection_hdl hdl;
  match conn with
  | Some p => _ ← OnDisconnect p; ReopensesameConnection p
  | None => mret tt
  end.

Definition OnClientOpen (hdl : Z) : net X App unit :=
  conn ← GetConnection_hdl hdl;
  match conn with
  | Some p =>
      _ ← SetConnectTime p;
      ok ← OnConnectOpen p;
      if ok : bool then mret tt else _ ← Close p; ReopensesameConnection p
  | None => mret tt
  end.

Definition OnPong (hdl : Z) : net X App unit :=
  conn ← GetConnection_hdl hdl;
  match conn with Some p => TouchReceiveTime p | None => mret tt end.

Definition OnMessage (hdl : Z) (payload : string) : net X App unit :=
  let message := ParseWs payload in
  conn ← GetConnection_hdl hdl;
  match conn with
  | None => mret tt
  | Some p =>
      _ ← TouchReceiveTime p;
      c ← deref p;
      let conn_id := id_ c in
      match methods (ws_request message) (ws_type message) with
      | None => mret tt
      | Some proc =>
          ok ← proc message conn_id;
          if ok : bool then mret tt
          else
            conn ← GetConnection_hdl hdl;
            _ ← (match conn with Some p => OnDisconnect p | None => mret tt end : net X App unit);
            ReopensesameConnection_id conn_id
      end
  end.

(** The three loops of [Start]: the connections to close, closing them, and deleting the objects
    that were closed five seconds ago. *)
Fixpoint check_loop (now : Z) (l : list (Z * ptr)) : net X App (list ptr) :=
  match l with
  | [] => mret []
  | (_, p) :: l' =>
      need ← NeedPing (connect_time_out_ / 4) p;
      _ ← (if need : bool then PingCustom p else mret tt);
      expired ← IsDataExpired connect_time_out_ p;
      _ ← (if expired : bool then Close p else mret true);
      c ← deref p;
      let failed := negb (OnNetworkTimer now c) in
      _ ← (if failed : bool then Close p else mret true);
      rest ← check_loop now l';
      mret ((if expired : bool then [p] else []) ++ (if failed then [p] else []) ++ rest)%list
  end.

Fixpoint close_loop (delete_list : list ptr) : net X App unit :=
  match delete_list with
  | [] => mret tt
  | p :: l => _ ← deref p; _ ← OnDisconnect p; _ ← ReopensesameConnection p; close_loop l
  end.

Fixpoint delete_loop (now : Z) (l : ordmap Z ptr) : net X App (ordmap Z ptr) :=
  match l with
  | [] => mret []
  | (t, p) :: l' =>
      if t <? now then (_ ← deref p; _ ← delete_object p; delete_loop now l')
      else rest ← delete_loop now l'; mret ((t, p) :: rest)
  end.

(** One turn of the loop of [Start], after [io_.poll()]. *)
Definition OnCheck : net X App unit :=
  now ← HighResolution;
  last ← gets last_check_time;
  if MICRO_UNITS_PER_SEC <? now - last then
    l ← gets connections_;
    delete_list ← check_loop now l;
    _ ← close_loop delete_list;
    d ← gets connections_delete_;
    d ← delete_loop now d;
    _ ← puts (fun s => upd_maps (connections_ s) d (connection_handles_ s) s);
    puts (upd_check now)
  else mret tt.

Inductive net_event :=
| EvOpen (hdl : Z) | EvClose (hdl : Z) | EvClientOpen (hdl : Z) | EvPong (hdl : Z)
| EvMessage (hdl : Z) (payload : string) | EvCheck | EvTask (t : Task).

Definition run_event (e : net_event) : net X App unit :=
  match e with
  | EvOpen hdl => OnOpen hdl
  | EvClose hdl => OnClose hdl
  | EvClientOpen hdl => OnClientOpen hdl
  | EvPong hdl => OnPong hdl
  | EvMessage hdl payload => OnMessage hdl payload
  | EvCheck => OnCheck
  | EvTask t => run_task t
  end.

Fixpoint run_events (es : list net_event) : net X App unit :=
  match es with [] => mret tt | e :: es' => _ ← run_event e; run_events es' end.

Definition Network_init (a : App) : NetState X App := MkNet ∅ [] [] ∅ 0 0 0 [] a.
End Events.
