(* ===== verification/NetworkFacts.v ===== *)
(** * Connections: proofs

    A network whose derived class keeps to the [NetLaws] never touches a deleted object and never follows
    a null pointer, as long as the clock does not run backwards and the network thread is never held
    up for more than fifty seconds; and the derived class's own invariant on the connections
    in use holds throughout. *)
From S2P Require Import Prelude OrdMap Broadcast PeerTable Network.

Open Scope Z_scope.

(** ** Weakest preconditions: the call returns, and the result satisfies [Q] *)
Section Wp.
Context {X App : Type}.
Implicit Types (s : NetState X App).

Definition wp {A} (m : net X App A) s (Q : A -> NetState X App -> Prop) : Prop :=
  match m s with inl (a, s') => Q a s' | inr _ => False end.

Lemma wp_ret {A} (a : A) s (Q : A -> NetState X App -> Prop) : Q a s -> wp (mret a) s Q.
Proof. done. Qed.

Lemma wp_bind {A B} (m : net X App A) (k : A -> net X App B) s (Q : B -> NetState X App -> Prop) :
  wp m s (fun a s' => wp (k a) s' Q) -> wp (m ≫= k) s Q.
Proof. unfold wp, mbind, net_bind. destruct (m s) as [[a s']|f]; done. Qed.

Lemma wp_mono {A} (m : net X App A) s (Q R : A -> NetState X App -> Prop) :
  (forall a s', Q a s' -> R a s') -> wp m s Q -> wp m s R.
Proof. unfold wp. destruct (m s) as [[a s']|f]; [auto|done]. Qed.

Lemma wp_gets {A} (f : NetState X App -> A) s (Q : A -> NetState X App -> Prop) : Q (f s) s -> wp (gets f) s Q.
Proof. done. Qed.

Lemma wp_puts f s (Q : unit -> NetState X App -> Prop) : Q tt (f s) -> wp (puts f) s Q.
Proof. done. Qed.

Lemma wp_deref p c s (Q : Connection X -> NetState X App -> Prop) : heap s !! p = Some c -> Q c s -> wp (deref p) s Q.
Proof. unfold wp, deref. by intros ->. Qed.

Lemma wp_store p f c s (Q : unit -> NetState X App -> Prop) :
  heap s !! p = Some c -> Q tt (upd_heap (<[p := f c]> (heap s)) s) -> wp (store p f) s Q.
Proof. intros Hp HQ. apply wp_bind, (wp_deref p c); [done|]. by apply wp_puts. Qed.

Lemma wp_run {A} (m : net X App A) s (Q : A -> NetState X App -> Prop) : wp m s Q -> exists a s', m s = inl (a, s') /\ Q a s'.
Proof. unfold wp. destruct (m s) as [[a s']|f]; [eauto|done]. Qed.
End Wp.

Ltac head_of t := lazymatch t with ?f _ => head_of f | _ => t end.
Ltac wp_step :=
  lazymatch goal with
  | |- wp (mret _) _ _ => apply wp_ret
  | |- wp (_ ≫= _) _ _ => apply wp_bind
  | |- wp (gets _) _ _ => apply wp_gets
  | |- wp (puts _) _ _ => apply wp_puts
  | |- wp ?m _ _ => let h := head_of m in unfold h; wp_step
  end.

(** ** What the derived class promises *)
Section Laws.
Context `{NP : NetParams} {X App : Type}.
Context (settled : X -> bool).
Implicit Types (s : NetState X App) (c : Connection X).

(** What may happen to an object: it stays the same connection, and stays settled. *)
Record same_connection c c' : Prop := {
  sc_id : id_ c' = id_ c;
  sc_handle : handle_ c' = handle_ c;
  sc_start : connect_start_time_ c' = connect_start_time_ c;
  sc_receive : connect_start_time_ c <= last_receive_time_ c -> connect_start_time_ c <= last_receive_time_ c';
  sc_settled : settled (ext_ c) = true -> settled (ext_ c') = true }.

(** What a call on the objects may do: nothing to the maps, no object is made or deleted. *)
Record frame s s' : Prop := {
  fr_conns : connections_ s' = connections_ s;
  fr_delete : connections_delete_ s' = connections_delete_ s;
  fr_handles : connection_handles_ s' = connection_handles_ s;
  fr_next : next_id_ s' = next_id_ s;
  fr_check : last_check_time s' = last_check_time s;
  fr_ticks : (ticks s <= ticks s')%nat;
  fr_heap : forall p, option_Forall2 same_connection (heap s !! p) (heap s' !! p) }.

(** The fields of the derived class, by connection in use. *)
Definition view s (i : Z) : option X := p ← om_find (connections_ s) i; c ← heap s !! p; Some (ext_ c).

(** A frame that leaves the fields of the derived class alone. *)
Definition quiet_frame s s' : Prop :=
  frame s s' /\ forall p c', heap s' !! p = Some c' -> exists c, heap s !! p = Some c /\ ext_ c' = ext_ c.

(** The time of the last pass over the connections, or of the start. *)
Definition last_pass s : Z := Z.max (clock 0) (last_check_time s).
Definition grace : Z := 10 * MICRO_UNITS_PER_SEC.

(** Every pointer in the maps leads to an object, to its own, and an object waits for its deletion at most once; a
    connection that the last pass has seen is settled or was young then. *)
Record inv s : Prop := {
  iv_sorted : om_sorted (connections_ s);
  iv_dsorted : om_sorted (connections_delete_ s);
  iv_conn : forall i p, om_find (connections_ s) i = Some p -> p = i /\ is_Some (heap s !! p);
  iv_obj : forall p c, heap s !! p = Some c ->
    id_ c = p /\ p < next_id_ s /\ connect_start_time_ c <= clock (ticks s) /\ connect_start_time_ c <= last_receive_time_ c;
  iv_del : forall t p, (t, p) ∈ connections_delete_ s -> is_Some (heap s !! p) /\ om_find (connections_ s) p = None;
  iv_nodup : NoDup (map snd (connections_delete_ s));
  iv_young : forall i p c, om_find (connections_ s) i = Some p -> heap s !! p = Some c ->
    settled (ext_ c) = true \/ last_pass s - connect_start_time_ c <= grace;
  iv_last : last_pass s <= clock (ticks s) }.
End Laws.

(** The promises of a derived class: which connections are settled, an invariant [J] on the connections in use,
    and what the overriding functions do. *)
Class NetLaws `{NP : NetParams} (X App : Type) `{!NetHooks X App} := {
  settled : X -> bool;
  J : (Z -> option X) -> Prop;
  J_grow : forall v v', J v -> (forall i x, v' i = Some x -> v i = Some x \/ x = new_ext) -> J v';
  timer_law : forall now (c : Connection X), OnNetworkTimer now c = settled (ext_ c) || (now - connect_start_time_ c <=? grace);
  open_law : forall p (s : NetState X App), is_Some (heap s !! p) -> wp (OnConnectOpen p) s (fun _ => quiet_frame settled s);
  disconnect_law : forall p (s : NetState X App), is_Some (heap s !! p) -> wp (OnDisconnect p) s (fun _ => quiet_frame settled s);
  method_law : (forall n m, (n <= m)%nat -> clock n <= clock m) -> forall r t proc m i p (s : NetState X App), methods r t = Some proc -> inv settled s -> J (view s) ->
    om_find (connections_ s) i = Some p -> wp (proc m i) s (fun _ s' => frame settled s s' /\ J (view s'));
  task_law : (forall n m, (n <= m)%nat -> clock n <= clock m) -> forall t (s : NetState X App), inv settled s -> J (view s) ->
    wp (run_task t) s (fun _ s' => inv settled s' /\ J (view s')) }.

(** ** Frames *)
Section Frames.
Context `{NP : NetParams} {X App : Type} (settled : X -> bool).
Context (clock_mono : forall n m, (n <= m)%nat -> clock n <= clock m).
Implicit Types (s : NetState X App) (c : Connection X) (p : ptr).
Notation frame := (frame settled).
Notation quiet_frame := (quiet_frame settled).
Notation inv := (inv settled).
Notation same_connection := (same_connection settled).

Lemma same_connection_refl c : same_connection c c.
Proof. by split. Qed.

Lemma same_connection_trans c1 c2 c3 : same_connection c1 c2 -> same_connection c2 c3 -> same_connection c1 c3.
Proof.
  intros [? ? E1 R1 ?] [? ? E2 R2 ?]. split; try congruence; [|auto]. intros H. rewrite <- E1. apply R2. rewrite E1. auto.
Qed.

Lemma frame_refl s : frame s s.
Proof. split; try done. intros p. destruct (heap s !! p); constructor. apply same_connection_refl. Qed.

Lemma frame_trans s1 s2 s3 : frame s1 s2 -> frame s2 s3 -> frame s1 s3.
Proof.
  intros [] []. split; try congruence; [lia|]. intros p. specialize (fr_heap0 p). specialize (fr_heap1 p).
  destruct fr_heap0; inversion fr_heap1; subst; constructor. by eapply same_connection_trans.
Qed.

Lemma quiet_refl s : quiet_frame s s.
Proof. split; [apply frame_refl|eauto]. Qed.

Lemma quiet_trans s1 s2 s3 : quiet_frame s1 s2 -> quiet_frame s2 s3 -> quiet_frame s1 s3.
Proof.
  intros [F1 Q1] [F2 Q2]. split; [by eapply frame_trans|]. intros p c' Hc. destruct (Q2 p c' Hc) as (c & H & E).
  destruct (Q1 p c H) as (c0 & H0 & E0). exists c0. split; [done|congruence].
Qed.

Lemma frame_live s s' p : frame s s' -> is_Some (heap s !! p) <-> is_Some (heap s' !! p).
Proof. intros [_ _ _ _ _ _ Hh]. destruct (Hh p); split; intros [? ?]; eauto; done. Qed.

Lemma frame_object s s' p c' : frame s s' -> heap s' !! p = Some c' -> exists c, heap s !! p = Some c /\ same_connection c c'.
Proof. intros [_ _ _ _ _ _ Hh] Hc. specialize (Hh p). rewrite Hc in Hh. inversion Hh; subst; eauto. Qed.

Lemma frame_object' s s' p c : frame s s' -> heap s !! p = Some c -> exists c', heap s' !! p = Some c' /\ same_connection c c'.
Proof. intros [_ _ _ _ _ _ Hh] Hc. specialize (Hh p). rewrite Hc in Hh. inversion Hh; subst; eauto. Qed.

Lemma frame_inv s s' : inv s -> frame s s' -> inv s'.
Proof.
  intros [I1 I2 I3 I4 I5 I6 I7 I8] F. pose proof F as [F1 F2 F3 F4 F5 F6 F7]. split; rewrite ?F1, ?F2; try done.
  - intros i p Hp. destruct (I3 i p Hp) as [-> Hl]. split; [done|]. by apply (frame_live s s').
  - intros p c' Hc. destruct (frame_object s s' p c' F Hc) as (c & H0 & [S1 S2 S3 S4 S5]).
    destruct (I4 p c H0) as (A1 & A2 & A3 & A4). pose proof (clock_mono _ _ F6). rewrite F4, S3. repeat split; try congruence; [lia|auto].
  - intros t p Hin. destruct (I5 t p Hin) as [Hl Hn]. split; [by apply (frame_live s s')|done].
  - intros i p c' Hp Hc. destruct (frame_object s s' p c' F Hc) as (c & H0 & [S1 S2 S3 S4 S5]).
    unfold last_pass. rewrite F5, S3. destruct (I7 i p c Hp H0); auto.
  - unfold last_pass. rewrite F5. pose proof (clock_mono _ _ F6). unfold last_pass in I8. lia.
Qed.

Lemma quiet_view s s' i x : quiet_frame s s' -> view s' i = Some x -> view s i = Some x.
Proof.
  intros [[F1 _ _ _ _ _ _] Q]. unfold view. rewrite F1. destruct (om_find (connections_ s) i) as [p|]; [|done]. cbn.
  destruct (heap s' !! p) as [c'|] eqn:Ec; cbn; [|done]. intros [= <-]. destruct (Q p c' Ec) as (c & -> & ->). done.
Qed.

(** Steps that leave the objects alone. *)
Lemma quiet_heap s s' : connections_ s' = connections_ s -> connections_delete_ s' = connections_delete_ s ->
  connection_handles_ s' = connection_handles_ s -> next_id_ s' = next_id_ s -> last_check_time s' = last_check_time s ->
  (ticks s <= ticks s')%nat -> heap s' = heap s -> quiet_frame s s'.
Proof.
  intros. split; [split; try done|]; intros p; rewrite H5; [|eauto]. destruct (heap s !! p); constructor. apply same_connection_refl.
Qed.

(** A change of one object. *)
Lemma frame_insert s p c c' : heap s !! p = Some c -> same_connection c c' -> frame s (upd_heap (<[p := c']> (heap s)) s).
Proof.
  intros Hc Hs. split; try done. intros q. cbn. destruct (decide (p = q)) as [<-|Hne].
  - rewrite lookup_insert_eq, Hc. by constructor.
  - rewrite lookup_insert_ne by done. destruct (heap s !! q); constructor. apply same_connection_refl.
Qed.

Lemma quiet_insert s p c c' : heap s !! p = Some c -> same_connection c c' -> ext_ c' = ext_ c ->
  quiet_frame s (upd_heap (<[p := c']> (heap s)) s).
Proof.
  intros Hc Hs He. split; [by eapply frame_insert|]. intros q c1. cbn. destruct (decide (p = q)) as [<-|Hne].
  - rewrite lookup_insert_eq. intros [= <-]. eauto.
  - rewrite lookup_insert_ne by done. eauto.
Qed.

(** ** Operations of [Connection] *)

Lemma wp_clock s (Q : Z -> NetState X App -> Prop) :
  Q (clock (ticks s)) (upd_ticks (S (ticks s)) s) -> wp HighResolution s Q.
Proof. done. Qed.

Lemma quiet_ticks s : quiet_frame s (upd_ticks (S (ticks s)) s).
Proof. apply quiet_heap; cbn; try done. lia. Qed.

Lemma quiet_sent s o : quiet_frame s (upd_sent o s).
Proof. by apply quiet_heap. Qed.

Lemma wp_library o s : wp (library o) s (fun _ s' => quiet_frame s s' /\ heap s' = heap s /\ ticks s' = ticks s).
Proof. split; [apply quiet_sent|done]. Qed.

Lemma wp_Close p s : is_Some (heap s !! p) ->
  wp (Close p) s (fun _ s' => quiet_frame s s' /\ heap s' = heap s /\ ticks s' = ticks s).
Proof. intros [c Hc]. wp_step. apply (wp_deref p c); [done|]. apply wp_library. Qed.

Lemma wp_SendByteMessage p m s : is_Some (heap s !! p) -> wp (SendByteMessage p m) s (fun _ => quiet_frame s).
Proof. intros [c Hc]. wp_step. apply (wp_deref p c); [done|]. eapply wp_mono; [|apply wp_library]. by intros ? ? [? _]. Qed.

Lemma wp_SendRequest p type data s : is_Some (heap s !! p) -> wp (SendRequest p type data) s (fun _ => quiet_frame s).
Proof.
  intros [c Hc]. wp_step. apply (wp_deref p c); [done|]. wp_step. apply (wp_store p _ c); [done|].
  assert (HQ : quiet_frame s (upd_heap (<[p := set_sequence (sequence_ c + 1) c]> (heap s)) s)) by (by apply (quiet_insert _ _ c)).
  eapply wp_mono; [|apply wp_SendByteMessage; cbn; rewrite lookup_insert_eq; eauto]. cbn. intros _ s' HQ'. by eapply quiet_trans.
Qed.

Lemma wp_SendResponse p m data s : is_Some (heap s !! p) -> wp (SendResponse p m data) s (fun _ => quiet_frame s).
Proof. apply wp_SendByteMessage. Qed.

(** Storing the clock in the times of an object. *)
Lemma wp_touch p (f : Z -> Connection X -> Connection X) s : inv s -> is_Some (heap s !! p) ->
  (forall c t, connect_start_time_ c <= t -> same_connection c (f t c) /\ ext_ (f t c) = ext_ c) ->
  wp (HighResolution ≫= fun now => store p (f now)) s (fun _ => quiet_frame s).
Proof.
  intros HI [c Hc] Hf. wp_step. apply wp_clock. apply (wp_store p _ c); [done|].
  destruct (iv_obj _ _ HI p c Hc) as (_ & _ & Hs & _). destruct (Hf c (clock (ticks s)) Hs).
  eapply quiet_trans; [apply quiet_ticks|]. by apply (quiet_insert (upd_ticks (S (ticks s)) s) p c).
Qed.

Lemma wp_TouchReceiveTime p s : inv s -> is_Some (heap s !! p) -> wp (TouchReceiveTime p) s (fun _ => quiet_frame s).
Proof. intros HI Hp. apply wp_touch; [done..|]. intros c t Ht. split; [by split|done]. Qed.

Lemma wp_SetConnectTime p s : inv s -> is_Some (heap s !! p) -> wp (SetConnectTime p) s (fun _ => quiet_frame s).
Proof. intros HI Hp. apply (wp_touch p (fun now => set_times now now)); [done..|]. intros c t Ht. split; [by split|done]. Qed.

Lemma wp_PingCustom p s : is_Some (heap s !! p) -> wp (PingCustom p) s (fun _ => quiet_frame s).
Proof.
  intros Hp. wp_step. apply wp_clock. wp_step. eapply wp_mono; [|by apply wp_SendRequest]. intros b s1 H1.
  assert (HQ : quiet_frame s s1) by (eapply quiet_trans; [apply quiet_ticks|done]). clear H1.
  destruct HQ as [HF HQ]. pose proof Hp as [c1 Hc1]%(frame_live _ _ p HF). wp_step. apply wp_clock. apply (wp_store p _ c1); [done|].
  eapply quiet_trans; [by split|]. eapply quiet_trans; [apply quiet_ticks|].
  by apply (quiet_insert (upd_ticks (S (ticks s1)) s1) p c1).
Qed.

Lemma wp_NeedPing n p s : is_Some (heap s !! p) -> wp (NeedPing n p) s (fun _ => quiet_frame s).
Proof.
  intros [c Hc]. wp_step. apply (wp_deref p c); [done|]. destruct (_ <? _); [|apply wp_ret, quiet_refl].
  wp_step. apply wp_clock, wp_ret, quiet_ticks.
Qed.

Lemma wp_IsDataExpired n p c s : heap s !! p = Some c ->
  wp (IsDataExpired n p) s (fun b s' => quiet_frame s s' /\ heap s' = heap s /\
    (b = true -> exists t, t <= clock (ticks s') /\ n < t - last_receive_time_ c)).
Proof.
  intros Hc. wp_step. apply (wp_deref p c); [done|]. destruct (_ <? _); [|apply wp_ret; split; [apply quiet_refl|done]].
  wp_step. apply wp_clock, wp_ret. split; [apply quiet_ticks|]. split; [done|]. intros H%Z.ltb_lt.
  exists (clock (ticks s)). split; [|done]. apply clock_mono. cbn. lia.
Qed.
End Frames.

Lemma om_set_perm {K V} `{StrictKey K} (m : ordmap K V) k v : om_find m k = None -> om_set m k v ≡ₚ (k, v) :: m.
Proof.
  induction m as [|[k0 v0] m IH]; cbn [om_find om_set]; [done|]. unfold key_eqb.
  destruct (key_ltb k k0) eqn:E1; cbn [negb andb]; [done|]. destruct (key_ltb k0 k) eqn:E2; cbn [negb andb]; [|done].
  intros Hn. rewrite (IH Hn). apply Permutation_swap.
Qed.

Lemma om_insert_cases {K V} `{StrictKey K} (m : ordmap K V) k v : om_insert m k v = m \/ om_insert m k v ≡ₚ (k, v) :: m.
Proof. unfold om_insert. destruct (om_find m k) eqn:E; [by left|right; by apply om_set_perm]. Qed.

Lemma om_find_erase {K V} `{StrictKey K} (m : ordmap K V) k k' : om_sorted m ->
  om_find (om_erase m k) k' = if key_eqb k k' then None else om_find m k'.
Proof. intros Hs. unfold om_erase. rewrite om_find_erase_if by done. destruct (om_find m k'), (key_eqb k k'); done. Qed.

(** ** Steps of [Network] *)
Section Steps.
Context `{NP : NetParams} {X App : Type} (settled : X -> bool).
Context (clock_mono : forall n m, (n <= m)%nat -> clock n <= clock m).
Implicit Types (s : NetState X App) (c : Connection X) (p : ptr).
Notation frame := (frame settled).
Notation quiet_frame := (quiet_frame settled).
Notation inv := (inv settled).

Lemma inv_live s i p : inv s -> om_find (connections_ s) i = Some p -> is_Some (heap s !! p).
Proof. intros HI Hp. by apply (iv_conn _ _ HI i p). Qed.

(** [p] is no longer in use. *)
Record closed p s s' : Prop := {
  cl_conns : connections_ s' = om_erase (connections_ s) p;
  cl_heap : heap s' = heap s;
  cl_check : last_check_time s' = last_check_time s;
  cl_ticks : (ticks s <= ticks s')%nat }.

Lemma wp_Reopensesame p s : inv s -> om_find (connections_ s) p = Some p ->
  wp (ReopensesameConnection p) s (fun _ s' => inv s' /\ closed p s s').
Proof.
  intros HI Hp. destruct (inv_live s p p HI Hp) as [c Hc]. destruct (iv_obj _ _ HI p c Hc) as (Hid & _).
  wp_step. apply (wp_deref p c); [done|]. wp_step. eapply wp_mono; [|apply (wp_Close settled p); by exists c]. intros b s1 (HQ & Hh & Ht).
  assert (HI1 : inv s1) by (eapply frame_inv; [done..|apply HQ]). destruct HQ as [[F1 F2 F3 F4 F5 F6 _] _].
  wp_step. apply wp_clock. wp_step. rewrite Hid.
  split; [|split; cbn; [by rewrite F1|done|done|rewrite Ht; lia]].
  destruct HI1 as [I1 I2 I3 I4 I5 I6 I7 I8]. rewrite <- F1 in Hp.
  set (ins := om_insert (connections_delete_ s1) (clock (ticks s1) + 5 * MICRO_UNITS_PER_SEC) p).
  assert (Hpd : p ∉ map snd (connections_delete_ s1)).
  { intros ([t q] & [= ->] & Hin)%list_elem_of_fmap. destruct (I5 t q Hin) as [_ Hno]. congruence. }
  split; cbn [connections_ connections_delete_ heap next_id_ ticks last_check_time upd_maps upd_ticks].
  - by apply om_erase_if_sorted.
  - by apply om_insert_sorted.
  - intros i q. rewrite om_find_erase by done. destruct (key_eqb_spec (K := Z) p i); [done|]. apply I3.
  - intros q c' Hc'. destruct (I4 q c' Hc') as (? & ? & ? & ?). pose proof (clock_mono (ticks s1) (S (ticks s1)) ltac:(lia)). repeat split; try done; lia.
  - intros t q Hin. rewrite om_find_erase by done. assert (Hc' : (t, q) ∈ connections_delete_ s1 \/ q = p).
    { fold ins in Hin. destruct (om_insert_cases (connections_delete_ s1) (clock (ticks s1) + 5 * MICRO_UNITS_PER_SEC) p) as [E|E].
      - unfold ins in Hin. rewrite E in Hin. by left.
      - unfold ins in Hin. rewrite E in Hin. apply elem_of_cons in Hin as [[= -> ->]|]; auto. }
    destruct Hc' as [Hin'| ->].
    + destruct (I5 t q Hin') as [? ?]. split; [done|]. by destruct (key_eqb (K := Z) p q).
    + rewrite (key_eqb_refl (K := Z)). split; [|done]. rewrite Hh. eauto.
  - fold ins. destruct (om_insert_cases (connections_delete_ s1) (clock (ticks s1) + 5 * MICRO_UNITS_PER_SEC) p) as [E|E].
    + unfold ins. by rewrite E.
    + unfold ins. rewrite E. cbn [map snd]. by constructor.
  - intros i q c'. rewrite om_find_erase by done. destruct (key_eqb_spec (K := Z) p i); [done|]. apply I7.
  - unfold last_pass in *. cbn. pose proof (clock_mono (ticks s1) (S (ticks s1)) ltac:(lia)). lia.
Qed.

Lemma closed_view p s s' i x : inv s -> closed p s s' -> view s' i = Some x -> view s i = Some x.
Proof.
  intros HI [C1 C2 _ _]. unfold view. rewrite C1, C2, om_find_erase by apply (iv_sorted _ _ HI). by destruct (key_eqb (K := Z) p i).
Qed.

(** A new object in use. *)
Lemma wp_enter x b handle uri s : inv s ->
  wp (enter x b handle uri) s (fun p s' => inv s' /\ om_find (connections_ s') p = Some p /\
    (ticks s <= ticks s')%nat /\ forall i y, view s' i = Some y -> view s i = Some y \/ y = x).
Proof.
  intros HI. pose proof HI as [I1 I2 I3 I4 I5 I6 I7 I8]. set (n := next_id_ s).
  assert (Hfresh : heap s !! n = None).
  { destruct (heap s !! n) as [c|] eqn:E; [|done]. destruct (I4 n c E) as (_ & ? & _). unfold n in *. lia. }
  assert (Hnone : om_find (connections_ s) n = None).
  { destruct (om_find (connections_ s) n) as [q|] eqn:E; [|done]. destruct (I3 n q E) as [-> [? ?]]. congruence. }
  unfold enter. do 2 wp_step. fold n. wp_step. apply wp_puts. wp_step. unfold Connection_new. wp_step. apply wp_clock. wp_step. apply wp_puts.
  wp_step. wp_step. apply wp_puts. wp_step. cbn [connections_ connections_delete_ heap next_id_ ticks last_check_time upd_maps upd_ticks upd_heap upd_next connection_handles_].
  set (c := MkConnection _ _ _ _ _ _ _ _ _ _ _).
  assert (Hf : forall i, om_find (om_insert (connections_ s) n n) i = if decide (i = n) then Some n else om_find (connections_ s) i).
  { intros i. rewrite om_find_insert. destruct (decide (i = n)) as [->|Hne].
    - by rewrite Hnone, key_eqb_refl.
    - destruct (om_find (connections_ s) i); [done|]. by destruct (key_eqb_spec (K := Z) i n). }
  pose proof (clock_mono (ticks s) (S (ticks s)) ltac:(lia)) as Hck.
  split; [split; cbn [connections_ connections_delete_ heap next_id_ ticks last_check_time upd_maps upd_ticks upd_heap upd_next connection_handles_]|].
  - by apply om_insert_sorted.
  - done.
  - intros i p. rewrite Hf. destruct (decide (i = n)) as [->|Hne].
    + intros [= <-]. split; [done|]. rewrite lookup_insert_eq. eauto.
    + intros Hp. destruct (I3 i p Hp) as [-> [c' Hc']]. split; [done|]. rewrite lookup_insert_ne by congruence. eauto.
  - intros p c' [[<- <-]|[Hne Hc']]%lookup_insert_Some.
    + unfold c. cbn. repeat split; try lia.
    + destruct (I4 p c' Hc') as (? & ? & ? & ?). unfold n. repeat split; try done; lia.
  - intros t p Hin. destruct (I5 t p Hin) as [[c' Hc'] Hn']. assert (p <> n) by congruence.
    rewrite lookup_insert_ne by congruence. rewrite Hf. destruct (decide (p = n)); [done|]. eauto.
  - done.
  - intros i p c'. rewrite Hf. destruct (decide (i = n)) as [->|Hne].
    + intros [= <-]. rewrite lookup_insert_eq. intros [= <-]. right. unfold c, last_pass in *. cbn. unfold grace, MICRO_UNITS_PER_SEC. lia.
    + intros Hp. destruct (I3 i p Hp) as [-> _]. rewrite lookup_insert_ne by congruence. by eapply I7.
  - unfold last_pass in *. cbn. lia.
  - rewrite Hf. destruct (decide (n = n)); [|done]. split; [done|]. split; [lia|]. intros i y. unfold view.
    cbn [connections_ heap upd_maps upd_heap upd_ticks upd_next]. rewrite Hf. destruct (decide (i = n)) as [->|Hne].
    + cbn. rewrite lookup_insert_eq. cbn. intros [= <-]. by right.
    + destruct (om_find (connections_ s) i) as [p|] eqn:Ep; [|done]. cbn. destruct (I3 i p Ep) as [-> _].
      rewrite lookup_insert_ne by congruence. by left.
Qed.

Lemma wp_GetConnection_hdl hdl s : inv s ->
  wp (GetConnection_hdl hdl) s (fun r s' => s' = s /\ forall p, r = Some p -> om_find (connections_ s) p = Some p).
Proof.
  intros HI. unfold GetConnection_hdl. do 2 wp_step. destruct (connection_handles_ s !! hdl) as [i|]; [|done].
  wp_step. split; [done|]. intros p Hp. by destruct (iv_conn _ _ HI i p Hp) as [-> _].
Qed.

Lemma wp_Connect x uri s : inv s ->
  wp (Connect x uri) s (fun _ s' => inv s' /\ forall i y, view s' i = Some y -> view s i = Some y \/ y = x).
Proof.
  intros HI. unfold Connect. do 2 wp_step. destruct (get_connection _ uri) as [h|]; [|apply wp_ret; auto].
  wp_step. eapply wp_mono; [|by apply wp_enter]. intros p s1 (HI1 & _ & _ & HV). wp_step.
  eapply wp_mono; [|apply (wp_library settled)]. intros _ s2 (HQ & _ & _). wp_step. split; [eapply frame_inv; [done..|apply HQ]|].
  intros i y Hy. apply HV. by eapply quiet_view.
Qed.
End Steps.

(** ** Events *)
Section EventFacts.
Context `{NP : NetParams} {X App : Type} `{HK : !NetHooks X App} `{NL : !NetLaws X App}.
Context (clock_mono : forall n m, (n <= m)%nat -> clock n <= clock m).
Implicit Types (s : NetState X App) (c : Connection X) (p : ptr).
Notation frame := (frame settled).
Notation quiet_frame := (quiet_frame settled).
Notation inv := (inv settled).

(** The state between two events. *)
Definition good s : Prop := inv s /\ J (view s).

Lemma J_quiet s s' : J (view s) -> quiet_frame s s' -> J (view s').
Proof. intros HJ HQ. eapply J_grow; [exact HJ|]. intros i x Hx. left. by eapply quiet_view. Qed.

Lemma good_quiet s s' : good s -> quiet_frame s s' -> good s'.
Proof. intros [HI HJ] HQ. split; [eapply frame_inv; [done..|apply HQ]|by eapply J_quiet]. Qed.

Lemma quiet_live s s' p : quiet_frame s s' -> is_Some (heap s !! p) -> is_Some (heap s' !! p).
Proof. intros [HF _]. by apply (frame_live settled s s'). Qed.

Lemma quiet_find s s' i : quiet_frame s s' -> om_find (connections_ s') i = om_find (connections_ s) i.
Proof. intros [[-> _] _]. done. Qed.

Lemma good_live s p : good s -> om_find (connections_ s) p = Some p -> is_Some (heap s !! p).
Proof. intros [HI _]. by apply (inv_live settled). Qed.

Lemma wp_reopen_good p s : good s -> om_find (connections_ s) p = Some p ->
  wp (ReopensesameConnection p) s (fun _ s' => good s' /\ closed p s s').
Proof.
  intros [HI HJ] Hp. eapply wp_mono; [|by apply wp_Reopensesame]. intros _ s' [HI' HC]. split; [|done].
  split; [done|]. eapply J_grow; [exact HJ|]. intros i x Hx. left. by eapply closed_view.
Qed.

Lemma wp_close_good p s : good s -> om_find (connections_ s) p = Some p ->
  wp (Close p ≫= fun _ => ReopensesameConnection p) s (fun _ => good).
Proof.
  intros HG Hp. wp_step. eapply wp_mono; [|apply (wp_Close settled p); by apply good_live]. intros _ s1 (HQ & _ & _).
  eapply wp_mono; [|apply wp_reopen_good; [by eapply good_quiet|by rewrite (quiet_find s s1)]]. by intros _ s2 [? _].
Qed.

(** Opening, with the connection in use. *)
Lemma wp_opened p s : good s -> om_find (connections_ s) p = Some p ->
  wp (OnConnectOpen p ≫= fun ok : bool => if ok then mret tt else Close p ≫= fun _ => ReopensesameConnection p) s (fun _ => good).
Proof.
  intros HG Hp. wp_step. eapply wp_mono; [|apply open_law; by apply good_live]. intros ok s1 HQ. pose proof (good_quiet _ _ HG HQ) as HG1.
  destruct ok; [by apply wp_ret|]. apply wp_close_good; [done|]. by rewrite (quiet_find s s1).
Qed.

Lemma wp_OnOpen hdl s : good s -> wp (OnOpen hdl) s (fun _ => good).
Proof.
  intros [HI HJ]. unfold OnOpen. wp_step. eapply wp_mono; [|by apply (wp_enter settled)]. intros p s1 (HI1 & Hp & _ & HV).
  apply wp_opened; [|done]. split; [done|]. by eapply J_grow.
Qed.

Lemma wp_OnClose hdl s : good s -> wp (OnClose hdl) s (fun _ => good).
Proof.
  intros HG. unfold OnClose. wp_step. eapply wp_mono; [|apply (wp_GetConnection_hdl settled), HG]. intros [p|] s1 [-> HF]; [|by apply wp_ret].
  specialize (HF p eq_refl). wp_step. eapply wp_mono; [|apply disconnect_law; by apply good_live]. intros ? s1 HQ.
  eapply wp_mono; [|apply wp_reopen_good; [by eapply good_quiet|by rewrite (quiet_find s s1)]]. by intros _ s2 [? _].
Qed.

Lemma wp_OnClientOpen hdl s : good s -> wp (OnClientOpen hdl) s (fun _ => good).
Proof.
  intros HG. unfold OnClientOpen. wp_step. eapply wp_mono; [|apply (wp_GetConnection_hdl settled), HG]. intros [p|] s1 [-> HF]; [|by apply wp_ret].
  specialize (HF p eq_refl). wp_step. eapply wp_mono; [|apply (wp_SetConnectTime settled); [apply HG|by apply good_live]]. intros ? s1 HQ.
  apply wp_opened; [by eapply good_quiet|by rewrite (quiet_find s s1)].
Qed.

Lemma wp_OnPong hdl s : good s -> wp (OnPong hdl) s (fun _ => good).
Proof.
  intros HG. unfold OnPong. wp_step. eapply wp_mono; [|apply (wp_GetConnection_hdl settled), HG]. intros [p|] s1 [-> HF]; [|by apply wp_ret].
  eapply wp_mono; [|apply (wp_TouchReceiveTime settled); [apply HG|by apply good_live, HF]]. intros ? s1 HQ. by eapply good_quiet.
Qed.

(** After a handler has refused a message. *)
Lemma wp_refused hdl p s : good s -> om_find (connections_ s) p = Some p ->
  wp (GetConnection_hdl hdl ≫= fun conn => (match conn with Some p => OnDisconnect p | None => mret tt end : net X App unit) ≫= fun _ =>
      ReopensesameConnection_id p) s (fun _ => good).
Proof.
  intros HG Hp. wp_step. eapply wp_mono; [|apply (wp_GetConnection_hdl settled), HG]. intros conn s1 [-> HF]. wp_step.
  assert (HD : wp (match conn with Some q => OnDisconnect q | None => mret tt end : net X App unit) s (fun _ => quiet_frame s)).
  { destruct conn as [q|]; [|apply wp_ret, quiet_refl]. apply disconnect_law. by apply good_live, HF. }
  eapply wp_mono; [|exact HD]. intros ? s1 HQ. unfold ReopensesameConnection_id. wp_step. unfold GetConnection. wp_step. rewrite (quiet_find s s1), Hp by done.
  eapply wp_mono; [|apply wp_reopen_good; [by eapply good_quiet|by rewrite (quiet_find s s1)]]. by intros _ s2 [? _].
Qed.

Lemma wp_OnMessage hdl payload s : good s -> wp (OnMessage hdl payload) s (fun _ => good).
Proof.
  intros HG. unfold OnMessage. wp_step. eapply wp_mono; [|apply (wp_GetConnection_hdl settled), HG]. intros [p|] s1 [-> HF]; [|by apply wp_ret].
  specialize (HF p eq_refl). wp_step. eapply wp_mono; [|apply (wp_TouchReceiveTime settled); [apply HG|by apply good_live]]. intros ? s1 HQ.
  pose proof (good_quiet _ _ HG HQ) as [HI1 HJ1]. pose proof (quiet_live s s1 p HQ (good_live s p HG HF)) as [c Hc].
  rewrite <- (quiet_find s s1) in HF by done. wp_step. apply (wp_deref p c); [done|]. destruct (iv_obj _ _ HI1 p c Hc) as (-> & _).
  destruct (methods _ _) as [proc|] eqn:Em; [|by apply wp_ret]. wp_step.
  eapply wp_mono; [|by eapply method_law]. intros ok s2 [HF2 HJ2].
  assert (HG2 : good s2) by (split; [by eapply frame_inv|done]). destruct ok; [by apply wp_ret|].
  apply wp_refused; [done|]. by destruct HF2 as [-> _].
Qed.

(** ** The pass over the connections *)

Definition hold_up : Z := 50 * MICRO_UNITS_PER_SEC.

(** The closing of [p] after the checks, when asked for. *)
Lemma wp_close_if (b : bool) p s : is_Some (heap s !! p) ->
  wp (if b then Close p else mret true) s (fun _ s' => quiet_frame s s' /\ heap s' = heap s /\ ticks s' = ticks s).
Proof. intros Hp. destruct b; [by apply (wp_Close settled)|]. apply wp_ret. split; [apply quiet_refl|done]. Qed.

(** The checks of one connection: whether it expired and the object that the timer sees. *)
Lemma wp_check_one p s : inv s -> is_Some (heap s !! p) ->
  wp (NeedPing (connect_time_out_ / 4) p ≫= fun need => (if need : bool then PingCustom p else mret tt) ≫= fun _ => IsDataExpired connect_time_out_ p) s
    (fun expired s' => quiet_frame s s' /\ exists c, heap s' !! p = Some c /\
       (expired = true -> exists t, t <= clock (ticks s') /\ connect_time_out_ < t - last_receive_time_ c)).
Proof.
  intros HI Hp. wp_step. eapply wp_mono; [|by apply (wp_NeedPing settled)]. intros need s1 Q1. pose proof (quiet_live _ _ _ Q1 Hp) as L1. wp_step.
  assert (HP : wp (if need : bool then PingCustom p else mret tt) s1 (fun _ => quiet_frame s1)).
  { destruct need; [by apply (wp_PingCustom settled)|apply wp_ret, quiet_refl]. }
  eapply wp_mono; [|exact HP]. intros ? s2 Q2. pose proof (quiet_live _ _ _ Q2 L1) as [c Hc].
  eapply wp_mono; [|by apply (wp_IsDataExpired settled clock_mono)]. intros expired s3 (Q3 & Hh & HE).
  split; [eapply quiet_trans; [|exact Q3]; eapply quiet_trans; [exact Q1|exact Q2]|]. exists c. by rewrite Hh.
Qed.

Lemma wp_check_loop now l : forall s, inv s -> (forall i p, (i, p) ∈ l -> om_find (connections_ s) i = Some p) -> NoDup (map snd l) ->
  wp (check_loop now l) s (fun dl s' => quiet_frame s s' /\ (forall p, p ∈ dl -> p ∈ map snd l) /\
    (clock (ticks s') <= last_pass s + hold_up -> NoDup dl) /\
    (forall p c, p ∈ map snd l -> p ∉ dl -> heap s' !! p = Some c -> settled (ext_ c) = true \/ now - connect_start_time_ c <= grace)).
Proof.
  induction l as [|[i p] l IH]; intros s HI Hl HN; cbn [check_loop].
  { apply wp_ret. split; [apply quiet_refl|]. split; [done|]. split; [constructor|]. by intros p c H%elem_of_nil. }
  cbn [map snd] in HN. apply NoDup_cons in HN as [Hp HN].
  assert (Hip : om_find (connections_ s) i = Some p) by (apply Hl; left).
  pose proof (wp_check_one p s HI (inv_live settled s i p HI Hip)) as H1. unfold wp at 1 in H1.
  unfold wp, mbind, net_bind in *. cbn beta.
  destruct (NeedPing _ p s) as [[need s1]|]; [|done]. destruct ((if need then PingCustom p else mret tt) s1) as [[b1 s2]|]; [|done].
  destruct (IsDataExpired _ p s2) as [[expired s3]|]; [|done]. destruct H1 as [Q3 (c & Hc & HE)].
  pose proof (wp_close_if expired p s3 ltac:(by exists c)) as H4. unfold wp in H4.
  destruct ((if expired then Close p else mret true) s3) as [[b4 s4]|]; [|done]. destruct H4 as (Q4 & Hh4 & Ht4).
  unfold deref. rewrite Hh4, Hc.
  pose proof (wp_close_if (negb (OnNetworkTimer now c)) p s4 ltac:(exists c; by rewrite Hh4)) as H5. unfold wp in H5.
  destruct ((if negb (OnNetworkTimer now c) then Close p else mret true) s4) as [[b5 s5]|]; [|done]. destruct H5 as (Q5 & Hh5 & Ht5).
  assert (Q : quiet_frame s s5) by (eapply quiet_trans; [exact Q3|]; by eapply quiet_trans).
  assert (HI5 : inv s5) by (eapply frame_inv; [done..|apply Q]).
  specialize (IH s5 HI5 ltac:(intros j q Hin; rewrite (quiet_find s s5) by done; apply Hl; by right) HN). unfold wp in IH.
  destruct (check_loop now l s5) as [[rest s6]|]; [|done]. destruct IH as (Q6 & Hsub & Hnd & Hy). unfold mret, net_ret.
  assert (Hc5 : heap s5 !! p = Some c) by (by rewrite Hh5, Hh4).
  assert (Hlp : last_pass s5 = last_pass s) by (unfold last_pass; destruct Q as [[_ _ _ _ -> _ _] _]; done).
  assert (Hpr : p ∉ rest) by (intros ?; by apply Hp, Hsub). split; [by eapply quiet_trans|]. split; [|split].
  - intros q. rewrite !elem_of_app. intros [H|[H|H]]; [| |right; by apply Hsub].
    + destruct expired; [|by apply elem_of_nil in H]. apply list_elem_of_singleton in H as ->. by left.
    + destruct (negb _); [|by apply elem_of_nil in H]. apply list_elem_of_singleton in H as ->. by left.
  - intros Hck. specialize (Hnd ltac:(by rewrite Hlp)). destruct expired, (OnNetworkTimer now c) eqn:Et; cbn [negb app]; try done; try (by constructor).
    exfalso. rewrite timer_law in Et. apply orb_false_iff in Et as [Es Et]. apply Z.leb_gt in Et.
    destruct (HE eq_refl) as (t & Ht & Hex). destruct Q6 as [[_ _ _ _ _ F6 _] _]. pose proof (clock_mono _ _ F6).
    destruct (iv_young _ _ HI5 i p c ltac:(by rewrite (quiet_find s s5)) Hc5) as [?|Hyo]; [congruence|]. rewrite Hlp in Hyo.
    destruct (iv_obj _ _ HI5 p c Hc5) as (_ & _ & _ & Hr). rewrite Ht5, Ht4 in *. unfold connect_time_out_, hold_up, grace, MICRO_UNITS_PER_SEC in *. lia.
  - intros q c' Hq Hqd Hc'. cbn [map snd] in Hq. rewrite !not_elem_of_app in Hqd. destruct Hqd as (_ & Hd & Hr). apply elem_of_cons in Hq as [->|Hq].
    + destruct (OnNetworkTimer now c) eqn:Et; cbn [negb] in Hd; [|exfalso; apply Hd; by left].
      rewrite timer_law in Et. destruct (frame_object settled s5 s6 p c' (proj1 Q6) Hc') as (c0 & H0 & [_ _ S3 _ S5]).
      rewrite Hc5 in H0. injection H0 as <-. rewrite S3. apply orb_true_iff in Et as [Et|Et%Z.leb_le]; auto.
    + by apply (Hy q c').
Qed.

Lemma wp_close_loop dl : forall s, good s -> NoDup dl -> (forall p, p ∈ dl -> om_find (connections_ s) p = Some p) ->
  wp (close_loop dl) s (fun _ s' => good s' /\ last_check_time s' = last_check_time s /\ (ticks s <= ticks s')%nat /\
    (forall i p, om_find (connections_ s') i = Some p -> om_find (connections_ s) i = Some p /\ i ∉ dl) /\
    (forall p c', heap s' !! p = Some c' -> exists c, heap s !! p = Some c /\ same_connection settled c c')).
Proof.
  induction dl as [|p dl IH]; intros s HG HN Hl; cbn [close_loop].
  { apply wp_ret. split; [done|]. split; [done|]. split; [lia|]. split; [split; [done|apply not_elem_of_nil]|].
    intros p c' Hc. exists c'. split; [done|apply same_connection_refl]. }
  apply NoDup_cons in HN as [Hp HN]. assert (Hf : om_find (connections_ s) p = Some p) by (apply Hl; left).
  destruct (good_live s p HG Hf) as [c Hc]. wp_step. apply (wp_deref p c); [done|]. wp_step.
  eapply wp_mono; [|apply disconnect_law; by exists c]. intros ? s1 Q1. pose proof (good_quiet _ _ HG Q1) as HG1. wp_step.
  eapply wp_mono; [|apply wp_reopen_good; [done|by rewrite (quiet_find s s1)]]. intros _ s2 [HG2 [C1 C2 C3 C4]].
  assert (Hsort : om_sorted (connections_ s1)) by apply (iv_sorted _ _ (proj1 HG1)).
  assert (Hfind : forall i, om_find (connections_ s2) i = if decide (p = i) then None else om_find (connections_ s) i).
  { intros i. rewrite C1, om_find_erase, (quiet_find s s1) by done. destruct (key_eqb_spec (K := Z) p i), (decide (p = i)); done. }
  eapply wp_mono; [|apply IH; [done..|]].
  - intros _ s3 (HG3 & D1 & D2 & D3 & D4). destruct Q1 as [F1 _]. pose proof F1 as [_ _ _ _ F5 F6 _]. split; [done|]. split; [congruence|]. split; [lia|]. split.
    + intros i q Hq. destruct (D3 i q Hq) as [D5 D6]. rewrite Hfind in D5. destruct (decide (p = i)); [done|]. split; [done|].
      by apply not_elem_of_cons.
    + intros q c' Hc'. destruct (D4 q c' Hc') as (c2 & Hc2 & S2). rewrite C2 in Hc2. destruct (frame_object settled s s1 q c2 F1 Hc2) as (c1 & Hc1 & S1).
      exists c1. split; [done|]. by eapply same_connection_trans.
  - intros q Hq. rewrite Hfind. destruct (decide (p = q)) as [->|]; [done|]. apply Hl. by right.
Qed.

Lemma om_sorted_sublist {V} (m' m : ordmap Z V) : sublist m' m -> om_sorted m -> om_sorted m'.
Proof.
  induction 1 as [|[k v] m' m Hs IH|[k v] m' m Hs IH]; cbn [om_sorted]; [done| |by intros [_ ?]; auto].
  intros [Hall Hm]. split; [|auto]. rewrite Forall_forall in *. intros x Hx. apply Hall. by eapply elem_of_submseteq, sublist_submseteq.
Qed.

Lemma wp_delete_loop now d : forall s, NoDup (map snd d) -> (forall t p, (t, p) ∈ d -> is_Some (heap s !! p)) ->
  wp (delete_loop now d) s (fun rest s' => sublist rest d /\ connections_ s' = connections_ s /\ next_id_ s' = next_id_ s /\
    last_check_time s' = last_check_time s /\ ticks s' = ticks s /\
    (forall p, heap s' !! p = heap s !! p \/ heap s' !! p = None /\ p ∈ map snd d /\ p ∉ map snd rest)).
Proof.
  induction d as [|[t p] d IH]; intros s HN Hl; cbn [delete_loop].
  { apply wp_ret. repeat split; auto. }
  cbn [map snd] in HN. apply NoDup_cons in HN as [Hp HN]. destruct (Hl t p) as [c Hc]; [by left|]. destruct (t <? now).
  - wp_step. apply (wp_deref p c); [done|]. wp_step. unfold delete_object. wp_step. apply (wp_deref p c); [done|]. wp_step.
    eapply wp_mono; [|apply IH; [done|]].
    + cbn. intros rest s' (D1 & D2 & D3 & D4 & D5 & D6). split; [by apply sublist_cons|]. repeat split; try done.
      intros q. destruct (D6 q) as [E|(E1 & E2 & E3)].
      * rewrite E. destruct (decide (p = q)) as [<-|Hne]; [|left; by rewrite lookup_delete_ne].
        right. rewrite lookup_delete_eq. split; [done|]. split; [by left|]. intros Hin. apply Hp.
        by eapply elem_of_submseteq, sublist_submseteq, (sublist_map snd).
      * right. split; [done|]. split; [by right|done].
    + intros t' q Hin. cbn. rewrite lookup_delete_ne; [apply (Hl t' q); by right|]. intros ->. apply Hp. apply list_elem_of_fmap. by exists (t', q).
  - wp_step. eapply wp_mono; [|apply IH; [done|]].
    + intros rest s' (D1 & D2 & D3 & D4 & D5 & D6). wp_step. split; [by apply sublist_skip|]. repeat split; try done.
      intros q. destruct (D6 q) as [E|(E1 & E2 & E3)]; [by left|]. right. split; [done|]. cbn [map snd]. split; [by right|].
      apply not_elem_of_cons. split; [|done]. by intros ->.
    + intros t' q Hin. apply (Hl t' q). by right.
Qed.

(** The readings of the clock during the checks of a pass are at most fifty seconds after the last pass. *)
Definition check_pass : net X App (list ptr) := now ← HighResolution; l ← gets connections_; check_loop now l.
Definition in_time s : bool :=
  match check_pass s with inl (_, s1) => clock (ticks s1) <=? last_pass s + hold_up | inr _ => true end.

Lemma nodup_pointers s : inv s -> NoDup (map snd (connections_ s)).
Proof.
  intros HI. replace (map snd (connections_ s)) with (map fst (connections_ s)); [by apply om_keys_nodup, (iv_sorted _ _ HI)|].
  apply map_ext_in. intros [i p] Hin. apply list_elem_of_In, om_in_find in Hin; [|apply (iv_sorted _ _ HI)].
  by destruct (iv_conn _ _ HI i p Hin).
Qed.

(** The last steps of a pass: the objects that were closed five seconds ago are deleted. *)
Lemma wp_delete_pass now s : good s -> clock 0 <= now <= clock (ticks s) ->
  (forall i p c, om_find (connections_ s) i = Some p -> heap s !! p = Some c -> settled (ext_ c) = true \/ now - connect_start_time_ c <= grace) ->
  wp (gets connections_delete_ ≫= fun d => delete_loop now d ≫= fun d => puts (fun s => upd_maps (connections_ s) d (connection_handles_ s) s) ≫= fun _ =>
      puts (upd_check now)) s (fun _ => good).
Proof.
  intros [HI HJ] Hnow Hy. pose proof HI as [I1 I2 I3 I4 I5 I6 I7 I8]. do 2 wp_step. wp_step.
  eapply wp_mono; [|apply wp_delete_loop; [done|]]; [|intros t p Hin; by apply (I5 t p)].
  intros rest s1 (D1 & D2 & D3 & D4 & D5 & D6). wp_step. wp_step. wp_step.
  assert (Hkeep : forall i p, om_find (connections_ s) i = Some p -> heap s1 !! p = heap s !! p).
  { intros i p Hp. destruct (D6 p) as [|(_ & ([t q] & Eq & Hin)%list_elem_of_fmap & _)]; [done|]. cbn in Eq. subst q.
    destruct (I5 t p Hin) as [_ Hn]. destruct (I3 i p Hp) as [-> _]. congruence. }
  assert (Hsub : forall p c, heap s1 !! p = Some c -> heap s !! p = Some c).
  { intros p c Hc. destruct (D6 p) as [<-|(E & _)]; congruence. }
  split.
  - split; cbn [connections_ connections_delete_ heap next_id_ ticks last_check_time upd_maps upd_check]; rewrite ?D2, ?D3, ?D5.
    + done.
    + by eapply om_sorted_sublist.
    + intros i p Hp. rewrite (Hkeep i p Hp). by apply I3.
    + intros p c Hc. by apply I4, Hsub.
    + intros t p Hin. assert (Hin' : (t, p) ∈ connections_delete_ s) by (by eapply elem_of_submseteq, sublist_submseteq).
      destruct (I5 t p Hin') as [Hl Hn]. split; [|done]. destruct (D6 p) as [->|(_ & _ & Hno)]; [done|]. exfalso. apply Hno. apply list_elem_of_fmap. by exists (t, p).
    + by eapply sublist_nodup, I6; apply sublist_map.
    + intros i p c Hp Hc. unfold last_pass. cbn. destruct (Hy i p c Hp (Hsub p c Hc)); [auto|right; lia].
    + unfold last_pass. cbn. lia.
  - eapply J_grow; [exact HJ|]. intros i x. unfold view. cbn [connections_ heap upd_maps upd_check]. rewrite D2.
    destruct (om_find (connections_ s) i) as [p|] eqn:Ep; [|done]. cbn. rewrite (Hkeep i p Ep). by left.
Qed.

Lemma wp_OnCheck s : good s -> in_time s = true -> wp OnCheck s (fun _ => good).
Proof.
  intros HG HT. unfold in_time, check_pass in HT. unfold mbind, net_bind, HighResolution, gets in HT. cbn beta iota in HT.
  unfold OnCheck. wp_step. apply wp_clock. do 2 wp_step. set (now := clock (ticks s)) in *. set (s0 := upd_ticks (S (ticks s)) s) in *.
  assert (HG0 : good s0) by (eapply good_quiet; [exact HG|apply quiet_ticks]).
  destruct (_ <? _); [|by apply wp_ret]. do 2 wp_step. wp_step.
  pose proof (wp_check_loop now (connections_ s0) s0 (proj1 HG0)) as HC. unfold wp in HC |- *.
  specialize (HC ltac:(intros i p Hin; apply om_in_find; [apply (iv_sorted _ _ (proj1 HG0))|done]) (nodup_pointers s0 (proj1 HG0))).
  destruct (check_loop now (connections_ s0) s0) as [[dl s1]|]; [|done]. destruct HC as (Q1 & Hsub & Hnd & Hy).
  specialize (Hnd (proj1 (Z.leb_le _ _) HT)). pose proof (good_quiet _ _ HG0 Q1) as HG1. change (wp (close_loop dl ≫= fun _ => gets connections_delete_ ≫= fun d => delete_loop now d ≫= fun d =>
    puts (fun s => upd_maps (connections_ s) d (connection_handles_ s) s) ≫= fun _ => puts (upd_check now)) s1 (fun _ => good)).
  wp_step. eapply wp_mono; [|apply wp_close_loop; [done..|]].
  - intros _ s2 (HG2 & D1 & D2 & D3 & D4). apply wp_delete_pass; [done| |].
    + destruct Q1 as [[_ _ _ _ _ F6 _] _]. cbn in F6. split; apply clock_mono; lia.
    + intros i p c Hp Hc. destruct (D3 i p Hp) as [Hp1 Hid]. destruct (D4 p c Hc) as (c1 & Hc1 & [_ _ S3 _ S5]).
      destruct (iv_conn _ _ (proj1 HG1) i p Hp1) as [-> _]. rewrite S3. rewrite (quiet_find s0 s1) in Hp1 by done.
      destruct (Hy i c1) as [?|?]; [apply list_elem_of_fmap; exists (i, i); split; [done|by apply om_find_in]|done|done|auto|auto].
  - intros p Hp. apply Hsub, list_elem_of_fmap in Hp as ([i q] & -> & Hin). rewrite (quiet_find s0 s1) by done. cbn [snd].
    apply om_in_find in Hin; [|apply (iv_sorted _ _ (proj1 HG0))]. by destruct (iv_conn _ _ (proj1 HG0) i q Hin) as [-> _].
Qed.

(** Every event keeps the state good, and a run in which every pass is in time never faults. *)
Lemma wp_event e s : good s -> (if e is EvCheck then in_time s else true) = true -> wp (run_event e) s (fun _ => good).
Proof.
  intros HG HT. destruct e; cbn [run_event].
  - by apply wp_OnOpen.
  - by apply wp_OnClose.
  - by apply wp_OnClientOpen.
  - by apply wp_OnPong.
  - by apply wp_OnMessage.
  - by apply wp_OnCheck.
  - destruct HG as [HI HJ]. by apply task_law.
Qed.

Fixpoint timely (es : list net_event) s : bool :=
  match es with
  | [] => true
  | e :: es' => (if e is EvCheck then in_time s else true) && match run_event e s with inl (_, s') => timely es' s' | inr _ => true end
  end.

Lemma wp_events es : forall s, good s -> timely es s = true -> wp (run_events es) s (fun _ => good).
Proof.
  induction es as [|e es IH]; intros s HG HT; cbn [run_events]; [by apply wp_ret|]. cbn [timely] in HT. apply andb_true_iff in HT as [Hin HT].
  pose proof (wp_event e s HG Hin) as HE. unfold wp, mbind, net_bind in *. destruct (run_event e s) as [[[] s']|]; [|done]. by apply IH.
Qed.

Lemma good_init a : 0 <= clock 0 -> J (fun _ => None) -> good (Network_init a).
Proof.
  intros H0 HJ. split; [split; cbn; try done|].
  - intros t p Hin. by apply elem_of_nil in Hin.
  - constructor.
  - unfold last_pass. cbn. lia.
  - eapply J_grow; [exact HJ|]. by intros i x.
Qed.
End EventFacts.
