(* ===== verification/PeerNet.v ===== *)
(** * The peer network

    [Peer] and [PeerNetwork] (src/overlay/peer.cpp, peer_network.cpp): the handshake, the
    handlers of the overlay messages, the connections to known peers and the driver of
    the broadcasts, as a derived class of [Network]. The consensus and
    ledger managers that handlers call, and the tasks posted to the main
    thread, are recorded; a task runs later, as an event of its own. *)
From stdpp Require Import pretty.
From S2P Require Import Prelude Strings OrdMap Broadcast Gossip PeerTable Network.

Open Scope Z_scope.

(** ** [Peer] *)
Record PeerExt := MkPeerExt {
  active_time_ : Z; peer_version_ : string; peer_ledger_version_ : Z; peer_overlay_version_ : Z;
  peer_listen_port_ : Z; peer_node_address_ : string }.
Definition Peer : Type := Connection PeerExt.

Definition Peer_new : PeerExt := MkPeerExt 0 "" 0 0 0 "".

(** [protocol::Hello] *)
Record Hello := MkHello {
  network_id : Z; ledger_version : Z; overlay_version : Z; opensesame_version : string;
  listening_port : Z; node_address : string; node_rand : string }.

Definition OVERLAY_MSGTYPE_HELLO : Z := 2.
Definition OVERLAY_MSGTYPE_PEERS : Z := 3.
Definition OVERLAY_MSGTYPE_LEDGERS : Z := 5.
Definition OVERLAY_VERSION : Z := 1000.
Definition OVERLAY_MIN_VERSION : Z := 1000.
Definition MAX_UINT16 : Z := 65535.
Definition CONSENSUS_PORT : Z := 16001.
Definition ERRCODE_INVALID_PARAMETER : Z := 2.

Definition IsActive (c : Peer) : bool := 0 <? active_time_ (ext_ c).
Definition GetRemoteAddress (c : Peer) : InetAddress :=
  if in_bound_ c then SetPort (peer_listen_port_ (ext_ c) mod 65536) (peer_address_ c) else peer_address_ c.
Definition SetPeerInfo (hello : Hello) (c : Peer) : Peer :=
  set_ext (MkPeerExt (active_time_ (ext_ c)) (opensesame_version hello) (ledger_version hello) (overlay_version hello)
             (listening_port hello) (node_address hello)) c.
Definition SetActiveTime (now : Z) (c : Peer) : Peer :=
  let x := ext_ c in
  set_ext (MkPeerExt now (peer_version_ x) (peer_ledger_version_ x) (peer_overlay_version_ x) (peer_listen_port_ x) (peer_node_address_ x)) c.
Definition Peer_OnNetworkTimer (current_time : Z) (c : Peer) : bool :=
  negb (negb (IsActive c) && (10 * MICRO_UNITS_PER_SEC <? current_time - connect_start_time_ c)).

(** ** [PeerNetwork] *)

(** Why a hello was refused: the texts of the response. *)
Inductive hello_desc := HelloOk | PeerIsActive | Duplicated | DifferentNetwork | DuplicatedConfiguration | ConnectsItself | VersionTooOld | PortNotValid.

(** Calls of other components and tasks posted to the main thread. *)
Inductive Call :=
| PostMessage (type : Z) (data : string) (conn_id : Z)
| PostSendPeers (peer_id : Z)
| OnRequestLedgers (data : string) (conn_id : Z)
| OnReceiveLedgers (data : string) (conn_id : Z)
| OnRecvLedgerUpMsg (data : string).

Record PeerApp := MkPeerApp { db_ : PeerDb; broadcast_ : Broadcast; calls_ : list Call; dns_seed_inited_ : bool }.

(** The configuration, the operating system, and the serialisation and checks of messages. *)
Class PeerParams := {
  listen_port_ : Z;
  own_address_ : string;                  (* peer_node_address_ of PeerNetwork *)
  network_id_ : Z;
  node_rand_ : string;
  target_peer_connection_ : Z;
  known_peer_list_ : list Strings.str;
  GetNetworkAddress : option (list InetAddress);
  Resolve : string -> option Z;           (* inet_addr, gethostbyname *)
  NameQuery : string -> list InetAddress; (* NameResolver::Query *)
  ledger_version_ : Z;
  software_version_ : string;
  ParseHello : string -> Hello;
  SerHello : Hello -> string;
  SerHelloResponse : Z -> hello_desc -> string;
  ParseHelloResponse : string -> Z;
  ParsePeers : string -> list (string * Z);
  SerPeers : list PeerRow -> string;
  ParsesTransaction : string -> bool;
  HasPbft : string -> bool;
  PbftValidator : string -> bool;
  ParsesNotify : string -> bool;
  NotifyValidator : string -> bool }.

Section PeerNetwork.
Context `{NP : NetParams} `{PD : PeerDbParams} `{BP : BroadcastParams} `{PP : PeerParams}.
Abbreviation pnet := (net PeerExt PeerApp).

Definition on_db {A} (f : PeerDb -> A * PeerDb) : pnet A := fun s =>
  let a := app_ s in let '(r, d) := f (db_ a) in
  inl (r, upd_app (MkPeerApp d (broadcast_ a) (calls_ a) (dns_seed_inited_ a)) s).
Definition on_broadcast {A} (f : Broadcast -> A * Broadcast) : pnet A := fun s =>
  let a := app_ s in let '(r, b) := f (broadcast_ a) in
  inl (r, upd_app (MkPeerApp (db_ a) b (calls_ a) (dns_seed_inited_ a)) s).
Definition emit (c : Call) : pnet unit := fun s =>
  let a := app_ s in inl (tt, upd_app (MkPeerApp (db_ a) (broadcast_ a) (calls_ a ++ [c]) (dns_seed_inited_ a)) s).

(** [InetAddress(ip, port)] *)
Definition address_of (ip : string) (port : Z) : InetAddress := MkInetAddress (default 0 (Resolve ip)) port.

Definition SendHello (p : ptr) : pnet bool :=
  Network.SendRequest p OVERLAY_MSGTYPE_HELLO (SerHello (MkHello network_id_ ledger_version_ OVERLAY_VERSION software_version_ listen_port_ own_address_ node_rand_)).

(** The objects of the connections, in order. *)
Fixpoint deref_all (l : list (Z * ptr)) : pnet (list Peer) :=
  match l with
  | [] => mret []
  | (_, p) :: l' => c ← deref p; cs ← deref_all l'; mret (c :: cs)
  end.
Definition all_peers : pnet (list Peer) := l ← gets connections_; deref_all l.

Definition NodeExist (addr : string) (peer_id : Z) : pnet bool :=
  cs ← all_peers;
  mret (existsb (fun c => String.eqb (peer_node_address_ (ext_ c)) addr && negb (id_ c =? peer_id)) cs).

Definition GetActivePeerIds : pnet (list Z) := cs ← all_peers; mret (map id_ (List.filter IsActive cs)).

Definition PeerNetwork_SendRequest (peer_id type : Z) (data : string) : pnet bool :=
  peer ← GetConnection peer_id;
  match peer with
  | None => mret false
  | Some p => c ← deref p; if IsActive c then Network.SendRequest p type data else mret false
  end.

Definition SendMsgToPeer (peer_id : Z) (m : WsMessage) : pnet bool :=
  peer ← GetConnection peer_id;
  match peer with
  | None => mret false
  | Some p => c ← deref p; if IsActive c then SendByteMessage p m else mret false
  end.

Fixpoint send_all (l : list BSend) : pnet unit :=
  match l with
  | [] => mret tt
  | b :: l' => _ ← PeerNetwork_SendRequest (bs_peer b) (bs_type b) (bs_data b); send_all l'
  end.

(** [BroadcastMsg] and [ReceiveBroadcastMsg] on the network; the reading of the clock is used when a record is made. *)
Definition BroadcastMsg_net (type : Z) (data : string) : pnet unit :=
  now ← HighResolution;
  ids ← GetActivePeerIds;
  out ← on_broadcast (fun b => let '(b, out) := BroadcastMsg now type data ids b in (out, b));
  send_all out.
Definition ReceiveBroadcastMsg_net (type : Z) (data : string) (conn_id : Z) : pnet bool :=
  now ← HighResolution;
  on_broadcast (ReceiveBroadcastMsg now type data conn_id).

(** ** Handlers *)

(** The checks of a hello, after [SetPeerInfo]. *)
Definition check_hello (hello : Hello) (exist : bool) : hello_desc :=
  if exist then Duplicated
  else if negb (network_id_ =? network_id hello) then DifferentNetwork
  else if String.eqb own_address_ (node_address hello) then
    (if String.eqb node_rand_ (node_rand hello) then ConnectsItself else DuplicatedConfiguration)
  else if overlay_version hello <? OVERLAY_MIN_VERSION then VersionTooOld
  else if (listening_port hello <=? 0) || (MAX_UINT16 <? listening_port hello) then PortNotValid
  else HelloOk.

Definition accept_hello (p : ptr) (conn_id : Z) : pnet unit :=
  now ← HighResolution;
  _ ← store p (SetActiveTime now);
  c ← deref p;
  _ ← (if in_bound_ c then
         _ ← SendHello p;
         _ ← on_db (CreatePeerIfNotExist (GetRemoteAddress c));
         emit (PostSendPeers (id_ c))
       else mret tt);
  let addr := GetRemoteAddress c in
  _ ← on_db (UpdateItem addr (MkRow (ToIp addr) (port_ addr) 0 (-1) (active_time_ (ext_ c)) conn_id));
  mret tt.

Definition OnMethodHello (message : WsMessage) (conn_id : Z) : pnet bool :=
  let hello := ParseHello (ws_data message) in
  peer ← GetConnection conn_id;
  match peer with
  | None => mret true
  | Some p =>
      c ← deref p;
      res ← (if IsActive c then mret (0, PeerIsActive)
             else
               _ ← store p (SetPeerInfo hello);
               exist ← NodeExist (node_address hello) (id_ c);
               match check_hello hello exist with
               | HelloOk => _ ← accept_hello p conn_id; mret (0, HelloOk)
               | e => mret (ERRCODE_INVALID_PARAMETER, e)
               end);
      let '(code, desc) := res in
      _ ← SendResponse p message (SerHelloResponse code desc);
      mret (code =? 0)
  end.

Definition is_local (a : InetAddress) (addresses : list InetAddress) : bool :=
  existsb (fun l => String.eqb (ToIp l) (ToIp a) && (listen_port_ =? port_ a)) addresses.

(** [OnMethodPeers]: the test for the own address compares the text of the message. *)
Fixpoint peers_loop (l : list (string * Z)) : pnet unit :=
  match l with
  | [] => mret tt
  | (ip, port) :: l' =>
      let port := port mod 65536 in
      let is_local_addr := match GetNetworkAddress with
                           | Some addresses => existsb (fun a => String.eqb (ToIp a) ip && (listen_port_ =? port)) addresses
                           | None => false
                           end in
      _ ← (if is_local_addr then mret true else on_db (CreatePeerIfNotExist (address_of ip port)));
      peers_loop l'
  end.

Definition OnMethodPeers (message : WsMessage) (conn_id : Z) : pnet bool :=
  peer ← GetConnection conn_id;
  match peer with
  | None => crash NullPointer
  | Some p =>
      c ← deref p;
      if negb (IsActive c) then mret true
      else _ ← peers_loop (ParsePeers (ws_data message)); mret true
  end.

Definition OnMethodHelloResponse (message : WsMessage) (conn_id : Z) : pnet bool :=
  peer ← GetConnection conn_id;
  match peer with
  | None => mret true
  | Some _ => mret (ParseHelloResponse (ws_data message) =? 0)
  end.

(** A handler that posts its message or drops it. *)
Definition on_posted (type : Z) (h : Broadcast -> bool * option (Z * string)) : pnet bool :=
  r ← on_broadcast (fun b => (h b, b));
  let '(ok, t) := r in
  _ ← (match t with Some (conn_id, data) => emit (PostMessage type data conn_id) | None => mret tt end : pnet unit);
  mret ok.

Definition OnMethodTransaction_net (message : WsMessage) (conn_id : Z) : pnet bool :=
  on_posted (ws_type message) (OnMethodTransaction (ParsesTransaction (ws_data message)) (ws_data message) conn_id).

Definition OnMethodPbft_net (message : WsMessage) (conn_id : Z) : pnet bool :=
  on_posted OVERLAY_MSGTYPE_PBFT (OnMethodPbft (HasPbft (ws_data message)) (PbftValidator (ws_data message)) (ws_data message) conn_id).

Definition OnMethodLedgerUpNotify_net (message : WsMessage) (conn_id : Z) : pnet bool :=
  let data := ws_data message in
  if negb (ParsesNotify data) then mret false
  else if negb (NotifyValidator data) then mret true
  else
    fresh ← ReceiveBroadcastMsg_net OVERLAY_MSGTYPE_LEDGER_UPGRADE_NOTIFY data conn_id;
    _ ← (if fresh : bool then _ ← BroadcastMsg_net OVERLAY_MSGTYPE_LEDGER_UPGRADE_NOTIFY data; emit (OnRecvLedgerUpMsg data)
         else mret tt);
    mret true.

Definition OnMethodGetLedgers (message : WsMessage) (conn_id : Z) : pnet bool :=
  _ ← emit (OnRequestLedgers (ws_data message) conn_id); mret true.
Definition OnMethodLedgers (message : WsMessage) (conn_id : Z) : pnet bool :=
  _ ← emit (OnReceiveLedgers (ws_data message) conn_id); mret true.

(** [request_methods_] and [response_methods_] *)
Definition peer_methods (request : bool) (type : Z) : option (WsMessage -> Z -> pnet bool) :=
  if request then
    if type =? OVERLAY_PING then Some OnRequestPing
    else if type =? OVERLAY_MSGTYPE_HELLO then Some OnMethodHello
    else if type =? OVERLAY_MSGTYPE_PEERS then Some OnMethodPeers
    else if type =? OVERLAY_MSGTYPE_TRANSACTION then Some OnMethodTransaction_net
    else if type =? OVERLAY_MSGTYPE_LEDGERS then Some OnMethodGetLedgers
    else if type =? OVERLAY_MSGTYPE_PBFT then Some OnMethodPbft_net
    else if type =? OVERLAY_MSGTYPE_LEDGER_UPGRADE_NOTIFY then Some OnMethodLedgerUpNotify_net
    else None
  else
    if type =? OVERLAY_PING then Some OnResponsePing
    else if type =? OVERLAY_MSGTYPE_LEDGERS then Some OnMethodLedgers
    else if type =? OVERLAY_MSGTYPE_HELLO then Some OnMethodHelloResponse
    else None.

Definition Peer_OnConnectOpen (conn : ptr) : pnet bool :=
  n ← gets (fun s => Z.of_nat (length (connections_ s)));
  if n <? file_count then
    c ← deref conn;
    _ ← (if in_bound_ c then mret true else SendHello conn);
    mret true
  else mret false.

Definition Peer_OnDisconnect (conn : ptr) : pnet unit :=
  c ← deref conn;
  _ ← on_db (UpdateItemDisconnect (GetRemoteAddress c) (id_ c));
  mret tt.

(** ** Connecting to known peers *)

Definition uri_of (a : InetAddress) : string := ("ws://" +:+ ToIpPort a)%string.

Fixpoint connect_loop (addresses : list InetAddress) (records : list PeerRow) : pnet unit :=
  match records with
  | [] => mret tt
  | item :: l =>
      let address := address_of (ip item) (port item mod 65536) in
      cs ← all_peers;
      if existsb (fun c => address_eqb (GetRemoteAddress c) address) cs then connect_loop addresses l
      else if is_local address addresses then connect_loop addresses l
      else
        _ ← Connect Peer_new (uri_of address);
        now ← HighResolution;
        let failures := num_failures item + 1 in
        _ ← on_db (UpdateItem address (MkRow (ToIp address) (port_ address) failures (now + failures * 10 * MICRO_UNITS_PER_SEC) (-1) 0));
        n ← gets (fun s => Z.of_nat (length (connections_ s)));
        if target_peer_connection_ <=? n then mret tt else connect_loop addresses l
  end.

Definition ConnectToPeers (max : Z) : pnet bool :=
  now ← HighResolution;
  r ← on_db (fun d => let '(n, records, d) := QueryTopItem false max now d in ((n, records), d));
  let '(row_count, records) := r in
  if row_count <? 0 then mret false
  else _ ← connect_loop (default [] GetNetworkAddress) records; mret true.

(** [InetAddress(ip)]: the part before the colon is resolved, and failing that the address is 0. *)
Definition address_of_text (ip : Strings.str) : InetAddress :=
  match Strings.Strtok ip ":"%char with
  | [] => Any
  | a :: rest => MkInetAddress (default 0 (Resolve (String.string_of_list_ascii a)))
                   (match rest with b :: _ => Strings.Stoui b mod 65536 | [] => 0 end)
  end.

Fixpoint create_all (port : Z) (l : list InetAddress) : pnet unit :=
  match l with
  | [] => mret tt
  | a :: l' => _ ← on_db (CreatePeerIfNotExist (SetPort port a)); create_all port l'
  end.

Fixpoint ResolveSeeds (l : list Strings.str) : pnet unit :=
  match l with
  | [] => mret tt
  | longip :: l' =>
      let '(ip, port) := match Strings.Strtok longip ":"%char with
                         | a :: b :: _ => (a, Strings.Stoui b mod 65536)
                         | _ => (longip, CONSENSUS_PORT)
                         end in
      let address := address_of_text ip in
      let resolved := if IsNone address then NameQuery (String.string_of_list_ascii ip) else [address] in
      _ ← create_all port resolved;
      ResolveSeeds l'
  end.

Definition PeerNetwork_OnTimer : pnet unit :=
  inited ← gets (fun s => dns_seed_inited_ (app_ s));
  if negb inited then
    _ ← ResolveSeeds known_peer_list_;
    puts (fun s => upd_app (MkPeerApp (db_ (app_ s)) (broadcast_ (app_ s)) (calls_ (app_ s)) true) s)
  else
    con_size ← gets (fun s => Z.of_nat (length (connections_ s)));
    _ ← (if con_size <? target_peer_connection_ then ConnectToPeers (target_peer_connection_ - con_size) else mret true);
    _ ← on_db (fun d => (tt, CleanNotActivePeers d));
    now ← HighResolution;
    on_broadcast (fun b => (tt, OnTimer_broadcast now b)).

(** ** Tasks of other threads *)
Inductive PeerTask :=
| TTimer
| TSendPeers (peer_id : Z)
| TPosted (type : Z) (data : string) (conn_id : Z) (accepted : bool)
| TBroadcast (type : Z) (data : string)
| TSendRequest (peer_id type : Z) (data : string)
| TSendMsg (peer_id : Z) (m : WsMessage).

Definition run_peer_task (t : PeerTask) : pnet unit :=
  match t with
  | TTimer => PeerNetwork_OnTimer
  | TSendPeers peer_id =>
      now ← HighResolution;
      _ ← on_db (GetActivePeers now 50);
      peer ← GetConnection peer_id;
      match peer with
      | None => mret tt
      | Some p =>
          c ← deref p;
          cache ← gets (fun s => db_peer_cache_ (db_ (app_ s)));
          _ ← (if IsActive c then Network.SendRequest p OVERLAY_MSGTYPE_PEERS (SerPeers cache) else mret true);
          mret tt
      end
  | TPosted type data conn_id accepted =>
      if accepted then _ ← ReceiveBroadcastMsg_net type data conn_id; BroadcastMsg_net type data else mret tt
  | TBroadcast type data => BroadcastMsg_net type data
  | TSendRequest peer_id type data => _ ← PeerNetwork_SendRequest peer_id type data; mret tt
  | TSendMsg peer_id m => _ ← SendMsgToPeer peer_id m; mret tt
  end.

#[export] Instance peer_hooks : NetHooks PeerExt PeerApp := {|
  new_ext := Peer_new;
  OnConnectOpen := Peer_OnConnectOpen;
  OnDisconnect := Peer_OnDisconnect;
  OnNetworkTimer := Peer_OnNetworkTimer;
  methods := peer_methods;
  Task := PeerTask;
  run_task := run_peer_task |}.

(** [Initialize] leaves the table reset. *)
Definition PeerNetwork_init (d : PeerDb) : NetState PeerExt PeerApp :=
  Network_init (MkPeerApp (ResetPeerInActive d).2 Broadcast_init [] false).
End PeerNetwork.
