(* ===== verification/PeerNetFacts.v ===== *)
(** * The peer network: proofs

    [PeerNetwork] keeps the promises of [NetLaws]: the network of peers never touches a deleted connection object or
    a null pointer while its thread is not held up, and no two active connections lead to the same node. *)
From S2P Require Import Prelude OrdMap Broadcast Gossip PeerTable PeerTableFacts Network NetworkFacts PeerNet.

Open Scope Z_scope.

Definition active_ext (x : PeerExt) : bool := 0 <? active_time_ x.

(** Active connections come from a hello that was accepted, and from different nodes. *)
Definition distinct_nodes `{PeerParams} (v : Z -> option PeerExt) : Prop :=
  forall i x, v i = Some x -> active_ext x = true ->
    peer_node_address_ x <> own_address_ /\ OVERLAY_MIN_VERSION <= peer_overlay_version_ x /\ 1 <= peer_listen_port_ x <= MAX_UINT16 /\
    forall j y, v j = Some y -> active_ext y = true -> j <> i -> peer_node_address_ y <> peer_node_address_ x.

Section Peers.
Context `{NP : NetParams} `{PD : PeerDbParams} `{BP : BroadcastParams} `{PP : PeerParams}.
Implicit Types (s : NetState PeerExt PeerApp) (p : ptr) (c : Peer).
Notation frame := (frame active_ext).
Notation quiet := (quiet_frame active_ext).
Notation inv := (inv active_ext).

Lemma distinct_grow v v' : distinct_nodes v -> (forall i x, v' i = Some x -> v i = Some x \/ x = Peer_new) -> distinct_nodes v'.
Proof.
  intros HD HV i x Hx Ha. destruct (HV i x Hx) as [Hv| ->]; [|done]. destruct (HD i x Hv Ha) as (H1 & H2 & H3 & H4).
  repeat split; try done; try lia. intros j y Hy Hb Hne. destruct (HV j y Hy) as [Hv'| ->]; [|done]. by apply (H4 j).
Qed.

(** ** Calls that leave the connections alone *)

Lemma quiet_app s a : quiet s (upd_app a s).
Proof. by apply quiet_heap. Qed.

Lemma wp_on_db {A} (f : PeerDb -> A * PeerDb) s : wp (on_db f) s (fun _ => quiet s).
Proof. unfold wp, on_db. destruct (f _) as [r d]. apply quiet_app. Qed.

Lemma wp_on_broadcast {A} (f : Broadcast -> A * Broadcast) s : wp (on_broadcast f) s (fun _ => quiet s).
Proof. unfold wp, on_broadcast. destruct (f _) as [r d]. apply quiet_app. Qed.

Lemma wp_emit call s : wp (emit call) s (fun _ => quiet s).
Proof. apply quiet_app. Qed.

(** Sequencing of quiet calls. *)
Lemma wp_quiet_bind {A B} (m : net PeerExt PeerApp A) (k : A -> net PeerExt PeerApp B) s :
  wp m s (fun _ => quiet s) -> (forall a s', quiet s s' -> wp (k a) s' (fun _ => quiet s')) -> wp (m ≫= k) s (fun _ => quiet s).
Proof.
  intros Hm Hk. apply wp_bind. eapply wp_mono; [|exact Hm]. cbn. intros a s1 H1. eapply wp_mono; [|by apply Hk].
  cbn. intros b s2 H2. by eapply quiet_trans.
Qed.

Lemma wp_quiet_ret {A} (a : A) s : wp (mret a) s (fun _ => quiet s).
Proof. apply wp_ret, quiet_refl. Qed.

Lemma wp_quiet_gets {A B} (f : NetState PeerExt PeerApp -> A) (k : A -> net PeerExt PeerApp B) s :
  wp (k (f s)) s (fun _ => quiet s) -> wp (gets f ≫= k) s (fun _ => quiet s).
Proof. done. Qed.

Lemma wp_quiet_clock s : wp HighResolution s (fun _ => quiet s).
Proof. apply wp_clock, quiet_ticks. Qed.

Lemma wp_quiet_deref {B} p (k : Peer -> net PeerExt PeerApp B) s : is_Some (heap s !! p) ->
  (forall c, heap s !! p = Some c -> wp (k c) s (fun _ => quiet s)) -> wp (deref p ≫= k) s (fun _ => quiet s).
Proof. intros [c Hc] Hk. apply wp_bind, (wp_deref p c); [done|]. by apply Hk. Qed.

Lemma live_quiet s s' p : quiet s s' -> is_Some (heap s !! p) -> is_Some (heap s' !! p).
Proof. intros [HF _]. by apply (frame_live active_ext s s'). Qed.

(** All pointers in use are live. *)
Definition live_conns s : Prop := forall i p, (i, p) ∈ connections_ s -> is_Some (heap s !! p).

Lemma inv_live_conns s : inv s -> live_conns s.
Proof. intros HI i p Hin. apply om_in_find in Hin; [|apply (iv_sorted _ _ HI)]. by apply (iv_conn _ _ HI i p). Qed.

Lemma live_conns_quiet s s' : quiet s s' -> live_conns s -> live_conns s'.
Proof. intros HQ HL i p Hin. apply (live_quiet s); [done|]. apply (HL i p). by destruct HQ as [[<- _] _]. Qed.

Lemma wp_deref_all l s : (forall i p, (i, p) ∈ l -> is_Some (heap s !! p)) ->
  wp (deref_all l) s (fun cs s' => s' = s /\ Forall2 (fun ip c => heap s !! (ip.2) = Some c) l cs).
Proof.
  induction l as [|[i p] l IH]; intros Hl; cbn [deref_all]; [apply wp_ret; split; [done|constructor]|].
  destruct (Hl i p) as [c Hc]; [by left|]. wp_step. apply (wp_deref p c); [done|]. wp_step.
  eapply wp_mono; [|apply IH; intros j q Hin; apply (Hl j q); by right]. cbn. intros cs s1 [-> HF]. split; [done|by constructor].
Qed.

Lemma wp_all_peers s : live_conns s ->
  wp all_peers s (fun cs s' => s' = s /\ Forall2 (fun ip c => heap s !! (ip.2) = Some c) (connections_ s) cs).
Proof. intros HL. unfold all_peers. do 2 wp_step. by apply wp_deref_all. Qed.

Lemma wp_quiet_peers {B} (k : list Peer -> net PeerExt PeerApp B) s : live_conns s ->
  (forall cs, wp (k cs) s (fun _ => quiet s)) -> wp (all_peers ≫= k) s (fun _ => quiet s).
Proof. intros HL Hk. wp_step. eapply wp_mono; [|by apply wp_all_peers]. intros cs s1 [-> _]. apply Hk. Qed.

Lemma find_live s i p : live_conns s -> om_find (connections_ s) i = Some p -> is_Some (heap s !! p).
Proof. intros HL Hp. apply (HL i p). by apply om_find_in. Qed.

Lemma wp_net_SendRequest i type data s : live_conns s -> wp (PeerNetwork_SendRequest i type data) s (fun _ => quiet s).
Proof.
  intros HL. unfold PeerNetwork_SendRequest, GetConnection. apply wp_quiet_gets. destruct (om_find _ i) as [p|] eqn:E; [|apply wp_quiet_ret].
  pose proof (find_live s i p HL E). apply wp_quiet_deref; [done|]. intros c _. destruct (IsActive c); [|apply wp_quiet_ret]. by apply wp_SendRequest.
Qed.

Lemma wp_SendMsgToPeer i m s : live_conns s -> wp (SendMsgToPeer i m) s (fun _ => quiet s).
Proof.
  intros HL. unfold SendMsgToPeer, GetConnection. apply wp_quiet_gets. destruct (om_find _ i) as [p|] eqn:E; [|apply wp_quiet_ret].
  pose proof (find_live s i p HL E). apply wp_quiet_deref; [done|]. intros c _. destruct (IsActive c); [|apply wp_quiet_ret]. by apply wp_SendByteMessage.
Qed.

Lemma wp_send_all l : forall s, live_conns s -> wp (send_all l) s (fun _ => quiet s).
Proof.
  induction l as [|b l IH]; intros s HL; cbn [send_all]; [apply wp_quiet_ret|].
  apply wp_quiet_bind; [by apply wp_net_SendRequest|]. intros _ s1 HQ. apply IH. by eapply live_conns_quiet.
Qed.

Lemma wp_BroadcastMsg_net type data s : live_conns s -> wp (BroadcastMsg_net type data) s (fun _ => quiet s).
Proof.
  intros HL. apply wp_quiet_bind; [apply wp_quiet_clock|]. intros now s1 Q1. pose proof (live_conns_quiet _ _ Q1 HL) as L1.
  apply wp_quiet_bind; [by apply wp_quiet_peers; [|intros; apply wp_quiet_ret]|]. intros ids s2 Q2. pose proof (live_conns_quiet _ _ Q2 L1) as L2.
  apply wp_quiet_bind; [apply wp_on_broadcast|]. intros out s3 Q3. apply wp_send_all. by eapply live_conns_quiet.
Qed.

Lemma wp_ReceiveBroadcastMsg_net type data i s : wp (ReceiveBroadcastMsg_net type data i) s (fun _ => quiet s).
Proof. apply wp_quiet_bind; [apply wp_quiet_clock|]. intros. apply wp_on_broadcast. Qed.

Lemma wp_peers_loop l : forall s, wp (peers_loop l) s (fun _ => quiet s).
Proof.
  induction l as [|[ip port] l IH]; intros s; cbn [peers_loop]; [apply wp_quiet_ret|].
  apply wp_quiet_bind; [|intros; apply IH]. destruct (match GetNetworkAddress with Some _ => _ | None => _ end); [apply wp_quiet_ret|apply wp_on_db].
Qed.

Lemma wp_on_posted type h s : wp (on_posted type h) s (fun _ => quiet s).
Proof.
  apply wp_quiet_bind; [apply wp_on_broadcast|]. intros [ok t] s1 _. apply wp_quiet_bind; [|intros; apply wp_quiet_ret].
  destruct t as [[i data]|]; [apply wp_emit|apply wp_quiet_ret].
Qed.

(** ** The overriding functions *)

Lemma wp_SendHello p s : is_Some (heap s !! p) -> wp (SendHello p) s (fun _ => quiet s).
Proof. intros Hp. by apply wp_SendRequest. Qed.

Lemma peer_open_law p s : is_Some (heap s !! p) -> wp (Peer_OnConnectOpen p) s (fun _ => quiet s).
Proof.
  intros Hp. apply wp_quiet_gets. destruct (_ <? _); [|apply wp_quiet_ret]. apply wp_quiet_deref; [done|]. intros c _.
  apply wp_quiet_bind; [|intros; apply wp_quiet_ret]. destruct (in_bound_ c); [apply wp_quiet_ret|by apply wp_SendHello].
Qed.

Lemma peer_disconnect_law p s : is_Some (heap s !! p) -> wp (Peer_OnDisconnect p) s (fun _ => quiet s).
Proof.
  intros Hp. apply wp_quiet_deref; [done|]. intros c _. apply wp_quiet_bind; [apply wp_on_db|]. intros; apply wp_quiet_ret.
Qed.

Lemma peer_timer_law now c : Peer_OnNetworkTimer now c = active_ext (ext_ c) || (now - connect_start_time_ c <=? grace).
Proof.
  unfold Peer_OnNetworkTimer, IsActive, active_ext, grace. rewrite negb_andb, negb_involutive. f_equal.
  destruct (Z.ltb_spec (10 * MICRO_UNITS_PER_SEC) (now - connect_start_time_ c)), (Z.leb_spec (now - connect_start_time_ c) (10 * MICRO_UNITS_PER_SEC)); cbn; lia.
Qed.

(** The handlers other than the one of the hello. *)
Lemma quiet_methods r t proc m i p s : peer_methods r t = Some proc -> (r, t) <> (true, OVERLAY_MSGTYPE_HELLO) -> inv s ->
  om_find (connections_ s) i = Some p -> wp (proc m i) s (fun _ => quiet s).
Proof.
  intros Hm Hne HI Hp. pose proof (inv_live_conns s HI) as HL. pose proof (find_live s i p HL Hp) as Hlive.
  unfold peer_methods in Hm. destruct r; repeat match type of Hm with (if ?b then _ else _) = _ => destruct b eqn:? end; try discriminate Hm; injection Hm as <-; try (exfalso; apply Hne; f_equal; lia).
  - unfold OnRequestPing, GetConnection. destruct (ParsePing _); [|apply wp_quiet_ret]. apply wp_quiet_gets. rewrite Hp. by apply wp_SendResponse.
  - unfold OnMethodPeers, GetConnection. apply wp_quiet_gets. rewrite Hp. apply wp_quiet_deref; [done|]. intros c _.
    destruct (negb _); [apply wp_quiet_ret|]. apply wp_quiet_bind; [apply wp_peers_loop|]. intros; apply wp_quiet_ret.
  - apply wp_on_posted.
  - apply wp_quiet_bind; [apply wp_emit|]. intros; apply wp_quiet_ret.
  - apply wp_on_posted.
  - unfold OnMethodLedgerUpNotify_net. destruct (negb _); [apply wp_quiet_ret|]. destruct (negb _); [apply wp_quiet_ret|].
    apply wp_quiet_bind; [apply wp_ReceiveBroadcastMsg_net|]. intros fresh s1 Q1. apply wp_quiet_bind; [|intros; apply wp_quiet_ret].
    destruct fresh; [|apply wp_quiet_ret]. apply wp_quiet_bind; [apply wp_BroadcastMsg_net; by eapply live_conns_quiet|]. intros; apply wp_emit.
  - unfold OnResponsePing, GetConnection. destruct (ParsePong _); [|apply wp_quiet_ret]. apply wp_quiet_gets. rewrite Hp.
    apply wp_quiet_bind; [by apply wp_TouchReceiveTime|]. intros; apply wp_quiet_ret.
  - apply wp_quiet_bind; [apply wp_emit|]. intros; apply wp_quiet_ret.
  - unfold OnMethodHelloResponse, GetConnection. apply wp_quiet_gets. rewrite Hp. apply wp_quiet_ret.
Qed.

(** ** The hello *)

Lemma view_conn s i x : inv s -> view s i = Some x <-> exists c, om_find (connections_ s) i = Some i /\ heap s !! i = Some c /\ ext_ c = x.
Proof.
  intros HI. unfold view. split.
  - destruct (om_find (connections_ s) i) as [p|] eqn:E; [|done]. destruct (iv_conn _ _ HI i p E) as [-> _]. cbn.
    destruct (heap s !! i) as [c|]; [|done]. cbn. intros [= <-]. eauto.
  - intros (c & Hi & Hc & <-). rewrite Hi. by simplify_option_eq.
Qed.

(** Writing one object of a connection in use. *)
Lemma view_store s i c j : inv s -> om_find (connections_ s) i = Some i ->
  view (upd_heap (<[i := c]> (heap s)) s) j = if decide (j = i) then Some (ext_ c) else view s j.
Proof.
  intros HI Hi. unfold view. cbn [connections_ heap upd_heap]. destruct (decide (j = i)) as [->|Hne].
  - rewrite Hi. cbn. by rewrite lookup_insert_eq.
  - destruct (om_find (connections_ s) j) as [p|] eqn:E; [|done]. cbn. destruct (iv_conn _ _ HI j p E) as [-> _]. by rewrite lookup_insert_ne.
Qed.

(** A view in which one connection changed. *)
Lemma distinct_change v v' i x : distinct_nodes v -> (forall j, v' j = if decide (j = i) then Some x else v j) ->
  (active_ext x = true -> peer_node_address_ x <> own_address_ /\ OVERLAY_MIN_VERSION <= peer_overlay_version_ x /\
     1 <= peer_listen_port_ x <= MAX_UINT16 /\ forall j y, v j = Some y -> j <> i -> peer_node_address_ y <> peer_node_address_ x) ->
  distinct_nodes v'.
Proof.
  intros HD HV Hx j y. rewrite HV. destruct (decide (j = i)) as [->|Hne].
  - intros [= <-] Ha. destruct (Hx Ha) as (H1 & H2 & H3 & H4). repeat split; try done; try lia.
    intros k z. rewrite HV. destruct (decide (k = i)); [done|]. intros Hz _ _. by apply (H4 k).
  - intros Hy Ha. destruct (HD j y Hy Ha) as (H1 & H2 & H3 & H4). repeat split; try done; try lia.
    intros k z. rewrite HV. destruct (decide (k = i)) as [->|Hk]; [|by apply H4].
    intros [= <-] Hb _ He. destruct (Hx Hb) as (_ & _ & _ & H5). by apply (H5 j y Hy Hne).
Qed.

(** [NodeExist] says whether another connection has the address. *)
Lemma wp_NodeExist addr i s : inv s ->
  wp (NodeExist addr i) s (fun b s' => s' = s /\ (b = false -> forall j y, view s j = Some y -> j <> i -> peer_node_address_ y <> addr)).
Proof.
  intros HI. unfold NodeExist. wp_step. eapply wp_mono; [|apply wp_all_peers; by apply inv_live_conns]. intros cs s1 [-> HF].
  wp_step. split; [done|]. intros Hb j y (c & Hj & Hc & <-)%(view_conn s j y HI) Hne Ha.
  apply om_find_in in Hj. apply list_elem_of_lookup in Hj as [n Hn]. destruct (Forall2_lookup_l _ _ _ _ _ HF Hn) as (c' & Hc' & Hh).
  cbn in Hh. rewrite Hc in Hh. injection Hh as <-. apply list_elem_of_lookup_2, list_elem_of_In in Hc'.
  assert (Ht : existsb (fun c => String.eqb (peer_node_address_ (ext_ c)) addr && negb (id_ c =? i)) cs = true).
  { apply existsb_exists. exists c. split; [done|]. destruct (iv_obj _ _ HI j c Hc) as (-> & _). rewrite Ha, String.eqb_refl. cbn.
    apply negb_true_iff. by apply Z.eqb_neq. }
  exact (eq_true_false_abs _ Ht Hb).
Qed.

Lemma check_hello_ok hello exist : check_hello hello exist = HelloOk -> exist = false /\ node_address hello <> own_address_ /\
  OVERLAY_MIN_VERSION <= overlay_version hello /\ 1 <= listening_port hello <= MAX_UINT16.
Proof.
  unfold check_hello. destruct exist; [done|]. destruct (negb _); [done|]. destruct (String.eqb_spec own_address_ (node_address hello)); [by destruct (String.eqb _ _)|].
  destruct (Z.ltb_spec (overlay_version hello) OVERLAY_MIN_VERSION); [done|].
  destruct (Z.leb_spec (listening_port hello) 0), (Z.ltb_spec MAX_UINT16 (listening_port hello)); cbn; try done. intros _. repeat split; try lia. congruence.
Qed.

Context (clock_mono : forall n m, (n <= m)%nat -> clock n <= clock m).

(** The part of [accept_hello] after the activation. *)
Lemma wp_accepted i c s : is_Some (heap s !! i) ->
  wp ((if in_bound_ c then SendHello i ≫= fun _ => on_db (CreatePeerIfNotExist (GetRemoteAddress c)) ≫= fun _ => emit (PostSendPeers (id_ c)) else mret tt) ≫= fun _ : unit =>
      on_db (UpdateItem (GetRemoteAddress c) (MkRow (ToIp (GetRemoteAddress c)) (port_ (GetRemoteAddress c)) 0 (-1) (active_time_ (ext_ c)) i)) ≫= fun _ => mret tt)
    s (fun _ => quiet s).
Proof.
  intros Hi. apply wp_quiet_bind.
  - destruct (in_bound_ c); [|apply wp_quiet_ret]. apply wp_quiet_bind; [by apply wp_SendHello|]. intros _ s1 _.
    apply wp_quiet_bind; [apply wp_on_db|]. intros; apply wp_emit.
  - intros _ s1 _. apply wp_quiet_bind; [apply wp_on_db|]. intros; apply wp_quiet_ret.
Qed.

Definition pgood s : Prop := inv s /\ distinct_nodes (view s).

Lemma pgood_quiet s s' : pgood s -> quiet s s' -> pgood s'.
Proof.
  intros [HI HD] HQ. split; [eapply frame_inv; [done..|apply HQ]|]. eapply distinct_grow; [exact HD|]. intros i x Hx. left. by eapply quiet_view.
Qed.

(** What the handler of the hello leaves: the same connections, and the active ones still of different nodes. *)
Definition kept s s' : Prop := frame s s' /\ distinct_nodes (view s').

Lemma kept_quiet s s1 s2 : pgood s -> kept s s1 -> quiet s1 s2 -> kept s s2.
Proof.
  intros [HI _] [HF HD] HQ. split; [eapply frame_trans; [exact HF|apply HQ]|].
  eapply distinct_grow; [exact HD|]. intros i x Hx. left. by eapply quiet_view.
Qed.

(** An inactive connection takes the data of a hello. *)
Lemma info_kept i c hello s : pgood s -> om_find (connections_ s) i = Some i -> heap s !! i = Some c -> IsActive c = false ->
  kept s (upd_heap (<[i := SetPeerInfo hello c]> (heap s)) s).
Proof.
  intros [HI HD] Hi Hc Ha. split.
  - apply (frame_insert active_ext s i c); [done|]. by split.
  - eapply distinct_change; [exact HD|intros j; by apply view_store|]. unfold active_ext, IsActive in *. cbn. congruence.
Qed.

(** It becomes active when no other connection has its address. *)
Lemma active_kept i c hello t s : pgood s -> om_find (connections_ s) i = Some i -> heap s !! i = Some c ->
  ext_ c = ext_ (SetPeerInfo hello c) -> check_hello hello false = HelloOk ->
  (forall j y, view s j = Some y -> j <> i -> peer_node_address_ y <> node_address hello) ->
  kept s (upd_heap (<[i := SetActiveTime t c]> (heap s)) s) \/ active_ext (ext_ c) = true.
Proof.
  intros [HI HD] Hi Hc Hx Hok Hno. destruct (active_ext (ext_ c)) eqn:Ea; [by right|left]. apply check_hello_ok in Hok as (_ & H1 & H2 & H3). split.
  - apply (frame_insert active_ext s i c); [done|]. split; try done. congruence.
  - eapply distinct_change; [exact HD|intros j; by apply view_store|]. intros _.
    cbn [ext_ SetActiveTime set_ext peer_node_address_ peer_overlay_version_ peer_listen_port_]. rewrite Hx. cbn. auto.
Qed.

Lemma wp_accept_hello i c hello s : pgood s -> om_find (connections_ s) i = Some i -> heap s !! i = Some c -> IsActive c = false ->
  ext_ c = ext_ (SetPeerInfo hello c) -> check_hello hello false = HelloOk ->
  (forall j y, view s j = Some y -> j <> i -> peer_node_address_ y <> node_address hello) ->
  wp (accept_hello i i) s (fun _ => kept s).
Proof.
  intros HG Hi Hc Ha Hx Hok Hno. unfold accept_hello. wp_step. apply wp_clock. set (s0 := upd_ticks (S (ticks s)) s).
  assert (Q0 : quiet s s0) by apply quiet_ticks. pose proof (pgood_quiet _ _ HG Q0) as HG0.
  destruct (active_kept i c hello (clock (ticks s)) s0 HG0 Hi Hc Hx Hok) as [HK|Hac]; [|..|unfold IsActive, active_ext in *; congruence].
  { intros j y Hy. apply Hno. by eapply quiet_view. }
  wp_step. apply (wp_store i _ c); [done|]. wp_step. apply (wp_deref i (SetActiveTime (clock (ticks s)) c)); [cbn; by rewrite lookup_insert_eq|].
  eapply wp_mono; [|apply wp_accepted; cbn; rewrite lookup_insert_eq; eauto]. cbn. intros _ s2 Q2.
  destruct (kept_quiet _ _ _ HG0 HK Q2) as [HF HD]. split; [eapply frame_trans; [apply Q0|exact HF]|exact HD].
Qed.

Lemma wp_OnMethodHello m i p s : inv s -> distinct_nodes (view s) -> om_find (connections_ s) i = Some p ->
  wp (OnMethodHello m i) s (fun _ s' => frame s s' /\ distinct_nodes (view s')).
Proof.
  intros HI HD Hp. assert (HG : pgood s) by done. destruct (iv_conn _ _ HI i p Hp) as [-> [c Hc]].
  unfold OnMethodHello, GetConnection. do 2 wp_step. rewrite Hp. wp_step. apply (wp_deref i c); [done|]. wp_step.
  set (hello := ParseHello (ws_data m)).
  assert (HR : wp (if IsActive c then mret (0, PeerIsActive)
     else store i (SetPeerInfo hello) ≫= fun _ => NodeExist (node_address hello) (id_ c) ≫= fun exist =>
       match check_hello hello exist with HelloOk => accept_hello i i ≫= fun _ => mret (0, HelloOk) | e => mret (ERRCODE_INVALID_PARAMETER, e) end)
     s (fun _ => kept s)).
  { destruct (IsActive c) eqn:Ea; [apply wp_ret; split; [apply frame_refl|done]|]. wp_step. apply (wp_store i _ c); [done|].
    set (s1 := upd_heap _ s). assert (HK1 : kept s s1) by (by apply info_kept).
    assert (HG1 : pgood s1) by (split; [eapply frame_inv; [done..|apply HK1]|apply HK1]).
    destruct (iv_obj _ _ HI i c Hc) as (-> & _). wp_step. eapply wp_mono; [|apply wp_NodeExist, HG1]. intros exist s2 [-> HN].
    destruct (check_hello hello exist) eqn:Eh; try (apply wp_ret; exact HK1).
    pose proof (check_hello_ok _ _ Eh) as [-> _]. wp_step.
    eapply wp_mono; [|apply (wp_accept_hello i (SetPeerInfo hello c) hello); [done|exact Hp|cbn; by rewrite lookup_insert_eq|done|done|done|by apply HN]].
    cbn. intros _ s2 [HF2 HD2]. apply wp_ret. split; [|done]. eapply frame_trans; [apply HK1|done]. }
  eapply wp_mono; [|exact HR]. intros [code desc] s1 HK1. wp_step.
  assert (Hl : is_Some (heap s1 !! i)) by (apply (frame_live active_ext s s1); [apply HK1|by exists c]).
  eapply wp_mono; [|by apply (wp_SendResponse active_ext)]. intros b s2 Q2. apply wp_ret. by eapply kept_quiet.
Qed.

(** ** The tasks *)

Lemma wp_create_all port l : forall s, wp (create_all port l) s (fun _ => quiet s).
Proof.
  induction l as [|a l IH]; intros s; cbn [create_all]; [apply wp_quiet_ret|]. apply wp_quiet_bind; [apply wp_on_db|]. intros; apply IH.
Qed.

Lemma wp_ResolveSeeds l : forall s, wp (ResolveSeeds l) s (fun _ => quiet s).
Proof.
  induction l as [|a l IH]; intros s; cbn [ResolveSeeds]; [apply wp_quiet_ret|]. destruct (match Strings.Strings.Strtok a _ with [] => _ | _ => _ end) as [ip port].
  apply wp_quiet_bind; [apply wp_create_all|]. intros; apply IH.
Qed.

Lemma wp_connect_loop addresses l : forall s, pgood s -> wp (connect_loop addresses l) s (fun _ => pgood).
Proof.
  induction l as [|item l IH]; intros s HG; cbn [connect_loop]; [by apply wp_ret|]. wp_step.
  eapply wp_mono; [|apply wp_all_peers, inv_live_conns, HG]. intros cs s0 [-> _]. destruct (existsb _ cs); [by apply IH|].
  destruct (is_local _ addresses); [by apply IH|]. wp_step. eapply wp_mono; [|apply (wp_Connect active_ext clock_mono), HG]. intros _ s1 [HI1 HV].
  assert (HG1 : pgood s1) by (split; [done|]; eapply distinct_grow; [apply HG|exact HV]).
  wp_step. apply wp_clock. wp_step. eapply wp_mono; [|apply wp_on_db]. intros ? s2 Q2. do 2 wp_step.
  assert (HG2 : pgood s2) by (eapply pgood_quiet; [eapply pgood_quiet; [exact HG1|apply quiet_ticks]|exact Q2]).
  destruct (_ <=? _); [by apply wp_ret|by apply IH].
Qed.

Lemma wp_ConnectToPeers n s : pgood s -> wp (ConnectToPeers n) s (fun _ => pgood).
Proof.
  intros HG. unfold ConnectToPeers. wp_step. apply wp_clock. wp_step. eapply wp_mono; [|apply wp_on_db]. intros [k records] s1 Q1.
  assert (HG1 : pgood s1) by (eapply pgood_quiet; [eapply pgood_quiet; [exact HG|apply quiet_ticks]|exact Q1]).
  destruct (k <? 0); [by apply wp_ret|]. wp_step. eapply wp_mono; [|by apply wp_connect_loop]. intros ? s2 HG2. by apply wp_ret.
Qed.

Lemma wp_OnTimer s : pgood s -> wp PeerNetwork_OnTimer s (fun _ => pgood).
Proof.
  intros HG. unfold PeerNetwork_OnTimer. do 2 wp_step. destruct (negb _).
  - wp_step. eapply wp_mono; [|apply wp_ResolveSeeds]. intros ? s1 Q1. wp_step. eapply pgood_quiet; [exact (pgood_quiet s s1 HG Q1)|apply quiet_app].
  - do 2 wp_step. wp_step. assert (HC : wp (if Z.of_nat (length (connections_ s)) <? target_peer_connection_
        then ConnectToPeers (target_peer_connection_ - Z.of_nat (length (connections_ s))) else mret true) s (fun _ => pgood)).
    { destruct (_ <? _); [by apply wp_ConnectToPeers|by apply wp_ret]. }
    eapply wp_mono; [|exact HC]. intros ? s1 HG1. wp_step. eapply wp_mono; [|apply wp_on_db]. intros ? s2 Q2. wp_step. apply wp_clock.
    eapply wp_mono; [|apply wp_on_broadcast]. intros ? s3 Q3.
    eapply pgood_quiet; [|exact Q3]. eapply pgood_quiet; [exact (pgood_quiet s1 s2 HG1 Q2)|apply quiet_ticks].
Qed.

Lemma peer_task_law t s : pgood s -> wp (run_peer_task t) s (fun _ => pgood).
Proof.
  intros HG. pose proof (inv_live_conns s (proj1 HG)) as HL.
  assert (Hq : forall A (m : net PeerExt PeerApp A), wp m s (fun _ => quiet s) -> wp m s (fun _ => pgood)).
  { intros A m H. eapply wp_mono; [|exact H]. intros a s' HQ. by eapply pgood_quiet. }
  destruct t as [|i|type data i accepted|type data|i type data|i m]; cbn [run_peer_task]; [by apply wp_OnTimer|apply Hq..].
  - apply wp_quiet_bind; [apply wp_quiet_clock|]. intros now s1 Q1. apply wp_quiet_bind; [apply wp_on_db|]. intros b s2 Q2.
    assert (L2 : live_conns s2) by (eapply live_conns_quiet; [exact Q2|by eapply live_conns_quiet]).
    unfold GetConnection. apply wp_quiet_gets. destruct (om_find _ i) as [p|] eqn:E; [|apply wp_quiet_ret].
    pose proof (find_live s2 i p L2 E). apply wp_quiet_deref; [done|]. intros c _. apply wp_quiet_gets.
    apply wp_quiet_bind; [|intros; apply wp_quiet_ret]. destruct (IsActive c); [by apply wp_SendRequest|apply wp_quiet_ret].
  - destruct accepted; [|apply wp_quiet_ret]. apply wp_quiet_bind; [apply wp_ReceiveBroadcastMsg_net|]. intros b s1 Q1.
    apply wp_BroadcastMsg_net. by eapply live_conns_quiet.
  - by apply wp_BroadcastMsg_net.
  - apply wp_quiet_bind; [by apply wp_net_SendRequest|]. intros; apply wp_quiet_ret.
  - apply wp_quiet_bind; [by apply wp_SendMsgToPeer|]. intros; apply wp_quiet_ret.
Qed.
End Peers.

(** [PeerNetwork] keeps the promises of a derived class. *)
#[export] Instance peer_laws `{NP : NetParams} `{PD : PeerDbParams} `{BP : BroadcastParams} `{PP : PeerParams} : NetLaws PeerExt PeerApp.
Proof.
  refine {| settled := active_ext; J := distinct_nodes |}.
  - exact distinct_grow.
  - exact peer_timer_law.
  - intros p s. apply peer_open_law.
  - intros p s. apply peer_disconnect_law.
  - intros Hmono r t proc m i p s Hm HI HD Hp. destruct (decide ((r, t) = (true, OVERLAY_MSGTYPE_HELLO))) as [[= -> ->]|Hne].
    + injection Hm as <-. by apply (wp_OnMethodHello Hmono m i p).
    + eapply wp_mono; [|eapply quiet_methods; [exact Hm|exact Hne|exact HI|exact Hp]]. intros b s' HQ. split; [apply HQ|]. eapply distinct_grow; [exact HD|].
      intros j x Hx. left. exact (quiet_view active_ext s s' j x HQ Hx).
  - intros Hmono t s HI HD. by apply (peer_task_law Hmono).
Defined.

(** ** A small network *)
Module PeerSample.
Definition sec : Z := MICRO_UNITS_PER_SEC.
Definition hello_of (data : string) : Hello := MkHello 1 1003 1000 "1.3.3" 16001 data "r".

(** A network with a clock of its own; texts stand for the messages they would parse to. *)
Definition net_params (c : nat -> Z) : NetParams := {|
  clock := c; con_address := fun h => MkInetAddress (0x0A000000 + h) 4000; send_ok := fun _ => true;
  get_connection := fun n _ => Some (1000 + Z.of_nat n);
  ParseWs := fun d => MkWs OVERLAY_MSGTYPE_HELLO true 0 d;
  SerPing := fun _ => ""; ParsePing := fun _ => None; SerPong := fun _ => ""; ParsePong := fun _ => None |}.
#[export] Instance broadcast_params : BroadcastParams := {| Crypto := fun d => d |}.
#[export] Instance peer_params : PeerParams := {|
  listen_port_ := 16001; own_address_ := "me"; network_id_ := 1; node_rand_ := "mine"; target_peer_connection_ := 10;
  known_peer_list_ := [lit "10.0.0.7"]; GetNetworkAddress := Some [MkInetAddress 0x7F000001 0];
  Resolve := fun _ => Some 0x0A000007; NameQuery := fun _ => []; ledger_version_ := 1003; software_version_ := "1.3.3";
  ParseHello := hello_of; SerHello := node_address; SerHelloResponse := fun _ _ => ""; ParseHelloResponse := fun _ => 0;
  ParsePeers := fun _ => []; SerPeers := fun _ => ""; ParsesTransaction := fun _ => true; HasPbft := fun _ => true;
  PbftValidator := fun _ => true; ParsesNotify := fun _ => true; NotifyValidator := fun _ => true |}.

(** A clock that moves a tenth of a second between readings, and one that stands still for more than a minute after the
    first connection was made and then skips the five seconds between closing and deleting. *)
Definition steady (n : nat) : Z := sec + Z.of_nat n * 100000.
Definition halting (n : nat) : Z := Z.of_nat n + (if (n <? 1)%nat then sec else if (n <? 8)%nat then 62 * sec else 80 * sec).

#[export] Instance steady_params : NetParams := net_params steady.
#[local] Existing Instance TableSample.params.
Definition task (t : PeerTask) : net_event (X := PeerExt) (App := PeerApp) := EvTask (t : Task).
Definition two_hellos : list (net_event (X := PeerExt) (App := PeerApp)) :=
  [EvOpen 1; EvOpen 2; EvMessage 1 "a"; EvMessage 2 "b"; EvCheck; task TTimer; task TTimer; EvClose 1; EvOpen 3; EvMessage 3 "b"; EvCheck].
Definition start := PeerNetwork_init TableSample.start.
Definition final : NetState PeerExt PeerApp := match run_events two_hellos start with inl (_, s) => s | inr _ => start end.
Definition peer_b : Peer := default (MkConnection 0 "" 0 false Any 0 0 0 0 0 Peer_new) (heap final !! 1).
End PeerSample.
#[local] Existing Instances TableSample.params PeerSample.broadcast_params PeerSample.peer_params PeerSample.steady_params.

(** C38: The network of peers is memory safe while its thread is not held up. Whatever connections open, close, fail, send
    messages and answer, and whatever the other threads ask for: as long as the clock does not run backwards and the
    checks of every pass over the connections end within fifty seconds of the pass before, no
    deleted connection object is touched, no null pointer is followed, every pointer in the tables leads to its object,
    and no object that is in use waits for its deletion. The limit matters: a thread held up for a minute puts an object that
    is both silent and not yet active twice on the list of objects to delete, and deletes it twice. *)
Theorem peer_network_memory_safe :
  (forall `{NP : NetParams} `{PD : PeerDbParams} `{BP : BroadcastParams} `{PP : PeerParams} (d : PeerDb) es,
     (forall n m, (n <= m)%nat -> clock n <= clock m) -> 0 <= clock 0 -> timely es (PeerNetwork_init d) = true ->
     exists s, run_events es (PeerNetwork_init d) = inl (tt, s) /\
       (forall i p, om_find (connections_ s) i = Some p -> exists c, heap s !! p = Some c /\ id_ c = i) /\
       (forall t p, (t, p) ∈ connections_delete_ s -> is_Some (heap s !! p) /\ om_find (connections_ s) p = None) /\
       NoDup (map snd (connections_delete_ s))) /\
  @run_events (PeerSample.net_params PeerSample.halting) _ _ peer_hooks [EvOpen 1; EvCheck; EvCheck] PeerSample.start = inr DeletedObject.
Proof.
  split; [|vm_compute; reflexivity]. intros NP PD BP PP d es Hmono H0 HT.
  assert (HG : good (PeerNetwork_init d)) by (apply good_init; [done|by intros i x]).
  destruct (wp_run _ _ _ (wp_events Hmono es _ HG HT)) as ([] & s & HR & [HI HJ]). exists s. split; [exact HR|]. split; [|split].
  - intros i p Hp. destruct (iv_conn _ _ HI i p Hp) as [-> [c Hc]]. exists c. split; [done|]. by destruct (iv_obj _ _ HI i c Hc).
  - intros t p. apply (iv_del _ _ HI).
  - apply (iv_nodup _ _ HI).
Qed.

(** C39: One connection per node. In every run as above, two active connections never lead to the same node address, none leads
    to the node itself, and each comes from a hello with a supported version and a valid port. *)
Theorem one_connection_per_node `{NP : NetParams} `{PD : PeerDbParams} `{BP : BroadcastParams} `{PP : PeerParams} (d : PeerDb) es s :
  (forall n m, (n <= m)%nat -> clock n <= clock m) -> 0 <= clock 0 -> timely es (PeerNetwork_init d) = true ->
  run_events es (PeerNetwork_init d) = inl (tt, s) ->
  forall i c, om_find (connections_ s) i = Some i -> heap s !! i = Some c -> IsActive c = true ->
    peer_node_address_ (ext_ c) <> own_address_ /\ OVERLAY_MIN_VERSION <= peer_overlay_version_ (ext_ c) /\
    1 <= peer_listen_port_ (ext_ c) <= MAX_UINT16 /\
    forall j c', om_find (connections_ s) j = Some j -> heap s !! j = Some c' -> IsActive c' = true ->
      peer_node_address_ (ext_ c') = peer_node_address_ (ext_ c) -> j = i.
Proof.
  intros Hmono H0 HT HR i c Hi Hc Ha.
  assert (HG : good (PeerNetwork_init d)) by (apply good_init; [done|by intros k x]).
  destruct (wp_run _ _ _ (wp_events Hmono es _ HG HT)) as ([] & s' & HR' & [HI HJ]).
  assert (s' = s) as -> by congruence. cbn in HI, HJ.
  destruct (HJ i (ext_ c)) as (H1 & H2 & H3 & H4); [by apply (view_conn s i _ HI); eauto|done|]. repeat split; try done; try lia.
  intros j c' Hj Hc' Ha' He. destruct (decide (j = i)) as [|Hne]; [done|]. exfalso. apply (H4 j (ext_ c')); [by apply (view_conn s j _ HI); eauto|done..].
Qed.

Lemma steady_mono n m : (n <= m)%nat -> PeerSample.steady n <= PeerSample.steady m.
Proof. unfold PeerSample.steady. lia. Qed.

Lemma peer_network_memory_safe_witness : exists s, run_events PeerSample.two_hellos PeerSample.start = inl (tt, s).
Proof.
  destruct (proj1 peer_network_memory_safe PeerSample.steady_params _ _ _ TableSample.start PeerSample.two_hellos steady_mono) as (s & Hs & _).
  - vm_compute. discriminate.
  - vm_compute. reflexivity.
  - exists s. exact Hs.
Defined.

Lemma one_connection_per_node_witness :
  run_events PeerSample.two_hellos PeerSample.start = inl (tt, PeerSample.final) /\
  IsActive PeerSample.peer_b = true /\ peer_node_address_ (ext_ PeerSample.peer_b) = "b"%string /\
  peer_node_address_ (ext_ PeerSample.peer_b) <> own_address_.
Proof.
  split; [vm_compute; reflexivity|]. split; [vm_compute; reflexivity|]. split; [vm_compute; reflexivity|].
  refine (proj1 (one_connection_per_node TableSample.start PeerSample.two_hellos PeerSample.final steady_mono _ _ _ 1 PeerSample.peer_b _ _ _)).
  - vm_compute. discriminate.
  - vm_compute. reflexivity.
  - vm_compute. reflexivity.
  - vm_compute. reflexivity.
  - vm_compute. reflexivity.
  - vm_compute. reflexivity.
Defined.
