(* ===== verification/V8.v ===== *)
(** * The JavaScript engine

    The values contracts exchange with the node, the engine as the contract code
    sees it (src/contract/v8_contract.h, over the V8 library), and the global
    objects and function tables of src/contract/v8_contract.cpp.

    V8 itself is not part of the sources: [V8] is its interface. A script is a
    machine that runs until it returns, throws or calls a function of the node; a
    call is answered with a value or an exception. It may choose its calls
    freely and may run for ever; the theorems that a contract ends ask that its script
    does. *)
From S2P Require Import Prelude Uint128 Strings OrdMap AtomMap Account Chain TxFrame Operation.
Import U128.

Open Scope string_scope.
Open Scope Z_scope.

(** ** Values *)

(** An object has its text ([None] when the conversion throws) and its members. A
    conversion or a member that runs code of the contract runs it before the call. *)
Inductive JsValue :=
| JsUndefined
| JsNull
| JsBoolean (b : bool)
| JsNumber (x : double)
| JsString (s : string)
| JsObject (text : option string) (members : list (string * JsValue)).

Definition IsString (v : JsValue) : bool := match v with JsString _ => true | _ => false end.
Definition IsNumber (v : JsValue) : bool := match v with JsNumber _ => true | _ => false end.
Definition IsBoolean (v : JsValue) : bool := match v with JsBoolean _ => true | _ => false end.
Definition IsObject (v : JsValue) : bool := match v with JsObject _ _ => true | _ => false end.
Definition BooleanValue (v : JsValue) : bool := match v with JsBoolean b => b | _ => false end.
(** The conversion of [NumberValue()] to an integer. *)
Definition NumberValue (v : JsValue) : Z := match v with JsNumber x => truncate x | _ => 0 end.
(** [js_object->Get(key)] *)
Definition js_member (key : string) (v : JsValue) : JsValue :=
  match v with
  | JsObject _ l => default JsUndefined (snd <$> List.find (fun e => bool_decide (e.1 = key)) l)
  | _ => JsUndefined
  end.
(** [args[i]]: undefined past the end. *)
Definition arg (i : nat) (args : list JsValue) : JsValue := default JsUndefined (args !! i).

(** The answer to a call; of an exception the text is not kept. *)
Inductive HostResult := HReturn (v : JsValue) | HThrow.

(** What a script does next. A call comes with the size of the heap in use and what is
    left of the stack; the engine itself inserts calls of [internal_check_time]. *)
Inductive js_event (St : Type) :=
| JsReturn (v : JsValue) (st : St)
| JsUncaught
| JsCall (object name : string) (args : list JsValue) (used_heap_size remain_stack_size : Z)
    (resume : HostResult -> St).
Arguments JsReturn {St} _ _.
Arguments JsUncaught {St}.
Arguments JsCall {St} _ _ _ _ _ _.

(** [js_context] is a context with the given globals, [js_compile] compiles a script in
    it, [js_function] finds a global function, ready to be called with a text.
    [js_of_json] parses the text of a JSON value. [jslint] calls the checker of the
    library directory: [None] when it is missing or broken, then [None] when it throws. *)
Class V8 := {
  js_state : Type;
  js_context : list (string * JsValue) -> js_state;
  js_compile : js_state -> string -> option js_state;
  js_next : js_state -> js_event js_state;
  js_function : js_state -> string -> option (string -> js_state);
  number_text : double -> string;
  decode_utf8 : string -> string;
  js_of_json : Json -> JsValue;
  jslint : option (string -> string -> option JsValue) }.

(** What the functions for contracts use of the JSON and cryptographic libraries and
    of the ledger. *)
Class ContractParams := {
  parse_json : string -> option Json;
  Sha256 : string -> string;
  Base64Decode : string -> string;
  PublicKey_Verify : string -> string -> string -> bool;
  ledger_hash : Z -> option string;
  current_validators : list (string * Z) }.

(** ** The functions for contracts *)
Inductive JsFunction :=
| Log_ | GetBalance_ | GetAccountAsset_ | StorageLoad_ | GetBlockHash_ | ContractQuery_ | GetValidators_
| InternalCheckTime_ | StoI64Check_ | Int64Add_ | Int64Sub_ | Int64Mul_ | Int64Mod_ | Int64Div_ | Int64Compare_
| ToBaseUnit_ | Assert_ | AddressValidCheck_ | DelegateQuery_ | GetAccountMetadata_ | GetContractProperty_
| Sha256_ | Verify_ | ToAddress_
| StorageStore_ | StorageDel_ | ConfigFee_ | SetValidators_ | PayCoin_ | IssueAsset_ | PayAsset_ | TopicLog_
| DelegateCall_ | Call_ | Create_.

Abbreviation JsFunctions := (ordmap string JsFunction).
Definition functions (l : list (string * JsFunction)) : JsFunctions := foldl (fun m e => om_set m e.1 e.2) [] l.

(** [js_obj_]: the functions of an object that read and those that write. *)
Record JsFuncList := MkFuncs { read_ : JsFunctions; write_ : JsFunctions }.

Definition ORIGIN_OBJ := "Origin".
Definition BLOCKCHAIN_OBJ := "Chain".
Definition UTILS_OBJ := "Utils".
Definition CHECK_TIME_FUNCTION := "internal_check_time".

(** [LoadJsFuncList] *)
Definition int64_functions : list (string * JsFunction) :=
  [("stoI64Check", StoI64Check_); ("int64Add", Int64Add_); ("int64Sub", Int64Sub_); ("int64Mul", Int64Mul_);
   ("int64Mod", Int64Mod_); ("int64Div", Int64Div_); ("int64Compare", Int64Compare_);
   ("toBaseUnit", ToBaseUnit_); ("assert", Assert_); ("addressCheck", AddressValidCheck_)].
Definition origin : JsFuncList := MkFuncs
  (functions ([("log", Log_); ("getBalance", GetBalance_); ("getAccountAsset", GetAccountAsset_);
     ("storageLoad", StorageLoad_); ("getBlockHash", GetBlockHash_); ("contractQuery", ContractQuery_);
     ("getValidators", GetValidators_); (CHECK_TIME_FUNCTION, InternalCheckTime_)] ++ int64_functions)%list)
  (functions [("storageStore", StorageStore_); ("storageDel", StorageDel_); ("configFee", ConfigFee_);
     ("setValidators", SetValidators_); ("payCoin", PayCoin_); ("issueAsset", IssueAsset_);
     ("payAsset", PayAsset_); ("tlog", TopicLog_)]).
Definition blockchain : JsFuncList := MkFuncs
  (functions [("getBalance", GetBalance_); ("getAccountAsset", GetAccountAsset_); ("load", StorageLoad_);
     ("getBlockHash", GetBlockHash_); ("delegateQuery", DelegateQuery_); ("contractQuery", ContractQuery_);
     ("getValidators", GetValidators_); ("getAccountMetadata", GetAccountMetadata_);
     ("getContractProperty", GetContractProperty_)])
  (functions [("store", StorageStore_); ("del", StorageDel_); ("configFee", ConfigFee_);
     ("setValidators", SetValidators_); ("payCoin", PayCoin_); ("issueAsset", IssueAsset_);
     ("payAsset", PayAsset_); ("tlog", TopicLog_); ("delegateCall", DelegateCall_); ("contractCall", Call_);
     ("contractCreate", Create_)]).
Definition utils : JsFuncList := MkFuncs
  (functions ([("log", Log_)] ++ int64_functions ++
     [("sha256", Sha256_); ("ecVerify", Verify_); ("toAddress", ToAddress_)])%list) [].

(** ** The contract object *)

(** [V8Contract]; of its result, the code and the contract result. *)
Record V8Contract := MkV8 {
  readonly_ : bool; parameter_ : ContractParameter; code_ : Z; js_result_ : Json }.
Definition new_contract (readonly : bool) (parameter : ContractParameter) : V8Contract :=
  MkV8 readonly parameter SUCCESS JNull.
Definition set_code (code : Z) (c : V8Contract) : V8Contract := MkV8 (readonly_ c) (parameter_ c) code (js_result_ c).
Definition set_js_result (r : Json) (c : V8Contract) : V8Contract := MkV8 (readonly_ c) (parameter_ c) (code_ c) r.

(** The characters before the first NUL, which is what [c_str()] shows. *)
Fixpoint c_str (s : string) : string :=
  match s with
  | EmptyString => EmptyString
  | String c s' => if bool_decide (c = Strings.NUL) then EmptyString else String c (c_str s')
  end.

Section V8.
Context `{P : LedgerParams} `{V : V8} `{C : ContractParams}.

(** [ToCString(v8::String::Utf8Value(v))] *)
Definition ToCString (v : JsValue) : string :=
  c_str match v with
        | JsUndefined => "undefined"
        | JsNull => "null"
        | JsBoolean b => if b then "true" else "false"
        | JsNumber x => number_text x
        | JsString s => s
        | JsObject t _ => default "<string conversion error>" t
        end.

(** [v8::String::NewFromUtf8] and the macros built on it; numbers of doubles. *)
Definition ToV8String (s : string) : JsValue := JsString (decode_utf8 (c_str s)).
Definition ToV8Number (z : Z) : JsValue := JsNumber (of_int z).

(** The functions a script finds under an object; no objects before version 1002. *)
Definition registered (readonly : bool) (object name : string) : option JsFunction :=
  let table := fun f : JsFuncList =>
    match om_find (read_ f) name with
    | Some fn => Some fn
    | None => if readonly then None else om_find (write_ f) name
    end in
  if bool_decide (object = ORIGIN_OBJ) then table origin
  else if negb CHECK_VERSION_GT_1001 then None
  else if bool_decide (object = BLOCKCHAIN_OBJ) then table blockchain
  else if bool_decide (object = UTILS_OBJ) then table utils
  else None.

Definition asset_value (a : Asset) : JsValue :=
  JsObject None [("amount", ToV8String (text (Strings.ToString (as_asset_amount a))));
    ("key", JsObject None [("issuer", ToV8String (ak_issuer (as_asset_key a)));
                           ("code", ToV8String (ak_code (as_asset_key a)))])].

(** [SetV8InterfaceFunc]: the global values. *)
Definition SetV8InterfaceFunc (parameter : ContractParameter) (readonly : bool) : list (string * JsValue) :=
  ([("sender", ToV8String (cp_msg_sender parameter)); ("thisAddress", ToV8String (cp_this_address parameter));
    ("triggerIndex", ToV8Number (cp_msg_operation_index parameter));
    ("blockNumber", ToV8Number (cp_block_number parameter));
    ("blockTimestamp", ToV8Number (cp_block_timestamp parameter))]
   ++ if readonly then []
      else ("thisPayCoinAmount", ToV8String (text (Strings.ToString (cp_msg_coin_amount parameter))))
           :: match cp_msg_asset parameter with
              | Some a => [("thisPayAsset", asset_value a)]
              | None => []
              end)%list.

(** [CreateJsObject]: the object of the chain. *)
Definition CreateJsObject (parameter : ContractParameter) (readonly : bool) : list (string * JsValue) :=
  if negb CHECK_VERSION_GT_1001 then []
  else
  let block := JsObject None [("timestamp", ToV8Number (cp_block_timestamp parameter));
                              ("number", ToV8Number (cp_block_number parameter))] in
  let tx := JsObject None [("initiator", ToV8String (cp_tx_initiator parameter));
     ("sender", ToV8String (cp_tx_sender parameter)); ("gasPrice", ToV8Number (cp_tx_gas_price parameter));
     ("feeLimit", ToV8Number (cp_tx_fee_limit parameter)); ("hash", ToV8String (cp_tx_hash parameter))] in
  let msg := JsObject None
    ([("initiator", ToV8String (cp_msg_initiator parameter)); ("sender", ToV8String (cp_msg_sender parameter));
      ("nonce", ToV8Number (cp_msg_nonce parameter));
      ("operationIndex", ToV8Number (cp_msg_operation_index parameter))]
     ++ if readonly then []
        else ("coinAmount", ToV8String (text (Strings.ToString (cp_msg_coin_amount parameter))))
             :: match cp_msg_asset parameter with Some a => [("asset", asset_value a)] | None => [] end)%list in
  [(BLOCKCHAIN_OBJ, JsObject None [("block", block); ("tx", tx); ("msg", msg);
     ("thisAddress", ToV8String (cp_this_address parameter))]); (UTILS_OBJ, JsObject None [])].

(** [CppJsonToJsValue], [JsValueToCppJson]: a value of another type stays empty. *)
Definition CppJsonToJsValue (jsonvalue : Json) : JsValue :=
  match member "type" jsonvalue, member "value" jsonvalue with
  | JString t, v =>
      if bool_decide (t = "string") then match v with JString s => ToV8String s | _ => JsUndefined end
      else if bool_decide (t = "bool") then match v with JBool b => JsBoolean b | _ => JsUndefined end
      else JsUndefined
  | _, _ => JsUndefined
  end.

Definition JsValueToCppJson (jsvalue : JsValue) : Json :=
  match jsvalue with
  | JsBoolean b => JObject [("type", JString "bool"); ("value", JBool b)]
  | JsString s => JObject [("type", JString "string"); ("value", JString (ToCString (JsString s)))]
  | _ => JObject [("type", JString "bool"); ("value", JBool false)]
  end.

(** [GetAssetFromJsObject] *)
Definition GetAssetFromJsObject (js_object : JsValue) : AssetKey :=
  MkAssetKey (ToCString (js_member "issuer" js_object)) (ToCString (js_member "code" js_object)) 0.

(** [TransEncodeType], [TransEncodeData] *)
Inductive DataEncodeType := BASE16 | RAW_DATA | BASE64.

Definition TransEncodeType (a : JsValue) : option DataEncodeType :=
  if negb (IsNumber a) then None
  else
  match Strings.SafeStoi64 (lit (ToCString a)) with
  | Some 0 => Some BASE16
  | Some 1 => Some RAW_DATA
  | Some 2 => Some BASE64
  | _ => None
  end.

Definition TransEncodeData (raw_data : JsValue) (encode_type : DataEncodeType) : option string :=
  let input_raw := ToCString raw_data in
  let result_data := match encode_type with
                     | BASE16 => text (Strings.HexStringToBin (lit input_raw) false)
                     | RAW_DATA => input_raw
                     | BASE64 => Base64Decode input_raw
                     end in
  if empty result_data then None else Some result_data.

(** ** Checking the source of a contract *)

(** [GetGlobalString]: the names jslint may find undefined. *)
Definition user_globals : list string :=
  (["sender"; "thisAddress"; "trigger"; "triggerIndex"; "consensusValue"; "thisPayCoinAmount"; "thisPayAsset";
    "blockTimestamp"; "blockNumber"] ++ map fst (read_ origin) ++ map fst (write_ origin))%list.
Definition GetGlobalString : string :=
  String.concat "," (if CHECK_VERSION_GT_1001 then user_globals ++ [BLOCKCHAIN_OBJ; UTILS_OBJ] else user_globals)%list.

(** [Json::Value::empty()] *)
Definition json_empty (j : Json) : bool :=
  match j with JNull | JArray [] | JObject [] => true | _ => false end.

(** [V8Contract::SourceCodeCheck]: the code of the result. *)
Definition V8_SourceCodeCheck (code : string) : Z :=
  match jslint with
  | None => CONTRACT_SYNTAX_ERROR
  | Some callJslint =>
      match callJslint (decode_utf8 (c_str code)) (decode_utf8 (c_str GetGlobalString)) with
      | Some (JsString s) =>
          match parse_json (ToCString (JsString s)) with
          | Some call_result_json => if json_empty call_result_json then SUCCESS else CONTRACT_SYNTAX_ERROR
          | None => CONTRACT_SYNTAX_ERROR
          end
      | _ => CONTRACT_SYNTAX_ERROR
      end
  end.

(** [ContractManager::SourceCodeCheck] of a JavaScript contract. *)
Definition Manager_SourceCodeCheck (code : string) (ldcontext_stack_size : Z) : Z :=
  if CHECK_VERSION_GT_1001 && (CONTRACT_MAX_RECURSIVE_DEPTH <? ldcontext_stack_size)
  then CONTRACT_TOO_MANY_RECURSION
  else V8_SourceCodeCheck code.
End V8.
