(* ===== verification/ContractCalls.v ===== *)
(** * The functions contracts call

    The callbacks of src/contract/v8_contract_read.cpp and
    src/contract/v8_contract_write.cpp, with the settings of an environment they
    change (src/ledger/environment.cpp). A callback takes the contract object and
    the arguments and yields the answer and the contract object; the object is
    always found and has a ledger context, so the checks of that are left out.
    Nested executions and queries go to an [Engine]. *)
From S2P Require Import Prelude Uint128 Strings OrdMap AtomMap Account Chain TxFrame Operation Transaction V8.
Import U128.

Open Scope string_scope.
Open Scope Z_scope.

(** [ContractManager]: [Execute] and [Query] of a contract type while the given number
    of entries of the transaction stack repeat the entry below. [Query] yields the
    member "result", [None] when it returns false. *)
Record Engine := MkEngine {
  en_Execute : nat -> Z -> ContractParameter -> LM Z;
  en_Query : nat -> Z -> ContractParameter -> LM (option Json) }.

Section Calls.
Context `{P : LedgerParams} `{V : V8} `{C : ContractParams} (blk : BlockInfo) (engine : Engine).

Abbreviation CallBack := (V8Contract -> list JsValue -> LM (HostResult * V8Contract)).
Definition throws (c : V8Contract) : LM (HostResult * V8Contract) := mret (HThrow, c).
Definition returns (v : JsValue) (c : V8Contract) : LM (HostResult * V8Contract) := mret (HReturn v, c).

Definition this_address (c : V8Contract) : string := cp_this_address (parameter_ c).
(** [GetBottomTx()->ContractStepInc(step)] *)
Definition bottom_step (step : Z) : LM unit := mod_tx 0 (ContractStepInc step).
(** [GetTopTx()->environment_], by its depth. *)
Definition top_env : LM nat := t ← GetTopTx; mret (environment_ t).
(** [GetEntry] of the top environment, with the account read. *)
Definition find_account (address : string) : LM (option (loc * AccountFrm)) :=
  d ← top_env;
  p ← GetEntry d address;
  match p with
  | Some l => a ← read_account l; mret (Some (l, a))
  | None => mret None
  end.

(** ** The settings of an environment *)
Definition feesKey := "configFees".
Definition validatorsKey := "validators".
Definition no_setting (key : string) : option Json := None.

(** The assignment of [fees] for the members of another value. A value that is no
    object becomes one when it is indexed; the elements of an array have no name. *)
Definition merge_members (fees feeConfig : Json) : Json :=
  let members := match fees with JObject m => m | _ => [] end in
  match feeConfig with
  | JObject (e :: l) => JObject (foldl (fun m e => om_set m e.1 e.2) members (e :: l))
  | JArray (_ :: _) => JObject (om_set members "" JNull)
  | _ => fees
  end.

Definition env_UpdateFeeConfig (d : nat) (feeConfig : Json) : LM unit :=
  p ← on_settings (Get no_setting d feesKey);
  match p with
  | None => l ← on_settings (alloc feeConfig); on_settings (Set_ d feesKey l) ;; mret tt
  | Some l =>
      fees ← on_settings (deref (Some l));
      on_settings (assign l (merge_members fees feeConfig))
  end.

Definition env_GetValidators (d : nat) : LM Json :=
  p ← on_settings (Get no_setting d validatorsKey);
  match p with
  | Some l => on_settings (deref (Some l))
  | None =>
      let validators :=
        match current_validators with
        | [] => JNull
        | _ => JArray (map (fun e : string * Z => JArray [JString e.1; JString (text (Strings.ToString e.2))])
                         current_validators)
        end in
      l ← on_settings (alloc validators);
      on_settings (Set_ d validatorsKey l) ;;
      mret validators
  end.

Definition env_UpdateNewValidators (d : nat) (validators : Json) : LM unit :=
  l ← on_settings (alloc validators); on_settings (Set_ d validatorsKey l) ;; mret tt.

(** ** Functions that read *)

Definition CallBackLog : CallBack := fun c args =>
  if (length args <? 1)%nat then returns (JsBoolean false) c else returns JsUndefined c.

Definition CallBackGetAccountAsset : CallBack := fun c args =>
  if negb (length args =? 2)%nat then returns (JsBoolean false) c
  else if negb (IsString (arg 0 args)) then returns (JsBoolean false) c
  else if negb (IsObject (arg 1 args)) then returns (JsBoolean false) c
  else
  let asset_key := GetAssetFromJsObject (arg 1 args) in
  bottom_step 100 ;;
  p ← find_account (ToCString (arg 0 args));
  match p with
  | None => returns (JsBoolean false) c
  | Some (l, account_frm) =>
      let '(asset, account_frm) := GetAsset asset_trie asset_key account_frm in
      write_account l account_frm ;;
      match asset with
      | None => returns (JsBoolean false) c
      | Some asset => returns (ToV8String (text (Strings.ToString (as_amount asset)))) c
      end
  end.

Definition CallBackGetContractProperty : CallBack := fun c args =>
  if negb (length args =? 1)%nat then returns (JsBoolean false) c
  else if negb (IsString (arg 0 args)) then returns (JsBoolean false) c
  else
  bottom_step 100 ;;
  p ← find_account (ToCString (arg 0 args));
  match p with
  | None => returns (JsBoolean false) c
  | Some (_, account_frm) =>
      let '(type, length) := match ac_contract (account_info_ account_frm) with
                             | Some contract => (ct_type contract, size (ct_payload contract))
                             | None => (-1, 0)
                             end in
      returns (JsObject None [("type", ToV8Number type); ("length", ToV8Number length)]) c
  end.

(** A metadata value of an account. *)
Definition read_metadata (l : loc) (account_frm : AccountFrm) (key : string) (c : V8Contract)
  : LM (HostResult * V8Contract) :=
  let '(kp, account_frm) := GetMetaData metadata_trie key account_frm in
  write_account l account_frm ;;
  match kp with
  | None => returns (JsBoolean false) c
  | Some kp => returns (ToV8String (kp_value kp)) c
  end.

Definition CallBackGetAccountMetadata : CallBack := fun c args =>
  if negb (length args =? 2)%nat then returns (JsBoolean false) c
  else if negb (IsString (arg 0 args)) || negb (IsString (arg 1 args)) then returns (JsBoolean false) c
  else
  bottom_step 100 ;;
  p ← find_account (ToCString (arg 0 args));
  match p with
  | None => returns (JsBoolean false) c
  | Some (l, account_frm) => read_metadata l account_frm (ToCString (arg 1 args)) c
  end.

(** The contract of an account, found in the top environment: [None] without one. *)
Definition find_contract (address : string) : LM (option Contract) :=
  p ← find_account address;
  match p with
  | None => mret None
  | Some (_, account_frm) =>
      match ac_contract (account_info_ account_frm) with
      | None => mret None
      | Some contract => if size (ct_payload contract) =? 0 then mret None else mret (Some contract)
      end
  end.

(** The parameters of a query of another contract, and of a contract run or queried on
    behalf of this one. *)
Definition query_parameter (p : ContractParameter) (code input address : string) : ContractParameter :=
  MkContractParameter code input address false
    (cp_block_number p) (cp_block_timestamp p)
    (cp_tx_sender p) (cp_tx_initiator p) (cp_tx_fee_limit p) (cp_tx_gas_price p) (cp_tx_hash p)
    0 None (cp_msg_initiator p) 0 0 (cp_this_address p).
Definition delegate_parameter (p : ContractParameter) (code input : string) : ContractParameter :=
  MkContractParameter code input (cp_this_address p) false
    (cp_block_number p) (cp_block_timestamp p)
    (cp_tx_sender p) (cp_tx_initiator p) (cp_tx_fee_limit p) (cp_tx_gas_price p) (cp_tx_hash p)
    (cp_msg_coin_amount p) (cp_msg_asset p) (cp_msg_initiator p) (cp_msg_nonce p)
    (cp_msg_operation_index p) (cp_msg_sender p).

Definition error_object : JsValue := JsObject None [("error", JsBoolean true)].
Definition result_object (js_object : Json) : JsValue := JsObject None [("result", CppJsonToJsValue js_object)].

(** The transaction on top is repeated on the stack while the other contract runs. *)
Definition nested_query (parameter : string -> string -> ContractParameter) : CallBack := fun c args =>
  if negb (length args =? 2)%nat then returns error_object c
  else if negb (IsString (arg 0 args)) then returns error_object c
  else if negb (IsString (arg 1 args)) then returns error_object c
  else
  bottom_step 100 ;;
  p ← find_contract (ToCString (arg 0 args));
  match p with
  | None => returns error_object c
  | Some contract =>
      r ← en_Query engine (S stack_repeats) (ct_type contract)
            (parameter (ct_payload contract) (ToCString (arg 1 args)));
      match r with
      | None => returns error_object c
      | Some js_object => returns (result_object js_object) c
      end
  end.

Definition CallBackContractQueryGt1001 : CallBack := fun c args =>
  nested_query (fun code input => query_parameter (parameter_ c) code input (ToCString (arg 0 args))) c args.

Definition CallBackDelegateQuery : CallBack := fun c args =>
  nested_query (fun code input => delegate_parameter (parameter_ c) code input) c args.

Definition CallBackContractQuery : CallBack := fun c args =>
  if CHECK_VERSION_GT_1001 then CallBackContractQueryGt1001 c args
  else
  let obj := fun l => JsObject None (("success", JsBoolean false) :: l) in
  if negb (length args =? 2)%nat then returns (obj []) c
  else if negb (IsString (arg 0 args)) then returns (obj []) c
  else if negb (IsString (arg 1 args)) then returns (obj []) c
  else
  bottom_step 1000 ;;
  p ← find_contract (ToCString (arg 0 args));
  match p with
  | None => returns (obj []) c
  | Some contract =>
      r ← en_Query engine stack_repeats (ct_type contract)
            (query_parameter (parameter_ c) (ct_payload contract) (ToCString (arg 1 args)) (ToCString (arg 0 args)));
      match r with
      | None => returns (obj [("error", JsBoolean true)]) c
      | Some js_object => returns (obj [("result", CppJsonToJsValue js_object)]) c
      end
  end.

Definition CallBackGetValidators : CallBack := fun c args =>
  if negb (length args =? 0)%nat then returns (JsBoolean false) c
  else
  d ← top_env;
  jsonValidators ← env_GetValidators d;
  returns (js_of_json jsonValidators) c.

Definition CallBackAddressValidCheck : CallBack := fun c args =>
  if negb (length args =? 1)%nat then returns (JsBoolean false) c
  else if negb (IsString (arg 0 args)) then returns (JsBoolean false) c
  else returns (JsBoolean (IsAddressValid (ToCString (arg 0 args)))) c.

Definition CallBackGetBalance : CallBack := fun c args =>
  if negb (length args =? 1)%nat then returns (JsBoolean false) c
  else if negb (IsString (arg 0 args)) then returns (JsBoolean false) c
  else
  bottom_step 100 ;;
  let address := ToCString (arg 0 args) in
  p ← find_account address;
  let account_frm := match p with Some (_, a) => Some a | None => AccountFromDB address end in
  let balance := match account_frm with
                 | Some a => text (Strings.ToString (GetAccountBalance a))
                 | None => "0"
                 end in
  returns (ToV8String balance) c.

Definition CallBackGetBlockHash : CallBack := fun c args =>
  if negb (length args =? 1)%nat then returns (JsBoolean false) c
  else if negb (IsNumber (arg 0 args)) then returns (JsBoolean false) c
  else
  bottom_step 100 ;;
  let seq := s64 (last_closed_seq - NumberValue (arg 0 args)) in
  if (seq <=? s64 (last_closed_seq - 1024)) || (last_closed_seq <? seq) then returns (JsBoolean false) c
  else
  match ledger_hash seq with
  | Some hash => returns (ToV8String (text (Strings.BinToHexString (lit hash)))) c
  | None => returns (JsBoolean false) c
  end.

(** The optional argument that names the encoding of the data. *)
Definition encoding (required : nat) (args : list JsValue) : option DataEncodeType :=
  if (length args =? S required)%nat then TransEncodeType (arg required args) else Some BASE16.

Definition CallBackSha256 : CallBack := fun c args =>
  if negb (length args =? 1)%nat && negb (length args =? 2)%nat then returns (JsBoolean false) c
  else if negb (IsString (arg 0 args)) then returns (JsBoolean false) c
  else
  match encoding 1 args with
  | None => returns (JsBoolean false) c
  | Some encode_type =>
      bottom_step 100 ;;
      match TransEncodeData (arg 0 args) encode_type with
      | None => returns (JsBoolean false) c
      | Some sha256_data =>
          let output := Sha256 sha256_data in
          if empty output then returns (JsBoolean false) c
          else returns (ToV8String (text (Strings.BinToHexString (lit output)))) c
      end
  end.

Definition CallBackVerify : CallBack := fun c args =>
  if negb (length args =? 3)%nat && negb (length args =? 4)%nat then returns (JsBoolean false) c
  else if negb (IsString (arg 0 args)) || negb (IsString (arg 1 args)) || negb (IsString (arg 2 args))
  then returns (JsBoolean false) c
  else
  match encoding 3 args with
  | None => returns (JsBoolean false) c
  | Some encode_type =>
      bottom_step 100 ;;
      let signed_data := ToCString (arg 0 args) in
      let public_key := ToCString (arg 1 args) in
      match TransEncodeData (arg 2 args) encode_type with
      | None => returns (JsBoolean false) c
      | Some blob_data =>
          if empty blob_data || empty signed_data || empty public_key then returns (JsBoolean false) c
          else returns (JsBoolean (PublicKey_Verify blob_data
                 (text (Strings.HexStringToBin (lit signed_data) false)) public_key)) c
      end
  end.

Definition CallBackToAddress : CallBack := fun c args =>
  if negb (length args =? 1)%nat then returns (JsBoolean false) c
  else if negb (IsString (arg 0 args)) then returns (JsBoolean false) c
  else
  bottom_step 100 ;;
  let pub_key_str := ToCString (arg 0 args) in
  if empty pub_key_str then returns (JsBoolean false) c
  else if negb (pubkey_valid pub_key_str) then returns (JsBoolean false) c
  else returns (ToV8String (pubkey_address pub_key_str)) c.

(** [CallBackStorageLoad]: the step counts for the transaction on top. *)
Definition CallBackStorageLoad : CallBack := fun c args =>
  if negb (length args =? 1)%nat then returns (JsBoolean false) c
  else if negb (IsString (arg 0 args)) then returns (JsBoolean false) c
  else
  s ← hget;
  mod_tx (length (transaction_stack_ s) - 1) (ContractStepInc 100) ;;
  p ← find_account (this_address c);
  match p with
  | None => returns (JsBoolean false) c
  | Some (l, account_frm) => read_metadata l account_frm (ToCString (arg 0 args)) c
  end.

(** ** Integers *)
Definition CallBackStoI64Check : CallBack := fun c args =>
  if negb (length args =? 1)%nat then returns (JsBoolean false) c
  else if negb (IsString (arg 0 args)) then returns (JsBoolean false) c
  else
  match Strings.SafeStoi64 (lit (ToCString (arg 0 args))) with
  | Some _ => returns (JsBoolean true) c
  | None => returns (JsBoolean false) c
  end.

(** The two operands the functions on integers share: texts or numbers that are int64. *)
Definition int64_operands (args : list JsValue) : option (Z * Z) :=
  if negb (length args =? 2)%nat then None
  else if negb (IsString (arg 0 args)) && negb (IsNumber (arg 0 args)) then None
  else if negb (IsString (arg 1 args)) && negb (IsNumber (arg 1 args)) then None
  else
  match Strings.SafeStoi64 (lit (ToCString (arg 0 args))) with
  | None => None
  | Some iarg0 =>
      match Strings.SafeStoi64 (lit (ToCString (arg 1 args))) with
      | None => None
      | Some iarg1 => Some (iarg0, iarg1)
      end
  end.
Definition int64_call (f : Z -> Z -> LM (option JsValue)) : CallBack := fun c args =>
  match int64_operands args with
  | None => throws c
  | Some (iarg0, iarg1) =>
      r ← f iarg0 iarg1;
      match r with
      | Some v => returns v c
      | None => throws c
      end
  end.
Definition int64_value (z : Z) : JsValue := ToV8String (text (Strings.ToString z)).

Definition CallBackInt64Add : CallBack := int64_call (fun iarg0 iarg1 =>
  let '(ok, sum) := SafeIntAdd iarg0 iarg1 iarg0 in
  mret (if ok then Some (int64_value sum) else None)).
Definition CallBackInt64Sub : CallBack := int64_call (fun iarg0 iarg1 =>
  let '(ok, difference) := SafeIntSub iarg0 iarg1 iarg0 in
  mret (if ok then Some (int64_value difference) else None)).
Definition CallBackInt64Mul : CallBack := int64_call (fun iarg0 iarg1 =>
  r ← on_outcome (SafeIntMul iarg0 iarg1 iarg0);
  let '(ok, product) := r : bool * Z in
  mret (if ok then Some (int64_value product) else None)).
Definition CallBackInt64Div : CallBack := int64_call (fun iarg0 iarg1 =>
  if (iarg1 <=? 0) || (iarg0 <? 0) then mret None else mret (Some (int64_value (Z.quot iarg0 iarg1)))).
Definition CallBackInt64Mod : CallBack := int64_call (fun iarg0 iarg1 =>
  if (iarg1 <=? 0) || (iarg0 <? 0) then mret None else mret (Some (int64_value (Z.rem iarg0 iarg1)))).
Definition CallBackInt64Compare : CallBack := int64_call (fun iarg0 iarg1 =>
  mret (Some (ToV8Number (if iarg1 <? iarg0 then 1 else if iarg0 =? iarg1 then 0 else -1)))).

Definition CallBackToBaseUnit : CallBack := fun c args =>
  if negb (length args =? 1)%nat then throws c
  else if negb (IsString (arg 0 args)) then throws c
  else
  match Strings.ToBaseUnit (lit (ToCString (arg 0 args))) with
  | Some multi_result => returns (ToV8String (text multi_result)) c
  | None => throws c
  end.

Definition CallBackAssert : CallBack := fun c args =>
  if (length args <? 1)%nat || (2 <? length args)%nat then throws c
  else if negb (IsBoolean (arg 0 args)) then throws c
  else if (length args =? 2)%nat && negb (IsString (arg 1 args)) then throws c
  else if negb (BooleanValue (arg 0 args)) then throws c
  else returns (JsBoolean true) c.
End Calls.

(** ** The transaction a contract sends: one operation, no signature *)
Definition no_operation : Operation :=
  MkOperation 0 "" "" (MkCreateAccount "" 0 "" None [] 0 "") (MkIssueAsset "" 0)
    (MkPayAsset "" None "") (MkSetMetadata "" "" 0 false) (MkSetSignerWeight 0 []) (MkSetThreshold 0 [])
    (MkPayCoin "" 0 "") (MkLog "" []) (MkSetPrivilege "" [] "" []).
Definition contract_tx (contractor : string) (ope : Operation) : TransactionEnv :=
  MkTxEnv (MkTransaction contractor 0 0 0 0 "" [ope] 0) [].

Definition pay_coin_op (remark dest_address : string) (amount : Z) (input : string) : Operation :=
  MkOperation PAY_COIN "" remark (op_create_account no_operation) (op_issue_asset no_operation)
    (op_pay_asset no_operation) (op_set_metadata no_operation) (op_set_signer_weight no_operation)
    (op_set_threshold no_operation) (MkPayCoin dest_address amount input) (op_log no_operation)
    (op_set_privilege no_operation).
Definition pay_asset_op (remark dest_address : string) (key : AssetKey) (amount : Z) (input : string) : Operation :=
  MkOperation PAY_ASSET "" remark (op_create_account no_operation) (op_issue_asset no_operation)
    (MkPayAsset dest_address (Some (MkAsset key amount)) input) (op_set_metadata no_operation)
    (op_set_signer_weight no_operation) (op_set_threshold no_operation) (op_pay_coin no_operation)
    (op_log no_operation) (op_set_privilege no_operation).
Definition issue_asset_op (code : string) (amount : Z) : Operation :=
  MkOperation ISSUE_ASSET "" "" (op_create_account no_operation) (MkIssueAsset code amount)
    (op_pay_asset no_operation) (op_set_metadata no_operation) (op_set_signer_weight no_operation)
    (op_set_threshold no_operation) (op_pay_coin no_operation) (op_log no_operation) (op_set_privilege no_operation).
Definition set_metadata_op (key value : string) (is_del : bool) : Operation :=
  MkOperation SET_METADATA "" "" (op_create_account no_operation) (op_issue_asset no_operation)
    (op_pay_asset no_operation) (MkSetMetadata key value 0 is_del) (op_set_signer_weight no_operation)
    (op_set_threshold no_operation) (op_pay_coin no_operation) (op_log no_operation) (op_set_privilege no_operation).
Definition log_op (topic : string) (datas : list string) : Operation :=
  MkOperation LOG "" "" (op_create_account no_operation) (op_issue_asset no_operation)
    (op_pay_asset no_operation) (op_set_metadata no_operation) (op_set_signer_weight no_operation)
    (op_set_threshold no_operation) (op_pay_coin no_operation) (MkLog topic datas) (op_set_privilege no_operation).
Definition create_op (type balance : Z) (code input : string) : Operation :=
  MkOperation CREATE_ACCOUNT "" "" (MkCreateAccount "" type code (Some (MkPriv 0 [] (Some (MkThreshold 1 [])))) [] balance input)
    (op_issue_asset no_operation) (op_pay_asset no_operation) (op_set_metadata no_operation)
    (op_set_signer_weight no_operation) (op_set_threshold no_operation) (op_pay_coin no_operation)
    (op_log no_operation) (op_set_privilege no_operation).

(** ** Functions that write *)
Section Writes.
Context `{P : LedgerParams} `{V : V8} `{C : ContractParams} (blk : BlockInfo) (engine : Engine).

Abbreviation CallBack := (V8Contract -> list JsValue -> LM (HostResult * V8Contract)).

(** [DoTransaction] of an operation of the contract's account. A failure becomes the
    result of the contract and an exception; a result passed on by the operation is
    that of a contract it ran. *)
Definition send (ope : Operation) (answer : Json -> JsValue) (c : V8Contract) : LM (HostResult * V8Contract) :=
  hmod (set_contract_result JNull) ;;
  code ← DoTransaction blk (contract_tx (this_address c) ope);
  s ← hget;
  if 0 <? code then throws (set_js_result (contract_result_ s) (set_code code c))
  else returns (answer (contract_result_ s)) c.
Definition sent (_ : Json) : JsValue := JsBoolean true.

(** An amount: the text of an int64 that is not negative. *)
Definition amount_arg (v : JsValue) : option Z :=
  match Strings.SafeStoi64 (lit (ToCString v)) with
  | Some amount => if amount <? 0 then None else Some amount
  | None => None
  end.

Definition CallBackConfigFee : CallBack := fun c args =>
  if (length args <? 1)%nat then throws c
  else if negb (IsString (arg 0 args)) then throws c
  else if negb (bool_decide (this_address c = GET_CONTRACT_FEE_ADDRESS)) then throws c
  else
  match parse_json (ToCString (arg 0 args)) with
  | None => throws c
  | Some json => d ← top_env; env_UpdateFeeConfig d json ;; returns (JsBoolean true) c
  end.

Definition CallBackSetValidators : CallBack := fun c args =>
  if negb (length args =? 1)%nat then throws c
  else if negb (IsString (arg 0 args)) then throws c
  else if negb (bool_decide (this_address c = GET_CONTRACT_VALIDATOR_ADDRESS)) then throws c
  else
  match parse_json (ToCString (arg 0 args)) with
  | None => throws c
  | Some json => d ← top_env; env_UpdateNewValidators d json ;; returns (JsBoolean true) c
  end.

Definition log_data (v : JsValue) : bool := IsString v || IsNumber v || IsBoolean v.
Definition CallBackTopicLog : CallBack := fun c args =>
  if (length args <? 2)%nat || (6 <? length args)%nat then throws c
  else if negb (IsString (arg 0 args)) then throws c
  else if negb (forallb log_data (tail args)) then throws c
  else
  bottom_step 100 ;;
  send (log_op (ToCString (arg 0 args)) (map ToCString (tail args))) sent c.

(** [CallBackDelegateCall]: the code of another account runs as this contract. While
    it runs, the transaction on top is repeated on the stack. *)
Definition CallBackDelegateCall : CallBack := fun c args =>
  if negb (length args =? 2)%nat then throws c
  else if negb (IsString (arg 0 args)) then throws c
  else if negb (IsString (arg 1 args)) then throws c
  else
  bottom_step 100 ;;
  if readonly_ c then throws c
  else
  p ← find_contract (ToCString (arg 0 args));
  match p with
  | None => throws c
  | Some contract =>
      code ← en_Execute engine (S stack_repeats) (ct_type contract)
               (delegate_parameter (parameter_ c) (ct_payload contract) (ToCString (arg 1 args)));
      s ← hget;
      if 0 <? code then throws (set_js_result (contract_result_ s) (set_code code c))
      else returns (CppJsonToJsValue (contract_result_ s)) c
  end.

(** What [contractCall] answers: true when no contract ran. *)
Definition call_answer (contract_result : Json) : JsValue :=
  match contract_result with JNull => JsBoolean true | j => CppJsonToJsValue j end.

Definition CallBackCall : CallBack := fun c args =>
  if (length args <? 4)%nat then throws c
  else if negb (IsString (arg 0 args)) then throws c
  else
  let bcoin := IsBoolean (arg 1 args) && BooleanValue (arg 1 args) in
  if negb bcoin && negb (IsObject (arg 1 args)) then throws c
  else if negb (IsString (arg 2 args)) then throws c
  else
  let input := ToCString (arg 3 args) in
  bottom_step 100 ;;
  if readonly_ c then throws c
  else
  let dest_address := ToCString (arg 0 args) in
  match amount_arg (arg 2 args) with
  | None => throws c
  | Some pay_amount =>
      send (if bcoin then pay_coin_op "" dest_address pay_amount input
            else pay_asset_op "" dest_address (GetAssetFromJsObject (arg 1 args)) pay_amount input) call_answer c
  end.

(** What [contractCreate] answers: the address of the new account. *)
Definition create_answer (contract_result : Json) : JsValue :=
  match member "value" contract_result with JString s => ToV8String s | _ => ToV8String "" end.

Definition TYPE_V8 : Z := 0.
Definition CallBackCreate : CallBack := fun c args =>
  if negb (length args =? 4)%nat then throws c
  else if negb (IsString (arg 0 args)) then throws c
  else if negb (IsNumber (arg 1 args)) then throws c
  else if negb (s32 (NumberValue (arg 1 args)) =? TYPE_V8) then throws c
  else if negb (IsString (arg 2 args)) then throws c
  else if negb (IsString (arg 3 args)) then throws c
  else
  bottom_step 100 ;;
  if readonly_ c then throws c
  else
  match amount_arg (arg 0 args) with
  | None => throws c
  | Some int_balance =>
      send (create_op TYPE_V8 int_balance (ToCString (arg 2 args)) (ToCString (arg 3 args))) create_answer c
  end.

(** An optional argument; the remark of a payment since version 1003. *)
Definition optional (i : nat) (args : list JsValue) : string :=
  if (i <? length args)%nat then ToCString (arg i args) else "".
Definition remark_arg (i : nat) (args : list JsValue) : string :=
  if CHECK_VERSION_GT_1002 then optional i args else "".

Definition CallBackPayCoin : CallBack := fun c args =>
  if (length args <? 2)%nat then throws c
  else if negb (IsString (arg 0 args)) then throws c
  else if negb (IsString (arg 1 args)) then throws c
  else
  bottom_step 100 ;;
  if readonly_ c then throws c
  else
  match amount_arg (arg 1 args) with
  | None => throws c
  | Some pay_amount =>
      send (pay_coin_op (remark_arg 3 args) (ToCString (arg 0 args)) pay_amount (optional 2 args)) sent c
  end.

Definition CallBackIssueAsset : CallBack := fun c args =>
  if (length args <? 2)%nat then throws c
  else if negb (IsString (arg 0 args)) then throws c
  else if negb (IsString (arg 1 args)) then throws c
  else
  bottom_step 100 ;;
  if readonly_ c then throws c
  else
  match amount_arg (arg 1 args) with
  | None => throws c
  | Some issueAmount => send (issue_asset_op (ToCString (arg 0 args)) issueAmount) sent c
  end.

Definition CallBackPayAsset : CallBack := fun c args =>
  if (length args <? 4)%nat then throws c
  else if negb (IsString (arg 0 args)) then throws c
  else if negb (IsString (arg 1 args)) then throws c
  else if negb (IsString (arg 2 args)) then throws c
  else if negb (IsString (arg 3 args)) then throws c
  else
  bottom_step 100 ;;
  if readonly_ c then throws c
  else
  match amount_arg (arg 3 args) with
  | None => throws c
  | Some pay_amount =>
      send (pay_asset_op (remark_arg 5 args) (ToCString (arg 0 args))
              (MkAssetKey (ToCString (arg 1 args)) (ToCString (arg 2 args)) 0) pay_amount (optional 4 args)) sent c
  end.

(** [V8Contract::SetMetaData], behind [CallBackStorageStore] and [CallBackStorageDel]. *)
Definition contract_SetMetaData (is_del : bool) : CallBack := fun c args =>
  let para_type_invalid := negb (IsString (arg 0 args)) || (negb is_del && negb (IsString (arg 1 args))) in
  let para_num := if is_del then 1%nat else 2%nat in
  if negb (length args =? para_num)%nat then throws c
  else if para_type_invalid then throws c
  else
  bottom_step 100 ;;
  if readonly_ c then throws c
  else
  let key := ToCString (arg 0 args) in
  let value := if is_del then "" else ToCString (arg 1 args) in
  if empty key then throws c
  else send (set_metadata_op key value is_del) sent c.
Definition CallBackStorageStore : CallBack := contract_SetMetaData false.
Definition CallBackStorageDel : CallBack := contract_SetMetaData true.

(** [InternalCheckTime] *)
Definition InternalCheckTime (used_heap_size remain_stack_size : Z) (c : V8Contract) : LM (HostResult * V8Contract) :=
  mod_tx 0 (ContractStepInc 1) ;;
  mod_tx 0 (SetMemoryUsage used_heap_size) ;;
  mod_tx 0 (SetStackRemain remain_stack_size) ;;
  ptr ← GetBottomTx;
  r ← IsExpire ptr;
  let '(expired, ptr) := r : bool * TransactionFrm in
  mod_tx 0 (fun _ => ptr) ;;
  if expired then throws c else returns JsUndefined c.

(** The function behind a name. *)
Definition invoke (f : JsFunction) (used_heap_size remain_stack_size : Z) : CallBack :=
  match f with
  | Log_ => CallBackLog
  | GetBalance_ => CallBackGetBalance
  | GetAccountAsset_ => CallBackGetAccountAsset
  | StorageLoad_ => CallBackStorageLoad
  | GetBlockHash_ => CallBackGetBlockHash
  | ContractQuery_ => CallBackContractQuery engine
  | GetValidators_ => CallBackGetValidators
  | InternalCheckTime_ => fun c _ => InternalCheckTime used_heap_size remain_stack_size c
  | StoI64Check_ => CallBackStoI64Check
  | Int64Add_ => CallBackInt64Add
  | Int64Sub_ => CallBackInt64Sub
  | Int64Mul_ => CallBackInt64Mul
  | Int64Mod_ => CallBackInt64Mod
  | Int64Div_ => CallBackInt64Div
  | Int64Compare_ => CallBackInt64Compare
  | ToBaseUnit_ => CallBackToBaseUnit
  | Assert_ => CallBackAssert
  | AddressValidCheck_ => CallBackAddressValidCheck
  | DelegateQuery_ => CallBackDelegateQuery engine
  | GetAccountMetadata_ => CallBackGetAccountMetadata
  | GetContractProperty_ => CallBackGetContractProperty
  | Sha256_ => CallBackSha256
  | Verify_ => CallBackVerify
  | ToAddress_ => CallBackToAddress
  | StorageStore_ => CallBackStorageStore
  | StorageDel_ => CallBackStorageDel
  | ConfigFee_ => CallBackConfigFee
  | SetValidators_ => CallBackSetValidators
  | PayCoin_ => CallBackPayCoin
  | IssueAsset_ => CallBackIssueAsset
  | PayAsset_ => CallBackPayAsset
  | TopicLog_ => CallBackTopicLog
  | DelegateCall_ => CallBackDelegateCall
  | Call_ => CallBackCall
  | Create_ => CallBackCreate
  end.
End Writes.
