(* ===== verification/ContractEngine.v ===== *)
(** * Running contracts

    [V8Contract] (src/contract/v8_contract.cpp) and [ContractManager]
    (src/contract/contract_manager.cpp). A contract runs inside an operation of a
    transaction and may send transactions that run contracts: [engine] ties the knot
    between the operations and the contracts. Its fuel bounds both the number of
    calls of a script and the depth of nesting; a run that has used it up has not
    returned yet. *)
From S2P Require Import Prelude Uint128 Strings OrdMap AtomMap Account Chain TxFrame Operation Transaction V8 ContractCalls.
Import U128.

Open Scope string_scope.
Open Scope Z_scope.

Definition remove_random : string := "delete String.prototype.localeCompare; delete Date; delete Math;".

Section Run.
Context `{P : LedgerParams} `{V : V8} `{C : ContractParams} (blk : BlockInfo) (engine : Engine).

(** A script runs: its value and state, or [None] after an exception it did not catch.
    Calling what is no function throws. *)
Fixpoint run (fuel : nat) (c : V8Contract) (st : js_state) : LM (option (JsValue * js_state) * V8Contract) :=
  match fuel with
  | O => hthrow OutOfFuel
  | S n =>
      match js_next st with
      | JsReturn v st' => mret (Some (v, st'), c)
      | JsUncaught => mret (None, c)
      | JsCall object name args used_heap_size remain_stack_size resume =>
          r ← match registered (readonly_ c) object name with
              | Some f => invoke blk engine f used_heap_size remain_stack_size c args
              | None => throws c
              end;
          let '(h, c) := r : HostResult * V8Contract in
          run n c (resume h)
      end
  end.

(** [Script::Compile] and [Run]: [None] when it does not compile. *)
Definition run_script (fuel : nat) (c : V8Contract) (st : js_state) (source : string)
  : LM (option (option (JsValue * js_state)) * V8Contract) :=
  match js_compile st (decode_utf8 (c_str source)) with
  | None => mret (None, c)
  | Some st => r ← run fuel c st; mret (Some r.1, r.2)
  end.

Definition call_function (fuel : nat) (c : V8Contract) (start : string -> js_state) : LM (option JsValue * V8Contract) :=
  r ← run fuel c (start (decode_utf8 (c_str (cp_input (parameter_ c)))));
  mret (fst <$> r.1, r.2).

(** [V8Contract::ExecuteCode]: the contract object with its result. *)
Definition ExecuteCode (fuel : nat) (c : V8Contract) : LM V8Contract :=
  let context := js_context (SetV8InterfaceFunc (parameter_ c) false ++ CreateJsObject (parameter_ c) false)%list in
  let fn_name := if cp_init (parameter_ c) then "init" else "main" in
  let fail_gt1001 := fun c => if CHECK_VERSION_GT_1001 then set_code CONTRACT_EXECUTE_FAIL c else c in
  let fail_unset := fun c => if code_ c =? 0 then set_code CONTRACT_EXECUTE_FAIL c else c in
  r ← run_script fuel c context remove_random;
  match r with
  | (Some (Some (_, context)), c) =>
      r ← run_script fuel c context (cp_code (parameter_ c));
      match r with
      | (None, c) => mret (fail_gt1001 c)
      | (Some None, c) => mret (if CHECK_VERSION_GT_1001 then fail_unset c else c)
      | (Some (Some (_, context)), c) =>
          match js_function context fn_name with
          | None => mret (set_code CONTRACT_EXECUTE_FAIL c)
          | Some start =>
              r ← call_function fuel c start;
              match r with
              | (None, c) => mret (fail_unset c)
              | (Some callresult, c) => mret (set_js_result (JsValueToCppJson callresult) c)
              end
          end
      end
  | (_, c) => mret (fail_gt1001 c)
  end.

(** [V8Contract::Query]: the member "result", [None] when it returns false. *)
Definition Query (fuel : nat) (c : V8Contract) : LM (option Json) :=
  let context := js_context (SetV8InterfaceFunc (parameter_ c) true ++ CreateJsObject (parameter_ c) true)%list in
  r ← run_script fuel c context remove_random;
  match r with
  | (Some (Some (_, context)), c) =>
      r ← run_script fuel c context (cp_code (parameter_ c));
      match r with
      | (Some (Some (_, context)), c) =>
          match js_function context "query" with
          | None => mret None
          | Some start => r ← call_function fuel c start; mret (JsValueToCppJson <$> r.1)
          end
      | _ => mret None
      end
  | _ => mret None
  end.

(** [transaction_stack_.size()] above the limit. *)
Definition too_deep : LM bool :=
  s ← hget;
  mret (CHECK_VERSION_GT_1001
        && (CONTRACT_MAX_RECURSIVE_DEPTH <? Z.of_nat (length (transaction_stack_ s) + stack_repeats))).

(** [ContractManager::Execute]: the code; the contract result is kept in the state. *)
Definition Manager_Execute (fuel : nat) (type : Z) (parameter : ContractParameter) : LM Z :=
  deep ← too_deep;
  if deep : bool then hmod (set_contract_result JNull) ;; mret CONTRACT_TOO_MANY_RECURSION
  else if negb (type =? TYPE_V8) then hmod (set_contract_result JNull) ;; mret CONTRACT_EXECUTE_FAIL
  else
  contract ← ExecuteCode fuel (new_contract false parameter);
  hmod (set_contract_result (js_result_ contract)) ;;
  mret (code_ contract).

(** [ContractManager::Query] *)
Definition Manager_Query (fuel : nat) (type : Z) (parameter : ContractParameter) : LM (option Json) :=
  deep ← too_deep;
  if deep : bool then mret None
  else if negb (type =? TYPE_V8) then mret None
  else Query fuel (new_contract true parameter).
End Run.

Section Engine.
Context (P : LedgerParams) `{V : V8} `{C : ContractParams} (blk : BlockInfo).

(** The ledger of which contracts are run by an engine while [repeats] entries of the
    stack repeat the entry below. *)
Definition with_engine (e : Engine) (repeats : nat) : LedgerParams := {|
  IsAddressValid := IsAddressValid; account_tree := account_tree; asset_trie := asset_trie;
  metadata_trie := metadata_trie; ledger_version := ledger_version; last_closed_seq := last_closed_seq;
  cfg_base_reserve := cfg_base_reserve; cfg_gas_price := cfg_gas_price; forbid_addrs := forbid_addrs;
  self_chain_id := self_chain_id; SourceCodeCheck := Manager_SourceCodeCheck; contract_address := contract_address;
  ByteSize := ByteSize; tx_hash := tx_hash; pubkey_valid := pubkey_valid; pubkey_address := pubkey_address;
  Verify := Verify; clock := clock; GetValidators := GetValidators;
  Execute := en_Execute e repeats TYPE_V8; stack_repeats := repeats |}.

(** Contracts run on the engine of one level less. *)
Fixpoint engine (fuel : nat) : Engine :=
  match fuel with
  | O => MkEngine (fun _ _ _ => hthrow OutOfFuel) (fun _ _ _ => hthrow OutOfFuel)
  | S n =>
      MkEngine (fun repeats => Manager_Execute (P := with_engine (engine n) repeats) blk (engine n) n)
               (fun repeats => Manager_Query (P := with_engine (engine n) repeats) blk (engine n) n)
  end.

(** The ledger with contracts. *)
Definition contract_ledger (fuel : nat) : LedgerParams := with_engine (engine fuel) 0.
End Engine.
