(* ===== verification/ContractInv.v ===== *)
(** * What holds while contracts run

    A weakest precondition for the ledger monad, the state of the ledger between two
    steps of a contract ([live]) and how a step changes it ([rel]): the stack of
    transactions and of environments is as before, only the buffer of the top
    environment differs, no account disappears, balances stay in range. Operations and
    transactions preserve it when the engine does. *)
From S2P Require Import Prelude Uint128 Uint128Facts Strings AtomMap AtomMapFacts Account Chain TxFrame Operation Transaction EnvFacts LedgerSpec OperationFacts CoinFacts TransactionFacts BlockSpec.
Import U128.

Open Scope string_scope.
Open Scope Z_scope.

(** ** Weakest preconditions *)

(** Unless [A] holds, the run returns and ends in [Q]. *)
Definition wp (A : Prop) {X} (m : LM X) (s : LState) (Q : X -> LState -> Prop) : Prop :=
  A \/ match m s with Returns (x, s', _) => Q x s' | Throws _ => False end.

Section Wp.
Implicit Types (A : Prop) (s : LState).

Lemma wp_imp A A' {X} (m : LM X) s (Q Q' : X -> LState -> Prop) :
  wp A m s Q -> (A -> A') -> (forall x s', Q x s' -> Q' x s') -> wp A' m s Q'.
Proof. unfold wp. intros [Ha|H] HA HQ; [auto|]. right. destruct (m s) as [[[x s'] es]|e]; auto. Qed.

Lemma wp_post A {X} (m : LM X) s (Q Q' : X -> LState -> Prop) :
  wp A m s Q -> (forall x s', Q x s' -> Q' x s') -> wp A m s Q'.
Proof. intros H HQ. by eapply wp_imp. Qed.

Lemma wp_end A {X} (x : X) s (Q : X -> LState -> Prop) : Q x s -> wp A (mret x) s Q.
Proof. by right. Qed.

Lemma wp_seq A {X Y} (m : LM X) (K : X -> LM Y) s (Q : Y -> LState -> Prop) :
  wp A m s (fun x s' => wp A (K x) s' Q) -> wp A (m ≫= K) s Q.
Proof.
  unfold wp, mbind, hm_bind. intros [Ha|H]; [by left|]. destruct (m s) as [[[x s1] es]|e]; [|done].
  destruct H as [Ha|H]; [by left|]. right. by destruct (K x s1) as [[[y s2] es2]|e].
Qed.

(** A first step that is known. *)
Lemma wp_step A {X Y} (m : LM X) (K : X -> LM Y) s x s1 (Q : Y -> LState -> Prop) :
  m s = Returns (x, s1, []) -> wp A (K x) s1 Q -> wp A (m ≫= K) s Q.
Proof. intros E. unfold wp. by rewrite (hbind_nil _ _ _ x s1 E). Qed.

Lemma wp_get A {Y} (K : LState -> LM Y) s (Q : Y -> LState -> Prop) :
  wp A (K s) s Q -> wp A (hget ≫= K) s Q.
Proof. by apply wp_step. Qed.

Lemma wp_mod A {Y} (f : LState -> LState) (K : unit -> LM Y) s (Q : Y -> LState -> Prop) :
  wp A (K tt) (f s) Q -> wp A (hmod f ≫= K) s Q.
Proof. by apply wp_step. Qed.

Lemma wp_get_tx A {Y} i t (K : TransactionFrm -> LM Y) s (Q : Y -> LState -> Prop) :
  transaction_stack_ s !! i = Some t -> wp A (K t) s Q -> wp A (get_tx i ≫= K) s Q.
Proof. intros Ht. apply wp_step. by apply get_tx_run. Qed.

Lemma wp_assoc A {X Y Z} (m : LM X) (K : X -> LM Y) (H : Y -> LM Z) s (Q : Z -> LState -> Prop) :
  wp A (m ≫= fun x => K x ≫= H) s Q -> wp A ((m ≫= K) ≫= H) s Q.
Proof. unfold wp. by rewrite hbind_assoc. Qed.

Lemma wp_unassoc A {X Y Z} (m : LM X) (K : X -> LM Y) (H : Y -> LM Z) s (Q : Z -> LState -> Prop) :
  wp A ((m ≫= K) ≫= H) s Q -> wp A (m ≫= fun x => K x ≫= H) s Q.
Proof. unfold wp. by rewrite hbind_assoc. Qed.

Lemma wp_unit A (m : LM unit) s (Q : unit -> LState -> Prop) : wp A (m ;; mret tt) s Q -> wp A m s Q.
Proof. unfold wp, mbind, hm_bind. by destruct (m s) as [[[[] s1] es]|e]. Qed.
End Wp.

(** ** The state between two steps *)

(** A frame keeps its transaction and environment, and its list of triggered
    transactions grows; when [f] holds, by transactions that succeeded. *)
Definition succeeded (e : TransactionEnvStore) : Prop := ts_error_code e = SUCCESS.
Record kin (f : Prop) (t t' : TransactionFrm) : Prop := {
  kin_tx : transaction_env_ t' = transaction_env_ t;
  kin_env : environment_ t' = environment_ t;
  kin_result : 0 <= result_ t -> 0 <= result_ t';
  kin_more : exists l, instructions_ t' = (instructions_ t ++ l)%list /\ (f -> Forall succeeded l) }.

Lemma kin_refl f t : kin f t t.
Proof. split; try done. exists []. split; [by rewrite app_nil_r|]. constructor. Qed.

Lemma kin_trans (f1 f2 f : Prop) t1 t2 t3 : kin f1 t1 t2 -> kin f2 t2 t3 -> (f -> f1) -> (f -> f2) -> kin f t1 t3.
Proof.
  intros [E1 V1 R1 (l1 & I1 & S1)] [E2 V2 R2 (l2 & I2 & S2)] H1 H2. split; [congruence|congruence|auto|].
  exists (l1 ++ l2)%list. split; [by rewrite I2, I1, app_assoc|]. intros Hf. apply Forall_app. auto.
Qed.

Lemma kin_weaken (f f' : Prop) t t' : kin f t t' -> (f' -> f) -> kin f' t t'.
Proof. intros H Hf. apply (kin_trans f f _ t t'); [done|apply kin_refl|done|done]. Qed.

Lemma kin_all f l : Forall2 (kin f) l l.
Proof. induction l; constructor; [apply kin_refl|done]. Qed.

(** The frame [me] is the last of the stack; its environment has depth [d]. *)
Definition at_top (d me : nat) (l : list TransactionFrm) : Prop :=
  exists l' t, l = (l' ++ [t])%list /\ length l' = me /\ environment_ t = d.

Lemma at_top_some d me l : at_top d me l -> is_Some (l !! me).
Proof. intros (l' & t & -> & <- & _). exists t. by rewrite list_lookup_middle. Qed.

Section Inv.
Context `{P : LedgerParams}.
Implicit Types (s : LState) (d : nat) (k : string) (f : Prop).

Record live d s : Prop := {
  lv_ok : ok d s;
  lv_len : length (maps_ (env_ s)) = S (S d);
  lv_settings : wf (settings_ s) /\ length (maps_ (settings_ s)) = S (S d);
  lv_good : good (V d s);
  lv_price : exists b, transaction_stack_ s !! 0%nat = Some b /\ 0 <= GetGasPrice b <= int64_max }.

Record rel f d s s' : Prop := {
  rel_ok : ok d s';
  rel_env : others_same (S d) (env_ s) (env_ s');
  rel_settings : wf (settings_ s') /\ length (maps_ (settings_ s')) = length (maps_ (settings_ s));
  rel_keep : forall k, is_Some (V d s k) -> is_Some (V d s' k);
  rel_good : good (V d s');
  rel_fee : total_fee_ s' = total_fee_ s;
  rel_stack : Forall2 (kin f) (transaction_stack_ s) (transaction_stack_ s') }.

Lemma rel_refl f d s : live d s -> rel f d s s.
Proof.
  intros [Hok _ [Hw _] Hg _]. split; try done. apply kin_all.
Qed.

Lemma rel_trans (f1 f2 f : Prop) d s1 s2 s3 : rel f1 d s1 s2 -> rel f2 d s2 s3 -> (f -> f1) -> (f -> f2) -> rel f d s1 s3.
Proof.
  intros [O1 [L1 C1] W1 K1 G1 F1 S1] [O2 [L2 C2] W2 K2 G2 F2 S2] H1 H2. split; try done.
  - split; [congruence|]. intros j k Hj. by rewrite C2, C1.
  - split; [apply W2|]. destruct W1, W2. congruence.
  - eauto.
  - congruence.
  - clear -S1 S2 H1 H2. revert S2. generalize (transaction_stack_ s3).
    induction S1 as [|t1 t2 l1 l2 Ht Hl IH]; intros l3 H3; inversion_clear H3; constructor; [|by apply IH].
    by eapply kin_trans.
Qed.

Lemma rel_weaken (f f' : Prop) d s s' : rel f d s s' -> (f' -> f) -> rel f' d s s'.
Proof.
  intros [] Hf. split; try done. eapply Forall2_impl; [done|]. intros t t' Ht. by eapply kin_weaken.
Qed.

Lemma rel_length f d s s' : rel f d s s' -> length (transaction_stack_ s') = length (transaction_stack_ s).
Proof. intros H. symmetry. apply (Forall2_length _ _ _ (rel_stack _ _ _ _ H)). Qed.

Lemma rel_lookup f d s s' i t : rel f d s s' -> transaction_stack_ s !! i = Some t ->
  exists t', transaction_stack_ s' !! i = Some t' /\ kin f t t'.
Proof. intros H Ht. by apply (Forall2_lookup_l _ _ _ _ _ (rel_stack _ _ _ _ H)). Qed.

Lemma rel_live f d s s' : live d s -> rel f d s s' -> live d s'.
Proof.
  intros [O L W G (b & Hb & Hp)] H. split.
  - apply H.
  - destruct (rel_env _ _ _ _ H) as [-> _]. done.
  - split; [apply H|]. destruct (rel_settings _ _ _ _ H) as [_ ->]. apply W.
  - apply H.
  - destruct (rel_lookup _ _ _ _ _ _ H Hb) as (b' & Hb' & Hk). exists b'. split; [done|].
    unfold GetGasPrice, tran in *. by rewrite (kin_tx _ _ _ Hk).
Qed.

Lemma rel_top f d s s' d' me : rel f d s s' -> at_top d' me (transaction_stack_ s) -> at_top d' me (transaction_stack_ s').
Proof.
  intros Hr (l & t & E & Hl & He). pose proof (rel_stack _ _ _ _ Hr) as H. rewrite E in H.
  apply Forall2_app_inv_l in H as (l1 & l2 & H1 & H2 & ->). inversion H2 as [|? t' ? ? Hk H3]; subst.
  inversion H3; subst. exists l1, t'. split_and!; [done|by rewrite (Forall2_length _ _ _ H1)|by rewrite (kin_env _ _ _ Hk)].
Qed.
End Inv.

(** ** Operations

    Every operation preserves what holds while contracts run ([Post]), provided the
    engine that runs the contracts does. *)

(** The end of a step that yields a code: only a success promises that the
    transactions triggered have succeeded. *)
Definition Post `{P : LedgerParams} (d : nat) (s : LState) (code : Z) (s' : LState) : Prop :=
  0 <= code /\ rel (code = SUCCESS) d s s'.

Section Steps.
Context `{P : LedgerParams}.
Implicit Types (A : Prop) (s : LState) (d : nat) (k : string) (l : loc) (a : AccountFrm).

Lemma post_via A (m : LM Z) d s s1 s2 : rel True d s s1 -> wp A m s2 (Post d s1) -> wp A m s2 (Post d s).
Proof.
  intros Hr H. eapply wp_post; [exact H|]. intros code s' [Hc Hr']. split; [done|]. by eapply rel_trans.
Qed.

(** A step in the buffer of depth [d] that keeps every account and its range. *)
Lemma rel_step f d s s' : live d s -> ok d s' -> step d s s' -> settings_ s' = settings_ s ->
  (forall k, is_Some (V d s k) -> is_Some (V d s' k)) -> good (V d s') -> rel f d s s'.
Proof.
  intros Hl Hok (Ho & Hst & Hf & _) Hs Hk Hg. split; try done.
  - rewrite Hs. split; [apply Hl|done].
  - rewrite Hst. apply kin_all.
Qed.

Lemma post_ret A d s code : live d s -> 0 <= code -> wp A (mret code) s (Post d s).
Proof. intros Hl Hc. apply wp_end. split; [done|]. by apply rel_refl. Qed.

Lemma wp_GetEntry A d k {Y} (K : option loc -> LM Y) s (Q : Y -> LState -> Prop) : live d s ->
  (forall p s1, live d s1 -> rel True d s s1 -> V d s1 = V d s -> transaction_stack_ s1 = transaction_stack_ s ->
     settings_ s1 = settings_ s -> (forall k' l a, pts d s k' l a -> pts d s1 k' l a) ->
     match p with Some l => exists a, V d s k = Some a /\ pts d s1 k l a | None => V d s k = None end ->
     wp A (K p) s1 Q) ->
  wp A (GetEntry d k ≫= K) s Q.
Proof.
  intros Hl HK. destruct (GetEntry_run d k s (lv_ok _ _ Hl)) as (p & s1 & Hr & Hok1 & Hst & HV & Hpts & Hp).
  eapply wp_step; [exact Hr|].
  assert (Hs : settings_ s1 = settings_ s).
  { unfold GetEntry, on_env in Hr. destruct (Get _ _ _ _) as [[[x e] es]|]; [|done]. injection Hr as _ <- _. done. }
  assert (Hrel : rel True d s s1).
  { apply rel_step; try done; rewrite HV; [done|apply Hl]. }
  apply HK; try done; [by eapply rel_live|]. by destruct Hst as (_ & -> & _).
Qed.

Lemma post_GetEntry A d k (K : option loc -> LM Z) s : live d s ->
  (forall p s1, live d s1 -> V d s1 = V d s -> transaction_stack_ s1 = transaction_stack_ s ->
     (forall k' l a, pts d s k' l a -> pts d s1 k' l a) ->
     match p with Some l => exists a, V d s k = Some a /\ pts d s1 k l a | None => V d s k = None end ->
     wp A (K p) s1 (Post d s1)) ->
  wp A (GetEntry d k ≫= K) s (Post d s).
Proof.
  intros Hl HK. apply (wp_GetEntry A d k); [done|]. intros p s1 Hl1 Hr HV Hst _ Hk Hp.
  eapply post_via; [exact Hr|]. by apply HK.
Qed.

Lemma post_read A d k l a {Y} (K : AccountFrm -> LM Y) s (Q : Y -> LState -> Prop) : pts d s k l a ->
  wp A (K a) s Q -> wp A (read_account l ≫= K) s Q.
Proof. intros Hp. eapply wp_step, read_account_run, Hp. Qed.

Lemma keep_upd_view k a (v : lview) k' : is_Some (v k') -> is_Some (upd k a v k').
Proof. unfold upd. case_decide; [by eauto|done]. Qed.

Lemma wp_write A d k l a a' {Y} (K : unit -> LM Y) s (Q : Y -> LState -> Prop) : live d s -> pts d s k l a -> in_range a' ->
  (forall s1, live d s1 -> rel True d s s1 -> V d s1 = upd k a' (V d s) -> transaction_stack_ s1 = transaction_stack_ s ->
     settings_ s1 = settings_ s ->
     pts d s1 k l a' -> (forall k' l' b, pts d s k' l' b -> exists b', pts d s1 k' l' b') ->
     wp A (K tt) s1 Q) ->
  wp A (write_account l a' ≫= K) s Q.
Proof.
  intros Hl Hp Ha HK.
  destruct (write_account_run d s k l a a' (lv_ok _ _ Hl) Hp) as (s1 & Hr & Hok1 & Hst & HV & Hp1 & Hkeep).
  eapply wp_step; [exact Hr|].
  assert (Hs : settings_ s1 = settings_ s) by (cbn in Hr; injection Hr as <-; done).
  assert (Hrel : rel True d s s1).
  { apply rel_step; try done; rewrite HV; [intros k'; apply keep_upd_view|]. by apply good_upd; [apply Hl|]. }
  apply HK; try done; [by eapply rel_live|by destruct Hst as (_ & -> & _)|].
  intros k' l' b Hb. destruct (decide (k' = k)) as [->|Hne]; [|eauto].
  destruct (pts_fun d s k l a l' b Hp Hb) as [<- _]. eauto.
Qed.

Lemma post_write A d k l a a' (K : unit -> LM Z) s : live d s -> pts d s k l a -> in_range a' ->
  (forall s1, live d s1 -> V d s1 = upd k a' (V d s) -> transaction_stack_ s1 = transaction_stack_ s ->
     pts d s1 k l a' -> (forall k' l' b, pts d s k' l' b -> exists b', pts d s1 k' l' b') ->
     wp A (K tt) s1 (Post d s1)) ->
  wp A (write_account l a' ≫= K) s (Post d s).
Proof.
  intros Hl Hp Ha HK. apply (wp_write A d k l a a'); [done|done|done|]. intros s1 Hl1 Hr HV Hst _ Hp1 Hk.
  eapply post_via; [exact Hr|]. by apply HK.
Qed.

(** Changing an account without touching its balance. *)
Lemma post_keep A d k l a a' (K : unit -> LM Z) s : live d s -> pts d s k l a ->
  GetAccountBalance a' = GetAccountBalance a ->
  (forall s1, live d s1 -> V d s1 = upd k a' (V d s) -> transaction_stack_ s1 = transaction_stack_ s ->
     pts d s1 k l a' -> (forall k' l' b, pts d s k' l' b -> exists b', pts d s1 k' l' b') ->
     wp A (K tt) s1 (Post d s1)) ->
  wp A (write_account l a' ≫= K) s (Post d s).
Proof.
  intros Hl Hp Hb. apply post_write with (k := k) (a := a); [done|done|]. unfold in_range. rewrite Hb.
  apply (lv_good _ _ Hl k). eapply pts_V; [apply Hl|done].
Qed.

Lemma post_keep_ret A d k l a a' code s : live d s -> pts d s k l a ->
  GetAccountBalance a' = GetAccountBalance a -> 0 <= code ->
  wp A (write_account l a' ;; mret code) s (Post d s).
Proof. intros Hl Hp Hb Hc. eapply post_keep; try done. intros s1 Hl1 _ _ _ _. by apply post_ret. Qed.

Lemma post_add A d k a (K : loc -> LM Z) s : live d s -> in_range a ->
  (forall l s1, live d s1 -> V d s1 = upd k a (V d s) -> transaction_stack_ s1 = transaction_stack_ s ->
     pts d s1 k l a -> (forall k' l' b, k' <> k -> pts d s k' l' b -> pts d s1 k' l' b) ->
     wp A (K l) s1 (Post d s1)) ->
  wp A (new_account a ≫= fun l => AddEntry d k l ;; K l) s (Post d s).
Proof.
  intros Hl Ha HK. destruct (add_account_run d s k a (lv_ok _ _ Hl)) as (l & s0 & s1 & Hn & Hadd & Hok1 & Hst & HV & Hp & Hkeep).
  eapply wp_step; [exact Hn|]. eapply wp_step; [exact Hadd|].
  assert (Hs : settings_ s1 = settings_ s).
  { cbn in Hn. injection Hn as <- <-. cbn in Hadd. injection Hadd as <-. done. }
  assert (Hrel : rel True d s s1).
  { apply rel_step; try done; rewrite HV; [intros k'; apply keep_upd_view|]. by apply good_upd; [apply Hl|]. }
  eapply post_via; [exact Hrel|]. apply HK; try done; [by eapply rel_live|by destruct Hst as (_ & -> & _)].
Qed.

Lemma live_account d s k l a : live d s -> pts d s k l a -> V d s k = Some a /\ in_range a.
Proof.
  intros Hl Hp. assert (HV : V d s k = Some a) by (eapply pts_V; [apply Hl|done]).
  split; [done|]. by apply (lv_good _ _ Hl k).
Qed.
End Steps.

Section Ops.
Context `{P : LedgerParams} (blk : BlockInfo) (A : nat -> Prop).
Implicit Types (s : LState) (d me : nat) (k ks kd : string) (src : loc) (a b : AccountFrm).

(** What the engine provides. *)
Definition runs_contracts : Prop := forall p d me s, live d s -> at_top d me (transaction_stack_ s) ->
  is_Some (V d s (cp_this_address p)) ->
  wp (A (length (transaction_stack_ s))) (Execute p) s (Post d s).
Context (exec : runs_contracts) (reserve : 0 <= cfg_base_reserve <= int64_max).

Abbreviation ends d m s := (wp (A (length (transaction_stack_ s))) m s (Post d s)).

(** Running the contract of an account that is there. *)
Lemma ends_contract d me src k a code input this init amount asset s :
  live d s -> pts d s k src a -> at_top d me (transaction_stack_ s) -> is_Some (V d s this) ->
  ends d (p ← contract_parameter blk me src code input this init amount asset; run_contract p) s.
Proof.
  intros Hl Hp Htop Hthis. destruct (at_top_some _ _ _ Htop) as [t Ht]. unfold contract_parameter, GetBottomTx.
  destruct (lv_price _ _ Hl) as (b & Hb & _).
  apply wp_assoc, (wp_get_tx _ 0 b); [done|]. apply wp_assoc, (wp_get_tx _ me t); [done|].
  apply wp_assoc. eapply wp_step; [eapply read_account_run, Hp|]. eapply wp_step; [reflexivity|].
  unfold run_contract. apply wp_seq. right. by eapply exec.
Qed.

Lemma ends_move_coins d me ks src a dest b ope s : live d s -> pts d s ks src a ->
  pts d s (pc_dest_address ope) dest b -> at_top d me (transaction_stack_ s) ->
  0 <= pc_amount ope <= GetAccountBalance a ->
  ends d (move_coins blk me src dest ope) s.
Proof.
  intros Hl Hp Hb Hme Ham. unfold move_coins. destruct (live_account _ _ _ _ _ Hl Hp) as [_ Ha].
  eapply post_read; [exact Hp|]. destruct (SafeIntSub _ _ _) as [okb sb] eqn:Es.
  unfold in_range in Ha. assert (is_s64 (pc_amount ope)) by (unfold is_s64, int64_min; lia).
  destruct okb; cbn [negb]; [|by apply post_ret].
  apply SafeIntSub_true in Es as [-> _]; [|unfold is_s64, int64_min; lia|done].
  eapply post_write; [done|exact Hp|unfold in_range; cbn; lia|]. intros s1 Hl1 _ Hst1 Hp1 Hkeep.
  destruct (Hkeep _ _ _ Hb) as [b' Hb']. destruct (live_account _ _ _ _ _ Hl1 Hb') as [_ Hb1].
  eapply post_read; [exact Hb'|]. destruct (SafeIntAdd _ _ _) as [okb' db] eqn:Ea. unfold in_range in Hb1.
  destruct okb'; cbn [negb]; [|by apply post_ret].
  apply SafeIntAdd_true in Ea as [-> Hdb]; [|unfold is_s64, int64_min; lia|done].
  eapply post_write; [done|exact Hb'|unfold in_range; cbn; unfold is_s64 in Hdb; lia|].
  intros s2 Hl2 HV2 Hst2 Hb2 Hkeep2. destruct (empty _); cbn [negb]; [by apply post_ret|].
  destruct (Hkeep2 _ _ _ Hp1) as [a2 Ha2]. rewrite <- Hst1, <- Hst2. eapply ends_contract; [done|exact Ha2| |].
  - by rewrite Hst2, Hst1.
  - destruct (live_account _ _ _ _ _ Hl2 Hb2) as [-> _]. eauto.
Qed.

Lemma ends_PayCoin d me ks src a ope s : live d s -> pts d s ks src a -> at_top d me (transaction_stack_ s) ->
  0 <= pc_amount ope <= int64_max -> ends d (PayCoin blk d me src ope) s.
Proof.
  intros Hl Hp Hme Ham. unfold PayCoin.
  assert (is_s64 (pc_amount ope) /\ is_s64 cfg_base_reserve) as [Has Hrs] by (unfold is_s64, int64_min; lia).
  destruct (SafeIntAdd (pc_amount ope) cfg_base_reserve 0) as [okb min] eqn:Em.
  destruct okb; cbn [negb]; [|by apply post_ret]. apply SafeIntAdd_true in Em as [-> _]; [|done|done].
  eapply post_read; [exact Hp|].
  destruct (Z.ltb_spec (GetAccountBalance a) (pc_amount ope + cfg_base_reserve)); [by apply post_ret|].
  apply post_GetEntry; [done|]. intros p s1 Hl1 HV Hst Hkeep Hdest. rewrite <- Hst in Hme |- *.
  destruct p as [dest|].
  - destruct Hdest as (b & _ & Hb). eapply wp_step; [reflexivity|].
    eapply ends_move_coins; [done|by apply Hkeep|exact Hb|done|lia].
  - destruct (pc_amount ope <? cfg_base_reserve); [eapply wp_step; [reflexivity|]; by apply post_ret|].
    apply wp_assoc.
    destruct (add_account_run d s1 (pc_dest_address ope) (fresh_account (pc_dest_address ope)) (lv_ok _ _ Hl1))
      as (l & s2 & s3 & Hn & Ha & _).
    pose proof (post_add (A (length (transaction_stack_ s1))) d (pc_dest_address ope) (fresh_account (pc_dest_address ope))
      (fun l => move_coins blk me src l ope) s1 Hl1) as Hadd.
    eapply wp_step; [exact Hn|]. apply wp_assoc. eapply wp_step; [exact Ha|]. eapply wp_step; [reflexivity|].
    unfold wp in Hadd. rewrite (hbind_nil _ _ _ l s2 Hn), (hbind_nil _ _ _ true s3 Ha) in Hadd. apply Hadd.
    { unfold in_range. cbn. unfold int64_max. lia. }
    intros l' s4 Hl4 _ Hst4 Hp4 Hkeep4.
    rewrite <- Hst4 in Hme |- *. apply Hkeep in Hp. cbn beta.
    eapply ends_move_coins; [done|apply Hkeep4; [|exact Hp]|exact Hp4|done|lia].
    intros ->. destruct (live_account _ _ _ _ _ Hl1 Hp) as [Hs _]. rewrite HV in Hs. congruence.
Qed.

(** Keeping the address of a new contract as the result. *)
Lemma wp_bind_code B d s (m : LM Z) (r : Json) : wp B m s (Post d s) ->
  wp B (code ← m; (if code =? 0 then hmod (set_contract_result r) else mret tt) ;; mret code) s (Post d s).
Proof.
  intros H. apply wp_seq. eapply wp_post; [exact H|]. intros code s' Hp. cbn beta.
  destruct (code =? 0); (eapply wp_step; [reflexivity|]); [|by apply wp_end].
  apply wp_end. destruct Hp as [Hc []]. by split.
Qed.

Lemma ends_CreateAccount d me ks src a index ca s : live d s -> pts d s ks src a ->
  at_top d me (transaction_stack_ s) -> is_s64 (ca_init_balance ca) ->
  ends d (CreateAccount blk d me src index ca) s.
Proof.
  intros Hl Hp Htop Hin. destruct (at_top_some _ _ _ Htop) as [t Ht]. unfold CreateAccount. apply (wp_get_tx _ me t); [done|].
  set (dest := if empty (ca_dest_address ca) then _ else _). apply post_GetEntry; [done|].
  intros p s1 Hl1 HV Hst Hkeep Hdest. rewrite <- Hst in Htop |- *. destruct p as [l|]; [by apply post_ret|].
  destruct (Z.ltb_spec (ca_init_balance ca) cfg_base_reserve); [by apply post_ret|].
  apply Hkeep in Hp. destruct (live_account _ _ _ _ _ Hl1 Hp) as [_ Ha]. unfold in_range in Ha.
  eapply post_read; [exact Hp|]. destruct (SafeIntSub _ _ _) as [ok1 lim] eqn:E1.
  destruct ok1; cbn [negb]; [|by apply post_ret].
  apply SafeIntSub_true in E1 as [-> _]; [|unfold is_s64, int64_min; lia|unfold is_s64, int64_min; lia].
  destruct (Z.ltb_spec (GetAccountBalance a - cfg_base_reserve) (ca_init_balance ca)); [by apply post_ret|].
  assert (Es : s64 (-1 * ca_init_balance ca) = - ca_init_balance ca).
  { rewrite s64_id by (unfold is_s64, int64_min, int64_max in *; lia). lia. }
  rewrite Es. unfold AddBalance. destruct (SafeIntAdd _ (- _) 0) as [ok2 nb] eqn:E2.
  destruct ok2; cbn [negb]; [|by apply post_ret].
  apply SafeIntAdd_true in E2 as [-> _]; [|unfold is_s64, int64_min; lia|unfold is_s64, int64_min, int64_max in *; lia].
  eapply post_write; [done|exact Hp|unfold in_range; cbn; lia|]. intros s2 Hl2 _ Hst2 Hp2 _.
  destruct (init_metadatas _ _) as [b|] eqn:Em; [|by apply post_ret]. apply init_metadatas_info in Em.
  assert (Hb : in_range b /\ GetAccountAddress b = dest).
  { unfold in_range, GetAccountBalance, GetAccountAddress. rewrite Em. cbn. unfold is_s64 in Hin. by split; [lia|]. }
  destruct Hb as [Hb ->]. apply post_add; [done|done|]. intros l s3 Hl3 HV3 Hst3 Hp3 Hkeep3.
  destruct (empty (ca_payload ca)); cbn [negb]; [by apply post_ret|].
  assert (Hs : exists k a, pts d s3 k src a).
  { destruct (decide (ks = dest)) as [->|Hne]; [|by eauto].
    destruct (live_account _ _ _ _ _ Hl1 Hp) as [Hs _]. rewrite HV, Hdest in Hs. done. }
  destruct Hs as (k & a3 & Ha3). rewrite <- Hst2, <- Hst3.
  apply (wp_unassoc _ _ run_contract), wp_bind_code.
  eapply ends_contract; [done|exact Ha3|by rewrite Hst3, Hst2|].
  destruct (live_account _ _ _ _ _ Hl3 Hp3) as [-> _]. eauto.
Qed.

Lemma ends_IssueAsset d ks src a ope s : live d s -> pts d s ks src a -> ends d (IssueAsset src ope) s.
Proof.
  intros Hl Hp. unfold IssueAsset. eapply post_read; [exact Hp|]. destruct (GetAsset _ _ a) as [e a'] eqn:Eg.
  apply GetAsset_keeps in Eg. eapply post_keep; [done|exact Hp|done|]. intros s1 Hl1 _ _ Hp1 _.
  destruct e as [e|]; [|by eapply post_keep_ret].
  destruct (SafeIntAdd _ _ _) as [[] amount]; cbn [negb]; [by eapply post_keep_ret|by apply post_ret].
Qed.

Lemma ends_transfer_asset d ks src a kd dest b asset s (K : Z -> LM Z) : live d s -> pts d s ks src a -> pts d s kd dest b ->
  (forall code s1, 0 <= code -> live d s1 -> transaction_stack_ s1 = transaction_stack_ s ->
     (forall k l b, pts d s k l b -> exists b', pts d s1 k l b') ->
     wp (A (length (transaction_stack_ s))) (K code) s1 (Post d s1)) ->
  ends d (transfer_asset src dest asset ≫= K) s.
Proof.
  intros Hl Hp Hb HK. unfold transfer_asset.
  assert (Hret : forall code s1, 0 <= code -> live d s1 -> transaction_stack_ s1 = transaction_stack_ s ->
    (forall k l b, pts d s k l b -> exists b', pts d s1 k l b') ->
    wp (A (length (transaction_stack_ s))) (mret code ≫= K) s1 (Post d s1)).
  { intros code s1 Hc Hl1 Hst Hk. eapply wp_step; [reflexivity|]. by apply HK. }
  apply wp_assoc. eapply post_read; [exact Hp|]. destruct (GetAsset _ _ a) as [e a'] eqn:Eg. apply GetAsset_keeps in Eg.
  apply wp_assoc. eapply post_keep; [done|exact Hp|done|]. intros s1 Hl1 _ Hst1 Hp1 Hk1.
  destruct e as [e|]; [|by apply Hret]. destruct (ak_type _ =? 0); [|by apply Hret].
  destruct (SafeIntSub _ _ _) as [[] amount]; cbn [negb]; [|by apply Hret].
  destruct (amount <? 0); [by apply Hret|].
  apply wp_assoc. eapply post_keep; [done|exact Hp1|done|]. intros s2 Hl2 _ Hst2 _ Hk2.
  destruct (Hk1 _ _ _ Hb) as [b1 Hb1]. destruct (Hk2 _ _ _ Hb1) as [b2 Hb2].
  apply wp_assoc. eapply post_read; [exact Hb2|]. destruct (GetAsset _ _ b2) as [g b3] eqn:Eg2. apply GetAsset_keeps in Eg2.
  apply wp_assoc. eapply post_keep; [done|exact Hb2|done|]. intros s3 Hl3 _ Hst3 Hb3 Hk3.
  assert (Hst : transaction_stack_ s3 = transaction_stack_ s) by congruence.
  assert (Hk : forall k l b, pts d s k l b -> exists b', pts d s3 k l b').
  { intros k l x Hx. destruct (Hk1 _ _ _ Hx) as [x1 Hx1]. destruct (Hk2 _ _ _ Hx1) as [x2 Hx2]. eauto. }
  assert (Hlast : forall x, GetAccountBalance x = GetAccountBalance b3 ->
    wp (A (length (transaction_stack_ s))) ((write_account dest x ;; mret SUCCESS) ≫= K) s3 (Post d s3)).
  { intros x Hx. apply wp_assoc. eapply post_keep; [done|exact Hb3|done|]. intros s4 Hl4 _ Hst4 _ Hk4.
    apply Hret; [done|done|congruence|]. intros k l y Hy. destruct (Hk _ _ _ Hy) as [y1 Hy1]. eauto. }
  destruct g as [g|]; [|by apply Hlast].
  destruct (SafeIntAdd _ _ _) as [[] amount']; cbn [negb]; [by apply Hlast|by apply Hret].
Qed.

Lemma ends_PayAsset d me ks src a pa s : live d s -> pts d s ks src a -> at_top d me (transaction_stack_ s) ->
  ends d (PayAsset blk d me src pa) s.
Proof.
  intros Hl Hp Hme. unfold PayAsset. apply post_GetEntry; [done|]. intros p s1 Hl1 HV Hst Hkeep Hdest.
  rewrite <- Hst in Hme |- *. destruct p as [dest|]; [|by apply post_ret]. destruct Hdest as (b & _ & Hb).
  apply Hkeep in Hp. set (K := fun r : Z => _).
  assert (HK : forall code s2, 0 <= code -> live d s2 -> transaction_stack_ s2 = transaction_stack_ s1 ->
    (forall k l b, pts d s1 k l b -> exists b', pts d s2 k l b') ->
    wp (A (length (transaction_stack_ s1))) (K code) s2 (Post d s2)).
  { intros code s2 Hc Hl2 Hst2 Hk. unfold K. destruct (Z.eqb_spec code SUCCESS) as [->|]; cbn [negb]; [|by apply post_ret].
    destruct (Hk _ _ _ Hb) as [b2 Hb2], (Hk _ _ _ Hp) as [a2 Ha2]. eapply post_read; [exact Hb2|].
    destruct (empty _); cbn [negb]; [by apply post_ret|]. rewrite <- Hst2.
    eapply ends_contract; [done|exact Ha2|by rewrite Hst2|]. destruct (live_account _ _ _ _ _ Hl2 Hb2) as [-> _]. eauto. }
  destruct (pa_asset pa) as [asset|]; [by eapply ends_transfer_asset|].
  eapply wp_step; [reflexivity|]. apply HK; try done. eauto.
Qed.

Lemma ends_SetMetaData d ks src a ope s : live d s -> pts d s ks src a -> ends d (Operation.SetMetaData src ope) s.
Proof.
  intros Hl Hp. unfold Operation.SetMetaData. eapply post_read; [exact Hp|].
  destruct (GetMetaData _ _ a) as [e a'] eqn:Eg. apply GetMetaData_keeps in Eg.
  eapply post_keep; [done|exact Hp|done|]. intros s1 Hl1 _ _ Hp1 _.
  destruct (sm_delete_flag ope), e as [kp|];
    repeat match goal with |- context [if ?b then _ else _] => destruct b end;
    first [by eapply post_keep_ret | by apply post_ret].
Qed.

(** The operations that change the source account alone. *)
Lemma ends_change (g : AccountFrm -> AccountFrm) (m : LM Z) d ks src a s :
  m = (a ← read_account src; write_account src (g a) ;; mret SUCCESS) -> keeps_balance g -> live d s ->
  pts d s ks src a -> ends d m s.
Proof. intros -> Hg Hl Hp. eapply post_read; [exact Hp|]. by eapply post_keep_ret. Qed.

Lemma ends_Apply d me index ope s : live d s -> at_top d me (transaction_stack_ s) -> coin_args ope ->
  ends d (Operation.Apply blk d me index ope) s.
Proof.
  intros Hl Hme [Hpay Hcr]. destruct (at_top_some _ _ _ Hme) as [t Ht]. unfold Operation.Apply. apply (wp_get_tx _ me t); [done|].
  apply post_GetEntry; [done|]. intros p s1 Hl1 _ Hst _ Hsrc. rewrite <- Hst in Hme |- *.
  destruct p as [src|]; [|by apply post_ret]. destruct Hsrc as (a & _ & Hp).
  cbv zeta. destruct (op_type ope =? 0); [by apply post_ret|].
  destruct (Z.eqb_spec (op_type ope) CREATE_ACCOUNT) as [E|_]; [by eapply ends_CreateAccount; eauto|].
  destruct (op_type ope =? PAY_ASSET); [by eapply ends_PayAsset|].
  destruct (op_type ope =? ISSUE_ASSET); [by eapply ends_IssueAsset|].
  destruct (op_type ope =? SET_METADATA); [by eapply ends_SetMetaData|].
  destruct (op_type ope =? SET_SIGNER_WEIGHT); [by eapply (ends_change (weighted (op_set_signer_weight ope))); [reflexivity|apply weighted_keeps|..]|].
  destruct (op_type ope =? SET_THRESHOLD); [by eapply (ends_change (thresholded (op_set_threshold ope))); [reflexivity|apply thresholded_keeps|..]|].
  destruct (Z.eqb_spec (op_type ope) PAY_COIN) as [E|_]; [by eapply ends_PayCoin; eauto|].
  destruct (op_type ope =? LOG); [by apply post_ret|].
  destruct (op_type ope =? SET_PRIVILEGE); [by eapply (ends_change (privileged (op_set_privilege ope))); [reflexivity|apply privileged_keeps|..]|].
  destruct (is_sentinel _); by apply post_ret.
Qed.
End Ops.
