(* ===== verification/ContractTx.v ===== *)
(** * Transactions sent by contracts

    [DoTransaction] runs a transaction in an environment stacked on that of the
    transaction on top: it restores both stacks, and what it commits keeps every
    account and its range. *)
From S2P Require Import Prelude Uint128 Uint128Facts Strings AtomMap AtomMapFacts Account Chain TxFrame Operation Transaction EnvFacts LedgerSpec OperationFacts CoinFacts TransactionFacts BlockSpec ContractInv.
Import U128.

Open Scope string_scope.
Open Scope Z_scope.

(** ** Checks yield codes that are not negative *)
Section Codes.
Context `{P : LedgerParams} (checks : forall code n, 0 <= SourceCodeCheck code n).

Lemma check_signers_code self l : forall g, 0 <= check_signers self g l.
Proof. induction l as [|x l IH]; intros g; cbn; [done|]. by repeat (case_match; [done|]). Qed.

Lemma check_types_code l : forall g, 0 <= check_types g l.
Proof. induction l as [|x l IH]; intros g; cbn; [done|]. by repeat (case_match; [done|]). Qed.

Lemma check_signer_weights_code self l : 0 <= check_signer_weights self l.
Proof. induction l as [|x l IH]; cbn; [done|]. by repeat (case_match; [done|]). Qed.

Lemma check_type_thresholds_code l : 0 <= check_type_thresholds l.
Proof. induction l as [|x l IH]; cbn; [done|]. by repeat (case_match; [done|]). Qed.

Lemma check_metadatas_code l : forall r, 0 <= r -> 0 <= check_metadatas r l.
Proof.
  unfold check_metadatas. induction l as [|x l IH]; intros r Hr; cbn; [done|]. apply IH. by repeat case_match.
Qed.

Hint Resolve check_signers_code check_types_code check_signer_weights_code check_type_thresholds_code
  check_metadatas_code checks : core.

Lemma CheckValid_code ope source n : 0 <= CheckValid ope source n.
Proof.
  assert (Hd : forall c, c = SUCCESS \/ c = 0 \/ True) by auto. clear Hd.
  unfold CheckValid, CheckCreateAccount, CheckCreateAccountGt1000, CheckPayAsset, CheckIssueAsset, CheckSetMetadata,
    CheckSetSignerWeight, CheckSetThreshold, CheckPayCoin, CheckLog, CheckSetPrivilege. cbv zeta.
  repeat case_match; subst; auto; done.
Qed.

Lemma check_operations_code t n l b code : 0 <= result_ t -> check_operations t n l = (b, code) ->
  0 <= code /\ (b = false -> code <> SUCCESS).
Proof.
  revert t. induction l as [|ope l IH]; intros t Ht; cbn [check_operations]; [intros [= <- <-]; done|].
  destruct (negb _); [by intros [= <- <-]|]. destruct (_ <? _); [by intros [= <- <-]|].
  destruct (Z.eqb_spec (CheckValid ope (ope_source t ope) n) SUCCESS) as [E|E]; cbn [negb].
  - intros H. apply IH in H; [done|]. cbn. apply CheckValid_code.
  - intros [= <- <-]. split; [apply CheckValid_code|done].
Qed.

Lemma ValidForParameter_code blk t n b t' : 0 <= result_ t -> ValidForParameter blk t n = (b, t') ->
  exists code, t' = set_result code t /\ 0 <= code /\ (b = false -> code <> SUCCESS).
Proof.
  intros Ht. unfold ValidForParameter. cbv zeta.
  repeat (match goal with |- (if ?b then _ else _) = _ -> _ => destruct b end; [intros [= <- <-]; by eexists|]).
  destruct (check_operations t n _) as [okb code] eqn:E. intros [= <- <-]. exists code. split; [done|].
  by eapply check_operations_code.
Qed.

Lemma ValidForParameter_args blk t n t' : result_ t = SUCCESS -> Forall typed_op (tx_operations (tran t)) ->
  ValidForParameter blk t n = (true, t') -> Forall coin_args (tx_operations (tran t)).
Proof.
  intros Ht Hty. unfold ValidForParameter. cbv zeta.
  repeat (match goal with |- (if ?b then _ else _) = _ -> _ => destruct b end; [done|]).
  destruct (check_operations t n _) as [okb code] eqn:E. intros [= -> _].
  by apply check_operations_ok in E as [_ ?].
Qed.
End Codes.

(** ** Frames *)
Section Frames.
Context `{P : LedgerParams}.
Implicit Types (s : LState) (d i me : nat) (f : Prop).

Lemma kin_set_result f c t : 0 <= c -> kin f t (set_result c t).
Proof. intros Hc. split; try done. exists []. cbn. by rewrite app_nil_r. Qed.

Lemma alter_insert i (g : TransactionFrm -> TransactionFrm) (l : list TransactionFrm) t :
  l !! i = Some t -> alter g i l = <[i := g t]> l.
Proof.
  intros Ht. apply list_eq. intros j. destruct (decide (i = j)) as [<-|Hne].
  - by rewrite list_lookup_alter_eq, Ht, list_lookup_insert_eq by (by eapply lookup_lt_Some).
  - by rewrite list_lookup_alter_ne, list_lookup_insert_ne by done.
Qed.

Lemma rel_mod_tx f d s i g : live d s -> (forall t, kin f t (g t)) ->
  rel f d s (set_stack (alter g i (transaction_stack_ s)) s).
Proof.
  intros Hl Hg. destruct (rel_refl f d s Hl) as [O E W K G F S]. split; try done. cbn.
  apply Forall2_same_length_lookup. split; [by rewrite length_alter|]. intros j t t' Ht Ht'.
  destruct (decide (i = j)) as [<-|Hne].
  - rewrite list_lookup_alter_eq, Ht in Ht'. injection Ht' as <-. apply Hg.
  - rewrite list_lookup_alter_ne, Ht in Ht' by done. injection Ht' as <-. apply kin_refl.
Qed.

Lemma wp_mod_tx A d s i g {Y} (K : unit -> LM Y) (Q : Y -> LState -> Prop) : live d s -> (forall t, kin True t (g t)) ->
  (forall s1, live d s1 -> rel True d s s1 -> transaction_stack_ s1 = alter g i (transaction_stack_ s) ->
     env_ s1 = env_ s -> wp A (K tt) s1 Q) ->
  wp A (mod_tx i g ≫= K) s Q.
Proof.
  intros Hl Hg HK. pose proof (rel_mod_tx True d s i g Hl Hg) as Hr. apply wp_mod, HK; try done.
  by eapply rel_live.
Qed.

(** A failed frame: its result says so. *)
Definition failed me s : Prop := exists t, transaction_stack_ s !! me = Some t /\ result_ t <> SUCCESS.

Lemma wp_fail A d s me c : live d s -> is_Some (transaction_stack_ s !! me) -> 0 < c ->
  wp A (mod_tx me (set_result c) ;; mret false) s (fun b s' => b = false /\ rel True d s s' /\ failed me s').
Proof.
  intros Hl [t Ht] Hc. eapply wp_mod_tx; [done|intros t'; apply kin_set_result; lia|].
  intros s1 Hl1 Hr Hst _. apply wp_end. split; [done|]. split; [done|]. exists (set_result c t).
  rewrite Hst, list_lookup_alter_eq, Ht. split; [done|]. cbn. unfold SUCCESS. lia.
Qed.

Lemma kin_gas f g t : kin f t (AddActualGas g t).
Proof. split; try done. exists []. cbn. by rewrite app_nil_r. Qed.

Lemma wp_AddActualFee A d s me : live d s -> is_Some (transaction_stack_ s !! me) ->
  wp A (AddActualFee me) s (fun b s' => rel True d s s' /\ (b = false -> failed me s') /\ (failed me s -> failed me s')).
Proof.
  intros Hl [t Ht]. unfold AddActualFee. apply (wp_get_tx _ me t); [done|].
  eapply wp_mod_tx; [done|intros t'; apply kin_gas|]. intros s1 Hl1 Hr1 Hst1 _.
  destruct (lv_price _ _ Hl) as (b & Hb & Hp).
  assert (Hb1 : transaction_stack_ s1 !! 0%nat = Some (AddActualGas (GetSelfGas t) b)) by by rewrite Hst1, list_lookup_alter_eq, Hb.
  assert (Hme : is_Some (transaction_stack_ s1 !! me)).
  { rewrite Hst1. apply lookup_lt_is_Some. rewrite length_alter. by eapply lookup_lt_Some. }
  apply (wp_get_tx _ 0 _ _ s1 _ Hb1). cbn beta.
  set (bb := AddActualGas (GetSelfGas t) b).
  assert (Hprice : GetGasPrice bb = GetGasPrice b) by done.
  assert (Hmul : SafeIntMul (actual_gas_ bb) (GetGasPrice bb) 0
    = Returns (in_s64 (actual_gas_ bb * GetGasPrice bb), if in_s64 (actual_gas_ bb * GetGasPrice bb) then actual_gas_ bb * GetGasPrice bb else 0)).
  { rewrite Hprice. apply SafeIntMul_spec; [apply s64_range|unfold is_s64, int64_min; lia|unfold int64_min; lia]. }
  eapply wp_step; [unfold on_outcome; rewrite Hmul; reflexivity|]. cbn beta iota.
  assert (Hfail : forall c, 0 < c -> wp A (mod_tx me (set_result c) ;; mret false) s1
    (fun b s' => rel True d s s' /\ (b = false -> failed me s') /\ (failed me s -> failed me s'))).
  { intros c Hc. eapply wp_post; [by apply (wp_fail A d)|]. intros x s' (_ & Hr & Hx). split; [|done]. by eapply rel_trans. }
  destruct (in_s64 _); cbn [negb]; [|by apply Hfail]. destruct (_ <? _); [by apply Hfail|].
  apply wp_end. split_and!; [done|done|]. intros (t' & Ht' & Hres). unfold failed. rewrite Hst1.
  destruct (decide (me = 0%nat)) as [->|Hne]; [rewrite list_lookup_alter_eq|rewrite list_lookup_alter_ne by done]; rewrite Ht'; by eexists.
Qed.

(** The nonce of the source account. *)
Lemma NonceIncrease_run d me s t a : ok d s -> transaction_stack_ s !! me = Some t -> V d s (GetSourceAddress t) = Some a ->
  exists s', NonceIncrease d me s = Returns (tt, s', []) /\ ok d s' /\ step d s s' /\ settings_ s' = settings_ s
    /\ V d s' = upd (GetSourceAddress t) (NonceIncrease_ a) (V d s).
Proof.
  intros Hok Ht Ha. unfold NonceIncrease. rewrite (hbind_nil _ _ _ t s) by by apply get_tx_run.
  destruct (GetEntry_run d (GetSourceAddress t) s Hok) as (p & s1 & Hr & Hok1 & Hst & HV & _ & Hp).
  rewrite (hbind_nil _ _ _ p s1 Hr). destruct p as [l|]; [|congruence]. destruct Hp as (a' & Ha' & Hp).
  assert (a' = a) as -> by congruence. rewrite (hbind_nil _ _ _ a s1) by eapply read_account_run, Hp.
  destruct (write_account_run d s1 _ l a (NonceIncrease_ a) Hok1 Hp) as (s2 & Hr2 & Hok2 & Hst2 & HV2 & _).
  exists s2. split_and!; [done|done|by transitivity s1| |by rewrite HV2, HV].
  transitivity (settings_ s1); [cbn in Hr2; by injection Hr2 as <-|].
  unfold GetEntry, on_env in Hr. destruct (Get _ _ _ _) as [[[x e] es]|]; [|done]. by injection Hr as _ <- _.
Qed.
End Frames.

(** ** Applying a transaction *)
Section Apply.
Context `{P : LedgerParams} (blk : BlockInfo) (A : nat -> Prop).
Context (exec : runs_contracts A) (reserve : 0 <= cfg_base_reserve <= int64_max).
Implicit Types (s : LState) (d me : nat).

(** The end of a transaction: when it fails its result says so. *)
Definition Applied_ d me s (b : bool) s' : Prop := rel (b = true) d s s' /\ (b = false -> failed me s').

Lemma applied_via (B : Prop) d me (m : LM bool) s s1 : rel True d s s1 ->
  wp B m s1 (Applied_ d me s1) -> wp B m s1 (Applied_ d me s).
Proof.
  intros Hr H. eapply wp_post; [exact H|]. intros b s' [Hr' Hb]. split; [|done]. by eapply rel_trans.
Qed.

Lemma applied_fail (B : Prop) d me s c : live d s -> is_Some (transaction_stack_ s !! me) -> 0 < c ->
  wp B (mod_tx me (set_result c) ;; mret false) s (Applied_ d me s).
Proof.
  intros Hl Hme Hc. eapply wp_post; [by apply (wp_fail B d s me c)|]. intros b s' (_ & Hr & Hb). split; [|done].
  by eapply rel_weaken.
Qed.

Lemma kin_processing f i t : kin f t (set_processing i t).
Proof. split; try done. exists []. cbn. by rewrite app_nil_r. Qed.

Lemma rel_frame f d s s' me : rel f d s s' -> is_Some (transaction_stack_ s !! me) -> is_Some (transaction_stack_ s' !! me).
Proof. intros Hr [t Ht]. destruct (rel_lookup _ _ _ _ _ _ Hr Ht) as (t' & Ht' & _). eauto. Qed.

Lemma wp_CheckSignature (B : Prop) d me ope s {Y} (K : option Z -> LM Y) (Q : Y -> LState -> Prop) : live d s ->
  is_Some (transaction_stack_ s !! me) ->
  (forall r s1, live d s1 -> rel True d s s1 -> match r with Some c => 0 < c | None => True end -> wp B (K r) s1 Q) ->
  wp B (CheckSignature d me ope ≫= K) s Q.
Proof.
  intros Hl [t Ht] HK. unfold CheckSignature. apply wp_assoc, (wp_get_tx _ me t); [done|]. apply wp_assoc.
  apply (wp_GetEntry B d (ope_source t ope)); [done|]. intros p s1 Hl1 Hr _ _ _ _ Hp. destruct p as [l|].
  - destruct Hp as (a & _ & Ha). apply wp_assoc. eapply post_read; [exact Ha|].
    destruct (SignerHashPriv _ _ _); (eapply wp_step; [reflexivity|]); by apply HK.
  - eapply wp_step; [reflexivity|]. by apply HK.
Qed.

Lemma wp_apply_operations d me check l : forall i s, live d s -> at_top d me (transaction_stack_ s) ->
  Forall coin_args l ->
  wp (A (length (transaction_stack_ s))) (apply_operations blk d me check i l) s (Applied_ d me s).
Proof.
  induction l as [|ope l IH]; intros i s Hl Hme Hargs; cbn [apply_operations].
  { eapply wp_mod_tx; [done|intros t; apply kin_processing|]. intros s1 Hl1 Hr _ _. apply wp_end. by split; [eapply rel_weaken|]. }
  inversion_clear Hargs as [|? ? Hope Hargs'].
  eapply wp_mod_tx; [done|intros t; apply kin_processing|]. intros s1 Hl1 Hr1 _ _.
  rewrite <- (rel_length _ _ _ _ Hr1). eapply applied_via; [exact Hr1|]. eapply rel_top in Hme; [|exact Hr1].
  assert (Hgo : forall s2, live d s2 -> rel True d s1 s2 ->
    wp (A (length (transaction_stack_ s1))) (result ← Operation.Apply blk d me i ope;
      if negb (result =? 0) then mod_tx me (set_result result) ;; mret false
      else apply_operations blk d me check (i + 1) l) s2 (Applied_ d me s1)).
  { intros s2 Hl2 Hr2. rewrite <- (rel_length _ _ _ _ Hr2). eapply applied_via; [exact Hr2|].
    eapply rel_top in Hme; [|exact Hr2]. apply wp_seq. eapply wp_post; [by apply (ends_Apply blk A)|].
    cbn beta. intros code s3 [Hc Hr3]. pose proof (rel_live _ _ _ _ Hl2 Hr3) as Hl3.
    eapply rel_top in Hme; [|exact Hr3]. rewrite <- (rel_length _ _ _ _ Hr3).
    destruct (Z.eqb_spec code 0) as [->|Hne]; cbn [negb].
    - eapply applied_via; [eapply rel_weaken; [exact Hr3|done]|]. by apply IH.
    - eapply wp_post; [apply (wp_fail _ d s3 me code); [done|by eapply at_top_some|unfold SUCCESS in *; lia]|].
      intros b s' (-> & Hr & Hb). split; [|done]. by eapply rel_trans. }
  destruct check.
  - apply (wp_CheckSignature _ d); [done|by eapply at_top_some|]. intros r s2 Hl2 Hr2 Hc. destruct r as [c|]; [|by apply Hgo].
    eapply applied_via; [exact Hr2|]. apply applied_fail; [done|eapply at_top_some, rel_top; [exact Hr2|exact Hme]|done].
  - eapply wp_step; [reflexivity|]. apply Hgo; [done|]. by apply rel_refl.
Qed.
End Apply.

(** ** Environments that are stacked *)
Section Stacked.
Context `{P : LedgerParams} (db : good AccountFromDB).
Implicit Types (s : LState) (d : nat) (f : Prop).

(** The states after [NewStackFrameEnv], the commit of an environment and [end_env]. *)
Definition push_store {A} (e : Store string A) : Store string A := MkStore (heap_ e) (next_ e) (maps_ e ++ [∅])%list.
Definition pop_store {A} (e : Store string A) : Store string A :=
  MkStore (heap_ e) (next_ e) (take (length (maps_ e) - 1) (maps_ e)).
Definition commit_store {A} d (e : Store string A) : Store string A :=
  set_map (S d) ∅ (set_map d (map_at e (S d) ∪ map_at e d) e).
Definition pushed s : LState := set_env (push_store (env_ s)) (set_settings (push_store (settings_ s)) s).
Definition ended s : LState := set_env (pop_store (env_ s)) (set_settings (pop_store (settings_ s)) s).
Definition committed d s : LState := set_env (commit_store d (env_ s)) (set_settings (commit_store d (settings_ s)) s).

Lemma NewStackFrameEnv_eq s : NewStackFrameEnv s = Returns (tt, pushed s, []).
Proof. done. Qed.
Lemma end_env_eq s : end_env s = Returns (tt, ended s, []).
Proof. done. Qed.
Lemma env_Commit_eq d s : env_Commit d s = Returns (true, committed d s, []).
Proof.
  unfold env_Commit. erewrite hbind_nil by apply on_settings_run, Commit_run. unfold on_env. by rewrite Commit_run.
Qed.

(** What a new environment shows. *)
Lemma pushed_view d s k : length (maps_ (env_ s)) = S (S d) ->
  V (S d) (pushed s) k = match content (env_ s) (S d) k with Some x => x | None => AccountFromDB k end.
Proof.
  intros Hl. unfold V, view. cbn. unfold push_store. rewrite !push_content.
  rewrite (content_none (env_ s) (S (S d))); [done|]. unfold map_at. by rewrite lookup_ge_None_2 by lia.
Qed.

Lemma content_view d s k a : content (env_ s) (S d) k = Some (Some a) -> V d s k = Some a.
Proof. intros E. unfold V, view. by rewrite E. Qed.

Lemma live_push d s t : live d s -> live (S d) (set_stack (transaction_stack_ s ++ [t])%list (pushed s)).
Proof.
  intros [(Hw & Hd & Hal) Hlen [Hsw Hsl] Hg (b & Hb & Hp)]. split.
  - split_and!; [by apply push_wf|cbn; rewrite length_app; cbn; lia|].
    intros j k. cbn. unfold push_store. rewrite push_content. apply Hal.
  - cbn. rewrite length_app. cbn. lia.
  - split; [by apply push_wf|]. cbn. rewrite length_app. cbn. lia.
  - intros k a. change (V (S d) (pushed s) k = Some a -> in_range a). rewrite pushed_view by done.
    destruct (content (env_ s) (S d) k) as [x|] eqn:E; [|apply db]. intros ->. by apply (Hg k), content_view.
  - exists b. cbn. rewrite lookup_app_l by by eapply lookup_lt_Some. done.
Qed.

(** Back in the environment below, with or without a commit. *)
Lemma content_out {A} (e : Store string A) j k : (length (maps_ e) <= j)%nat -> content e j k = None.
Proof. intros Hj. apply content_none. unfold map_at. by rewrite lookup_ge_None_2. Qed.

Lemma pop_store_spec {A} (e : Store string A) n : length (maps_ e) = S n -> wf e ->
  wf (pop_store e) /\ length (maps_ (pop_store e)) = n
  /\ forall j k, content (pop_store e) j k = if decide (j < n)%nat then content e j k else None.
Proof.
  intros Hl Hw. split_and!; [by eapply pop_wf|cbn; rewrite length_take; lia|]. intros j k. by apply pop_content.
Qed.

Lemma commit_pop_spec {A} (e : Store string A) d : length (maps_ e) = S (S (S d)) -> wf e ->
  let e' := pop_store (commit_store (S d) e) in
  wf e' /\ length (maps_ e') = S (S d)
  /\ forall j k, content e' j k =
       if decide (j = S d) then match content e (S (S d)) k with Some x => Some x | None => content e (S d) k end
       else if decide (j < S d)%nat then content e j k else None.
Proof.
  intros Hl Hw e'. destruct (commit_store_wf e (S d) Hw) as (Hwc & Hlc & Hcc); [lia|].
  destruct (pop_store_spec (commit_store (S d) e) (S (S d))) as (Hwp & Hlp & Hcp); [by rewrite <- Hl|done|].
  split_and!; [done|done|]. intros j k. rewrite Hcp. unfold commit_store. rewrite Hcc.
  repeat case_decide; try lia; done.
Qed.

(** A state whose environments have these contents. *)
Lemma rel_contents f f' d s l s' l' s2 : live d s -> rel f (S d) (set_stack l (pushed s)) s' ->
  Forall2 (kin f') (transaction_stack_ s) l' ->
  total_fee_ s2 = total_fee_ s' -> transaction_stack_ s2 = l' -> wf (settings_ s2) ->
  length (maps_ (settings_ s2)) = S (S d) -> wf (env_ s2) -> length (maps_ (env_ s2)) = S (S d) ->
  (forall k, content (env_ s2) (S d) k = content (env_ s) (S d) k
     \/ exists a, content (env_ s2) (S d) k = Some (Some a) /\ content (env_ s') (S (S d)) k = Some (Some a)) ->
  (forall j k, j <> S d -> content (env_ s2) j k = content (env_ s) j k) ->
  rel f' d s s2.
Proof.
  intros [(Hw & Hd & Hal) Hlen [Hsw Hsl] Hg _] Hr Hk Hf Hst Hsw2 Hsl2 Hw2 Hl2 Hc Ho.
  assert (HV : forall k, V d s2 k = V d s k \/ exists a, V d s2 k = Some a /\ V (S d) s' k = Some a).
  { intros k. destruct (Hc k) as [E|(a & E & E')].
    - left. unfold V, view. rewrite E, Ho by lia. done.
    - right. exists a. split; by apply content_view. }
  split.
  - split_and!; [done|lia|]. intros j k E. destruct (decide (j = S d)) as [->|Hj]; [|rewrite Ho in E by done; by apply (Hal _ _ E)].
    destruct (Hc k) as [E'|(a & E' & _)]; rewrite E' in E; [by apply (Hal _ _ E)|done].
  - split; [lia|done].
  - split; [done|lia].
  - intros k Hk'. destruct (HV k) as [->|(a & -> & _)]; [done|eauto].
  - intros k a Ha. destruct (HV k) as [E|(b & E & E')]; rewrite E in Ha; [by apply (Hg k)|]. injection Ha as ->.
    by apply (rel_good _ _ _ _ Hr k).
  - rewrite Hf. apply Hr.
  - by rewrite Hst.
Qed.

Lemma stacked_lengths f d s l s' : live d s -> rel f (S d) (set_stack l (pushed s)) s' ->
  length (maps_ (env_ s')) = S (S (S d)) /\ length (maps_ (settings_ s')) = S (S (S d))
  /\ forall j k, j <> S (S d) -> content (env_ s') j k = content (env_ s) j k.
Proof.
  intros Hl Hr. destruct (rel_env _ _ _ _ Hr) as [L C], (rel_settings _ _ _ _ Hr) as [_ SL].
  pose proof (lv_len _ _ Hl). pose proof (proj2 (lv_settings _ _ Hl)). split_and!.
  - rewrite L. cbn. rewrite length_app. cbn. lia.
  - rewrite SL. cbn. rewrite length_app. cbn. lia.
  - intros j k Hj. rewrite C by done. cbn. apply push_content.
Qed.

Lemma rel_ended f f' d s l s' l' : live d s -> rel f (S d) (set_stack l (pushed s)) s' ->
  Forall2 (kin f') (transaction_stack_ s) l' -> rel f' d s (set_stack l' (ended s')).
Proof.
  intros Hl Hr Hk. destruct (stacked_lengths _ _ _ _ _ Hl Hr) as (L1 & L2 & C). pose proof (lv_len _ _ Hl) as Hlen.
  destruct (pop_store_spec (env_ s') _ L1 (proj1 (rel_ok _ _ _ _ Hr))) as (W & L & Hc).
  destruct (pop_store_spec (settings_ s') _ L2 (proj1 (rel_settings _ _ _ _ Hr))) as (Ws & Ls & _).
  assert (Hs : forall j k, content (pop_store (env_ s')) j k = content (env_ s) j k).
  { intros j k. rewrite Hc. case_decide; [by rewrite C by lia|by rewrite content_out by lia]. }
  eapply rel_contents; try done. intros k. left. apply Hs.
Qed.

Lemma rel_committed f f' d s l s' l' : live d s -> rel f (S d) (set_stack l (pushed s)) s' ->
  Forall2 (kin f') (transaction_stack_ s) l' -> rel f' d s (set_stack l' (ended (committed (S d) s'))).
Proof.
  intros Hl Hr Hk. destruct (stacked_lengths _ _ _ _ _ Hl Hr) as (L1 & L2 & C). pose proof (lv_len _ _ Hl) as Hlen.
  pose proof (rel_ok _ _ _ _ Hr) as (Hw' & _ & Hal').
  destruct (commit_pop_spec (env_ s') d L1 Hw') as (W & L & Hc).
  destruct (commit_pop_spec (settings_ s') d L2 (proj1 (rel_settings _ _ _ _ Hr))) as (Ws & Ls & _).
  eapply rel_contents; try done; change (env_ (set_stack l' (ended (committed (S d) s')))) with (pop_store (commit_store (S d) (env_ s'))).
  - intros k. rewrite Hc, decide_True by done. destruct (content (env_ s') (S (S d)) k) as [[x|]|] eqn:E.
    + right. eauto.
    + by destruct (Hal' _ _ E).
    + left. by rewrite C by lia.
  - intros j k Hj. rewrite Hc, decide_False by done. case_decide; [by rewrite C by lia|by rewrite content_out by lia].
Qed.
End Stacked.

(** ** Sending a transaction *)
Section Do.
Context `{P : LedgerParams} (blk : BlockInfo) (A : nat -> Prop).
Context (exec : runs_contracts A) (reserve : 0 <= cfg_base_reserve <= int64_max) (version : 1002 < ledger_version)
  (db : good AccountFromDB) (checks : forall code n, 0 <= SourceCodeCheck code n).
Implicit Types (s : LState) (d me : nat).

Lemma wp_tx_Apply d me b s t :
  let s' := set_stack (alter (attach d) me (transaction_stack_ s)) s in
  live d s' -> at_top d me (transaction_stack_ s') -> transaction_stack_ s !! me = Some t ->
  Forall coin_args (tx_operations (tran t)) ->
  wp (A (length (transaction_stack_ s))) (tx_Apply blk d me b) s (Applied_ d me s').
Proof.
  intros s' Hl Htop Ht Hargs. unfold tx_Apply. apply wp_mod. fold s'.
  assert (Hlen : length (transaction_stack_ s') = length (transaction_stack_ s)) by (cbn; apply length_alter).
  rewrite <- Hlen. apply wp_seq. eapply wp_post; [apply (wp_AddActualFee _ d s' me Hl), (at_top_some _ _ _ Htop)|].
  cbn beta. intros ret s1 (Hr1 & Hret & _). pose proof (rel_live _ _ _ _ Hl Hr1) as Hl1. eapply rel_top in Htop; [|exact Hr1].
  destruct ret; cbn [negb]; [|apply wp_end; split; [by eapply rel_weaken|done]].
  assert (Ht' : transaction_stack_ s' !! me = Some (attach d t)) by (cbn; by rewrite list_lookup_alter_eq, Ht).
  destruct (rel_lookup _ _ _ _ _ _ Hr1 Ht') as (t1 & Ht1 & Hk). apply (wp_get_tx _ me t1); [done|].
  eapply applied_via; [exact Hr1|]. rewrite <- (rel_length _ _ _ _ Hr1).
  apply (wp_apply_operations blk A exec reserve); [done|done|].
  unfold tran. by rewrite (kin_tx _ _ _ Hk).
Qed.

Lemma kin_add f l t : (f -> Forall succeeded l) -> kin f t (add_instructions l t).
Proof. intros Hl. split; try done. by exists l. Qed.

(** The entry of the transaction on top grows. *)
Lemma kin_alter (f1 f : Prop) l l1 i x : Forall2 (kin f1) l l1 -> (f -> f1) -> (f -> Forall succeeded x) ->
  Forall2 (kin f) l (alter (add_instructions x) i l1).
Proof.
  intros H Hf Hx. apply Forall2_same_length_lookup. split; [by rewrite length_alter; eapply Forall2_length|].
  intros j t t' Ht Ht'. destruct (Forall2_lookup_l _ _ _ _ _ H Ht) as (t1 & Ht1 & Hk). destruct (decide (i = j)) as [<-|Hne].
  - rewrite list_lookup_alter_eq, Ht1 in Ht'. injection Ht' as <-. eapply kin_trans; [exact Hk|by apply kin_add| |]; auto.
  - rewrite list_lookup_alter_ne, Ht1 in Ht' by done. injection Ht' as <-. by eapply kin_weaken.
Qed.

(** The end of [DoTransaction], from the state [s6] after the transaction ran. *)
Definition do_end (top me : nat) (okb : bool) : LM Z :=
  new_tx ← get_tx me;
  let code := result_ new_tx in
  let drop_env := if okb then end_env else mret tt in
  if (code =? FEE_NOT_ENOUGH) || (code =? CONTRACT_TOO_MANY_TRANSACTIONS) then
    (if CHECK_VERSION_GT_1002 then drop_env ;; pop_tx else mret tt) ;;
    mret code
  else
    (if code =? SUCCESS then
       mod_tx top (add_instructions (instructions_ new_tx)) ;;
       env_Commit (environment_ new_tx) ;; mret tt
     else mret tt) ;;
    mod_tx top (add_instructions [MkTxStore (transaction_env_ new_tx) code]) ;;
    drop_env ;;
    pop_tx ;;
    mret code.

Lemma gt1002 : CHECK_VERSION_GT_1002 = true.
Proof. unfold CHECK_VERSION_GT_1002. lia. Qed.

Lemma take_app_last {X} (l : list X) x : take (length (l ++ [x])%list - 1) (l ++ [x])%list = l.
Proof. rewrite length_app. cbn. replace (length l + 1 - 1)%nat with (length l) by lia. apply take_app_length. Qed.

Lemma pop_tx_run s l t : transaction_stack_ s = (l ++ [t])%list -> pop_tx s = Returns (tt, set_stack l s, []).
Proof. intros E. unfold pop_tx, hmod. by rewrite E, take_app_last. Qed.

(** The states in which [do_end] leaves the ledger: the transaction is gone. *)
Lemma do_end_run (B : Prop) d s6 l t okb top (Q : Z -> LState -> Prop) : transaction_stack_ s6 = (l ++ [t])%list ->
  (top < length l)%nat -> (result_ t = SUCCESS -> okb = true /\ environment_ t = S d) ->
  (let drop := fun s => if okb then ended s else s in
   (result_ t = SUCCESS -> Q SUCCESS (set_stack
      (alter (add_instructions [MkTxStore (transaction_env_ t) SUCCESS]) top (alter (add_instructions (instructions_ t)) top l))
      (ended (committed (S d) s6)))) /\
   (result_ t <> SUCCESS -> Q (result_ t) (set_stack l (drop s6)) /\
      Q (result_ t) (set_stack (alter (add_instructions [MkTxStore (transaction_env_ t) (result_ t)]) top l) (drop s6)))) ->
  wp B (do_end top (length l) okb) s6 Q.
Proof.
  intros Hst Htop Hs [HQs HQf]. unfold do_end.
  apply (wp_get_tx _ _ t); [by rewrite Hst, list_lookup_middle|].
  destruct ((result_ t =? FEE_NOT_ENOUGH) || (result_ t =? CONTRACT_TOO_MANY_TRANSACTIONS)) eqn:Ecode.
  - rewrite gt1002. assert (Hne : result_ t <> SUCCESS) by (intros E; by rewrite E in Ecode).
    apply wp_assoc. destruct okb; (eapply wp_step; [reflexivity|]);
      (eapply wp_step; [by apply (pop_tx_run _ l t)|]); apply wp_end, HQf, Hne.
  - destruct (Z.eqb_spec (result_ t) SUCCESS) as [E|Hne].
    + destruct (Hs E) as [-> He]. rewrite He. apply wp_assoc, wp_mod, wp_assoc.
      eapply wp_step; [apply env_Commit_eq|]. eapply wp_step; [reflexivity|]. apply wp_mod.
      eapply wp_step; [apply end_env_eq|]. rewrite E.
      eapply wp_step; [|apply wp_end; by apply HQs].
      rewrite (pop_tx_run _ (alter (add_instructions [MkTxStore (transaction_env_ t) SUCCESS]) top
        (alter (add_instructions (instructions_ t)) top l)) t); [done|].
      cbn. by rewrite Hst, !alter_app_l by (rewrite ?length_alter; done).
    + eapply wp_step; [reflexivity|]. apply wp_mod.
      destruct okb; (eapply wp_step; [reflexivity|]);
        (eapply wp_step; [|apply wp_end, (proj2 (HQf Hne))]);
        rewrite (pop_tx_run _ (alter (add_instructions [MkTxStore (transaction_env_ t) (result_ t)]) top l) t); try done;
        cbn; by rewrite Hst, alter_app_l by done.
Qed.

(** The stack after a step, the new transaction on top of it. *)
Lemma rel_split f d s s' l t : rel f d s s' -> transaction_stack_ s = (l ++ [t])%list ->
  exists l' t', transaction_stack_ s' = (l' ++ [t'])%list /\ Forall2 (kin f) l l' /\ kin f t t' /\ length l' = length l.
Proof.
  intros Hr E. pose proof (rel_stack _ _ _ _ Hr) as H. rewrite E in H.
  apply Forall2_app_inv_l in H as (l1 & l2 & H1 & H2 & ->). inversion H2 as [|? t' ? ? Hk H3]; subst.
  inversion H3; subst. exists l1, t'. split_and!; [done|done|done|]. symmetry. by eapply Forall2_length.
Qed.

Lemma rel_restack f f' d s s' l l' : rel f d s s' -> Forall2 (kin f') l l' -> rel f' d (set_stack l s) (set_stack l' s').
Proof. intros [] H. by split. Qed.

Lemma live_restack d s l : live d s -> (exists b, l !! 0%nat = Some b /\ 0 <= GetGasPrice b <= int64_max) -> live d (set_stack l s).
Proof. intros [] H. by split. Qed.

(** A new transaction that is valid. *)
Lemma wp_do_valid d top l t s : live d (set_stack l s) -> transaction_stack_ s = (l ++ [t])%list -> (top < length l)%nat ->
  0 <= result_ t -> instructions_ t = [] -> Forall coin_args (tx_operations (tran t)) ->
  wp (A (S (length l))) (NewStackFrameEnv ;; tx_Apply blk (S d) (length l) true ;; do_end top (length l) true) s
    (Post d (set_stack l s)).
Proof.
  intros Hl Hst Htop Hres Hins Hargs. eapply wp_step; [apply NewStackFrameEnv_eq|].
  pose proof (live_push db d _ (attach (S d) t) Hl) as Hlive. cbn [transaction_stack_ set_stack] in Hlive.
  set (s' := set_stack (l ++ [attach (S d) t])%list (pushed (set_stack l s))) in Hlive.
  assert (Es' : set_stack (alter (attach (S d)) (length l) (transaction_stack_ (pushed s))) (pushed s) = s').
  { unfold s'. cbn. rewrite Hst. by rewrite alter_app_r_alt, Nat.sub_diag by lia. }
  apply wp_seq. eapply wp_post.
  { replace (S (length l)) with (length (transaction_stack_ (pushed s))) by (cbn; rewrite Hst, length_app; cbn; lia).
    apply (wp_tx_Apply (S d) (length l) true (pushed s) t).
    - by rewrite Es'.
    - rewrite Es'. exists l, (attach (S d) t). done.
    - cbn. by rewrite Hst, list_lookup_middle.
    - done. }
  rewrite Es'. intros b s6 [Hr Hb].
  destruct (rel_split _ _ _ _ l (attach (S d) t) Hr eq_refl) as (l6 & t6 & Hst6 & Hkl & Hkt & Hlen).
  assert (Hsucc : result_ t6 = SUCCESS -> b = true).
  { intros E. destruct b; [done|]. destruct (Hb eq_refl) as (x & Hx & Hne). rewrite Hst6, <- Hlen, list_lookup_middle in Hx by done.
    by injection Hx as <-. }
  rewrite <- Hlen. eapply (do_end_run _ d s6 l6 t6 true top); [done|lia|split; [done|apply Hkt]|]. cbn zeta iota. split.
  - intros E. split; [done|]. eapply rel_committed; [exact Hl|exact Hr|].
    apply (kin_alter True); [|done|by repeat constructor]. apply (kin_alter (b = true)); [done|auto|].
    intros ?. destruct Hkt as [_ _ _ (li & Hli & Hs)]. rewrite Hli. cbn. rewrite Hins. auto.
  - intros Hne. assert (Hc : 0 <= result_ t6) by by apply (kin_result _ _ _ Hkt).
    split; (split; [done|]); (eapply rel_ended; [exact Hl|exact Hr|]).
    + eapply Forall2_impl; [exact Hkl|]. intros x y Hk. by eapply kin_weaken.
    + eapply kin_alter; [exact Hkl|done|done].
Qed.

(** A new transaction that is not valid. *)
Lemma wp_do_invalid B d top l t s : live d s -> transaction_stack_ s = (l ++ [t])%list -> (top < length l)%nat ->
  0 < result_ t -> wp B (AddActualFee (length l) ;; do_end top (length l) false) s (Post d (set_stack l s)).
Proof.
  intros Hl Hst Htop Hres. assert (Ht : transaction_stack_ s !! length l = Some t) by by rewrite Hst, list_lookup_middle.
  apply wp_seq. eapply wp_post; [apply (wp_AddActualFee _ d); eauto|]. cbn beta. intros b s6 (Hr & _ & Hf).
  destruct (rel_split _ _ _ _ l t Hr Hst) as (l6 & t6 & Hst6 & Hkl & Hkt & Hlen).
  assert (Hne : result_ t6 <> SUCCESS).
  { destruct Hf as (x & Hx & Hne). { exists t. split; [done|]. unfold SUCCESS. lia. }
    rewrite Hst6, <- Hlen, list_lookup_middle in Hx by done. by injection Hx as <-. }
  assert (Hc : 0 <= result_ t6) by (apply (kin_result _ _ _ Hkt); lia).
  rewrite <- Hlen. eapply (do_end_run _ d s6 l6 t6 false top); [done|lia|done|]. cbn zeta iota. split; [done|].
  intros _. split; (split; [done|]); (eapply rel_restack; [exact Hr|]).
  - eapply Forall2_impl; [exact Hkl|]. intros x y Hk. by eapply kin_weaken.
  - eapply kin_alter; [exact Hkl|done|done].
Qed.

Lemma depth_safe n : CheckContractDepthSafe n = true.
Proof. unfold CheckContractDepthSafe, CHECK_VERSION_GT_1001. by rewrite (proj2 (Z.ltb_lt _ _)) by lia. Qed.

(** The new transaction is on the stack and the nonce has grown. *)
Lemma wp_do_pushed d top l t s : live d (set_stack l s) -> transaction_stack_ s = (l ++ [t])%list -> (top < length l)%nat ->
  result_ t = SUCCESS -> instructions_ t = [] -> Forall typed_op (tx_operations (tran t)) -> forall n,
  wp (A (S (length l)))
    (new_tx ← get_tx (length l);
     let '(okb, new_tx') := ValidForParameter blk new_tx n in
     mod_tx (length l) (fun _ => new_tx') ;;
     (if okb then NewStackFrameEnv ;; tx_Apply blk (S d) (length l) true else AddActualFee (length l)) ;;
     do_end top (length l) okb) s (Post d (set_stack l s)).
Proof.
  intros Hl Hst Htop Hres Hins Hty n. apply (wp_get_tx _ _ t); [by rewrite Hst, list_lookup_middle|].
  destruct (ValidForParameter blk t n) as [okb t'] eqn:Ev.
  destruct (ValidForParameter_code checks blk t n okb t') as (code & -> & Hcode & Hne); [by rewrite Hres|done|].
  apply wp_mod. set (s1 := set_stack _ s).
  assert (Hst1 : transaction_stack_ s1 = (l ++ [set_result code t])%list).
  { cbn. by rewrite Hst, alter_app_r_alt, Nat.sub_diag by lia. }
  assert (El : set_stack l s1 = set_stack l s) by done. rewrite <- El.
  destruct okb.
  - apply wp_assoc. apply (wp_do_valid d top l (set_result code t)); try done.
    change (tx_operations (tran (set_result code t))) with (tx_operations (tran t)). by eapply ValidForParameter_args.
  - apply (wp_do_invalid _ d top l (set_result code t)); [|done|done|].
    + apply (live_restack d (set_stack l s) (transaction_stack_ s1)); [done|]. destruct (lv_price _ _ Hl) as (b & Hb & Hp).
      exists b. rewrite Hst1, lookup_app_l by lia. done.
    + specialize (Hne eq_refl). unfold SUCCESS in *. cbn. lia.
Qed.

Lemma wp_DoTransaction d top env s : live d s -> at_top d top (transaction_stack_ s) ->
  is_Some (V d s (tx_source_address (te_transaction env))) -> Forall typed_op (tx_operations (te_transaction env)) ->
  wp (A (S (length (transaction_stack_ s)))) (DoTransaction blk env) s (Post d s).
Proof.
  intros Hl Htop [a Ha] Hty. unfold DoTransaction. apply wp_get. cbv zeta.
  destruct Htop as (l' & tt & Est & Hlen & Henv). set (me := length (transaction_stack_ s)).
  assert (me - 1 = top /\ top < me)%nat as [-> Hlt].
  { unfold me. rewrite Est, length_app. cbn. lia. }
  apply (wp_get_tx _ top tt); [by rewrite Est, list_lookup_middle|]. rewrite Henv.
  apply (wp_GetEntry _ d); [done|]. intros p s1 Hl1 Hr1 HV1 Hst1 _ _ Hp.
  destruct p as [loc|]; [|congruence]. destruct Hp as (a' & Ha' & Hp).
  eapply wp_step; [eapply read_account_run, Hp|]. rewrite depth_safe. cbn [negb].
  set (env1 := set_tx_nonce _ env). set (t := Initialize env1). apply wp_mod. set (s2 := set_stack _ s1).
  assert (Hst2 : transaction_stack_ s2 = (transaction_stack_ s ++ [t])%list) by (cbn; by rewrite Hst1).
  destruct (NonceIncrease_run d me s2 t a) as (s3 & Hr & Hok3 & (Ho & Hst3 & Hf3 & Ht3) & Hs3 & HV3).
  { apply Hl1. } { rewrite Hst2. by apply list_lookup_middle. } { change (V d s1 (tx_source_address (te_transaction env)) = Some a). by rewrite HV1. }
  eapply wp_step; [exact Hr|].
  assert (Hrel : rel True d s (set_stack (transaction_stack_ s) s3)).
  { eapply rel_trans; [exact Hr1| |done|done]. apply rel_step; [exact Hl1|exact Hok3| |exact Hs3| |].
    - split; [exact Ho|]. by rewrite Hst1.
    - intros k. change (is_Some (V d s1 k) -> is_Some (V d s3 k)). rewrite HV3. apply keep_upd_view.
    - change (good (V d s3)). rewrite HV3. apply good_upd; [apply Hl1|]. apply (lv_good _ _ Hl _ a Ha). }
  rewrite Hst2 in Hst3. eapply post_via; [exact Hrel|].
  apply (wp_do_pushed d top (transaction_stack_ s) t); try done. eapply rel_live; [exact Hl|exact Hrel].
Qed.
End Do.
