(* ===== verification/ContractReads.v ===== *)
(** * Functions that read

    What the functions of src/contract/v8_contract_read.cpp leave as it was ([reads]):
    they may cache what they read and count steps, but every account, asset and
    metadata value seen afterwards is the one seen before. *)
From S2P Require Import Prelude Uint128 Uint128Facts Strings StringsFacts OrdMap AtomMap AtomMapFacts Account Chain TxFrame Operation Transaction EnvFacts LedgerSpec OperationFacts CoinFacts TransactionFacts BlockSpec V8 ContractCalls ContractInv ContractTx.
Import U128.

Open Scope string_scope.
Open Scope Z_scope.

(** ** Reading *)
Section Same.
Context `{P : LedgerParams}.
Implicit Types (s : LState) (d : nat) (k : string) (a : AccountFrm).

(** The same account, up to what its caches hold. *)
Record same_account a a' : Prop := {
  same_info : account_info_ a' = account_info_ a;
  same_assets : forall key, (GetAsset asset_trie key a').1 = (GetAsset asset_trie key a).1;
  same_metadata : forall key, (GetMetaData metadata_trie key a').1 = (GetMetaData metadata_trie key a).1 }.

#[export] Instance same_account_preorder : PreOrder same_account.
Proof. split; [done|]. intros a1 a2 a3 [] []. split; congruence. Qed.

(** What is found depends on the cache and the address. *)
Definition found_asset (address : string) (cache : gmap AssetKey (DataCache AssetStore)) key : option AssetStore :=
  match cache !! key with
  | Some r => if decide (action_ r = DEL) then None else Some (data_ r)
  | None => asset_trie address key
  end.
Definition found_metadata (address : string) (cache : gmap string (DataCache KeyPair)) key : option KeyPair :=
  match cache !! key with
  | Some r => if decide (action_ r = DEL) then None else Some (data_ r)
  | None => metadata_trie address key
  end.
Lemma GetAsset_found key a : (GetAsset asset_trie key a).1 = found_asset (GetAccountAddress a) (assets_ a) key.
Proof. unfold GetAsset, found_asset. destruct (_ !! _); [by case_decide|]. by destruct (asset_trie _ _). Qed.
Lemma GetMetaData_found key a : (GetMetaData metadata_trie key a).1 = found_metadata (GetAccountAddress a) (metadata_ a) key.
Proof. unfold GetMetaData, found_metadata. destruct (_ !! _); [by case_decide|]. by destruct (metadata_trie _ _). Qed.

Lemma GetAsset_same key a e a' : GetAsset asset_trie key a = (e, a') -> same_account a a'.
Proof.
  unfold GetAsset. destruct (assets_ a !! key) eqn:E; [by case_decide; intros [= <- <-]|].
  destruct (asset_trie _ key) as [x|] eqn:Ex; intros [= <- <-]; [|done].
  split; [done|intros key'|intros key'; by rewrite !GetMetaData_found]. rewrite !GetAsset_found. unfold found_asset. cbn.
  destruct (decide (key = key')) as [<-|Hne]; [|by rewrite lookup_insert_ne].
  by rewrite lookup_insert_eq, E.
Qed.

Lemma GetMetaData_same key a e a' : GetMetaData metadata_trie key a = (e, a') -> same_account a a'.
Proof.
  unfold GetMetaData. destruct (metadata_ a !! key) eqn:E; [by case_decide; intros [= <- <-]|].
  destruct (metadata_trie _ key) as [x|] eqn:Ex; intros [= <- <-]; [|done].
  split; [done|intros key'; by rewrite !GetAsset_found|intros key']. rewrite !GetMetaData_found. unfold found_metadata. cbn.
  destruct (decide (key = key')) as [<-|Hne]; [|by rewrite lookup_insert_ne].
  by rewrite lookup_insert_eq, E.
Qed.

(** No account has changed and no transaction was triggered. *)
Record still d s s' : Prop := {
  still_view : forall k, option_Forall2 same_account (V d s k) (V d s' k);
  still_stack : map instructions_ (transaction_stack_ s') = map instructions_ (transaction_stack_ s) }.

Lemma view_refl (o : option AccountFrm) : option_Forall2 same_account o o.
Proof. by destruct o; constructor. Qed.

#[export] Instance still_preorder d : PreOrder (still d).
Proof.
  split.
  - intros s. split; [intros k; apply view_refl|done].
  - intros s1 s2 s3 [V1 S1] [V2 S2]. split; [|congruence]. intros k. specialize (V1 k). specialize (V2 k).
    destruct V1; inversion V2; subst; constructor. by etransitivity.
Qed.

Record reads d s s' : Prop := { reads_rel : rel True d s s'; reads_still : still d s s' }.

Lemma reads_refl d s : live d s -> reads d s s.
Proof. intros Hl. split; [by apply rel_refl|done]. Qed.

Lemma reads_trans d s1 s2 s3 : reads d s1 s2 -> reads d s2 s3 -> reads d s1 s3.
Proof. intros [R1 S1] [R2 S2]. split; [by eapply rel_trans|by etransitivity]. Qed.
End Same.

(** ** Computations that only read *)
Section Calm.
Context `{P : LedgerParams} (B : nat -> Prop).
Implicit Types (s : LState) (d : nat) (k : string) (a : AccountFrm).

(** [m] only reads, and what it yields satisfies [R]. *)
Definition calm_at {X} d (m : LM X) (R : X -> Prop) s : Prop :=
  wp (B (length (transaction_stack_ s))) m s (fun x s' => R x /\ reads d s s').
Definition calm {X} d (m : LM X) (R : X -> Prop) : Prop :=
  forall s top, live d s -> at_top d top (transaction_stack_ s) -> calm_at d m R s.

Lemma calm_ret {X} d (x : X) (R : X -> Prop) : R x -> calm d (mret x) R.
Proof. intros Hx s top Hl _. apply wp_end. split; [done|by apply reads_refl]. Qed.

Lemma calm_via {X} d (m : LM X) (R : X -> Prop) s s1 : reads d s s1 -> calm_at d m R s1 ->
  wp (B (length (transaction_stack_ s))) m s1 (fun x s' => R x /\ reads d s s').
Proof.
  unfold calm_at. intros Hr. rewrite (rel_length _ _ _ _ (reads_rel _ _ _ Hr)). intros H.
  eapply wp_post; [exact H|]. intros x s' [Hx Hr']. split; [done|]. by eapply reads_trans.
Qed.

Lemma calm_bind {X Y} d (m : LM X) (K : X -> LM Y) (R : X -> Prop) (R' : Y -> Prop) :
  calm d m R -> (forall x, R x -> calm d (K x) R') -> calm d (m ≫= K) R'.
Proof.
  intros Hm HK s top Hl Htop. apply wp_seq. eapply wp_post; [by eapply Hm|]. cbn beta. intros x s1 [Hx Hr].
  apply calm_via; [done|]. destruct Hr as [Hr _]. eapply (HK x Hx); [by eapply rel_live|by eapply rel_top].
Qed.

(** A change of the frames that triggers nothing. *)
Lemma reads_mod_tx d s i g : live d s -> (forall t, kin True t (g t)) -> (forall t, instructions_ (g t) = instructions_ t) ->
  reads d s (set_stack (alter g i (transaction_stack_ s)) s).
Proof.
  intros Hl Hk Hg. split; [by apply rel_mod_tx|]. split; [intros k; apply view_refl|]. cbn.
  apply list_eq. intros j. rewrite !list_lookup_fmap. destruct (decide (i = j)) as [<-|Hne].
  - rewrite list_lookup_alter_eq. destruct (_ !! i); [|done]. cbn. by rewrite Hg.
  - by rewrite list_lookup_alter_ne.
Qed.

Lemma calm_mod_tx d i g : (forall t, kin True t (g t)) -> (forall t, instructions_ (g t) = instructions_ t) ->
  calm d (mod_tx i g) (fun _ => True).
Proof. intros Hk Hg s top Hl _. right. split; [done|]. by apply reads_mod_tx. Qed.

Lemma kin_step f n t : kin f t (ContractStepInc n t).
Proof. split; try done. exists []. cbn. by rewrite app_nil_r. Qed.

Lemma calm_bottom_step d n : calm d (bottom_step n) (fun _ => True).
Proof. apply calm_mod_tx; [intros t; apply kin_step|done]. Qed.

(** The environment on top. *)
Lemma top_env_run d top s : at_top d top (transaction_stack_ s) -> top_env s = Returns (d, s, []).
Proof.
  intros (l & t & E & Hl & <-). unfold top_env, GetTopTx.
  assert (Hr : (s0 ← hget; get_tx (length (transaction_stack_ s0) - 1)) s = Returns (t, s, [])).
  { erewrite hbind_nil by reflexivity. apply get_tx_run. rewrite E, length_app. cbn.
    replace (length l + 1 - 1)%nat with (length l) by lia. by rewrite list_lookup_middle. }
  by rewrite (hbind_nil _ _ _ t s Hr).
Qed.

Lemma calm_top_env {Y} d (K : nat -> LM Y) (R : Y -> Prop) : calm d (K d) R -> calm d (top_env ≫= K) R.
Proof. intros HK s top Hl Htop. eapply wp_step; [by eapply top_env_run|]. by eapply HK. Qed.

(** An account found is in the buffer. *)
Lemma wp_find_account A d top k {Y} (K : option (loc * AccountFrm) -> LM Y) s (Q : Y -> LState -> Prop) :
  live d s -> at_top d top (transaction_stack_ s) ->
  (forall p s1, live d s1 -> reads d s s1 -> V d s1 = V d s ->
     match p with Some (l, a) => V d s k = Some a /\ pts d s1 k l a | None => V d s k = None end -> wp A (K p) s1 Q) ->
  wp A (find_account k ≫= K) s Q.
Proof.
  intros Hl Htop HK. unfold find_account. apply wp_assoc. eapply wp_step; [by eapply top_env_run|].
  apply wp_assoc, (wp_GetEntry A d k); [done|]. intros p s1 Hl1 Hr HV Hst _ _ Hp.
  assert (Hrd : reads d s s1).
  { split; [done|]. split; [intros k'; rewrite HV; apply view_refl|by rewrite Hst]. }
  destruct p as [l|].
  - destruct Hp as (a & Ha & Hp). apply wp_assoc. eapply post_read; [exact Hp|]. eapply wp_step; [reflexivity|]. by apply HK.
  - eapply wp_step; [reflexivity|]. by apply HK.
Qed.

Lemma calm_find_account {Y} d k (K : option (loc * AccountFrm) -> LM Y) (R : Y -> Prop) :
  calm d (K None) R ->
  (forall l a s top, live d s -> at_top d top (transaction_stack_ s) -> pts d s k l a -> calm_at d (K (Some (l, a))) R s) ->
  calm d (find_account k ≫= K) R.
Proof.
  intros Hn Hs s top Hl Htop. apply (wp_find_account _ d top); [done|done|]. intros p s1 Hl1 Hr _ Hp.
  apply calm_via; [done|]. eapply rel_top in Htop; [|apply Hr]. destruct p as [[l a]|]; [|by eapply Hn].
  destruct Hp as [_ Hp]. by eapply Hs.
Qed.

(** A cached account is written back. *)
Lemma calm_write {Y} d k l a a' (K : unit -> LM Y) (R : Y -> Prop) s top : live d s -> at_top d top (transaction_stack_ s) ->
  pts d s k l a -> same_account a a' -> calm d (K tt) R -> calm_at d (write_account l a' ≫= K) R s.
Proof.
  intros Hl Htop Hp Hsame HK. destruct (live_account _ _ _ _ _ Hl Hp) as [HV Hin].
  apply (wp_write _ d k l a a'); [done|done| |].
  { unfold in_range, GetAccountBalance. by rewrite (same_info _ _ Hsame). }
  intros s1 Hl1 Hr HV1 Hst _ _ _. apply calm_via; [|eapply HK; [done|by rewrite Hst]].
  split; [done|]. split; [|by rewrite Hst]. intros k'. rewrite HV1. unfold upd. case_decide as Hk; [|apply view_refl].
  subst k'. rewrite HV. by constructor.
Qed.
End Calm.

(** ** Settings and clocks *)
Section Settings.
Context `{P : LedgerParams} `{C : ContractParams} (B : nat -> Prop).
Implicit Types (s : LState) (d : nat) (e : Store string Json).

Lemma reads_settings d s e : live d s -> wf e -> length (maps_ e) = length (maps_ (settings_ s)) ->
  reads d s (set_settings e s).
Proof.
  intros Hl Hw Hlen. destruct (rel_refl True d s Hl). split; [by split|]. split; [intros k; apply view_refl|done].
Qed.

(** A new object under a key. *)
Lemma wp_new_setting {Y} d top key v (K : unit -> LM Y) (R : Y -> Prop) s : live d s -> at_top d top (transaction_stack_ s) ->
  calm B d (K tt) R -> calm_at B d (l ← on_settings (alloc v); on_settings (Set_ d key l) ;; K tt) R s.
Proof.
  intros Hl Htop HK. destruct (lv_settings _ _ Hl) as [Hw Hlen].
  destruct (store_new_spec (settings_ s) (S d) key MOD v Hw) as (Hw' & Hlen' & _); [lia|done|].
  eapply wp_step; [reflexivity|]. eapply wp_step; [reflexivity|].
  change (set_settings _ _) with (set_settings (store_new (S d) key MOD v (settings_ s)) s).
  assert (Hr : reads d s (set_settings (store_new (S d) key MOD v (settings_ s)) s)) by by apply reads_settings.
  apply calm_via; [done|]. eapply HK; [eapply rel_live; [exact Hl|apply Hr]|done].
Qed.

Lemma wp_Get_setting {Y} d top key (K : option loc -> LM Y) (R : Y -> Prop) s : live d s -> at_top d top (transaction_stack_ s) ->
  (forall p s1, live d s1 -> at_top d top (transaction_stack_ s1) ->
     match p with Some l => owned (settings_ s1) (S d) key l /\ is_Some (heap_ (settings_ s1) !! l) | None => True end ->
     calm_at B d (K p) R s1) ->
  calm_at B d (on_settings (Get no_setting d key) ≫= K) R s.
Proof.
  intros Hl Htop HK. destruct (lv_settings _ _ Hl) as [Hw Hlen].
  destruct (Get_run (E := ContractParameter) no_setting d key (settings_ s) Hw) as (p & e & Hr & Hw' & [Hlen' _] & _ & Hp); [lia|].
  eapply wp_step; [by apply on_settings_run|].
  assert (Hrd : reads d s (set_settings e s)) by by apply reads_settings.
  apply calm_via; [done|]. apply HK; [eapply rel_live; [exact Hl|apply Hrd]|done|].
  destruct p as [l|]; [|done]. destruct Hp as (Ho & v & Hv & _). split; [done|]. by exists v.
Qed.

Lemma deref_setting s l v : heap_ (settings_ s) !! l = Some v ->
  on_settings (deref (Some l)) s = Returns (v, s, []).
Proof. intros E. unfold on_settings, deref. cbn. rewrite E. by destruct s. Qed.

Lemma calm_UpdateFeeConfig d feeConfig : calm B d (env_UpdateFeeConfig d feeConfig) (fun _ => True).
Proof.
  intros s top Hl Htop. apply (wp_Get_setting d top); [done|done|]. intros p s1 Hl1 Htop1 Hp. destruct p as [l|].
  - destruct Hp as (Ho & v & Hv). eapply wp_step; [by apply deref_setting|].
    destruct (assign_spec (settings_ s1) (S d) feesKey l (merge_members v feeConfig)) as [Hw _]; [apply Hl1|done|by exists v|].
    right. split; [done|]. by apply reads_settings.
  - eapply (wp_new_setting d top feesKey feeConfig (fun _ => mret tt)); [done|done|by apply calm_ret].
Qed.

Lemma calm_GetValidators d : calm B d (env_GetValidators d) (fun _ => True).
Proof.
  intros s top Hl Htop. apply (wp_Get_setting d top); [done|done|]. intros p s1 Hl1 Htop1 Hp. destruct p as [l|].
  - destruct Hp as (_ & v & Hv). unfold calm_at, wp. rewrite (deref_setting _ _ _ Hv). right. split; [done|by apply reads_refl].
  - cbv zeta. eapply (wp_new_setting d top validatorsKey _ (fun _ => mret _)); [done|done|by apply calm_ret].
Qed.

Lemma calm_UpdateNewValidators d validators : calm B d (env_UpdateNewValidators d validators) (fun _ => True).
Proof.
  intros s top Hl Htop. eapply (wp_new_setting d top validatorsKey validators (fun _ => mret tt)); [done|done|by apply calm_ret].
Qed.

(** [IsExpire] of the bottom transaction. *)
Lemma calm_expire {Y} d (K : bool -> LM Y) (R : Y -> Prop) : (forall b, calm B d (K b) R) ->
  calm B d (ptr ← GetBottomTx; r ← IsExpire ptr; let '(expired, ptr) := r : bool * TransactionFrm in
            mod_tx 0 (fun _ => ptr) ;; K expired) R.
Proof.
  intros HK s top Hl Htop. destruct (lv_price _ _ Hl) as (b & Hb & _). apply (wp_get_tx _ 0 b); [done|].
  assert (Hset : forall g x s1, live d s1 -> at_top d top (transaction_stack_ s1) -> transaction_stack_ s1 !! 0%nat = Some b ->
    (forall t, kin True t (g t)) -> (forall t, instructions_ (g t) = instructions_ t) ->
    calm_at B d (mod_tx 0 (fun _ => g b) ;; K x) R s1).
  { intros g x s1 Hl1 Htop1 Hb1 Hk Hg. apply wp_mod. rewrite (alter_insert 0 _ _ b Hb1).
    change (g b) with ((fun t => g t) b). rewrite <- (alter_insert 0 _ _ b Hb1).
    pose proof (reads_mod_tx d s1 0 g Hl1 Hk Hg) as Hr. apply calm_via; [done|].
    eapply HK; [eapply rel_live; [exact Hl1|apply Hr]|eapply rel_top; [apply Hr|exact Htop1]]. }
  assert (Hx : forall t, kin True t (set_result CONTRACT_EXECUTE_EXPIRED t)) by (intros t; by apply kin_set_result).
  unfold IsExpire. cbv zeta. destruct (negb _).
  { eapply wp_step; [reflexivity|]. apply (Hset id); try done. intros t. apply kin_refl. }
  destruct (_ <? _); [eapply wp_step; [reflexivity|]; by apply (Hset (set_result CONTRACT_EXECUTE_EXPIRED))|].
  apply wp_assoc. eapply wp_step; [reflexivity|]. set (s1 := set_ticks _ s).
  assert (Hr : reads d s s1).
  { destruct (rel_refl True d s Hl). split; [by split|]. split; [intros k; apply view_refl|done]. }
  assert (Hl1 : live d s1) by (eapply rel_live; [exact Hl|apply Hr]). apply calm_via; [done|].
  repeat match goal with |- context [if ?x then mret _ else _] => destruct x end;
    (eapply wp_step; [reflexivity|]);
    first [by apply (Hset (set_result CONTRACT_EXECUTE_EXPIRED)) | apply (Hset id); try done; intros t; apply kin_refl].
Qed.
End Settings.

(** ** The engine as the functions see it *)

(** While [repeats] entries of the stack repeat the entry below, a run of the engine may
    fail to return only when [A] holds of the depth. A query only reads. *)
Class EngineOk `{P : LedgerParams} (A : nat -> Prop) (e : Engine) : Prop := {
  query_ok : forall repeats type p d, calm (fun n => A (n + repeats)%nat) d (en_Query e repeats type p) (fun _ => True);
  execute_ok : forall repeats type p d top s, live d s -> at_top d top (transaction_stack_ s) ->
    is_Some (V d s (cp_this_address p)) ->
    wp (A (length (transaction_stack_ s) + repeats)%nat) (en_Execute e repeats type p) s (Post d s) }.

(** The functions that only read, and the one call that traps. *)
Definition reading (f : JsFunction) : bool :=
  match f with
  | StorageStore_ | StorageDel_ | ConfigFee_ | SetValidators_ | PayCoin_ | IssueAsset_ | PayAsset_ | TopicLog_
  | DelegateCall_ | Call_ | Create_ => false
  | _ => true
  end.
Definition traps `{V : V8} (f : JsFunction) (args : list JsValue) : Prop :=
  f = Int64Mul_ /\ int64_operands args = Some (-1, int64_min).

(** What is registered for a query only reads. *)
Lemma registered_reading `{P : LedgerParams} object name f : registered true object name = Some f -> reading f = true.
Proof.
  assert (Hfind : forall l : JsFunctions, Forall (fun e => reading e.2 = true) l -> om_find l name = Some f -> reading f = true).
  { unfold om_find. induction l as [|[k x] l IH]; [done|]. intros Hl. inversion_clear Hl as [|? ? Hx Hl']. cbn.
    case_match; [by intros [= <-]|by apply IH]. }
  unfold registered. repeat case_match; try done; intros [= <-]; (eapply Hfind; [|eassumption]);
    vm_compute; repeat constructor.
Qed.

(** ** The functions *)
Ltac calm_cases :=
  repeat match goal with
  | |- calm _ _ (throws _) _ => by apply calm_ret
  | |- calm _ _ (returns _ _) _ => by apply calm_ret
  | |- calm _ _ (mret _) _ => by apply calm_ret
  | |- calm _ _ (mbind (fun _ => _) (bottom_step _)) _ => apply (calm_bind _ _ _ _ _ _ (calm_bottom_step _ _ _)); intros _ _
  | |- calm _ _ (if ?b then _ else _) _ => destruct b
  | |- calm _ _ (match ?x with _ => _ end) _ => destruct x
  end.

Section Reads.
Context `{P : LedgerParams} `{V : V8} `{C : ContractParams} (blk : BlockInfo) (A : nat -> Prop) (engine : Engine).
Context {E : EngineOk A engine}.
Implicit Types (c : V8Contract) (args : list JsValue) (d : nat).

Abbreviation only_reads m c d := (calm (fun n => A (n + S stack_repeats)%nat) d m (fun r : HostResult * V8Contract => r.2 = c)).

(** Reading the account only. *)
Lemma calm_account {Y} B d k (K : option (loc * AccountFrm) -> LM Y) (R : Y -> Prop) :
  (forall p, calm B d (K p) R) -> calm B d (find_account k ≫= K) R.
Proof.
  intros HK. apply calm_find_account; [apply HK|]. intros l a s top Hl Htop _. by eapply HK.
Qed.

Lemma calm_find_contract {Y} B d k (K : option Contract -> LM Y) (R : Y -> Prop) :
  (forall p, calm B d (K p) R) -> calm B d (find_contract k ≫= K) R.
Proof.
  intros HK. apply (calm_bind _ _ _ _ (fun _ => True)); [|by intros x _]. unfold find_contract. apply calm_account.
  intros p. by calm_cases.
Qed.

Lemma reads_nested_query parameter c args d : only_reads (nested_query engine parameter c args) c d.
Proof.
  unfold nested_query. calm_cases. apply calm_find_contract. intros p. calm_cases.
  apply (calm_bind _ _ _ _ (fun _ => True)); [apply query_ok|]. intros r _. calm_cases.
Qed.

Lemma reads_ContractQuery c args d : 1001 < ledger_version -> only_reads (CallBackContractQuery engine c args) c d.
Proof.
  intros Hv. unfold CallBackContractQuery, CHECK_VERSION_GT_1001. rewrite (proj2 (Z.ltb_lt _ _) Hv).
  apply reads_nested_query.
Qed.

Lemma reads_GetAccountAsset c args d : only_reads (CallBackGetAccountAsset c args) c d.
Proof.
  unfold CallBackGetAccountAsset. calm_cases. apply calm_find_account; [by calm_cases|]. intros l a s top Hl Htop Hp.
  destruct (GetAsset _ _ a) as [asset a'] eqn:Ea. apply GetAsset_same in Ea.
  eapply calm_write; [done|done|exact Hp|done|]. by calm_cases.
Qed.

Lemma reads_metadata B l a key c d s k top : live d s -> at_top d top (transaction_stack_ s) -> pts d s k l a ->
  calm_at B d (read_metadata l a key c) (fun r => r.2 = c) s.
Proof.
  intros Hl Htop Hp. unfold read_metadata. destruct (GetMetaData _ _ a) as [kp a'] eqn:Ea. apply GetMetaData_same in Ea.
  eapply calm_write; [done|done|exact Hp|done|]. by calm_cases.
Qed.

Lemma reads_StorageLoad c args d : only_reads (CallBackStorageLoad c args) c d.
Proof.
  unfold CallBackStorageLoad. calm_cases. intros s top Hl Htop. apply wp_get. revert s top Hl Htop.
  assert (Hgo : forall n, only_reads (mod_tx n (ContractStepInc 100) ;; p ← find_account (this_address c);
    match p with None => returns (JsBoolean false) c
    | Some (l, account_frm) => read_metadata l account_frm (ToCString (arg 0 args)) c end) c d).
  { intros n. apply (calm_bind _ _ _ _ (fun _ => True)); [apply calm_mod_tx; [intros t; apply kin_step|done]|]. intros _ _.
    apply calm_find_account; [by calm_cases|]. intros. by eapply reads_metadata. }
  intros s top Hl Htop. by eapply Hgo.
Qed.

Lemma reads_int64 (f : Z -> Z -> LM (option JsValue)) c args d :
  (forall x y, int64_operands args = Some (x, y) -> is_s64 x -> is_s64 y ->
     calm (fun n => A (n + S stack_repeats)%nat) d (f x y) (fun _ => True)) ->
  only_reads (int64_call f c args) c d.
Proof.
  intros Hf. unfold int64_call. destruct (int64_operands args) as [[x y]|] eqn:Eo; [|by calm_cases].
  assert (is_s64 x /\ is_s64 y) as [Hx Hy].
  { unfold int64_operands in Eo. repeat case_match; simplify_eq; split; by eapply SafeSto_shape64. }
  apply (calm_bind _ _ _ _ (fun _ => True)); [by apply Hf|]. intros r _. by calm_cases.
Qed.

Lemma reads_Int64Mul c args d : ~ traps Int64Mul_ args -> only_reads (CallBackInt64Mul c args) c d.
Proof.
  intros Ht. apply reads_int64. intros x y Eo Hx Hy.
  assert (Hr : SafeIntMul x y x = Returns (in_s64 (x * y), if in_s64 (x * y) then x * y else x)).
  { apply SafeIntMul_spec; [done|done|]. intros [-> ->]. by apply Ht. }
  apply (calm_bind _ _ _ _ (fun _ => True)).
  - intros s top Hl _. unfold calm_at, wp, on_outcome. rewrite Hr. right. split; [done|by apply reads_refl].
  - intros [ok product] _. by calm_cases.
Qed.

Lemma reads_CheckTime heap stack c d : only_reads (InternalCheckTime heap stack c) c d.
Proof.
  unfold InternalCheckTime.
  do 3 (apply (calm_bind _ _ _ _ (fun _ => True)); [apply calm_mod_tx; [intros t; split; try done; exists []; cbn; by rewrite app_nil_r|done]|intros _ _]).
  apply (calm_expire _ d (fun expired => if expired then throws c else returns JsUndefined c)). intros b. by calm_cases.
Qed.

(** Every function that reads leaves the ledger as it is. *)
Lemma invoke_reads f heap stack c args d : 1001 < ledger_version -> reading f = true -> ~ traps f args ->
  only_reads (invoke blk engine f heap stack c args) c d.
Proof.
  intros Hv Hf Ht. destruct f; try discriminate Hf; cbn [invoke];
    try (by apply reads_nested_query); try (by apply reads_ContractQuery); try (by apply reads_StorageLoad);
    try (by apply reads_GetAccountAsset); try (by apply reads_Int64Mul); try (by apply reads_CheckTime);
    try (by apply reads_int64; intros x y _ _ _; calm_cases).
  all: unfold CallBackLog, CallBackGetBalance, CallBackGetBlockHash, CallBackStoI64Check, CallBackToBaseUnit,
    CallBackAssert, CallBackAddressValidCheck, CallBackGetContractProperty, CallBackSha256, CallBackVerify, CallBackToAddress,
    CallBackGetAccountMetadata, CallBackGetValidators; calm_cases;
    try (by apply calm_account; intros p; cbv zeta; calm_cases).
  - apply calm_top_env. apply (calm_bind _ _ _ _ (fun _ => True)); [apply calm_GetValidators|]. intros j _. by calm_cases.
  - apply calm_find_account; [by calm_cases|]. intros. by eapply reads_metadata.
Qed.
End Reads.
