(* ===== verification/ContractFacts.v ===== *)
(** * Contracts run to their end

    The functions that write and the engine: a contract leaves the stacks, the other
    environments and the range of every balance as they were, and a failure of a
    transaction it sends cannot be hidden. A query changes nothing. *)
From S2P Require Import Prelude Uint128 Uint128Facts Strings StringsFacts OrdMap AtomMap AtomMapFacts Account Chain TxFrame Operation Transaction Ledger EnvFacts LedgerSpec OperationFacts CoinFacts TransactionFacts BlockSpec V8 ContractCalls ContractEngine ContractInv ContractTx ContractReads.
Import U128.

Open Scope string_scope.
Open Scope Z_scope.

(** ** What a contract does *)
Section Works.
Context `{P : LedgerParams}.
Implicit Types (s : LState) (d : nat) (c : V8Contract) (B : nat -> Prop).

(** The contract object keeps its parameters, a failure stays, and only a contract that
    is not read-only changes the ledger. *)
Record acts d s c s' c' : Prop := {
  acts_readonly : readonly_ c' = readonly_ c;
  acts_parameter : parameter_ c' = parameter_ c;
  acts_code : 0 <= code_ c -> 0 <= code_ c';
  acts_kept : code_ c' = SUCCESS -> code_ c = SUCCESS;
  acts_rel : rel (code_ c' = SUCCESS) d s s';
  acts_still : readonly_ c = true -> reads d s s' }.

Lemma acts_reads d s c s' : reads d s s' -> acts d s c s' c.
Proof. intros Hr. split; try done. eapply rel_weaken; [apply Hr|done]. Qed.

Lemma acts_trans d s1 c1 s2 c2 s3 c3 : acts d s1 c1 s2 c2 -> acts d s2 c2 s3 c3 -> acts d s1 c1 s3 c3.
Proof.
  intros [R1 Q1 C1 K1 L1 S1] [R2 Q2 C2 K2 L2 S2]. split; [congruence|congruence|auto|auto| |].
  - eapply rel_trans; [exact L1|exact L2|auto|done].
  - intros Hc. eapply reads_trans; [by apply S1|apply S2; congruence].
Qed.

(** What differs in the contract object only. *)
Lemma acts_object d s c s' c' c2 : acts d s c s' c' -> readonly_ c2 = readonly_ c' -> parameter_ c2 = parameter_ c' ->
  (0 <= code_ c' -> 0 <= code_ c2) -> (code_ c2 = SUCCESS -> code_ c' = SUCCESS) -> acts d s c s' c2.
Proof.
  intros [R1 Q1 C1 K1 L1 S1] R2 Q2 C2 K2. split; [congruence|congruence|auto|auto| |done]. by eapply rel_weaken.
Qed.

(** A step of a contract [c] whose account is there; it yields a value with the contract
    object after it. *)
Definition there d s c : Prop := readonly_ c = false -> is_Some (V d s (this_address c)).
Definition works_as B {X} (object : X -> V8Contract) (m : LM X) c : Prop := forall d s top,
  live d s -> at_top d top (transaction_stack_ s) -> there d s c ->
  wp (B (length (transaction_stack_ s))) m s (fun r s' => acts d s c s' (object r)).

Lemma there_acts d s c s' c' : there d s c -> acts d s c s' c' -> there d s' c'.
Proof.
  intros Ht [Hro Hp _ _ Hr _] Hc. unfold this_address. rewrite Hp. apply (rel_keep _ _ _ _ Hr), Ht. congruence.
Qed.

Lemma works_bind B {X Y} (o : X -> V8Contract) (o' : Y -> V8Contract) (m : LM X) (K : X -> LM Y) c : works_as B o m c ->
  (forall r, readonly_ (o r) = readonly_ c -> parameter_ (o r) = parameter_ c -> works_as B o' (K r) (o r)) ->
  works_as B o' (m ≫= K) c.
Proof.
  intros Hm HK d s top Hl Htop Ht. apply wp_seq. eapply wp_post; [by eapply Hm|]. cbn beta. intros r s1 Ha.
  pose proof (acts_rel _ _ _ _ _ Ha) as Hr. rewrite <- (rel_length _ _ _ _ Hr).
  eapply wp_post.
  - eapply HK; [apply Ha|apply Ha|by eapply rel_live|by eapply rel_top|by eapply there_acts].
  - intros y s2 Ha2. by eapply acts_trans.
Qed.

Lemma works_calm B {X} (o : X -> V8Contract) (m : LM X) c : (forall d, calm B d m (fun r => o r = c)) -> works_as B o m c.
Proof.
  intros Hm d s top Hl Htop _. eapply wp_post; [by eapply Hm|]. intros r s' [-> Hr]. by apply acts_reads.
Qed.

Lemma works_ret B {X} (o : X -> V8Contract) (x : X) c : o x = c -> works_as B o (mret x) c.
Proof. intros Hx. apply works_calm. intros d. by apply calm_ret. Qed.

Lemma works_object B {X} (o : X -> V8Contract) (x : X) c : readonly_ (o x) = readonly_ c -> parameter_ (o x) = parameter_ c ->
  (0 <= code_ c -> 0 <= code_ (o x)) -> (code_ (o x) = SUCCESS -> code_ c = SUCCESS) -> works_as B o (mret x) c.
Proof.
  intros H1 H2 H3 H4 d s top Hl _ _. apply wp_end. eapply acts_object; [apply acts_reads, reads_refl, Hl|done..].
Qed.

Lemma works_after B {X Y} (o : Y -> V8Contract) (m : LM X) (K : X -> LM Y) c : (forall d, calm B d m (fun _ => True)) ->
  (forall x, works_as B o (K x) c) -> works_as B o (m ≫= K) c.
Proof.
  intros Hm HK d s top Hl Htop Ht. apply wp_seq. eapply wp_post; [by eapply Hm|]. cbn beta. intros x s1 [_ Hr].
  pose proof (acts_reads _ _ c _ Hr) as Ha. destruct Hr as [Hr _]. rewrite <- (rel_length _ _ _ _ Hr).
  eapply wp_post; [eapply HK; [by eapply rel_live|by eapply rel_top|by eapply there_acts]|].
  intros y s2 Ha2. by eapply acts_trans.
Qed.
End Works.
Abbreviation works B m c := (works_as B snd m c).

Ltac works_cases :=
  repeat match goal with
  | |- works _ (throws _) _ => by apply works_ret
  | |- works _ (returns _ _) _ => by apply works_ret
  | |- works _ (mbind (fun _ => _) (bottom_step _)) _ => apply works_after; [intros ?; apply calm_bottom_step|intros _]
  | H : readonly_ ?c = false |- works _ (if readonly_ ?c then _ else _) _ => rewrite H
  | |- works _ (if ?b then _ else _) _ => destruct b
  end.

(** ** The functions that write *)
Section Writes.
Context `{P : LedgerParams} `{V : V8} `{C : ContractParams} (blk : BlockInfo) (A : nat -> Prop) (engine : Engine).
Context {E : EngineOk A engine} (exec : forall p, Execute p = en_Execute engine stack_repeats TYPE_V8 p).
Context (reserve : 0 <= cfg_base_reserve <= int64_max) (version : 1002 < ledger_version)
  (db : good AccountFromDB) (checks : forall code n, 0 <= SourceCodeCheck code n).
Implicit Types (s : LState) (d : nat) (c : V8Contract).

Abbreviation B := (fun n => A (n + S stack_repeats)%nat).

(** The code of a run becomes the code of the contract. *)
Lemma acts_fail d s c s' code r : rel (code = SUCCESS) d s s' -> 0 < code -> readonly_ c = false ->
  acts d s c s' (set_js_result r (set_code code c)).
Proof.
  intros Hr Hc Hro. assert (code <> SUCCESS) by (unfold SUCCESS; lia). split; cbn; try done; [lia|congruence].
Qed.
Lemma acts_success d s c s' : rel True d s s' -> readonly_ c = false -> acts d s c s' c.
Proof. intros Hr Hro. split; try done; [by eapply rel_weaken|congruence]. Qed.

Lemma works_code c (m : LM Z) (answer : Json -> JsValue) : readonly_ c = false ->
  (forall d s top, live d s -> at_top d top (transaction_stack_ s) -> is_Some (EnvFacts.V d s (this_address c)) ->
     wp (B (length (transaction_stack_ s))) m s (Post d s)) ->
  works B (code ← m; s ← hget; if 0 <? code then throws (set_js_result (contract_result_ s) (set_code code c))
           else returns (answer (contract_result_ s)) c) c.
Proof.
  intros Hro Hm d s top Hl Htop Ht. apply wp_seq. eapply wp_post; [by eapply Hm; [..|apply Ht]|]. cbn beta.
  intros code s1 [Hc Hr]. apply wp_get. destruct (Z.ltb_spec 0 code); apply wp_end.
  - by apply acts_fail.
  - apply acts_success; [|done]. eapply rel_weaken; [exact Hr|]. intros _. unfold SUCCESS. lia.
Qed.

Lemma runs : runs_contracts (fun n => A (n + stack_repeats)%nat).
Proof. intros p d me s Hl Htop Hthis. rewrite exec. by eapply execute_ok. Qed.

Lemma reads_result d s r : live d s -> reads d s (set_contract_result r s).
Proof. intros Hl. destruct (rel_refl True d s Hl). split; [by split|]. split; [intros k; apply view_refl|done]. Qed.

Lemma works_send ope answer c : readonly_ c = false -> typed_op ope -> works B (send blk ope answer c) c.
Proof.
  intros Hro Hty. unfold send. apply works_after.
  { intros d s top Hl _. right. split; [done|by apply reads_result]. }
  intros _. apply works_code; [done|]. intros d s top Hl Htop Hthis.
  rewrite Nat.add_succ_r. change (S (length (transaction_stack_ s) + stack_repeats)) with (S (length (transaction_stack_ s)) + stack_repeats)%nat.
  eapply (wp_DoTransaction blk _ runs); try done. by constructor.
Qed.

Lemma typed_zero ope : pc_amount (op_pay_coin ope) = 0 -> ca_init_balance (op_create_account ope) = 0 -> typed_op ope.
Proof. intros E1 E2. by split; [rewrite E1|rewrite E2]. Qed.

Lemma amount_typed v n : amount_arg v = Some n -> is_s64 n /\ 0 <= n.
Proof.
  unfold amount_arg. destruct (Strings.SafeStoi64 _) as [m|] eqn:E'; [|done].
  destruct (Z.ltb_spec m 0); [done|]. intros [= <-]. split; [|done]. by eapply SafeSto_shape64.
Qed.

Lemma works_amount v (K : Z -> LM (HostResult * V8Contract)) c : (forall n, is_s64 n -> works B (K n) c) ->
  works B (match amount_arg v with None => throws c | Some n => K n end) c.
Proof.
  intros HK. destruct (amount_arg v) as [n|] eqn:E'; [|works_cases]. apply HK. by apply amount_typed in E' as [? _].
Qed.

Lemma works_DelegateCall c args : readonly_ c = false -> works B (CallBackDelegateCall engine c args) c.
Proof.
  intros Hro. unfold CallBackDelegateCall. works_cases. apply works_after; [intros d|].
  { unfold find_contract. apply calm_account. intros p. by calm_cases. }
  intros [contract|]; [|works_cases]. apply works_code; [done|]. intros d s top Hl Htop Hthis. by eapply execute_ok.
Qed.

Lemma works_parsed x (K : Json -> nat -> LM unit) c :
  (forall j d, calm B d (K j d) (fun _ => True)) ->
  works B (match parse_json x with None => throws c | Some json => d ← top_env; K json d ;; returns (JsBoolean true) c end) c.
Proof.
  intros HK. destruct (parse_json x) as [j|]; [|works_cases]. apply works_calm. intros d. apply calm_top_env.
  apply (calm_bind _ _ _ _ (fun _ => True)); [apply HK|]. intros _ _. by calm_cases.
Qed.

(** Every function keeps what holds while contracts run. *)
Lemma invoke_works f heap stack c args : (readonly_ c = true -> reading f = true) -> ~ traps f args ->
  works B (invoke blk engine f heap stack c args) c.
Proof.
  intros Hf Ht. destruct (reading f) eqn:Er.
  { apply works_calm. intros d. apply (invoke_reads blk A engine); [lia|done|done]. }
  assert (Hro : readonly_ c = false) by (destruct (readonly_ c); [by discriminate Hf|done]).
  destruct f; try discriminate Er; cbn [invoke]; unfold CallBackStorageStore, CallBackStorageDel, contract_SetMetaData,
    CallBackConfigFee, CallBackSetValidators, CallBackPayCoin, CallBackIssueAsset, CallBackPayAsset, CallBackTopicLog,
    CallBackCall, CallBackCreate; cbv zeta; try (by apply works_DelegateCall); works_cases;
    try (apply works_amount; intros n Hn).
  all: try (apply works_parsed; intros; first [apply calm_UpdateFeeConfig | apply calm_UpdateNewValidators]).
  all: apply works_send; [done|]; try (by apply typed_zero).
  - by split.
  - destruct (_ && _); [by split|by apply typed_zero].
  - by split.
Qed.
End Writes.

(** ** Scripts *)

(** A script that calls at most [n] functions, whatever they answer, and never the one
    product of integers that traps. *)
Fixpoint behaves `{V : V8} (n : nat) (st : js_state) : Prop :=
  match js_next st with
  | JsCall _ name args _ _ resume =>
      match n with
      | O => False
      | S m => (name = "int64Mul" -> int64_operands args <> Some (-1, int64_min)) /\ forall h, behaves m (resume h)
      end
  | _ => True
  end.
Definition programs_behave `{V : V8} (n : nat) : Prop :=
  (forall st source st', js_compile st source = Some st' -> behaves n st')
  /\ (forall st name start input, js_function st name = Some start -> behaves n (start input)).

(** The name under which the product is registered. *)
Lemma registered_Mul `{P : LedgerParams} readonly object name :
  registered readonly object name = Some Int64Mul_ -> name = "int64Mul".
Proof.
  assert (Hfind : forall l : JsFunctions, Forall (fun e => e.2 = Int64Mul_ -> e.1 = "int64Mul") l ->
    om_find l name = Some Int64Mul_ -> name = "int64Mul").
  { induction l as [|[k x] l IH]; [done|]. intros Hl. inversion_clear Hl as [|? ? Hx Hl']. cbn.
    destruct (key_eqb_spec name k) as [->|_]; [|by apply IH]. intros [= ->]. by apply Hx. }
  unfold registered. repeat case_match; try done; intros Hf; simplify_eq; (eapply Hfind; [|eassumption]);
    vm_compute; repeat constructor; discriminate.
Qed.

Section Run.
Context `{P : LedgerParams} `{V : V8} `{C : ContractParams} (blk : BlockInfo) (A : nat -> Prop) (engine : Engine).
Context {E : EngineOk A engine} (exec : forall p, Execute p = en_Execute engine stack_repeats TYPE_V8 p).
Context (reserve : 0 <= cfg_base_reserve <= int64_max) (version : 1002 < ledger_version)
  (db : good AccountFromDB) (checks : forall code n, 0 <= SourceCodeCheck code n).
Context (steps fuel : nat) (programs : programs_behave steps) (enough : (steps < fuel)%nat).
Implicit Types (s : LState) (d : nat) (c : V8Contract).

Abbreviation B := (fun n => A (n + S stack_repeats)%nat).

Lemma run_works n : forall f c st, behaves n st -> (n < f)%nat -> works B (run blk engine f c st) c.
Proof.
  induction n as [|n IH]; intros [|f] c st Hst Hf; try lia; cbn [run]; cbn [behaves] in Hst;
    destruct (js_next st) as [v st'| |object name args heap stack resume]; try (by apply works_ret); [done|].
  destruct Hst as [Hmul Hres]. apply (works_bind _ snd).
  - destruct (registered (readonly_ c) object name) as [fn|] eqn:Er; [|by apply works_ret].
    apply (invoke_works blk A engine exec); try done.
    + intros Hro. rewrite Hro in Er. by eapply registered_reading.
    + intros [-> Ht]. apply registered_Mul in Er. by apply Hmul.
  - intros [h c'] _ _. cbn. apply IH; [done|lia].
Qed.

Lemma run_script_works c st source : works B (run_script blk engine fuel c st source) c.
Proof.
  unfold run_script. destruct (js_compile st _) as [st'|] eqn:Es; [|by apply works_ret].
  apply (works_bind _ snd); [apply (run_works steps); [by eapply programs|done]|]. intros r _ _. by apply works_ret.
Qed.

Lemma call_works c st name start : js_function st name = Some start -> works B (call_function blk engine fuel c start) c.
Proof.
  intros Hs. unfold call_function. apply (works_bind _ snd); [apply (run_works steps); [by eapply programs|done]|].
  intros r _ _. by apply works_ret.
Qed.

Lemma works_failed c code : 0 < code -> works_as B id (mret (set_code code c)) c.
Proof. intros Hc. apply works_object; cbn; try done; unfold SUCCESS; lia. Qed.

Lemma ExecuteCode_works c : works_as B id (ExecuteCode blk engine fuel c) c.
Proof.
  assert (Hgt : CHECK_VERSION_GT_1001 = true) by (unfold CHECK_VERSION_GT_1001; lia).
  assert (Hunset : forall c, works_as B id (mret (if code_ c =? 0 then set_code CONTRACT_EXECUTE_FAIL c else c)) c).
  { intros c0. destruct (Z.eqb_spec (code_ c0) 0); [by apply works_failed|by apply works_ret]. }
  unfold ExecuteCode. rewrite Hgt. cbv zeta. apply (works_bind _ snd); [apply run_script_works|].
  intros [[[[v st]|]|] c1] _ _; cbn [snd]; try (by apply works_failed).
  apply (works_bind _ snd); [apply run_script_works|].
  intros [[[[v2 st2]|]|] c2] _ _; cbn [snd]; [|by apply Hunset|by apply works_failed].
  destruct (js_function st2 _) as [start|] eqn:Es; [|by apply works_failed].
  apply (works_bind _ snd); [by eapply call_works|]. intros [[v3|] c3] _ _; cbn [snd]; [by apply works_object|by apply Hunset].
Qed.

(** A query only reads. *)
Lemma calm_works d {X} (m : LM (X * V8Contract)) c : readonly_ c = true -> works B m c -> calm B d m (fun r => readonly_ r.2 = true).
Proof.
  intros Hro Hm s top Hl Htop. eapply wp_post; [eapply Hm; [done|done|]; unfold there; congruence|].
  intros r s' Ha. split; [rewrite <- Hro; apply Ha|by apply Ha].
Qed.

Lemma Query_reads d c : readonly_ c = true -> calm B d (Query blk engine fuel c) (fun _ => True).
Proof.
  intros Hro. unfold Query. apply (calm_bind _ _ _ _ (fun r => readonly_ r.2 = true)); [apply (calm_works _ _ c Hro), run_script_works|].
  intros [[[[v st]|]|] c1] Hc1; cbn in Hc1; try (by apply calm_ret).
  apply (calm_bind _ _ _ _ (fun r => readonly_ r.2 = true)); [apply (calm_works _ _ c1 Hc1), run_script_works|].
  intros [[[[v2 st2]|]|] c2] Hc2; cbn in Hc2; try (by apply calm_ret).
  destruct (js_function st2 _) as [start|] eqn:Es; [|by apply calm_ret].
  apply (calm_bind _ _ _ _ (fun r => readonly_ r.2 = true)); [by eapply (calm_works _ _ c2 Hc2), call_works|].
  intros r _. by apply calm_ret.
Qed.
End Run.

(** ** The engine *)
Section Engine.
Context (P : LedgerParams) `{V : V8} `{C : ContractParams} (blk : BlockInfo).
Context (reserve : 0 <= cfg_base_reserve <= int64_max) (version : 1002 < ledger_version) (db : good AccountFromDB).
Context (steps : nat) (programs : programs_behave steps).
Implicit Types (s : LState) (d : nat) (e : Engine).

(** The accounts do not depend on how contracts run. *)
Lemma live_with e r d s : @live (with_engine P e r) d s <-> live d s.
Proof. split; intros []; by split. Qed.
Lemma rel_with e r f d s s' : @rel (with_engine P e r) f d s s' <-> rel f d s s'.
Proof. split; intros []; by split. Qed.
Lemma view_with e r o o' : option_Forall2 (@same_account (with_engine P e r)) o o' <-> option_Forall2 same_account o o'.
Proof. split; intros [a a' []|]; constructor; by split. Qed.
Lemma reads_with e r d s s' : @reads (with_engine P e r) d s s' <-> reads d s s'.
Proof.
  split; intros [Hr [Hv Hs]]; (split; [by apply (rel_with e r)|]); (split; [|done]); intros k;
    [exact (proj1 (view_with e r _ _) (Hv k))|exact (proj2 (view_with e r _ _) (Hv k))].
Qed.

Lemma engine_with A e e' r : EngineOk A e -> @EngineOk (with_engine P e' r) A e.
Proof.
  intros [Hq Hx]. split.
  - intros repeats type p d s top Hl Htop. apply live_with in Hl. eapply wp_post; [by eapply Hq|].
    intros x s' [_ Hr]. split; [done|]. by apply reads_with.
  - intros repeats type p d top s Hl Htop Ht. apply live_with in Hl. eapply wp_post; [by eapply Hx|].
    intros x s' [Hc Hr]. split; [done|]. by apply rel_with.
Qed.

(** Fuel for the depth: too little only where a run may fail to return. *)
Definition short (fuel depth : nat) : Prop := (fuel < 1 \/ fuel + depth < steps + 6)%nat.

Lemma checks_code code n : 0 <= Manager_SourceCodeCheck code n.
Proof. unfold Manager_SourceCodeCheck, V8_SourceCodeCheck. by repeat case_match. Qed.

Lemma too_deep_run `{LedgerParams} s : 1002 < ledger_version ->
  too_deep s = Returns (4 <? Z.of_nat (length (transaction_stack_ s) + stack_repeats), s, []).
Proof. intros Hv. unfold too_deep, CHECK_VERSION_GT_1001. by rewrite (proj2 (Z.ltb_lt 1001 _)) by lia. Qed.

Lemma engine_ok fuel : EngineOk (short fuel) (engine P blk fuel).
Proof.
  induction fuel as [|fuel IH]; [by split; intros; left; left; lia|]. split.
  - intros repeats type p d s top Hl Htop. destruct (decide (S fuel + (length (transaction_stack_ s) + repeats) < steps + 6)%nat) as [Hs|Hs].
    { left. by right. }
    cbn [engine en_Query]. unfold Manager_Query. eapply wp_step; [by apply too_deep_run|]. cbn [stack_repeats with_engine].
    destruct (Z.ltb_spec 4 (Z.of_nat (length (transaction_stack_ s) + repeats))) as [Hd|Hd].
    { apply wp_end. split; [done|]. by apply reads_refl. }
    destruct (negb _); [apply wp_end; split; [done|by apply reads_refl]|].
    pose proof (engine_with _ _ (engine P blk fuel) repeats IH) as E.
    eapply wp_imp.
    + eapply (Query_reads (P := with_engine P (engine P blk fuel) repeats) blk _ (engine P blk fuel)); try done; [apply checks_code|lia|].
      by apply live_with.
    + cbn. unfold short. lia.
    + intros x s' [_ Hr]. split; [done|]. by eapply reads_with.
  - intros repeats type p d top s Hl Htop Hthis. destruct (decide (S fuel + (length (transaction_stack_ s) + repeats) < steps + 6)%nat) as [Hs|Hs].
    { left. by right. }
    cbn [engine en_Execute]. unfold Manager_Execute. eapply wp_step; [by apply too_deep_run|]. cbn [stack_repeats with_engine].
    assert (Hnull : rel True d s (set_contract_result JNull s)) by by apply reads_result.
    destruct (Z.ltb_spec 4 (Z.of_nat (length (transaction_stack_ s) + repeats))) as [Hd|Hd].
    { apply wp_mod, wp_end. split; [done|]. by eapply rel_weaken. }
    destruct (negb _); [apply wp_mod, wp_end; split; [done|by eapply rel_weaken]|].
    pose proof (engine_with _ _ (engine P blk fuel) repeats IH) as E.
    apply wp_seq. eapply wp_imp.
    + eapply (ExecuteCode_works (P := with_engine P (engine P blk fuel) repeats) blk _ (engine P blk fuel)); try done; [apply checks_code|lia|by apply live_with|intros _; exact Hthis].
    + cbn. unfold short. lia.
    + cbn beta. intros c s1 Ha. apply wp_mod, wp_end. unfold id in Ha. split; [by apply Ha|].
      pose proof (acts_rel _ _ _ _ _ Ha) as Hr. apply rel_with in Hr. destruct Hr. by split.
Qed.

(** The ledger with contracts runs them. *)
Lemma ledger_runs fuel : runs_contracts (P := contract_ledger P blk fuel) (fun n => short fuel (n + 0)).
Proof. by apply (runs (P := contract_ledger P blk fuel) _ (engine P blk fuel) (E := engine_with _ _ _ _ (engine_ok fuel))). Qed.
End Engine.

Lemma wp_returns A {X} (m : LM X) s Q : wp A m s Q -> ~ A -> exists x s' es, m s = Returns (x, s', es) /\ Q x s'.
Proof. intros [Ha|H] HA; [done|]. destruct (m s) as [[[x s'] es]|]; [eauto|done]. Qed.

(** A state at the start of a block with one transaction on the stack. *)
Lemma live_fresh `{P : LedgerParams} s t : env_ s = empty_store -> settings_ s = empty_store -> transaction_stack_ s = [t] ->
  good AccountFromDB -> 0 <= GetGasPrice t <= int64_max -> live 0 s.
Proof.
  intros He Hse Hst Hg Hp. destruct (empty_env s He) as (Hok & HV & _). split; [done|by rewrite He|by rewrite Hse; split; [apply empty_wf|]| |].
  - by rewrite HV.
  - exists t. by rewrite Hst.
Qed.

(** ** A small engine to try contracts on

    A script is the list of its calls; it ends at the first exception. *)
Module Toy.
Inductive script := Loaded (source : string) | Running (l : list (string * string * list JsValue)) | Stopped.
Definition calls (source : string) : list (string * string * list JsValue) :=
  if bool_decide (source = "A") then [("Chain", "payCoin", [JsString "B"; JsString "100"])]
  else if bool_decide (source = "B") then [("Origin", "payCoin", [JsString "alice"; JsString "10"])]
  else if bool_decide (source = "Q") then [("Chain", "getBalance", [JsString "alice"]); ("Chain", "payCoin", [JsString "B"; JsString "100"])]
  else [].
Definition next (st : script) : js_event script :=
  match st with
  | Loaded source => JsReturn JsUndefined (Loaded source)
  | Running [] => JsReturn (JsBoolean true) (Running [])
  | Running ((object, name, args) :: l) =>
      JsCall object name args 0 0 (fun h => match h with HReturn _ => Running l | HThrow => Stopped end)
  | Stopped => JsUncaught
  end.
#[global] Instance v8 : V8 := {|
  js_state := script;
  js_context := fun _ => Loaded "";
  js_compile := fun _ source => Some (Loaded source);
  js_next := next;
  js_function := fun st _ => match st with Loaded source => Some (fun _ => Running (calls source)) | _ => None end;
  number_text := fun _ => "0"; decode_utf8 := fun s => s; js_of_json := fun _ => JsUndefined; jslint := None |}.
#[global] Instance libraries : ContractParams := {|
  parse_json := fun _ => None; V8.Sha256 := fun s => s; Base64Decode := fun s => s;
  PublicKey_Verify := fun _ _ _ => false; ledger_hash := fun _ => None; current_validators := [] |}.

(** Two contracts and their user; the fees go to the contract of the validators. *)
Definition account (name code : string) (balance : Z) : Account :=
  MkAccount name 0 (MkPriv 1 [] (Some (MkThreshold 1 []))) "" ""
    (if bool_decide (code = "") then None else Some (MkContract 0 code)) balance.
Definition accounts (a : string) : option Account :=
  if bool_decide (a = "alice") then Some (account "alice" "" 1000000)
  else if bool_decide (a = "A") then Some (account "A" "A" 500)
  else if bool_decide (a = "B") then Some (account "B" "B" 500)
  else if bool_decide (a = CONTRACT_DPOS_ADDRESS) then Some (account a "" 0)
  else None.
Definition ledger : LedgerParams := {|
  IsAddressValid := fun a => negb (empty a); account_tree := accounts;
  asset_trie := fun _ _ => None; metadata_trie := fun _ _ => None;
  ledger_version := 1003; last_closed_seq := 9; cfg_base_reserve := 10; cfg_gas_price := 1; forbid_addrs := [];
  self_chain_id := 1; SourceCodeCheck := fun _ _ => 0; contract_address := fun a _ _ => (a ++ "-contract")%string;
  ByteSize := fun _ => 200; tx_hash := fun _ => "hash"; pubkey_valid := fun _ => true; pubkey_address := fun k => k;
  Chain.Verify := fun _ sign key => bool_decide (sign = key); clock := fun n => Z.of_nat n;
  GetValidators := fun _ => Some ["v1"; "v2"; "v3"]; Execute := fun _ => mret 0; stack_repeats := 0 |}.
Definition block := MkBlock 10 777 10 false.
Definition payment : TransactionEnv :=
  MkTxEnv (MkTransaction "alice" 1 5000 1 0 "" [pay_coin_op "" "A" 1000 ""] 1) [MkSignature "alice" "alice"].
Definition start (l : list TransactionFrm) : LState := MkLState empty_store l 0 0 empty_store JNull.

Lemma scripts_end : programs_behave 2.
Proof.
  split.
  - intros st source st' [= <-]. done.
  - intros st name f input Hs. destruct st as [source| |]; try done. injection Hs as <-. cbn. unfold calls.
    repeat case_bool_decide; cbn; repeat first [done|split|intros []].
Qed.

Lemma accounts_good : good (@AccountFromDB ledger).
Proof.
  intros k a. unfold AccountFromDB. cbn. unfold accounts. repeat case_bool_decide; cbn; intros [= <-]; by vm_compute.
Qed.

Lemma start_live : live (P := ledger) 0 (start [Initialize (P := ledger) payment]).
Proof.
  apply (live_fresh (P := ledger) _ (Initialize (P := ledger) payment)); [reflexivity|reflexivity|reflexivity|apply accounts_good|].
  cbn. unfold int64_max. lia.
Qed.
End Toy.

(** ** Theorems *)





