(* ===== verification/ContractBlock.v ===== *)
(** * Blocks with contracts

    Proposing and checking a block run its transactions one after the other: whatever
    contracts they call, the node comes back from it with its stack of transactions
    empty. *)
From S2P Require Import Prelude Uint128 Uint128Facts Strings StringsFacts OrdMap AtomMap AtomMapFacts Account Chain TxFrame Operation Transaction Ledger EnvFacts LedgerSpec OperationFacts CoinFacts TransactionFacts BlockSpec RoundFacts RewardFacts V8 ContractCalls ContractEngine ContractInv ContractTx ContractReads ContractFacts.
Import U128.

Open Scope string_scope.
Open Scope Z_scope.

Section Block.
Context `{P : LedgerParams} (blk : BlockInfo) (A : nat -> Prop).
Context (exec : runs_contracts A) (reserve : 0 <= cfg_base_reserve <= int64_max).
Context (sizes : forall te, 0 <= ByteSize te).
Implicit Types (s : LState) (t : TransactionFrm) (B : Prop).

(** The block's environment, between two steps. *)
Record base s : Prop := {
  ba_ok : ok 0 s;
  ba_len : length (maps_ (env_ s)) = 2%nat;
  ba_settings : wf (settings_ s) /\ length (maps_ (settings_ s)) = 2%nat;
  ba_good : good (V 0 s);
  ba_data : good (VB 0 s) }.

Lemma base_step s s' : base s -> ok 0 s' -> step 0 s s' -> settings_ s' = settings_ s -> good (V 0 s') -> base s'.
Proof.
  intros [] Hok Hst Hs Hg. pose proof (step_VB _ _ _ Hst) as HB. destruct Hst as ([Hl _] & _).
  split; [done|congruence|by rewrite Hs|done|by rewrite HB].
Qed.

Lemma base_same s s' : env_ s' = env_ s -> settings_ s' = settings_ s -> base s -> base s'.
Proof.
  intros He Hs [H1 H2 H3 H4 H5]. destruct (same_env 0 s s' He) as (Hok & HV & HB & _).
  split; [by apply Hok|by rewrite He|by rewrite Hs|by rewrite HV|by rewrite HB].
Qed.

Lemma base_live s t : base s -> transaction_stack_ s = [t] -> 0 <= GetGasPrice t <= int64_max -> live 0 s.
Proof. intros [] Hst Hp. split; try done. exists t. by rewrite Hst. Qed.

Lemma base_rel f s s' : base s -> rel f 0 s s' -> base s'.
Proof.
  intros [H1 H2 H3 H4 H5] Hr. destruct (rel_env _ _ _ _ Hr) as [Hl Hc]. split; [apply Hr|congruence| |apply Hr|].
  - destruct (rel_settings _ _ _ _ Hr) as [Hw ->]. by split; [|apply H3].
  - intros k a. unfold VB, base_view. rewrite Hc by lia. apply H5.
Qed.

Lemma base_commit s : base s -> base (committed 0 s) /\ V 0 (committed 0 s) = V 0 s.
Proof.
  intros [H1 H2 [H3 H3'] H4 H5]. destruct (env_Commit_run 0 s H1) as (s' & Hr & Hok & HV & HB & _).
  rewrite env_Commit_eq in Hr. injection Hr as <-. split; [|done]. destruct H1 as (Hw & _).
  destruct (commit_store_wf (env_ s) 0 Hw) as (_ & Hl & _); [lia|].
  destruct (commit_store_wf (settings_ s) 0 H3) as (Hws & Hls & _); [lia|].
  split; [done|exact (eq_trans Hl H2)|split; [exact Hws|exact (eq_trans Hls H3')]|by rewrite HV|by rewrite HB].
Qed.

Lemma GetEntry_settings d k s p s' es : GetEntry d k s = Returns (p, s', es) -> settings_ s' = settings_ s.
Proof. unfold GetEntry, on_env. destruct (Get _ _ _ _) as [[[x e] l]|]; [|done]. by intros [= _ <- _]. Qed.

(** An account of the block's environment. *)
Lemma base_entry B k {Y} (K : option loc -> LM Y) s (Q : Y -> LState -> Prop) : base s ->
  (forall p s1, base s1 -> V 0 s1 = V 0 s -> VB 0 s1 = VB 0 s -> transaction_stack_ s1 = transaction_stack_ s -> total_fee_ s1 = total_fee_ s ->
     match p with Some l => exists a, V 0 s k = Some a /\ pts 0 s1 k l a | None => V 0 s k = None end -> wp B (K p) s1 Q) ->
  wp B (GetEntry 0 k ≫= K) s Q.
Proof.
  intros Hb HK. destruct (GetEntry_run 0 k s (ba_ok _ Hb)) as (p & s1 & Hr & Hok1 & Hst & HV & _ & Hp).
  eapply wp_step; [exact Hr|]. pose proof (step_VB _ _ _ Hst) as HB. pose proof Hst as (_ & Hs & Hf & _).
  apply HK; try done. eapply base_step; try done; [by eapply GetEntry_settings|]. rewrite HV. apply Hb.
Qed.

Lemma base_write B k l a a' {Y} (K : unit -> LM Y) s (Q : Y -> LState -> Prop) : base s -> pts 0 s k l a -> in_range a' ->
  (forall s1, base s1 -> V 0 s1 = upd k a' (V 0 s) -> transaction_stack_ s1 = transaction_stack_ s -> pts 0 s1 k l a' ->
     wp B (K tt) s1 Q) ->
  wp B (write_account l a' ≫= K) s Q.
Proof.
  intros Hb Hp Ha HK. destruct (write_account_run 0 s k l a a' (ba_ok _ Hb) Hp) as (s1 & Hr & Hok1 & Hst & HV & Hp1 & _).
  eapply wp_step; [exact Hr|]. pose proof Hst as (_ & Hs & _). apply HK; try done.
  eapply base_step; try done; [cbn in Hr; by injection Hr as <-|]. rewrite HV. by apply good_upd; [apply Hb|].
Qed.

(** ** One transaction *)
Lemma wp_valid B s te : base s -> V 0 s = VB 0 s -> transaction_stack_ s = [] -> typed_tx te ->
  wp B (ValidForApply blk 0 (negb (bi_test_mode blk)) (Initialize te)) s (fun r s' =>
    base s' /\ V 0 s' = V 0 s /\ VB 0 s' = VB 0 s /\ transaction_stack_ s' = []
    /\ (r.1 = true -> r.2 = Initialize te /\ spec_valid blk (V 0 s) (Initialize te) = true)).
Proof.
  intros Hb HVB Hst Hty.
  destruct (ValidForApply_run blk reserve sizes s (V 0 s) (total_fee_ s) te) as (s' & t' & Hr & (Hok & HV & HB & _ & Hst') & _ & Ht');
    [|apply Hb|done|].
  { split; [apply Hb|]. by rewrite <- HVB. }
  right. rewrite Hr. assert (Hf : settings_ s' = settings_ s /\ length (maps_ (env_ s')) = length (maps_ (env_ s))).
  { clear - Hr Hb. unfold ValidForApply in Hr. destruct (ValidForParameter _ _ _) as [okb t1].
    destruct okb; cbn [negb] in Hr; [|by hinv Hr].
    destruct (GetEntry_run 0 (GetSourceAddress t1) s (ba_ok _ Hb)) as (p & s1 & Hr1 & Hok1 & ([Hl _] & _) & _ & _ & Hp).
    rewrite (hbind_nil _ _ _ p s1 Hr1) in Hr. apply GetEntry_settings in Hr1. destruct p as [l|]; [|by hinv Hr].
    destruct Hp as (a & _ & Hp). rewrite (hbind_nil _ _ _ a s1) in Hr by eapply read_account_run, Hp.
    destruct (negb _); [by hinv Hr|]. destruct (_ && _); [by hinv Hr|].
    apply hbind_inv in Hr as (r & s2 & e1 & e2 & Hc & Hr & _). assert (s2 = s1) as ->; [|destruct r; by hinv Hr].
    unfold CheckFee in Hc. destruct (SafeIntSub _ _ _) as [ok1 lim]. destruct ok1; cbn [negb] in Hc; [|by hinv Hc].
    destruct (lim <? _); [by hinv Hc|]. apply hbind_inv in Hc as (x & s3 & e3 & e4 & Ho & Hc & _).
    assert (s3 = s1) as -> by (unfold on_outcome in Ho; destruct (SafeIntMul _ _ _); by simplify_eq).
    destruct x as [ok2 fee]. by destruct ok2; cbn [negb] in Hc; [destruct (_ <? fee)|]; hinv Hc. }
  destruct Hf as [Hs Hl], Hb. split_and!; [|done|congruence|done|].
  - split; [done|congruence|by rewrite Hs|by rewrite HV|by rewrite HB].
  - cbn. intros Hv. split; [by apply Ht'|done].
Qed.

Lemma wp_PayFee B s t a : base s -> transaction_stack_ s = [] -> V 0 s (GetSourceAddress t) = Some a -> is_s64 (GetFeeLimit t) ->
  0 <= GetFeeLimit t -> cfg_base_reserve <= GetAccountBalance a - GetFeeLimit t ->
  wp B (PayFee 0 t) s (fun r s' => base s' /\ transaction_stack_ s' = []
    /\ if r.1 then r.2 = t /\ is_Some (V 0 s' (GetSourceAddress t)) else V 0 s' = V 0 s /\ VB 0 s' = VB 0 s).
Proof.
  intros Hb Hst Ha Hfs Hf Hbal. assert (Hr : in_range a) by by apply (ba_good _ Hb (GetSourceAddress t)). unfold in_range in Hr.
  unfold PayFee. cbv zeta. apply base_entry; [done|]. intros p s1 Hb1 HV1 HB1 Hst1 _ Hp. rewrite Ha in Hp. rewrite Hst in Hst1.
  destruct p as [l|]; [|done]. destruct Hp as (a' & [= <-] & Hp). apply wp_get.
  destruct (SafeIntAdd _ _ _) as [ok1 total]. destruct ok1; cbn [negb]; [|by apply wp_end].
  apply wp_mod. set (s2 := set_total_fee total s1). assert (Hb2 : base s2) by by apply (base_same s1).
  assert (Hp2 : pts 0 s2 (GetSourceAddress t) l a) by done.
  eapply wp_step; [eapply read_account_run, Hp2|].
  destruct (SafeIntSub _ _ _) as [ok2 nb] eqn:Es. destruct ok2; cbn [negb]; [|by apply wp_end].
  apply SafeIntSub_true in Es as [-> _]; [|unfold is_s64, int64_min; lia|done].
  eapply base_write; [done|exact Hp2|unfold in_range; cbn; lia|]. intros s3 Hb3 HV3 Hst3 _. apply wp_end.
  split_and!; [done|by rewrite Hst3|]. split; [done|]. rewrite HV3, upd_same. eauto.
Qed.

Lemma wp_start B s t : base s -> transaction_stack_ s = [] -> is_Some (V 0 s (GetSourceAddress t)) ->
  wp B (start_transaction t) s (fun me s' => me = 0%nat /\ base s' /\ transaction_stack_ s' = [t]).
Proof.
  intros Hb Hst [a Ha]. unfold start_transaction. apply wp_get. rewrite Hst. cbv zeta. apply wp_mod.
  set (s1 := set_stack _ s). assert (Hb1 : base s1) by by apply (base_same s).
  assert (Hst1 : transaction_stack_ s1 = [t]) by (cbn; by rewrite Hst).
  destruct (NonceIncrease_run 0 0 s1 t a) as (s2 & Hr & Hok2 & Hs2 & Hse & HV2); [apply Hb1|by rewrite Hst1|done|].
  assert (Hb2 : base s2).
  { eapply base_step; [exact Hb1|done|done|done|]. rewrite HV2. apply good_upd; [apply Hb1|]. by apply (ba_good _ Hb (GetSourceAddress t) a). }
  eapply wp_step; [exact Hr|]. eapply wp_step; [apply env_Commit_eq|]. apply wp_end. split; [done|].
  split; [by apply base_commit|]. destruct Hs2 as (_ & Hs2 & _). cbn. by rewrite Hs2.
Qed.

Lemma SafeIntMul_returns x y r : 0 <= y <= int64_max -> exists okb z, SafeIntMul x y r = Returns (okb, z) /\ (is_s64 r -> is_s64 z).
Proof.
  intros Hy. unfold SafeIntMul. destruct (Z.eqb_spec x 0) as [->|Hx]; cbn [obind].
  { do 2 eexists. split; [reflexivity|]. intros _. apply s64_range. }
  assert (exists q, quot64 (s64 (x * y)) x = Returns q) as [q ->].
  { unfold quot64. destruct (Z.eqb_spec x 0); [done|]. destruct (_ && _) eqn:E; [|by eexists]. exfalso.
    apply andb_prop in E as [E1 E2]. apply Z.eqb_eq in E1, E2. subst x.
    rewrite s64_id in E1 by (unfold is_s64, int64_min, int64_max in *; lia). unfold int64_min, int64_max in *. lia. }
  cbn [obind]. destruct (q =? y); do 2 eexists; (split; [reflexivity|]); intros Hr; [apply s64_range|done].
Qed.

(** A change of the only frame. *)
Lemma base_mod B g t {Y} (K : unit -> LM Y) s (Q : Y -> LState -> Prop) : base s -> transaction_stack_ s = [t] ->
  (forall s1, base s1 -> V 0 s1 = V 0 s -> transaction_stack_ s1 = [g t] -> wp B (K tt) s1 Q) -> wp B (mod_tx 0 g ≫= K) s Q.
Proof.
  intros Hb Hst HK. apply wp_mod, HK; [by apply (base_same s)|done|]. cbn. by rewrite Hst.
Qed.

(** The only frame is still that of the transaction. *)
Definition same_tx t t' : Prop := transaction_env_ t' = transaction_env_ t /\ environment_ t' = 0%nat.
Definition settled t s : Prop := base s /\ exists t', transaction_stack_ s = [t'] /\ same_tx t t'.

Lemma wp_ReturnFee B s t : base s -> transaction_stack_ s = [t] -> environment_ t = 0%nat ->
  0 <= GetGasPrice t <= int64_max -> is_s64 (GetFeeLimit t) -> wp B (ReturnFee 0) s (fun _ s' => settled t s').
Proof.
  intros Hb Hst He Hp Hl. unfold ReturnFee. apply (wp_get_tx _ 0 t); [by rewrite Hst|].
  assert (Hret : forall (b : bool) s1, base s1 -> transaction_stack_ s1 = [t] -> wp B (mret b) s1 (fun _ s' => settled t s')).
  { intros b s1 Hb1 Hst1. apply wp_end. split; [done|]. by exists t. }
  assert (Hfail : forall c s1, base s1 -> transaction_stack_ s1 = [t] ->
    wp B (mod_tx 0 (set_result c) ;; mret false) s1 (fun _ s' => settled t s')).
  { intros c s1 Hb1 Hst1. eapply base_mod; [done|exact Hst1|]. intros s2 Hb2 _ Hst2. apply wp_end. split; [done|].
    by exists (set_result c t). }
  destruct (SafeIntMul_returns (actual_gas_ t) (GetGasPrice t) 0 Hp) as (ok1 & fee & Hm & Hfee).
  eapply wp_step; [unfold on_outcome; rewrite Hm; reflexivity|]. destruct ok1; cbn [negb]; [|by apply Hfail].
  destruct (SafeIntSub (GetFeeLimit t) fee 0) as [ok2 rest] eqn:Es. destruct ok2; cbn [negb]; [|by apply Hfail].
  apply SafeIntSub_true in Es as [Er Hrs]; [|done|by apply Hfee].
  destruct (negb (result_ t =? 0)); cbn [orb]; [by apply Hret|]. destruct (Z.leb_spec rest 0); [by apply Hret|]. rewrite He.
  apply base_entry; [done|]. intros p s1 Hb1 HV1 _ Hst1 _ Hpt. rewrite Hst in Hst1.
  destruct p as [l|]; [|by apply Hfail]. destruct Hpt as (a & Ha & Hpt). apply wp_get.
  destruct (SafeIntSub (total_fee_ s1) _ _) as [ok3 total]. destruct ok3; cbn [negb]; [|by apply Hfail].
  apply wp_mod. set (s2 := set_total_fee total s1). assert (Hb2 : base s2) by by apply (base_same s1).
  assert (Hp2 : pts 0 s2 (GetSourceAddress t) l a) by done.
  assert (Hin : in_range a) by by apply (ba_good _ Hb (GetSourceAddress t)). unfold in_range in Hin.
  eapply wp_step; [eapply read_account_run, Hp2|]. destruct (SafeIntAdd _ _ _) as [ok4 nb] eqn:Ea.
  destruct ok4; cbn [negb]; [|by apply Hfail]. apply SafeIntAdd_true in Ea as [-> Hnb]; [|unfold is_s64, int64_min; lia|done].
  eapply base_write; [done|exact Hp2|unfold in_range; cbn; unfold is_s64 in Hnb; lia|].
  intros s3 Hb3 _ Hst3 _. apply Hret; [done|]. by rewrite Hst3.
Qed.

Lemma wp_expired B s t {Y} (K : bool -> LM Y) (Q : Y -> LState -> Prop) : base s -> transaction_stack_ s = [t] -> environment_ t = 0%nat ->
  (forall b s1 t1, base s1 -> transaction_stack_ s1 = [t1] -> same_tx t t1 -> wp B (K b) s1 Q) ->
  wp B (t ← get_tx 0; r ← IsExpire t; let '(expired, t) := r : bool * TransactionFrm in mod_tx 0 (fun _ => t) ;; K expired) s Q.
Proof.
  intros Hb Hst He HK. apply (wp_get_tx _ 0 t); [by rewrite Hst|].
  assert (Hgo : forall x t1 s1, base s1 -> transaction_stack_ s1 = [t] -> same_tx t t1 -> wp B (mod_tx 0 (fun _ => t1) ;; K x) s1 Q).
  { intros x t1 s1 Hb1 Hst1 Ht1. eapply base_mod; [done|exact Hst1|]. intros s2 Hb2 _ Hst2. by eapply HK. }
  unfold IsExpire. cbv zeta. destruct (negb _); [eapply wp_step; [reflexivity|]; by apply Hgo|].
  destruct (_ <? _); [eapply wp_step; [reflexivity|]; by apply Hgo|]. apply wp_assoc. eapply wp_step; [reflexivity|].
  assert (Hb1 : base (set_ticks (S (ticks_ s)) s)) by by apply (base_same s).
  repeat match goal with |- context [if ?x then mret _ else _] => destruct x end; (eapply wp_step; [reflexivity|]); by apply Hgo.
Qed.

(** Proposing and checking: the transaction is applied and settled. *)
Lemma wp_apply_checked s t : base s -> transaction_stack_ s = [t] -> 0 <= GetGasPrice t <= int64_max ->
  is_s64 (GetFeeLimit t) -> Forall coin_args (tx_operations (tran t)) ->
  wp (A 1) (apply_checked blk 0) s (fun _ s' => base s' /\ exists t', transaction_stack_ s' = [t']).
Proof.
  intros Hb Hst Hp Hl Hargs. unfold apply_checked.
  eapply base_mod; [done|exact Hst|]. intros s1 Hb1 _ Hst1. eapply wp_step; [reflexivity|].
  set (s2 := set_ticks _ s1). assert (Hb2 : base s2) by by apply (base_same s1).
  eapply base_mod; [exact Hb2|exact Hst1|]. intros s3 Hb3 _ Hst3. set (t3 := SetMaxEndTime _ _) in Hst3.
  set (s4 := set_stack [attach 0 t3] s3). assert (Hb4 : base s4) by by apply (base_same s3).
  assert (E4 : set_stack (alter (attach 0) 0%nat (transaction_stack_ s3)) s3 = s4) by by rewrite Hst3.
  apply wp_seq. eapply wp_post.
  { replace (A 1) with (A (length (transaction_stack_ s3))) by by rewrite Hst3.
    apply (wp_tx_Apply blk A exec reserve 0 0 false s3 t3); [| |by rewrite Hst3|done].
    - rewrite E4. by apply (base_live s4 (attach 0 t3)).
    - rewrite E4. by exists [], (attach 0 t3). }
  rewrite E4. cbn beta. intros ret s5 [Hr _]. pose proof (base_rel _ _ _ Hb4 Hr) as Hb5.
  destruct (rel_split _ _ _ _ [] (attach 0 t3) Hr eq_refl) as (l & t5 & Hst5 & _ & [Ht5 He5 _ _] & Hlen). destruct l; [|done].
  assert (Htx : forall x, transaction_env_ x = transaction_env_ t5 -> 0 <= GetGasPrice x <= int64_max /\ is_s64 (GetFeeLimit x)).
  { intros x Ex. unfold GetGasPrice, GetFeeLimit, tran in *. by rewrite Ex, Ht5. }
  apply (wp_expired _ s5 t5 (fun expired => if expired then mret (Some true) else if negb ret then mret (Some false)
     else ReturnFee 0 ;; env_Commit 0 ;; mret None)); [done|done|done|].
  intros b s6 t6 Hb6 Hst6 [Et6 He6]. destruct b; [apply wp_end; eauto|]. destruct ret; cbn [negb]; [|apply wp_end; eauto].
  destruct (Htx t6 Et6) as [Hp6 Hl6]. apply wp_seq. eapply wp_post; [by apply (wp_ReturnFee _ s6 t6)|]. cbn beta.
  intros _ s7 [Hb7 (t7 & Hst7 & _)]. eapply wp_step; [apply env_Commit_eq|]. apply wp_end.
  split; [by apply base_commit|]. exists t7. done.
Qed.

Lemma wp_end_transaction B s t b : base s -> transaction_stack_ s = [t] ->
  wp B (end_transaction 0 b) s (fun _ s' => base s' /\ V 0 s' = VB 0 s' /\ transaction_stack_ s' = []).
Proof.
  intros Hb Hst. unfold end_transaction.
  destruct (env_ClearChangeBuf_run 0 s (ba_ok _ Hb)) as (s1 & Hr & Hok1 & HV1 & HB1 & Hst1 & _).
  eapply wp_step; [exact Hr|]. apply (wp_get_tx _ 0 t); [by rewrite Hst1, Hst|].
  eapply wp_step; [apply (pop_tx_run _ [] t); by rewrite Hst1|]. apply wp_end.
  assert (Hb1 : base s1).
  { destruct Hb as [(Hw & Hd & _) Hl [Hws Hls] _ Hg]. destruct (clear_spec (env_ s) 0 Hw Hd) as (_ & Hlen & _).
    destruct (clear_spec (settings_ s) 0 Hws) as (Hw2 & Hlen2 & _); [lia|]. cbn in Hr. injection Hr as <-.
    split; [done|exact (eq_trans Hlen Hl)|split; [exact Hw2|exact (eq_trans Hlen2 Hls)]|by rewrite HV1|by rewrite HB1]. }
  split; [by apply (base_same s1)|]. split; [|done]. change (V 0 s1 = VB 0 s1). by rewrite HV1, HB1.
Qed.

(** ** Rewards *)
Lemma wp_eq B {X} (m m' : LM X) s s' (Q : X -> LState -> Prop) : m s = m' s' -> wp B m' s' Q -> wp B m s Q.
Proof. intros E. unfold wp. by rewrite E. Qed.

Definition points s (p : option loc) : Prop := exists k l a, p = Some l /\ pts 0 s k l a.

Lemma points_kept s s' p : pts_kept s s' -> points s p -> points s' p.
Proof. intros Hk (k & l & a & -> & Hp). destruct (Hk k l a Hp) as [a' Hp']. by exists k, l, a'. Qed.

Lemma wp_reward_validators B idx avg set : forall i left ra s, ok 0 s -> i <= idx \/ points s ra ->
  wp B (reward_validators i idx avg left ra set) s (fun r s' =>
    transaction_stack_ s' = transaction_stack_ s
    /\ match r with Some (_, ra') => ok 0 s' /\ (idx < i + Z.of_nat (length set) -> points s' ra') | None => True end).
Proof.
  induction set as [|addr set IH]; intros i left ra s Hok Hi; cbn [reward_validators].
  { apply wp_end. split; [done|]. split; [done|]. cbn. intros ?. destruct Hi; [lia|done]. }
  match goal with |- wp _ (GetEntry 0 addr ≫= fun p => _ ≫= ?K) s _ =>
    destruct (entry_or_new addr s K Hok) as (l & s1 & Hrun & Hok1 & (_ & Hst1 & _) & Hp & _ & Hk) end.
  eapply wp_eq; [exact Hrun|]. clear Hrun.
  cbv zeta. eapply wp_step; [eapply read_account_run, Hp|]. destruct (SafeIntAdd _ _ _) as [ok1 nb]. destruct ok1; cbn [negb]; [|by apply wp_end].
  destruct (write_kept addr l _ (map_info (set_balance nb) (default (CreatAccountFrm addr 0) (V 0 s addr))) s1 Hok1 Hp)
    as (s2 & Hr & Hok2 & (_ & Hst2 & _) & _ & Hp2 & Hk2). eapply wp_step; [exact Hr|].
  eapply wp_post; [apply IH; [done|]|].
  - destruct (Z.eqb_spec idx i) as [->|Hne]; [right; by exists addr, l, (map_info (set_balance nb) (default (CreatAccountFrm addr 0) (V 0 s addr)))|].
    destruct Hi as [Hi|Hi]; [left; lia|right]. by eapply points_kept, points_kept.
  - intros r s' [Hst Hq]. split; [congruence|]. destruct r as [[x ra']|]; [|done]. destruct Hq as [H1 H2]. split; [done|].
    intros Hlt. apply H2. cbn [length] in Hlt. lia.
Qed.

Lemma wp_RewardDirectly B total s : ok 0 s -> 0 <= bi_header_seq blk -> wp B (AllocateRewardDirectly blk total) s (fun _ s' => transaction_stack_ s' = transaction_stack_ s).
Proof.
  intros Hok Hseq. unfold AllocateRewardDirectly. destruct (GetValidators _) as [set|]; [|by apply wp_end].
  case_bool_decide as Hset; [by apply wp_end|]. cbv zeta. destruct set as [|x set]; [done|].
  assert (Hidx : 0 <= Z.rem (bi_header_seq blk) (Z.of_nat (length (x :: set))) < Z.of_nat (length (x :: set))) by (apply Z.rem_bound_pos; cbn; lia).
  apply wp_seq. eapply wp_post; [apply wp_reward_validators; [done|left; apply Hidx]|]. cbn beta.
  intros r s1 [Hst1 Hq]. destruct r as [[left ra]|]; [|by apply wp_end]. destruct Hq as [Hok1 Hra]. destruct (0 <? left); [|by apply wp_end].
  destruct Hra as (k & l & a & -> & Hp); [lia|]. eapply wp_step; [eapply read_account_run, Hp|].
  destruct (SafeIntAdd _ _ _) as [ok1 nb]. destruct ok1; cbn [negb]; [|by apply wp_end].
  destruct (write_kept k l a (map_info (set_balance nb) a) s1 Hok1 Hp) as (s2 & Hr & _ & (_ & Hst2 & _) & _).
  eapply wp_step; [exact Hr|]. apply wp_end. congruence.
Qed.

Lemma wp_AllocateReward B s : ok 0 s -> 0 <= bi_header_seq blk -> wp B (AllocateReward blk) s (fun _ s' => transaction_stack_ s' = transaction_stack_ s).
Proof.
  intros Hok Hseq. unfold AllocateReward. apply wp_get. cbv zeta. destruct (_ || _); [by apply wp_end|].
  assert (Hlast : forall b s1, transaction_stack_ s1 = transaction_stack_ s -> wp B (if negb b then mret false else env_Commit 0 ;; mret true) s1 (fun _ s' => transaction_stack_ s' = transaction_stack_ s)).
  { intros [] s1 Hs1; cbn [negb]; [|by apply wp_end]. eapply wp_step; [apply env_Commit_eq|]. by apply wp_end. }
  apply wp_seq. eapply (wp_post _ _ _ (fun _ s' => transaction_stack_ s' = transaction_stack_ s)); [|intros b s1; apply Hlast].
  destruct CHECK_VERSION_GT_1002; [|by apply wp_RewardDirectly].
  destruct (GetEntry_run 0 GET_CONTRACT_VALIDATOR_ADDRESS s Hok) as (p & s1 & Hr & Hok1 & (_ & Hst1 & _) & _ & _ & Hp).
  eapply wp_step; [exact Hr|]. destruct p as [l|].
  2:{ rewrite <- Hst1. by apply wp_RewardDirectly. }
  destruct Hp as (a & _ & Hp).
  eapply wp_step; [eapply read_account_run, Hp|]. destruct (SafeIntAdd _ _ _) as [ok1 nb]. destruct ok1; cbn [negb]; [|by apply wp_end].
  destruct (write_kept _ l a (map_info (set_balance nb) a) s1 Hok1 Hp) as (s2 & Hr2 & _ & (_ & Hst2 & _) & _).
  eapply wp_step; [exact Hr2|]. apply wp_end. congruence.
Qed.

(** ** The loops *)
Definition ready s : Prop := base s /\ V 0 s = VB 0 s /\ transaction_stack_ s = [].

(** One transaction: it is not valid, its fee cannot be paid, or it is applied. *)
Lemma wp_round {Y} s te (log : option bool -> BlockLog) (Kno : TransactionFrm -> LM Y) (Kyes : BlockLog -> LM Y)
  (Q : Y -> LState -> Prop) : ready s -> typed_tx te ->
  (forall t s1, ready s1 -> wp (A 1) (Kno t) s1 Q) -> (forall b s1, ready s1 -> wp (A 1) (Kyes b) s1 Q) ->
  wp (A 1) (v ← ValidForApply blk 0 (negb (bi_test_mode blk)) (Initialize te);
    let '(valid, tx_frm) := v : bool * TransactionFrm in
    if negb valid then Kno tx_frm
    else
    f ← PayFee 0 tx_frm;
    let '(paid, tx_frm) := f : bool * TransactionFrm in
    if negb paid then Kno tx_frm
    else me ← start_transaction tx_frm; r ← apply_checked blk me; b ← end_transaction me (log r); Kyes b) s Q.
Proof.
  intros (Hb & HVB & Hst) Hty Hno Hyes. apply wp_seq. eapply wp_post; [by apply wp_valid|]. cbn beta.
  intros [valid t0] s0 (Hb0 & HV0 & HB0 & Hst0 & Hq). destruct valid; cbn [negb]; [|apply Hno; split_and!; [done|congruence|done]].
  destruct (Hq eq_refl) as [Et Hv]. cbn in Et. subst t0.
  destruct (spec_valid_funded blk sizes (V 0 s) te Hty Hv) as [a [Hsrc Hfee Hbal _ Hargs]].
  destruct (spec_valid_affordable blk sizes (V 0 s) te Hty Hv) as [_ Hprice _ _]. destruct Hty as (Hfs & _ & _).
  apply wp_seq. eapply wp_post; [apply (wp_PayFee _ s0 (Initialize te) a); try done; by rewrite HV0|]. cbn beta.
  intros [paid t] s1 (Hb1 & Hst1 & Hq1). cbn in Hq1. destruct paid; cbn [negb].
  2:{ apply Hno. destruct Hq1. split_and!; [done|congruence|done]. }
  destruct Hq1 as [-> Hs1].
  apply wp_seq. eapply wp_post; [by apply wp_start|]. cbn beta. intros me s2 (-> & Hb2 & Hst2).
  apply wp_seq. eapply wp_post; [by apply (wp_apply_checked s2 (Initialize te))|]. cbn beta. intros r s3 (Hb3 & t3 & Hst3).
  apply wp_seq. eapply wp_post; [by eapply wp_end_transaction|]. cbn beta. intros b4 s4 H4. by apply Hyes.
Qed.

Lemma ready_tick s : ready s -> ready (set_ticks (S (ticks_ s)) s).
Proof. intros (Hb & HV & Hst). split_and!; [by apply (base_same s)|done|done]. Qed.

Lemma wp_checks start l : forall i b s, ready s -> Forall typed_tx l ->
  wp (A 1) (check_loop blk start i b l) s (fun r s' => transaction_stack_ s' = [] /\ (r = None \/ ready s')).
Proof.
  induction l as [|te l IH]; intros i b s Hs Hl; cbn [check_loop]; [apply wp_end; split; [apply Hs|by right]|].
  inversion_clear Hl as [|? ? Hty Hl'].
  apply (wp_round s te (fun r => match r with Some true => log_expired i b | Some false => log_error i b | None => b end)
    (fun _ => mret None) (fun b => now ← HighResolution; if BLOCK_EXECUTE_TIME_OUT <? s64 (now - start) then mret None
       else check_loop blk start (i + 1) b l)); [done|done| |].
  - intros t s1 Hs1. apply wp_end. split; [apply Hs1|by left].
  - intros b1 s1 Hs1. eapply wp_step; [reflexivity|]. destruct (_ <? _); [apply wp_end; split; [apply Hs1|by left]|]. apply IH; [|done]. by apply ready_tick.
Qed.

Lemma wp_propose_loop start l : forall i b s, ready s -> Forall typed_tx l ->
  wp (A 1) (propose_loop blk start i b l) s (fun r s' => transaction_stack_ s' = [] /\ (r = None \/ ready s')).
Proof.
  induction l as [|te l IH]; intros i b s Hs Hl; cbn [propose_loop]; [apply wp_end; split; [apply Hs|by right]|].
  inversion_clear Hl as [|? ? Hty Hl'].
  apply (wp_round s te (fun r => let id := i - Z.of_nat (base.size (need_dropped b)) in
      match r with Some true => log_expired id b | Some false => log_error id b | None => b end)
    (fun t => propose_loop blk start (i + 1) (log_dropped i t b) l)
    (fun b => now ← HighResolution; if BLOCK_EXECUTE_TIME_OUT <? s64 (now - start) then mret None
       else propose_loop blk start (i + 1) b l)); [done|done| |].
  - intros t s1 Hs1. by apply IH.
  - intros b1 s1 Hs1. eapply wp_step; [reflexivity|]. destruct (_ <? _); [apply wp_end; split; [apply Hs1|by left]|]. apply IH; [|done]. by apply ready_tick.
Qed.

Context (db : good AccountFromDB) (seq : 0 <= bi_header_seq blk).

Lemma ready_fresh s : transaction_stack_ s = [] -> ready (set_total_fee 0 (fresh_environment s)).
Proof.
  intros Hst. destruct (empty_env (set_total_fee 0 (fresh_environment s)) eq_refl) as (Hok & HV & HB).
  split; [|by rewrite HV, HB]. split; [done|done|split; [apply empty_wf|done]|by rewrite HV|by rewrite HB].
Qed.

Lemma wp_ApplyCheck s value : transaction_stack_ s = [] -> Forall typed_tx (cv_txs value) ->
  wp (A 1) (ApplyCheck blk value) s (fun _ s' => transaction_stack_ s' = []).
Proof.
  intros Hst Hty. unfold ApplyCheck. eapply wp_step; [reflexivity|]. apply wp_mod.
  destruct (CheckConsValueValidation value) as [[ex er]|]; [|by apply wp_end].
  apply wp_seq. eapply wp_post; [apply wp_checks; [by apply ready_fresh|done]|]. cbn beta.
  intros [b|] s1 [Hst1 Hq]; [|by apply wp_end]. destruct Hq as [|Hr]; [done|].
  apply wp_seq. eapply wp_post; [apply wp_AllocateReward; [apply Hr|done]|]. intros x s2 Hst2. apply wp_end. congruence.
Qed.

Lemma wp_ApplyPropose s value : transaction_stack_ s = [] -> Forall typed_tx (cv_txs value) ->
  wp (A 1) (ApplyPropose blk value) s (fun _ s' => transaction_stack_ s' = []).
Proof.
  intros Hst Hty. unfold ApplyPropose. eapply wp_step; [reflexivity|]. apply wp_mod. case_bool_decide; [by apply wp_end|].
  apply wp_seq. eapply wp_post; [apply wp_propose_loop; [by apply ready_fresh|done]|]. cbn beta.
  intros [b|] s1 [Hst1 Hq]; [|by apply wp_end]. destruct Hq as [|Hr]; [done|].
  apply wp_seq. eapply wp_post; [apply wp_AllocateReward; [apply Hr|done]|]. intros x s2 Hst2. apply wp_end. congruence.
Qed.
End Block.

(** ** Theorems *)


